(* ===== verification/_CoqProject ===== *)
-Q . S2P
Prelude.v
GoInt.v
Decimal.v
Heights.v
ChainTypes.v
Geth.v
EthModel.v
EthFilterer.v
Rewards.v
EthIpld.v
Sql.v
Queries.v
Blocks.v
Cleaning.v
EthDB.v
EthPublisher.v
EthRetriever.v
EthEquivalence.v
EthCleaner.v
EthFetcher.v
EthConverter.v
EthApi.v
EthServe.v
EthLogs.v
Service.v
EthService.v
ServiceApi.v
WorkerPool.v
SyncLoop.v
NodeSetup.v
NodeRun.v
Watcher.v
WatcherRuns.v
HistoricalFeed.v
WatcherConverter.v
WatcherDB.v
IpldNodes.v
TrieNode.v
DagPut.v
Agreement.v
EthIpfs.v
StorageDecode.v
StorageSync.v
StorageBackFill.v
BlockChain.v
HeaderSync.v
EventLogs.v
EventTransform.v
Memory.v
ContractTypes.v
ContractDB.v
ContractConverter.v
ContractWatcher.v
ContractPolling.v
ContractInit.v
ContractGetter.v
ContractSettings.v
ContractExample.v
BtcModel.v
BtcSettings.v
WatcherSetup.v
BtcIpld.v
BtcDB.v
BtcIpfs.v
BtcCleaner.v
BtcRetriever.v
BtcFilterer.v
BtcFetcher.v
BtcService.v
