(* ===== verification/Prelude.v ===== *)
(** * VulcanizeDB: verification development

    VulcanizeDB's super node (src/pkg/super_node) streams blocks with their
    state diffs from a chain, turns them into IPLD blocks, stores these in
    Postgres under their CIDs with an index of metadata, and serves live and
    historical data to subscribers.  Beside it, header sync (pkg/eth/history)
    keeps the chain's headers, and transformers (libraries/shared) turn the
    logs of these headers and the storage diffs of contracts into rows of
    their own; the generic contract watcher (pkg/eth/contract_watcher) does
    so for any contract, from its ABI alone; the watcher (pkg/watcher) is a
    subscriber of the super node that feeds trigger tables.  This development
    models the super node's pipelines for Ethereum and Bitcoin with its
    configuration and its APIs, the other four for Ethereum, the processes that
    drive them, and the utilities they share.

    ** The program and the files

    A raw payload travels: streamer -> converter -> publisher -> indexer, and
    in parallel converter -> filterer -> subscribers; a historical request
    travels retriever -> fetcher -> subscriber; a cleaner removes ranges.
    Headers travel: chain client -> header repository, filled from behind by
    the back-filler and rewritten near the head by the validator.  Logs travel:
    header to check -> log extractor -> log repository -> chunker -> event
    transformer -> table of the event, and are then marked as transformed.
    Storage diffs travel: fetcher or back-filler -> watcher -> transformer,
    with a queue for those whose transformer failed.  In the contract watcher a
    header travels: header missing for all events -> logs of the contracts ->
    converter -> table of each event; the header is then marked, and the methods
    of the contracts are polled with the values the converter collected.  In the
    watcher a packet travels: subscription -> relay -> channel -> queue or
    repository -> converter -> tables.

    - Prelude: Go results ([Ok], [Err], [Panic]), loops, automation.
    - GoInt: uint64 and int64 arithmetic with wrap-around.  Decimal: the
      printing and parsing of decimal numbers.
    - Heights: libraries/shared/utilities/utils.go, batching of ranges and
      folding of missing heights into gaps.
    - ChainTypes: enumerations and their parsers (super_node/shared).
    - Geth: what the code calls in go-ethereum and go-cid, as type classes with
      separate classes for the laws used; [Concrete] instantiates them for the
      witnesses.
    - EthModel: types.go, models.go, subscription_config.go, helpers.go.
    - EthConverter: converter.go.  EthFilterer: filterer.go.
    - EthIpld: pkg/ipfs/ipld, the nodes and tries of a block.
    - Rewards: block and uncle rewards.
    - Sql: sessions.  A statement acts on tables and sequences; an oracle
      decides which statements the server rejects; an error aborts the
      transaction; the transaction idioms of the repository (explicit
      Rollback, and the deferred closure that looks at an outer [err], alone or
      after an explicit Commit) are [transact], [transact_deferred] and
      [transact_early].  The order of the rows of a SELECT without ORDER BY is
      the parameter [RowOrder], of which only that it is a permutation is
      assumed.  [db_range] is a loop over int64 heights with queries in its
      body.  [keeps] and [hoare] state what a
      function guarantees whatever the oracle does.
    - What the schemas of both chains share: Blocks, the table public.blocks
      with [PublishIPLD] and [FetchIPLD], for any tables that satisfy
      [BlockTableLaws]; Queries, the SELECT statements on block numbers and the
      gap query; Cleaning, transactions that delete rows.
    - EthDB: the eth schema and indexer.go.  EthPublisher:
      publish_and_indexer.go.  EthRetriever: cid_retriever.go.  EthCleaner:
      cleaner.go.  EthFetcher: ipld_pg_fetcher.go and ipld_fetcher.go.
    - EthEquivalence: the live filter against the SQL of the retriever.
    - EthApi: api.go and backend.go, the eth RPC API over the tables; EthServe:
      what it answers for a published block; EthLogs: what GetLogs selects.
    - Service: service.go, subscription.go, helpers.go, for any [Chain];
      EthService instantiates [Chain] with the Ethereum definitions.
      ServiceApi: super_node/api.go, the relay from a subscription's channel to
      its client.
    - WorkerPool: resync/service.go and backfiller.go, for any [Pipeline].
    - SyncLoop: [Sync] and [publishAndIndex] of service.go.
    - NodeSetup: config.go, constructors.go, NewSuperNode, the back-filler's and
      resync's configuration and services, env.go, the database handle.
      NodeRun: cmd/superNode.go, and what a configured node is.  BtcSettings:
      the Bitcoin subscription settings from the configuration.
    - Watcher: pkg/watcher/service.go over the class [Repository]; WatcherRuns:
      its runs; HistoricalFeed: the goroutine of sendHistoricalData, the relay
      and a watcher of historical data side by side.  WatcherConverter: pkg/watcher/eth/converter.go.  WatcherDB:
      pkg/watcher/eth/repository.go, which instantiates [Repository].
      WatcherSetup: config.go and constructors.go of pkg/watcher, and
      pkg/wasm/instantiator.go.
    - IpldNodes: eth_header.go, eth_tx.go, eth_receipt.go and eth_account.go as
      IPLD nodes.  TrieNode: trie_node.go and the four trie wrappers
      of pkg/ipfs/ipld.  DagPut: pkg/ipfs/dag_putters over
      a DAG service.  EthIpfs: publisher.go.  Agreement: what it takes for a
      publisher through IPFS to store the same rows as the one on Postgres.
    - Bitcoin (super_node/btc), file by file after the Ethereum ones: BtcModel
      (data, converter, payload fetcher and a tick of the HTTP streamer),
      BtcIpld (btc_parser.go and the nodes), BtcDB (indexer and publisher on
      Postgres), BtcIpfs (publisher through IPFS), BtcCleaner, BtcRetriever,
      BtcFilterer (with the comparison to the SQL), BtcFetcher, and BtcService,
      which instantiates [Chain].
    - BlockChain: pkg/eth/blockchain.go and the converters of headers and RPC
      transactions.  HeaderSync: header_repository.go, pkg/eth/history and the
      back-filling rounds of cmd/headerSync.go.
    - EventLogs: libraries/shared/logs/extractor.go with the repositories of
      logs, addresses, receipts and checked headers, the log fetcher and the
      transactions syncer.  EventTransform: log_chunker.go,
      factories/event, delegator.go and event_watcher.go.
    - StorageDecode: storage/utils.  StorageSync: storage_watcher.go, its
      queue and repository, and factories/storage.  StorageBackFill:
      storage/backfiller.go and the three fetchers of diffs.
    - Memory: a state-and-error monad of the contract watcher, whose operations
      act on the fields of the watcher and, through Sql, on the database.
      [mhoare] and [mkeeps] state what holds whatever fails, [m_moves] that an
      operation only moves along a preorder, [achieves] what an operation that
      returns has reached, [fails_with] with which errors it can fail.
    - The contract watcher (pkg/eth/contract_watcher): ContractTypes (the
      data, the ABI parser, contract/contract.go), ContractDB (the schemas the
      watcher creates, event_repository.go, method_repository.go,
      header_repository.go), ContractConverter (retrievers, converter.go, the
      interface helpers), ContractWatcher (transformer.go and poller.go),
      ContractPolling (what polling stores), ContractInit (the invariant that
      [Init] sets up; libraries/shared/watcher/contract_watcher.go),
      ContractGetter (getter, fetcher, the constants and the Tusd helpers),
      ContractSettings (config/contract.go), ContractExample (a token, on which
      the theorems are applied).

    ** Modelling

    A Go function is a function of the same name; a method that changes state
    takes and returns the state.  A nil error is [Ok], a panic is [Panic] and
    aborts the caller.  Formatted error texts are abbreviated where nothing
    reads them.  Integers are [Z]; [Int64()], conversions and uint64 arithmetic
    wrap.  A row is a record, a table a list of rows, a SELECT a comprehension
    on the tables built the way the statement text is; an upsert is an update
    in place or an insertion with the next sequence value; ON DELETE CASCADE is
    written out.  Channels have an identity, a capacity and a buffer, so shared
    channels are shared; a send in a [select] with a default succeeds exactly
    when the buffer has room.  The order in which Go ranges over a map is a
    parameter, constrained only to be a permutation of the map.  Goroutines are
    step relations: WorkerPool and SyncLoop interleave them at the granularity
    of channel operations and of the calls of the pipeline -- a worker fetches,
    converts, publishes and indexes in separate steps, between which the other
    workers run; a single publishing or indexing is one step, being one database
    transaction.  A panic in a goroutine is not recovered and ends the process:
    nothing steps after it.  The state machine of Service has one step per
    handler, because handlers hold the service's lock, plus
    arbitrary traffic on the channels; the watcher's two goroutines interleave at
    each access of their index, each call of the repository and each
    communication, and the relay of a subscription with the handlers.  The
    historical feed of [Subscribe] is a goroutine of its own; in Service it is
    run to its end where it is started, and [quit_before] says at which heights
    it sees the quit channel closed; HistoricalFeed interleaves it, height by
    height and packet by packet, with the relay and the client.

    ** What the theorems show

    - Storing: publishing and indexing keep the schema well-formed -- keys,
      foreign keys, sequences -- under every failure pattern, are atomic, store
      every block under its CID, and count validations; cleaning removes
      exactly the rows of the ranges.  A refused COMMIT is reported as success.
      The two publishers of each chain store the same rows; trie nodes resolve
      the paths their compact keys encode; the Merkle tree of a Bitcoin block
      leads from its root to every transaction.
    - Serving: the filter and the converter do what they promise; a round of
      [filterAndServe] delivers exactly the filtered payload to each live
      subscriber; the subscription maps satisfy their invariant in every
      reachable state; subscribing, unsubscribing and stopping are exact.
    - History: the gap query is complete; the fetcher returns the stored
      blocks; live and historical selections agree except where the theorems
      say so.
    - API: a published block is served by the eth API as it decodes, and GetLogs
      answers with exactly the logs of the rows and topics asked for.
    - Setting up: an accepted configuration gives a node whose parts are wired to
      its chain, but for the indexer of Bitcoin in direct Postgres mode, and
      whose numbers are within their bounds.
    - Watching: however the feed, the relay and the watcher interleave, a
      historical subscription is handed over in order, and whole when the
      channel has room; with live data no height is handed over twice, and
      none is skipped while the queue works; the relay keeps order; the converted
      models agree with the indexed ones up to the fields that are not set.  On
      Postgres the queue does not work, and state nodes are indexed into one row.
    - Processes: under every interleaving, resync and back-filling publish every
      fetched payload exactly once and index what publishing returned, each
      index after its publishing; they cannot block, and end otherwise only by a
      panic of a call.  Workers of [Sync] receive payloads in order and none
      twice; what they store is the replay of their calls, in another order.
    - Headers: header sync keeps its schema well-formed, at most one header per
      height and node (when passes do not interleave), follows
      reorganisations inside the validation window, and fills every gap in
      finitely many rounds.
    - Logs: a checked header has the watched logs stored, whatever fails;
      stored logs are read back unchanged; chunks are exact; a transformed log
      has an event.
    - Storage diffs: packed slots decode to what was packed; no diff is lost
      while the queue accepts insertions; the back-filler terminates, and
      stalls only above ten bins.
    - Contracts: a header that is counted for an event has the logs of every
      watched event in their tables; the headers that [Execute] picks are the
      first run of consecutive unchecked ones, and afterwards they are checked;
      the contracts, events, methods and filters are those of the configuration;
      polling stores the answer of every method for every collected value, and
      a failed poll is not repeated; the fields of the watcher agree after
      [Init] and ever after.
    - Errors: where a panic, a lost error or a blocked process is reachable the
      theorem gives the exact condition.

    ** Bounds

    Loops over lists are structural.  [Heights.block_range] has fuel
    [nextBinStart - startingBlock], an upper bound of its iterations
    ([Heights.block_range_fuel]); theorems about bins assume that the last
    block plus the batch size fits 64 bits.  Schedules of the worker pools are
    finite because each step decreases [WorkerPool.cost].  [Sql.db_range] takes a
    bound on its rounds and answers [None] where it is reached;
    [GetLogs] ends within as many rounds as the range has heights, and never
    when the range ends at the largest int64.  The loop of
    the Merkle tree has the number of transactions as fuel, since each layer
    is at most half as long as the one before, rounded up.

    ** Not modelled

    RLP, hashing, CIDs, tries, Bitcoin's serialization and script analysis, the
    Postgres and RPC drivers and the block and DAG services of IPFS are
    parameters.  Websocket streamers, the payload fetcher of Ethereum, commands
    other than superNode and headerSync, generated plugins, test doubles and thin
    clients are I/O or wiring.  The repository
    of watched logs has no implementation in the code and is a parameter.  The
    ABI decoder and the contract calls of go-ethereum are parameters of the
    contract watcher. *)

From Stdlib Require Export ZArith Lia Ascii.
From stdpp Require Export base gmap strings list sorting pretty.

#[global] Open Scope Z_scope.

(** ** Go values: errors and results *)

(** An error value.  [Sentinel] is a package-level error variable, which the
    code compares by identity; [Errorf] is a freshly built message; [Driver] is
    an error produced outside the repository (database driver, RPC client). *)
Inductive error : Type :=
| Sentinel (name : string)
| Errorf (msg : string)
| Driver (msg : string).

#[global] Instance error_eq_dec : EqDecision error.
Proof. solve_decision. Defined.

(** The outcome of a Go call: values with a nil error, a non-nil error, or a
    run-time panic. *)
Inductive result (A : Type) : Type :=
| Ok (a : A)
| Err (e : error)
| Panic (why : string).
Arguments Ok {A} a.
Arguments Err {A} e.
Arguments Panic {A} why.

Definition rbind {A B} (m : result A) (f : A → result B) : result B :=
  match m with
  | Ok a => f a
  | Err e => Err e
  | Panic w => Panic w
  end.

Declare Scope go_scope.
Delimit Scope go_scope with go.
Notation "x <-! m ;; k" := (rbind m (λ x, k))
  (at level 100, m at next level, k at level 100, right associativity) : go_scope.
Open Scope go_scope.

Definition is_ok {A} (m : result A) : bool :=
  match m with Ok _ => true | _ => false end.

(** [for _, x := range l { y, err := f(x); if err != nil { return err }; out = append(out, y) }] *)
Fixpoint range_collect {A B} (f : A → result B) (l : list A) : result (list B) :=
  match l with
  | [] => Ok []
  | x :: l' => rbind (f x) (λ y, rbind (range_collect f l') (λ ys, Ok (y :: ys)))
  end.

(** ** Automation *)

(** Split boolean connectives and comparisons on both sides. *)
Ltac zbool :=
  repeat match goal with
  | H : (_ && _)%bool = true |- _ => apply andb_true_iff in H; destruct H
  | H : (_ || _)%bool = false |- _ => apply orb_false_iff in H; destruct H
  | H : negb _ = true |- _ => apply negb_true_iff in H
  | H : negb _ = false |- _ => apply negb_false_iff in H
  | H : (_ <? _) = true |- _ => apply Z.ltb_lt in H
  | H : (_ <? _) = false |- _ => apply Z.ltb_ge in H
  | H : (_ <=? _) = true |- _ => apply Z.leb_le in H
  | H : (_ <=? _) = false |- _ => apply Z.leb_gt in H
  | H : (_ =? _) = true |- _ => apply Z.eqb_eq in H
  | H : (_ =? _) = false |- _ => apply Z.eqb_neq in H
  end.

(** Case split on every [if] and [match] scrutinee of the goal. *)
Ltac break :=
  repeat (case_match; simplify_eq/=).

Create HintDb go.
Create Rewrite HintDb go.

(** ** Generic lemmas *)

Lemma rbind_Ok_inv {A B} (m : result A) (f : A → result B) b :
  rbind m f = Ok b → ∃ a, m = Ok a ∧ f a = Ok b.
Proof. destruct m; simpl; naive_solver. Qed.

Lemma range_collect_Ok {A B} (f : A → result B) l ys :
  range_collect f l = Ok ys ↔ Forall2 (λ x y, f x = Ok y) l ys.
Proof.
  revert ys; induction l as [|x l IH]; intros ys; simpl.
  - split; [by intros [= <-]|by inversion 1].
  - split.
    + intros (y & Hy & (zs & Hz & [= <-])%rbind_Ok_inv)%rbind_Ok_inv.
      constructor; [done|by apply IH].
    + inversion 1 as [|? y ? zs Hy Hz]; subst. rewrite Hy; simpl.
      by rewrite (proj2 (IH _) Hz).
Qed.

(** On the elements in another order: the same results, in that order. *)
Lemma range_collect_perm {A B} (f : A → result B) l l' ys : l' ≡ₚ l → range_collect f l = Ok ys →
  ∃ ys', range_collect f l' = Ok ys' ∧ ys' ≡ₚ ys.
Proof.
  intros Hl Hys%range_collect_Ok. destruct (Permutation_Forall2 (symmetry Hl) Hys) as (ys' & Hp & Hys').
  exists ys'. split; [by apply range_collect_Ok|done].
Qed.

Lemma range_collect_length {A B} (f : A → result B) l ys :
  range_collect f l = Ok ys → length ys = length l.
Proof. intros H%range_collect_Ok. symmetry. by eapply Forall2_length. Qed.

Lemma range_collect_app {A B} (f : A → result B) l1 l2 :
  range_collect f (l1 ++ l2) =
  rbind (range_collect f l1) (λ y1, rbind (range_collect f l2) (λ y2, Ok (y1 ++ y2))).
Proof.
  induction l1 as [|x l1 IH]; simpl; [by destruct (range_collect f l2)|].
  rewrite IH. destruct (f x); simpl; [|done..]. destruct (range_collect f l1); simpl; [|done..].
  by destruct (range_collect f l2).
Qed.

Lemma range_collect_fmap {A B C} (f : B → result C) (g : A → B) l :
  range_collect f (map g l) = range_collect (λ x, f (g x)) l.
Proof. induction l as [|x l IH]; simpl; [done|]. by rewrite IH. Qed.

(** A collecting loop fails exactly when an element does. *)
Lemma range_collect_is_ok {A B} (f : A → result B) l :
  is_ok (range_collect f l) = forallb (λ x, is_ok (f x)) l.
Proof.
  induction l as [|x l IH]; simpl; [done|]. rewrite <- IH.
  destruct (f x); simpl; [|done..]. by destruct (range_collect f l).
Qed.

Lemma range_collect_fails {A B} (f : A → result B) l :
  is_ok (range_collect f l) = false → ∃ x, x ∈ l ∧ is_ok (f x) = false.
Proof.
  rewrite range_collect_is_ok. induction l as [|x l IH]; simpl; [done|].
  intros [Hx|Hl]%andb_false_iff; [exists x; set_solver|].
  destruct (IH Hl) as (y & Hy & Hf). exists y. set_solver.
Qed.

(** [fmt.Errorf] around an error. *)
Definition wrapped {A} (msg : string) (r : result A) : result A :=
  match r with Err _ => Err (Errorf msg) | r => r end.

Lemma rbind_wrapped_Ok {A B} msg (m : result A) (f : A → result B) b :
  rbind (wrapped msg m) f = Ok b → ∃ a, m = Ok a ∧ f a = Ok b.
Proof. intros (a & Ha & Hf)%rbind_Ok_inv. exists a. split; [|done]. by destruct m. Qed.

Lemma wrapped_rbind_not_ok {A B} msg (m : result A) (f : A → result B) :
  is_ok (rbind (wrapped msg m) f) = false → is_ok m = false ∨ ∃ a, m = Ok a ∧ is_ok (f a) = false.
Proof. destruct m; simpl; eauto. Qed.

(** ** Calls that do not panic *)

Definition no_panic {A} (r : result A) : Prop := match r with Panic _ => False | _ => True end.

Lemma rbind_no_panic {A B} (m : result A) (k : A → result B) :
  no_panic m → (∀ a, m = Ok a → no_panic (k a)) → no_panic (rbind m k).
Proof. destruct m; simpl; auto. Qed.

Lemma range_collect_no_panic {A B} (f : A → result B) l :
  (∀ x, x ∈ l → no_panic (f x)) → no_panic (range_collect f l).
Proof.
  induction l as [|x l IH]; intros Hf; simpl; [done|].
  apply rbind_no_panic; [apply Hf; set_solver|]. intros y _.
  apply rbind_no_panic; [apply IH; set_solver|done].
Qed.

Lemma zip_filter_l {A B} (P : A * B → Prop) `{!∀ x, Decision (P x)} l1 (l2 : list B) x :
  x ∈ filter P (zip l1 l2) → x.1 ∈ l1.
Proof.
  intros [_ Hx]%list_elem_of_filter. destruct x as [a b]. by apply elem_of_zip_l in Hx.
Qed.

#[export] Hint Resolve range_collect_length : go.

(** A filter that drops nothing. *)
Lemma filter_all {A} (P : A → Prop) `{!∀ x, Decision (P x)} (l : list A) :
  (∀ x, x ∈ l → P x) → filter P l = l.
Proof.
  induction l as [|x l IH]; intros HP; [done|].
  rewrite filter_cons_True by (apply HP; by left). f_equal. apply IH. intros y Hy. apply HP. by right.
Qed.

Lemma filter_none {A} (P : A → Prop) `{!∀ x, Decision (P x)} l : (∀ x, x ∈ l → ¬ P x) → filter P l = [].
Proof.
  induction l as [|x l IH]; intros Hl; [done|]. rewrite filter_cons_False by (apply Hl; set_solver).
  apply IH. intros y Hy. apply Hl. set_solver.
Qed.

Lemma filter_ext_in {A} (P Q : A → Prop) `{!∀ x, Decision (P x), !∀ x, Decision (Q x)} (l : list A) :
  (∀ x, x ∈ l → P x ↔ Q x) → filter P l = filter Q l.
Proof.
  induction l as [|x l IH]; intros HPQ; [done|]. rewrite !filter_cons.
  rewrite IH by (intros y Hy; apply HPQ; by right).
  destruct (decide (P x)), (decide (Q x)); try done; exfalso; specialize (HPQ x (list_elem_of_here x l)); tauto.
Qed.

Lemma map_filter {A B} (f : A → B) (P : B → Prop) `{!∀ x, Decision (P x)} (l : list A) :
  map f (filter (λ x, P (f x)) l) = filter P (map f l).
Proof.
  induction l as [|x l IH]; [done|]. simpl. rewrite !filter_cons. case_decide; simpl; by rewrite IH.
Qed.

(** A sublist without repetitions is recovered by membership. *)
Lemma filter_sublist {A} `{EqDecision A} (k l : list A) :
  NoDup l → k `sublist_of` l → filter (λ x, x ∈ k) l = k.
Proof.
  intros Hnd Hs. induction Hs as [|x k l Hs IH|x k l Hs IH]; [done|..];
    apply NoDup_cons in Hnd as [Hx Hnd]; rewrite filter_cons.
  - rewrite decide_True by (by left). f_equal. etransitivity; [|exact (IH Hnd)]. apply filter_ext_in.
    intros y Hy. rewrite elem_of_cons. split; [intros [->|?]; done|by right].
  - rewrite decide_False; [by apply IH|]. intros Hk. apply Hx.
    eapply elem_of_submseteq; [exact Hk|by apply sublist_submseteq].
Qed.

(** Rows are determined by a key without repetitions. *)
Lemma NoDup_map_inj {A B} (f : A → B) l x y :
  NoDup (map f l) → x ∈ l → y ∈ l → f x = f y → x = y.
Proof.
  intros Hnd [i Hi]%list_elem_of_lookup [j Hj]%list_elem_of_lookup He.
  assert (i = j) as ->; [|by simplify_eq].
  eapply NoDup_lookup; [exact Hnd| |]; rewrite list_lookup_fmap; [by rewrite Hi|by rewrite Hj; simpl; f_equal].
Qed.

Lemma fresh_in_NoDup {A B} (f : A → B) l done x rest :
  NoDup (map f l) → l = done ++ x :: rest → f x ∉ map f done.
Proof.
  intros Hn ->. rewrite map_app in Hn. apply NoDup_app in Hn as (_ & Hd & _). intros Hx.
  apply (Hd _ Hx). simpl. set_solver.
Qed.
