(* ===== verification/GoInt.v ===== *)
(** * Go's fixed-width integers

    [uint64] and [int64] values are [Z] with the wrap-around of the Go
    specification written out; [big_int64] is [big.Int.Int64]. *)

From S2P Require Import Prelude.

(** ** Widths *)

Definition two64 : Z := 2 ^ 64.

Definition u64 (z : Z) : Z := z mod two64.
Definition u64_add (x y : Z) : Z := u64 (x + y).
Definition u64_sub (x y : Z) : Z := u64 (x - y).
Definition u64_mul (x y : Z) : Z := u64 (x * y).

(** Two's complement reading of the low 64 bits. *)
Definition i64 (z : Z) : Z := (z + 2 ^ 63) mod two64 - 2 ^ 63.
Definition i64_add (x y : Z) : Z := i64 (x + y).
Definition i64_sub (x y : Z) : Z := i64 (x - y).

(** Range predicates of well-typed values. *)
Definition is_u64 (z : Z) : Prop := 0 ≤ z < two64.
Definition is_i64 (z : Z) : Prop := - 2 ^ 63 ≤ z < 2 ^ 63.

(** ** Lemmas *)

Lemma two64_val : two64 = 18446744073709551616.
Proof. reflexivity. Qed.

Lemma u64_range z : is_u64 (u64 z).
Proof. unfold is_u64, u64. apply Z.mod_pos_bound. rewrite two64_val. lia. Qed.

Lemma u64_id z : is_u64 z → u64 z = z.
Proof. intros H. unfold u64. by apply Z.mod_small. Qed.

Lemma u64_add_id x y : 0 ≤ x → 0 ≤ y → x + y < two64 → u64_add x y = x + y.
Proof. intros. apply u64_id. unfold is_u64. lia. Qed.

Lemma u64_sub_id x y : y ≤ x → 0 ≤ y → x < two64 → u64_sub x y = x - y.
Proof. intros. apply u64_id. unfold is_u64. lia. Qed.

Lemma u64_overflow x : x = two64 → u64 x = 0.
Proof. intros ->. reflexivity. Qed.

Lemma i64_range z : is_i64 (i64 z).
Proof.
  unfold is_i64, i64. rewrite two64_val.
  pose proof (Z.mod_pos_bound (z + 2 ^ 63) 18446744073709551616 ltac:(lia)). lia.
Qed.

Lemma i64_id z : is_i64 z → i64 z = z.
Proof.
  unfold is_i64, i64. intros H. rewrite Z.mod_small; [lia|].
  rewrite two64_val. lia.
Qed.

(** A conversion to uint64 and back. *)
Lemma i64_u64 z : is_i64 z → i64 (u64 z) = z.
Proof.
  intros H. rewrite <- (i64_id z H) at 2. unfold i64, u64. rewrite Zplus_mod_idemp_l. done.
Qed.

Lemma i64_add_id x y : is_i64 (x + y) → i64_add x y = x + y.
Proof. apply i64_id. Qed.

#[export] Hint Resolve u64_range i64_range : go.
#[export] Hint Rewrite u64_add_id u64_sub_id using (unfold two64 in *; lia) : go.

Lemma i64_sub_id x y : is_i64 (x - y) → i64_sub x y = x - y.
Proof. apply i64_id. Qed.
