(* ===== verification/Decimal.v ===== *)
(** * Decimal numerals and hexadecimal text

    [big.Int.SetString] in base 10 and [strconv.Atoi], inverse to printing, and
    the printing of bytes in hexadecimal. *)

From S2P Require Import Prelude GoInt.

(** ** big.Int.SetString(s, 10) *)

Definition digit (a : ascii) : option Z :=
  let n := Z.of_nat (nat_of_ascii a) in
  if (48 <=? n) && (n <=? 57) then Some (n - 48) else None.

Fixpoint digits_from (acc : Z) (s : string) : option Z :=
  match s with
  | EmptyString => Some acc
  | String a s => match digit a with Some d => digits_from (10 * acc + d) s | None => None end
  end.

Definition unsigned (s : string) : option Z :=
  match s with EmptyString => None | _ => digits_from 0 s end.

Definition big_SetString (s : string) : option Z :=
  match s with
  | String "-" s => Z.opp <$> unsigned s
  | String "+" s => unsigned s
  | s => unsigned s
  end.

(** ** strconv.Atoi: an optional sign and decimal digits, within an int *)

Definition Atoi (s : string) : result Z :=
  let bad := Err (Driver "strconv.Atoi: parsing failed") in
  match big_SetString s with
  | Some n => if (- 2 ^ 63 <=? n) && (n <? 2 ^ 63) then Ok n else bad
  | None => bad
  end.

(** ** encoding/hex and hexutil *)

Definition hex_digit (d : Z) : ascii :=
  ascii_of_N (Z.to_N (if d <? 10 then 48 + d else 87 + d)).

(** [hex.EncodeToString] *)
Fixpoint EncodeToString (b : list Z) : string :=
  match b with
  | [] => ""
  | x :: b => String (hex_digit (x / 16)) (String (hex_digit (x mod 16)) (EncodeToString b))
  end.

(** [hexutil.Encode] *)
Definition hexutil_Encode (b : list Z) : string := "0x" +:+ EncodeToString b.

(** ** Lemmas: printing and parsing integers *)

Lemma digit_pretty (d : N) : (d < 10)%N → digit (pretty_N_char d) = Some (Z.of_N d).
Proof.
  intros H.
  assert (Hc : (d = 0 ∨ d = 1 ∨ d = 2 ∨ d = 3 ∨ d = 4 ∨ d = 5 ∨ d = 6 ∨ d = 7 ∨ d = 8 ∨ d = 9)%N)
    by lia.
  by destruct_or! Hc; subst.
Qed.

Lemma digits_pretty_go (x : N) : ∀ s, digits_from 0 (pretty_N_go x s) = digits_from (Z.of_N x) s.
Proof.
  induction (N.lt_wf_0 x) as [x _ IH]. intros s.
  destruct (decide (x = 0)%N) as [->|Hx]; [by rewrite pretty_N_go_0|].
  rewrite pretty_N_go_step by lia. rewrite IH by (apply N.div_lt; lia). simpl.
  rewrite digit_pretty by (apply N.mod_lt; lia). f_equal.
  pose proof (N.div_mod x 10 ltac:(lia)). lia.
Qed.

Lemma pretty_go_cons (x : N) : ∀ s, (0 < x)%N →
  ∃ a s', pretty_N_go x s = String a s' ∧ digit a ≠ None.
Proof.
  induction (N.lt_wf_0 x) as [x _ IH]. intros s Hx.
  rewrite pretty_N_go_step by lia.
  destruct (decide (x / 10 = 0)%N) as [->|Hd].
  - rewrite pretty_N_go_0. do 2 eexists. split; [done|].
    by rewrite digit_pretty by (apply N.mod_lt; lia).
  - apply IH; [apply N.div_lt; lia|by apply N.neq_0_lt_0].
Qed.

Lemma pretty_N_cons (x : N) : ∃ a s', pretty x = String a s' ∧ digit a ≠ None.
Proof.
  unfold pretty, pretty_N. case_decide; [by exists "0"%char, ""|]. apply pretty_go_cons. lia.
Qed.

Lemma unsigned_pretty (x : N) : unsigned (pretty x) = Some (Z.of_N x).
Proof.
  destruct (pretty_N_cons x) as (a & s & E & _). unfold unsigned. rewrite E, <- E.
  unfold pretty, pretty_N. case_decide; [by subst|]. by rewrite digits_pretty_go.
Qed.

(** Printing a difficulty and parsing it again gives it back. *)
Lemma big_SetString_pretty (z : Z) : big_SetString (pretty z) = Some z.
Proof.
  assert (Hpos : ∀ n : N, big_SetString (pretty n) = Some (Z.of_N n)).
  { intros n. rewrite <- unsigned_pretty. destruct (pretty_N_cons n) as (a & s & E & Ha).
    rewrite E. unfold big_SetString.
    destruct a as [[] [] [] [] [] [] [] []]; try done; by destruct Ha. }
  destruct z as [|p|p]; unfold pretty, pretty_Z.
  - apply (Hpos 0%N).
  - apply (Hpos (Npos p)).
  - change (Z.opp <$> unsigned (pretty (Npos p)) = Some (Zneg p)). by rewrite unsigned_pretty.
Qed.

Lemma Atoi_pretty (z : Z) : is_i64 z → Atoi (pretty z) = Ok z.
Proof.
  intros Hz. unfold Atoi, is_i64 in *. rewrite big_SetString_pretty.
  destruct (_ && _) eqn:E; [done|]. apply andb_false_iff in E as [E|E]; zbool; lia.
Qed.
