(* ===== verification/Heights.v ===== *)
(** * Block height arithmetic (libraries/shared/utilities/utils.go)

    [GetBlockHeightBins] splits a block range into batches;
    [MissingHeightsToGaps] folds a sorted list of heights into ranges. *)

From S2P Require Import Prelude GoInt.

(** ** Data *)

(** shared.Gap *)
Record Gap : Type := mkGap { Start : Z; Stop : Z }.

#[global] Instance Gap_eq_dec : EqDecision Gap.
Proof. solve_decision. Defined.

(** ** Operations *)

(** The inner loop [for j := startingBlock; j < nextBinStart && j <= endingBlock; j++].
    The fuel is an upper bound of the number of iterations. *)
Fixpoint block_range (fuel : nat) (j nextBinStart endingBlock : Z) : list Z :=
  match fuel with
  | O => []
  | S fuel =>
      if (j <? nextBinStart) && (j <=? endingBlock)
      then j :: block_range fuel (u64_add j 1) nextBinStart endingBlock
      else []
  end.

(** The outer loop [for i := range blockRangeBins]. *)
Fixpoint block_bins (n : nat) (startingBlock endingBlock batchSize : Z) : list (list Z) :=
  match n with
  | O => []
  | S n =>
      let nextBinStart := u64_add startingBlock batchSize in
      block_range (Z.to_nat (nextBinStart - startingBlock)) startingBlock nextBinStart endingBlock
      :: block_bins n nextBinStart endingBlock batchSize
  end.

Definition GetBlockHeightBins (startingBlock endingBlock batchSize : Z) : result (list (list Z)) :=
  if endingBlock <? startingBlock then
    Err (Errorf "backfill: ending block number needs to be greater than starting block number")
  else if batchSize =? 0 then
    Err (Errorf "backfill: batchsize needs to be greater than zero")
  else
    let len := u64_add (u64_sub endingBlock startingBlock) 1 in
    let numberOfBins := len / batchSize in
    let remainder := len mod batchSize in
    let numberOfBins := if remainder =? 0 then numberOfBins else u64_add numberOfBins 1 in
    Ok (block_bins (Z.to_nat numberOfBins) startingBlock endingBlock batchSize).

(** The loop [for i, height := range heights[1:]]; [n] is [len(heights)]. *)
Fixpoint gaps_loop (i n : nat) (start lastHeight : Z) (validationGaps : list Gap)
    (rest : list Z) : list Gap :=
  match rest with
  | [] => validationGaps
  | height :: rest =>
      let brk := negb (height =? u64_add lastHeight 1) in
      let validationGaps :=
        if brk then validationGaps ++ [mkGap start lastHeight] else validationGaps in
      let start := if brk then height else start in
      let validationGaps :=
        if (i + 2 =? n)%nat then validationGaps ++ [mkGap start height] else validationGaps in
      gaps_loop (S i) n start height validationGaps rest
  end.

Definition MissingHeightsToGaps (heights : list Z) : list Gap :=
  match heights with
  | [] => []
  | h0 :: rest => gaps_loop 0 (length heights) h0 h0 [] rest
  end.

(** Whether a height lies in one of the gaps. *)
Definition in_gaps (gaps : list Gap) (h : Z) : Prop :=
  ∃ g, g ∈ gaps ∧ Start g ≤ h ≤ Stop g.

(** ** Lemmas: bins *)

Lemma block_range_seqZ fuel j next stop :
  0 ≤ j → j ≤ next → next < two64 → Z.to_nat (next - j) = fuel →
  block_range fuel j next stop = seqZ j (Z.min next (stop + 1) - j).
Proof.
  revert j; induction fuel as [|fuel IH]; intros j Hj Hn Hw Hf; simpl.
  - rewrite seqZ_nil; [done|lia].
  - destruct (j <? next) eqn:E1, (j <=? stop) eqn:E2; simpl; zbool;
      try (rewrite seqZ_nil; [done|lia]).
    rewrite u64_add_id by lia. rewrite IH by lia.
    rewrite (seqZ_cons j) by lia. f_equal. f_equal; lia.
Qed.

(** The number of iterations of the inner loop is bounded by the fuel: more
    fuel does not change the bin. *)
Lemma block_range_fuel fuel j next stop :
  0 ≤ j → j ≤ next → next < two64 → (Z.to_nat (next - j) ≤ fuel)%nat →
  block_range fuel j next stop = block_range (Z.to_nat (next - j)) j next stop.
Proof.
  revert j; induction fuel as [|fuel IH]; intros j Hj Hn Hw Hf.
  - by replace (Z.to_nat (next - j)) with O by lia.
  - destruct (Z.to_nat (next - j)) as [|k] eqn:Ek.
    + simpl. destruct (j <? next) eqn:E; [zbool; lia|done].
    + simpl. destruct (_ && _) eqn:E; [|done]. f_equal. zbool.
      rewrite u64_add_id by lia. rewrite IH by lia. f_equal. lia.
Qed.

Lemma seqZ_split j m n : 0 ≤ m → 0 ≤ n → seqZ j m ++ seqZ (j + m) n = seqZ j (m + n).
Proof. intros. by rewrite seqZ_app by lia. Qed.

Lemma block_bins_concat n start stop batch :
  0 ≤ start → 0 < batch →
  start + (Z.of_nat n - 1) * batch ≤ stop → stop < start + Z.of_nat n * batch →
  stop + batch < two64 →
  concat (block_bins n start stop batch) = seqZ start (stop - start + 1).
Proof.
  revert start; induction n as [|n IH]; intros start Hs Hb H1 H2 Hw; simpl.
  - rewrite seqZ_nil; [done|lia].
  - rewrite u64_add_id by nia. rewrite block_range_seqZ by nia.
    destruct n as [|n].
    + simpl. rewrite app_nil_r. f_equal. lia.
    + rewrite IH by nia.
      rewrite Z.min_l by nia. rewrite (Z.add_simpl_l start batch).
      rewrite seqZ_split by nia. f_equal. lia.
Qed.

Lemma block_bins_sizes n start stop batch :
  0 ≤ start → 0 < batch →
  start + (Z.of_nat n - 1) * batch ≤ stop → stop + batch < two64 →
  Forall (λ b, 0 < Z.of_nat (length b) ≤ batch) (block_bins n start stop batch).
Proof.
  revert start; induction n as [|n IH]; intros start Hs Hb H1 Hw; simpl; [done|].
  rewrite u64_add_id by nia. constructor; [|apply IH; nia].
  rewrite block_range_seqZ by nia. rewrite length_seqZ. nia.
Qed.

Lemma block_bins_length n start stop batch :
  length (block_bins n start stop batch) = n.
Proof. revert start; induction n; intros; simpl; auto. Qed.

Lemma bins_count_bounds len batch n :
  0 < len → 0 < batch →
  n = (if len mod batch =? 0 then len / batch else len / batch + 1) →
  (n - 1) * batch < len ≤ n * batch.
Proof.
  intros Hl Hb ->. pose proof (Z.div_mod len batch ltac:(lia)).
  pose proof (Z.mod_pos_bound len batch ltac:(lia)).
  destruct (len mod batch =? 0) eqn:E; zbool; nia.
Qed.

(** ** Lemmas: gaps *)

(** The heights a gap under construction and the emitted gaps cover. *)
Lemma gaps_loop_covers rest : ∀ i n start last acc done_,
  rest ≠ [] → (i + 1 + length rest = n)%nat →
  0 ≤ start ≤ last → Forall is_u64 (last :: rest) → StronglySorted Z.le (last :: rest) →
  (∀ h, in_gaps acc h ↔ h ∈ (done_ : list Z)) →
  ∀ h, in_gaps (gaps_loop i n start last acc rest) h ↔
       h ∈ done_ ∨ start ≤ h ≤ last ∨ h ∈ rest.
Proof.
  assert (Happ : ∀ l g h, in_gaps (l ++ [g]) h ↔ in_gaps l h ∨ Start g ≤ h ≤ Stop g).
  { intros l g h. unfold in_gaps. setoid_rewrite elem_of_app.
    setoid_rewrite list_elem_of_singleton. naive_solver. }
  induction rest as [|x rest IH]; [done|].
  intros i n start last acc don _ Hn Hsl Hu Hs Hacc h. simpl.
  apply StronglySorted_inv in Hs as [Hs Hle].
  pose proof (Forall_inv Hle) as Hlx. apply Forall_cons in Hu as [Hul Hu].
  pose proof (Forall_inv Hu) as Hux. unfold is_u64 in Hul, Hux. simpl in Hlx.
  assert (Hx : x = u64_add last 1 → x = last + 1).
  { intros E. unfold u64_add, u64 in E.
    destruct (Z.eq_dec (last + 1) two64) as [Ho|]; [|rewrite Z.mod_small in E; lia].
    rewrite Ho in E. rewrite Z.mod_same in E; unfold two64 in *; lia. }
  destruct rest as [|y rest].
  - replace (i + 2 =? n)%nat with true by (symmetry; apply Nat.eqb_eq; simpl in Hn; lia).
    simpl. destruct (x =? u64_add last 1) eqn:E; simpl; rewrite !Happ, Hacc; simpl.
    + apply Z.eqb_eq, Hx in E as ->. set_unfold. intuition lia.
    + set_unfold. intuition lia.
  - replace (i + 2 =? n)%nat with false by (symmetry; apply Nat.eqb_neq; simpl in Hn |- *; lia).
    destruct (x =? u64_add last 1) eqn:E; simpl negb; cbv iota.
    + apply Z.eqb_eq, Hx in E as ->.
      rewrite (IH (S i) n start (last + 1) acc don); try done; simpl in *; try lia.
      * set_unfold. intuition lia.
    + apply Z.eqb_neq in E. rewrite (IH (S i) n x x _ (don ++ seqZ start (last - start + 1))); try done;
        simpl in *; try lia.
      * rewrite elem_of_app, elem_of_seqZ. set_unfold. intuition lia.
      * intros k. rewrite Happ, Hacc, elem_of_app, elem_of_seqZ. simpl. intuition lia.
Qed.

Lemma MissingHeightsToGaps_covers heights h :
  Forall is_u64 heights → StronglySorted Z.le heights →
  in_gaps (MissingHeightsToGaps heights) h ↔ h ∈ heights ∧ length heights ≠ 1%nat.
Proof.
  intros Hu Hs. destruct heights as [|h0 [|h1 rest]]; simpl MissingHeightsToGaps.
  - split; [intros (g & Hg & _); by apply elem_of_nil in Hg|intros [Hh _]; by apply elem_of_nil in Hh].
  - split; [intros (g & Hg & _); by apply elem_of_nil in Hg|naive_solver].
  - change (in_gaps (gaps_loop 0 (length (h0 :: h1 :: rest)) h0 h0 [] (h1 :: rest)) h ↔
            h ∈ h0 :: h1 :: rest ∧ length (h0 :: h1 :: rest) ≠ 1%nat).
    rewrite (gaps_loop_covers (h1 :: rest) 0 _ h0 h0 [] []); try done; simpl; try lia.
    + set_unfold. intuition lia.
    + apply Forall_inv in Hu. unfold is_u64 in Hu. lia.
    + intros k. split; [intros (g & Hg & _); by apply elem_of_nil in Hg|set_solver].
Qed.

Lemma GetBlockHeightBins_bins start stop batch :
  0 ≤ start ≤ stop → 0 < batch → stop + batch < two64 →
  ∃ bins, GetBlockHeightBins start stop batch = Ok bins ∧
    concat bins = seqZ start (stop - start + 1) ∧
    Forall (λ b, 0 < Z.of_nat (length b) ≤ batch) bins ∧
    (Z.of_nat (length bins) - 1) * batch < stop - start + 1 ≤ Z.of_nat (length bins) * batch.
Proof.
  intros Hr Hb Hw. unfold GetBlockHeightBins.
  destruct (stop <? start) eqn:E1; zbool; [lia|].
  destruct (batch =? 0) eqn:E2; zbool; [lia|].
  rewrite u64_sub_id, u64_add_id by lia.
  set (len := stop - start + 1).
  set (nb := if len mod batch =? 0 then len / batch else u64_add (len / batch) 1).
  assert (Hdiv : 0 ≤ len / batch ≤ len).
  { split; [apply Z.div_pos; lia|]. apply Z.div_le_upper_bound; subst len; nia. }
  assert (Hnb : nb = if len mod batch =? 0 then len / batch else len / batch + 1).
  { unfold nb. destruct (_ =? _) eqn:E; [done|]. zbool.
    assert (batch ≠ 1) by (intros ->; by rewrite Z.mod_1_r in E).
    apply u64_add_id; subst len; lia. }
  pose proof (bins_count_bounds len batch nb ltac:(subst len; lia) Hb Hnb) as Hbnd.
  assert (0 ≤ nb) by nia.
  eexists; split; [done|]. rewrite block_bins_length, Z2Nat.id by done. split_and!; try lia.
  - apply block_bins_concat; rewrite ?Z2Nat.id by done; lia.
  - apply block_bins_sizes; rewrite ?Z2Nat.id by done; lia.
Qed.

(** ** Properties *)

(** [GetBlockHeightBins] partitions the requested range: the bins, in order,
    list every height from the start to the end exactly once, no bin is empty
    or larger than the batch size, and there are as few bins as possible
    (all 64-bit arithmetic, no wrap-around when [end + batch] fits). *)
Theorem GetBlockHeightBins_partition start stop batch :
  0 ≤ start ≤ stop → 0 < batch → stop + batch < two64 →
  ∃ bins, GetBlockHeightBins start stop batch = Ok bins ∧
    concat bins = seqZ start (stop - start + 1) ∧
    Forall (λ b, 0 < Z.of_nat (length b) ≤ batch) bins ∧
    (Z.of_nat (length bins) - 1) * batch < stop - start + 1 ≤ Z.of_nat (length bins) * batch.
Proof. apply GetBlockHeightBins_bins. Qed.

Lemma GetBlockHeightBins_partition_witness :
  (0 ≤ 10 ≤ 16 ∧ 0 < 3 ∧ 16 + 3 < two64) ∧
  ∃ bins, GetBlockHeightBins 10 16 3 = Ok bins ∧
    concat bins = seqZ 10 (16 - 10 + 1) ∧
    Forall (λ b, 0 < Z.of_nat (length b) ≤ 3) bins ∧
    (Z.of_nat (length bins) - 1) * 3 < 16 - 10 + 1 ≤ Z.of_nat (length bins) * 3.
Proof.
  split; [rewrite two64_val; lia|].
  apply (GetBlockHeightBins_partition 10 16 3); rewrite ?two64_val; lia.
Defined.

(** For two or more sorted heights, the gaps [MissingHeightsToGaps] returns
    cover exactly those heights; for a single height it returns no gap at all,
    so that height is never covered. *)
Theorem MissingHeightsToGaps_coverage heights h :
  Forall is_u64 heights → StronglySorted Z.le heights →
  in_gaps (MissingHeightsToGaps heights) h ↔ h ∈ heights ∧ length heights ≠ 1%nat.
Proof. apply MissingHeightsToGaps_covers. Qed.

Lemma MissingHeightsToGaps_coverage_witness :
  (in_gaps (MissingHeightsToGaps [3; 4; 7]) 4 ↔ 4 ∈ [3; 4; 7] ∧ length [3; 4; 7] ≠ 1%nat) ∧
  (in_gaps (MissingHeightsToGaps [5]) 5 ↔ 5 ∈ [5] ∧ length [5] ≠ 1%nat).
Proof.
  split; apply MissingHeightsToGaps_coverage.
  all: repeat constructor; unfold is_u64; rewrite ?two64_val; lia.
Defined.
