(* ===== verification/ChainTypes.v ===== *)
(** * Enumerations of pkg/super_node/shared and pkg/watcher/shared

    Chain types, data types, IPFS modes and watcher source types, with their
    printers and parsers, and the list helpers of shared/functions.go. *)

From S2P Require Import Prelude Heights.

(** ** strings.ToLower on ASCII text *)

Definition ascii_lower (a : ascii) : ascii :=
  let n := nat_of_ascii a in
  if ((65 <=? n) && (n <=? 90))%nat then ascii_of_nat (n + 32) else a.

Fixpoint ToLower (s : string) : string :=
  match s with
  | EmptyString => EmptyString
  | String a s => String (ascii_lower a) (ToLower s)
  end.

(** [switch s { case "a", "b": ... }] *)
Definition one_of (s : string) (cases : list string) : bool := bool_decide (s ∈ cases).

(** ** Chain types *)

Inductive ChainType : Type := UnknownChain | Ethereum | Bitcoin | Omni.

#[global] Instance ChainType_eq_dec : EqDecision ChainType.
Proof. solve_decision. Defined.

Definition ChainType_String (c : ChainType) : string :=
  match c with
  | Ethereum => "Ethereum"
  | Bitcoin => "Bitcoin"
  | Omni => "Omni"
  | UnknownChain => ""
  end.

Definition ChainType_API (c : ChainType) : string :=
  match c with
  | Ethereum => "eth"
  | Bitcoin => "btc"
  | Omni => "omni"
  | UnknownChain => ""
  end.

Definition NewChainType (name : string) : ChainType * option error :=
  let s := ToLower name in
  if one_of s ["ethereum"; "eth"] then (Ethereum, None)
  else if one_of s ["bitcoin"; "btc"; "xbt"] then (Bitcoin, None)
  else if one_of s ["omni"] then (Omni, None)
  else (UnknownChain, Some (Errorf "invalid name for chain")).

(** ** Data types *)

Inductive DataType : Type :=
| UnknownDataType | Full | Headers | Uncles | Transactions | Receipts | State | Storage.

#[global] Instance DataType_eq_dec : EqDecision DataType.
Proof. solve_decision. Defined.

Definition DataType_String (r : DataType) : string :=
  match r with
  | Full => "full"
  | Headers => "headers"
  | Uncles => "uncles"
  | Transactions => "transactions"
  | Receipts => "receipts"
  | State => "state"
  | Storage => "storage"
  | UnknownDataType => "unknown"
  end.

Definition GenerateDataTypeFromString (str : string) : DataType * option error :=
  let s := ToLower str in
  if one_of s ["full"; "f"] then (Full, None)
  else if one_of s ["headers"; "header"; "h"] then (Headers, None)
  else if one_of s ["uncles"; "u"] then (Uncles, None)
  else if one_of s ["transactions"; "transaction"; "trxs"; "txs"; "trx"; "tx"; "t"] then
    (Transactions, None)
  else if one_of s ["receipts"; "receipt"; "rcts"; "rct"; "r"] then (Receipts, None)
  else if one_of s ["state"] then (State, None)
  else if one_of s ["storage"] then (Storage, None)
  else (UnknownDataType, Some (Errorf ("unrecognized resync type: " +:+ str))).

Definition SupportedDataType (d : DataType) (c : ChainType) : bool * option error :=
  match c with
  | Ethereum =>
      match d with
      | Full | Headers | Uncles | Transactions | Receipts | State | Storage => (true, None)
      | UnknownDataType => (true, None)
      end
  | Bitcoin =>
      match d with
      | Full | Headers | Transactions => (true, None)
      | Uncles | Receipts | State | Storage => (false, None)
      | UnknownDataType => (false, None)
      end
  | Omni => (false, None)
  | UnknownChain => (false, Some (Errorf ("unrecognized chain type " +:+ ChainType_String c)))
  end.

(** ** IPFS modes *)

Inductive IPFSMode : Type := UnknownMode | LocalInterface | RemoteClient | DirectPostgres.

#[global] Instance IPFSMode_eq_dec : EqDecision IPFSMode.
Proof. solve_decision. Defined.

Definition IPFSMode_String (c : IPFSMode) : string :=
  match c with
  | LocalInterface => "Local"
  | RemoteClient => "Remote"
  | DirectPostgres => "Postgres"
  | UnknownMode => ""
  end.

Definition NewIPFSMode (name : string) : IPFSMode * option error :=
  let s := ToLower name in
  if one_of s ["local"; "interface"; "minimal"] then (LocalInterface, None)
  else if one_of s ["remote"; "client"] then
    (RemoteClient, Some (Errorf "remote IPFS client mode is not currently supported"))
  else if one_of s ["postgres"; "direct"] then (DirectPostgres, None)
  else (UnknownMode, Some (Errorf "unrecognized name for ipfs mode")).

(** [GetIPFSMode]: an absent configuration value selects direct Postgres. *)
Definition GetIPFSMode (ipfsMode : string) : IPFSMode * option error :=
  if bool_decide (ipfsMode = "") then (DirectPostgres, None) else NewIPFSMode ipfsMode.

(** ** Watcher source types *)

Module Source.

Inductive SourceType : Type := Unknown | VulcanizeDB | Ethereum | Bitcoin.

Definition SourceType_String (c : SourceType) : string :=
  match c with
  | Ethereum => "Ethereum"
  | Bitcoin => "Bitcoin"
  | VulcanizeDB => "VulcanizeDB"
  | Unknown => ""
  end.

Definition NewSourceType (name : string) : SourceType * option error :=
  let s := ToLower name in
  if one_of s ["ethereum"; "eth"] then (Ethereum, None)
  else if one_of s ["bitcoin"; "btc"; "xbt"] then (Bitcoin, None)
  else if one_of s ["vulcanizedb"; "vdb"] then (VulcanizeDB, None)
  else (Unknown, Some (Errorf "invalid name for data source")).

End Source.

(** ** List helpers (shared/functions.go) *)

Fixpoint ListContainsString (sss : list string) (s : string) : bool :=
  match sss with
  | [] => false
  | str :: sss => if bool_decide (s = str) then true else ListContainsString sss s
  end.

Fixpoint ListContainsGap (gapList : list Gap) (gap : Gap) : bool :=
  match gapList with
  | [] => false
  | listGap :: gapList => if bool_decide (listGap = gap) then true else ListContainsGap gapList gap
  end.

(** ** Lemmas *)

Lemma one_of_spec s l : one_of s l = true ↔ s ∈ l.
Proof. unfold one_of. by rewrite bool_decide_eq_true. Qed.

Lemma ListContainsString_spec l s : ListContainsString l s = true ↔ s ∈ l.
Proof.
  induction l as [|x l IH]; simpl; [by rewrite elem_of_nil|].
  case_bool_decide; rewrite elem_of_cons, ?IH; naive_solver.
Qed.

Lemma ascii_lower_idem a : ascii_lower (ascii_lower a) = ascii_lower a.
Proof. destruct a as [[] [] [] [] [] [] [] []]; reflexivity. Qed.

Lemma ToLower_idem s : ToLower (ToLower s) = ToLower s.
Proof. induction s as [|a s IH]; simpl; [done|]. by rewrite ascii_lower_idem, IH. Qed.

(** ** Properties *)

(** Every data type the resync command knows is parsed back from its own
    printed name, whatever the case of the letters, and parsing an unknown name
    yields [UnknownDataType] together with an error. *)
Theorem DataType_roundtrip d s :
  (d ≠ UnknownDataType → ToLower s = DataType_String d → GenerateDataTypeFromString s = (d, None)) ∧
  ((GenerateDataTypeFromString s).2 = None ↔ (GenerateDataTypeFromString s).1 ≠ UnknownDataType).
Proof.
  split.
  - intros Hd Hs. unfold GenerateDataTypeFromString. rewrite Hs. by destruct d.
  - unfold GenerateDataTypeFromString. repeat case_match; simpl; naive_solver.
Qed.
