(* ===== verification/Geth.v ===== *)
(** * Interfaces to go-ethereum, btcd and go-cid

    The functions of the libraries the source calls, as operations of type
    classes.  Their documented laws are separate classes, required only by
    the theorems that rely on them. *)

From S2P Require Import Prelude.

(** Byte strings; a 32-byte [common.Hash] and a 20-byte [common.Address] are
    byte strings too. *)
Abbreviation bytes := (list Z).

(** github.com/ethereum/go-ethereum/common and crypto *)
Class GethCommon := {
  Keccak256Hash : bytes → bytes;        (* crypto.Keccak256Hash *)
  HexToAddress : string → bytes;        (* common.HexToAddress(s).Bytes() *)
  HexToHash : string → bytes;           (* common.HexToHash *)
  FromHex : string → bytes;             (* common.FromHex *)
  BytesToHash : bytes → bytes;          (* common.BytesToHash *)
  Hash_String : bytes → string;         (* common.Hash.String, .Hex *)
  Address_Hex : bytes → string;         (* common.Address.Hex *)
  Bytes2Hex : bytes → string            (* common.Bytes2Hex *)
}.

(** Documented behaviour: hexadecimal printing loses no information. *)
Class GethCommonLaws `{GethCommon} := {
  HexToHash_Hash_String : ∀ h, length h = 32%nat → HexToHash (Hash_String h) = h;
  Hash_String_nonempty : ∀ h, Hash_String h ≠ "";
  Bytes2Hex_inj : Inj (=) (=) Bytes2Hex
}.

(** A content identifier is represented by its string; [RawdataToCid] of
    pkg/ipfs/ipld/shared.go builds the prefix (version 1, default length) and
    calls go-cid's [Prefix.Sum], the parameter here. *)
Record cid_Prefix : Type := {
  Codec : Z;
  Version : Z;
  MhType : Z;
  MhLength : Z
}.

Class CidLib := {
  Prefix_Sum : cid_Prefix → bytes → result string;
  cid_Decode : string → result string;       (* cid.Decode *)
  CidToDsKey : string → string               (* dshelp.CidToDsKey(c).String() *)
}.

(** Documented behaviour: a CID decodes from its string, and the datastore key
    of a CID is that of no other content -- the hash has no collisions. *)
Class CidLaws `{CidLib} := {
  Decode_Sum : ∀ p raw c, Prefix_Sum p raw = Ok c → cid_Decode c = Ok c;
  key_content : ∀ p raw c p' raw' c', Prefix_Sum p raw = Ok c → Prefix_Sum p' raw' = Ok c' →
    CidToDsKey c = CidToDsKey c' → raw = raw'
}.

(** blockstore.BlockPrefix.String() is the constant "/blocks". *)
Definition BlockPrefix : string := "/blocks".

(** Multicodec and multihash constants (pkg/ipfs/ipld/shared.go). *)
Definition MEthHeader : Z := 0x90.
Definition MEthTxTrie : Z := 0x92.
Definition MEthTx : Z := 0x93.
Definition MEthTxReceiptTrie : Z := 0x94.
Definition MEthTxReceipt : Z := 0x95.
Definition MEthStateTrie : Z := 0x96.
Definition MEthStorageTrie : Z := 0x98.
Definition MBitcoinHeader : Z := 0xb0.
Definition MBitcoinTx : Z := 0xb1.
Definition KECCAK_256 : Z := 0x1B.
Definition DBL_SHA2_256 : Z := 0x56.

Definition RawdataToCid `{CidLib} (codec : Z) (rawdata : bytes) (multiHash : Z) : result string :=
  Prefix_Sum {| Codec := codec; Version := 1; MhType := multiHash; MhLength := -1 |} rawdata.

(** ipfs.BlockModel (pkg/ipfs/models.go) *)
Record BlockModel : Type := mkBlock { CID : string; Data : bytes }.

(** An IPLD node (pkg/ipfs/ipld): every node type carries these two fields. *)
Record Node : Type := mkNode { Cid : string; RawData : bytes }.

(** ** Null addresses (shared/functions.go) *)

Definition HandleNullAddrPointer `{GethCommon} (to : option bytes) : string :=
  match to with
  | None => ""
  | Some to => Address_Hex to
  end.

Definition HandleNullAddr `{GethCommon} (to : bytes) : string :=
  if bool_decide (Address_Hex to = "0x0000000000000000000000000000000000000000") then ""
  else Address_Hex to.

(** ** A concrete instance

    The witnesses of the theorems evaluate the definitions with this
    instance, whose printing is an injective encoding of byte strings. *)

Module Concrete.

Fixpoint of_bits (p : positive) : string :=
  match p with
  | xH => ""
  | xO p => String "0" (of_bits p)
  | xI p => String "1" (of_bits p)
  end.

Fixpoint to_bits (s : string) : positive :=
  match s with
  | EmptyString => xH
  | String a s => if bool_decide (a = "0"%char) then xO (to_bits s) else xI (to_bits s)
  end.

Lemma to_of_bits p : to_bits (of_bits p) = p.
Proof. induction p; simpl; congruence. Qed.

Definition enc (b : bytes) : string := String "x" (of_bits (encode b)).
Definition dec (s : string) : bytes :=
  match s with
  | String _ s => default [] (decode (to_bits s))
  | EmptyString => []
  end.

Lemma dec_enc b : dec (enc b) = b.
Proof. unfold dec, enc. by rewrite to_of_bits, decode_encode. Qed.

Definition geth : GethCommon := {|
  Keccak256Hash := λ b, b ++ replicate (32 - length b) 0;
  HexToAddress := dec;
  HexToHash := dec;
  FromHex := dec;
  BytesToHash := λ b, b;
  Hash_String := enc;
  Address_Hex := enc;
  Bytes2Hex := enc
|}.

Lemma geth_laws : @GethCommonLaws geth.
Proof.
  constructor.
  - intros h _. apply dec_enc.
  - done.
  - intros x y Hxy. rewrite <- (dec_enc x), <- (dec_enc y). by f_equal.
Qed.

Definition cidlib : CidLib := {|
  Prefix_Sum := λ p b, Ok (of_bits (encode (Codec p, b)));
  cid_Decode := λ c, Ok c;
  CidToDsKey := λ c, String "/" c
|}.

Lemma of_bits_inj p q : of_bits p = of_bits q → p = q.
Proof. intros E. by rewrite <- (to_of_bits p), E, to_of_bits. Qed.

Lemma Ok_inj {A} (x y : A) : Ok x = Ok y → x = y.
Proof. by intros [= ->]. Qed.

Lemma slash_inj s t : String "/" s = String "/" t → s = t.
Proof. by intros [= ->]. Qed.

Lemma cid_laws : @CidLaws cidlib.
Proof.
  constructor; [done|]. intros p raw c p' raw' c' E1%Ok_inj E2%Ok_inj E%slash_inj. rewrite <- E1, <- E2 in E.
  apply of_bits_inj, (inj encode) in E. by injection E.
Qed.

End Concrete.
