(* ===== verification/EthModel.v ===== *)
(** * Data types of pkg/super_node/eth

    The payload, CID and IPLD containers (types.go), the database models
    (models.go) and the subscription settings (subscription_config.go). *)

From S2P Require Import Prelude GoInt ChainTypes Geth.

(** statediff.NodeType *)
Inductive NodeType : Type := Unknown | Leaf | Extension | Branch | Removed.

#[global] Instance NodeType_eq_dec : EqDecision NodeType.
Proof. solve_decision. Defined.

(** helpers.go *)
Definition ResolveFromNodeType (nodeType : NodeType) : Z :=
  match nodeType with
  | Branch => 0
  | Extension => 1
  | Leaf => 2
  | Removed => 3
  | Unknown => -1
  end.

Definition ResolveToNodeType (nodeType : Z) : NodeType :=
  if nodeType =? 0 then Branch
  else if nodeType =? 1 then Extension
  else if nodeType =? 2 then Leaf
  else if nodeType =? 3 then Removed
  else Unknown.

(** ** go-ethereum values

    A block, header, transaction, receipt or log is represented by what the
    source reads from it: its fields and the results of the methods called
    on it. *)

Record Header : Type := {
  header_RLP : result bytes;         (* rlp.EncodeToBytes(header) *)
  header_Number : Z;
  header_Hash : bytes;
  header_ParentHash : bytes
}.

Record Log : Type := {
  log_Address : bytes;
  log_Topics : list bytes
}.

Record Transaction : Type := {
  trx_RLP : result bytes;            (* tx.EncodeRLP *)
  trx_Hash : bytes;
  trx_To : option bytes;
  trx_Sender : result bytes;         (* types.Sender(signer, tx) *)
  trx_GasPrice : Z
}.

Record Receipt : Type := {
  rct_RLP : result bytes;            (* receipt.EncodeRLP *)
  rct_TxHash : bytes;
  rct_GasUsed : Z;
  rct_ContractAddress : bytes;
  rct_Logs : list Log
}.

Record Block : Type := {
  block_Header : Header;
  block_Uncles : list Header;
  block_Transactions : list Transaction;
  block_Root : bytes;
  block_TxHash : bytes;
  block_ReceiptHash : bytes;
  block_UncleHash : bytes;
  block_Bloom : bytes;
  block_Time : Z
}.

Definition block_Number (b : Block) : Z := header_Number (block_Header b).

(** ** Database models (models.go) *)

Record HeaderModel : Type := {
  h_ID : Z;
  h_BlockNumber : Z;
  h_BlockHash : string;
  h_ParentHash : string;
  h_CID : string;
  h_TotalDifficulty : string;
  h_NodeID : Z;
  h_Reward : Z;
  h_StateRoot : string;
  h_UncleRoot : string;
  h_TxRoot : string;
  h_RctRoot : string;
  h_Bloom : bytes;
  h_Timestamp : Z;
  h_TimesValidated : Z
}.

Record UncleModel : Type := {
  u_ID : Z;
  u_HeaderID : Z;
  u_BlockHash : string;
  u_ParentHash : string;
  u_CID : string;
  u_Reward : Z
}.

Record TxModel : Type := {
  tx_ID : Z;
  tx_HeaderID : Z;
  tx_Index : Z;
  tx_TxHash : string;
  tx_CID : string;
  tx_Dst : string;
  tx_Src : string
}.

Record ReceiptModel : Type := {
  r_ID : Z;
  r_TxID : Z;
  r_CID : string;
  r_Contract : string;
  r_ContractHash : string;
  r_LogContracts : list string;
  r_Topic0s : list string;
  r_Topic1s : list string;
  r_Topic2s : list string;
  r_Topic3s : list string
}.

Record StateNodeModel : Type := {
  s_ID : Z;
  s_HeaderID : Z;
  s_Path : bytes;
  s_StateKey : string;
  s_NodeType : Z;
  s_CID : string
}.

Record StorageNodeModel : Type := {
  st_ID : Z;
  st_StateID : Z;
  st_Path : bytes;
  st_StorageKey : string;
  st_NodeType : Z;
  st_CID : string
}.

Record StorageNodeWithStateKeyModel : Type := {
  sk_ID : Z;
  sk_StateID : Z;
  sk_Path : bytes;
  sk_StateKey : string;
  sk_StorageKey : string;
  sk_NodeType : Z;
  sk_CID : string
}.

Record StateAccountModel : Type := {
  a_ID : Z;
  a_StateID : Z;
  a_Balance : Z;
  a_Nonce : Z;
  a_CodeHash : bytes;
  a_StorageRoot : string
}.

(** The zero value of a header model. *)
Definition HeaderModel_zero : HeaderModel := {|
  h_ID := 0; h_BlockNumber := 0; h_BlockHash := ""; h_ParentHash := ""; h_CID := "";
  h_TotalDifficulty := ""; h_NodeID := 0; h_Reward := 0; h_StateRoot := ""; h_UncleRoot := "";
  h_TxRoot := ""; h_RctRoot := ""; h_Bloom := []; h_Timestamp := 0; h_TimesValidated := 0
|}.

(** ** Containers (types.go) *)

Record TrieNode : Type := {
  n_Path : bytes;
  n_LeafKey : bytes;
  n_Value : bytes;
  n_Type : NodeType
}.

Record ConvertedPayload : Type := {
  p_TotalDifficulty : Z;
  p_Block : Block;
  p_TxMetaData : list TxModel;
  p_Receipts : list Receipt;
  p_ReceiptMetaData : list ReceiptModel;
  p_StateNodes : list TrieNode;
  p_StorageNodes : gmap string (list TrieNode)
}.

(** [ConvertedPayload.Height] *)
Definition Payload_Height (i : ConvertedPayload) : Z := i64 (block_Number (p_Block i)).

Record CIDPayload : Type := {
  c_HeaderCID : HeaderModel;
  c_UncleCIDs : list UncleModel;
  c_TransactionCIDs : list TxModel;
  c_ReceiptCIDs : gmap bytes ReceiptModel;
  c_StateNodeCIDs : list StateNodeModel;
  c_StateAccounts : gmap string StateAccountModel;
  c_StorageNodeCIDs : gmap string (list StorageNodeModel)
}.

Record CIDWrapper : Type := {
  w_BlockNumber : Z;
  w_Header : HeaderModel;
  w_Uncles : list UncleModel;
  w_Transactions : list TxModel;
  w_Receipts : list ReceiptModel;
  w_StateNodes : list StateNodeModel;
  w_StorageNodes : list StorageNodeWithStateKeyModel
}.

Record StateNode : Type := {
  sn_Type : NodeType;
  sn_StateLeafKey : bytes;
  sn_Path : bytes;
  sn_IPLD : BlockModel
}.

Record StorageNode : Type := {
  stn_Type : NodeType;
  stn_StateLeafKey : bytes;
  stn_StorageLeafKey : bytes;
  stn_Path : bytes;
  stn_IPLD : BlockModel
}.

(** [BlockNumber] and [TotalDifficulty] are [*big.Int]: nil is [None]. *)
Record IPLDs : Type := {
  i_BlockNumber : option Z;
  i_TotalDifficulty : option Z;
  i_Header : BlockModel;
  i_Uncles : list BlockModel;
  i_Transactions : list BlockModel;
  i_Receipts : list BlockModel;
  i_StateNodes : list StateNode;
  i_StorageNodes : list StorageNode
}.

(** The literal [IPLDs{}]. *)
Definition IPLDs_zero : IPLDs := {|
  i_BlockNumber := None; i_TotalDifficulty := None; i_Header := mkBlock "" [];
  i_Uncles := []; i_Transactions := []; i_Receipts := []; i_StateNodes := []; i_StorageNodes := []
|}.

(** [IPLDs.Height]: [Int64] of a nil [*big.Int] is a nil dereference. *)
Definition IPLDs_Height (i : IPLDs) : result Z :=
  match i_BlockNumber i with
  | Some n => Ok (i64 n)
  | None => Panic "invalid memory address or nil pointer dereference"
  end.

(** ** Subscription settings (subscription_config.go) *)

Record HeaderFilter : Type := { hf_Off : bool; hf_Uncles : bool }.

Record TxFilter : Type := {
  tf_Off : bool;
  tf_Src : list string;
  tf_Dst : list string
}.

Record ReceiptFilter : Type := {
  rf_Off : bool;
  rf_MatchTxs : bool;
  rf_LogAddresses : list string;
  rf_Topics : list (list string)
}.

Record StateFilter : Type := {
  sf_Off : bool;
  sf_Addresses : list string;
  sf_IntermediateNodes : bool
}.

Record StorageFilter : Type := {
  stf_Off : bool;
  stf_Addresses : list string;
  stf_StorageKeys : list string;
  stf_IntermediateNodes : bool
}.

Record SubscriptionSettings : Type := {
  BackFill : bool;
  BackFillOnly : bool;
  Start : Z;
  End_ : Z;
  HeaderFilter_ : HeaderFilter;
  TxFilter_ : TxFilter;
  ReceiptFilter_ : ReceiptFilter;
  StateFilter_ : StateFilter;
  StorageFilter_ : StorageFilter
}.

(** ** Lemmas *)

Lemma ResolveNodeType_roundtrip t : ResolveToNodeType (ResolveFromNodeType t) = t.
Proof. by destruct t. Qed.

Lemma ResolveFromNodeType_leaf t : (ResolveFromNodeType t =? 2) = bool_decide (t = Leaf).
Proof. by destruct t. Qed.
