(* ===== verification/EthFilterer.v ===== *)
(** * The Ethereum response filterer (pkg/super_node/eth/filterer.go)

    [Filter] screens a converted block against a subscription and packages
    the IPLDs the subscriber asked for. *)

From S2P Require Import Prelude GoInt Geth EthModel.

(** ** Predicates *)

Definition checkRange (start end_ actual : Z) : bool :=
  if ((end_ <=? 0) || (end_ >=? actual)) && (start <=? actual) then true else false.

Definition checkTransactionAddrs (wantedSrc wantedDst : list string)
    (actualSrc actualDst : string) : bool :=
  if ((length wantedDst =? 0) && (length wantedSrc =? 0))%nat then true
  else if existsb (λ src, bool_decide (src = actualSrc)) wantedSrc then true
  else if existsb (λ dst, bool_decide (dst = actualDst)) wantedDst then true
  else false.

(** 1 if the two slices have a string in common, 0 otherwise. *)
Definition slicesShareString (slice1 slice2 : list string) : nat :=
  if existsb (λ str1, existsb (λ str2, bool_decide (str1 = str2)) slice2) slice1
  then 1%nat else 0%nat.

(** The loop [for i, actualTopicSet := range actualTopics]. *)
Fixpoint filterMatch_loop (i : nat) (wantedTopics actualTopics : list (list string))
    (matches : nat) : nat :=
  match actualTopics with
  | [] => matches
  | actualTopicSet :: actualTopics =>
      let matches :=
        match wantedTopics !! i with
        | Some wanted =>
            if (0 <? length wanted)%nat
            then (matches + slicesShareString actualTopicSet wanted)%nat
            else S matches
        | None => S matches
        end in
      filterMatch_loop (S i) wantedTopics actualTopics matches
  end.

Definition filterMatch (wantedTopics actualTopics : list (list string)) : bool :=
  (filterMatch_loop 0 wantedTopics actualTopics 0 =? 4)%nat.

Definition checkReceipts (rct : Receipt) (wantedTopics actualTopics : list (list string))
    (wantedAddresses actualAddresses : list string) (wantedTrxHashes : list bytes) : bool :=
  if ((length wantedTopics =? 0) && (length wantedAddresses =? 0)
      && (length wantedTrxHashes =? 0))%nat then true
  else if existsb (λ wantedTrxHash, bool_decide (wantedTrxHash = rct_TxHash rct)) wantedTrxHashes
  then true
  else if ((length wantedAddresses =? 0)%nat && filterMatch wantedTopics actualTopics)%bool
  then true
  else if existsb (λ wantedAddr, existsb (λ actualAddr,
            bool_decide (wantedAddr = actualAddr) && filterMatch wantedTopics actualTopics)
            actualAddresses) wantedAddresses
  then true
  else false.

Definition checkNodeKeys (wantedKeys : list bytes) (actualKey : bytes) : bool :=
  if (length wantedKeys =? 0)%nat then true
  else existsb (λ key, bool_decide (key = actualKey)) wantedKeys.

Section Filterer.
Context `{GethCommon} `{CidLib}.

(** ** Headers *)

Definition package (codec : Z) (data : bytes) : result BlockModel :=
  cid <-! RawdataToCid codec data KECCAK_256 ;; Ok (mkBlock cid data).

Definition filterHeaders (headerFilter : HeaderFilter) (payload : ConvertedPayload)
    : result (BlockModel * list BlockModel) :=
  if negb (hf_Off headerFilter) then
    headerRLP <-! header_RLP (block_Header (p_Block payload)) ;;
    header <-! package MEthHeader headerRLP ;;
    if hf_Uncles headerFilter then
      uncles <-! range_collect (λ uncle, uncleRlp <-! header_RLP uncle ;; package MEthHeader uncleRlp)
        (block_Uncles (p_Block payload)) ;;
      Ok (header, uncles)
    else Ok (header, [])
  else Ok (mkBlock "" [], []).

(** ** Transactions *)

(** [for i, trx := range payload.Block.Body().Transactions]: the packaged
    transactions and their hashes. *)
Fixpoint filterTransactions_loop (i : nat) (trxFilter : TxFilter) (meta : list TxModel)
    (trxs : list Transaction) : result (list BlockModel * list bytes) :=
  match trxs with
  | [] => Ok ([], [])
  | trx :: trxs =>
      match meta !! i with
      | None => Panic "index out of range"
      | Some m =>
          if checkTransactionAddrs (tf_Src trxFilter) (tf_Dst trxFilter) (tx_Src m) (tx_Dst m) then
            data <-! trx_RLP trx ;;
            b <-! package MEthTx data ;;
            rest <-! filterTransactions_loop (S i) trxFilter meta trxs ;;
            Ok (b :: rest.1, trx_Hash trx :: rest.2)
          else filterTransactions_loop (S i) trxFilter meta trxs
      end
  end.

Definition filterTransactions (trxFilter : TxFilter) (payload : ConvertedPayload)
    : result (list BlockModel * list bytes) :=
  if negb (tf_Off trxFilter)
  then filterTransactions_loop 0 trxFilter (p_TxMetaData payload)
         (block_Transactions (p_Block payload))
  else Ok ([], []).

(** ** Receipts *)

Definition topics_of (m : ReceiptModel) : list (list string) :=
  [r_Topic0s m; r_Topic1s m; r_Topic2s m; r_Topic3s m].

Fixpoint filerReceipts_loop (i : nat) (receiptFilter : ReceiptFilter) (meta : list ReceiptModel)
    (trxHashes : list bytes) (rcts : list Receipt) : result (list BlockModel) :=
  match rcts with
  | [] => Ok []
  | receipt :: rcts =>
      match meta !! i with
      | None => Panic "index out of range"
      | Some m =>
          if checkReceipts receipt (rf_Topics receiptFilter) (topics_of m)
               (rf_LogAddresses receiptFilter) (r_LogContracts m) trxHashes then
            data <-! rct_RLP receipt ;;
            b <-! package MEthTxReceipt data ;;
            rest <-! filerReceipts_loop (S i) receiptFilter meta trxHashes rcts ;;
            Ok (b :: rest)
          else filerReceipts_loop (S i) receiptFilter meta trxHashes rcts
      end
  end.

Definition filerReceipts (receiptFilter : ReceiptFilter) (payload : ConvertedPayload)
    (trxHashes : list bytes) : result (list BlockModel) :=
  if negb (rf_Off receiptFilter)
  then filerReceipts_loop 0 receiptFilter (p_ReceiptMetaData payload) trxHashes
         (p_Receipts payload)
  else Ok [].

(** ** State and storage *)

Definition address_keys (addresses : list string) : list bytes :=
  map (λ addr, Keccak256Hash (HexToAddress addr)) addresses.

Definition filter_storage_node (storageKeyFilters : list bytes) (stateNode storageNode : TrieNode)
    : result (list StorageNode) :=
  if checkNodeKeys storageKeyFilters (n_LeafKey storageNode) then
    b <-! package MEthStorageTrie (n_Value storageNode) ;;
    Ok [{| stn_StateLeafKey := n_LeafKey stateNode; stn_StorageLeafKey := n_LeafKey storageNode;
           stn_IPLD := b; stn_Type := n_Type storageNode; stn_Path := n_Path storageNode |}]
  else Ok [].

Definition filter_state_node (stateFilter : StateFilter) (stateAddressFilters : list bytes)
    (stateNode : TrieNode) : result (list StateNode) :=
  if negb (sf_Off stateFilter) && checkNodeKeys stateAddressFilters (n_LeafKey stateNode) then
    if bool_decide (n_Type stateNode = Leaf) || sf_IntermediateNodes stateFilter then
      b <-! package MEthStateTrie (n_Value stateNode) ;;
      Ok [{| sn_StateLeafKey := n_LeafKey stateNode; sn_Path := n_Path stateNode;
             sn_IPLD := b; sn_Type := n_Type stateNode |}]
    else Ok []
  else Ok [].

Definition filterStateAndStorage (stateFilter : StateFilter) (storageFilter : StorageFilter)
    (payload : ConvertedPayload) : result (list StateNode * list StorageNode) :=
  let stateAddressFilters := address_keys (sf_Addresses stateFilter) in
  let storageAddressFilters := address_keys (stf_Addresses storageFilter) in
  let storageKeyFilters := map HexToHash (stf_StorageKeys storageFilter) in
  per_node <-! range_collect (λ stateNode,
      states <-! filter_state_node stateFilter stateAddressFilters stateNode ;;
      storages <-! (if negb (stf_Off storageFilter)
                       && checkNodeKeys storageAddressFilters (n_LeafKey stateNode) then
                      range_collect (filter_storage_node storageKeyFilters stateNode)
                        (default [] (p_StorageNodes payload !! Bytes2Hex (n_Path stateNode)))
                    else Ok []) ;;
      Ok (states, concat storages))
    (p_StateNodes payload) ;;
  Ok (concat (map fst per_node), concat (map snd per_node)).

(** ** Filter, once the dynamic types of its arguments are known *)

Definition Filter (ethFilters : SubscriptionSettings) (ethPayload : ConvertedPayload)
    : result IPLDs :=
  if checkRange (i64 (Start ethFilters)) (i64 (End_ ethFilters))
       (i64 (block_Number (p_Block ethPayload))) then
    headers <-! filterHeaders (HeaderFilter_ ethFilters) ethPayload ;;
    txs <-! filterTransactions (TxFilter_ ethFilters) ethPayload ;;
    let filterTxs := if rf_MatchTxs (ReceiptFilter_ ethFilters) then txs.2 else [] in
    rcts <-! filerReceipts (ReceiptFilter_ ethFilters) ethPayload filterTxs ;;
    nodes <-! filterStateAndStorage (StateFilter_ ethFilters) (StorageFilter_ ethFilters)
                ethPayload ;;
    Ok {| i_BlockNumber := Some (block_Number (p_Block ethPayload));
          i_TotalDifficulty := Some (p_TotalDifficulty ethPayload);
          i_Header := headers.1; i_Uncles := headers.2;
          i_Transactions := txs.1; i_Receipts := rcts;
          i_StateNodes := nodes.1; i_StorageNodes := nodes.2 |}
  else Ok IPLDs_zero.

End Filterer.

(** ** Lemmas: the predicates *)

Lemma existsb_decide `{EqDecision A} (x : A) l :
  existsb (λ y, bool_decide (y = x)) l = bool_decide (x ∈ l).
Proof.
  induction l as [|y l IH]; simpl.
  - by destruct (decide (x ∈ @nil A)) as [Hx%elem_of_nil|].
  - rewrite IH. apply eq_true_iff_eq.
    rewrite orb_true_iff, !bool_decide_eq_true, elem_of_cons. naive_solver.
Qed.

Lemma checkRange_spec s e a : checkRange s e a = true ↔ (e ≤ 0 ∨ a ≤ e) ∧ s ≤ a.
Proof.
  unfold checkRange. rewrite Z.geb_leb.
  destruct (e <=? 0) eqn:?, (a <=? e) eqn:?, (s <=? a) eqn:?; simpl; zbool; intuition (try lia; done).
Qed.

(** A filter that asks for sources or destinations keeps a transaction when
    either end is wanted. *)
Lemma checkTransactionAddrs_spec ws wd s d :
  checkTransactionAddrs ws wd s d = true ↔ (ws = [] ∧ wd = []) ∨ s ∈ ws ∨ d ∈ wd.
Proof.
  unfold checkTransactionAddrs. rewrite !existsb_decide.
  destruct ws as [|w ws], wd as [|v wd]; simpl; repeat case_match;
    rewrite ?bool_decide_eq_true, ?bool_decide_eq_false in *; set_solver.
Qed.

Lemma slicesShareString_spec l1 l2 :
  slicesShareString l1 l2 = (if existsb (λ x, bool_decide (x ∈ l2)) l1 then 1 else 0)%nat.
Proof.
  unfold slicesShareString.
  enough (existsb (λ str1, existsb (λ str2, bool_decide (str1 = str2)) l2) l1 =
          existsb (λ x, bool_decide (x ∈ l2)) l1) as -> by done.
  induction l1 as [|x l1 IH]; simpl; [done|].
  rewrite IH. f_equal. rewrite <- (existsb_decide x l2).
  clear. induction l2 as [|y l2 IH]; simpl; [done|]. rewrite IH. f_equal.
  apply bool_decide_ext. naive_solver.
Qed.

(** One topic slot: satisfied when it is absent, empty, or shares a topic. *)
Definition slot_ok (wanted : option (list string)) (actual : list string) : bool :=
  match wanted with
  | None | Some [] => true
  | Some w => existsb (λ x, bool_decide (x ∈ w)) actual
  end.

Lemma filterMatch_loop_count wanted actual : ∀ i m,
  filterMatch_loop i wanted actual m =
  (m + length (filter (λ p, slot_ok (wanted !! p.1) p.2)
                 (imap (λ j a, (i + j, a)%nat) actual)))%nat.
Proof.
  induction actual as [|a actual IH]; intros i m; [simpl; lia|].
  assert (Him : imap ((λ j x, ((i + j)%nat, x)) ∘ S) actual =
                imap (λ j x, ((S i + j)%nat, x)) actual)
    by (apply imap_ext; intros; simpl; f_equal; lia).
  cbn [filterMatch_loop imap]. rewrite IH, Him, filter_cons. cbn [fst snd].
  rewrite Nat.add_0_r.
  destruct (wanted !! i) as [[|w ws]|]; cbn [slot_ok].
  - rewrite decide_True by done. simpl. lia.
  - rewrite slicesShareString_spec. cbn [length Nat.ltb Nat.leb].
    destruct (existsb _ a); [rewrite decide_True by done|rewrite decide_False by auto];
      simpl; lia.
  - rewrite decide_True by done. simpl. lia.
Qed.

(** [filterMatch] on the four topic sets of a receipt: every slot matches. *)
Lemma filterMatch_spec wanted a0 a1 a2 a3 :
  filterMatch wanted [a0; a1; a2; a3] =
  slot_ok (wanted !! 0%nat) a0 && slot_ok (wanted !! 1%nat) a1
  && slot_ok (wanted !! 2%nat) a2 && slot_ok (wanted !! 3%nat) a3.
Proof.
  unfold filterMatch. rewrite filterMatch_loop_count. simpl imap. rewrite !filter_cons, filter_nil.
  simpl.
  destruct (slot_ok (wanted !! 0%nat) a0), (slot_ok (wanted !! 1%nat) a1),
    (slot_ok (wanted !! 2%nat) a2), (slot_ok (wanted !! 3%nat) a3); reflexivity.
Qed.

Lemma checkNodeKeys_spec ks k : checkNodeKeys ks k = true ↔ ks = [] ∨ k ∈ ks.
Proof.
  unfold checkNodeKeys. rewrite existsb_decide.
  destruct ks; simpl; rewrite ?bool_decide_eq_true; set_solver.
Qed.

#[export] Hint Rewrite checkRange_spec checkTransactionAddrs_spec checkNodeKeys_spec : go.

(** ** Lemmas: what a filter selects *)

(** A payload whose metadata has an entry for each transaction and receipt. *)
Definition aligned (p : ConvertedPayload) : Prop :=
  length (p_TxMetaData p) = length (block_Transactions (p_Block p)) ∧
  length (p_ReceiptMetaData p) = length (p_Receipts p).


(** Blocks packaged from the encodings of [xs], in order. *)
Definition packaged `{CidLib} {A} (codec : Z) (encode : A → result bytes) (xs : list A)
    : result (list BlockModel) :=
  range_collect (λ x, data <-! encode x ;; package codec data) xs.

(** The transactions, receipts and nodes a subscription asks for. *)
Definition selected_txs (f : TxFilter) (p : ConvertedPayload) : list (Transaction * TxModel) :=
  if tf_Off f then [] else
  filter (λ tm, checkTransactionAddrs (tf_Src f) (tf_Dst f) (tx_Src tm.2) (tx_Dst tm.2) = true)
    (zip (block_Transactions (p_Block p)) (p_TxMetaData p)).

Definition selected_rcts (f : ReceiptFilter) (hashes : list bytes) (p : ConvertedPayload)
    : list (Receipt * ReceiptModel) :=
  if rf_Off f then [] else
  filter (λ rm, checkReceipts rm.1 (rf_Topics f) (topics_of rm.2) (rf_LogAddresses f)
                  (r_LogContracts rm.2) hashes = true)
    (zip (p_Receipts p) (p_ReceiptMetaData p)).

Section Selection.
Context `{GethCommon} `{CidLib}.

(** The transaction loop packages the selected transactions. *)
Lemma filterTransactions_loop_selects f meta txs : ∀ i,
  (i + length txs = length meta)%nat →
  let sel := filter (λ tm, checkTransactionAddrs (tf_Src f) (tf_Dst f) (tx_Src tm.2) (tx_Dst tm.2) = true)
    (zip txs (drop i meta)) in
  filterTransactions_loop i f meta txs =
  (bs <-! packaged MEthTx (λ tm, trx_RLP tm.1) sel ;; Ok (bs, map (λ tm, trx_Hash tm.1) sel)).
Proof.
  induction txs as [|t txs IH]; intros i Hl; simpl in *; [done|].
  destruct (lookup_lt_is_Some_2 meta i ltac:(lia)) as [m Hm]. rewrite Hm, (drop_S _ _ _ Hm). simpl.
  rewrite filter_cons, IH by lia. simpl.
  destruct (checkTransactionAddrs _ _ _ _) eqn:E; [rewrite decide_True by done|by rewrite decide_False by auto].
  unfold packaged. simpl. destruct (trx_RLP t) as [raw| |]; simpl; [|done..].
  destruct (package MEthTx raw); simpl; [|done..]. by destruct (range_collect _ _).
Qed.

Lemma filerReceipts_loop_selects f meta hashes rcts : ∀ i,
  (i + length rcts = length meta)%nat →
  filerReceipts_loop i f meta hashes rcts =
  packaged MEthTxReceipt (λ rm : Receipt * ReceiptModel, rct_RLP rm.1)
    (filter (λ rm, checkReceipts rm.1 (rf_Topics f) (topics_of rm.2) (rf_LogAddresses f)
      (r_LogContracts rm.2) hashes = true) (zip rcts (drop i meta))).
Proof.
  induction rcts as [|r rcts IH]; intros i Hl; simpl in *; [done|].
  destruct (lookup_lt_is_Some_2 meta i ltac:(lia)) as [m Hm]. rewrite Hm, (drop_S _ _ _ Hm). simpl.
  rewrite filter_cons, IH by lia. simpl.
  destruct (checkReceipts _ _ _ _ _ _) eqn:E; [rewrite decide_True by done|by rewrite decide_False by auto].
  unfold packaged. simpl. destruct (rct_RLP r) as [raw| |]; simpl; [|done..].
  destruct (package MEthTxReceipt raw); simpl; [|done..]. by destruct (range_collect _ _).
Qed.

Lemma filterTransactions_selects f p :
  aligned p →
  filterTransactions f p =
  (bs <-! packaged MEthTx (λ tm, trx_RLP tm.1) (selected_txs f p) ;;
   Ok (bs, map (λ tm, trx_Hash tm.1) (selected_txs f p))).
Proof.
  intros [Hl _]. unfold filterTransactions, selected_txs. destruct (tf_Off f); simpl; [done|].
  rewrite filterTransactions_loop_selects by (simpl; lia). by rewrite drop_0.
Qed.

Lemma filerReceipts_selects f hashes p :
  aligned p →
  filerReceipts f p hashes =
  packaged MEthTxReceipt (λ rm : Receipt * ReceiptModel, rct_RLP rm.1) (selected_rcts f hashes p).
Proof.
  intros [_ Hl]. unfold filerReceipts, selected_rcts. destruct (rf_Off f); simpl; [done|].
  rewrite filerReceipts_loop_selects by (simpl; lia). by rewrite drop_0.
Qed.

(** No panic on values whose encodings and CIDs do not panic. *)
(** The block's values can be encoded and hashed without a panic. *)
Definition encodable (p : ConvertedPayload) : Prop :=
  (∀ codec raw, no_panic (RawdataToCid codec raw KECCAK_256)) ∧
  no_panic (header_RLP (block_Header (p_Block p))) ∧
  Forall (λ u, no_panic (header_RLP u)) (block_Uncles (p_Block p)) ∧
  Forall (λ t, no_panic (trx_RLP t)) (block_Transactions (p_Block p)) ∧
  Forall (λ r, no_panic (rct_RLP r)) (p_Receipts p).

Lemma package_no_panic p codec raw : encodable p → no_panic (package codec raw).
Proof. intros (Hc & _). apply rbind_no_panic; [apply Hc|done]. Qed.

Lemma filterHeaders_no_panic f p : encodable p → no_panic (filterHeaders f p).
Proof.
  intros Henc. pose proof Henc as (_ & Hh & Hu & _). rewrite Forall_forall in Hu.
  unfold filterHeaders. destruct (negb _); [|done].
  apply rbind_no_panic; [done|intros ? _].
  apply rbind_no_panic; [by eapply package_no_panic|intros ? _].
  destruct (hf_Uncles _); [|done]. apply rbind_no_panic; [|done].
  apply range_collect_no_panic. intros u Hin.
  apply rbind_no_panic; [by apply Hu|intros ? _; by eapply package_no_panic].
Qed.

Lemma selected_txs_no_panic f p :
  encodable p → no_panic (packaged MEthTx (λ tm, trx_RLP tm.1) (selected_txs f p)).
Proof.
  intros Henc. pose proof Henc as (_ & _ & _ & Ht & _). rewrite Forall_forall in Ht.
  apply range_collect_no_panic. intros x Hx. unfold selected_txs in Hx.
  destruct (tf_Off _); [by apply elem_of_nil in Hx|].
  apply rbind_no_panic; [by eapply Ht, zip_filter_l|intros ? _; by eapply package_no_panic].
Qed.

Lemma selected_rcts_no_panic f hashes p :
  encodable p → no_panic (packaged MEthTxReceipt (λ rm, rct_RLP rm.1) (selected_rcts f hashes p)).
Proof.
  intros Henc. pose proof Henc as (_ & _ & _ & _ & Hr). rewrite Forall_forall in Hr.
  apply range_collect_no_panic. intros x Hx. unfold selected_rcts in Hx.
  destruct (rf_Off _); [by apply elem_of_nil in Hx|].
  apply rbind_no_panic; [by eapply Hr, zip_filter_l|intros ? _; by eapply package_no_panic].
Qed.

Lemma filterStateAndStorage_no_panic f g p : encodable p → no_panic (filterStateAndStorage f g p).
Proof.
  intros Henc. apply rbind_no_panic; [|done].
  apply range_collect_no_panic. intros sn _. apply rbind_no_panic.
  - unfold filter_state_node. destruct (_ && _); [|done]. destruct (_ || _); [|done].
    apply rbind_no_panic; [by eapply package_no_panic|done].
  - intros l _. apply rbind_no_panic; [|done]. destruct (_ && _); [|done].
    apply range_collect_no_panic. intros stn _. unfold filter_storage_node.
    destruct (checkNodeKeys _ _); [|done].
    apply rbind_no_panic; [by eapply package_no_panic|done].
Qed.

Lemma Filter_no_panic f p : aligned p → encodable p → no_panic (Filter f p).
Proof.
  intros Ha He. unfold Filter. destruct (checkRange _ _ _); [|done].
  rewrite filterTransactions_selects by done.
  apply rbind_no_panic; [by apply filterHeaders_no_panic|intros hs _].
  apply rbind_no_panic; [apply rbind_no_panic; [by apply selected_txs_no_panic|done]|intros ts _].
  rewrite filerReceipts_selects by done.
  apply rbind_no_panic; [by apply selected_rcts_no_panic|intros rs _].
  apply rbind_no_panic; [by apply filterStateAndStorage_no_panic|done].
Qed.

(** The block number of an answer: present exactly inside the range. *)
Lemma Filter_number f p i :
  Filter f p = Ok i →
  i_BlockNumber i =
    if checkRange (i64 (Start f)) (i64 (End_ f)) (i64 (block_Number (p_Block p)))
    then Some (block_Number (p_Block p)) else None.
Proof.
  unfold Filter. destruct (checkRange _ _ _); [|by intros [= <-]].
  intros (hs & _ & (ts & _ & (rs & _ & (ns & _ & [= <-])%rbind_Ok_inv)%rbind_Ok_inv)%rbind_Ok_inv)%rbind_Ok_inv.
  done.
Qed.

(** ** Properties *)

(** [Filter] on an aligned payload.  Outside the subscription's range it
    answers the empty IPLDs; inside, its answer carries the block number and
    difficulty and, in block order, exactly the transactions whose source or
    destination is wanted and the receipts [checkReceipts] accepts -- matched
    against the hashes of the transactions just selected if the subscription
    says so -- each packaged with the CID of its encoding.  It never panics. *)
Theorem Filter_selects f p :
  aligned p → encodable p →
  let inRange := checkRange (i64 (Start f)) (i64 (End_ f)) (i64 (block_Number (p_Block p))) in
  let txs := selected_txs (TxFilter_ f) p in
  let hashes := if rf_MatchTxs (ReceiptFilter_ f) then map (λ tm, trx_Hash tm.1) txs else [] in
  match Filter f p with
  | Ok i =>
      if inRange then
        i_BlockNumber i = Some (block_Number (p_Block p)) ∧
        i_TotalDifficulty i = Some (p_TotalDifficulty p) ∧
        packaged MEthTx (λ tm, trx_RLP tm.1) txs = Ok (i_Transactions i) ∧
        packaged MEthTxReceipt (λ rm, rct_RLP rm.1) (selected_rcts (ReceiptFilter_ f) hashes p)
          = Ok (i_Receipts i)
      else i = IPLDs_zero
  | Err _ => inRange = true
  | Panic _ => False
  end.
Proof.
  intros Hal Henc. cbv zeta.
  unfold Filter. destruct (checkRange _ _ _); [|done].
  rewrite filterTransactions_selects by done.
  pose proof (filterHeaders_no_panic (HeaderFilter_ f) p Henc) as Hhd.
  pose proof (selected_txs_no_panic (TxFilter_ f) p Henc) as Htx.
  destruct (filterHeaders _ _) as [hs| |]; simpl in *; [|done..].
  destruct (packaged MEthTx _ _) as [ts| |]; simpl in *; [|done..].
  rewrite filerReceipts_selects by done. set (hashes := if rf_MatchTxs _ then _ else _).
  pose proof (selected_rcts_no_panic (ReceiptFilter_ f) hashes p Henc) as Hrc.
  destruct (packaged MEthTxReceipt _ _) as [rs| |]; simpl in *; [|done..].
  pose proof (filterStateAndStorage_no_panic (StateFilter_ f) (StorageFilter_ f) p Henc) as Hst.
  by destruct (filterStateAndStorage _ _ _) as [ns| |].
Qed.

End Selection.

(** ** Witnesses *)

Section Witnesses.
#[local] Existing Instance Concrete.geth.
#[local] Existing Instance Concrete.cidlib.

Definition ex_trx (n : Z) : Transaction := {| trx_RLP := Ok [n]; trx_Hash := [n]; trx_To := None;
  trx_Sender := Ok [1]; trx_GasPrice := 3 |}.
Definition ex_receipt (n : Z) : Receipt := {| rct_RLP := Ok [10 + n]; rct_TxHash := [n];
  rct_GasUsed := 5; rct_ContractAddress := []; rct_Logs := [] |}.
Definition ex_tx_meta (src : string) : TxModel := {| tx_ID := 0; tx_HeaderID := 0; tx_Index := 0;
  tx_TxHash := ""; tx_CID := ""; tx_Dst := "d"; tx_Src := src |}.
Definition ex_rct_meta : ReceiptModel := {| r_ID := 0; r_TxID := 0; r_CID := ""; r_Contract := "";
  r_ContractHash := ""; r_LogContracts := []; r_Topic0s := []; r_Topic1s := []; r_Topic2s := [];
  r_Topic3s := [] |}.

(** A block with two transactions from different senders. *)
Definition ex_two_txs : ConvertedPayload := {|
  p_TotalDifficulty := 11;
  p_Block := {|
    block_Header := {| header_RLP := Ok [9]; header_Number := 9; header_Hash := []; header_ParentHash := [] |};
    block_Uncles := []; block_Transactions := [ex_trx 1; ex_trx 2]; block_Root := [];
    block_TxHash := []; block_ReceiptHash := []; block_UncleHash := []; block_Bloom := [];
    block_Time := 0 |};
  p_TxMetaData := [ex_tx_meta "a"; ex_tx_meta "b"];
  p_Receipts := [ex_receipt 1; ex_receipt 2];
  p_ReceiptMetaData := [ex_rct_meta; ex_rct_meta];
  p_StateNodes := []; p_StorageNodes := ∅ |}.

(** Transactions from "b", and the receipts of the matched transactions with
    logs of contract "c". *)
Definition ex_settings : SubscriptionSettings := {|
  BackFill := false; BackFillOnly := false; Start := 5; End_ := 0;
  HeaderFilter_ := {| hf_Off := false; hf_Uncles := true |};
  TxFilter_ := {| tf_Off := false; tf_Src := ["b"]; tf_Dst := [] |};
  ReceiptFilter_ := {| rf_Off := false; rf_MatchTxs := true; rf_LogAddresses := ["c"]; rf_Topics := [] |};
  StateFilter_ := {| sf_Off := false; sf_Addresses := []; sf_IntermediateNodes := false |};
  StorageFilter_ := {| stf_Off := false; stf_Addresses := []; stf_StorageKeys := [];
                       stf_IntermediateNodes := false |} |}.

Lemma Filter_selects_witness :
  let txs := selected_txs (TxFilter_ ex_settings) ex_two_txs in
  let hashes := map (λ tm : Transaction * TxModel, trx_Hash tm.1) txs in
  (aligned ex_two_txs ∧ encodable ex_two_txs ∧ txs = [(ex_trx 2, ex_tx_meta "b")]) ∧
  match Filter ex_settings ex_two_txs with
  | Ok i =>
      i_BlockNumber i = Some 9 ∧ i_TotalDifficulty i = Some 11 ∧
      packaged MEthTx (λ tm : Transaction * TxModel, trx_RLP tm.1) txs = Ok (i_Transactions i) ∧
      packaged MEthTxReceipt (λ rm : Receipt * ReceiptModel, rct_RLP rm.1)
        (selected_rcts (ReceiptFilter_ ex_settings) hashes ex_two_txs) = Ok (i_Receipts i)
  | Err _ => checkRange 5 0 9 = true
  | Panic _ => False
  end.
Proof.
  intros txs hashes.
  assert (Ha : aligned ex_two_txs) by (split; reflexivity).
  assert (He : encodable ex_two_txs) by (split_and!; [intros; exact I|exact I|repeat constructor..]).
  split; [split; [exact Ha|split; [exact He|vm_compute; reflexivity]]|].
  exact (Filter_selects ex_settings ex_two_txs Ha He).
Defined.

End Witnesses.
