(* ===== verification/Rewards.v ===== *)
(** * Block and uncle rewards (pkg/eth/converters/common/block_rewards.go)

    [big.Int] values are [Z]; [Int64()] and the [int64] conversion of the gas
    used truncate to 64 bits. *)

From S2P Require Import Prelude GoInt Geth EthModel.

(** ** core.Block, as far as the rewards read it *)

Record CoreTransaction : Type := { ct_GasPrice : Z; ct_Receipt_GasUsed : Z }.
Record CoreBlock : Type := { cb_Number : Z; cb_Transactions : list CoreTransaction }.

Definition staticRewardByBlockNumber (blockNumber : Z) : Z :=
  if blockNumber >=? 7280000 then 2000000000000000000
  else if blockNumber >=? 4370000 then 3000000000000000000
  else 5000000000000000000.

Definition calcTransactionFees (block : CoreBlock) : Z :=
  foldl (λ transactionFees transaction,
    let gasPrice := ct_GasPrice transaction in
    let gasUsed := i64 (ct_Receipt_GasUsed transaction) in
    transactionFees + gasPrice * gasUsed) 0 (cb_Transactions block).

Definition calcUncleInclusionRewards (block : CoreBlock) (uncles : list Header) : Z :=
  foldl (λ uncleInclusionRewards _,
    uncleInclusionRewards + staticRewardByBlockNumber (cb_Number block) / 32) 0 uncles.

Definition CalcBlockReward (block : CoreBlock) (uncles : list Header) : Z :=
  let staticBlockReward := staticRewardByBlockNumber (cb_Number block) in
  let transactionFees := calcTransactionFees block in
  let uncleInclusionRewards := calcUncleInclusionRewards block uncles in
  (transactionFees + uncleInclusionRewards) + staticBlockReward.

Definition CalcUncleMinerReward (blockNumber uncleBlockNumber : Z) : Z :=
  let rewardDiv8 := staticRewardByBlockNumber blockNumber / 8 in
  rewardDiv8 * ((uncleBlockNumber + 8) - blockNumber).

(** [calcUncleMinerReward] is the unexported copy of the same function. *)
Definition calcUncleMinerReward (blockNumber uncleBlockNumber : Z) : Z :=
  let rewardDiv8 := staticRewardByBlockNumber blockNumber / 8 in
  rewardDiv8 * ((uncleBlockNumber + 8) - blockNumber).

(** [for i, transaction := range txs { receipt := receipts[i] ... }] *)
Fixpoint calcEthTransactionFees_loop (i : nat) (transactionFees : Z) (txs : list Transaction)
    (receipts : list Receipt) : result Z :=
  match txs with
  | [] => Ok transactionFees
  | transaction :: txs =>
      match receipts !! i with
      | None => Panic "index out of range"
      | Some receipt =>
          let gasPrice := i64 (trx_GasPrice transaction) in
          let gasUsed := i64 (rct_GasUsed receipt) in
          calcEthTransactionFees_loop (S i) (transactionFees + gasPrice * gasUsed) txs receipts
      end
  end.

Definition calcEthTransactionFees (txs : list Transaction) (receipts : list Receipt) : result Z :=
  calcEthTransactionFees_loop 0 0 txs receipts.

Definition calcEthUncleInclusionRewards (header : Header) (uncles : list Header) : Z :=
  foldl (λ uncleInclusionRewards _,
    uncleInclusionRewards + staticRewardByBlockNumber (i64 (header_Number header)) / 32) 0 uncles.

Definition CalcEthBlockReward (header : Header) (uncles : list Header) (txs : list Transaction)
    (receipts : list Receipt) : result Z :=
  let staticBlockReward := staticRewardByBlockNumber (i64 (header_Number header)) in
  transactionFees <-! calcEthTransactionFees txs receipts ;;
  let uncleInclusionRewards := calcEthUncleInclusionRewards header uncles in
  Ok ((transactionFees + uncleInclusionRewards) + staticBlockReward).

(** ** Lemmas *)

Definition sumZ (l : list Z) : Z := foldr Z.add 0 l.

Lemma foldl_add_sumZ {A} (f : A → Z) l acc :
  foldl (λ s x, s + f x) acc l = acc + sumZ (map f l).
Proof. revert acc; induction l as [|x l IH]; intros acc; simpl; [lia|]. rewrite IH. lia. Qed.

Lemma sumZ_const {A} (c : Z) (l : list A) : sumZ (map (λ _, c) l) = Z.of_nat (length l) * c.
Proof. induction l; simpl length; simpl map; simpl sumZ; lia. Qed.

(** The fee of a transaction that fits the 64-bit conversions. *)
Definition eth_fee (p : Transaction * Receipt) : Z :=
  i64 (trx_GasPrice p.1) * i64 (rct_GasUsed p.2).

Lemma fees_loop_spec txs : ∀ i acc receipts,
  (i + length txs ≤ length receipts)%nat →
  calcEthTransactionFees_loop i acc txs receipts =
  Ok (acc + sumZ (map eth_fee (zip txs (drop i receipts)))).
Proof.
  induction txs as [|t txs IH]; intros i acc receipts Hl; simpl.
  - by rewrite Z.add_0_r.
  - simpl in Hl. destruct (lookup_lt_is_Some_2 receipts i ltac:(lia)) as [r Hr]. rewrite Hr.
    rewrite IH by lia. rewrite (drop_S _ _ _ Hr). simpl. f_equal.
    unfold eth_fee at 2. simpl. lia.
Qed.

Lemma fees_loop_panic txs : ∀ i acc receipts,
  (length receipts < i + length txs)%nat → (i ≤ length receipts)%nat →
  ∃ w, calcEthTransactionFees_loop i acc txs receipts = Panic w.
Proof.
  induction txs as [|t txs IH]; intros i acc receipts Hl Hi; simpl in *; [lia|].
  destruct (receipts !! i) as [r|] eqn:E; [|eauto].
  apply IH; [lia|]. apply lookup_lt_Some in E. lia.
Qed.

Lemma static_reward_pos n : 0 < staticRewardByBlockNumber n.
Proof. unfold staticRewardByBlockNumber. repeat case_match; lia. Qed.

Lemma static_reward_div n : (32 | staticRewardByBlockNumber n).
Proof.
  unfold staticRewardByBlockNumber.
  repeat case_match; apply Z.mod_divide; [lia|reflexivity|lia|reflexivity|lia|reflexivity].
Qed.

(** ** Properties *)

(** The reward of an Ethereum block is the static reward of its height, one
    thirty-second of it (exactly) per included uncle, and the fees of its
    transactions paired with their receipts; with fewer receipts than
    transactions the computation panics instead of returning a number. *)
Theorem CalcEthBlockReward_spec header uncles txs receipts :
  let static := staticRewardByBlockNumber (i64 (header_Number header)) in
  if (length txs <=? length receipts)%nat then
    ∃ inclusion, 32 * inclusion = Z.of_nat (length uncles) * static ∧
      CalcEthBlockReward header uncles txs receipts =
      Ok (static + inclusion + sumZ (map eth_fee (zip txs receipts)))
  else ∃ w, CalcEthBlockReward header uncles txs receipts = Panic w.
Proof.
  intros static. unfold CalcEthBlockReward, calcEthTransactionFees.
  destruct (_ <=? _)%nat eqn:E.
  - apply Nat.leb_le in E. rewrite fees_loop_spec by lia. simpl.
    unfold calcEthUncleInclusionRewards. rewrite foldl_add_sumZ, sumZ_const.
    destruct (static_reward_div (i64 (header_Number header))) as [k Hk]. fold static in Hk |- *.
    exists (Z.of_nat (length uncles) * k). split; [rewrite Hk; lia|].
    replace (static / 32) with k by (rewrite Hk; symmetry; by apply Z.div_mul).
    f_equal. rewrite drop_0. lia.
  - apply Nat.leb_gt in E. destruct (fees_loop_panic txs 0 0 receipts) as [w Hw]; [lia..|].
    rewrite Hw. by exists w.
Qed.

(** An uncle one to six generations older than the block that includes it
    earns between two and seven eighths of the static reward. *)
Theorem CalcUncleMinerReward_bounds block uncle :
  block - 6 ≤ uncle < block →
  2 * staticRewardByBlockNumber block ≤ 8 * CalcUncleMinerReward block uncle
    ≤ 7 * staticRewardByBlockNumber block.
Proof.
  intros Hu. unfold CalcUncleMinerReward.
  pose proof (static_reward_pos block) as Hpos.
  destruct (static_reward_div block) as [k Hk]. rewrite Hk in *.
  replace (k * 32 / 8) with (4 * k) by (replace (k * 32) with (4 * k * 8) by lia;
    symmetry; apply Z.div_mul; lia). nia.
Qed.

Lemma CalcUncleMinerReward_bounds_witness :
  (7280000 - 6 ≤ 7279999 < 7280000) ∧
  2 * staticRewardByBlockNumber 7280000 ≤ 8 * CalcUncleMinerReward 7280000 7279999
    ≤ 7 * staticRewardByBlockNumber 7280000.
Proof. split; [lia|]. apply (CalcUncleMinerReward_bounds 7280000 7279999). lia. Defined.
