(* ===== verification/EthIpld.v ===== *)
(** * Building Ethereum IPLD nodes (pkg/ipfs/ipld: eth_parser.go, eth_header.go,
    eth_tx.go, eth_receipt.go, eth_tx_trie.go, eth_receipt_trie.go, shared.go)

    An IPLD node is its CID and its raw bytes. *)

From S2P Require Import Prelude Geth EthModel.

(** Parameters: RLP of an index and the root hash of a Merkle-Patricia trie
    built from key/value insertions (go-ethereum's rlp and trie packages). *)
Class TrieLib := {
  rlp_uint : nat → bytes;
  trie_Hash : list (bytes * bytes) → bytes
}.

(** shared.go: localTrie. [lt_db] is the memory database, [lt_keys] the keys
    in insertion order, [lt_trie] the updates applied to the trie. *)
Record localTrie : Type := {
  lt_keys : list bytes;
  lt_db : gmap bytes bytes;
  lt_trie : list (bytes * bytes)
}.

Definition newLocalTrie : localTrie := {| lt_keys := []; lt_db := ∅; lt_trie := [] |}.

Section Build.
Context `{CidLib} `{TrieLib}.

Definition lt_add (lt : localTrie) (idx : nat) (rawdata : bytes) : localTrie :=
  let key := rlp_uint idx in
  {| lt_keys := lt_keys lt ++ [key];
     lt_db := <[key := rawdata]> (lt_db lt);
     lt_trie := lt_trie lt ++ [(key, rawdata)] |}.

Definition rootHash (lt : localTrie) : bytes := trie_Hash (lt_trie lt).

(** [getNodes]: one node per key, with the bytes stored in the database under
    that key; a failing CID computation makes the whole result nil. *)
Definition getNodes (codec : Z) (lt : localTrie) : result (list Node) :=
  match range_collect (λ k,
    match lt_db lt !! k with
    | None => Panic "leveldb: not found"
    | Some rawdata => c <-! RawdataToCid codec rawdata KECCAK_256 ;; Ok (mkNode c rawdata)
    end) (lt_keys lt) with
  | Err _ => Ok []
  | r => r
  end.

Definition NewEthHeader (header : Header) : result Node :=
  headerRLP <-! header_RLP header ;;
  c <-! RawdataToCid MEthHeader headerRLP KECCAK_256 ;;
  Ok (mkNode c headerRLP).

Definition NewEthTx (tx : Transaction) : result Node :=
  txRLP <-! trx_RLP tx ;;
  c <-! RawdataToCid MEthTx txRLP KECCAK_256 ;;
  Ok (mkNode c txRLP).

Definition NewReceipt (receipt : Receipt) : result Node :=
  receiptRLP <-! rct_RLP receipt ;;
  c <-! RawdataToCid MEthTxReceipt receiptRLP KECCAK_256 ;;
  Ok (mkNode c receiptRLP).

(** The loop of [processTransactions] and [processReceipts]. *)
Fixpoint process_loop {A} (mk : A → result Node) (idx : nat) (trie : localTrie) (l : list A)
    : result (list Node * localTrie) :=
  match l with
  | [] => Ok ([], trie)
  | x :: l =>
      node <-! mk x ;;
      rest <-! process_loop mk (S idx) (lt_add trie idx (RawData node)) l ;;
      Ok (node :: rest.1, rest.2)
  end.

Definition processTransactions (txs : list Transaction) (expectedTxRoot : bytes)
    : result (list Node * list Node) :=
  nodes <-! process_loop NewEthTx 0 newLocalTrie txs ;;
  if bool_decide (rootHash nodes.2 = expectedTxRoot) then
    trieNodes <-! getNodes MEthTxTrie nodes.2 ;; Ok (nodes.1, trieNodes)
  else Err (Errorf "wrong transaction hash computed").

Definition processReceipts (rcts : list Receipt) (expectedRctRoot : bytes)
    : result (list Node * list Node) :=
  nodes <-! process_loop NewReceipt 0 newLocalTrie rcts ;;
  if bool_decide (rootHash nodes.2 = expectedRctRoot) then
    trieNodes <-! getNodes MEthTxReceiptTrie nodes.2 ;; Ok (nodes.1, trieNodes)
  else Err (Errorf "wrong receipt hash computed").

Record BlockNodes : Type := {
  headerNode : Node;
  uncleNodes : list Node;
  txNodes : list Node;
  txTrieNodes : list Node;
  rctNodes : list Node;
  rctTrieNodes : list Node
}.

Definition FromBlockAndReceipts (block : Block) (receipts : list Receipt) : result BlockNodes :=
  header <-! NewEthHeader (block_Header block) ;;
  uncles <-! range_collect NewEthHeader (block_Uncles block) ;;
  txs <-! processTransactions (block_Transactions block) (block_TxHash block) ;;
  rcts <-! processReceipts receipts (block_ReceiptHash block) ;;
  Ok {| headerNode := header; uncleNodes := uncles; txNodes := txs.1; txTrieNodes := txs.2;
        rctNodes := rcts.1; rctTrieNodes := rcts.2 |}.

(** ** Lemmas *)

Lemma process_loop_nodes {A} (mk : A → result Node) l : ∀ idx lt ns lt',
  process_loop mk idx lt l = Ok (ns, lt') → Forall2 (λ x n, mk x = Ok n) l ns.
Proof.
  induction l as [|x l IH]; intros idx lt ns lt'; simpl; [by intros [= <- <-]|].
  intros (n & Hn & ([ns' lt''] & Hr & [= <- <-])%rbind_Ok_inv)%rbind_Ok_inv.
  constructor; [done|by eapply IH].
Qed.

Lemma process_loop_trie {A} (mk : A → result Node) l : ∀ idx lt ns lt',
  process_loop mk idx lt l = Ok (ns, lt') →
  lt_keys lt' = lt_keys lt ++ map rlp_uint (seq idx (length l)).
Proof.
  induction l as [|x l IH]; intros idx lt ns lt'; simpl.
  - intros [= <- <-]. by rewrite app_nil_r.
  - intros (n & Hn & ([ns' lt''] & Hr & [= <- <-])%rbind_Ok_inv)%rbind_Ok_inv.
    rewrite (IH _ _ _ _ Hr). simpl. by rewrite <- app_assoc.
Qed.

(** The database holds, under the key of position [i], the raw bytes of node [i]. *)
Lemma process_loop_db {A} `{!Inj (=) (=) rlp_uint} (mk : A → result Node) l : ∀ idx lt ns lt',
  process_loop mk idx lt l = Ok (ns, lt') →
  (∀ i n, ns !! i = Some n → lt_db lt' !! rlp_uint (idx + i) = Some (RawData n)) ∧
  (∀ j, (j < idx)%nat → lt_db lt' !! rlp_uint j = lt_db lt !! rlp_uint j).
Proof.
  induction l as [|x l IH]; intros idx lt ns lt'; simpl.
  - intros [= <- <-]. split; [intros i n; by rewrite lookup_nil|done].
  - intros (n & Hn & ([ns' lt''] & Hr & [= <- <-])%rbind_Ok_inv)%rbind_Ok_inv.
    destruct (IH _ _ _ _ Hr) as [H1 H2]. split.
    + intros [|i] m Hm; simpl in Hm.
      * injection Hm as <-. rewrite Nat.add_0_r, H2 by lia. simpl. by rewrite lookup_insert_eq.
      * rewrite <- Nat.add_succ_comm. by apply H1.
    + intros j Hj. rewrite H2 by lia. simpl. rewrite lookup_insert_ne; [done|].
      intros Heq%(inj rlp_uint). lia.
Qed.

(** [FromBlockAndReceipts] yields one transaction node per transaction and
    one receipt node per receipt. *)
Lemma FromBlockAndReceipts_lengths block receipts ns :
  FromBlockAndReceipts block receipts = Ok ns →
  length (txNodes ns) = length (block_Transactions block) ∧
  length (rctNodes ns) = length receipts ∧
  length (uncleNodes ns) = length (block_Uncles block).
Proof.
  unfold FromBlockAndReceipts.
  intros (h & _ & (us & Hu & ([ts tt] & Ht & ([rs rt] & Hr & [= <-])%rbind_Ok_inv)
    %rbind_Ok_inv)%rbind_Ok_inv)%rbind_Ok_inv. simpl.
  unfold processTransactions in Ht. apply rbind_Ok_inv in Ht as ([n1 l1] & Ht & Ht').
  case_bool_decide; [|done]. apply rbind_Ok_inv in Ht' as (? & _ & [= -> ->]).
  unfold processReceipts in Hr. apply rbind_Ok_inv in Hr as ([n2 l2] & Hr & Hr').
  case_bool_decide; [|done]. apply rbind_Ok_inv in Hr' as (? & _ & [= -> ->]).
  apply process_loop_nodes, Forall2_length in Ht, Hr. apply range_collect_length in Hu.
  naive_solver.
Qed.

End Build.
