(* ===== verification/Sql.v ===== *)
(** * SQL sessions and the repository's transaction idioms

    The source talks to Postgres through sqlx: statements run either on the
    connection or inside a transaction.  A session carries the tables, the
    sequences behind the [serial] columns (which a rollback does not restore),
    the server's "current transaction is aborted" flag and the number of
    statements sent so far.  An oracle says which statements the server
    rejects (constraint violation, lost connection, ...), so every theorem
    that quantifies over it covers every failure pattern.

    Three transaction idioms occur:
    - [transact]: every error path calls Rollback and the last statement is
      [return tx.Commit()];
    - [transact_deferred]: a deferred closure rolls back when the function's
      outer [err] variable is non-nil and commits otherwise.  An error held
      in an inner, shadowing [err] is not seen by the closure; a commit error
      is assigned to [err] after the result was evaluated, so it is lost;
    - [transact_early]: the deferred closure again, in a function that has
      already committed. *)

From S2P Require Import Prelude GoInt.

(** ** Sessions *)

Definition oracle : Type := nat → option error.

Record session (T : Type) : Type := mkSession {
  tables : T;
  seqs : gmap string Z;
  aborted : bool;
  clock : nat
}.
Arguments mkSession {T} _ _ _ _.
Arguments tables {T} _.
Arguments seqs {T} _.
Arguments aborted {T} _.
Arguments clock {T} _.

(** [outer] records whether the error reached the function's outer [err]. *)
Inductive outcome (A : Type) : Type :=
| DOk (a : A)
| DErr (outer : bool) (e : error)
| DPanic (why : string).
Arguments DOk {A} a.
Arguments DErr {A} outer e.
Arguments DPanic {A} why.

Definition DB (T A : Type) : Type := oracle → session T → outcome A * session T.

Definition db_ret {T A} (a : A) : DB T A := λ o s, (DOk a, s).

Definition db_bind {T A B} (m : DB T A) (f : A → DB T B) : DB T B := λ o s,
  match m o s with
  | (DOk a, s) => f a o s
  | (DErr b e, s) => (DErr b e, s)
  | (DPanic w, s) => (DPanic w, s)
  end.

Declare Scope db_scope.
Delimit Scope db_scope with db.
Notation "x <-- m ;; k" := (db_bind m (λ x, k))
  (at level 100, m at next level, k at level 100, right associativity) : db_scope.
Notation "m ;;; k" := (db_bind m (λ _, k))
  (at level 100, k at level 100, right associativity) : db_scope.
Open Scope db_scope.

(** [return err] where [err] is the outer variable, or an inner one. *)
Definition db_fail {T A} (e : error) : DB T A := λ o s, (DErr true e, s).
Definition shadow {T A} (m : DB T A) : DB T A := λ o s,
  match m o s with
  | (DErr _ e, s) => (DErr false e, s)
  | r => r
  end.

(** A pure call inside a database function. *)
Definition db_lift {T A} (r : result A) : DB T A := λ o s,
  match r with
  | Ok a => (DOk a, s)
  | Err e => (DErr true e, s)
  | Panic w => (DPanic w, s)
  end.

(** [for _, x := range l { if err := f(x); err != nil { return err } }] *)
Fixpoint db_for {T A} (f : A → DB T unit) (l : list A) : DB T unit :=
  match l with
  | [] => db_ret tt
  | x :: l => f x ;;; db_for f l
  end.

(** Collecting loops. *)
Fixpoint db_collect {T A B} (f : A → DB T B) (l : list A) : DB T (list B) :=
  match l with
  | [] => db_ret []
  | x :: l => y <-- f x ;; ys <-- db_collect f l ;; db_ret (y :: ys)
  end.

(** [for i := start; i <= stop; i++] over int64, collecting: [None] when the loop
    still runs after [fuel] rounds. *)
Fixpoint db_range {T B} (fuel : nat) (f : Z → DB T B) (i stop : Z) : DB T (option (list B)) :=
  if i <=? stop then
    match fuel with
    | O => db_ret None
    | S fuel =>
        y <-- f i ;;
        ys <-- db_range fuel f (i64_add i 1) stop ;;
        db_ret (cons y <$> ys)
    end
  else db_ret (Some []).

(** ** Statements *)

Definition tick {T} (s : session T) : session T :=
  mkSession (tables s) (seqs s) (aborted s) (S (clock s)).

Definition err_aborted : error :=
  Driver "pq: current transaction is aborted, commands ignored until end of transaction block".

(** A statement inside a transaction. *)
Definition exec {T A} (f : T → gmap string Z → A * T * gmap string Z) : DB T A := λ o s,
  if aborted s then (DErr true err_aborted, tick s)
  else match o (clock s) with
  | Some e => (DErr true e, mkSession (tables s) (seqs s) true (S (clock s)))
  | None =>
      let '(a, t, q) := f (tables s) (seqs s) in
      (DOk a, mkSession t q (aborted s) (S (clock s)))
  end.

(** A statement on the connection: its failure aborts nothing else. *)
Definition exec_auto {T A} (f : T → gmap string Z → A * T * gmap string Z) : DB T A := λ o s,
  match o (clock s) with
  | Some e => (DErr true e, tick s)
  | None =>
      let '(a, t, q) := f (tables s) (seqs s) in
      (DOk a, mkSession t q (aborted s) (S (clock s)))
  end.

(** A statement on the connection that may violate a constraint: then the
    tables are as before, but sequence values drawn for it are used up. *)
Definition exec_auto_check {T A} (f : T → gmap string Z → result (A * T) * gmap string Z)
    : DB T A := λ o s,
  match o (clock s) with
  | Some e => (DErr true e, tick s)
  | None =>
      match f (tables s) (seqs s) with
      | (Ok (a, t), q) => (DOk a, mkSession t q (aborted s) (S (clock s)))
      | (Err e, q) => (DErr true e, mkSession (tables s) q (aborted s) (S (clock s)))
      | (Panic w, q) => (DPanic w, mkSession (tables s) q (aborted s) (S (clock s)))
      end
  end.

(** A statement inside a transaction that may violate a constraint. *)
Definition exec_check {T A} (f : T → gmap string Z → result (A * T) * gmap string Z)
    : DB T A := λ o s,
  if aborted s then (DErr true err_aborted, tick s)
  else match o (clock s) with
  | Some e => (DErr true e, mkSession (tables s) (seqs s) true (S (clock s)))
  | None =>
      match f (tables s) (seqs s) with
      | (Ok (a, t), q) => (DOk a, mkSession t q (aborted s) (S (clock s)))
      | (Err e, q) => (DErr true e, mkSession (tables s) q true (S (clock s)))
      | (Panic w, q) => (DPanic w, mkSession (tables s) q (aborted s) (S (clock s)))
      end
  end.

(** SELECT: reads the tables. *)
Definition select {T A} (f : T → A) : DB T A := exec (λ t q, (f t, t, q)).
Definition select_auto {T A} (f : T → A) : DB T A := exec_auto (λ t q, (f t, t, q)).

(** Without ORDER BY the server returns the rows in any order: a parameter. *)
Class RowOrder := {
  any_order {A} : list A → list A;
  any_order_perm {A} (l : list A) : any_order l ≡ₚ l
}.

(** An instance for concrete runs: the newest row first. *)
Definition newest_first : RowOrder := {|
  any_order := @reverse; any_order_perm := λ A l, reverse_Permutation l
|}.

Definition select_rows `{RowOrder} {T A} (f : T → list A) : DB T (list A) := select (λ t, any_order (f t)).
Definition select_rows_auto `{RowOrder} {T A} (f : T → list A) : DB T (list A) :=
  select_auto (λ t, any_order (f t)).

(** DELETE / UPDATE: a function of the tables. *)
Definition modify {T} (f : T → T) : DB T unit := exec (λ t q, (tt, f t, q)).
Definition modify_auto {T} (f : T → T) : DB T unit := exec_auto (λ t q, (tt, f t, q)).

(** A statement the server cannot parse: an error whatever the oracle says. *)
Definition reject {T A} (e : error) : DB T A := λ o s,
  (DErr true (if aborted s then err_aborted else e),
   mkSession (tables s) (seqs s) true (S (clock s))).

(** A statement whose text may not parse. *)
Definition query {T A} (f : result (T → A)) : DB T A :=
  match f with
  | Ok f => select f
  | Err e => reject e
  | Panic w => λ o s, (DPanic w, s)
  end.

(** [QueryRow(...).Scan], [Get]: no row is [sql.ErrNoRows], a client-side error. *)
Definition ErrNoRows : error := Sentinel "sql: no rows in result set".

Definition scan_one {T A} (m : DB T (list A)) : DB T A :=
  rows <-- m ;;
  match rows with
  | [] => db_fail ErrNoRows
  | r :: _ => db_ret r
  end.

(** ** Transactions *)

Definition begin_ {T} : DB T unit := λ o s,
  match o (clock s) with
  | Some e => (DErr true e, tick s)
  | None => (DOk tt, mkSession (tables s) (seqs s) false (S (clock s)))
  end.

(** The session after ROLLBACK to the tables [t]. *)
Definition rolled_back {T} (t : T) (s : session T) : session T :=
  mkSession t (seqs s) false (S (clock s)).

(** COMMIT: an aborted transaction is rolled back instead; the server may
    also refuse. *)
Definition commit {T} (t : T) (o : oracle) (s : session T) : option error * session T :=
  if aborted s then (Some err_aborted, rolled_back t s)
  else match o (clock s) with
  | Some e => (Some e, rolled_back t s)
  | None => (None, mkSession (tables s) (seqs s) false (S (clock s)))
  end.

Definition transact {T A} (body : DB T A) : DB T A := λ o s,
  match begin_ o s with
  | (DOk _, s1) =>
      match body o s1 with
      | (DOk a, s2) =>
          match commit (tables s) o s2 with
          | (None, s3) => (DOk a, s3)
          | (Some e, s3) => (DErr true e, s3)
          end
      | (DErr _ e, s2) => (DErr true e, rolled_back (tables s) s2)
      | (DPanic w, s2) => (DPanic w, rolled_back (tables s) s2)
      end
  | (DErr b e, s1) => (DErr b e, s1)
  | (DPanic w, s1) => (DPanic w, s1)
  end.

Definition transact_deferred {T A} (body : DB T A) : DB T A := λ o s,
  match begin_ o s with
  | (DOk _, s1) =>
      match body o s1 with
      | (DOk a, s2) => (DOk a, (commit (tables s) o s2).2)
      | (DErr true e, s2) => (DErr true e, rolled_back (tables s) s2)
      | (DErr false e, s2) => (DErr true e, (commit (tables s) o s2).2)
      | (DPanic w, s2) => (DPanic w, rolled_back (tables s) s2)
      end
  | (DErr b e, s1) => (DErr b e, s1)
  | (DPanic w, s1) => (DPanic w, s1)
  end.

(** A deferred closure as above, in a function that commits before it returns:
    [if err := tx.Commit(); err != nil { return err }].  The error of this COMMIT
    is reported, and the closure's own Commit finds the transaction done. *)
Definition transact_early {T A} (body : DB T A) : DB T A := λ o s,
  match begin_ o s with
  | (DOk _, s1) =>
      match body o s1 with
      | (DOk a, s2) =>
          match commit (tables s) o s2 with
          | (None, s3) => (DOk a, s3)
          | (Some e, s3) => (DErr true e, s3)
          end
      | (DErr true e, s2) => (DErr true e, rolled_back (tables s) s2)
      | (DErr false e, s2) => (DErr true e, (commit (tables s) o s2).2)
      | (DPanic w, s2) => (DPanic w, rolled_back (tables s) s2)
      end
  | (DErr b e, s1) => (DErr b e, s1)
  | (DPanic w, s1) => (DPanic w, s1)
  end.

(** The same around a loop that may still be running, in the transaction. *)
Definition transact_early_fuel {T A} (body : DB T (option A)) : DB T (option A) := λ o s,
  match begin_ o s with
  | (DOk _, s1) =>
      match body o s1 with
      | (DOk None, s2) => (DOk None, s2)
      | (DOk (Some a), s2) =>
          match commit (tables s) o s2 with
          | (None, s3) => (DOk (Some a), s3)
          | (Some e, s3) => (DErr true e, s3)
          end
      | (DErr true e, s2) => (DErr true e, rolled_back (tables s) s2)
      | (DErr false e, s2) => (DErr true e, (commit (tables s) o s2).2)
      | (DPanic w, s2) => (DPanic w, rolled_back (tables s) s2)
      end
  | (DErr b e, s1) => (DErr b e, s1)
  | (DPanic w, s1) => (DPanic w, s1)
  end.

(** ** Tables with serial primary keys *)

Definition nextval (name : string) (q : gmap string Z) : Z * gmap string Z :=
  let id := default 0 (q !! name) + 1 in (id, <[name := id]> q).

(** [INSERT ... ON CONFLICT (key) DO UPDATE SET ... RETURNING id] on a list of
    rows.  The sequence advances whether or not the row conflicts. *)
Definition upsert_rows {R} (name : string) (conflict : R → bool) (row : Z → R) (update : R → R)
    (get_id : R → Z) (rows : list R) (q : gmap string Z) : Z * list R * gmap string Z :=
  let '(id, q) := nextval name q in
  match list_find (λ r, conflict r) rows with
  | Some (_, r) => (get_id r, map (λ r, if conflict r then update r else r) rows, q)
  | None => (id, rows ++ [row id], q)
  end.

(** [INSERT ... ON CONFLICT DO NOTHING RETURNING id]: no row on a conflict. *)
Definition insert_ignore {R} (name : string) (conflict : R → bool) (row : Z → R)
    (rows : list R) (q : gmap string Z) : list Z * list R * gmap string Z :=
  let '(id, q) := nextval name q in
  if existsb conflict rows then ([], rows, q) else ([id], rows ++ [row id], q).

(** ** Lemmas: what a statement may do *)

(** [m] only reads: whatever the oracle, the tables are unchanged. *)
Definition read_only {T A} (m : DB T A) : Prop :=
  ∀ o s, tables (m o s).2 = tables s.

(** Errors of [m] that the outer [err] does not see come from the server, so
    they left the transaction aborted. *)
Definition shadow_aborts {T A} (m : DB T A) : Prop :=
  ∀ o s e s', m o s = (DErr false e, s') → aborted s' = true.

(** Every error of [m] comes from the server. *)
Definition fail_aborts {T A} (m : DB T A) : Prop :=
  ∀ o s b e s', m o s = (DErr b e, s') → aborted s' = true.

(** [m] succeeds whenever the server rejects no statement. *)
Definition no_faults : oracle := λ _, None.

Lemma any_order_nil `{RowOrder} {A} : any_order (@nil A) = [].
Proof. by apply Permutation_nil_r, any_order_perm. Qed.

Lemma any_order_one `{RowOrder} {A} (a : A) : any_order [a] = [a].
Proof. by apply Permutation_singleton_r, any_order_perm. Qed.

Section Lemmas.
Context {T : Type}.
Implicit Types (o : oracle) (s : session T).

Lemma exec_fail_aborts {A} (f : T → gmap string Z → A * T * gmap string Z) :
  fail_aborts (exec f).
Proof.
  intros o s b e s'. unfold exec.
  destruct (aborted s) eqn:Ha; [intros [= <- <- <-]; done|].
  destruct (o (clock s)); [intros [= <- <- <-]; done|].
  by destruct (f (tables s) (seqs s)) as [[??]?].
Qed.

Lemma select_read_only {A} (f : T → A) : read_only (select f).
Proof. intros o s. unfold select, exec. by repeat case_match. Qed.

Lemma ret_fail_aborts {A} (a : A) : fail_aborts (T := T) (db_ret a).
Proof. by intros o s b e s' [=]. Qed.

Lemma bind_fail_aborts {A B} (m : DB T A) (f : A → DB T B) :
  fail_aborts m → (∀ a, fail_aborts (f a)) → fail_aborts (db_bind m f).
Proof.
  intros Hm Hf o s b e s'. unfold db_bind.
  destruct (m o s) as [[a|b' e'|w] s1] eqn:E; [by apply Hf| |done].
  intros [= <- <- <-]. by eapply Hm.
Qed.

Lemma for_fail_aborts {A} (f : A → DB T unit) l :
  (∀ a, fail_aborts (f a)) → fail_aborts (db_for f l).
Proof.
  intros Hf. induction l as [|x l IH]; simpl; [apply ret_fail_aborts|].
  by apply bind_fail_aborts.
Qed.

Lemma shadow_shadow_aborts {A} (m : DB T A) : fail_aborts m → shadow_aborts (shadow m).
Proof.
  intros Hm o s e s'. unfold shadow.
  destruct (m o s) as [[a|b e'|w] s1] eqn:E; intros [= <- <-]. by eapply Hm.
Qed.

Lemma fail_shadow_aborts {A} (m : DB T A) : fail_aborts m → shadow_aborts m.
Proof. intros Hm o s e s' E. by eapply Hm. Qed.

Lemma ret_shadow_aborts {A} (a : A) : shadow_aborts (T := T) (db_ret a).
Proof. by intros o s e s' [=]. Qed.

Lemma lift_shadow_aborts {A} (r : result A) : shadow_aborts (T := T) (db_lift r).
Proof. intros o s e s'. by destruct r; intros [=]. Qed.

Lemma panic_shadow_aborts {A} w : shadow_aborts (T := T) (λ o s, (@DPanic A w, s)).
Proof. by intros o s e s' [=]. Qed.

Lemma bind_shadow_aborts {A B} (m : DB T A) (f : A → DB T B) :
  shadow_aborts m → (∀ a, shadow_aborts (f a)) → shadow_aborts (db_bind m f).
Proof.
  intros Hm Hf o s e s'. unfold db_bind.
  destruct (m o s) as [[a|b' e'|w] s1] eqn:E; [by apply Hf| |done].
  intros [= -> <- <-]. by eapply Hm.
Qed.

Lemma for_shadow_aborts {A} (f : A → DB T unit) l :
  (∀ a, shadow_aborts (f a)) → shadow_aborts (db_for f l).
Proof.
  intros Hf. induction l as [|x l IH]; simpl; [apply ret_shadow_aborts|].
  by apply bind_shadow_aborts.
Qed.

(** ** Atomicity of the two idioms *)

(** The outcomes that leave the database alone. *)
Definition is_DOk {A} (r : outcome A) : bool :=
  match r with DOk _ => true | _ => false end.

Lemma begin_tables o s : tables (begin_ o s).2 = tables s.
Proof. unfold begin_. by case_match. Qed.

Lemma commit_tables t o s :
  tables (commit t o s).2 = t ∨
  (commit t o s).1 = None ∧ aborted s = false ∧ tables (commit t o s).2 = tables s.
Proof. unfold commit. repeat case_match; simpl; auto. Qed.

Lemma commit_aborted t o s : aborted s = true → tables (commit t o s).2 = t.
Proof. unfold commit. by intros ->. Qed.

(** A transaction that reports an error changed no table. *)
Lemma transact_atomic {A} (body : DB T A) o s b e s' :
  transact body o s = (DErr b e, s') → tables s' = tables s.
Proof.
  unfold transact. pose proof (begin_tables o s) as Hb.
  destruct (begin_ o s) as [[?|??|?] s1]; [|by intros [= <- <- <-]|done].
  destruct (body o s1) as [[x|b2 e2|w] s2]; [|by intros [= <- <- <-]|done].
  pose proof (commit_tables (tables s) o s2) as Hc.
  destruct (commit (tables s) o s2) as [[?|] s3]; [|done]. simpl in Hc.
  intros [= <- <- <-]. by destruct Hc as [|[? _]].
Qed.

(** The deferred idiom too, as long as shadowed errors are server errors:
    the COMMIT it then sends is turned into a ROLLBACK. *)
Lemma transact_deferred_atomic {A} (body : DB T A) o s s' r :
  shadow_aborts body → transact_deferred body o s = (r, s') → is_DOk r = false →
  tables s' = tables s.
Proof.
  intros Hsh. unfold transact_deferred. pose proof (begin_tables o s) as Hb.
  destruct (begin_ o s) as [[?|??|?] s1]; [|by intros [= <- <-]|by intros [= <- <-]].
  destruct (body o s1) as [[x|[] e2|w] s2] eqn:E; intros [= <- <-]; try done.
  intros _. apply commit_aborted. by eapply Hsh.
Qed.

(** On success the tables are those of the body, or, when the server refused
    the commit, the ones before: the two cases give the same result. *)
Lemma transact_deferred_ok {A} (body : DB T A) o s s' a :
  transact_deferred body o s = (DOk a, s') →
  ∃ s1 s2, begin_ o s = (DOk tt, s1) ∧ body o s1 = (DOk a, s2) ∧
    (tables s' = tables s2 ∨ tables s' = tables s).
Proof.
  unfold transact_deferred.
  destruct (begin_ o s) as [[[]|??|?] s1]; [|done|done].
  destruct (body o s1) as [[x|[] e2|w] s2] eqn:E; intros [= -> <-].
  exists s1, s2. split_and!; [done|done|].
  destruct (commit_tables (tables s) o s2); naive_solver.
Qed.

(** [m] returns without an error only from, and to, a transaction that is not
    aborted. *)
Definition keeps_open {A} (m : DB T A) : Prop :=
  ∀ o s a s', m o s = (DOk a, s') → aborted s = false → aborted s' = false.

Lemma ret_open {A} (a : A) : keeps_open (db_ret a).
Proof. by intros o s b s' [= _ <-]. Qed.

Lemma lift_open {A} (r : result A) : keeps_open (db_lift r).
Proof. intros o s b s'. unfold db_lift. destruct r; [by intros [= _ <-]|done..]. Qed.

Lemma exec_open {A} (f : T → gmap string Z → A * T * gmap string Z) : keeps_open (exec f).
Proof.
  intros o s b s'. unfold exec. destruct (aborted s) eqn:E; [done|]. destruct (o (clock s)); [done|].
  destruct (f (tables s) (seqs s)) as [[??]?]. by intros [= _ <-].
Qed.

Lemma shadow_open {A} (m : DB T A) : keeps_open m → keeps_open (shadow m).
Proof.
  intros Hm o s b s'. unfold shadow. destruct (m o s) as [[a|??|?] s1] eqn:E; [|done..].
  intros [= -> ->]. by eapply Hm.
Qed.

Lemma bind_open {A B} (m : DB T A) (f : A → DB T B) :
  keeps_open m → (∀ a, keeps_open (f a)) → keeps_open (db_bind m f).
Proof.
  intros Hm Hf o s b s'. unfold db_bind. destruct (m o s) as [[a|??|?] s1] eqn:E; [|done..].
  intros Hk Ha. eapply Hf; [exact Hk|]. by eapply Hm.
Qed.

Lemma for_open {A} (f : A → DB T unit) l : (∀ a, keeps_open (f a)) → keeps_open (db_for f l).
Proof. intros Hf. induction l as [|x l IH]; simpl; [apply ret_open|by apply bind_open]. Qed.

(** The last statement sent was rejected; after a deferred COMMIT, this is it. *)
Definition commit_refused (o : oracle) (s' : session T) : Prop := ∃ e, o (pred (clock s')) = Some e.

(** On success the tables are those of the body, unless the server refused the
    COMMIT. *)
Lemma transact_deferred_commits {A} (body : DB T A) o s s' a :
  keeps_open body → transact_deferred body o s = (DOk a, s') →
  ∃ s1 s2, begin_ o s = (DOk tt, s1) ∧ body o s1 = (DOk a, s2) ∧
    (tables s' = tables s2 ∨ tables s' = tables s ∧ commit_refused o s').
Proof.
  intros Hopen. unfold transact_deferred.
  destruct (begin_ o s) as [[[]|??|?] s1] eqn:Eb; [|done|done].
  destruct (body o s1) as [[x|[] e2|w] s2] eqn:E; intros [= -> <-].
  exists s1, s2. split_and!; [done|done|]. unfold commit, commit_refused.
  assert (aborted s1 = false) by (unfold begin_ in Eb; case_match; by simplify_eq).
  rewrite (Hopen o s1 a s2) by done. destruct (o (clock s2)) as [e|] eqn:Eo; [right|by left].
  split; [done|by exists e].
Qed.

(** A transaction that succeeds has the effect of its body. *)
Lemma transact_ok {A} (body : DB T A) o s s' a :
  transact body o s = (DOk a, s') →
  ∃ s1 s2, begin_ o s = (DOk tt, s1) ∧ tables s1 = tables s ∧ body o s1 = (DOk a, s2) ∧ tables s' = tables s2.
Proof.
  unfold transact. pose proof (begin_tables o s) as Hb.
  destruct (begin_ o s) as [[[]|??|?] s1]; [|done|done].
  destruct (body o s1) as [[x|b e2|w] s2] eqn:E; [|done|done].
  pose proof (commit_tables (tables s) o s2) as Hc.
  destruct (commit (tables s) o s2) as [[e|] s3] eqn:Ec; [done|]. intros [= -> <-].
  exists s1, s2. split_and!; [done|done|done|].
  unfold commit in Ec. repeat case_match; by simplify_eq.
Qed.

(** When the server accepts every statement, a transaction behaves as its body. *)
Lemma transact_deferred_no_faults {A} (body : DB T A) s a s2 :
  body no_faults (mkSession (tables s) (seqs s) false (S (clock s))) = (DOk a, s2) →
  aborted s2 = false →
  transact_deferred body no_faults s =
  (DOk a, mkSession (tables s2) (seqs s2) false (S (clock s2))).
Proof.
  intros E Ha. unfold transact_deferred, begin_. simpl.
  rewrite E. unfold commit. by rewrite Ha.
Qed.

Lemma transact_no_faults {A} (body : DB T A) s a s2 :
  body no_faults (mkSession (tables s) (seqs s) false (S (clock s))) = (DOk a, s2) →
  aborted s2 = false →
  transact body no_faults s = (DOk a, mkSession (tables s2) (seqs s2) false (S (clock s2))).
Proof.
  intros E Ha. unfold transact, begin_. simpl.
  rewrite E. unfold commit. by rewrite Ha.
Qed.

End Lemmas.

(** Bodies made of statements, pure calls, loops and branches. *)
Ltac stays_open := repeat first
  [ apply ret_open | apply lift_open | apply exec_open | apply shadow_open
  | apply for_open; intros ? | apply bind_open; [|intros ?] | case_match ].

#[export] Hint Resolve exec_fail_aborts ret_fail_aborts bind_fail_aborts for_fail_aborts
  shadow_shadow_aborts fail_shadow_aborts ret_shadow_aborts lift_shadow_aborts
  panic_shadow_aborts bind_shadow_aborts for_shadow_aborts : go.

(** ** Lemmas: queries

    On a session whose server rejects nothing, a database function that only
    reads evaluates to a function of the tables: this is the semantics the
    retrieval theorems are stated with. *)

Definition out_result {A} (r : outcome A) : result A :=
  match r with
  | DOk a => Ok a
  | DErr _ e => Err e
  | DPanic w => Panic w
  end.

Definition evaluates {T A} (m : DB T A) (f : T → result A) : Prop :=
  ∀ s, aborted s = false →
    out_result (m no_faults s).1 = f (tables s) ∧
    tables (m no_faults s).2 = tables s ∧ seqs (m no_faults s).2 = seqs s ∧
    (is_ok (f (tables s)) = true → aborted (m no_faults s).2 = false).

Section Queries.
Context {T : Type}.

Lemma evaluates_ext {A} (m : DB T A) f g :
  (∀ t, f t = g t) → evaluates m f → evaluates m g.
Proof. intros Hfg Hm s Hs. rewrite <- !Hfg. by apply Hm. Qed.

Lemma ret_evaluates {A} (a : A) : evaluates (T := T) (db_ret a) (λ _, Ok a).
Proof. by intros s Hs. Qed.

Lemma fail_evaluates {A} e : evaluates (T := T) (db_fail (A := A) e) (λ _, Err e).
Proof. by intros s Hs. Qed.

Lemma lift_evaluates {A} (r : result A) : evaluates (T := T) (db_lift r) (λ _, r).
Proof. intros s Hs. by destruct r. Qed.

Lemma evaluates_DOk {A} (m : DB T A) f s (a : A) : evaluates m f → aborted s = false → f (tables s) = Ok a →
  (m no_faults s).1 = DOk a.
Proof.
  intros Hm Ha Hf. destruct (Hm s Ha) as [Hr _]. rewrite Hf in Hr.
  destruct (m no_faults s).1; simpl in Hr; congruence.
Qed.

Lemma select_evaluates {A} (f : T → A) : evaluates (select f) (λ t, Ok (f t)).
Proof. intros s Hs. unfold select, exec. by rewrite Hs. Qed.

Lemma select_rows_evaluates `{RowOrder} {A} (f : T → list A) :
  evaluates (select_rows f) (λ t, Ok (any_order (f t))).
Proof. apply (select_evaluates (λ t, any_order (f t))). Qed.

Lemma select_auto_evaluates {A} (f : T → A) : evaluates (select_auto f) (λ t, Ok (f t)).
Proof. intros s Hs. unfold select_auto, exec_auto. by rewrite Hs. Qed.

Lemma select_rows_auto_evaluates `{RowOrder} {A} (f : T → list A) :
  evaluates (select_rows_auto f) (λ t, Ok (any_order (f t))).
Proof. apply (select_auto_evaluates (λ t, any_order (f t))). Qed.

Lemma query_evaluates {A} (f : result (T → A)) :
  evaluates (query f) (λ t, g <-! f ;; Ok (g t)).
Proof.
  intros s Hs. destruct f as [f|e|w]; simpl; [by apply select_evaluates| |done].
  by rewrite Hs.
Qed.

Lemma shadow_evaluates {A} (m : DB T A) f : evaluates m f → evaluates (shadow m) f.
Proof.
  intros Hm s Hs. specialize (Hm s Hs). unfold shadow.
  by destruct (m no_faults s) as [[?|??|?] s1].
Qed.

Lemma bind_evaluates {A B} (m : DB T A) (k : A → DB T B) f g :
  evaluates m f → (∀ a, evaluates (k a) (g a)) →
  evaluates (x <-- m ;; k x) (λ t, x <-! f t ;; g x t).
Proof.
  intros Hm Hk s Hs. destruct (Hm s Hs) as (H1 & H2 & H3 & H4). unfold db_bind.
  destruct (m no_faults s) as [[a|b e|w] s1]; simpl in *; rewrite <- H1 in *; simpl; [|done..].
  rewrite <- H2. destruct (Hk a s1) as (K1 & K2 & K3 & K4); [auto|].
  split_and!; congruence || done.
Qed.

Lemma collect_evaluates {A B} (f : A → DB T B) g l :
  (∀ a, evaluates (f a) (g a)) →
  evaluates (db_collect f l) (λ t, range_collect (λ a, g a t) l).
Proof.
  intros Hf. induction l as [|x l IH]; simpl; [apply ret_evaluates|].
  apply bind_evaluates; [done|intros y]. apply bind_evaluates; [done|intros ys].
  apply ret_evaluates.
Qed.

Lemma scan_one_evaluates {A} (m : DB T (list A)) f :
  evaluates m (λ t, Ok (f t)) →
  evaluates (scan_one m) (λ t, match f t with [] => Err ErrNoRows | r :: _ => Ok r end).
Proof.
  intros Hm. eapply evaluates_ext; [|apply bind_evaluates; [apply Hm|]].
  2: { intros rows. instantiate (1 := λ rows _, match rows with [] => Err ErrNoRows | r :: _ => Ok r end).
       destruct rows; [apply fail_evaluates|apply ret_evaluates]. }
  done.
Qed.

Lemma commit_no_faults t (s : session T) :
  aborted s = false →
  commit t no_faults s = (None, mkSession (tables s) (seqs s) false (S (clock s))).
Proof. unfold commit. by intros ->. Qed.

(** Inside a transaction nothing changes: the tables it commits or restores
    are the ones it started from. *)
Lemma transact_deferred_evaluates {A} (m : DB T A) f :
  evaluates m f → evaluates (transact_deferred m) f.
Proof.
  intros Hm s Hs. unfold transact_deferred, begin_. simpl.
  destruct (Hm (mkSession (tables s) (seqs s) false (S (clock s))) eq_refl) as (H1 & H2 & H3 & H4).
  simpl in *. destruct (m no_faults _) as [[a|[] e|w] s2]; simpl in *; rewrite <- H1 in *;
    split_and!; try done.
  all: unfold commit; destruct (aborted s2) eqn:E; simpl; try done.
  all: by rewrite H4 in E.
Qed.

Lemma transact_early_evaluates {A} (m : DB T A) f :
  evaluates m f → evaluates (transact_early m) f.
Proof.
  intros Hm s Hs. unfold transact_early, begin_. simpl.
  destruct (Hm (mkSession (tables s) (seqs s) false (S (clock s))) eq_refl) as (H1 & H2 & H3 & H4).
  simpl in *. destruct (m no_faults _) as [[a|[] e|w] s2]; simpl in *; rewrite <- H1 in *.
  - rewrite commit_no_faults by auto. by split_and!.
  - by split_and!.
  - unfold commit. destruct (aborted s2) eqn:E; by split_and!.
  - by split_and!.
Qed.

Lemma transact_early_fuel_evaluates {A} (m : DB T (option A)) f :
  evaluates m f → evaluates (transact_early_fuel m) f.
Proof.
  intros Hm s Hs. unfold transact_early_fuel, begin_. simpl.
  destruct (Hm (mkSession (tables s) (seqs s) false (S (clock s))) eq_refl) as (H1 & H2 & H3 & H4).
  simpl in *. destruct (m no_faults _) as [[[a|]|[] e|w] s2]; simpl in *; rewrite <- H1 in *.
  - rewrite commit_no_faults by auto. by split_and!.
  - by split_and!.
  - by split_and!.
  - unfold commit. destruct (aborted s2) eqn:E; by split_and!.
  - by split_and!.
Qed.

(** The values of [i] in [for i := start; i <= stop; i++], when it ends. *)
Fixpoint heights (fuel : nat) (i stop : Z) : option (list Z) :=
  if i <=? stop then
    match fuel with
    | O => None
    | S fuel => cons i <$> heights fuel (i64_add i 1) stop
    end
  else Some [].

(** The loop ends after the numbers from [start] to [stop] ... *)
Lemma heights_range fuel : ∀ i stop, is_i64 i → is_i64 stop → stop < 2 ^ 63 - 1 → stop - i < Z.of_nat fuel →
  heights fuel i stop = Some (seqZ i (stop - i + 1)).
Proof.
  unfold is_i64. induction fuel as [|fuel IH]; intros i stop Hi Hs Hmax Hf; simpl; destruct (Z.leb_spec i stop); try lia.
  1, 3: by rewrite seqZ_nil by lia.
  rewrite i64_add_id by (unfold is_i64; lia). rewrite IH by lia. simpl. rewrite (seqZ_cons i) by lia. do 3 f_equal; lia.
Qed.

(** ... except that it never ends at the largest int64. *)
Lemma heights_endless fuel : ∀ i, is_i64 i → heights fuel i (2 ^ 63 - 1) = None.
Proof.
  induction fuel as [|fuel IH]; intros i Hi; simpl; destruct (Z.leb_spec i (2 ^ 63 - 1)); unfold is_i64 in *; try lia; [done|].
  by rewrite IH by apply i64_range.
Qed.

Lemma heights_short fuel : ∀ i stop, is_i64 i → is_i64 stop → i ≤ stop → Z.of_nat fuel ≤ stop - i → heights fuel i stop = None.
Proof.
  unfold is_i64. induction fuel as [|fuel IH]; intros i stop Hi Hs Hle Hf; simpl; destruct (Z.leb_spec i stop); try lia; [done|].
  rewrite i64_add_id by (unfold is_i64; lia). by rewrite IH by lia.
Qed.

Lemma db_range_evaluates {B} fuel (f : Z → DB T B) g : (∀ i, evaluates (f i) (λ t, Ok (g i t))) →
  ∀ i stop, evaluates (db_range fuel f i stop) (λ t, Ok (map (λ i, g i t) <$> heights fuel i stop)).
Proof.
  intros Hf. induction fuel as [|fuel IH]; intros i stop; simpl; destruct (i <=? stop); try refine (ret_evaluates _).
  eapply evaluates_ext; [|apply bind_evaluates; [apply Hf|intros y; apply bind_evaluates; [apply IH|intros ys; refine (ret_evaluates _)]]].
  intros t. simpl. by destruct (heights fuel _ stop).
Qed.

End Queries.

#[export] Hint Resolve ret_evaluates fail_evaluates lift_evaluates select_evaluates
  select_auto_evaluates shadow_evaluates : go.

(** ** Lemmas: invariants

    [ensures P m Q] is partial correctness: from a state satisfying [P], a
    call that returns does so in a state satisfying [Q].  Sequences only
    grow, also across rollbacks. *)

Definition state_pred (T : Type) : Type := T → gmap string Z → Prop.

Definition ensures {T A} (P : state_pred T) (m : DB T A) (Q : A → state_pred T) : Prop :=
  ∀ o s, P (tables s) (seqs s) →
    match m o s with
    | (DOk a, s') => Q a (tables s') (seqs s')
    | _ => True
    end.

Definition seq_le (q q' : gmap string Z) : Prop :=
  ∀ n, default 0 (q !! n) ≤ default 0 (q' !! n).

#[export] Instance seq_le_preorder : PreOrder seq_le.
Proof. split; [by intros q n|]. intros q1 q2 q3 H1 H2 n. specialize (H1 n). specialize (H2 n). lia. Qed.

Definition grows {T A} (m : DB T A) : Prop :=
  ∀ o s, seq_le (seqs s) (seqs (m o s).2).

(** Invariants survive numbers being drawn from the sequences. *)
Definition seq_closed {T} (I : state_pred T) : Prop :=
  ∀ t q q', seq_le q q' → I t q → I t q'.

Section Invariants.
Context {T : Type}.
Implicit Types (P I : state_pred T).

Lemma ensures_weaken {A} P P' (m : DB T A) Q Q' :
  (∀ t q, P' t q → P t q) → (∀ a t q, Q a t q → Q' a t q) → ensures P m Q → ensures P' m Q'.
Proof.
  intros HP HQ Hm o s Hs. specialize (Hm o s (HP _ _ Hs)).
  destruct (m o s) as [[a|b e|w] s']; auto.
Qed.

Lemma ret_ensures {A} P (a : A) : ensures P (db_ret a) (λ _, P).
Proof. by intros o s Hs. Qed.

Lemma ret_ensures_weaken {A} P (a : A) (Q : A → state_pred T) :
  (∀ t q, P t q → Q a t q) → ensures P (db_ret a) Q.
Proof. intros H o s Hs. by apply H. Qed.

Lemma bind_ensures {A B} P (m : DB T A) (f : A → DB T B) Q R :
  ensures P m Q → (∀ a, ensures (Q a) (f a) R) → ensures P (db_bind m f) R.
Proof.
  intros Hm Hf o s Hs. specialize (Hm o s Hs). unfold db_bind.
  destruct (m o s) as [[a|b e|w] s']; [|done..]. by apply Hf.
Qed.

Lemma for_ensures {A} I (f : A → DB T unit) l :
  (∀ a, ensures I (f a) (λ _, I)) → ensures I (db_for f l) (λ _, I).
Proof.
  intros Hf. induction l as [|x l IH]; simpl; [apply ret_ensures|].
  by eapply bind_ensures; [apply Hf|intros []].
Qed.

Lemma shadow_ensures {A} P (m : DB T A) Q : ensures P m Q → ensures P (shadow m) Q.
Proof.
  intros Hm o s Hs. specialize (Hm o s Hs). unfold shadow.
  by destruct (m o s) as [[a|b e|w] s'].
Qed.

Lemma lift_ensures {A} P (r : result A) : ensures P (db_lift r) (λ _, P).
Proof. intros o s Hs. by destruct r. Qed.

Lemma fail_ensures {A} P e (Q : A → state_pred T) : ensures P (db_fail e) Q.
Proof. by intros o s Hs. Qed.

Lemma exec_ensures {A} P (f : T → gmap string Z → A * T * gmap string Z) (Q : A → state_pred T) :
  (∀ t q, P t q → Q (f t q).1.1 (f t q).1.2 (f t q).2) → ensures P (exec f) Q.
Proof.
  intros Hf o s Hs. unfold exec. destruct (aborted s); [done|].
  destruct (o (clock s)); [done|]. specialize (Hf _ _ Hs).
  by destruct (f (tables s) (seqs s)) as [[??]?].
Qed.

Lemma exec_check_ensures {A} P (f : T → gmap string Z → result (A * T) * gmap string Z)
    (Q : A → state_pred T) :
  (∀ t q a t' q', P t q → f t q = (Ok (a, t'), q') → Q a t' q') → ensures P (exec_check f) Q.
Proof.
  intros Hf o s Hs. unfold exec_check. destruct (aborted s); [done|].
  destruct (o (clock s)); [done|].
  destruct (f (tables s) (seqs s)) as [[[a t]|e|w] q] eqn:E; simpl; [by eapply Hf|done..].
Qed.

Lemma scan_one_ensures {A} P (m : DB T (list A)) (Q : A → state_pred T) :
  ensures P m (λ rows t q, match rows with [] => True | r :: _ => Q r t q end) →
  ensures P (scan_one m) Q.
Proof.
  intros Hm. eapply bind_ensures; [exact Hm|]. intros [|r rows]; [apply fail_ensures|].
  intros o s Hs. exact Hs.
Qed.

Lemma modify_ensures P (f : T → T) (Q : state_pred T) :
  (∀ t q, P t q → Q (f t) q) → ensures P (modify f) (λ _, Q).
Proof. intros Hf. by apply exec_ensures. Qed.

(** Combining what is known of a statement. *)
Lemma ensures_and {A} P1 P2 (m : DB T A) Q1 Q2 :
  ensures P1 m Q1 → ensures P2 m Q2 →
  ensures (λ d q, P1 d q ∧ P2 d q) m (λ a d q, Q1 a d q ∧ Q2 a d q).
Proof.
  intros H1 H2 o s [Hs1 Hs2]. specialize (H1 o s Hs1). specialize (H2 o s Hs2).
  by destruct (m o s) as [[a|b e|w] s'].
Qed.

Lemma ensures_post {A} P (m : DB T A) Q1 Q2 :
  ensures P m Q1 → ensures P m Q2 → ensures P m (λ a d q, Q1 a d q ∧ Q2 a d q).
Proof.
  intros H1 H2. eapply ensures_weaken; [| |apply (ensures_and _ _ _ _ _ H1 H2)]; [done|done].
Qed.

(** A loop whose invariant mentions what was done. *)
Lemma for_done {A} (J : list A → state_pred T) (f : A → DB T unit) (ok : list A → A → Prop) l : ∀ done,
  (∀ done x, ok done x → ensures (J done) (f x) (λ _, J (done ++ [x]))) →
  (∀ done' x rest, done ++ l = done' ++ x :: rest → ok done' x) →
  ensures (J done) (db_for f l) (λ _, J (done ++ l)).
Proof.
  induction l as [|x l IH]; intros done Hf Hok; simpl; [rewrite app_nil_r; apply ret_ensures|].
  eapply bind_ensures; [apply Hf, (Hok done x l eq_refl)|intros []].
  rewrite (app_assoc done [x] l : done ++ x :: l = _). apply IH; [done|]. intros done' y rest E.
  apply (Hok done' y rest). by rewrite <- E, <- app_assoc.
Qed.

Lemma grows_ret {A} (a : A) : grows (T := T) (db_ret a).
Proof. by intros o s. Qed.

Lemma grows_bind {A B} (m : DB T A) (f : A → DB T B) :
  grows m → (∀ a, grows (f a)) → grows (db_bind m f).
Proof.
  intros Hm Hf o s. specialize (Hm o s). unfold db_bind.
  destruct (m o s) as [[a|b e|w] s']; simpl in *; [|done..].
  etransitivity; [exact Hm|apply Hf].
Qed.

Lemma grows_for {A} (f : A → DB T unit) l : (∀ a, grows (f a)) → grows (db_for f l).
Proof.
  intros Hf. induction l as [|x l IH]; simpl; [apply grows_ret|]. by apply grows_bind.
Qed.

Lemma grows_shadow {A} (m : DB T A) : grows m → grows (shadow m).
Proof.
  intros Hm o s. specialize (Hm o s). unfold shadow. by destruct (m o s) as [[a|b e|w] s'].
Qed.

Lemma grows_lift {A} (r : result A) : grows (T := T) (db_lift r).
Proof. intros o s. by destruct r. Qed.

Lemma grows_fail {A} e : grows (T := T) (@db_fail T A e).
Proof. by intros o s. Qed.

Lemma grows_exec {A} (f : T → gmap string Z → A * T * gmap string Z) :
  (∀ t q, seq_le q (f t q).2) → grows (exec f).
Proof.
  intros Hf o s. unfold exec. destruct (aborted s); [done|].
  destruct (o (clock s)); [done|]. specialize (Hf (tables s) (seqs s)).
  by destruct (f (tables s) (seqs s)) as [[??]?].
Qed.

Lemma grows_exec_check {A} (f : T → gmap string Z → result (A * T) * gmap string Z) :
  (∀ t q, seq_le q (f t q).2) → grows (exec_check f).
Proof.
  intros Hf o s. unfold exec_check. destruct (aborted s); [done|].
  destruct (o (clock s)); [done|]. specialize (Hf (tables s) (seqs s)).
  by destruct (f (tables s) (seqs s)) as [[[??]|?|?] ?].
Qed.

Lemma grows_scan_one {A} (m : DB T (list A)) : grows m → grows (scan_one m).
Proof.
  intros Hm. apply grows_bind; [done|]. intros [|r rows]; [apply grows_fail|apply grows_ret].
Qed.

Lemma commit_seqs t o (s : session T) : seqs (commit t o s).2 = seqs s.
Proof. unfold commit. by repeat case_match. Qed.

Lemma begin_seqs o (s : session T) : seqs (begin_ o s).2 = seqs s.
Proof. unfold begin_. by case_match. Qed.

Lemma commit_invariant I t o s :
  I t (seqs s) → I (tables s) (seqs s) → I (tables (commit t o s).2) (seqs s).
Proof. intros H1 H2. destruct (commit_tables t o s) as [->|(_ & _ & ->)]; done. Qed.

(** Both transaction idioms keep an invariant that their body restores. *)
Lemma transact_deferred_invariant {A} I (body : DB T A) o s :
  seq_closed I → grows body → shadow_aborts body → ensures I body (λ _, I) →
  I (tables s) (seqs s) →
  I (tables (transact_deferred body o s).2) (seqs (transact_deferred body o s).2).
Proof.
  intros Hc Hg Hsh Hb Hs. unfold transact_deferred.
  pose proof (begin_tables o s) as Ht. pose proof (begin_seqs o s) as Hq.
  destruct (begin_ o s) as [[?|??|?] s1]; simpl in *; rewrite ?Ht, ?Hq; [|done..].
  specialize (Hg o s1). specialize (Hb o s1 ltac:(by rewrite Ht, Hq)).
  assert (Hold : I (tables s) (seqs (body o s1).2)) by (eapply Hc; [|done]; by rewrite <- Hq).
  destruct (body o s1) as [[y|[] e|w] s2] eqn:E; simpl in *; [|done| |done].
  - rewrite commit_seqs. by apply commit_invariant.
  - rewrite commit_seqs, commit_aborted; [done|]. by eapply Hsh.
Qed.

Lemma transact_invariant {A} I (body : DB T A) o s :
  seq_closed I → grows body → ensures I body (λ _, I) →
  I (tables s) (seqs s) →
  I (tables (transact body o s).2) (seqs (transact body o s).2).
Proof.
  intros Hc Hg Hb Hs. unfold transact.
  pose proof (begin_tables o s) as Ht. pose proof (begin_seqs o s) as Hq.
  destruct (begin_ o s) as [[?|??|?] s1]; simpl in *; rewrite ?Ht, ?Hq; [|done..].
  specialize (Hg o s1). specialize (Hb o s1 ltac:(by rewrite Ht, Hq)).
  assert (Hold : I (tables s) (seqs (body o s1).2)) by (eapply Hc; [|done]; by rewrite <- Hq).
  destruct (body o s1) as [[y|[] e|w] s2] eqn:E; simpl in *; [|done..].
  pose proof (commit_seqs (tables s) o s2) as Hcs.
  pose proof (commit_invariant I (tables s) o s2 Hold Hb) as Hci.
  by destruct (commit (tables s) o s2) as [[e|] s3]; simpl in *; rewrite Hcs.
Qed.

End Invariants.

(** [sql.ErrNoRows] is made by the client, so no server answers with it. *)
Definition server_oracle (o : oracle) : Prop := ∀ n, o n ≠ Some ErrNoRows.

(** [keeps I m]: whatever the server rejects and the outcome, [m] restores
    [I].  For functions whose statements run on the connection, so that each
    takes effect at once. *)
Definition keeps {T A} (I : state_pred T) (m : DB T A) : Prop :=
  ∀ o s, server_oracle o → I (tables s) (seqs s) → I (tables (m o s).2) (seqs (m o s).2).

Section Keeps.
Context {T : Type} (I : state_pred T).

Lemma keeps_ret {A} (a : A) : keeps I (db_ret a).
Proof. by intros o s. Qed.

Lemma keeps_fail {A} e : keeps I (@db_fail T A e).
Proof. by intros o s. Qed.

Lemma keeps_lift {A} (r : result A) : keeps I (db_lift r).
Proof. intros o s. by destruct r. Qed.

Lemma keeps_bind {A B} (m : DB T A) (f : A → DB T B) :
  keeps I m → (∀ a, keeps I (f a)) → keeps I (db_bind m f).
Proof.
  intros Hm Hf o s Ho Hs. specialize (Hm o s Ho Hs). unfold db_bind.
  destruct (m o s) as [[a|b e|w] s']; simpl in *; [by apply Hf|done..].
Qed.

Lemma keeps_for {A} (f : A → DB T unit) l : (∀ a, keeps I (f a)) → keeps I (db_for f l).
Proof.
  intros Hf. induction l as [|x l IH]; simpl; [apply keeps_ret|]. by apply keeps_bind.
Qed.

Lemma keeps_scan_one {A} (m : DB T (list A)) : keeps I m → keeps I (scan_one m).
Proof.
  intros Hm. apply keeps_bind; [done|]. intros [|r rows]; [apply keeps_fail|apply keeps_ret].
Qed.

Lemma keeps_exec_auto {A} (f : T → gmap string Z → A * T * gmap string Z) :
  (∀ t q, I t q → I (f t q).1.2 (f t q).2) → keeps I (exec_auto f).
Proof.
  intros Hf o s _ Hs. unfold exec_auto. destruct (o (clock s)); [done|].
  specialize (Hf _ _ Hs). by destruct (f (tables s) (seqs s)) as [[??]?].
Qed.

Lemma keeps_select_auto {A} (f : T → A) : keeps I (select_auto f).
Proof. by apply keeps_exec_auto. Qed.

Lemma keeps_modify_auto (f : T → T) : (∀ t q, I t q → I (f t) q) → keeps I (modify_auto f).
Proof. intros Hf. by apply keeps_exec_auto. Qed.

Lemma keeps_transact {A} (m : DB T A) :
  seq_closed I → grows m → ensures I m (λ _, I) → keeps I (transact m).
Proof. intros Hc Hg Hm o s _ Hs. by apply transact_invariant. Qed.

End Keeps.

#[export] Hint Resolve keeps_ret keeps_fail keeps_lift keeps_for keeps_scan_one
  keeps_select_auto : go.

(** [hoare P m Q E]: from [P], and whatever the server rejects, [m] returns in
    [Q] or fails, or panics, in [E]. *)
Definition hoare {T A} (P : state_pred T) (m : DB T A) (Q : A → state_pred T) (E : state_pred T) : Prop :=
  ∀ o s, server_oracle o → P (tables s) (seqs s) →
    match m o s with
    | (DOk a, s') => Q a (tables s') (seqs s')
    | (_, s') => E (tables s') (seqs s')
    end.

Section Hoare.
Context {T : Type}.
Implicit Types (P E I : state_pred T).

Lemma hoare_bind {A B} P (m : DB T A) (f : A → DB T B) Q R E :
  hoare P m Q E → (∀ a, hoare (Q a) (f a) R E) → hoare P (db_bind m f) R E.
Proof.
  intros Hm Hf o s Ho Hs. specialize (Hm o s Ho Hs). unfold db_bind.
  destruct (m o s) as [[a|b e|w] s']; [by apply Hf|done..].
Qed.

Lemma hoare_keeps {A} I (m : DB T A) : hoare I m (λ _, I) I → keeps I m.
Proof. intros Hm o s Ho Hs. specialize (Hm o s Ho Hs). by destruct (m o s) as [[a|b e|w] s']. Qed.

Lemma keeps_hoare {A} I (m : DB T A) : keeps I m → hoare I m (λ _, I) I.
Proof. intros Hm o s Ho Hs. specialize (Hm o s Ho Hs). by destruct (m o s) as [[a|b e|w] s']. Qed.

Lemma hoare_weaken {A} P P' (m : DB T A) (Q Q' : A → state_pred T) E E' :
  hoare P m Q E → (∀ t q, P' t q → P t q) → (∀ a t q, Q a t q → Q' a t q) → (∀ t q, E t q → E' t q) →
  hoare P' m Q' E'.
Proof.
  intros Hm HP HQ HE o s Ho Hs. specialize (Hm o s Ho (HP _ _ Hs)).
  destruct (m o s) as [[a|b e|w] s']; auto.
Qed.

(** A loop whose invariant mentions what is left to do. *)
Lemma hoare_for {A} (I : list A → state_pred T) (f : A → DB T unit) E l :
  (∀ x l, hoare (I (x :: l)) (f x) (λ _, I l) E) → hoare (I l) (db_for f l) (λ _, I []) E.
Proof.
  intros Hf. induction l as [|x l IH]; simpl; [by intros o s Ho Hs|].
  eapply hoare_bind; [apply Hf|]. by intros [].
Qed.

(** A committed transaction has the effect of its body; any other none. *)
Lemma hoare_transact {A} P (m : DB T A) Q :
  seq_closed P → (∀ a, seq_closed (Q a)) → grows m → ensures P m Q → hoare P (transact m) Q P.
Proof.
  intros Hc HcQ Hg Hm o s _ Hs. unfold transact.
  pose proof (begin_tables o s) as Ht. pose proof (begin_seqs o s) as Hq.
  destruct (begin_ o s) as [[?|??|?] s1]; simpl in *; rewrite ?Ht, ?Hq; [|done..].
  specialize (Hg o s1). specialize (Hm o s1 ltac:(by rewrite Ht, Hq)).
  assert (Hold : P (tables s) (seqs (m o s1).2)) by (eapply Hc; [|done]; by rewrite <- Hq).
  destruct (m o s1) as [[y|b e|w] s2]; simpl in *; [|done..].
  unfold commit. destruct (aborted s2); [done|]. by destruct (o (clock s2)).
Qed.

End Hoare.

(** ** Lemmas: returned values

    [returns m φ]: whatever the oracle and the session, a value [m] returns
    satisfies [φ]. *)

Definition returns {T A} (m : DB T A) (φ : A → Prop) : Prop :=
  ∀ o s a s', m o s = (DOk a, s') → φ a.

Section Returns.
Context {T : Type}.

Lemma returns_any {A} (m : DB T A) : returns m (λ _, True).
Proof. done. Qed.

Lemma returns_ret {A} (a : A) (φ : A → Prop) : φ a → returns (T := T) (db_ret a) φ.
Proof. by intros Ha o s b s' [= <- <-]. Qed.

Lemma returns_weaken {A} (m : DB T A) (φ ψ : A → Prop) : returns m φ → (∀ a, φ a → ψ a) → returns m ψ.
Proof. intros Hm Hw o s a s' Hr. eauto. Qed.

Lemma returns_lift {A} (r : result A) : returns (T := T) (db_lift r) (λ a, r = Ok a).
Proof. intros o s a s'. unfold db_lift. by destruct r; intros [= <- _]. Qed.

Lemma returns_bind {A B} (m : DB T A) (k : A → DB T B) φ ψ :
  returns m φ → (∀ a, φ a → returns (k a) ψ) → returns (db_bind m k) ψ.
Proof.
  intros Hm Hk o s b s'. unfold db_bind.
  destruct (m o s) as [[a|e1 e2|w] s1] eqn:E; [|done..].
  apply (Hk a). by eapply Hm.
Qed.

Lemma returns_collect {A B} (f : A → DB T B) (φ : B → Prop) l :
  (∀ a, returns (f a) φ) → returns (db_collect f l) (Forall φ).
Proof.
  intros Hf. induction l as [|x l IH]; simpl; [by apply returns_ret|].
  eapply returns_bind; [apply Hf|]. intros y Hy.
  eapply returns_bind; [apply IH|]. intros ys Hys. apply returns_ret. by constructor.
Qed.

Lemma returns_transact_deferred {A} (m : DB T A) φ :
  returns m φ → returns (transact_deferred m) φ.
Proof.
  intros Hm o s a s' E. apply transact_deferred_ok in E as (s1 & s2 & _ & Hb & _).
  by eapply Hm.
Qed.

End Returns.

(** ** Lemmas: tables with a serial id and a unique key *)

Definition table_ok {R K} (name : string) (id : R → Z) (key : R → K) (rows : list R)
    (q : gmap string Z) : Prop :=
  NoDup (map id rows) ∧ NoDup (map key rows) ∧
  Forall (λ r, id r ≤ default 0 (q !! name)) rows.

Lemma table_ok_seq {R K} name (id : R → Z) (key : R → K) rows q q' :
  seq_le q q' → table_ok name id key rows q → table_ok name id key rows q'.
Proof.
  intros Hq (H1 & H2 & H3). split_and!; [done..|]. eapply Forall_impl; [done|].
  simpl. intros r Hr. specialize (Hq name). lia.
Qed.

Lemma table_ok_filter {R K} name (id : R → Z) (key : R → K) rows q (P : R → Prop)
    `{!∀ x, Decision (P x)} :
  table_ok name id key rows q → table_ok name id key (filter P rows) q.
Proof.
  intros (H1 & H2 & H3). split_and!.
  - eapply sublist_NoDup; [done|]. apply fmap_sublist, sublist_filter.
  - eapply sublist_NoDup; [done|]. apply fmap_sublist, sublist_filter.
  - rewrite Forall_forall in H3 |- *. intros r [_ Hr]%list_elem_of_filter. auto.
Qed.

Lemma nextval_le name q : seq_le q (nextval name q).2.
Proof.
  intros n. unfold nextval. simpl. destruct (decide (n = name)) as [->|Hn].
  - rewrite lookup_insert_eq. simpl. lia.
  - by rewrite lookup_insert_ne.
Qed.

Lemma upsert_rows_grows {R} name (c : R → bool) row upd get_id rows q :
  seq_le q (upsert_rows name c row upd get_id rows q).2.
Proof.
  unfold upsert_rows. pose proof (nextval_le name q) as Hn.
  destruct (nextval name q) as [id q']. by destruct (list_find _ rows) as [[??]|].
Qed.

(** An upsert on the key [k] keeps ids and keys unique, and returns the id of
    a row it left in the table. *)
Lemma upsert_rows_ok {R K} `{EqDecision K} name (id : R → Z) (key : R → K) (k : K)
    row upd rows q :
  (∀ n, id (row n) = n) → (∀ n, key (row n) = k) →
  (∀ r, id (upd r) = id r) → (∀ r, key r = k → key (upd r) = k) →
  table_ok name id key rows q →
  let u := upsert_rows name (λ r, bool_decide (key r = k)) row upd id rows q in
  table_ok name id key u.1.2 u.2 ∧ u.1.1 ∈ map id u.1.2 ∧
  (∀ x, x ∈ map id rows → x ∈ map id u.1.2).
Proof.
  intros Hidrow Hkrow Hidupd Hkupd Hok. simpl. destruct (Hok) as (H1 & H2 & H3).
  pose proof (upsert_rows_grows name (λ r, bool_decide (key r = k)) row upd id rows q) as Hg.
  unfold upsert_rows in *. pose proof (nextval_le name q) as Hn.
  destruct (nextval name q) as [n q'] eqn:En. simpl in *.
  destruct (list_find _ rows) as [[i r]|] eqn:Ef; simpl in *.
  - set (f := λ r0, if bool_decide (key r0 = k) then upd r0 else r0).
    assert (Hid : map id (map f rows) = map id rows).
    { rewrite map_map. apply map_ext. intros x. unfold f. by case_bool_decide. }
    assert (Hkey : map key (map f rows) = map key rows).
    { rewrite map_map. apply map_ext. intros x. unfold f.
      case_bool_decide as Hx; [|done]. by rewrite Hkupd. }
    split_and!.
    + eapply table_ok_seq; [done|]. split_and!; [by rewrite Hid|by rewrite Hkey|].
      rewrite Forall_forall in H3 |- *. intros x (y & -> & Hy)%list_elem_of_fmap.
      specialize (H3 y Hy). unfold f. case_bool_decide; [by rewrite Hidupd|done].
    + rewrite Hid. apply list_find_Some in Ef as (Hl & _ & _).
      apply list_elem_of_fmap_2. by eapply list_elem_of_lookup_2.
    + intros x. by rewrite Hid.
  - apply list_find_None in Ef. rewrite Forall_forall in Ef, H3.
    unfold nextval in En. injection En as <- <-.
    split_and!.
    + unfold table_ok. rewrite !map_app. simpl. rewrite lookup_insert_eq. simpl. split_and!.
      * apply NoDup_app. split_and!; [done| |apply NoDup_singleton].
        intros x (r & Hx & Hr)%list_elem_of_fmap Hs%list_elem_of_singleton.
        specialize (H3 r Hr). rewrite Hidrow in Hs. lia.
      * apply NoDup_app. split_and!; [done| |apply NoDup_singleton].
        intros x (r & Hx & Hr)%list_elem_of_fmap Hk%list_elem_of_singleton.
        rewrite Hkrow in Hk. apply (Ef r Hr), bool_decide_pack. congruence.
      * apply Forall_app. split.
        -- apply Forall_forall. intros r Hr. specialize (H3 r Hr). lia.
        -- constructor; [by rewrite Hidrow|constructor].
    + rewrite map_app. apply elem_of_app. right. simpl. rewrite Hidrow.
      by apply list_elem_of_singleton.
    + intros x Hx. rewrite map_app. apply elem_of_app. by left.
Qed.

Lemma upsert_rows_Forall {R} (P : R → Prop) name (c : R → bool) row upd get_id rows q :
  (∀ n, P (row n)) → (∀ r, c r = true → P r → P (upd r)) → Forall P rows →
  Forall P (upsert_rows name c row upd get_id rows q).1.2.
Proof.
  intros Hrow Hupd H. unfold upsert_rows. destruct (nextval name q) as [n q'].
  destruct (list_find _ rows) as [[i r]|]; simpl.
  - apply Forall_fmap. eapply Forall_impl; [done|]. intros x Hx. simpl.
    destruct (c x) eqn:E; [by apply Hupd|done].
  - apply Forall_app. by repeat constructor.
Qed.

Lemma insert_ignore_grows {R} name (c : R → bool) row rows q :
  seq_le q (insert_ignore name c row rows q).2.
Proof.
  unfold insert_ignore. pose proof (nextval_le name q) as Hn.
  destruct (nextval name q) as [id q']. by destruct (existsb c rows).
Qed.

(** The facts about an upsert on the key [k] whose rows all satisfy [P]. *)
Lemma upsert_rows_facts {R K} `{EqDecision K} name (id : R → Z) (key : R → K) (k : K) (P : R → Prop)
    row upd rows q :
  (∀ n, id (row n) = n) → (∀ n, key (row n) = k) →
  (∀ r, id (upd r) = id r) → (∀ r, key r = k → key (upd r) = k) →
  (∀ n, P (row n)) → (∀ r, P r → P (upd r)) →
  table_ok name id key rows q → Forall P rows →
  match upsert_rows name (λ r, bool_decide (key r = k)) row upd id rows q with
  | (x, rows', q') =>
      seq_le q q' ∧ table_ok name id key rows' q' ∧ Forall P rows' ∧ x ∈ map id rows' ∧
      (∀ y, y ∈ map id rows → y ∈ map id rows')
  end.
Proof.
  intros H1 H2 H3 H4 H5 H6 Hok HP.
  destruct (upsert_rows_ok name id key k row upd rows q H1 H2 H3 H4 Hok) as (? & ? & ?).
  pose proof (upsert_rows_grows name (λ r, bool_decide (key r = k)) row upd id rows q).
  pose proof (upsert_rows_Forall P name (λ r, bool_decide (key r = k)) row upd id rows q
    H5 (λ r _, H6 r) HP).
  by destruct (upsert_rows name _ row upd id rows q) as [[x rows'] q'].
Qed.

Lemma Forall_elem_mono {R} (f : R → Z) rows (l l' : list Z) :
  (∀ x, x ∈ l → x ∈ l') → Forall (λ r, f r ∈ l) rows → Forall (λ r, f r ∈ l') rows.
Proof. intros Hl H. eapply Forall_impl; [done|]. simpl. auto. Qed.

(** ** Lemmas: rows *)

Lemma upsert_rows_conflict {R} name (c : R → bool) row upd get_id (rows : list R) q r :
  r ∈ rows → c r = true → ∃ r', r' ∈ rows ∧ c r' = true ∧
    (upsert_rows name c row upd get_id rows q).1 =
    (get_id r', map (λ r, if c r then upd r else r) rows).
Proof.
  intros Hr Hc. unfold upsert_rows. destruct (nextval name q) as [id q'].
  destruct (list_find _ rows) as [[i r']|] eqn:E.
  - apply list_find_Some in E as (Hl & Hc' & _). exists r'. split_and!; [|by apply Is_true_true|done].
    by eapply list_elem_of_lookup_2.
  - apply list_find_None in E. rewrite Forall_forall in E. specialize (E r Hr).
    rewrite Hc in E. by destruct E.
Qed.

Lemma upsert_rows_fresh {R} name (c : R → bool) row upd get_id (rows : list R) q :
  (∀ r, r ∈ rows → c r = false) →
  (upsert_rows name c row upd get_id rows q).1 =
  (default 0 (q !! name) + 1, rows ++ [row (default 0 (q !! name) + 1)]).
Proof.
  intros Hc. unfold upsert_rows, nextval. simpl.
  destruct (list_find _ rows) as [[i r]|] eqn:E; [|done].
  apply list_find_Some in E as (Hl & Hc' & _).
  rewrite (Hc r) in Hc'; [done|]. by eapply list_elem_of_lookup_2.
Qed.

(** The written row is there afterwards, and rows without the key stay. *)
Lemma upsert_rows_put {R} name (c : R → bool) row upd get_id (rows : list R) q x rows' q' :
  (∀ r, c r = true → upd r = row (get_id r)) →
  upsert_rows name c row upd get_id rows q = (x, rows', q') → row x ∈ rows'.
Proof.
  intros Hu. unfold upsert_rows. destruct (nextval name q) as [id q0].
  destruct (list_find _ rows) as [[i r]|] eqn:E; intros [= <- <- <-]; [|set_solver].
  apply list_find_Some in E as (Hl & Hc%Is_true_true & _). apply list_elem_of_fmap.
  exists r. rewrite Hc. split; [by rewrite (Hu r Hc)|by eapply list_elem_of_lookup_2].
Qed.

(** Which row holds the upserted values: an updated one, or the inserted one. *)
Lemma upsert_rows_cases {R} name (c : R → bool) row upd get_id (rows : list R) q x rows' q' :
  upsert_rows name c row upd get_id rows q = (x, rows', q') →
  (∃ r, r ∈ rows ∧ c r = true ∧ get_id r = x ∧ upd r ∈ rows') ∨
  ((∀ r, r ∈ rows → c r = false) ∧ row x ∈ rows').
Proof.
  unfold upsert_rows. destruct (nextval name q) as [id q0].
  destruct (list_find _ rows) as [[i r]|] eqn:E; intros [= <- <- <-].
  - apply list_find_Some in E as (Hl & Hc%Is_true_true & _). left. exists r.
    apply list_elem_of_lookup_2 in Hl as Hr. split_and!; [done..|]. apply list_elem_of_fmap. exists r. by rewrite Hc.
  - right. apply list_find_None in E. rewrite Forall_forall in E. split; [|set_solver].
    intros r Hr. specialize (E r Hr). by destruct (c r).
Qed.

Lemma upsert_rows_keyed {R} name (c : R → bool) row upd get_id (rows : list R) q x rows' q' :
  (∀ n, c (row n) = true ∧ get_id (row n) = n) → (∀ r, c r = true → c (upd r) = true ∧ get_id (upd r) = get_id r) →
  upsert_rows name c row upd get_id rows q = (x, rows', q') → ∃ r, r ∈ rows' ∧ c r = true ∧ get_id r = x.
Proof.
  intros Hrow Hu. unfold upsert_rows. destruct (nextval name q) as [id q0].
  destruct (list_find _ rows) as [[i r]|] eqn:E; intros [= <- <- <-].
  - apply list_find_Some in E as (Hl & Hc%Is_true_true & _). exists (upd r).
    split; [|by apply Hu]. apply list_elem_of_fmap. exists r. rewrite Hc.
    split; [done|by eapply list_elem_of_lookup_2].
  - exists (row id). split; [set_solver|apply Hrow].
Qed.

Lemma upsert_rows_kept {R} name (c : R → bool) row upd get_id (rows : list R) q x rows' q' r :
  upsert_rows name c row upd get_id rows q = (x, rows', q') → r ∈ rows → c r = false → r ∈ rows'.
Proof.
  unfold upsert_rows. destruct (nextval name q) as [id q0].
  destruct (list_find _ rows) as [[i r']|] eqn:E; intros [= <- <- <-] Hr Hc; [|set_solver].
  apply list_elem_of_fmap. exists r. by rewrite Hc.
Qed.

(** A row with the next id and a fresh key can be appended. *)
Lemma table_ok_append {R K} name (id : R → Z) (key : R → K) (row : R) rows q n :
  table_ok name id key rows q → n = default 0 (q !! name) + 1 → id row = n → key row ∉ map key rows →
  table_ok name id key (rows ++ [row]) (<[name := n]> q).
Proof.
  intros (H1 & H2 & H3) -> Hid Hkey. rewrite Forall_forall in H3.
  unfold table_ok. rewrite !map_app, lookup_insert_eq. simpl. split_and!.
  - apply NoDup_app. split_and!; [done| |apply NoDup_singleton].
    intros x (r & -> & Hr)%list_elem_of_fmap Hs%list_elem_of_singleton. specialize (H3 r Hr). lia.
  - apply NoDup_app. split_and!; [done| |apply NoDup_singleton].
    intros x Hx Hs%list_elem_of_singleton. by subst x.
  - apply Forall_app. split; [|repeat constructor; lia].
    apply Forall_forall. intros r Hr. specialize (H3 r Hr). lia.
Qed.

(** [INSERT ... ON CONFLICT DO NOTHING] on the key [k]. *)
Lemma insert_ignore_facts {R K} `{EqDecision K} name (id : R → Z) (key : R → K) (k : K) row rows q :
  (∀ n, id (row n) = n) → (∀ n, key (row n) = k) → table_ok name id key rows q →
  match insert_ignore name (λ r, bool_decide (key r = k)) row rows q with
  | (ids, rows', q') =>
      seq_le q q' ∧ table_ok name id key rows' q' ∧
      ((ids = [] ∧ rows' = rows ∧ k ∈ map key rows) ∨
       ∃ n, ids = [n] ∧ rows' = rows ++ [row n] ∧ k ∉ map key rows ∧ n ∉ map id rows ∧ n = default 0 (q !! name) + 1)
  end.
Proof.
  intros Hid Hkey Hok. unfold insert_ignore. pose proof (nextval_le name q) as Hq.
  unfold nextval in *. simpl in *. set (n := default 0 (q !! name) + 1) in *.
  destruct (existsb _ rows) eqn:E.
  - split; [done|]. split; [by eapply table_ok_seq|]. left. split_and!; [done..|].
    apply existsb_exists in E as (r & Hr%list_elem_of_In & Hk%bool_decide_eq_true). subst k.
    by apply list_elem_of_fmap_2.
  - assert (Hk : k ∉ map key rows).
    { intros (r & -> & Hr)%list_elem_of_fmap. apply not_true_iff_false in E. apply E, existsb_exists.
      exists r. split; [by apply list_elem_of_In|by apply bool_decide_eq_true]. }
    split; [done|]. split; [by apply table_ok_append; [done|done|apply Hid|rewrite Hkey]|].
    right. exists n. split_and!; [done..| |done]. intros (r & Hr & Hin)%list_elem_of_fmap.
    destruct Hok as (_ & _ & Hle). rewrite Forall_forall in Hle. specialize (Hle r Hin). lia.
Qed.

(** ** Tactics for statements that are one upsert

    [upsert_ensures wf key k P unf]: the upsert keeps [wf], a conjunct of the
    precondition; [key] and [k] are its conflict key, [P] the foreign key its
    rows respect, and [unf] unfolds the key functions. *)

Ltac upsert_ensures wf key k P unf :=
  apply exec_ensures;
  let d := fresh "d" in let q := fresh "q" in let Hpre := fresh "Hpre" in
  intros d q; cbn beta; intros Hpre;
  destruct_and?; match goal with H : wf _ _ |- _ => destruct H end;
  match goal with |- context [upsert_rows ?n _ ?row ?upd ?id ?rows ?q0] =>
    let Hu := fresh "Hu" in
    assert (Hu := upsert_rows_facts n id key k (P d) row upd rows q0);
    destruct (upsert_rows n _ row upd id rows q0) as [[? ?] ?];
    destruct Hu as (? & ? & ? & ? & ?);
    [done|done|done|try done; unf; simpl in *; naive_solver|done|done|done|try done; by apply Forall_true|]
  end;
  simpl in *; split_and?; try done; split; simpl in *;
  eauto using table_ok_seq, Forall_elem_mono.

(** An upsert draws from its sequence. *)
Ltac upsert_grows :=
  apply grows_exec; intros ??;
  match goal with |- context [upsert_rows ?n ?c ?row ?upd ?id ?rows ?q0] =>
    let Hu := fresh "Hu" in
    assert (Hu := upsert_rows_grows n c row upd id rows q0);
    destruct (upsert_rows n c row upd id rows q0) as [[? ?] ?]; exact Hu
  end.

(** An upsert leaves the other tables alone. *)
Ltac upsert_keeps unf :=
  apply exec_ensures; intros ??; unf; simpl;
  match goal with |- context [upsert_rows ?n ?c ?row ?upd ?id ?rows ?q0] =>
    destruct (upsert_rows n c row upd id rows q0) as [[? ?] ?]; simpl; done
  end.
