(* ===== verification/Queries.v ===== *)
(** * Queries the retrievers share

    ORDER BY, scanning of BIGINT columns, the handling of [sql.ErrNoRows], and
    the search for gaps in a table of headers, which the Ethereum and the
    Bitcoin retriever do with the same statements. *)

From S2P Require Import Prelude GoInt Heights Sql.

(** ORDER BY an integer column. *)
Definition by_key {A} (f : A → Z) : A → A → Prop := λ x y, f x ≤ f y.
#[export] Instance by_key_dec {A} (f : A → Z) : RelDecision (by_key f).
Proof. intros x y. unfold by_key. apply _. Defined.
Definition order_by {A} (f : A → Z) (l : list A) : list A :=
  merge_sort (by_key f) l.

(** The self-join: for every height without a successor that has a later
    height, the range up to the next height. *)
Definition gaps_query (ns : list Z) : list (Z * Z) :=
  omap (λ n,
    if bool_decide (n + 1 ∈ ns) then None
    else match filter (λ m, n < m) ns with
    | [] => None
    | m :: ms => Some (n + 1, foldr Z.min m ms - 1)
    end) (remove_dups ns).

(** Scanning a BIGINT into a [uint64]. *)
Definition scan_uint64 (z : Z) : result Z :=
  if 0 <=? z then Ok z else Err (Errorf "sql: Scan error: converting driver.Value type int64 to a uint64").

Definition scan_gap (p : Z * Z) : result Gap :=
  start <-! scan_uint64 p.1 ;; stop <-! scan_uint64 p.2 ;; Ok (mkGap start stop).

(** [if err := ...; err != nil && err != sql.ErrNoRows { return nil, err }] *)
Definition or_no_rows {T A} (m : DB T (list A)) : DB T (list A) := λ o s,
  match m o s with
  | (DErr b e, s) => if bool_decide (e = ErrNoRows) then (DOk [], s) else (DErr b e, s)
  | r => r
  end.

Definition wrap_err {T A} (m : DB T A) (msg : string) : DB T A := λ o s,
  match m o s with
  | (DErr b e, s) => (DErr b (Errorf msg), s)
  | r => r
  end.

(** ** Lemmas: sorting and minima *)

#[export] Instance by_key_trans {A} (f : A → Z) : Transitive (by_key f).
Proof. intros x y z. unfold by_key. lia. Qed.
#[export] Instance by_key_total {A} (f : A → Z) : Total (by_key f).
Proof. intros x y. unfold by_key. lia. Qed.

Lemma order_by_perm {A} (f : A → Z) l : order_by f l ≡ₚ l.
Proof. apply merge_sort_Permutation. Qed.

Lemma order_by_sorted {A} (f : A → Z) l : StronglySorted (by_key f) (order_by f l).
Proof. apply StronglySorted_merge_sort; apply _. Qed.

Lemma elem_of_order_by {A} (f : A → Z) l x : x ∈ order_by f l ↔ x ∈ l.
Proof. by rewrite order_by_perm. Qed.

Lemma order_by_length {A} (f : A → Z) l : length (order_by f l) = length l.
Proof. by rewrite order_by_perm. Qed.

(** Rows that are numbered from 0 are in order. *)
Lemma order_by_numbered {A} (f : A → Z) l :
  (∀ j x, l !! j = Some x → f x = Z.of_nat j) → order_by f l = l.
Proof.
  intros Hl. apply (StronglySorted_unique_strong (by_key f)); [|apply order_by_sorted| |apply order_by_perm].
  - intros x y Hx Hy Hxy Hyx. apply elem_of_order_by in Hx. unfold by_key in *.
    apply list_elem_of_lookup in Hx as [i Hi]. apply list_elem_of_lookup in Hy as [j Hj].
    assert (i = j) as -> by (pose proof (Hl _ _ Hi); pose proof (Hl _ _ Hj); lia). congruence.
  - assert (Hg : ∀ k m, (∀ j x, k !! j = Some x → f x = m + Z.of_nat j) → StronglySorted (by_key f) k).
    { clear. induction k as [|x k IH]; intros m Hk; constructor.
      - apply (IH (m + 1)). intros j y Hy. specialize (Hk (S j) y Hy). lia.
      - apply Forall_forall. intros y [j Hj]%list_elem_of_lookup. pose proof (Hk 0%nat x eq_refl).
        pose proof (Hk (S j) y Hj). unfold by_key. lia. }
    apply (Hg l 0). intros j x Hx. by rewrite (Hl j x Hx).
Qed.

(** The first row of an ordered query is a minimum. *)
Lemma order_by_first {A} (f : A → Z) l x rest :
  order_by f l = x :: rest → x ∈ l ∧ ∀ y, y ∈ l → f x ≤ f y.
Proof.
  intros E. split.
  - apply (elem_of_order_by f). rewrite E. set_solver.
  - intros y Hy. apply (elem_of_order_by f) in Hy. rewrite E in Hy.
    pose proof (order_by_sorted f l) as Hs. rewrite E in Hs.
    apply StronglySorted_inv in Hs as [_ Hs]. rewrite Forall_forall in Hs.
    apply elem_of_cons in Hy as [->|Hy]; [lia|]. by apply Hs.
Qed.

Lemma foldr_min_spec m ms :
  foldr Z.min m ms ∈ m :: ms ∧ ∀ x, x ∈ m :: ms → foldr Z.min m ms ≤ x.
Proof.
  induction ms as [|y ms [IH1 IH2]]; simpl; [set_solver by lia|]. split.
  - destruct (Z.min_spec y (foldr Z.min m ms)) as [[_ ->]|[_ ->]]; set_solver.
  - intros x [->|[->|Hx]%elem_of_cons]%elem_of_cons.
    + specialize (IH2 m ltac:(set_solver)). lia.
    + lia.
    + specialize (IH2 x ltac:(set_solver)). lia.
Qed.

Lemma max_below (ns : list Z) h :
  (∃ m, m ∈ ns ∧ m < h) → ∃ m, m ∈ ns ∧ m < h ∧ ∀ k, k ∈ ns → k < h → k ≤ m.
Proof.
  induction ns as [|n ns IH]; intros (m & Hm & Hlt); [set_solver|].
  destruct (decide (Exists (λ m, m < h) ns)) as [Hex%Exists_exists|Hno].
  - destruct (IH Hex) as (k & Hk & Hkh & Hmax).
    destruct (decide (n < h ∧ k < n)).
    + exists n. split_and!; [set_solver|lia|].
      intros j [->|Hj]%elem_of_cons Hjh; [lia|]. specialize (Hmax j Hj Hjh). lia.
    + exists k. split_and!; [set_solver|lia|].
      intros j [->|Hj]%elem_of_cons Hjh; [lia|]. by apply Hmax.
  - apply elem_of_cons in Hm as [<-|Hm]; [|exfalso; apply Hno, Exists_exists; eauto].
    exists m. split_and!; [set_solver|lia|].
    intros j [->|Hj]%elem_of_cons Hjh; [lia|]. exfalso. apply Hno, Exists_exists. eauto.
Qed.

(** ** Lemmas: the gap query *)

Lemma elem_of_gaps_query ns a b :
  (a, b) ∈ gaps_query ns ↔
  ∃ n, n ∈ ns ∧ n + 1 ∉ ns ∧ a = n + 1 ∧ b + 1 ∈ ns ∧ n < b + 1 ∧
    ∀ x, x ∈ ns → n < x → b + 1 ≤ x.
Proof.
  unfold gaps_query. rewrite list_elem_of_omap. split.
  - intros (n & Hn & E). rewrite elem_of_remove_dups in Hn. exists n.
    case_bool_decide as Hs; [done|]. destruct (filter _ ns) as [|m ms] eqn:Ef; [done|].
    injection E as <- <-. destruct (foldr_min_spec m ms) as [H1 H2].
    rewrite <- Ef in H1, H2. apply list_elem_of_filter in H1 as [H1 H1'].
    replace (foldr Z.min m ms - 1 + 1) with (foldr Z.min m ms) by lia.
    split_and!; try done. intros x Hx Hlt. apply H2. by apply list_elem_of_filter.
  - intros (n & Hn & Hs & -> & Hb & Hlt & Hmin). exists n.
    rewrite elem_of_remove_dups. split; [done|].
    rewrite bool_decide_eq_false_2 by done.
    destruct (filter (λ m, n < m) ns) as [|m ms] eqn:Ef.
    + assert (b + 1 ∈ filter (λ m, n < m) ns) as Hin by by apply list_elem_of_filter.
      rewrite Ef in Hin. by apply elem_of_nil in Hin.
    + destruct (foldr_min_spec m ms) as [H1 H2]. rewrite <- Ef in H1, H2.
      apply list_elem_of_filter in H1 as [H1 H1']. specialize (Hmin _ H1' H1).
      specialize (H2 (b + 1) ltac:(by apply list_elem_of_filter)).
      do 2 f_equal. lia.
Qed.

(** The self-join covers exactly the absent heights between present ones. *)
Lemma gaps_query_covers ns h :
  (∃ p, p ∈ gaps_query ns ∧ p.1 ≤ h ≤ p.2) ↔
  h ∉ ns ∧ (∃ m, m ∈ ns ∧ m < h) ∧ (∃ m, m ∈ ns ∧ h < m).
Proof.
  split.
  - intros ([a b] & Hp & Hh). simpl in Hh.
    apply elem_of_gaps_query in Hp as (n & Hn & Hs & -> & Hb & Hlt & Hmin).
    split_and!.
    + intros Hin. specialize (Hmin h Hin ltac:(lia)). lia.
    + exists n. split; [done|lia].
    + exists (b + 1). split; [done|lia].
  - intros (Hh & Hlo & (m & Hm & Hlt)).
    destruct (max_below ns h Hlo) as (n & Hn & Hnh & Hmax).
    assert (Hs : n + 1 ∉ ns).
    { intros Hin. destruct (decide (n + 1 = h)) as [<-|]; [done|].
      specialize (Hmax (n + 1) Hin ltac:(lia)). lia. }
    destruct (filter (λ m, n < m) ns) as [|k ks] eqn:Ef.
    { assert (m ∈ filter (λ m, n < m) ns) as Hin
        by (apply list_elem_of_filter; split; [lia|done]).
      rewrite Ef in Hin. by apply elem_of_nil in Hin. }
    destruct (foldr_min_spec k ks) as [H1 H2]. rewrite <- Ef in H1, H2.
    apply list_elem_of_filter in H1 as [H1 H1'].
    exists (n + 1, foldr Z.min k ks - 1). simpl. split.
    + apply elem_of_gaps_query. exists n. rewrite Z.sub_add. split_and!; try done.
      intros x Hx Hlt'. apply H2. by apply list_elem_of_filter.
    + split; [lia|]. assert (foldr Z.min k ks ≠ h) by (intros Heq; by rewrite Heq in H1').
      destruct (decide (foldr Z.min k ks < h)) as [Hc|]; [|lia].
      specialize (Hmax _ H1' Hc). lia.
Qed.

Lemma range_collect_scan zs :
  Forall (λ z, 0 ≤ z) zs → range_collect scan_uint64 zs = Ok zs.
Proof.
  intros H. apply range_collect_Ok. induction H as [|z zs Hz _ IH]; constructor; [|done].
  unfold scan_uint64. destruct (0 <=? z) eqn:E; [done|]. zbool. lia.
Qed.

Lemma range_collect_scan_gap ps :
  Forall (λ p, 0 ≤ p.1 ∧ 0 ≤ p.2) ps →
  range_collect scan_gap ps = Ok (map (λ p, mkGap p.1 p.2) ps).
Proof.
  intros H. apply range_collect_Ok. induction H as [|z zs [H1 H2] _ IH]; constructor; [|done].
  unfold scan_gap, scan_uint64.
  destruct (0 <=? z.1) eqn:E; [|zbool; lia]. simpl. by destruct (0 <=? z.2) eqn:E2; [|zbool; lia].
Qed.

Lemma gaps_query_nonneg ns :
  Forall (λ n, 0 ≤ n) ns → Forall (λ p, 0 ≤ p.1 ∧ 0 ≤ p.2) (gaps_query ns).
Proof.
  rewrite !Forall_forall. intros H [a b] Hp.
  apply elem_of_gaps_query in Hp as (n & Hn & Hs & -> & Hb & Hlt & _). simpl.
  specialize (H n Hn). assert (b ≠ n) by congruence. lia.
Qed.

Lemma or_no_rows_evaluates {T A} (m : DB T (list A)) f :
  evaluates m f → (∀ t, f t ≠ Err ErrNoRows) → evaluates (or_no_rows m) f.
Proof.
  intros Hm Hf s Hs. destruct (Hm s Hs) as (H1 & H2 & H3 & H4). unfold or_no_rows.
  destruct (m no_faults s) as [[a|b e|w] s1]; simpl in *; [done| |done].
  case_bool_decide; [|done]. subst. symmetry in H1. by apply Hf in H1.
Qed.

Lemma wrap_err_evaluates {T A} (m : DB T A) msg f :
  evaluates m f → evaluates (wrap_err m msg)
    (λ t, match f t with Err _ => Err (Errorf msg) | r => r end).
Proof.
  intros Hm s Hs. destruct (Hm s Hs) as (H1 & H2 & H3 & H4). unfold wrap_err.
  destruct (m no_faults s) as [[a|b e|w] s1]; simpl in *; rewrite <- H1 in *; done.
Qed.

Lemma wrapped_evaluates {T A} (m : DB T A) msg f :
  evaluates m f → evaluates (wrap_err m msg) (λ t, wrapped msg (f t)).
Proof.
  intros Hm. refine (evaluates_ext _ _ _ _ (wrap_err_evaluates m msg f Hm)).
  intros t. by destruct (f t).
Qed.

Lemma scan_errors_not_no_rows {A B} (f : A → result B) l :
  (∀ x, f x ≠ Err ErrNoRows) → range_collect f l ≠ Err ErrNoRows.
Proof.
  intros Hf. induction l as [|x l IH]; simpl; [done|].
  specialize (Hf x). destruct (f x); simpl; [|congruence|done].
  destruct (range_collect f l); simpl; congruence.
Qed.

Lemma in_gaps_app g1 g2 h : in_gaps (g1 ++ g2) h ↔ in_gaps g1 h ∨ in_gaps g2 h.
Proof. unfold in_gaps. set_solver. Qed.

Lemma in_gaps_map (ps : list (Z * Z)) h :
  in_gaps (map (λ p, mkGap p.1 p.2) ps) h ↔ ∃ p, p ∈ ps ∧ p.1 ≤ h ≤ p.2.
Proof.
  unfold in_gaps. split.
  - intros (g & (p & -> & Hp)%list_elem_of_fmap & Hh). by exists p.
  - intros (p & Hp & Hh). exists (mkGap p.1 p.2). split; [|done].
    apply list_elem_of_fmap. by exists p.
Qed.

(** ** The answer of a gap search

    [ns] are the heights of the header table, [low] the under-validated ones
    in ascending order, [msg] the error for an empty table. *)

Definition gaps_answer (msg : string) (ns low : list Z) : result (list Gap) :=
  startingBlock <-! (match take 1 (order_by id ns) with [] => Err (Errorf msg) | n :: _ => Ok n end) ;;
  emptyGaps <-! range_collect scan_gap (gaps_query ns) ;;
  heights <-! range_collect scan_uint64 low ;;
  Ok ((if negb (startingBlock =? 0) then [mkGap 0 (u64 (i64_sub startingBlock 1))] else [])
      ++ emptyGaps ++ MissingHeightsToGaps heights).

(** The search on the connection: [first] is [RetrieveFirstBlockNumber],
    [ns] and [low] the columns the two queries read. *)
Definition search_gaps {T} (msg : string) (first : DB T Z) (ns low : T → list Z) : DB T (list Gap) :=
  startingBlock <-- wrap_err first msg ;;
  let initialGap :=
    if negb (startingBlock =? 0) then [mkGap 0 (u64 (i64_sub startingBlock 1))] else [] in
  emptyGaps <-- or_no_rows (
    rows <-- select_auto (λ d, gaps_query (ns d)) ;;
    db_lift (range_collect scan_gap rows)) ;;
  heights <-- or_no_rows (
    rows <-- select_auto (λ d, order_by id (low d)) ;;
    db_lift (range_collect scan_uint64 rows)) ;;
  db_ret (initialGap ++ emptyGaps ++ MissingHeightsToGaps heights).

Definition first_height {T} (ns : T → list Z) : DB T Z :=
  scan_one (select_auto (λ d, take 1 (order_by id (ns d)))).

Lemma search_gaps_evaluates {T} msg (ns low : T → list Z) :
  evaluates (search_gaps msg (first_height ns) ns low) (λ d, gaps_answer msg (ns d) (order_by id (low d))).
Proof.
  eapply evaluates_ext; [|unfold search_gaps, first_height].
  2: { apply bind_evaluates; [apply wrap_err_evaluates, scan_one_evaluates, select_auto_evaluates|].
       intros n. apply bind_evaluates.
       { apply or_no_rows_evaluates.
         - apply bind_evaluates; [apply select_auto_evaluates|intros rows; refine (lift_evaluates _)].
         - intros t. simpl. apply scan_errors_not_no_rows. intros [a b].
           unfold scan_gap, scan_uint64. simpl. by repeat case_match. }
       intros gs. apply bind_evaluates.
       { apply or_no_rows_evaluates.
         - apply bind_evaluates; [apply select_auto_evaluates|intros rows; refine (lift_evaluates _)].
         - intros t. simpl. apply scan_errors_not_no_rows. intros a.
           unfold scan_uint64. by repeat case_match. }
       intros hs. refine (ret_evaluates _). }
  intros d. unfold gaps_answer. by destruct (take 1 _).
Qed.

(** The gap before the first height. *)
Lemma initial_gap_covers n0 h : 0 ≤ n0 < 2 ^ 63 → 0 ≤ h →
  in_gaps (if negb (n0 =? 0) then [mkGap 0 (u64 (i64_sub n0 1))] else []) h ↔ h < n0.
Proof.
  intros Hn0 Hh. destruct (n0 =? 0) eqn:E; zbool; simpl.
  - split; [intros (g & Hg & _); by apply elem_of_nil in Hg|lia].
  - rewrite i64_sub_id by (unfold is_i64; lia).
    rewrite u64_id by (unfold is_u64; rewrite two64_val; lia).
    unfold in_gaps. split.
    + intros (g & ->%list_elem_of_singleton & Hg). simpl in Hg. lia.
    + intros Hlt. eexists. split; [by apply list_elem_of_singleton|simpl; lia].
Qed.

Lemma gaps_answer_complete msg ns low :
  Forall (λ n, 0 ≤ n < 2 ^ 63) ns → (∀ n, n ∈ low → n ∈ ns) →
  match gaps_answer msg ns (order_by id low) with
  | Ok gaps => ns ≠ [] ∧ ∀ h, 0 ≤ h →
      in_gaps gaps h ↔
      (h ∉ ns ∧ ∃ m, m ∈ ns ∧ h < m) ∨ (h ∈ low ∧ length low ≠ 1%nat)
  | Err _ => ns = []
  | Panic _ => False
  end.
Proof.
  intros Hns Hsub. unfold gaps_answer.
  assert (Hlow : Forall is_u64 (order_by id low)).
  { rewrite order_by_perm. rewrite Forall_forall in Hns |- *. intros x Hx.
    specialize (Hns _ (Hsub x Hx)). unfold is_u64. rewrite two64_val. lia. }
  destruct (order_by id ns) as [|n0 rest] eqn:Eo; simpl.
  { apply (f_equal length) in Eo. rewrite order_by_length in Eo. by destruct ns. }
  destruct (order_by_first id ns n0 rest Eo) as [Hin Hmin]. unfold id in Hmin.
  rewrite range_collect_scan_gap by (apply gaps_query_nonneg; eapply Forall_impl; [apply Hns|naive_solver]).
  rewrite range_collect_scan by (eapply Forall_impl; [apply Hlow|unfold is_u64; naive_solver]).
  simpl. split; [intros E; by rewrite E in Hin; apply elem_of_nil in Hin|].
  intros h Hh. rewrite !in_gaps_app, in_gaps_map, gaps_query_covers.
  rewrite (MissingHeightsToGaps_covers _ h Hlow) by exact (order_by_sorted id _).
  rewrite elem_of_order_by, order_by_length.
  rewrite initial_gap_covers by (done || (rewrite Forall_forall in Hns; by apply Hns)).
  split.
  - intros [Hlt|[(Hno & _ & Hm)|Hm]]; [left|by left|by right].
    split; [intros Hc; specialize (Hmin h Hc); lia|eauto].
  - intros [(Hno & Hm)|Hm]; [|by right; right].
    destruct (decide (h < n0)); [by left|]. right; left. split_and!; [done| |done].
    exists n0. split; [done|]. assert (n0 ≠ h) by (intros ->; done). lia.
Qed.
