(* ===== verification/Blocks.v ===== *)
(** * The block store in Postgres (pkg/super_node/shared/functions.go)

    [PublishIPLD], [PublishRaw] and [FetchIPLD] act on public.blocks inside the
    caller's transaction.  They are shared by the chains, whose databases have
    different tables: [BlockTable] is what they need of a database. *)

From S2P Require Import Prelude Geth Sql Queries.

Class BlockTable (T : Type) := {
  blocks_of : T → gmap string bytes;
  put_blocks : gmap string bytes → T → T
}.

Class BlockTableLaws `{BlockTable T} := {
  blocks_of_put : ∀ b d, blocks_of (put_blocks b d) = b;
  put_blocks_put : ∀ b b' d, put_blocks b (put_blocks b' d) = put_blocks b d
}.

Section Blocks.
Context `{CidLib} `{BlockTable T}.

Definition blocks_key (c : string) : string := BlockPrefix +:+ CidToDsKey c.

(** [INSERT INTO public.blocks ... ON CONFLICT (key) DO NOTHING] *)
Definition insert_block (key : string) (raw : bytes) : DB T unit :=
  modify (λ d, match blocks_of d !! key with
               | Some _ => d
               | None => put_blocks (<[key := raw]> (blocks_of d)) d
               end).

Definition PublishIPLD (i : Node) : DB T unit :=
  insert_block (blocks_key (Cid i)) (RawData i).

Definition PublishRaw (codec mh : Z) (raw : bytes) : DB T string :=
  c <-- db_lift (RawdataToCid codec raw mh) ;;
  insert_block (blocks_key c) raw ;;;
  db_ret c.

Definition MultihashKeyFromCIDString (c : string) : result string :=
  dc <-! cid_Decode c ;; Ok (blocks_key dc).

Definition FetchIPLD (cid : string) : DB T bytes :=
  mhKey <-- db_lift (MultihashKeyFromCIDString cid) ;;
  scan_one (select (λ d, match blocks_of d !! mhKey with Some b => [b] | None => [] end)).

(** The loop body of the Postgres fetchers: [ipfs.BlockModel{Data: bytes, CID: c}]. *)
Definition fetch_model (c : string) : DB T BlockModel :=
  data <-- FetchIPLD c ;; db_ret (mkBlock c data).

(** An index expression [xs[i]]. *)
Definition index_ {A} (xs : list A) (i : nat) : DB T A :=
  db_lift (match xs !! i with Some x => Ok x | None => Panic "index out of range" end).

(** ** Lemmas: publishing *)

Lemma PublishIPLD_fail_aborts n : fail_aborts (PublishIPLD n).
Proof. apply exec_fail_aborts. Qed.

Lemma PublishRaw_shadow_aborts c m r : shadow_aborts (PublishRaw c m r).
Proof.
  apply bind_shadow_aborts; [apply lift_shadow_aborts|]. intros k.
  apply bind_shadow_aborts; [apply fail_shadow_aborts, exec_fail_aborts|].
  intros; apply ret_shadow_aborts.
Qed.

Lemma insert_block_grows k raw : grows (insert_block k raw).
Proof. by apply grows_exec. Qed.

Lemma PublishRaw_grows c m r : grows (PublishRaw c m r).
Proof.
  apply grows_bind; [apply grows_lift|]. intros k.
  apply grows_bind; [apply insert_block_grows|]. intros []. apply grows_ret.
Qed.

(** Invariants of the other tables. *)
Lemma insert_block_keeps (I : state_pred T) k raw :
  (∀ b d q, I d q → I (put_blocks b d) q) → ensures I (insert_block k raw) (λ _, I).
Proof.
  intros HI. apply modify_ensures. intros d q Hd. destruct (blocks_of d !! k); [done|]. by apply HI.
Qed.

Lemma PublishRaw_keeps (I : state_pred T) codec mh raw :
  (∀ b d q, I d q → I (put_blocks b d) q) → ensures I (PublishRaw codec mh raw) (λ _, I).
Proof.
  intros HI. eapply bind_ensures; [apply lift_ensures|]. intros c.
  eapply bind_ensures; [by apply insert_block_keeps|]. intros []. apply ret_ensures.
Qed.

(** The blocks [b] are untouched and the keys [ks] are present. *)
Definition holds_blocks (b : gmap string bytes) (ks : list string) : state_pred T := λ d _,
  b ⊆ blocks_of d ∧ Forall (λ k, is_Some (blocks_of d !! k)) ks.

Lemma holds_blocks_weaken b ks ks' d q :
  (∀ k, k ∈ ks' → k ∈ ks) → holds_blocks b ks d q → holds_blocks b ks' d q.
Proof. intros Hk [H3 H4]. split; [done|]. rewrite Forall_forall in H4 |- *. auto. Qed.

Lemma insert_block_holds `{!BlockTableLaws} b ks k raw :
  ensures (holds_blocks b ks) (insert_block k raw) (λ _, holds_blocks b (k :: ks)).
Proof.
  apply modify_ensures. intros d q [Hb Hks]. unfold holds_blocks.
  destruct (blocks_of d !! k) as [r|] eqn:E.
  - split; [done|]. by constructor.
  - rewrite blocks_of_put.
    split; [apply insert_subseteq_r; [by eapply lookup_weaken_None|done]|]. constructor; [by rewrite lookup_insert_eq|].
    eapply Forall_impl; [done|]. intros x Hx. by apply lookup_insert_is_Some'; right.
Qed.

Lemma PublishRaw_holds `{!BlockTableLaws} b ks c mh raw :
  ensures (holds_blocks b ks) (PublishRaw c mh raw) (λ _, holds_blocks b ks).
Proof.
  eapply bind_ensures; [apply lift_ensures|]. intros k.
  eapply bind_ensures; [apply insert_block_holds|]. intros [].
  apply ret_ensures_weaken. intros d q. apply holds_blocks_weaken. set_solver.
Qed.

Definition node_key (n : Node) : string := blocks_key (Cid n).

(** A loop that publishes a node per element. *)
Lemma publish_for_holds {A} b (key : A → string) (f : A → DB T unit) l : ∀ ks,
  (∀ x ks, ensures (holds_blocks b ks) (f x) (λ _, holds_blocks b (key x :: ks))) →
  ensures (holds_blocks b ks) (db_for f l) (λ _, holds_blocks b (map key l ++ ks)).
Proof.
  induction l as [|x l IH]; intros ks Hf; simpl; [apply ret_ensures|].
  eapply bind_ensures; [apply Hf|]. intros []. eapply ensures_weaken; [done| |apply (IH _ Hf)].
  intros ? d q. apply holds_blocks_weaken. set_solver.
Qed.

Lemma index_ensures {A} (P : state_pred T) (xs : list A) i :
  ensures P (index_ xs i) (λ x d q, P d q ∧ xs !! i = Some x).
Proof. intros o s Hs. unfold index_, db_lift. by destruct (xs !! i). Qed.

Lemma ensures_pure {A} (P : state_pred T) (φ : Prop) (m : DB T A) Q :
  (φ → ensures P m Q) → ensures (λ d q, P d q ∧ φ) m Q.
Proof. intros Hm o s [Hs Hφ]. by apply (Hm Hφ). Qed.

(** ** Lemmas: content addressing

    [addressed]: what is stored under the key of a CID is the content that the
    CID is the hash of.  Publishing nodes whose CID is computed from their data
    keeps it. *)

Definition genuine (n : Node) : Prop := ∃ p, Prefix_Sum p (RawData n) = Ok (Cid n).

Definition addressed : state_pred T := λ d _,
  ∀ p raw c raw', Prefix_Sum p raw = Ok c → blocks_of d !! blocks_key c = Some raw' → raw' = raw.

Lemma append_inj_l a s t : a +:+ s = a +:+ t → s = t.
Proof.
  induction a as [|x a IH]; [done|]. intros E. change (String x (a +:+ s) = String x (a +:+ t)) in E.
  injection E as E. by apply IH.
Qed.

Lemma insert_block_addressed `{!CidLaws} `{!BlockTableLaws} n : genuine n →
  ensures addressed (insert_block (blocks_key (Cid n)) (RawData n)) (λ _, addressed).
Proof.
  intros [p Hp]. apply modify_ensures. intros d q Ha p' raw c raw' Hc.
  destruct (blocks_of d !! blocks_key (Cid n)) eqn:E; [by eapply Ha|].
  rewrite blocks_of_put. destruct (decide (blocks_key c = blocks_key (Cid n))) as [Ek|Hne].
  - rewrite Ek, lookup_insert_eq. intros [= <-]. apply append_inj_l in Ek. symmetry. by eapply key_content.
  - rewrite lookup_insert_ne by done. by eapply Ha.
Qed.

Lemma PublishRaw_addressed `{!CidLaws} `{!BlockTableLaws} codec mh raw :
  ensures addressed (PublishRaw codec mh raw) (λ _, addressed).
Proof.
  intros o s Hs. unfold PublishRaw, db_bind, db_lift. destruct (RawdataToCid codec raw mh) as [c| |] eqn:E; [|done..].
  pose proof (insert_block_addressed (mkNode c raw) (ex_intro _ _ E) o s Hs) as Hi. simpl in Hi.
  by destruct (insert_block _ _ o s) as [[[]|? ?|?] s'].
Qed.

(** ** Lemmas: fetching *)

(** The block stored for a CID. *)
Definition block_of (d : T) (c : string) : result BlockModel :=
  key <-! MultihashKeyFromCIDString c ;;
  match blocks_of d !! key with Some raw => Ok (mkBlock c raw) | None => Err ErrNoRows end.

(** The block of a genuine node whose key is present. *)
Lemma block_of_genuine `{!CidLaws} n d q : genuine n → addressed d q →
  is_Some (blocks_of d !! node_key n) → block_of d (Cid n) = Ok (mkBlock (Cid n) (RawData n)).
Proof.
  intros [p Hp] Ha [raw Hr]. unfold block_of, MultihashKeyFromCIDString. rewrite (Decode_Sum _ _ _ Hp). simpl.
  unfold node_key in Hr. rewrite Hr. by rewrite (Ha _ _ _ _ Hp Hr).
Qed.

Lemma fetch_model_evaluates c : evaluates (fetch_model c) (λ d, block_of d c).
Proof.
  eapply evaluates_ext; [|apply bind_evaluates; [|intros b; refine (ret_evaluates _)]].
  2: { unfold FetchIPLD. apply bind_evaluates; [apply lift_evaluates|].
       intros k. refine (scan_one_evaluates _ (λ d, match blocks_of d !! k with Some b => [b] | None => [] end) _).
       apply select_evaluates. }
  intros d. unfold block_of. destruct (MultihashKeyFromCIDString c); simpl; [|done..].
  by destruct (blocks_of d !! a).
Qed.

End Blocks.
