(* ===== verification/Cleaning.v ===== *)
(** * What the cleaners share

    Ranges as statement arguments, VACUUM, the effect of a transaction of
    deletions, and the keys of public.blocks that deletions compare with. *)

From S2P Require Import Prelude Geth Sql Blocks.

Definition rng : Type := Z * Z.

(** A uint64 argument with the high bit set is refused by database/sql. *)
Definition exec_rng {T} (r : rng) (f : T → T) : DB T unit :=
  if (r.1 <? 2 ^ 63) && (r.2 <? 2 ^ 63) then modify f
  else db_fail (Driver "sql: converting argument: uint64 values with high bit set are not supported").

(** VACUUM ANALYZE: on the connection, no change to the rows. *)
Definition vacuum {T} (table : string) : DB T unit := modify_auto id.

(** DELETE FROM public.blocks of the rows whose key is one of [cids]. *)
Definition delete_blocks `{BlockTable T} (cids : list string) (d : T) : T :=
  put_blocks (filter (λ kv, kv.1 ∉ cids) (blocks_of d)) d.

Definition is_block_key (k : string) : bool := String.prefix BlockPrefix k.

(** Keys that carry the block prefix are not deleted under CIDs that do not. *)
Lemma delete_blocks_id `{BlockTable T, !BlockTableLaws} cids d :
  (∀ k, is_Some (blocks_of d !! k) → is_block_key k = true) →
  (∀ c, c ∈ cids → is_block_key c = false) →
  blocks_of (delete_blocks cids d) = blocks_of d.
Proof.
  intros Hk Hc. unfold delete_blocks. rewrite blocks_of_put. apply map_filter_id.
  intros k v Hv Hin. simpl in Hin. apply Hc in Hin. rewrite Hk in Hin; [done|]. by eexists.
Qed.

(** ** The effect of a cleaning transaction *)

Section Effect.
Context {T : Type}.

(** A call that returns has applied [f] to the tables. *)
Definition acts {A} (m : DB T A) (f : T → T) : Prop :=
  ∀ d0, ensures (λ d _, d = d0) m (λ _ d _, d = f d0).

Lemma acts_bind {A B} (m : DB T A) (k : A → DB T B) f g :
  acts m f → (∀ a, acts (k a) g) → acts (db_bind m k) (λ d, g (f d)).
Proof. intros Hm Hk d0. eapply bind_ensures; [apply Hm|]. intros a. apply Hk. Qed.

Lemma acts_for {A} (f : A → DB T unit) g l :
  (∀ a, acts (f a) (g a)) → acts (db_for f l) (λ d, foldl (λ d a, g a d) d l).
Proof.
  intros Hf. induction l as [|x l IH]; simpl; [intros d0; apply ret_ensures|].
  refine (acts_bind _ _ (g x) (λ d, foldl (λ d a, g a d) d l) (Hf x) _). intros []. exact IH.
Qed.

Lemma exec_rng_acts r (f : T → T) : acts (exec_rng r f) f.
Proof.
  intros d0. unfold exec_rng. destruct (_ && _); [|apply fail_ensures].
  apply modify_ensures. by intros d q ->.
Qed.

(** A transaction applied its body, or nothing. *)
Lemma transact_acts {A} (body : DB T A) f o s :
  acts body f →
  let '(r, s') := transact body o s in
  (is_DOk r = true → tables s' = f (tables s)) ∧ (is_DOk r = false → tables s' = tables s).
Proof.
  intros Hbody. unfold transact. pose proof (begin_tables o s) as Hb.
  destruct (begin_ o s) as [[?|??|?] s0]; simpl in Hb; [|done..].
  specialize (Hbody (tables s) o s0 Hb). destruct (body o s0) as [[y|??|?] s2]; [|done..].
  unfold commit. destruct (aborted s2); [done|]. by destruct (o (clock s2)).
Qed.

(** Statements that leave the tables alone, whatever their outcome. *)
Definition quiet {A} (m : DB T A) : Prop := ∀ o s, tables (m o s).2 = tables s.

Lemma quiet_bind {A B} (m : DB T A) (k : A → DB T B) :
  quiet m → (∀ a, quiet (k a)) → quiet (db_bind m k).
Proof.
  intros Hm Hk o s. unfold db_bind. specialize (Hm o s).
  destruct (m o s) as [[a|b e|w] s1]; simpl in *; [by rewrite Hk|done..].
Qed.

Lemma quiet_vacuum n : quiet (vacuum n).
Proof. intros o s. unfold vacuum, modify_auto, exec_auto. by destruct (o _). Qed.

Lemma quiet_fail {A} e : quiet (@db_fail T A e).
Proof. done. Qed.

(** A transaction followed by VACUUMs. *)
Lemma transact_then_quiet {A} (body : DB T A) f (m : DB T unit) o s :
  acts body f → quiet m →
  let '(r, s') := (transact body ;;; m) o s in
  (is_DOk r = true → tables s' = f (tables s)) ∧
  (is_DOk r = false → tables s' = tables s ∨ tables s' = f (tables s)).
Proof.
  intros Hbody Hm. unfold db_bind. pose proof (transact_acts body f o s Hbody) as Ht.
  destruct (transact _ o s) as [[a|b e|w] s1]; simpl in Ht; [|naive_solver..].
  specialize (Hm o s1). destruct (m o s1) as [r s2]; simpl in Hm. rewrite Hm. naive_solver.
Qed.

End Effect.

Ltac solve_quiet :=
  simpl; repeat first [apply quiet_vacuum | apply quiet_fail | apply quiet_bind; [|intros []]].

(** ** Removing rows from a table, when a data type covers it *)

Definition only_if {A} (b : bool) (P : A → Prop) `{!∀ x, Decision (P x)} (l : list A) : list A :=
  if b then filter P l else l.

Lemma only_if_true {A} b (P : A → Prop) `{!∀ x, Decision (P x)} l :
  (∀ x, P x) → only_if b P l = l.
Proof.
  intros HP. destruct b; simpl; [|done]. induction l as [|x l IH]; [done|].
  by rewrite filter_cons_True, IH.
Qed.

(** Two passes over a table amount to one. *)
Lemma only_if_only_if {A} b (P Q R : A → Prop)
    `{!∀ x, Decision (P x), !∀ x, Decision (Q x), !∀ x, Decision (R x)} l l' :
  l' = only_if b R l → (∀ x, P x ↔ Q x ∧ R x) → only_if b Q l' = only_if b P l.
Proof.
  intros -> HP. destruct b; simpl; [|done]. rewrite list_filter_filter. apply list_filter_iff.
  intros x. by rewrite HP.
Qed.

Lemma elem_of_only_if {A} b (P : A → Prop) `{!∀ x, Decision (P x)} l x :
  x ∈ only_if b P l ↔ x ∈ l ∧ (b = true → P x).
Proof. destruct b; simpl; rewrite ?list_elem_of_filter; naive_solver. Qed.

Lemma in_map_filter {A B} (f : A → B) (P : A → Prop) `{!∀ x, Decision (P x)} l c :
  c ∈ map f (filter P l) → c ∈ map f l.
Proof. rewrite !list_elem_of_fmap. intros (x & -> & [_ Hx]%list_elem_of_filter). eauto. Qed.

Lemma table_ok_only_if {R K} name (id : R → Z) (key : R → K) rows q b (P : R → Prop)
    `{!∀ x, Decision (P x)} :
  table_ok name id key rows q → table_ok name id key (only_if b P rows) q.
Proof. destruct b; [apply table_ok_filter; apply _|done]. Qed.

(** A foreign key survives when rows pointing to removed rows are removed. *)
Lemma fk_only_if {R S} (fk : R → Z) (id : S → Z) (rows : list R) (refs : list S) b c
    (P : R → Prop) (Q : S → Prop) `{!∀ x, Decision (P x), !∀ x, Decision (Q x)} :
  (b = true → c = true) →
  (∀ r x, P r → x ∈ refs → id x = fk r → Q x) →
  Forall (λ r, fk r ∈ map id refs) rows →
  Forall (λ r, fk r ∈ map id (only_if b Q refs)) (only_if c P rows).
Proof.
  intros Hbc HPQ. rewrite !Forall_forall. intros Hfk r [Hr HP]%elem_of_only_if.
  specialize (Hfk r Hr). apply list_elem_of_fmap in Hfk as (x & Hx & Hin).
  rewrite Hx. apply list_elem_of_fmap_2, elem_of_only_if. split; [done|]. intros Hb.
  apply (HPQ r x); auto.
Qed.
