(* ===== verification/EthDB.v ===== *)
(** * The eth schema and the CID indexer (pkg/super_node/eth/indexer.go)

    Tables eth.header_cids, eth.uncle_cids, eth.transaction_cids,
    eth.receipt_cids, eth.state_cids, eth.state_accounts, eth.storage_cids and
    public.blocks (db/schema.sql), and the upserts of the indexer. *)

From S2P Require Import Prelude Geth EthModel Sql Blocks.

(** ** Tables *)

Record EthDB : Type := mkEthDB {
  header_cids : list HeaderModel;
  uncle_cids : list UncleModel;
  transaction_cids : list TxModel;
  receipt_cids : list ReceiptModel;
  state_cids : list StateNodeModel;
  state_accounts : list StateAccountModel;
  storage_cids : list StorageNodeModel;
  blocks : gmap string bytes
}.

Definition set_headers (f : list HeaderModel) (d : EthDB) : EthDB :=
  mkEthDB f (uncle_cids d) (transaction_cids d) (receipt_cids d) (state_cids d)
    (state_accounts d) (storage_cids d) (blocks d).
Definition set_uncles (f : list UncleModel) (d : EthDB) : EthDB :=
  mkEthDB (header_cids d) f (transaction_cids d) (receipt_cids d) (state_cids d)
    (state_accounts d) (storage_cids d) (blocks d).
Definition set_transactions (f : list TxModel) (d : EthDB) : EthDB :=
  mkEthDB (header_cids d) (uncle_cids d) f (receipt_cids d) (state_cids d)
    (state_accounts d) (storage_cids d) (blocks d).
Definition set_receipts (f : list ReceiptModel) (d : EthDB) : EthDB :=
  mkEthDB (header_cids d) (uncle_cids d) (transaction_cids d) f (state_cids d)
    (state_accounts d) (storage_cids d) (blocks d).
Definition set_states (f : list StateNodeModel) (d : EthDB) : EthDB :=
  mkEthDB (header_cids d) (uncle_cids d) (transaction_cids d) (receipt_cids d) f
    (state_accounts d) (storage_cids d) (blocks d).
Definition set_accounts (f : list StateAccountModel) (d : EthDB) : EthDB :=
  mkEthDB (header_cids d) (uncle_cids d) (transaction_cids d) (receipt_cids d) (state_cids d)
    f (storage_cids d) (blocks d).
Definition set_storages (f : list StorageNodeModel) (d : EthDB) : EthDB :=
  mkEthDB (header_cids d) (uncle_cids d) (transaction_cids d) (receipt_cids d) (state_cids d)
    (state_accounts d) f (blocks d).
Definition set_blocks (f : gmap string bytes) (d : EthDB) : EthDB :=
  mkEthDB (header_cids d) (uncle_cids d) (transaction_cids d) (receipt_cids d) (state_cids d)
    (state_accounts d) (storage_cids d) f.

Definition EthDB_empty : EthDB := mkEthDB [] [] [] [] [] [] [] ∅.

(** The column [data] of public.blocks. *)
#[export] Instance eth_blocks : BlockTable EthDB := {| blocks_of := blocks; put_blocks := set_blocks |}.
#[export] Instance eth_blocks_laws : BlockTableLaws (T := EthDB).
Proof. by constructor. Qed.

(** ** Rows: the inserted row, the conflict key and the DO UPDATE SET *)

Definition header_row (m : HeaderModel) (nodeID id : Z) : HeaderModel := {|
  h_ID := id; h_BlockNumber := h_BlockNumber m; h_BlockHash := h_BlockHash m;
  h_ParentHash := h_ParentHash m; h_CID := h_CID m; h_TotalDifficulty := h_TotalDifficulty m;
  h_NodeID := nodeID; h_Reward := h_Reward m; h_StateRoot := h_StateRoot m;
  h_UncleRoot := h_UncleRoot m; h_TxRoot := h_TxRoot m; h_RctRoot := h_RctRoot m;
  h_Bloom := h_Bloom m; h_Timestamp := h_Timestamp m; h_TimesValidated := 1 |}.

Definition header_update (m : HeaderModel) (nodeID : Z) (r : HeaderModel) : HeaderModel := {|
  h_ID := h_ID r; h_BlockNumber := h_BlockNumber r; h_BlockHash := h_BlockHash r;
  h_ParentHash := h_ParentHash m; h_CID := h_CID m; h_TotalDifficulty := h_TotalDifficulty m;
  h_NodeID := nodeID; h_Reward := h_Reward m; h_StateRoot := h_StateRoot m;
  h_UncleRoot := h_UncleRoot m; h_TxRoot := h_TxRoot m; h_RctRoot := h_RctRoot m;
  h_Bloom := h_Bloom m; h_Timestamp := h_Timestamp m;
  h_TimesValidated := h_TimesValidated r + 1 |}.

Definition header_key (r : HeaderModel) : Z * string := (h_BlockNumber r, h_BlockHash r).

Definition uncle_row (u : UncleModel) (headerID id : Z) : UncleModel := {|
  u_ID := id; u_HeaderID := headerID; u_BlockHash := u_BlockHash u;
  u_ParentHash := u_ParentHash u; u_CID := u_CID u; u_Reward := u_Reward u |}.
Definition uncle_update (u : UncleModel) (r : UncleModel) : UncleModel :=
  uncle_row {| u_ID := 0; u_HeaderID := 0; u_BlockHash := u_BlockHash r;
               u_ParentHash := u_ParentHash u; u_CID := u_CID u; u_Reward := u_Reward u |}
    (u_HeaderID r) (u_ID r).
Definition uncle_key (r : UncleModel) : Z * string := (u_HeaderID r, u_BlockHash r).

Definition tx_row (t : TxModel) (headerID id : Z) : TxModel := {|
  tx_ID := id; tx_HeaderID := headerID; tx_Index := tx_Index t; tx_TxHash := tx_TxHash t;
  tx_CID := tx_CID t; tx_Dst := tx_Dst t; tx_Src := tx_Src t |}.
Definition tx_update (t : TxModel) (r : TxModel) : TxModel := {|
  tx_ID := tx_ID r; tx_HeaderID := tx_HeaderID r; tx_Index := tx_Index t;
  tx_TxHash := tx_TxHash r; tx_CID := tx_CID t; tx_Dst := tx_Dst t; tx_Src := tx_Src t |}.
Definition tx_key (r : TxModel) : Z * string := (tx_HeaderID r, tx_TxHash r).

(** receipt_cids has one row per transaction: every other column is updated. *)
Definition rct_row (m : ReceiptModel) (txID id : Z) : ReceiptModel := {|
  r_ID := id; r_TxID := txID; r_CID := r_CID m; r_Contract := r_Contract m;
  r_ContractHash := r_ContractHash m; r_LogContracts := r_LogContracts m;
  r_Topic0s := r_Topic0s m; r_Topic1s := r_Topic1s m; r_Topic2s := r_Topic2s m;
  r_Topic3s := r_Topic3s m |}.

Definition state_row (m : StateNodeModel) (stateKey : string) (headerID id : Z)
    : StateNodeModel := {|
  s_ID := id; s_HeaderID := headerID; s_Path := s_Path m; s_StateKey := stateKey;
  s_NodeType := s_NodeType m; s_CID := s_CID m |}.
Definition state_update (m : StateNodeModel) (stateKey : string) (r : StateNodeModel)
    : StateNodeModel := {|
  s_ID := s_ID r; s_HeaderID := s_HeaderID r; s_Path := s_Path r; s_StateKey := stateKey;
  s_NodeType := s_NodeType m; s_CID := s_CID m |}.
Definition state_row_key (r : StateNodeModel) : Z * bytes := (s_HeaderID r, s_Path r).

Definition account_row (a : StateAccountModel) (stateID id : Z) : StateAccountModel := {|
  a_ID := id; a_StateID := stateID; a_Balance := a_Balance a; a_Nonce := a_Nonce a;
  a_CodeHash := a_CodeHash a; a_StorageRoot := a_StorageRoot a |}.

Definition storage_row (m : StorageNodeModel) (storageKey : string) (stateID id : Z)
    : StorageNodeModel := {|
  st_ID := id; st_StateID := stateID; st_Path := st_Path m; st_StorageKey := storageKey;
  st_NodeType := st_NodeType m; st_CID := st_CID m |}.
Definition storage_row_key (r : StorageNodeModel) : Z * bytes := (st_StateID r, st_Path r).

(** ** The upserts *)

Section Indexer.
Context `{GethCommon}.

(** nullHash.String() *)
Definition nullHash : string := Hash_String (HexToHash
  "0x0000000000000000000000000000000000000000000000000000000000000000").

(** [if key != nullHash.String() { stateKey = key }] *)
Definition non_null (key : string) : string := if bool_decide (key = nullHash) then "" else key.

Definition indexHeaderCID (nodeID : Z) (header : HeaderModel) : DB EthDB Z :=
  exec (λ d q,
    let '(id, rows, q) := upsert_rows "eth.header_cids"
      (λ r, bool_decide (header_key r = header_key header))
      (header_row header nodeID) (header_update header nodeID) h_ID (header_cids d) q in
    (id, set_headers rows d, q)).

Definition indexUncleCID (uncle : UncleModel) (headerID : Z) : DB EthDB unit :=
  exec (λ d q,
    let '(_, rows, q) := upsert_rows "eth.uncle_cids"
      (λ r, bool_decide (uncle_key r = (headerID, u_BlockHash uncle)))
      (uncle_row uncle headerID) (uncle_update uncle) u_ID (uncle_cids d) q in
    (tt, set_uncles rows d, q)).

Definition indexTransactionCID (transaction : TxModel) (headerID : Z) : DB EthDB Z :=
  exec (λ d q,
    let '(id, rows, q) := upsert_rows "eth.transaction_cids"
      (λ r, bool_decide (tx_key r = (headerID, tx_TxHash transaction)))
      (tx_row transaction headerID) (tx_update transaction) tx_ID (transaction_cids d) q in
    (id, set_transactions rows d, q)).

Definition indexReceiptCID (cidMeta : ReceiptModel) (txID : Z) : DB EthDB unit :=
  exec (λ d q,
    let '(_, rows, q) := upsert_rows "eth.receipt_cids"
      (λ r, bool_decide (r_TxID r = txID))
      (rct_row cidMeta txID) (λ r, rct_row cidMeta (r_TxID r) (r_ID r)) r_ID (receipt_cids d) q in
    (tt, set_receipts rows d, q)).

Definition indexStateCID (stateNode : StateNodeModel) (headerID : Z) : DB EthDB Z :=
  let stateKey := non_null (s_StateKey stateNode) in
  exec (λ d q,
    let '(id, rows, q) := upsert_rows "eth.state_cids"
      (λ r, bool_decide (state_row_key r = (headerID, s_Path stateNode)))
      (state_row stateNode stateKey headerID) (state_update stateNode stateKey) s_ID
      (state_cids d) q in
    (id, set_states rows d, q)).

Definition indexStateAccount (stateAccount : StateAccountModel) (stateID : Z) : DB EthDB unit :=
  exec (λ d q,
    let '(_, rows, q) := upsert_rows "eth.state_accounts"
      (λ r, bool_decide (a_StateID r = stateID))
      (account_row stateAccount stateID)
      (λ r, account_row stateAccount (a_StateID r) (a_ID r)) a_ID (state_accounts d) q in
    (tt, set_accounts rows d, q)).

Definition indexStorageCID (storageCID : StorageNodeModel) (stateID : Z) : DB EthDB unit :=
  let storageKey := non_null (st_StorageKey storageCID) in
  exec (λ d q,
    let '(_, rows, q) := upsert_rows "eth.storage_cids"
      (λ r, bool_decide (storage_row_key r = (stateID, st_Path storageCID)))
      (storage_row storageCID storageKey stateID)
      (λ r, storage_row storageCID storageKey (st_StateID r) (st_ID r)) st_ID
      (storage_cids d) q in
    (tt, set_storages rows d, q)).

(** ** The indexing loops *)

Definition indexTransactionAndReceiptCIDs (payload : CIDPayload) (headerID : Z) : DB EthDB unit :=
  db_for (λ trxCidMeta,
    txID <-- indexTransactionCID trxCidMeta headerID ;;
    match c_ReceiptCIDs payload !! HexToHash (tx_TxHash trxCidMeta) with
    | Some receiptCidMeta => indexReceiptCID receiptCidMeta txID
    | None => db_ret tt
    end) (c_TransactionCIDs payload).

Definition indexStateAndStorageCIDs (payload : CIDPayload) (headerID : Z) : DB EthDB unit :=
  db_for (λ stateCID,
    stateID <-- indexStateCID stateCID headerID ;;
    if s_NodeType stateCID =? 2 then
      let statePath := Bytes2Hex (s_Path stateCID) in
      db_for (λ storageCID, indexStorageCID storageCID stateID)
        (default [] (c_StorageNodeCIDs payload !! statePath)) ;;;
      match c_StateAccounts payload !! statePath with
      | Some stateAccount => indexStateAccount stateAccount stateID
      | None => db_ret tt
      end
    else db_ret tt) (c_StateNodeCIDs payload).

(** The body of [Index] between Beginx and the deferred commit. *)
Definition Index_body (nodeID : Z) (cidPayload : CIDPayload) : DB EthDB unit :=
  headerID <-- indexHeaderCID nodeID (c_HeaderCID cidPayload) ;;
  db_for (λ uncle, shadow (indexUncleCID uncle headerID)) (c_UncleCIDs cidPayload) ;;;
  shadow (indexTransactionAndReceiptCIDs cidPayload headerID) ;;;
  indexStateAndStorageCIDs cidPayload headerID.

Definition Index (nodeID : Z) (cidPayload : CIDPayload) : DB EthDB unit :=
  transact_deferred (Index_body nodeID cidPayload).

(** ** Lemmas *)

Lemma indexTransactionAndReceipt_fail_aborts p h :
  fail_aborts (indexTransactionAndReceiptCIDs p h).
Proof.
  apply for_fail_aborts. intros t. apply bind_fail_aborts; [apply exec_fail_aborts|].
  intros id. case_match; [apply exec_fail_aborts|apply ret_fail_aborts].
Qed.

Lemma indexStateAndStorage_fail_aborts p h :
  fail_aborts (indexStateAndStorageCIDs p h).
Proof.
  apply for_fail_aborts. intros t. apply bind_fail_aborts; [apply exec_fail_aborts|].
  intros id. case_match; [|apply ret_fail_aborts].
  apply bind_fail_aborts; [apply for_fail_aborts; intros; apply exec_fail_aborts|].
  intros _. case_match; [apply exec_fail_aborts|apply ret_fail_aborts].
Qed.

Lemma Index_body_shadow_aborts nodeID p : shadow_aborts (Index_body nodeID p).
Proof.
  unfold Index_body.
  apply bind_shadow_aborts; [apply fail_shadow_aborts, exec_fail_aborts|]. intros id.
  apply bind_shadow_aborts.
  { apply for_shadow_aborts. intros u. apply shadow_shadow_aborts, exec_fail_aborts. }
  intros _. apply bind_shadow_aborts.
  { apply shadow_shadow_aborts, indexTransactionAndReceipt_fail_aborts. }
  intros _. apply fail_shadow_aborts, indexStateAndStorage_fail_aborts.
Qed.

(** ** Well-formed databases

    Primary keys and unique keys are unique, ids are below their sequence, and
    foreign keys point to rows: the constraints of db/schema.sql. *)

Record wf (d : EthDB) (q : gmap string Z) : Prop := {
  wf_headers : table_ok "eth.header_cids" h_ID header_key (header_cids d) q;
  wf_uncles : table_ok "eth.uncle_cids" u_ID uncle_key (uncle_cids d) q;
  wf_txs : table_ok "eth.transaction_cids" tx_ID tx_key (transaction_cids d) q;
  wf_rcts : table_ok "eth.receipt_cids" r_ID r_TxID (receipt_cids d) q;
  wf_states : table_ok "eth.state_cids" s_ID state_row_key (state_cids d) q;
  wf_accounts : table_ok "eth.state_accounts" a_ID a_StateID (state_accounts d) q;
  wf_storages : table_ok "eth.storage_cids" st_ID storage_row_key (storage_cids d) q;
  fk_uncles : Forall (λ u, u_HeaderID u ∈ map h_ID (header_cids d)) (uncle_cids d);
  fk_txs : Forall (λ t, tx_HeaderID t ∈ map h_ID (header_cids d)) (transaction_cids d);
  fk_rcts : Forall (λ r, r_TxID r ∈ map tx_ID (transaction_cids d)) (receipt_cids d);
  fk_states : Forall (λ x, s_HeaderID x ∈ map h_ID (header_cids d)) (state_cids d);
  fk_accounts : Forall (λ a, a_StateID a ∈ map s_ID (state_cids d)) (state_accounts d);
  fk_storages : Forall (λ x, st_StateID x ∈ map s_ID (state_cids d)) (storage_cids d)
}.

Definition has_header (hid : Z) (d : EthDB) : Prop := hid ∈ map h_ID (header_cids d).
Definition has_tx (id : Z) (d : EthDB) : Prop := id ∈ map tx_ID (transaction_cids d).
Definition has_state (id : Z) (d : EthDB) : Prop := id ∈ map s_ID (state_cids d).

Lemma wf_empty : wf EthDB_empty ∅.
Proof. split; unfold table_ok; simpl; repeat split; constructor. Qed.

Lemma wf_seq_closed : seq_closed wf.
Proof. intros d q q' Hq [??????? ??????]. split; eauto using table_ok_seq. Qed.

#[local] Ltac upsert key k P := upsert_ensures wf key k P
  ltac:(unfold uncle_key, tx_key, state_row_key, storage_row_key in *).

Section Steps.
Variable hid : Z.

Lemma indexHeaderCID_ensures nodeID h :
  ensures wf (indexHeaderCID nodeID h) (λ id d q, wf d q ∧ has_header id d).
Proof. upsert header_key (header_key h) (λ (_ : EthDB) (_ : HeaderModel), True). Qed.

Lemma indexUncleCID_ensures u :
  ensures (λ d q, wf d q ∧ has_header hid d) (indexUncleCID u hid)
    (λ _ d q, wf d q ∧ has_header hid d).
Proof. upsert uncle_key (hid, u_BlockHash u) (λ d r, has_header (u_HeaderID r) d). Qed.

Lemma indexTransactionCID_ensures t :
  ensures (λ d q, wf d q ∧ has_header hid d) (indexTransactionCID t hid)
    (λ id d q, (wf d q ∧ has_header hid d) ∧ has_tx id d).
Proof. upsert tx_key (hid, tx_TxHash t) (λ d r, has_header (tx_HeaderID r) d). Qed.

Lemma indexReceiptCID_ensures r txID :
  ensures (λ d q, (wf d q ∧ has_header hid d) ∧ has_tx txID d) (indexReceiptCID r txID)
    (λ _ d q, wf d q ∧ has_header hid d).
Proof. upsert r_TxID txID (λ d r, has_tx (r_TxID r) d). Qed.

Lemma indexStateCID_ensures st :
  ensures (λ d q, wf d q ∧ has_header hid d) (indexStateCID st hid)
    (λ id d q, (wf d q ∧ has_header hid d) ∧ has_state id d).
Proof. upsert state_row_key (hid, s_Path st) (λ d r, has_header (s_HeaderID r) d). Qed.

Lemma indexStateAccount_ensures a sid :
  ensures (λ d q, (wf d q ∧ has_header hid d) ∧ has_state sid d) (indexStateAccount a sid)
    (λ _ d q, (wf d q ∧ has_header hid d) ∧ has_state sid d).
Proof. upsert a_StateID sid (λ d r, has_state (a_StateID r) d). Qed.

Lemma indexStorageCID_ensures st sid :
  ensures (λ d q, (wf d q ∧ has_header hid d) ∧ has_state sid d) (indexStorageCID st sid)
    (λ _ d q, (wf d q ∧ has_header hid d) ∧ has_state sid d).
Proof. upsert storage_row_key (sid, st_Path st) (λ d r, has_state (st_StateID r) d). Qed.

Lemma indexTransactionAndReceiptCIDs_ensures p :
  ensures (λ d q, wf d q ∧ has_header hid d) (indexTransactionAndReceiptCIDs p hid)
    (λ _ d q, wf d q ∧ has_header hid d).
Proof.
  apply for_ensures. intros t. eapply bind_ensures; [apply indexTransactionCID_ensures|].
  intros id. simpl. case_match; [apply indexReceiptCID_ensures|].
  apply ret_ensures_weaken. naive_solver.
Qed.

Lemma indexStateAndStorageCIDs_ensures p :
  ensures (λ d q, wf d q ∧ has_header hid d) (indexStateAndStorageCIDs p hid)
    (λ _ d q, wf d q ∧ has_header hid d).
Proof.
  apply for_ensures. intros st. eapply bind_ensures; [apply indexStateCID_ensures|].
  intros id. simpl. case_match.
  - eapply bind_ensures; [apply for_ensures; intros sc; apply indexStorageCID_ensures|].
    intros []. case_match.
    + eapply ensures_weaken; [|intros ? ? ?|apply indexStateAccount_ensures]; naive_solver.
    + apply ret_ensures_weaken. naive_solver.
  - apply ret_ensures_weaken. naive_solver.
Qed.

End Steps.

Lemma Index_body_ensures nodeID p : ensures wf (Index_body nodeID p) (λ _, wf).
Proof.
  eapply bind_ensures; [apply indexHeaderCID_ensures|]. intros hid.
  eapply bind_ensures.
  { apply for_ensures. intros u. apply shadow_ensures, indexUncleCID_ensures. }
  intros []. eapply bind_ensures.
  { apply shadow_ensures, indexTransactionAndReceiptCIDs_ensures. }
  intros []. eapply ensures_weaken; [| |apply indexStateAndStorageCIDs_ensures]; naive_solver.
Qed.

(** Sequences grow: every statement is an upsert. *)

Lemma indexHeaderCID_grows nodeID h : grows (indexHeaderCID nodeID h).
Proof. upsert_grows. Qed.
Lemma indexUncleCID_grows u hid : grows (indexUncleCID u hid).
Proof. upsert_grows. Qed.
Lemma indexTransactionCID_grows t hid : grows (indexTransactionCID t hid).
Proof. upsert_grows. Qed.
Lemma indexReceiptCID_grows r txID : grows (indexReceiptCID r txID).
Proof. upsert_grows. Qed.
Lemma indexStateCID_grows st hid : grows (indexStateCID st hid).
Proof. upsert_grows. Qed.
Lemma indexStateAccount_grows a sid : grows (indexStateAccount a sid).
Proof. upsert_grows. Qed.
Lemma indexStorageCID_grows st sid : grows (indexStorageCID st sid).
Proof. upsert_grows. Qed.

Lemma Index_body_grows nodeID p : grows (Index_body nodeID p).
Proof.
  apply grows_bind; [apply indexHeaderCID_grows|]. intros hid.
  apply grows_bind; [apply grows_for; intros u; apply grows_shadow, indexUncleCID_grows|].
  intros []. apply grows_bind.
  { apply grows_shadow, grows_for. intros t. apply grows_bind; [apply indexTransactionCID_grows|].
    intros id. case_match; [apply indexReceiptCID_grows|apply grows_ret]. }
  intros []. apply grows_for. intros st. apply grows_bind; [apply indexStateCID_grows|].
  intros id. case_match; [|apply grows_ret].
  apply grows_bind; [apply grows_for; intros sc; apply indexStorageCID_grows|].
  intros []. case_match; [apply indexStateAccount_grows|apply grows_ret].
Qed.

(** ** The header table under [Index] *)

(** How often the header with this key was validated (0: not present). *)
Definition validated (d : EthDB) (k : Z * string) : Z :=
  match list_find (λ h, header_key h = k) (header_cids d) with
  | Some (_, h) => h_TimesValidated h
  | None => 0
  end.

Definition headers_are (hs : list HeaderModel) : state_pred EthDB := λ d _, header_cids d = hs.

Lemma headers_frame {A} (m : DB EthDB A) (F : list HeaderModel → Prop) :
  (∀ hs, ensures (headers_are hs) m (λ _, headers_are hs)) →
  ensures (λ d _, F (header_cids d)) m (λ _ d _, F (header_cids d)).
Proof.
  intros Hm o s Hs. specialize (Hm (header_cids (tables s)) o s eq_refl).
  destruct (m o s) as [[a|? ?|?] s']; [|done..]. unfold headers_are in Hm. by rewrite Hm.
Qed.

#[local] Ltac keeps_headers := upsert_keeps ltac:(unfold headers_are).

Lemma indexUncleCID_headers u hid hs :
  ensures (headers_are hs) (indexUncleCID u hid) (λ _, headers_are hs).
Proof. keeps_headers. Qed.
Lemma indexTransactionCID_headers t hid hs :
  ensures (headers_are hs) (indexTransactionCID t hid) (λ _, headers_are hs).
Proof. keeps_headers. Qed.
Lemma indexReceiptCID_headers r id hs :
  ensures (headers_are hs) (indexReceiptCID r id) (λ _, headers_are hs).
Proof. keeps_headers. Qed.
Lemma indexStateCID_headers st hid hs :
  ensures (headers_are hs) (indexStateCID st hid) (λ _, headers_are hs).
Proof. keeps_headers. Qed.
Lemma indexStateAccount_headers a sid hs :
  ensures (headers_are hs) (indexStateAccount a sid) (λ _, headers_are hs).
Proof. keeps_headers. Qed.
Lemma indexStorageCID_headers st sid hs :
  ensures (headers_are hs) (indexStorageCID st sid) (λ _, headers_are hs).
Proof. keeps_headers. Qed.

Lemma Index_body_rest_headers p hid hs :
  ensures (headers_are hs)
    (db_for (λ uncle, shadow (indexUncleCID uncle hid)) (c_UncleCIDs p) ;;;
     shadow (indexTransactionAndReceiptCIDs p hid) ;;;
     indexStateAndStorageCIDs p hid)
    (λ _, headers_are hs).
Proof.
  eapply bind_ensures; [apply for_ensures; intros u; apply shadow_ensures, indexUncleCID_headers|].
  intros []. eapply bind_ensures.
  { apply shadow_ensures, for_ensures. intros t.
    eapply bind_ensures; [apply indexTransactionCID_headers|].
    intros id. simpl. case_match; [apply indexReceiptCID_headers|apply ret_ensures]. }
  intros []. apply for_ensures. intros st.
  eapply bind_ensures; [apply indexStateCID_headers|]. intros id. simpl.
  case_match; [|apply ret_ensures].
  eapply bind_ensures; [apply for_ensures; intros sc; apply indexStorageCID_headers|].
  intros []. case_match; [apply indexStateAccount_headers|apply ret_ensures].
Qed.

(** The header upsert adds one validation to its key. *)
Lemma indexHeaderCID_validated nodeID h d0 :
  ensures (λ d _, d = d0) (indexHeaderCID nodeID h)
    (λ _ d _, ∀ k, validated d k = validated d0 k + if decide (k = header_key h) then 1 else 0).
Proof.
  apply exec_ensures. intros d q ->. unfold upsert_rows.
  destruct (nextval _ q) as [id q'].
  destruct (list_find _ (header_cids d0)) as [[i r]|] eqn:E; simpl; intros k; unfold validated; simpl.
  - apply list_find_Some in E as (Hl & Hk & _). apply bool_decide_unpack in Hk.
    assert (Hmap : ∀ hs, list_find (λ x, header_key x = k)
        (map (λ x, if bool_decide (header_key x = header_key h) then header_update h nodeID x else x) hs)
      = (λ p, (p.1, if bool_decide (header_key p.2 = header_key h)
                    then header_update h nodeID p.2 else p.2)) <$> list_find (λ x, header_key x = k) hs).
    { induction hs as [|x hs IH]; simpl; [done|].
      assert (Hx : header_key (if bool_decide (header_key x = header_key h)
        then header_update h nodeID x else x) = header_key x) by by case_bool_decide.
      rewrite Hx, IH. destruct (decide (header_key x = k)); [done|].
      by destruct (list_find _ hs) as [[]|]. }
    rewrite Hmap. destruct (list_find _ (header_cids d0)) as [[j x]|] eqn:Ef; simpl.
    + apply list_find_Some in Ef as (_ & Hx & _). rewrite Hx.
      case_bool_decide; case_decide; simpl; (lia || congruence).
    + apply list_find_None in Ef. case_decide; [|lia]. subst. exfalso.
      rewrite Forall_forall in Ef. apply (Ef r); [by eapply list_elem_of_lookup_2|done].
  - apply list_find_None in E. rewrite Forall_forall in E.
    destruct (list_find (λ x, header_key x = k) (header_cids d0)) as [[j x]|] eqn:Ef.
    + rewrite (list_find_app_l _ _ _ j x) by done. apply list_find_Some in Ef as (Hl & Hx & _).
      case_decide; [|lia]. subst. exfalso.
      apply (E x); [by eapply list_elem_of_lookup_2|]. apply bool_decide_pack. congruence.
    + rewrite list_find_app_r by done. simpl.
      change (header_key (header_row h nodeID id)) with (header_key h).
      repeat case_decide; simpl; try done; congruence.
Qed.

(** ** Properties *)

(** A successful [Index] counts one more validation for the payload's
    header and leaves every other header's count alone; or -- because the
    error of the deferred COMMIT is lost -- it changed nothing at all. *)
Theorem Index_validates nodeID p o s :
  let '(r, s') := Index nodeID p o s in
  is_DOk r = true →
  tables s' = tables s ∨
  ∀ k, validated (tables s') k =
       validated (tables s) k + if decide (k = header_key (c_HeaderCID p)) then 1 else 0.
Proof.
  destruct (Index nodeID p o s) as [r s'] eqn:E. intros Hr. destruct r as [[]| |]; try done.
  apply transact_deferred_ok in E as (s1 & s2 & Hb & Hbody & [Ht|Ht]); [|by left].
  right. assert (H1 : tables s1 = tables s) by (rewrite <- (begin_tables o s); by rewrite Hb).
  assert (Hens : ensures (λ d _, d = tables s) (Index_body nodeID p) (λ _ d _, ∀ k, validated d k =
    validated (tables s) k + if decide (k = header_key (c_HeaderCID p)) then 1 else 0)).
  { eapply bind_ensures; [apply indexHeaderCID_validated|]. intros hid.
    apply (headers_frame _ (λ hs, ∀ k, match list_find (λ h, header_key h = k) hs with
      | Some (_, h) => h_TimesValidated h | None => 0 end = _)).
    apply Index_body_rest_headers. }
  specialize (Hens o s1 H1). rewrite Hbody in Hens. by rewrite Ht.
Qed.

(** When the server refuses the COMMIT, [Index] still reports success
    although no table changed. *)
Theorem Index_commit_error_lost nodeID p o s s1 s2 e :
  begin_ o s = (DOk tt, s1) → Index_body nodeID p o s1 = (DOk tt, s2) →
  aborted s2 = false → o (clock s2) = Some e →
  let '(r, s') := Index nodeID p o s in r = DOk tt ∧ tables s' = tables s.
Proof.
  intros Hb Hbody Ha Ho. unfold Index, transact_deferred. rewrite Hb, Hbody.
  unfold commit. by rewrite Ha, Ho.
Qed.

(** Indexing a payload keeps the eth schema well-formed -- unique ids and
    keys, ids below their sequences, every foreign key pointing to a row --
    whichever statements the server rejects, and a call that returns an error
    leaves every table as it was. *)
Theorem Index_safe nodeID p o s :
  wf (tables s) (seqs s) →
  let '(r, s') := Index nodeID p o s in
  wf (tables s') (seqs s') ∧ (is_DOk r = false → tables s' = tables s).
Proof.
  intros Hwf. destruct (Index nodeID p o s) as [r s'] eqn:E. split.
  - assert (H' := transact_deferred_invariant wf (Index_body nodeID p) o s wf_seq_closed
      (Index_body_grows nodeID p) (Index_body_shadow_aborts nodeID p)
      (Index_body_ensures nodeID p) Hwf).
    change (transact_deferred (Index_body nodeID p) o s) with (Index nodeID p o s) in H'.
    by rewrite E in H'.
  - intros Hr. by eapply transact_deferred_atomic; [apply Index_body_shadow_aborts|apply E|].
Qed.

End Indexer.

(** ** Witnesses *)

Section Witnesses.
#[local] Existing Instance Concrete.geth.

Definition ex_header (n : Z) : HeaderModel := {|
  h_ID := 0; h_BlockNumber := n; h_BlockHash := "0xabc"; h_ParentHash := "0xdef"; h_CID := "cid";
  h_TotalDifficulty := "1"; h_NodeID := 0; h_Reward := 0; h_StateRoot := ""; h_UncleRoot := "";
  h_TxRoot := ""; h_RctRoot := ""; h_Bloom := []; h_Timestamp := 0; h_TimesValidated := 0 |}.

Definition ex_payload : CIDPayload := {|
  c_HeaderCID := ex_header 5;
  c_UncleCIDs := [];
  c_TransactionCIDs := [{| tx_ID := 0; tx_HeaderID := 0; tx_Index := 0; tx_TxHash := "x";
                           tx_CID := "t"; tx_Dst := "d"; tx_Src := "s" |}];
  c_ReceiptCIDs := ∅; c_StateNodeCIDs := []; c_StateAccounts := ∅; c_StorageNodeCIDs := ∅ |}.

Definition ex_session : session EthDB := mkSession EthDB_empty ∅ false 0%nat.

(** The oracle that refuses the third statement. *)
Definition refuse (n : nat) : oracle := λ i, if decide (i = n) then Some (Driver "refused") else None.

Lemma Index_safe_witness :
  wf (tables ex_session) (seqs ex_session) ∧
  let '(r, s') := Index 1 ex_payload (refuse 2) ex_session in
  wf (tables s') (seqs s') ∧ (is_DOk r = false → tables s' = tables ex_session).
Proof. split; [apply wf_empty|]. apply Index_safe. apply wf_empty. Defined.

(** BEGIN, the header and the transaction are statements 0 to 2; the COMMIT
    is statement 3. *)
Lemma Index_commit_error_lost_witness :
  let o := refuse 3 in
  let s1 := (begin_ o ex_session).2 in
  let s2 := (Index_body 1 ex_payload o s1).2 in
  (begin_ o ex_session = (DOk tt, s1) ∧ Index_body 1 ex_payload o s1 = (DOk tt, s2) ∧
   aborted s2 = false ∧ o (clock s2) = Some (Driver "refused")) ∧
  let '(r, s') := Index 1 ex_payload o ex_session in
  r = DOk tt ∧ tables s' = tables ex_session.
Proof.
  intros o s1 s2. split; [split_and!; vm_compute; reflexivity|].
  apply (Index_commit_error_lost 1 ex_payload o ex_session s1 s2 (Driver "refused"));
    vm_compute; reflexivity.
Defined.

Lemma Index_validates_witness :
  let '(r, s') := Index 1 ex_payload no_faults ex_session in
  is_DOk r = true ∧
  (is_DOk r = true →
   tables s' = tables ex_session ∨
   ∀ k, validated (tables s') k =
        validated (tables ex_session) k + if decide (k = header_key (c_HeaderCID ex_payload)) then 1 else 0).
Proof.
  pose proof (Index_validates 1 ex_payload no_faults ex_session) as H.
  destruct (Index 1 ex_payload no_faults ex_session) as [r s'] eqn:E.
  split; [|exact H]. vm_compute in E. by injection E as <- <-.
Defined.

End Witnesses.
