(* ===== verification/EthPublisher.v ===== *)
(** * Publishing and indexing a block in one transaction
    (pkg/super_node/eth/publish_and_indexer.go, shared/functions.go)

    [Publish] writes the block's IPLDs into public.blocks and their CIDs into
    the eth tables, inside a single deferred-commit transaction. *)

From S2P Require Import Prelude GoInt Geth EthModel Sql Blocks EthIpld EthDB Rewards.

(** Parameters: RLP decoding of a state leaf (go-ethereum rlp, core/state).
    An element of the leaf is its bytes, or [None] when it is itself a list. *)
Record Account : Type := {
  acc_Balance : Z;
  acc_Nonce : Z;
  acc_CodeHash : bytes;
  acc_Root : bytes
}.

Class StateRlp := {
  rlp_items : bytes → result (list (option bytes));
  rlp_account : bytes → result Account
}.

Section Publisher.
Context `{GethCommon} `{CidLib} `{TrieLib} `{StateRlp}.

(** ** State and storage *)

(** The account of a state leaf node. *)
Definition leaf_account (value : bytes) : result StateAccountModel :=
  i <-! rlp_items value ;;
  match i with
  | [_; Some b] =>
      account <-! rlp_account b ;;
      Ok {| a_ID := 0; a_StateID := 0; a_Balance := acc_Balance account;
            a_Nonce := acc_Nonce account; a_CodeHash := acc_CodeHash account;
            a_StorageRoot := Hash_String (acc_Root account) |}
  | [_; None] => Panic "interface conversion: interface {} is []interface {}, not []uint8"
  | _ => Err (Errorf
      "eth IPLDPublisherAndIndexer expected state leaf node rlp to decode into two elements")
  end.

Definition state_model (stateNode : TrieNode) (stateCIDStr : string) : StateNodeModel := {|
  s_ID := 0; s_HeaderID := 0; s_Path := n_Path stateNode;
  s_StateKey := Hash_String (n_LeafKey stateNode);
  s_NodeType := ResolveFromNodeType (n_Type stateNode); s_CID := stateCIDStr |}.

Definition storage_model (storageNode : TrieNode) (storageCIDStr : string) : StorageNodeModel := {|
  st_ID := 0; st_StateID := 0; st_Path := n_Path storageNode;
  st_StorageKey := Hash_String (n_LeafKey storageNode);
  st_NodeType := ResolveFromNodeType (n_Type storageNode); st_CID := storageCIDStr |}.

Definition publishAndIndexStateAndStorage (ipldPayload : ConvertedPayload) (headerID : Z)
    : DB EthDB unit :=
  db_for (λ stateNode,
    stateCIDStr <-- PublishRaw MEthStateTrie KECCAK_256 (n_Value stateNode) ;;
    stateID <-- indexStateCID (state_model stateNode stateCIDStr) headerID ;;
    if bool_decide (n_Type stateNode = Leaf) then
      accountModel <-- db_lift (leaf_account (n_Value stateNode)) ;;
      indexStateAccount accountModel stateID ;;;
      db_for (λ storageNode,
        storageCIDStr <-- PublishRaw MEthStorageTrie KECCAK_256 (n_Value storageNode) ;;
        indexStorageCID (storage_model storageNode storageCIDStr) stateID)
        (default [] (p_StorageNodes ipldPayload !! Bytes2Hex (n_Path stateNode)))
    else db_ret tt) (p_StateNodes ipldPayload).

(** ** Publish *)

Definition header_model (ipldPayload : ConvertedPayload) (cid : string) (reward : Z)
    : HeaderModel :=
  let block := p_Block ipldPayload in {|
  h_ID := 0; h_NodeID := 0; h_TimesValidated := 0;
  h_CID := cid;
  h_ParentHash := Hash_String (header_ParentHash (block_Header block));
  h_BlockNumber := block_Number block;
  h_BlockHash := Hash_String (header_Hash (block_Header block));
  h_TotalDifficulty := pretty (p_TotalDifficulty ipldPayload);
  h_Reward := reward;
  h_Bloom := block_Bloom block;
  h_StateRoot := Hash_String (block_Root block);
  h_RctRoot := Hash_String (block_ReceiptHash block);
  h_TxRoot := Hash_String (block_TxHash block);
  h_UncleRoot := Hash_String (block_UncleHash block);
  h_Timestamp := block_Time block |}.

Definition uncle_model (ipldPayload : ConvertedPayload) (uncle : Header) (uncleNode : Node)
    : UncleModel := {|
  u_ID := 0; u_HeaderID := 0;
  u_CID := Cid uncleNode;
  u_ParentHash := Hash_String (header_ParentHash uncle);
  u_BlockHash := Hash_String (header_Hash uncle);
  u_Reward := CalcUncleMinerReward (i64 (block_Number (p_Block ipldPayload)))
                (i64 (header_Number uncle)) |}.

Definition with_tx_CID (t : TxModel) (cid : string) : TxModel := {|
  tx_ID := tx_ID t; tx_HeaderID := tx_HeaderID t; tx_Index := tx_Index t;
  tx_TxHash := tx_TxHash t; tx_CID := cid; tx_Dst := tx_Dst t; tx_Src := tx_Src t |}.

Definition with_rct_CID (r : ReceiptModel) (cid : string) : ReceiptModel := {|
  r_ID := r_ID r; r_TxID := r_TxID r; r_CID := cid; r_Contract := r_Contract r;
  r_ContractHash := r_ContractHash r; r_LogContracts := r_LogContracts r;
  r_Topic0s := r_Topic0s r; r_Topic1s := r_Topic1s r; r_Topic2s := r_Topic2s r;
  r_Topic3s := r_Topic3s r |}.

(** [for i, txNode := range txNodes]: all errors are held in inner variables. *)
Fixpoint publish_txs (i : nat) (ipldPayload : ConvertedPayload) (rctNodes_ : list Node)
    (headerID : Z) (txNodes_ : list Node) : DB EthDB unit :=
  match txNodes_ with
  | [] => db_ret tt
  | txNode :: txNodes_ =>
      shadow (PublishIPLD txNode) ;;;
      rctNode <-- index_ rctNodes_ i ;;
      shadow (PublishIPLD rctNode) ;;;
      txModel <-- index_ (p_TxMetaData ipldPayload) i ;;
      txID <-- shadow (indexTransactionCID (with_tx_CID txModel (Cid txNode)) headerID) ;;
      rctModel <-- index_ (p_ReceiptMetaData ipldPayload) i ;;
      shadow (indexReceiptCID (with_rct_CID rctModel (Cid rctNode)) txID) ;;;
      publish_txs (S i) ipldPayload rctNodes_ headerID txNodes_
  end.

Definition Publish_body (nodeID : Z) (ipldPayload : ConvertedPayload) (ns : BlockNodes)
    : DB EthDB unit :=
  db_for (λ node, shadow (PublishIPLD node)) (txTrieNodes ns) ;;;
  db_for (λ node, shadow (PublishIPLD node)) (rctTrieNodes ns) ;;;
  shadow (PublishIPLD (headerNode ns)) ;;;
  reward <-- db_lift (CalcEthBlockReward (block_Header (p_Block ipldPayload))
    (block_Uncles (p_Block ipldPayload)) (block_Transactions (p_Block ipldPayload))
    (p_Receipts ipldPayload)) ;;
  headerID <-- indexHeaderCID nodeID (header_model ipldPayload (Cid (headerNode ns)) reward) ;;
  db_for (λ un,
    shadow (PublishIPLD un.2) ;;;
    shadow (indexUncleCID (uncle_model ipldPayload un.1 un.2) headerID))
    (zip (block_Uncles (p_Block ipldPayload)) (uncleNodes ns)) ;;;
  publish_txs 0 ipldPayload (rctNodes ns) headerID (txNodes ns) ;;;
  publishAndIndexStateAndStorage ipldPayload headerID.

Definition Publish (nodeID : Z) (ipldPayload : ConvertedPayload) : DB EthDB unit :=
  ns <-- db_lift (FromBlockAndReceipts (p_Block ipldPayload) (p_Receipts ipldPayload)) ;;
  transact_deferred (Publish_body nodeID ipldPayload ns).

(** ** Lemmas *)

Lemma publishState_shadow_aborts p h : shadow_aborts (publishAndIndexStateAndStorage p h).
Proof.
  apply for_shadow_aborts. intros sn.
  apply bind_shadow_aborts; [apply PublishRaw_shadow_aborts|]. intros c.
  apply bind_shadow_aborts; [apply fail_shadow_aborts, exec_fail_aborts|]. intros id.
  case_match; [|apply ret_shadow_aborts].
  apply bind_shadow_aborts; [apply lift_shadow_aborts|]. intros a.
  apply bind_shadow_aborts; [apply fail_shadow_aborts, exec_fail_aborts|]. intros _.
  apply for_shadow_aborts. intros stn.
  apply bind_shadow_aborts; [apply PublishRaw_shadow_aborts|]. intros sc.
  apply fail_shadow_aborts, exec_fail_aborts.
Qed.

Lemma publish_txs_shadow_aborts p rs h ts : ∀ i, shadow_aborts (publish_txs i p rs h ts).
Proof.
  induction ts as [|t ts IH]; intros i; simpl; [apply ret_shadow_aborts|].
  repeat (apply bind_shadow_aborts;
    [first [apply shadow_shadow_aborts, exec_fail_aborts|apply lift_shadow_aborts]|intros ?]).
  apply IH.
Qed.

Lemma Publish_body_shadow_aborts nodeID p ns : shadow_aborts (Publish_body nodeID p ns).
Proof.
  unfold Publish_body.
  do 2 (apply bind_shadow_aborts;
    [apply for_shadow_aborts; intros n; apply shadow_shadow_aborts, PublishIPLD_fail_aborts|
     intros _]).
  apply bind_shadow_aborts; [apply shadow_shadow_aborts, PublishIPLD_fail_aborts|intros _].
  apply bind_shadow_aborts; [apply lift_shadow_aborts|intros rw].
  apply bind_shadow_aborts; [apply fail_shadow_aborts, exec_fail_aborts|intros id].
  apply bind_shadow_aborts.
  { apply for_shadow_aborts. intros un.
    apply bind_shadow_aborts; [apply shadow_shadow_aborts, PublishIPLD_fail_aborts|intros _].
    apply shadow_shadow_aborts, exec_fail_aborts. }
  intros _. apply bind_shadow_aborts; [apply publish_txs_shadow_aborts|intros _].
  apply publishState_shadow_aborts.
Qed.

(** ** The schema invariant *)

Lemma set_blocks_wf f d q : wf d q → wf (set_blocks f d) q.
Proof. by intros [??????? ??????]; split. Qed.

Lemma insert_block_ensures k raw hid :
  ensures (λ d q, wf d q ∧ has_header hid d) (insert_block k raw)
    (λ _ d q, wf d q ∧ has_header hid d).
Proof. apply insert_block_keeps. intros b d q [Hwf Hh]. split; [by apply set_blocks_wf|done]. Qed.

Lemma insert_block_ensures_wf k raw : ensures wf (insert_block k raw) (λ _, wf).
Proof. apply insert_block_keeps. intros b d q. apply set_blocks_wf. Qed.

Lemma PublishRaw_ensures codec mh raw hid :
  ensures (λ d q, wf d q ∧ has_header hid d) (PublishRaw codec mh raw)
    (λ _ d q, wf d q ∧ has_header hid d).
Proof. apply PublishRaw_keeps. intros b d q [Hwf Hh]. split; [by apply set_blocks_wf|done]. Qed.

(** In the state loop the row of the current state node also exists. *)
Lemma PublishRaw_ensures_state codec mh raw hid sid :
  ensures (λ d q, (wf d q ∧ has_header hid d) ∧ has_state sid d) (PublishRaw codec mh raw)
    (λ _ d q, (wf d q ∧ has_header hid d) ∧ has_state sid d).
Proof.
  apply PublishRaw_keeps. intros b d q [[Hwf Hh] Hs]. split; [split; [by apply set_blocks_wf|done]|done].
Qed.

Lemma publishState_ensures p hid :
  ensures (λ d q, wf d q ∧ has_header hid d) (publishAndIndexStateAndStorage p hid)
    (λ _ d q, wf d q ∧ has_header hid d).
Proof.
  apply for_ensures. intros sn. eapply bind_ensures; [apply PublishRaw_ensures|]. intros c.
  eapply bind_ensures; [apply indexStateCID_ensures|]. intros sid. simpl.
  case_match; [|apply ret_ensures_weaken; naive_solver].
  eapply bind_ensures; [apply lift_ensures|]. intros a.
  eapply bind_ensures; [apply indexStateAccount_ensures|]. intros [].
  eapply ensures_weaken; [| |apply (for_ensures (λ d q, (wf d q ∧ has_header hid d) ∧ has_state sid d))];
    [naive_solver..|].
  intros stn. eapply bind_ensures; [apply PublishRaw_ensures_state|]. intros sc.
  apply indexStorageCID_ensures.
Qed.

Lemma publish_txs_ensures p rs hid ts : ∀ i,
  ensures (λ d q, wf d q ∧ has_header hid d) (publish_txs i p rs hid ts)
    (λ _ d q, wf d q ∧ has_header hid d).
Proof.
  induction ts as [|t ts IH]; intros i; simpl; [apply ret_ensures|].
  eapply bind_ensures; [apply shadow_ensures, insert_block_ensures|]. intros [].
  eapply bind_ensures; [apply lift_ensures|]. intros r.
  eapply bind_ensures; [apply shadow_ensures, insert_block_ensures|]. intros [].
  eapply bind_ensures; [apply lift_ensures|]. intros tm.
  eapply bind_ensures; [apply shadow_ensures, indexTransactionCID_ensures|]. intros txid.
  eapply bind_ensures; [apply lift_ensures|]. intros rm.
  eapply bind_ensures; [apply shadow_ensures, indexReceiptCID_ensures|]. intros []. apply IH.
Qed.

Lemma Publish_body_ensures nodeID p ns : ensures wf (Publish_body nodeID p ns) (λ _, wf).
Proof.
  do 2 (eapply bind_ensures;
    [apply for_ensures; intros n; apply shadow_ensures, insert_block_ensures_wf|intros []]).
  eapply bind_ensures; [apply shadow_ensures, insert_block_ensures_wf|intros []].
  eapply bind_ensures; [apply lift_ensures|intros rw].
  eapply bind_ensures; [apply indexHeaderCID_ensures|intros hid].
  eapply bind_ensures.
  { apply for_ensures. intros un.
    eapply bind_ensures; [apply shadow_ensures, insert_block_ensures|intros []].
    apply shadow_ensures, indexUncleCID_ensures. }
  intros []. eapply bind_ensures; [apply publish_txs_ensures|intros []].
  eapply ensures_weaken; [| |apply publishState_ensures]; naive_solver.
Qed.

Lemma publish_txs_grows p rs hid ts : ∀ i, grows (publish_txs i p rs hid ts).
Proof.
  induction ts as [|t ts IH]; intros i; simpl; [apply grows_ret|].
  repeat (apply grows_bind; [first [apply grows_shadow, insert_block_grows|apply grows_lift
    |apply grows_shadow, indexTransactionCID_grows|apply grows_shadow, indexReceiptCID_grows]|intros ?]).
  apply IH.
Qed.

Lemma Publish_body_grows nodeID p ns : grows (Publish_body nodeID p ns).
Proof.
  do 2 (apply grows_bind;
    [apply grows_for; intros n; apply grows_shadow, insert_block_grows|intros []]).
  apply grows_bind; [apply grows_shadow, insert_block_grows|intros []].
  apply grows_bind; [apply grows_lift|intros rw].
  apply grows_bind; [apply indexHeaderCID_grows|intros hid].
  apply grows_bind.
  { apply grows_for. intros un.
    apply grows_bind; [apply grows_shadow, insert_block_grows|intros []].
    apply grows_shadow, indexUncleCID_grows. }
  intros []. apply grows_bind; [apply publish_txs_grows|intros []].
  apply grows_for. intros sn. apply grows_bind; [apply PublishRaw_grows|intros c].
  apply grows_bind; [apply indexStateCID_grows|intros sid].
  case_match; [|apply grows_ret].
  apply grows_bind; [apply grows_lift|intros a].
  apply grows_bind; [apply indexStateAccount_grows|intros []].
  apply grows_for. intros stn. apply grows_bind; [apply PublishRaw_grows|intros sc].
  apply indexStorageCID_grows.
Qed.

(** ** The IPLD blocks under [Publish] *)

#[local] Ltac keeps_blocks := upsert_keeps ltac:(unfold holds_blocks).

Lemma indexHeaderCID_holds b ks nodeID h :
  ensures (holds_blocks b ks) (indexHeaderCID nodeID h) (λ _, holds_blocks b ks).
Proof. keeps_blocks. Qed.
Lemma indexUncleCID_holds b ks u hid :
  ensures (holds_blocks b ks) (indexUncleCID u hid) (λ _, holds_blocks b ks).
Proof. keeps_blocks. Qed.
Lemma indexTransactionCID_holds b ks t hid :
  ensures (holds_blocks b ks) (indexTransactionCID t hid) (λ _, holds_blocks b ks).
Proof. keeps_blocks. Qed.
Lemma indexReceiptCID_holds b ks r id :
  ensures (holds_blocks b ks) (indexReceiptCID r id) (λ _, holds_blocks b ks).
Proof. keeps_blocks. Qed.
Lemma indexStateCID_holds b ks st hid :
  ensures (holds_blocks b ks) (indexStateCID st hid) (λ _, holds_blocks b ks).
Proof. keeps_blocks. Qed.
Lemma indexStateAccount_holds b ks a sid :
  ensures (holds_blocks b ks) (indexStateAccount a sid) (λ _, holds_blocks b ks).
Proof. keeps_blocks. Qed.
Lemma indexStorageCID_holds b ks st sid :
  ensures (holds_blocks b ks) (indexStorageCID st sid) (λ _, holds_blocks b ks).
Proof. keeps_blocks. Qed.

Lemma publish_txs_holds b p rs hid ts : ∀ i ks,
  ensures (holds_blocks b ks) (publish_txs i p rs hid ts)
    (λ _, holds_blocks b (map node_key ts ++ map node_key (take (length ts) (drop i rs)) ++ ks)).
Proof.
  induction ts as [|t ts IH]; intros i ks; simpl.
  { apply ret_ensures_weaken. intros d q Hd. exact Hd. }
  eapply bind_ensures; [apply shadow_ensures, insert_block_holds|]. intros [].
  eapply bind_ensures; [apply index_ensures|]. intros r. apply ensures_pure. intros Hr.
  eapply bind_ensures; [apply shadow_ensures, insert_block_holds|]. intros [].
  eapply bind_ensures; [apply lift_ensures|]. intros tm.
  eapply bind_ensures; [apply shadow_ensures, indexTransactionCID_holds|]. intros txid.
  eapply bind_ensures; [apply lift_ensures|]. intros rm.
  eapply bind_ensures; [apply shadow_ensures, indexReceiptCID_holds|]. intros [].
  eapply ensures_weaken; [done| |apply IH].
  intros ? d q. apply holds_blocks_weaken. rewrite (drop_S _ _ _ Hr). simpl.
  unfold node_key at 2 4. set_solver.
Qed.

(** The state nodes, and the storage nodes below state leaves, with their codecs. *)
Definition raw_storage (p : ConvertedPayload) (stateNode : TrieNode) : list (Z * bytes) :=
  map (λ storageNode, (MEthStorageTrie, n_Value storageNode))
    (default [] (p_StorageNodes p !! Bytes2Hex (n_Path stateNode))).
Definition raw_state (p : ConvertedPayload) (stateNode : TrieNode) : list (Z * bytes) :=
  (MEthStateTrie, n_Value stateNode) ::
  if bool_decide (n_Type stateNode = Leaf) then raw_storage p stateNode else [].
Definition raw_nodes (p : ConvertedPayload) : list (Z * bytes) := flat_map (raw_state p) (p_StateNodes p).

Definition raw_key (cr : Z * bytes) : string :=
  match RawdataToCid cr.1 cr.2 KECCAK_256 with Ok c => blocks_key c | _ => "" end.

Lemma PublishRaw_key b ks codec raw :
  ensures (holds_blocks b ks) (PublishRaw codec KECCAK_256 raw) (λ _, holds_blocks b (raw_key (codec, raw) :: ks)).
Proof.
  unfold PublishRaw, raw_key. simpl. intros o s Hs. unfold db_bind, db_lift.
  destruct (RawdataToCid codec raw KECCAK_256) as [c|e|w]; [|done..].
  pose proof (insert_block_holds b ks (blocks_key c) raw o s Hs) as Hi.
  by destruct (insert_block _ _ o s) as [[[]|? ?|?] s'].
Qed.

(** A loop that adds the keys [keys x] for each element. *)
Lemma keys_for_holds {A} b (keys : A → list string) (f : A → DB EthDB unit) l : ∀ ks,
  (∀ x ks, ensures (holds_blocks b ks) (f x) (λ _, holds_blocks b (keys x ++ ks))) →
  ensures (holds_blocks b ks) (db_for f l) (λ _, holds_blocks b (flat_map keys l ++ ks)).
Proof.
  induction l as [|x l IH]; intros ks Hf; simpl; [apply ret_ensures|].
  eapply bind_ensures; [apply Hf|]. intros []. eapply ensures_weaken; [done| |apply (IH _ Hf)].
  intros ? d q. apply holds_blocks_weaken. set_solver.
Qed.

Lemma flat_map_fmap {A B C} (g : B → C) (f : A → list B) l : flat_map (λ x, map g (f x)) l = map g (flat_map f l).
Proof. induction l as [|x l IH]; simpl; [done|]. by rewrite map_app, IH. Qed.

Lemma publishState_holds b ks p hid :
  ensures (holds_blocks b ks) (publishAndIndexStateAndStorage p hid)
    (λ _, holds_blocks b (map raw_key (raw_nodes p) ++ ks)).
Proof.
  unfold raw_nodes. rewrite <- flat_map_fmap.
  apply (keys_for_holds b (λ sn, map raw_key (raw_state p sn))). clear ks. intros sn ks.
  unfold raw_state. simpl. eapply bind_ensures; [apply PublishRaw_key|]. intros c.
  eapply bind_ensures; [apply indexStateCID_holds|]. intros sid. simpl.
  case_match eqn:Hl; [|apply ret_ensures].
  eapply bind_ensures; [apply lift_ensures|]. intros a.
  eapply bind_ensures; [apply indexStateAccount_holds|]. intros [].
  unfold raw_storage. rewrite map_map.
  eapply ensures_weaken; [done| |apply (publish_for_holds b (λ stn, raw_key (MEthStorageTrie, n_Value stn)))].
  - intros ? d q. apply holds_blocks_weaken. set_solver.
  - clear. intros stn ks. eapply bind_ensures; [apply PublishRaw_key|]. intros sc. apply indexStorageCID_holds.
Qed.

Lemma Publish_body_open nodeID p ns : keeps_open (Publish_body nodeID p ns).
Proof.
  assert (Htxs : ∀ ts i hid, keeps_open (publish_txs i p (rctNodes ns) hid ts)).
  { induction ts as [|t ts IH]; intros i hid; simpl; [apply ret_open|]. stays_open. apply IH. }
  unfold Publish_body, publishAndIndexStateAndStorage. stays_open; try apply Htxs; stays_open.
Qed.

(** The nodes [Publish] writes besides the state and storage nodes. *)
Definition published_nodes (ns : BlockNodes) : list Node :=
  headerNode ns :: uncleNodes ns ++ txNodes ns ++ take (length (txNodes ns)) (rctNodes ns)
  ++ txTrieNodes ns ++ rctTrieNodes ns.

Lemma Publish_body_holds b nodeID p ns :
  length (block_Uncles (p_Block p)) = length (uncleNodes ns) →
  ensures (holds_blocks b []) (Publish_body nodeID p ns)
    (λ _, holds_blocks b (map node_key (published_nodes ns) ++ map raw_key (raw_nodes p))).
Proof.
  intros Hu.
  eapply bind_ensures.
  { apply (publish_for_holds b node_key). intros n ks. apply shadow_ensures, insert_block_holds. }
  intros []. eapply bind_ensures.
  { apply (publish_for_holds b node_key). intros n ks. apply shadow_ensures, insert_block_holds. }
  intros []. eapply bind_ensures; [apply shadow_ensures, insert_block_holds|intros []].
  eapply bind_ensures; [apply lift_ensures|intros rw].
  eapply bind_ensures; [apply indexHeaderCID_holds|intros hid].
  eapply bind_ensures.
  { apply (publish_for_holds b (λ un : Header * Node, node_key un.2)). intros un ks.
    eapply bind_ensures; [apply shadow_ensures, insert_block_holds|intros []].
    apply shadow_ensures, indexUncleCID_holds. }
  intros []. eapply bind_ensures; [apply publish_txs_holds|intros []].
  eapply ensures_weaken; [done| |apply publishState_holds].
  intros ? d q. apply holds_blocks_weaken. unfold published_nodes. rewrite drop_0.
  assert (Hz : map (λ un, node_key un.2) (zip (block_Uncles (p_Block p)) (uncleNodes ns))
               = map node_key (uncleNodes ns)).
  { rewrite <- map_map. f_equal. apply snd_zip. lia. }
  rewrite Hz. simpl. rewrite !map_app. unfold node_key at 7. set_solver.
Qed.

(** ** Properties *)

(** C2: publishing a block keeps the eth schema well-formed whichever
    statements the server rejects, and when it returns an error or panics
    no table -- IPLD blocks included -- has changed. *)
Theorem Publish_safe nodeID p o s :
  wf (tables s) (seqs s) →
  let '(r, s') := Publish nodeID p o s in
  wf (tables s') (seqs s') ∧ (is_DOk r = false → tables s' = tables s).
Proof.
  intros Hwf. destruct (Publish nodeID p o s) as [r s'] eqn:E.
  unfold Publish, db_bind, db_lift in E.
  destruct (FromBlockAndReceipts _ _) as [ns|e|w]; [|by injection E as <- <-..].
  split.
  - assert (H' := transact_deferred_invariant wf (Publish_body nodeID p ns) o s wf_seq_closed
      (Publish_body_grows nodeID p ns) (Publish_body_shadow_aborts nodeID p ns)
      (Publish_body_ensures nodeID p ns) Hwf).
    by rewrite E in H'.
  - intros Hr. by eapply transact_deferred_atomic; [apply Publish_body_shadow_aborts|apply E|].
Qed.

End Publisher.

(** ** The nodes of a block *)

Section Nodes.
Context `{CidLib} `{TrieLib}.

(** The node of a value: its encoding, under the CID of this encoding. *)
Definition encodes {A} (enc : A → result bytes) (x : A) (n : Node) : Prop :=
  enc x = Ok (RawData n) ∧ genuine n.

Lemma NewEthHeader_encodes h n : NewEthHeader h = Ok n → encodes header_RLP h n.
Proof.
  unfold NewEthHeader. intros (raw & Hr & (c & Hc & [= <-])%rbind_Ok_inv)%rbind_Ok_inv.
  split; [done|by eexists].
Qed.

Lemma NewEthTx_encodes t n : NewEthTx t = Ok n → encodes trx_RLP t n.
Proof.
  unfold NewEthTx. intros (raw & Hr & (c & Hc & [= <-])%rbind_Ok_inv)%rbind_Ok_inv.
  split; [done|by eexists].
Qed.

Lemma NewReceipt_encodes r n : NewReceipt r = Ok n → encodes rct_RLP r n.
Proof.
  unfold NewReceipt. intros (raw & Hr & (c & Hc & [= <-])%rbind_Ok_inv)%rbind_Ok_inv.
  split; [done|by eexists].
Qed.

Lemma getNodes_genuine codec lt ns : getNodes codec lt = Ok ns → Forall genuine ns.
Proof.
  unfold getNodes. destruct (range_collect _ _) as [ms| |] eqn:E; intros [= <-]; [|constructor].
  apply range_collect_Ok in E. apply Forall_forall. intros n [k Hn]%list_elem_of_lookup_1.
  destruct (Forall2_lookup_r _ _ _ _ _ E Hn) as (key & _ & Hkey). destruct (lt_db lt !! key); [|done].
  apply rbind_Ok_inv in Hkey as (c & Hc & [= <-]). by eexists.
Qed.

Lemma FromBlockAndReceipts_encodes b rs ns : FromBlockAndReceipts b rs = Ok ns →
  encodes header_RLP (block_Header b) (headerNode ns) ∧
  Forall2 (encodes header_RLP) (block_Uncles b) (uncleNodes ns) ∧
  Forall2 (encodes trx_RLP) (block_Transactions b) (txNodes ns) ∧
  Forall2 (encodes rct_RLP) rs (rctNodes ns) ∧
  Forall genuine (txTrieNodes ns) ∧ Forall genuine (rctTrieNodes ns).
Proof.
  unfold FromBlockAndReceipts.
  intros (h & Hh & (us & Hu & ([ts tt] & Ht & ([rcs rt] & Hr & [= <-])%rbind_Ok_inv)
    %rbind_Ok_inv)%rbind_Ok_inv)%rbind_Ok_inv. simpl.
  unfold processTransactions in Ht. apply rbind_Ok_inv in Ht as ([n1 l1] & Ht & Ht').
  case_bool_decide; [|done]. apply rbind_Ok_inv in Ht' as (? & Hg1 & [= -> ->]).
  unfold processReceipts in Hr. apply rbind_Ok_inv in Hr as ([n2 l2] & Hr & Hr').
  case_bool_decide; [|done]. apply rbind_Ok_inv in Hr' as (? & Hg2 & [= -> ->]).
  apply process_loop_nodes in Ht, Hr. apply range_collect_Ok in Hu.
  split_and!; eauto using NewEthHeader_encodes, getNodes_genuine.
  - eapply Forall2_impl; [exact Hu|apply NewEthHeader_encodes].
  - eapply Forall2_impl; [exact Ht|apply NewEthTx_encodes].
  - eapply Forall2_impl; [exact Hr|apply NewReceipt_encodes].
Qed.

Lemma encodes_genuine {A} (enc : A → result bytes) xs ns : Forall2 (encodes enc) xs ns → Forall genuine ns.
Proof. induction 1 as [|x n xs ns [_ Hn] _ IH]; by constructor. Qed.

Lemma FromBlockAndReceipts_genuine b rs ns : FromBlockAndReceipts b rs = Ok ns →
  genuine (headerNode ns) ∧ Forall genuine (uncleNodes ns) ∧ Forall genuine (txNodes ns) ∧
  Forall genuine (rctNodes ns) ∧ Forall genuine (txTrieNodes ns) ∧ Forall genuine (rctTrieNodes ns).
Proof.
  intros (Nh & Nu & Nt & Nr & Gt & Gr)%FromBlockAndReceipts_encodes.
  split_and!; [apply Nh|by eapply encodes_genuine..|done|done].
Qed.

Lemma published_nodes_genuine b rs ns : FromBlockAndReceipts b rs = Ok ns →
  ∀ n, n ∈ published_nodes ns → genuine n.
Proof.
  intros (Gh & Gu & Gt & Gr & Gtt & Grt)%FromBlockAndReceipts_genuine. apply Forall_forall. unfold published_nodes.
  constructor; [done|]. rewrite !Forall_app. split_and!; try done. by apply Forall_take.
Qed.

End Nodes.

(** ** Content addressing under [Publish] *)

Section Addressed.
Context `{GethCommon} `{CidLib} `{TrieLib} `{StateRlp} `{!CidLaws}.

#[local] Ltac keeps_addressed := upsert_keeps ltac:(unfold addressed).

Lemma indexHeaderCID_addressed nodeID h : ensures addressed (indexHeaderCID nodeID h) (λ _, addressed).
Proof. keeps_addressed. Qed.
Lemma indexUncleCID_addressed u hid : ensures addressed (indexUncleCID u hid) (λ _, addressed).
Proof. keeps_addressed. Qed.
Lemma indexTransactionCID_addressed t hid : ensures addressed (indexTransactionCID t hid) (λ _, addressed).
Proof. keeps_addressed. Qed.
Lemma indexReceiptCID_addressed r id : ensures addressed (indexReceiptCID r id) (λ _, addressed).
Proof. keeps_addressed. Qed.
Lemma indexStateCID_addressed st hid : ensures addressed (indexStateCID st hid) (λ _, addressed).
Proof. keeps_addressed. Qed.
Lemma indexStateAccount_addressed a sid : ensures addressed (indexStateAccount a sid) (λ _, addressed).
Proof. keeps_addressed. Qed.
Lemma indexStorageCID_addressed st sid : ensures addressed (indexStorageCID st sid) (λ _, addressed).
Proof. keeps_addressed. Qed.

Lemma publish_node_addressed n : genuine n → ensures addressed (shadow (PublishIPLD n)) (λ _, addressed (T := EthDB)).
Proof. intros Hn. by apply shadow_ensures, insert_block_addressed. Qed.

Lemma publish_nodes_addressed ns : Forall genuine ns →
  ensures addressed (db_for (λ n, shadow (PublishIPLD n)) ns) (λ _, addressed (T := EthDB)).
Proof.
  induction 1 as [|n ns Hn _ IH]; simpl; [apply ret_ensures|].
  eapply bind_ensures; [by apply publish_node_addressed|by intros []].
Qed.

Lemma publish_uncles_addressed (uns : list (Header * Node)) (f : Header → Node → UncleModel) hid :
  Forall (λ un, genuine un.2) uns →
  ensures addressed (db_for (λ un, shadow (PublishIPLD un.2) ;;; shadow (indexUncleCID (f un.1 un.2) hid)) uns)
    (λ _, addressed).
Proof.
  induction 1 as [|n ns Hn _ IH]; simpl; [apply ret_ensures|].
  apply (bind_ensures _ _ _ (λ _, addressed)); [|intros []; exact IH].
  eapply bind_ensures; [by apply publish_node_addressed|intros []]. apply shadow_ensures, indexUncleCID_addressed.
Qed.

Lemma publish_txs_addressed p rs hid ts : Forall genuine rs → Forall genuine ts → ∀ i,
  ensures addressed (publish_txs i p rs hid ts) (λ _, addressed).
Proof.
  intros Hrs. induction 1 as [|t ts Ht _ IH]; intros i; simpl; [apply ret_ensures|].
  eapply bind_ensures; [by apply publish_node_addressed|intros []].
  eapply bind_ensures; [apply index_ensures|]. intros r. apply ensures_pure. intros Hr.
  eapply bind_ensures; [apply publish_node_addressed|intros []].
  { rewrite Forall_forall in Hrs. by eapply Hrs, list_elem_of_lookup_2. }
  eapply bind_ensures; [apply lift_ensures|intros m].
  eapply bind_ensures; [apply shadow_ensures, indexTransactionCID_addressed|intros id].
  eapply bind_ensures; [apply lift_ensures|intros rm].
  eapply bind_ensures; [apply shadow_ensures, indexReceiptCID_addressed|intros []]. apply IH.
Qed.

Lemma publishState_addressed p hid :
  ensures addressed (publishAndIndexStateAndStorage p hid) (λ _, addressed).
Proof.
  apply for_ensures. intros sn. eapply bind_ensures; [apply PublishRaw_addressed|]. intros c.
  eapply bind_ensures; [apply indexStateCID_addressed|]. intros sid. simpl. case_match; [|apply ret_ensures].
  eapply bind_ensures; [apply lift_ensures|]. intros a.
  eapply bind_ensures; [apply indexStateAccount_addressed|]. intros [].
  apply for_ensures. intros stn. eapply bind_ensures; [apply PublishRaw_addressed|]. intros sc.
  apply indexStorageCID_addressed.
Qed.

Lemma Publish_body_addressed nodeID p ns : Forall genuine (uncleNodes ns) → genuine (headerNode ns) →
  Forall genuine (txNodes ns) → Forall genuine (rctNodes ns) →
  Forall genuine (txTrieNodes ns) → Forall genuine (rctTrieNodes ns) →
  ensures addressed (Publish_body nodeID p ns) (λ _, addressed).
Proof.
  intros Hu Hh Ht Hr Htt Hrt.
  eapply bind_ensures; [by apply publish_nodes_addressed|intros []].
  eapply bind_ensures; [by apply publish_nodes_addressed|intros []].
  eapply bind_ensures; [by apply publish_node_addressed|intros []].
  eapply bind_ensures; [apply lift_ensures|intros rw].
  eapply bind_ensures; [apply indexHeaderCID_addressed|intros hid].
  eapply bind_ensures; [apply (publish_uncles_addressed _ (uncle_model p))|intros []].
  { apply Forall_forall. intros [h n] Hin%elem_of_zip_r. rewrite Forall_forall in Hu. by apply Hu. }
  eapply bind_ensures; [by apply publish_txs_addressed|intros []]. apply publishState_addressed.
Qed.

End Addressed.

(** ** Properties: what is stored *)

Section Stored.
Context `{GethCommon} `{CidLib} `{TrieLib} `{StateRlp} `{!CidLaws}.

(** C1: in a content-addressed store, after a successful [Publish] the store has
    under their CIDs the encodings of the header, the uncles, the transactions
    and the receipts of the block, the nodes of its two tries, and the values
    of its state nodes and of the storage nodes below its state leaves; no
    block stored before was altered.  The only other possibility is that the
    server refused the COMMIT, and then nothing changed. *)
Theorem Publish_available nodeID p o s :
  addressed (tables s) (seqs s) →
  let '(r, s') := Publish nodeID p o s in
  is_DOk r = true →
  ∃ ns, FromBlockAndReceipts (p_Block p) (p_Receipts p) = Ok ns ∧
    (tables s' = tables s ∧ commit_refused o s' ∨
     encodes header_RLP (block_Header (p_Block p)) (headerNode ns) ∧
     Forall2 (encodes header_RLP) (block_Uncles (p_Block p)) (uncleNodes ns) ∧
     Forall2 (encodes trx_RLP) (block_Transactions (p_Block p)) (txNodes ns) ∧
     Forall2 (encodes rct_RLP) (p_Receipts p) (rctNodes ns) ∧
     blocks (tables s) ⊆ blocks (tables s') ∧
     Forall (λ n, blocks (tables s') !! blocks_key (Cid n) = Some (RawData n)) (published_nodes ns) ∧
     ∀ codec raw c, (codec, raw) ∈ raw_nodes p → RawdataToCid codec raw KECCAK_256 = Ok c →
       blocks (tables s') !! blocks_key c = Some raw).
Proof.
  intros Haddr. destruct (Publish nodeID p o s) as [r s'] eqn:E. intros Hr. destruct r as [[]| |]; try done.
  unfold Publish, db_bind, db_lift in E.
  destruct (FromBlockAndReceipts _ _) as [ns|e|w] eqn:Ens; [|done..].
  exists ns. split; [done|].
  apply transact_deferred_commits in E as (s1 & s2 & Hb & Hbody & [Ht|Ht]); [|by left|apply Publish_body_open].
  right. pose proof (begin_tables o s) as Ht1. pose proof (begin_seqs o s) as Hq1. rewrite Hb in Ht1, Hq1. simpl in Ht1, Hq1.
  pose proof (FromBlockAndReceipts_lengths _ _ _ Ens) as (_ & _ & Hlen).
  destruct (FromBlockAndReceipts_genuine _ _ _ Ens) as (Gh & Gu & Gt & Gr & Gtt & Grt).
  pose proof (Publish_body_holds (blocks (tables s)) nodeID p ns (eq_sym Hlen) o s1) as Hh.
  pose proof (Publish_body_addressed nodeID p ns Gu Gh Gt Gr Gtt Grt o s1) as Ha.
  rewrite Hbody, Ht1 in Hh. rewrite Hbody, Ht1, Hq1 in Ha. specialize (Ha Haddr). rewrite Ht.
  destruct Hh as [Hsub [Hn Hraw]%Forall_app]; [by split|].
  destruct (FromBlockAndReceipts_encodes _ _ _ Ens) as (Nh & Nu & Nt & Nr & _). split_and!; [done..| |].
  - apply (Forall_fmap node_key) in Hn. rewrite Forall_forall in Hn |- *. intros n Hin.
    destruct (Hn n Hin) as [raw Hraw']. unfold compose, node_key in Hraw'. simpl in Hraw'. rewrite Hraw'.
    destruct (published_nodes_genuine _ _ _ Ens n Hin) as [pre Hpre]. f_equal. by eapply Ha.
  - intros codec raw c Hin Hc. rewrite Forall_forall in Hraw.
    destruct (Hraw (raw_key (codec, raw))) as [raw' Hraw']; [by apply list_elem_of_fmap_2|].
    unfold raw_key in Hraw'. simpl in Hraw'. rewrite Hc in Hraw'. rewrite Hraw'. f_equal. by eapply Ha.
Qed.

End Stored.

(** ** Witnesses *)

Section Witnesses.
#[local] Existing Instance Concrete.geth.
#[local] Existing Instance Concrete.cidlib.
#[local] Existing Instance Concrete.cid_laws.

#[local] Instance ex_trielib : TrieLib := {|
  rlp_uint := λ n, [Z.of_nat n];
  trie_Hash := λ l, concat (map snd l)
|}.

#[local] Instance ex_staterlp : StateRlp := {|
  rlp_items := λ b, Ok [Some [0]; Some b];
  rlp_account := λ b, Ok {| acc_Balance := 1; acc_Nonce := 2; acc_CodeHash := []; acc_Root := b |}
|}.

Definition ex_hdr (n : Z) : Header := {| header_RLP := Ok [n]; header_Number := n;
  header_Hash := [n]; header_ParentHash := [n - 1] |}.
Definition ex_tx : Transaction := {| trx_RLP := Ok [7]; trx_Hash := [7]; trx_To := None;
  trx_Sender := Ok [1]; trx_GasPrice := 3 |}.
Definition ex_rct : Receipt := {| rct_RLP := Ok [8]; rct_TxHash := [7]; rct_GasUsed := 5;
  rct_ContractAddress := []; rct_Logs := [] |}.
Definition ex_block : Block := {| block_Header := ex_hdr 9; block_Uncles := [ex_hdr 8];
  block_Transactions := [ex_tx]; block_Root := []; block_TxHash := [7]; block_ReceiptHash := [8];
  block_UncleHash := []; block_Bloom := []; block_Time := 0 |}.
Definition ex_converted : ConvertedPayload := {|
  p_TotalDifficulty := 11; p_Block := ex_block;
  p_TxMetaData := [{| tx_ID := 0; tx_HeaderID := 0; tx_Index := 0; tx_TxHash := "x7"; tx_CID := "";
    tx_Dst := ""; tx_Src := "a" |}];
  p_Receipts := [ex_rct];
  p_ReceiptMetaData := [{| r_ID := 0; r_TxID := 0; r_CID := ""; r_Contract := "";
    r_ContractHash := ""; r_LogContracts := []; r_Topic0s := []; r_Topic1s := [];
    r_Topic2s := []; r_Topic3s := [] |}];
  p_StateNodes := [{| n_Path := [1]; n_LeafKey := [2]; n_Value := [3]; n_Type := Leaf |}];
  p_StorageNodes := ∅ |}.

(** A publish that fails at its tenth statement changes nothing. *)
Lemma Publish_safe_witness :
  wf (tables ex_session) (seqs ex_session) ∧
  is_DOk (Publish 1 ex_converted (refuse 9) ex_session).1 = false ∧
  let '(r, s') := Publish 1 ex_converted (refuse 9) ex_session in
  wf (tables s') (seqs s') ∧ (is_DOk r = false → tables s' = tables ex_session).
Proof.
  split; [apply wf_empty|]. split; [vm_compute; reflexivity|].
  apply (Publish_safe 1 ex_converted (refuse 9) ex_session). apply wf_empty.
Defined.

(** A publish of the same block, into an empty database, that succeeds. *)
Lemma Publish_available_witness :
  is_DOk (Publish 1 ex_converted no_faults ex_session).1 = true ∧
  let '(r, s') := Publish 1 ex_converted no_faults ex_session in
  is_DOk r = true →
  ∃ ns, FromBlockAndReceipts (p_Block ex_converted) (p_Receipts ex_converted) = Ok ns ∧
    (tables s' = tables ex_session ∧ commit_refused no_faults s' ∨
     encodes header_RLP (block_Header (p_Block ex_converted)) (headerNode ns) ∧
     Forall2 (encodes header_RLP) (block_Uncles (p_Block ex_converted)) (uncleNodes ns) ∧
     Forall2 (encodes trx_RLP) (block_Transactions (p_Block ex_converted)) (txNodes ns) ∧
     Forall2 (encodes rct_RLP) (p_Receipts ex_converted) (rctNodes ns) ∧
     blocks (tables ex_session) ⊆ blocks (tables s') ∧
     Forall (λ n, blocks (tables s') !! blocks_key (Cid n) = Some (RawData n)) (published_nodes ns) ∧
     ∀ codec raw c, (codec, raw) ∈ raw_nodes ex_converted → RawdataToCid codec raw KECCAK_256 = Ok c →
       blocks (tables s') !! blocks_key c = Some raw).
Proof.
  split; [vm_compute; reflexivity|]. apply (Publish_available 1 ex_converted no_faults ex_session).
  intros p raw c raw' _ Hc. change (blocks_of (tables ex_session)) with (∅ : gmap string bytes) in Hc.
  by apply lookup_empty_Some in Hc.
Defined.

End Witnesses.
