(* ===== verification/EthRetriever.v ===== *)
(** * The Ethereum CID retriever (pkg/super_node/eth/cid_retriever.go)

    SELECT statements are functions of the tables: a join is a comprehension
    over the rows in table order, [= ANY] is membership, [&&] on arrays is a
    non-empty intersection, and ORDER BY sorts the joined rows; without it the
    rows come in an order that is a parameter ([RowOrder]).  The statement
    text is built from the filter; a filter for which it does not parse is an
    [Err]. *)

From S2P Require Import Prelude GoInt Heights Geth EthModel Sql Queries EthDB.

(** ** SQL conditions *)

Definition any_of (wanted : list string) (column : string) : bool := bool_decide (column ∈ wanted).
Definition overlaps (column wanted : list string) : bool :=
  existsb (λ x, bool_decide (x ∈ wanted)) column.

Definition hasTopics (topics : list (list string)) : bool :=
  existsb (λ topicSet, 0 <? length topicSet)%nat topics.

(** [receipt_cids.topic%ds] *)
Definition topic_column (i : nat) (r : ReceiptModel) : list string :=
  match i with
  | 0 => r_Topic0s r
  | 1 => r_Topic1s r
  | 2 => r_Topic2s r
  | _ => r_Topic3s r
  end%nat.

(** The conjuncts the loop over [rctFilter.Topics] appends. *)
Fixpoint topic_conjuncts (i : nat) (topics : list (list string)) : list (ReceiptModel → bool) :=
  match topics with
  | [] => []
  | topicSet :: topics =>
      if ((i <? 4) && (0 <? length topicSet))%nat
      then (λ r, overlaps (topic_column i r) topicSet) :: topic_conjuncts (S i) topics
      else topic_conjuncts (S i) topics
  end.

Definition err_syntax : error := Driver "pq: syntax error at or near )".

(** [AND (c AND c ...)]; with no conjunct the statement reads [AND ()]. *)
Definition topic_clause (topics : list (list string)) : result (ReceiptModel → bool) :=
  match topic_conjuncts 0 topics with
  | [] => Err err_syntax
  | cs => Ok (λ r, forallb (λ c, c r) cs)
  end.

(** The conditions on receipts, shared by the two receipt queries. *)
Definition rct_clause (rctFilter : ReceiptFilter) (trxIds : list Z)
    : result (ReceiptModel → bool) :=
  let matching := (rf_MatchTxs rctFilter && (0 <? length trxIds)%nat)%bool in
  let or_tx r := (matching && bool_decide (r_TxID r ∈ trxIds))%bool in
  if (0 <? length (rf_LogAddresses rctFilter))%nat then
    topics <-! (if hasTopics (rf_Topics rctFilter) then topic_clause (rf_Topics rctFilter)
                else Ok (λ _, true)) ;;
    Ok (λ r, (overlaps (r_LogContracts r) (rf_LogAddresses rctFilter) && topics r) || or_tx r)
  else if hasTopics (rf_Topics rctFilter) then
    topics <-! topic_clause (rf_Topics rctFilter) ;;
    Ok (λ r, topics r || or_tx r)
  else if matching then Ok or_tx
  else Ok (λ _, true).

Definition tx_clause (txFilter : TxFilter) (t : TxModel) : bool :=
  (if (0 <? length (tf_Dst txFilter))%nat then any_of (tf_Dst txFilter) (tx_Dst t) else true) &&
  (if (0 <? length (tf_Src txFilter))%nat then any_of (tf_Src txFilter) (tx_Src t) else true).

(** ** Joins *)

(** Rows joined with their header / transaction, in table order. *)
Definition join_header {A} (key : A → Z) (rows : list A) (headers : list HeaderModel)
    : list (A * HeaderModel) :=
  r ← rows; h ← headers; if bool_decide (key r = h_ID h) then [(r, h)] else [].

Definition join_tx (rows : list ReceiptModel) (txs : list TxModel)
    : list (ReceiptModel * TxModel) :=
  r ← rows; t ← txs; if bool_decide (r_TxID r = tx_ID t) then [(r, t)] else [].

Definition join_state (rows : list StorageNodeModel) (states : list StateNodeModel)
    : list (StorageNodeModel * StateNodeModel) :=
  r ← rows; s ← states; if bool_decide (st_StateID r = s_ID s) then [(r, s)] else [].

Section Retriever.
Context `{GethCommon} `{RowOrder}.

(** ** Single-table queries *)

Definition RetrieveHeaderCIDs (blockNumber : Z) : DB EthDB (list HeaderModel) :=
  select_rows (λ d, filter (λ h, h_BlockNumber h = blockNumber) (header_cids d)).

Definition RetrieveUncleCIDsByHeaderID (headerID : Z) : DB EthDB (list UncleModel) :=
  select_rows (λ d, filter (λ u, u_HeaderID u = headerID) (uncle_cids d)).

Definition RetrieveHeaderCIDByHash (blockHash : bytes) : DB EthDB HeaderModel :=
  scan_one (select (λ d, filter (λ h, h_BlockHash h = Hash_String blockHash) (header_cids d))).

Definition RetrieveTxCIDsByHeaderID (headerID : Z) : DB EthDB (list TxModel) :=
  select (λ d, order_by tx_Index (filter (λ t, tx_HeaderID t = headerID) (transaction_cids d))).

Definition block_numbers (d : EthDB) : list Z := map h_BlockNumber (header_cids d).

Definition RetrieveFirstBlockNumber : DB EthDB Z := first_height block_numbers.

Definition RetrieveLastBlockNumber : DB EthDB Z :=
  scan_one (select_auto (λ d, take 1 (order_by Z.opp (map h_BlockNumber (header_cids d))))).

(** ** Joined queries *)

Definition RetrieveTxCIDs (txFilter : TxFilter) (headerID : Z) : DB EthDB (list TxModel) :=
  select (λ d, order_by tx_Index (map fst (filter
    (λ th, h_ID th.2 = headerID ∧ tx_clause txFilter th.1 = true)
    (join_header tx_HeaderID (transaction_cids d) (header_cids d))))).

(** Receipts joined with their transaction and header, ordered by [index]. *)
Definition select_receipts (p : HeaderModel → bool) (c : ReceiptModel → bool) (d : EthDB)
    : list ReceiptModel :=
  map (λ x, x.1.1) (order_by (λ x, tx_Index x.1.2) (filter
    (λ x, p x.2 = true ∧ c x.1.1 = true)
    (join_header (λ rt, tx_HeaderID rt.2) (join_tx (receipt_cids d) (transaction_cids d))
      (header_cids d)))).

Definition RetrieveRctCIDsByHeaderID (rctFilter : ReceiptFilter) (headerID : Z)
    (trxIds : list Z) : DB EthDB (list ReceiptModel) :=
  query (c <-! rct_clause rctFilter trxIds ;;
    Ok (select_receipts (λ h, h_ID h =? headerID) c)).

Definition RetrieveRctCIDs (rctFilter : ReceiptFilter) (blockNumber : Z)
    (blockHash : option bytes) (trxIds : list Z) : DB EthDB (list ReceiptModel) :=
  query (c <-! rct_clause rctFilter trxIds ;;
    Ok (select_receipts (λ h,
      (if 0 <? blockNumber then h_BlockNumber h =? blockNumber else true) &&
      (match blockHash with
       | Some bh => bool_decide (h_BlockHash h = Hash_String bh)
       | None => true
       end)) c)).

Definition RetrieveReceiptCIDsByTxIDs (txIDs : list Z) : DB EthDB (list ReceiptModel) :=
  select (λ d, map fst (order_by (λ x, tx_Index x.2)
    (filter (λ x, r_TxID x.1 ∈ txIDs) (join_tx (receipt_cids d) (transaction_cids d))))).

Definition address_hashes (addresses : list string) : list string :=
  map (λ addr, Hash_String (Keccak256Hash (HexToAddress addr))) addresses.

Definition state_clause (stateFilter : StateFilter) (s : StateNodeModel) : bool :=
  (if (0 <? length (sf_Addresses stateFilter))%nat
   then any_of (address_hashes (sf_Addresses stateFilter)) (s_StateKey s) else true) &&
  (if negb (sf_IntermediateNodes stateFilter) then s_NodeType s =? 2 else true).

Definition RetrieveStateCIDs (stateFilter : StateFilter) (headerID : Z)
    : DB EthDB (list StateNodeModel) :=
  select_rows (λ d, map fst (filter
    (λ sh, h_ID sh.2 = headerID ∧ state_clause stateFilter sh.1 = true)
    (join_header s_HeaderID (state_cids d) (header_cids d)))).

Definition storage_clause (storageFilter : StorageFilter) (st : StorageNodeModel)
    (s : StateNodeModel) : bool :=
  (if (0 <? length (stf_Addresses storageFilter))%nat
   then any_of (address_hashes (stf_Addresses storageFilter)) (s_StateKey s) else true) &&
  (if (0 <? length (stf_StorageKeys storageFilter))%nat
   then any_of (stf_StorageKeys storageFilter) (st_StorageKey st) else true) &&
  (if negb (stf_IntermediateNodes storageFilter) then st_NodeType st =? 2 else true).

Definition with_state_key (st : StorageNodeModel) (s : StateNodeModel)
    : StorageNodeWithStateKeyModel := {|
  sk_ID := st_ID st; sk_StateID := st_StateID st; sk_Path := st_Path st;
  sk_StateKey := s_StateKey s; sk_StorageKey := st_StorageKey st;
  sk_NodeType := st_NodeType st; sk_CID := st_CID st |}.

Definition RetrieveStorageCIDs (storageFilter : StorageFilter) (headerID : Z)
    : DB EthDB (list StorageNodeWithStateKeyModel) :=
  select_rows (λ d, map (λ x, with_state_key x.1.1 x.1.2) (filter
    (λ x, h_ID x.2 = headerID ∧ storage_clause storageFilter x.1.1 x.1.2 = true)
    (join_header (λ ss, s_HeaderID ss.2) (join_state (storage_cids d) (state_cids d))
      (header_cids d)))).

(** ** Retrieve *)

(** The value of [cw] for one header, and whether it made [empty] false. *)
Definition retrieve_header (streamFilter : SubscriptionSettings) (blockNumber : Z)
    (header : HeaderModel) : DB EthDB (CIDWrapper * bool) :=
  let hf := HeaderFilter_ streamFilter in
  uncles <-- (if negb (hf_Off hf) && hf_Uncles hf
              then shadow (RetrieveUncleCIDsByHeaderID (h_ID header)) else db_ret []) ;;
  txs <-- (if negb (tf_Off (TxFilter_ streamFilter))
           then RetrieveTxCIDs (TxFilter_ streamFilter) (h_ID header) else db_ret []) ;;
  let trxIds := map tx_ID txs in
  rcts <-- (if negb (rf_Off (ReceiptFilter_ streamFilter))
            then RetrieveRctCIDsByHeaderID (ReceiptFilter_ streamFilter) (h_ID header) trxIds
            else db_ret []) ;;
  states <-- (if negb (sf_Off (StateFilter_ streamFilter))
              then RetrieveStateCIDs (StateFilter_ streamFilter) (h_ID header) else db_ret []) ;;
  storages <-- (if negb (stf_Off (StorageFilter_ streamFilter))
                then RetrieveStorageCIDs (StorageFilter_ streamFilter) (h_ID header)
                else db_ret []) ;;
  let empty := hf_Off hf && (length txs =? 0)%nat && (length rcts =? 0)%nat
               && (length states =? 0)%nat && (length storages =? 0)%nat in
  db_ret ({| w_BlockNumber := blockNumber;
             w_Header := if negb (hf_Off hf) then header else HeaderModel_zero;
             w_Uncles := uncles; w_Transactions := txs; w_Receipts := rcts;
             w_StateNodes := states; w_StorageNodes := storages |}, empty).

Definition Retrieve (streamFilter : SubscriptionSettings) (blockNumber : Z)
    : DB EthDB (list CIDWrapper * bool) :=
  transact_deferred (
    headers <-- RetrieveHeaderCIDs blockNumber ;;
    cws <-- db_collect (retrieve_header streamFilter blockNumber) headers ;;
    db_ret (map fst cws, forallb snd cws)).

(** ** Whole blocks *)

Definition BlockCIDs : Type := HeaderModel * list UncleModel * list TxModel * list ReceiptModel.

Definition retrieve_block_of (headerCID : HeaderModel) : DB EthDB BlockCIDs :=
  uncleCIDs <-- RetrieveUncleCIDsByHeaderID (h_ID headerCID) ;;
  txCIDs <-- RetrieveTxCIDsByHeaderID (h_ID headerCID) ;;
  rctCIDs <-- RetrieveReceiptCIDsByTxIDs (map tx_ID txCIDs) ;;
  db_ret (headerCID, uncleCIDs, txCIDs, rctCIDs).

Definition RetrieveBlockByHash (blockHash : bytes) : DB EthDB BlockCIDs :=
  transact_deferred (
    headerCID <-- RetrieveHeaderCIDByHash blockHash ;;
    retrieve_block_of headerCID).

Definition RetrieveBlockByNumber (blockNumber : Z) : DB EthDB BlockCIDs :=
  transact_deferred (
    headerCID <-- RetrieveHeaderCIDs blockNumber ;;
    match headerCID with
    | [] => shadow (db_fail (Errorf "header cid retrieval error, no header CIDs found at block"))
    | h :: _ => retrieve_block_of h
    end).

(** ** Gaps *)

Definition below_level (validationLevel : Z) (d : EthDB) : list Z :=
  map h_BlockNumber (filter (λ h, h_TimesValidated h < validationLevel) (header_cids d)).

Definition RetrieveGapsInData (validationLevel : Z) : DB EthDB (list Gap) :=
  search_gaps "eth CIDRetriever RetrieveFirstBlockNumber error" RetrieveFirstBlockNumber
    block_numbers (below_level validationLevel).

End Retriever.

(** ** Properties *)

(** C38: on a database whose heights fit an int64, [RetrieveGapsInData] fails
    exactly when there is no header; otherwise its gaps cover exactly the
    heights below the last one that have no header, together with the heights
    below the validation level -- except when there is a single such height,
    which is never reported. *)
Theorem RetrieveGapsInData_complete level s :
  aborted s = false → Forall (λ n, 0 ≤ n < 2 ^ 63) (block_numbers (tables s)) →
  let ns := block_numbers (tables s) in
  let low := below_level level (tables s) in
  match out_result (RetrieveGapsInData level no_faults s).1 with
  | Ok gaps => ns ≠ [] ∧ ∀ h, 0 ≤ h →
      in_gaps gaps h ↔
      (h ∉ ns ∧ ∃ m, m ∈ ns ∧ h < m) ∨ (h ∈ low ∧ length low ≠ 1%nat)
  | Err _ => ns = []
  | Panic _ => False
  end.
Proof.
  intros Ha Hns ns low. unfold RetrieveGapsInData, RetrieveFirstBlockNumber.
  destruct (search_gaps_evaluates "eth CIDRetriever RetrieveFirstBlockNumber error"
    block_numbers (below_level level) s Ha) as [-> _].
  apply gaps_answer_complete; [done|]. intros n (h & -> & Hh)%list_elem_of_fmap.
  apply list_elem_of_filter in Hh as [_ Hh]. by apply list_elem_of_fmap_2.
Qed.

(** A database with headers at the given heights, each validated once. *)
Definition headers_at (heights : list Z) : EthDB :=
  set_headers (map (λ n, {|
    h_ID := n; h_BlockNumber := n; h_BlockHash := "h"; h_ParentHash := ""; h_CID := "";
    h_TotalDifficulty := "0"; h_NodeID := 0; h_Reward := 0; h_StateRoot := ""; h_UncleRoot := "";
    h_TxRoot := ""; h_RctRoot := ""; h_Bloom := []; h_Timestamp := 0; h_TimesValidated := 1 |})
    heights) EthDB_empty.

Lemma RetrieveGapsInData_complete_witness :
  let s := mkSession (headers_at [3; 6; 7]) ∅ false 0%nat in
  (out_result (RetrieveGapsInData 1 no_faults s).1 = Ok [mkGap 0 2; mkGap 4 5]) ∧
  match out_result (RetrieveGapsInData 1 no_faults s).1 with
  | Ok gaps => [3; 6; 7] ≠ [] ∧ ∀ h, 0 ≤ h →
      in_gaps gaps h ↔
      (h ∉ [3; 6; 7] ∧ ∃ m, m ∈ [3; 6; 7] ∧ h < m)
      ∨ (h ∈ below_level 1 (tables s) ∧ length (below_level 1 (tables s)) ≠ 1%nat)
  | Err _ => [3; 6; 7] = []
  | Panic _ => False
  end.
Proof.
  intros s. split; [vm_compute; reflexivity|].
  apply (RetrieveGapsInData_complete 1 s); [reflexivity|].
  repeat constructor; simpl; lia.
Defined.
