(* ===== verification/EthEquivalence.v ===== *)
(** * Live and historical data agree -- and where they do not

    A subscriber receives live blocks through the filterer (filterer.go) and
    historical ones through the retriever's SQL (cid_retriever.go).  The
    theorems of this file compare the two selections row by row. *)

From S2P Require Import Prelude GoInt Geth EthModel Sql EthIpld EthDB EthFilterer.
From S2P Require Import EthPublisher EthRetriever.

(** ** Lemmas: topics *)

Lemma topic_conjuncts_ge4 topics : ∀ i, (4 ≤ i)%nat → topic_conjuncts i topics = [].
Proof.
  induction topics as [|t topics IH]; intros i Hi; simpl; [done|].
  destruct (i <? 4)%nat eqn:E; [apply Nat.ltb_lt in E; lia|]. simpl. apply IH. lia.
Qed.

Lemma slot_ok_overlaps w actual :
  w ≠ [] → slot_ok (Some w) actual = overlaps actual w.
Proof. by destruct w. Qed.

(** The SQL conjuncts say what [filterMatch] says. *)
Lemma topic_conjuncts_filterMatch topics m :
  forallb (λ c, c m) (topic_conjuncts 0 topics) = filterMatch topics (topics_of m).
Proof.
  unfold topics_of. rewrite filterMatch_spec.
  destruct topics as [|[|w0 t0] [|[|w1 t1] [|[|w2 t2] [|[|w3 t3] ts]]]];
    cbn [topic_conjuncts length Nat.ltb Nat.leb andb];
    rewrite ?topic_conjuncts_ge4 by lia;
    cbn [forallb lookup list_lookup slot_ok topic_column overlaps andb];
    rewrite ?andb_true_r, ?andb_assoc; reflexivity.
Qed.

Lemma no_topics_filterMatch topics m :
  hasTopics topics = false → filterMatch topics (topics_of m) = true.
Proof.
  intros Ht. rewrite <- topic_conjuncts_filterMatch. generalize 0%nat.
  induction topics as [|t topics IH]; intros i; simpl in *; [done|].
  apply orb_false_iff in Ht as [Ht1 Ht2]. rewrite Ht1, andb_false_r. by apply IH.
Qed.

(** A filter whose only topics are at positions the code ignores. *)
Definition topics_beyond (topics : list (list string)) : bool :=
  hasTopics topics && (length (topic_conjuncts 0 topics) =? 0)%nat.

Lemma overlaps_exists actual wanted (b : bool) :
  existsb (λ w, existsb (λ a, bool_decide (w = a) && b) actual) wanted =
  overlaps actual wanted && b.
Proof.
  apply eq_true_iff_eq. unfold overlaps. rewrite andb_true_iff, !existsb_exists. split.
  - intros (w & Hw & (a & Ha & [He Hb]%andb_true_iff)%existsb_exists).
    apply bool_decide_eq_true in He as ->. split; [|done]. exists a. split; [done|].
    apply bool_decide_eq_true. by apply list_elem_of_In.
  - intros [(a & Ha & He%bool_decide_eq_true) ->]. exists a.
    split; [by apply list_elem_of_In|]. apply existsb_exists. exists a.
    split; [done|]. by rewrite bool_decide_eq_true_2.
Qed.

Lemma rct_clause_ok f ids : is_ok (rct_clause f ids) = negb (topics_beyond (rf_Topics f)).
Proof.
  unfold rct_clause, topics_beyond, topic_clause.
  destruct (0 <? _)%nat, (hasTopics _); simpl; try done.
  all: try (by destruct (topic_conjuncts 0 (rf_Topics f))).
  by destruct (_ && _)%bool.
Qed.

(** [checkReceipts] in terms of the SQL notions. *)
Lemma checkReceipts_eq rct topics m addrs hashes :
  checkReceipts rct topics (topics_of m) addrs (r_LogContracts m) hashes =
  bool_decide (rct_TxHash rct ∈ hashes) ||
  (filterMatch topics (topics_of m) &&
   ((length addrs =? 0)%nat || overlaps (r_LogContracts m) addrs)).
Proof.
  unfold checkReceipts. rewrite existsb_decide, overlaps_exists.
  assert (HF : topics = [] → filterMatch topics (topics_of m) = true)
    by (intros ->; by apply no_topics_filterMatch).
  destruct (filterMatch topics (topics_of m)), (overlaps (r_LogContracts m) addrs),
    (bool_decide (rct_TxHash rct ∈ hashes)), topics, addrs, hashes; simpl;
    try reflexivity; by specialize (HF eq_refl).
Qed.

(** The SQL clause, evaluated. *)
Lemma rct_clause_eq f ids c m :
  rct_clause f ids = Ok c →
  c m = let in_txs := rf_MatchTxs f && bool_decide (r_TxID m ∈ ids) in
        if (length (rf_LogAddresses f) =? 0)%nat && negb (hasTopics (rf_Topics f))
           && rf_MatchTxs f && (0 <? length ids)%nat
        then in_txs
        else (filterMatch (rf_Topics f) (topics_of m) &&
              ((length (rf_LogAddresses f) =? 0)%nat
               || overlaps (r_LogContracts m) (rf_LogAddresses f))) || in_txs.
Proof.
  assert (Htx : rf_MatchTxs f && (0 <? length ids)%nat && bool_decide (r_TxID m ∈ ids) =
                rf_MatchTxs f && bool_decide (r_TxID m ∈ ids)).
  { destruct ids as [|i ids]; [|simpl; by rewrite andb_true_r].
    rewrite (bool_decide_eq_false_2 (r_TxID m ∈ [])) by apply not_elem_of_nil.
    by rewrite !andb_false_r. }
  unfold rct_clause, topic_clause. rewrite <- topic_conjuncts_filterMatch.
  destruct (rf_LogAddresses f) as [|a l] eqn:Ea; simpl.
  - destruct (hasTopics _) eqn:Et; simpl.
    + destruct (topic_conjuncts 0 _) as [|c0 cs] eqn:Ec; simpl; [done|].
      intros [= <-]. by rewrite Htx, andb_true_r.
    + rewrite topic_conjuncts_filterMatch, no_topics_filterMatch by done. simpl.
      destruct (rf_MatchTxs f && _) eqn:Em; intros [= <-]; simpl; [|done].
      by apply andb_true_iff in Em as [-> _].
  - destruct (hasTopics _) eqn:Et; simpl.
    + destruct (topic_conjuncts 0 _) as [|c0 cs] eqn:Ec; simpl; [done|].
      intros [= <-]. rewrite Htx. f_equal. apply andb_comm.
    + rewrite topic_conjuncts_filterMatch, no_topics_filterMatch by done. simpl.
      intros [= <-]. by rewrite Htx, andb_true_r.
Qed.

(** ** Properties *)

(** C39: receipts, for a receipt whose transaction is matched live exactly when
    its row id is matched in SQL, as many transactions being matched on either
    side -- which is so unless both a source and a destination are wanted, where
    the two match different transactions.  Then the live filter keeps the
    receipt if and only if the SQL query returns it, with one exception: when
    the subscription only asks to match transactions (no addresses, no topics),
    the live filter keeps every receipt as soon as some transaction is matched,
    while SQL keeps those of matched transactions.  The SQL statement is
    rejected by the server exactly when topics are wanted and all of them are at
    positions past the fourth; where some are not, both sides ignore the rest. *)
Theorem receipts_live_vs_historical f m rct hashes ids :
  (rct_TxHash rct ∈ hashes ↔ r_TxID m ∈ ids) → length hashes = length ids →
  is_ok (rct_clause f ids) = negb (topics_beyond (rf_Topics f)) ∧
  ∀ c, rct_clause f ids = Ok c →
    checkReceipts rct (rf_Topics f) (topics_of m) (rf_LogAddresses f) (r_LogContracts m)
      (if rf_MatchTxs f then hashes else []) =
    c m || (rf_MatchTxs f && (0 <? length ids)%nat
            && (length (rf_LogAddresses f) =? 0)%nat && negb (hasTopics (rf_Topics f))).
Proof.
  intros Htx Hlen. split; [apply rct_clause_ok|]. intros c Hc.
  rewrite (rct_clause_eq _ _ _ m Hc), checkReceipts_eq. simpl.
  assert (Hin : bool_decide (rct_TxHash rct ∈ if rf_MatchTxs f then hashes else []) =
                rf_MatchTxs f && bool_decide (r_TxID m ∈ ids)).
  { destruct (rf_MatchTxs f); simpl.
    - by apply bool_decide_ext.
    - done. }
  rewrite Hin. destruct (length (rf_LogAddresses f) =? 0)%nat eqn:Ea; simpl.
  - destruct (hasTopics (rf_Topics f)) eqn:Et; simpl.
    + rewrite !andb_false_r, orb_false_r, andb_true_r. apply orb_comm.
    + rewrite no_topics_filterMatch by done. simpl.
      destruct (rf_MatchTxs f && (0 <? length ids)%nat); simpl; by rewrite ?orb_true_r.
  - rewrite andb_false_r, orb_false_r. apply orb_comm.
Qed.

(** Transactions.  SQL requires the source and the destination to be wanted
    when both are given, the live filter requires one of them; the two agree
    when at most one of the lists is given, and SQL never returns a row the
    live filter would drop. *)
Theorem txs_live_vs_historical f t :
  let live := checkTransactionAddrs (tf_Src f) (tf_Dst f) (tx_Src t) (tx_Dst t) in
  (tf_Src f = [] ∨ tf_Dst f = [] → live = tx_clause f t) ∧
  (tx_clause f t = true → live = true) ∧
  (tf_Src f ≠ [] → tf_Dst f ≠ [] →
    live = true ∧ tx_clause f t = false ↔
    (tx_Src t ∈ tf_Src f ∧ tx_Dst t ∉ tf_Dst f) ∨ (tx_Src t ∉ tf_Src f ∧ tx_Dst t ∈ tf_Dst f)).
Proof.
  intros live. unfold live, tx_clause, any_of. split_and!.
  - intros Hor. apply eq_true_iff_eq. rewrite checkTransactionAddrs_spec.
    destruct (tf_Src f) as [|s ss], (tf_Dst f) as [|d ds]; simpl;
      rewrite ?andb_true_r, ?andb_true_iff, ?bool_decide_eq_true; set_solver.
  - rewrite checkTransactionAddrs_spec.
    destruct (tf_Src f) as [|s ss], (tf_Dst f) as [|d ds]; simpl;
      rewrite ?andb_true_r, ?andb_true_iff, ?bool_decide_eq_true; set_solver.
  - intros Hs Hd. rewrite checkTransactionAddrs_spec.
    destruct (tf_Src f) as [|s ss] eqn:Es, (tf_Dst f) as [|d ds] eqn:Ed; try done.
    cbn [length Nat.ltb Nat.leb].
    rewrite andb_false_iff, !bool_decide_eq_false.
    destruct (decide (tx_Src t ∈ s :: ss)), (decide (tx_Dst t ∈ d :: ds)); naive_solver.
Qed.

Section StateNodes.
Context `{GethCommonLaws} `{CidLib}.

(** Membership of a leaf key among the wanted keys survives the detour
    through the strings stored in the database. *)
Lemma stored_key_match (ks : list bytes) (k : bytes) :
  Forall (λ k', length k' = 32%nat ∧ Hash_String k' ≠ nullHash) ks → length k = 32%nat →
  any_of (map Hash_String ks) (non_null (Hash_String k)) = bool_decide (k ∈ ks).
Proof.
  intros Hks Hk. rewrite Forall_forall in Hks. unfold any_of, non_null. apply bool_decide_ext.
  rewrite list_elem_of_fmap. case_bool_decide as Hn.
  - split.
    + intros (k' & E & Hk'). symmetry in E. by apply Hash_String_nonempty in E.
    + intros Hin. by destruct (Hks k Hin).
  - split.
    + intros (k' & E & Hk'). destruct (Hks k' Hk') as [Hl _].
      rewrite <- (HexToHash_Hash_String k), E, HexToHash_Hash_String by done. done.
    + intros Hin. by exists k.
Qed.

Lemma stored_key_clause (ks : list bytes) (k : bytes) :
  Forall (λ k', length k' = 32%nat ∧ Hash_String k' ≠ nullHash) ks → length k = 32%nat →
  (if (0 <? length ks)%nat then any_of (map Hash_String ks) (non_null (Hash_String k)) else true)
  = checkNodeKeys ks k.
Proof.
  intros Hks Hk. rewrite stored_key_match by done.
  unfold checkNodeKeys. rewrite existsb_decide. by destruct ks.
Qed.

Lemma address_hashes_keys addrs : address_hashes addrs = map Hash_String (address_keys addrs).
Proof. unfold address_hashes, address_keys. by rewrite map_map. Qed.

Lemma address_keys_length addrs : length (address_keys addrs) = length addrs.
Proof. apply length_map. Qed.

(** The row the indexer stores for a state node. *)
Definition stored_state (n : TrieNode) (cid : string) (headerID id : Z) : StateNodeModel :=
  let m := state_model n cid in state_row m (non_null (s_StateKey m)) headerID id.

Definition stored_storage (n : TrieNode) (cid : string) (stateID id : Z) : StorageNodeModel :=
  let m := storage_model n cid in storage_row m (non_null (st_StorageKey m)) stateID id.

Definition usable_key (k : bytes) : Prop := length k = 32%nat ∧ Hash_String k ≠ nullHash.

(** State nodes.  The live filter packages a state node exactly when the
    subscription is not off and the SQL query returns the row stored for it. *)
Theorem state_live_vs_historical f n cid headerID id l :
  Forall usable_key (address_keys (sf_Addresses f)) → length (n_LeafKey n) = 32%nat →
  filter_state_node f (address_keys (sf_Addresses f)) n = Ok l →
  l ≠ [] ↔ sf_Off f = false ∧ state_clause f (stored_state n cid headerID id) = true.
Proof.
  intros Hks Hk. unfold filter_state_node, state_clause. cbn [s_StateKey s_NodeType stored_state
    state_row state_model].
  rewrite address_hashes_keys, <- (address_keys_length (sf_Addresses f)), stored_key_clause by done.
  rewrite ResolveFromNodeType_leaf.
  destruct (sf_Off f); simpl; [intros [= <-]; naive_solver|].
  destruct (checkNodeKeys _ _); simpl; [|intros [= <-]; naive_solver].
  destruct (sf_IntermediateNodes f); simpl; rewrite ?orb_true_r, ?orb_false_r.
  2: case_bool_decide.
  all: first [intros (b & _ & [= <-])%rbind_Ok_inv; naive_solver | intros [= <-]; naive_solver].
Qed.

(** Storage nodes.  With storage keys given as full hashes, SQL returns the
    row stored for a storage node exactly when the live filter packages it and,
    in addition, the node is a leaf or intermediate nodes were asked for: the
    live filter does not look at that flag. *)
Theorem storage_live_vs_historical f keys sn n scid cid headerID sid id l :
  Forall usable_key (address_keys (stf_Addresses f)) → Forall usable_key keys →
  stf_StorageKeys f = map Hash_String keys →
  length (n_LeafKey sn) = 32%nat → length (n_LeafKey n) = 32%nat →
  filter_storage_node (map HexToHash (stf_StorageKeys f)) sn n = Ok l →
  storage_clause f (stored_storage n cid sid id) (stored_state sn scid headerID sid) = true ↔
  (checkNodeKeys (address_keys (stf_Addresses f)) (n_LeafKey sn) = true ∧ l ≠ []) ∧
  (stf_IntermediateNodes f = true ∨ n_Type n = Leaf).
Proof.
  intros Ha Hks Hkeys Hsn Hn. unfold filter_storage_node, storage_clause.
  cbn [s_StateKey s_NodeType stored_state state_row state_model st_StorageKey st_NodeType
    stored_storage storage_row storage_model].
  rewrite address_hashes_keys, <- (address_keys_length (stf_Addresses f)), stored_key_clause by done.
  assert (Hmap : map HexToHash (map Hash_String keys) = keys).
  { rewrite map_map. clear -Hks H0. induction Hks as [|k ks [Hl _] _ IH]; simpl; [done|].
    by rewrite HexToHash_Hash_String, IH. }
  rewrite Hkeys, Hmap, length_map, stored_key_clause, ResolveFromNodeType_leaf by done.
  destruct (checkNodeKeys keys _); [intros (b & _ & [= <-])%rbind_Ok_inv|intros [= <-]].
  all: rewrite !andb_true_iff; destruct (stf_IntermediateNodes f); simpl;
    rewrite ?bool_decide_eq_true; naive_solver.
Qed.

End StateNodes.

(** ** Witnesses *)

Section Witnesses.
#[local] Existing Instance Concrete.geth.
#[local] Existing Instance Concrete.geth_laws.
#[local] Existing Instance Concrete.cidlib.

(** A subscription that only matches transactions. *)
Definition match_txs_only : ReceiptFilter :=
  {| rf_Off := false; rf_MatchTxs := true; rf_LogAddresses := []; rf_Topics := [] |}.
Definition ex_rct : Receipt := {| rct_RLP := Ok [7]; rct_TxHash := [1]; rct_GasUsed := 0;
  rct_ContractAddress := []; rct_Logs := [] |}.
Definition ex_rct_model : ReceiptModel := {| r_ID := 1; r_TxID := 5; r_CID := "c";
  r_Contract := ""; r_ContractHash := ""; r_LogContracts := []; r_Topic0s := ["t"];
  r_Topic1s := []; r_Topic2s := []; r_Topic3s := [] |}.

(** The receipt of an unmatched transaction: kept live, not returned by SQL. *)
Lemma receipts_live_vs_historical_witness :
  ((rct_TxHash ex_rct ∈ [[2]] ↔ r_TxID ex_rct_model ∈ [6]) ∧ length [[2]] = length [6]) ∧
  is_ok (rct_clause match_txs_only [6]) = negb (topics_beyond []) ∧
  ∀ c, rct_clause match_txs_only [6] = Ok c →
    checkReceipts ex_rct [] (topics_of ex_rct_model) [] [] [[2]] =
    c ex_rct_model || (true && (0 <? length [6%Z])%nat && (length (@nil string) =? 0)%nat
                       && negb (hasTopics [])).
Proof.
  split.
  - split; [|reflexivity].
    split; [intros Hc%list_elem_of_singleton|intros Hc%list_elem_of_singleton]; discriminate Hc.
  - apply (receipts_live_vs_historical match_txs_only ex_rct_model ex_rct [[2]] [6]); [|reflexivity].
    split; [intros Hc%list_elem_of_singleton|intros Hc%list_elem_of_singleton]; discriminate Hc.
Defined.

Definition ex_key : bytes := replicate 31 0 ++ [9].
Definition ex_node : TrieNode :=
  {| n_Path := [1]; n_LeafKey := ex_key; n_Value := [3]; n_Type := Leaf |}.
Definition ex_state_filter : StateFilter :=
  {| sf_Off := false; sf_Addresses := [Hash_String ex_key]; sf_IntermediateNodes := false |}.
Definition ex_ipld (codec : Z) : BlockModel := mkBlock (Concrete.of_bits (encode (codec, [3]))) [3].

Lemma state_live_vs_historical_witness :
  let l := [{| sn_StateLeafKey := ex_key; sn_Path := [1]; sn_IPLD := ex_ipld MEthStateTrie;
               sn_Type := Leaf |}] in
  filter_state_node ex_state_filter (address_keys (sf_Addresses ex_state_filter)) ex_node = Ok l ∧
  (l ≠ [] ↔ sf_Off ex_state_filter = false ∧
            state_clause ex_state_filter (stored_state ex_node "c" 1 1) = true).
Proof.
  intros l. assert (Hf : filter_state_node ex_state_filter
    (address_keys (sf_Addresses ex_state_filter)) ex_node = Ok l) by (vm_compute; reflexivity).
  split; [exact Hf|].
  apply state_live_vs_historical; [|reflexivity|exact Hf].
  repeat constructor. intros Hc. vm_compute in Hc. discriminate Hc.
Defined.

Definition ex_storage_filter : StorageFilter :=
  {| stf_Off := false; stf_Addresses := []; stf_StorageKeys := [Hash_String ex_key];
     stf_IntermediateNodes := false |}.

(** An intermediate node is packaged live but not returned by SQL. *)
Definition ex_branch : TrieNode :=
  {| n_Path := [1]; n_LeafKey := ex_key; n_Value := [3]; n_Type := Branch |}.

Lemma storage_live_vs_historical_witness :
  let l := [{| stn_StateLeafKey := ex_key; stn_StorageLeafKey := ex_key;
               stn_IPLD := ex_ipld MEthStorageTrie; stn_Type := Branch; stn_Path := [1] |}] in
  filter_storage_node (map HexToHash (stf_StorageKeys ex_storage_filter)) ex_node ex_branch = Ok l ∧
  (storage_clause ex_storage_filter (stored_storage ex_branch "c" 1 1)
     (stored_state ex_node "d" 1 1) = true ↔
   (checkNodeKeys (address_keys (stf_Addresses ex_storage_filter)) (n_LeafKey ex_node) = true
    ∧ l ≠ []) ∧
   (stf_IntermediateNodes ex_storage_filter = true ∨ n_Type ex_branch = Leaf)).
Proof.
  intros l. assert (Hf : filter_storage_node (map HexToHash (stf_StorageKeys ex_storage_filter))
    ex_node ex_branch = Ok l) by (vm_compute; reflexivity).
  split; [exact Hf|].
  apply (storage_live_vs_historical ex_storage_filter [ex_key]); try reflexivity; [exact (Forall_nil_2 _)|].
  repeat constructor. intros Hc. vm_compute in Hc. discriminate Hc.
Defined.

Definition ex_tx_filter : TxFilter := {| tf_Off := false; tf_Src := ["a"]; tf_Dst := ["b"] |}.
Definition ex_tx_model : TxModel := {| tx_ID := 1; tx_HeaderID := 1; tx_Index := 0;
  tx_TxHash := "h"; tx_CID := "c"; tx_Dst := "x"; tx_Src := "a" |}.

(** A transaction from a wanted source to an unwanted destination. *)
Lemma txs_live_vs_historical_witness :
  let live := checkTransactionAddrs (tf_Src ex_tx_filter) (tf_Dst ex_tx_filter) "a" "x" in
  (tf_Src ex_tx_filter = [] ∨ tf_Dst ex_tx_filter = [] → live = tx_clause ex_tx_filter ex_tx_model) ∧
  (tx_clause ex_tx_filter ex_tx_model = true → live = true) ∧
  (tf_Src ex_tx_filter ≠ [] → tf_Dst ex_tx_filter ≠ [] →
    live = true ∧ tx_clause ex_tx_filter ex_tx_model = false ↔
    ("a" ∈ tf_Src ex_tx_filter ∧ "x" ∉ tf_Dst ex_tx_filter)
    ∨ ("a" ∉ tf_Src ex_tx_filter ∧ "x" ∈ tf_Dst ex_tx_filter)).
Proof. apply (txs_live_vs_historical ex_tx_filter ex_tx_model). Defined.

End Witnesses.
