(* ===== verification/EthCleaner.v ===== *)
(** * Cleaning the eth tables (pkg/super_node/eth/cleaner.go)

    DELETE ... USING keeps the rows for which no combination of the joined
    rows satisfies the condition.  Deleting a row deletes the rows that
    reference it (ON DELETE CASCADE in db/schema.sql). *)

From S2P Require Import Prelude GoInt ChainTypes Geth EthModel Sql Blocks Cleaning EthDB.

Definition between (r : rng) (h : HeaderModel) : Prop := r.1 ≤ h_BlockNumber h ≤ r.2.
#[export] Instance between_dec r h : Decision (between r h).
Proof. unfold between. apply _. Defined.

(** Ids of the rows below a header, a transaction or a state node in range. *)
Definition header_ids (r : rng) (d : EthDB) : list Z := map h_ID (filter (between r) (header_cids d)).
Definition tx_ids (hids : list Z) (d : EthDB) : list Z :=
  map tx_ID (filter (λ t, tx_HeaderID t ∈ hids) (transaction_cids d)).
Definition state_ids (hids : list Z) (d : EthDB) : list Z :=
  map s_ID (filter (λ s, s_HeaderID s ∈ hids) (state_cids d)).

(** ** Deletions with their cascades *)

Definition delete_txs (hids : list Z) (d : EthDB) : EthDB :=
  let gone := tx_ids hids d in
  set_receipts (filter (λ r, r_TxID r ∉ gone) (receipt_cids d))
    (set_transactions (filter (λ t, tx_HeaderID t ∉ hids) (transaction_cids d)) d).

Definition delete_states (hids : list Z) (d : EthDB) : EthDB :=
  let gone := state_ids hids d in
  set_accounts (filter (λ a, a_StateID a ∉ gone) (state_accounts d))
    (set_storages (filter (λ st, st_StateID st ∉ gone) (storage_cids d))
      (set_states (filter (λ s, s_HeaderID s ∉ hids) (state_cids d)) d)).

Definition delete_uncles (hids : list Z) (d : EthDB) : EthDB :=
  set_uncles (filter (λ u, u_HeaderID u ∉ hids) (uncle_cids d)) d.

Definition delete_headers (r : rng) (d : EthDB) : EthDB :=
  let hids := header_ids r d in
  set_headers (filter (λ h, ¬ between r h) (header_cids d))
    (delete_uncles hids (delete_txs hids (delete_states hids d))).

(** ** The statements *)

(** The rows each DELETE removes, as functions of the tables. *)
Definition drop_storage_iplds (r : rng) (d : EthDB) : EthDB :=
  delete_blocks (map st_CID (filter (λ st, st_StateID st ∈ state_ids (header_ids r d) d)
    (storage_cids d))) d.
Definition drop_storages (r : rng) (d : EthDB) : EthDB :=
  let sids := state_ids (header_ids r d) d in
  set_storages (filter (λ st, st_StateID st ∉ sids) (storage_cids d)) d.
Definition drop_state_iplds (r : rng) (d : EthDB) : EthDB :=
  delete_blocks (map s_CID (filter (λ s, s_HeaderID s ∈ header_ids r d) (state_cids d))) d.
Definition drop_receipt_iplds (r : rng) (d : EthDB) : EthDB :=
  delete_blocks (map r_CID (filter (λ x, r_TxID x ∈ tx_ids (header_ids r d) d)
    (receipt_cids d))) d.
Definition drop_receipts (r : rng) (d : EthDB) : EthDB :=
  let txids := tx_ids (header_ids r d) d in
  set_receipts (filter (λ x, r_TxID x ∉ txids) (receipt_cids d)) d.
Definition drop_tx_iplds (r : rng) (d : EthDB) : EthDB :=
  delete_blocks (map tx_CID (filter (λ t, tx_HeaderID t ∈ header_ids r d) (transaction_cids d))) d.
Definition drop_uncle_iplds (r : rng) (d : EthDB) : EthDB :=
  delete_blocks (map u_CID (filter (λ u, u_HeaderID u ∈ header_ids r d) (uncle_cids d))) d.
Definition drop_header_iplds (r : rng) (d : EthDB) : EthDB :=
  delete_blocks (map h_CID (filter (between r) (header_cids d))) d.

Definition cleanStorageIPLDs (r : rng) : DB EthDB unit := exec_rng r (drop_storage_iplds r).
Definition cleanStorageMetaData (r : rng) : DB EthDB unit := exec_rng r (drop_storages r).
Definition cleanStateIPLDs (r : rng) : DB EthDB unit := exec_rng r (drop_state_iplds r).
Definition cleanStateMetaData (r : rng) : DB EthDB unit :=
  exec_rng r (λ d, delete_states (header_ids r d) d).
Definition cleanReceiptIPLDs (r : rng) : DB EthDB unit := exec_rng r (drop_receipt_iplds r).
Definition cleanReceiptMetaData (r : rng) : DB EthDB unit := exec_rng r (drop_receipts r).
Definition cleanTransactionIPLDs (r : rng) : DB EthDB unit := exec_rng r (drop_tx_iplds r).
Definition cleanTransactionMetaData (r : rng) : DB EthDB unit :=
  exec_rng r (λ d, delete_txs (header_ids r d) d).
Definition cleanUncleIPLDs (r : rng) : DB EthDB unit := exec_rng r (drop_uncle_iplds r).
Definition cleanUncleMetaData (r : rng) : DB EthDB unit :=
  exec_rng r (λ d, delete_uncles (header_ids r d) d).
Definition cleanHeaderIPLDs (r : rng) : DB EthDB unit := exec_rng r (drop_header_iplds r).
Definition cleanHeaderMetaData (r : rng) : DB EthDB unit := exec_rng r (delete_headers r).

Definition cleanFull (r : rng) : DB EthDB unit :=
  cleanStorageIPLDs r ;;; cleanStateIPLDs r ;;; cleanReceiptIPLDs r ;;;
  cleanTransactionIPLDs r ;;; cleanUncleIPLDs r ;;; cleanHeaderIPLDs r ;;;
  cleanHeaderMetaData r.

Definition err_type (t : DataType) : error :=
  Errorf ("eth cleaner unrecognized type: " +:+ DataType_String t).

Definition clean (r : rng) (t : DataType) : DB EthDB unit :=
  match t with
  | Full | Headers => cleanFull r
  | Uncles => cleanUncleIPLDs r ;;; cleanUncleMetaData r
  | Transactions => cleanReceiptIPLDs r ;;; cleanTransactionIPLDs r ;;; cleanTransactionMetaData r
  | Receipts => cleanReceiptIPLDs r ;;; cleanReceiptMetaData r
  | State => cleanStorageIPLDs r ;;; cleanStateIPLDs r ;;; cleanStateMetaData r
  | Storage => cleanStorageIPLDs r ;;; cleanStorageMetaData r
  | UnknownDataType => db_fail (err_type t)
  end.

(** ** VACUUM ANALYZE: on the connection, no change to the rows *)

Definition vacuumHeaders : DB EthDB unit := vacuum "eth.header_cids".
Definition vacuumUncles : DB EthDB unit := vacuum "eth.uncle_cids".
Definition vacuumTxs : DB EthDB unit := vacuum "eth.transaction_cids".
Definition vacuumRcts : DB EthDB unit := vacuum "eth.receipt_cids".
Definition vacuumState : DB EthDB unit := vacuum "eth.state_cids".
Definition vacuumAccounts : DB EthDB unit := vacuum "eth.state_accounts".
Definition vacuumStorage : DB EthDB unit := vacuum "eth.storage_cids".
Definition vacuumIPLDs : DB EthDB unit := vacuum "public.blocks".

Definition vacuumFull : DB EthDB unit :=
  vacuumHeaders ;;; vacuumUncles ;;; vacuumTxs ;;; vacuumRcts ;;; vacuumState ;;;
  vacuumAccounts ;;; vacuumStorage.

Definition vacuumAnalyze (t : DataType) : DB EthDB unit :=
  match t with
  | Full | Headers => vacuumFull
  | Uncles => vacuumUncles ;;; vacuumIPLDs
  | Transactions => vacuumTxs ;;; vacuumRcts ;;; vacuumIPLDs
  | Receipts => vacuumRcts ;;; vacuumIPLDs
  | State => vacuumState ;;; vacuumAccounts ;;; vacuumStorage ;;; vacuumIPLDs
  | Storage => vacuumStorage ;;; vacuumIPLDs
  | UnknownDataType => db_fail (err_type t)
  end.

(** ** Clean, ResetValidation *)

Definition Clean (rngs : list rng) (t : DataType) : DB EthDB unit :=
  transact (db_for (λ r, clean r t) rngs) ;;;
  vacuumAnalyze t.

Definition reset_header (h : HeaderModel) : HeaderModel := {|
  h_ID := h_ID h; h_BlockNumber := h_BlockNumber h; h_BlockHash := h_BlockHash h;
  h_ParentHash := h_ParentHash h; h_CID := h_CID h; h_TotalDifficulty := h_TotalDifficulty h;
  h_NodeID := h_NodeID h; h_Reward := h_Reward h; h_StateRoot := h_StateRoot h;
  h_UncleRoot := h_UncleRoot h; h_TxRoot := h_TxRoot h; h_RctRoot := h_RctRoot h;
  h_Bloom := h_Bloom h; h_Timestamp := h_Timestamp h; h_TimesValidated := 0 |}.

Definition ResetValidation (rngs : list rng) : DB EthDB unit :=
  transact (db_for (λ r, exec_rng r (λ d,
    set_headers (map (λ h, if decide (between r h) then reset_header h else h) (header_cids d)) d))
    rngs).

(** ** Lemmas: the effect of a cleaning transaction *)

Definition clean_tables (t : DataType) (r : rng) (d : EthDB) : EthDB :=
  match t with
  | Full | Headers => delete_headers r (drop_header_iplds r (drop_uncle_iplds r (drop_tx_iplds r
      (drop_receipt_iplds r (drop_state_iplds r (drop_storage_iplds r d))))))
  | Uncles => (λ d, delete_uncles (header_ids r d) d) (drop_uncle_iplds r d)
  | Transactions =>
      (λ d, delete_txs (header_ids r d) d) (drop_tx_iplds r (drop_receipt_iplds r d))
  | Receipts => drop_receipts r (drop_receipt_iplds r d)
  | State => (λ d, delete_states (header_ids r d) d) (drop_state_iplds r (drop_storage_iplds r d))
  | Storage => drop_storages r (drop_storage_iplds r d)
  | UnknownDataType => d
  end.

#[local] Ltac acts_seq :=
  repeat first [ apply exec_rng_acts
               | refine (acts_bind _ _ _ _ (exec_rng_acts _ _) _); intros [] ].

Lemma clean_acts t r : acts (clean r t) (clean_tables t r).
Proof.
  destruct t; unfold clean, cleanFull, clean_tables; try acts_seq.
  intros d0. apply fail_ensures.
Qed.

Lemma vacuum_quiet (t : DataType) : quiet (vacuumAnalyze t).
Proof. destruct t; solve_quiet. Qed.

(** [Clean] applied every range, or nothing. *)
Lemma Clean_tables rngs t o s :
  let '(r, s') := Clean rngs t o s in
  let cleaned := foldl (λ d r, clean_tables t r d) (tables s) rngs in
  (is_DOk r = true → tables s' = cleaned) ∧
  (is_DOk r = false → tables s' = tables s ∨ tables s' = cleaned).
Proof.
  exact (transact_then_quiet _ _ _ o s (acts_for _ (clean_tables t) rngs (clean_acts t)) (vacuum_quiet t)).
Qed.

(** ** What [Clean] removes *)

Definition in_ranges (rngs : list rng) (h : HeaderModel) : Prop := Exists (λ r, between r h) rngs.

(** Ids of the headers in one of the ranges. *)
Definition header_ids_in (rngs : list rng) (d : EthDB) : list Z :=
  map h_ID (filter (in_ranges rngs) (header_cids d)).

(** The tables whose rows a data type covers. *)
Definition covers_headers (t : DataType) : bool :=
  match t with Full | Headers => true | _ => false end.
Definition covers_uncles (t : DataType) : bool :=
  match t with Full | Headers | Uncles => true | _ => false end.
Definition covers_txs (t : DataType) : bool :=
  match t with Full | Headers | Transactions => true | _ => false end.
Definition covers_rcts (t : DataType) : bool :=
  match t with Full | Headers | Transactions | Receipts => true | _ => false end.
Definition covers_states (t : DataType) : bool :=
  match t with Full | Headers | State => true | _ => false end.
Definition covers_storages (t : DataType) : bool :=
  match t with Full | Headers | State | Storage => true | _ => false end.

(** [d'] is [d] without the rows of type [t] below a header in the ranges. *)
Record cleaned (t : DataType) (rngs : list rng) (d d' : EthDB) : Prop := {
  cl_headers : header_cids d' =
    only_if (covers_headers t) (λ h, ¬ in_ranges rngs h) (header_cids d);
  cl_uncles : uncle_cids d' =
    only_if (covers_uncles t) (λ u, u_HeaderID u ∉ header_ids_in rngs d) (uncle_cids d);
  cl_txs : transaction_cids d' =
    only_if (covers_txs t) (λ x, tx_HeaderID x ∉ header_ids_in rngs d) (transaction_cids d);
  cl_rcts : receipt_cids d' =
    only_if (covers_rcts t) (λ r, r_TxID r ∉ tx_ids (header_ids_in rngs d) d) (receipt_cids d);
  cl_states : state_cids d' =
    only_if (covers_states t) (λ x, s_HeaderID x ∉ header_ids_in rngs d) (state_cids d);
  cl_accounts : state_accounts d' =
    only_if (covers_states t) (λ a, a_StateID a ∉ state_ids (header_ids_in rngs d) d)
      (state_accounts d);
  cl_storages : storage_cids d' =
    only_if (covers_storages t) (λ x, st_StateID x ∉ state_ids (header_ids_in rngs d) d)
      (storage_cids d)
}.

Lemma elem_of_header_ids_in rngs d x :
  x ∈ header_ids_in rngs d ↔ ∃ h, h ∈ header_cids d ∧ in_ranges rngs h ∧ h_ID h = x.
Proof.
  unfold header_ids_in. rewrite list_elem_of_fmap.
  setoid_rewrite list_elem_of_filter. naive_solver.
Qed.

Lemma elem_of_tx_ids hids d x :
  x ∈ tx_ids hids d ↔ ∃ t, t ∈ transaction_cids d ∧ tx_HeaderID t ∈ hids ∧ tx_ID t = x.
Proof.
  unfold tx_ids. rewrite list_elem_of_fmap. setoid_rewrite list_elem_of_filter. naive_solver.
Qed.

Lemma elem_of_state_ids hids d x :
  x ∈ state_ids hids d ↔ ∃ t, t ∈ state_cids d ∧ s_HeaderID t ∈ hids ∧ s_ID t = x.
Proof.
  unfold state_ids. rewrite list_elem_of_fmap. setoid_rewrite list_elem_of_filter. naive_solver.
Qed.

Lemma in_ranges_cons r rngs h : in_ranges (r :: rngs) h ↔ between r h ∨ in_ranges rngs h.
Proof. apply Exists_cons. Qed.

Section Compose.
Context (t : DataType) (r : rng) (rngs : list rng) (d d1 : EthDB).
Hypothesis H1 : cleaned t [r] d d1.

(** The ids in range, before and after the first range is cleaned. *)
Lemma header_ids_compose x :
  x ∈ header_ids_in (r :: rngs) d ↔ x ∈ header_ids_in [r] d ∨ x ∈ header_ids_in rngs d1.
Proof.
  rewrite !elem_of_header_ids_in, (cl_headers _ _ _ _ H1).
  setoid_rewrite elem_of_only_if. setoid_rewrite in_ranges_cons.
  assert (Hno : ∀ h, in_ranges [] h ↔ False) by (intros h; apply Exists_nil).
  setoid_rewrite Hno. split.
  - intros (h & Hh & Hr & Hx). destruct (decide (between r h)); [left|right]; exists h; tauto.
  - intros [(h & Hh & Hr & Hx)|(h & Hh & Hr & Hx)]; exists h; tauto.
Qed.

Lemma tx_ids_compose x :
  x ∈ tx_ids (header_ids_in (r :: rngs) d) d ↔
  x ∈ tx_ids (header_ids_in [r] d) d ∨ x ∈ tx_ids (header_ids_in rngs d1) d1.
Proof.
  rewrite !elem_of_tx_ids, (cl_txs _ _ _ _ H1).
  setoid_rewrite elem_of_only_if. setoid_rewrite header_ids_compose. split.
  - intros (h & Hh & Hr & Hx). destruct (decide (tx_HeaderID h ∈ header_ids_in [r] d)); naive_solver.
  - naive_solver.
Qed.

Lemma state_ids_compose x :
  x ∈ state_ids (header_ids_in (r :: rngs) d) d ↔
  x ∈ state_ids (header_ids_in [r] d) d ∨ x ∈ state_ids (header_ids_in rngs d1) d1.
Proof.
  rewrite !elem_of_state_ids, (cl_states _ _ _ _ H1).
  setoid_rewrite elem_of_only_if. setoid_rewrite header_ids_compose. split.
  - intros (h & Hh & Hr & Hx). destruct (decide (s_HeaderID h ∈ header_ids_in [r] d)); naive_solver.
  - naive_solver.
Qed.

Lemma cleaned_cons d2 : cleaned t rngs d1 d2 → cleaned t (r :: rngs) d d2.
Proof.
  intros H2. pose proof header_ids_compose. pose proof tx_ids_compose. pose proof state_ids_compose.
  assert (Hno : ∀ h, ¬ in_ranges [] h) by (intros h Hn; inversion Hn).
  destruct H1 as [A1 A2 A3 A4 A5 A6 A7], H2 as [B1 B2 B3 B4 B5 B6 B7]. split.
  - rewrite B1. eapply only_if_only_if; [apply A1|]. intros h. rewrite !in_ranges_cons.
    specialize (Hno h). tauto.
  - rewrite B2. eapply only_if_only_if; [apply A2|]. naive_solver.
  - rewrite B3. eapply only_if_only_if; [apply A3|]. naive_solver.
  - rewrite B4. eapply only_if_only_if; [apply A4|]. naive_solver.
  - rewrite B5. eapply only_if_only_if; [apply A5|]. naive_solver.
  - rewrite B6. eapply only_if_only_if; [apply A6|]. naive_solver.
  - rewrite B7. eapply only_if_only_if; [apply A7|]. naive_solver.
Qed.

End Compose.

Lemma cleaned_nil t d : cleaned t [] d d.
Proof.
  assert (Hno : ∀ h, ¬ in_ranges [] h) by (intros h Hn; inversion Hn).
  assert (Hids : ∀ x, x ∉ header_ids_in [] d)
    by (intros x (h & _ & Hh & _)%elem_of_header_ids_in; by apply (Hno h)).
  split; symmetry; apply only_if_true; auto.
  - intros x Hx. apply elem_of_tx_ids in Hx as (? & _ & Hx & _). by apply Hids in Hx.
  - intros x Hx. apply elem_of_state_ids in Hx as (? & _ & Hx & _). by apply Hids in Hx.
  - intros x Hx. apply elem_of_state_ids in Hx as (? & _ & Hx & _). by apply Hids in Hx.
Qed.

Lemma header_ids_in_one r d : header_ids_in [r] d = header_ids r d.
Proof.
  unfold header_ids_in, header_ids. f_equal. apply list_filter_iff. intros h.
  unfold in_ranges. rewrite Exists_cons, Exists_nil. tauto.
Qed.

(** One range: the statements of [clean]. *)
Lemma clean_tables_cleaned t r d : cleaned t [r] d (clean_tables t r d).
Proof.
  assert (Hf : filter (λ h, ¬ in_ranges [r] h) (header_cids d) =
               filter (λ h, ¬ between r h) (header_cids d)).
  { apply list_filter_iff. intros h. unfold in_ranges. rewrite Exists_cons, Exists_nil. tauto. }
  destruct t; split; rewrite ?header_ids_in_one; simpl; rewrite ?Hf; reflexivity.
Qed.

Lemma clean_all_cleaned t rngs : ∀ d, cleaned t rngs d (foldl (λ d r, clean_tables t r d) d rngs).
Proof.
  induction rngs as [|r rngs IH]; intros d; simpl; [apply cleaned_nil|].
  eapply cleaned_cons; [apply clean_tables_cleaned|apply IH].
Qed.

(** ** Properties *)

(** [Clean] removes exactly the rows of the data type's tables below the
    headers in the given ranges -- cascades included, nothing outside the
    ranges, whatever their order or overlap; when it reports an error, either
    nothing was removed or everything was (the VACUUM after the commit
    failed). *)
Theorem Clean_exact rngs t o s :
  let '(r, s') := Clean rngs t o s in
  cleaned t rngs (tables s) (tables s') ∨ is_DOk r = false ∧ tables s' = tables s.
Proof.
  pose proof (Clean_tables rngs t o s) as Ht. destruct (Clean rngs t o s) as [r s'].
  pose proof (clean_all_cleaned t rngs (tables s)) as Hc.
  destruct Ht as [Ht1 Ht2]. destruct r as [a|b e|w]; simpl in *.
  - left. by rewrite Ht1.
  - destruct (Ht2 eq_refl) as [->| ->]; auto.
  - destruct (Ht2 eq_refl) as [->| ->]; auto.
Qed.

(** ** The schema invariant and the IPLD blocks *)

Lemma cleaned_wf t rngs d d' q : wf d q → cleaned t rngs d d' → wf d' q.
Proof.
  intros [??????? F1 F2 F3 F4 F5 F6] [C1 C2 C3 C4 C5 C6 C7].
  assert (Hh : ∀ x h, x ∉ header_ids_in rngs d → h ∈ header_cids d → h_ID h = x →
    ¬ in_ranges rngs h).
  { intros x h Hx Hin Heq Hr. apply Hx, elem_of_header_ids_in. eauto. }
  assert (Ht : ∀ x y, x ∉ tx_ids (header_ids_in rngs d) d → y ∈ transaction_cids d → tx_ID y = x →
    tx_HeaderID y ∉ header_ids_in rngs d).
  { intros x y Hx Hin Heq Hr. apply Hx, elem_of_tx_ids. eauto. }
  assert (Hs : ∀ x y, x ∉ state_ids (header_ids_in rngs d) d → y ∈ state_cids d → s_ID y = x →
    s_HeaderID y ∉ header_ids_in rngs d).
  { intros x y Hx Hin Heq Hr. apply Hx, elem_of_state_ids. eauto. }
  split; rewrite ?C1, ?C2, ?C3, ?C4, ?C5, ?C6, ?C7; eauto using table_ok_only_if;
    (apply fk_only_if; [by destruct t|eauto|done]).
Qed.

Lemma clean_wf t r d q : wf d q → wf (clean_tables t r d) q.
Proof. intros H. eapply cleaned_wf; [apply H|apply clean_tables_cleaned]. Qed.

(** Cleaning keeps the schema well-formed under every failure pattern:
    no row is left pointing to a removed one. *)
Theorem Clean_wf rngs t o s :
  wf (tables s) (seqs s) →
  wf (tables (Clean rngs t o s).2) (seqs s).
Proof.
  intros Hwf. pose proof (Clean_tables rngs t o s) as Ht. destruct (Clean rngs t o s) as [r s'].
  assert (Hall : wf (foldl (λ d r, clean_tables t r d) (tables s) rngs) (seqs s)).
  { eapply cleaned_wf; [apply Hwf|apply clean_all_cleaned]. }
  destruct Ht as [Ht1 Ht2]. destruct r as [a|b e|w]; simpl in *.
  - by rewrite Ht1.
  - by destruct (Ht2 eq_refl) as [->| ->].
  - by destruct (Ht2 eq_refl) as [->| ->].
Qed.

(** The CIDs the metadata tables mention. *)
Definition cid_columns (d : EthDB) : list string :=
  map h_CID (header_cids d) ++ map u_CID (uncle_cids d) ++ map tx_CID (transaction_cids d) ++
  map r_CID (receipt_cids d) ++ map s_CID (state_cids d) ++ map st_CID (storage_cids d).

(** The blocks are [b], keyed by block keys, and no CID is a block key. *)
Definition blocks_apart (b : gmap string bytes) (d : EthDB) : Prop :=
  blocks d = b ∧ (∀ k, is_Some (b !! k) → is_block_key k = true) ∧
  (∀ c, c ∈ cid_columns d → is_block_key c = false).

Lemma delete_blocks_apart b cids d :
  (∀ c, c ∈ cids → c ∈ cid_columns d) → blocks_apart b d → blocks_apart b (delete_blocks cids d).
Proof.
  intros Hin (Hb & Hk & Hc). split_and!; [|done|done]. rewrite <- Hb.
  change (blocks_of (delete_blocks cids d) = blocks_of d).
  apply delete_blocks_id; [intros k; simpl; rewrite Hb; apply Hk|auto].
Qed.

Lemma shrink_apart b d d' :
  blocks d' = blocks d → (∀ c, c ∈ cid_columns d' → c ∈ cid_columns d) →
  blocks_apart b d → blocks_apart b d'.
Proof. intros Hb Hin (Hb' & Hk & Hc). split_and!; [congruence|done|]. auto. Qed.

#[local] Ltac in_columns :=
  unfold cid_columns; simpl; intros c; rewrite ?elem_of_app; naive_solver eauto using in_map_filter.

Lemma drop_iplds_apart b r d : blocks_apart b d →
  blocks_apart b (drop_storage_iplds r d) ∧ blocks_apart b (drop_state_iplds r d) ∧
  blocks_apart b (drop_receipt_iplds r d) ∧ blocks_apart b (drop_tx_iplds r d) ∧
  blocks_apart b (drop_uncle_iplds r d) ∧ blocks_apart b (drop_header_iplds r d).
Proof. intros H. split_and!; (apply delete_blocks_apart; [in_columns|done]). Qed.

Lemma drop_rows_apart b r d : blocks_apart b d →
  blocks_apart b (drop_storages r d) ∧ blocks_apart b (drop_receipts r d) ∧
  blocks_apart b (delete_states (header_ids r d) d) ∧ blocks_apart b (delete_txs (header_ids r d) d) ∧
  blocks_apart b (delete_uncles (header_ids r d) d) ∧ blocks_apart b (delete_headers r d).
Proof. intros H. split_and!; (eapply shrink_apart; [|in_columns|apply H]); done. Qed.

Lemma clean_tables_apart b t r d : blocks_apart b d → blocks_apart b (clean_tables t r d).
Proof.
  intros H. destruct t; simpl; try done;
  repeat match goal with
  | |- blocks_apart b (_ _ ?d) => first [apply (drop_iplds_apart b r d)|apply (drop_rows_apart b r d)]
  end; done.
Qed.

(** The cleaner compares block keys with CIDs, but the publishers store
    blocks under the block prefix: as long as block keys carry it and CIDs do
    not, [Clean] removes no IPLD block at all. *)
Theorem Clean_keeps_iplds rngs t o s :
  blocks_apart (blocks (tables s)) (tables s) →
  blocks (tables (Clean rngs t o s).2) = blocks (tables s).
Proof.
  intros Hap. pose proof (Clean_tables rngs t o s) as Ht. destruct (Clean rngs t o s) as [r s'].
  assert (Hall : ∀ d, blocks_apart (blocks (tables s)) d →
    blocks_apart (blocks (tables s)) (foldl (λ d r, clean_tables t r d) d rngs)).
  { clear Ht. induction rngs as [|x rngs IH]; intros d Hd; simpl; [done|].
    by apply IH, clean_tables_apart. }
  destruct Ht as [Ht1 Ht2], (Hall _ Hap) as [Hb _]. destruct r as [a|b e|w]; simpl in *.
  - by rewrite Ht1.
  - by destruct (Ht2 eq_refl) as [->| ->].
  - by destruct (Ht2 eq_refl) as [->| ->].
Qed.

(** ** ResetValidation *)

Definition reset_in (r : rng) (d : EthDB) : EthDB :=
  set_headers (map (λ h, if decide (between r h) then reset_header h else h) (header_cids d)) d.

Lemma reset_all rngs : ∀ d,
  foldl (λ d r, reset_in r d) d rngs =
  set_headers (map (λ h, if decide (in_ranges rngs h) then reset_header h else h) (header_cids d)) d.
Proof.
  assert (Hno : ∀ h, ¬ in_ranges [] h) by (intros h Hn; inversion Hn).
  induction rngs as [|r rngs IH]; intros d; cbn [foldl].
  - destruct d as [hs ? ? ? ? ? ? ?]; unfold set_headers; cbn. f_equal.
    rewrite <- (map_id hs) at 1.
    apply map_ext. intros h. destruct (decide (in_ranges [] h)); naive_solver.
  - rewrite IH. destruct d; unfold reset_in, set_headers; simpl. f_equal. rewrite map_map.
    apply map_ext. intros h.
    assert (Hin : in_ranges (r :: rngs) h ↔ between r h ∨ in_ranges rngs h) by apply in_ranges_cons.
    assert (Hsame : in_ranges rngs (reset_header h) ↔ in_ranges rngs h) by done.
    destruct (decide (between r h)); repeat case_decide; naive_solver.
Qed.

(** [ResetValidation] sets the validation count of exactly the headers in
    the ranges to zero and changes nothing else; on an error it changes
    nothing. *)
Theorem ResetValidation_exact rngs o s :
  let '(r, s') := ResetValidation rngs o s in
  tables s' = (if is_DOk r then
    set_headers (map (λ h, if decide (in_ranges rngs h) then reset_header h else h)
      (header_cids (tables s))) (tables s)
    else tables s).
Proof.
  unfold ResetValidation.
  pose proof (transact_acts _ _ o s (acts_for (λ r, exec_rng r (reset_in r)) (λ r, reset_in r) rngs
    (λ r, exec_rng_acts r (reset_in r)))) as Ht.
  fold reset_in. change (λ r : rng, exec_rng r (λ d, set_headers
    (map (λ h, if decide (between r h) then reset_header h else h) (header_cids d)) d))
    with (λ r : rng, exec_rng r (reset_in r)).
  destruct (transact _ o s) as [r s']. destruct Ht as [Ht1 Ht2].
  rewrite <- reset_all. destruct (is_DOk r); auto.
Qed.

(** ** Witnesses *)

Section Witnesses.

Definition ex_row (id n : Z) : HeaderModel := {|
  h_ID := id; h_BlockNumber := n; h_BlockHash := "0x"; h_ParentHash := "0x"; h_CID := "bagiacg";
  h_TotalDifficulty := "1"; h_NodeID := 1; h_Reward := 0; h_StateRoot := ""; h_UncleRoot := "";
  h_TxRoot := ""; h_RctRoot := ""; h_Bloom := []; h_Timestamp := 0; h_TimesValidated := 1 |}.

(** Two headers with a transaction each, and the block of the first. *)
Definition ex_db : EthDB := mkEthDB
  [ex_row 1 5; ex_row 2 6] []
  [{| tx_ID := 1; tx_HeaderID := 1; tx_Index := 0; tx_TxHash := "a"; tx_CID := "bagjqcg";
      tx_Dst := ""; tx_Src := "" |};
   {| tx_ID := 2; tx_HeaderID := 2; tx_Index := 0; tx_TxHash := "b"; tx_CID := "bagjqch";
      tx_Dst := ""; tx_Src := "" |}]
  [] [] [] [] {[ "/blocks/CIQ" := [1; 2] ]}.

Definition ex_cleanable : session EthDB := mkSession ex_db
  {[ "eth.header_cids" := 2; "eth.transaction_cids" := 2 ]} false 0%nat.

Lemma Clean_wf_witness :
  wf (tables ex_cleanable) (seqs ex_cleanable) ∧
  wf (tables (Clean [(5, 5)] Full no_faults ex_cleanable).2) (seqs ex_cleanable).
Proof.
  assert (Hwf : wf (tables ex_cleanable) (seqs ex_cleanable)).
  { split; unfold table_ok; simpl; split_and?;
      try (apply (bool_decide_unpack _); vm_compute; exact I). }
  split; [exact Hwf|]. apply (Clean_wf [(5, 5)] Full no_faults ex_cleanable Hwf).
Defined.

Lemma Clean_keeps_iplds_witness :
  length (header_cids (tables (Clean [(5, 5)] Full no_faults ex_cleanable).2)) = 1%nat ∧
  blocks (tables (Clean [(5, 5)] Full no_faults ex_cleanable).2) = blocks (tables ex_cleanable).
Proof.
  split; [vm_compute; reflexivity|].
  apply (Clean_keeps_iplds [(5, 5)] Full no_faults ex_cleanable).
  split; [reflexivity|]. split.
  - intros k [v Hv]. cbn [blocks tables ex_cleanable ex_db] in Hv.
    apply lookup_singleton_Some in Hv as [<- _]. reflexivity.
  - intros c Hc. apply (Forall_forall (λ c, is_block_key c = false)) with (x := c) in Hc; [exact Hc|].
    repeat constructor.
Defined.

End Witnesses.
