(* ===== verification/EthFetcher.v ===== *)
(** * Fetching IPLDs (pkg/super_node/eth/ipld_pg_fetcher.go, ipld_fetcher.go)

    Module [Pg] reads the blocks from public.blocks in a transaction; module
    [Ipfs] asks a block service, which answers a batch request with the blocks
    it found, in any order. *)

From S2P Require Import Prelude GoInt Decimal Geth EthModel Sql Queries Blocks EthIpld EthDB EthPublisher EthRetriever.

Module Pg.
Section Fetcher.
Context `{GethCommon} `{CidLib}.

Definition FetchHeader (c : HeaderModel) : DB EthDB BlockModel := fetch_model (h_CID c).
Definition FetchUncles (cids : list UncleModel) : DB EthDB (list BlockModel) :=
  db_collect (λ c, fetch_model (u_CID c)) cids.
Definition FetchTrxs (cids : list TxModel) : DB EthDB (list BlockModel) :=
  db_collect (λ c, fetch_model (tx_CID c)) cids.
Definition FetchRcts (cids : list ReceiptModel) : DB EthDB (list BlockModel) :=
  db_collect (λ c, fetch_model (r_CID c)) cids.

(** The loops skip rows without a CID. *)
Definition FetchState (cids : list StateNodeModel) : DB EthDB (list StateNode) :=
  db_collect (λ stateNode,
    b <-- fetch_model (s_CID stateNode) ;;
    db_ret {| sn_Type := ResolveToNodeType (s_NodeType stateNode);
              sn_StateLeafKey := HexToHash (s_StateKey stateNode);
              sn_Path := s_Path stateNode; sn_IPLD := b |})
    (filter (λ n, s_CID n ≠ "") cids).

Definition FetchStorage (cids : list StorageNodeWithStateKeyModel) : DB EthDB (list StorageNode) :=
  db_collect (λ storageNode,
    b <-- fetch_model (sk_CID storageNode) ;;
    db_ret {| stn_Type := ResolveToNodeType (sk_NodeType storageNode);
              stn_StateLeafKey := HexToHash (sk_StateKey storageNode);
              stn_StorageLeafKey := HexToHash (sk_StorageKey storageNode);
              stn_Path := sk_Path storageNode; stn_IPLD := b |})
    (filter (λ n, sk_CID n ≠ "" ∧ sk_StateKey n ≠ "") cids).

Definition Fetch_body (cidWrapper : CIDWrapper) (td : Z) : DB EthDB IPLDs :=
  header <-- wrap_err (FetchHeader (w_Header cidWrapper)) "eth pg fetcher: header fetching error" ;;
  uncles <-- wrap_err (FetchUncles (w_Uncles cidWrapper)) "eth pg fetcher: uncle fetching error" ;;
  txs <-- wrap_err (FetchTrxs (w_Transactions cidWrapper))
    "eth pg fetcher: transaction fetching error" ;;
  rcts <-- wrap_err (FetchRcts (w_Receipts cidWrapper)) "eth pg fetcher: receipt fetching error" ;;
  states <-- wrap_err (FetchState (w_StateNodes cidWrapper)) "eth pg fetcher: state fetching error" ;;
  storages <-- wrap_err (FetchStorage (w_StorageNodes cidWrapper))
    "eth pg fetcher: storage fetching error" ;;
  db_ret {| i_BlockNumber := Some (w_BlockNumber cidWrapper); i_TotalDifficulty := Some td;
            i_Header := header; i_Uncles := uncles; i_Transactions := txs; i_Receipts := rcts;
            i_StateNodes := states; i_StorageNodes := storages |}.

Definition Fetch (cidWrapper : CIDWrapper) : DB EthDB IPLDs :=
  match big_SetString (h_TotalDifficulty (w_Header cidWrapper)) with
  | None => db_fail (Errorf "eth fetcher: unable to set total difficulty")
  | Some td => transact_deferred (Fetch_body cidWrapper td)
  end.

End Fetcher.
End Pg.

Module Ipfs.
Section Fetcher.
(** The block service: a single block, or a batch in some order. *)
Context `{GethCommon} `{CidLib}.
Variable GetBlock : string → result BlockModel.
Variable GetBlocks : list string → list BlockModel.

Definition errUnexpectedNumberOfIPLDs : error :=
  Sentinel "ipfs batch fetch returned unexpected number of IPLDs".

Definition fetch (c : string) : result BlockModel := GetBlock c.
Definition fetchBatch (cids : list string) : list BlockModel := GetBlocks cids.

Definition FetchHeader (c : HeaderModel) : result BlockModel :=
  dc <-! cid_Decode (h_CID c) ;; fetch dc.

(** [FetchUncles], [FetchTrxs], [FetchRcts]: decode all, then one batch. *)
Definition fetch_all (cids : list string) : result (list BlockModel) :=
  dcs <-! range_collect cid_Decode cids ;;
  let bs := fetchBatch dcs in
  if (length bs =? length dcs)%nat then Ok bs else Err errUnexpectedNumberOfIPLDs.

Definition FetchUncles (cids : list UncleModel) : result (list BlockModel) := fetch_all (map u_CID cids).
Definition FetchTrxs (cids : list TxModel) : result (list BlockModel) := fetch_all (map tx_CID cids).
Definition FetchRcts (cids : list ReceiptModel) : result (list BlockModel) := fetch_all (map r_CID cids).

Definition FetchState (cids : list StateNodeModel) : result (list StateNode) :=
  range_collect (λ stateNode,
    dc <-! cid_Decode (s_CID stateNode) ;;
    b <-! fetch dc ;;
    Ok {| sn_Type := ResolveToNodeType (s_NodeType stateNode);
          sn_StateLeafKey := HexToHash (s_StateKey stateNode);
          sn_Path := s_Path stateNode; sn_IPLD := b |})
    (filter (λ n, s_CID n ≠ "") cids).

Definition FetchStorage (cids : list StorageNodeWithStateKeyModel) : result (list StorageNode) :=
  range_collect (λ storageNode,
    dc <-! cid_Decode (sk_CID storageNode) ;;
    b <-! fetch dc ;;
    Ok {| stn_Type := ResolveToNodeType (sk_NodeType storageNode);
          stn_StateLeafKey := HexToHash (sk_StateKey storageNode);
          stn_StorageLeafKey := HexToHash (sk_StorageKey storageNode);
          stn_Path := sk_Path storageNode; stn_IPLD := b |})
    (filter (λ n, sk_CID n ≠ "" ∧ sk_StateKey n ≠ "") cids).

Definition Fetch (cidWrapper : CIDWrapper) : result IPLDs :=
  match big_SetString (h_TotalDifficulty (w_Header cidWrapper)) with
  | None => Err (Errorf "eth fetcher: unable to set total difficulty")
  | Some td =>
      header <-! FetchHeader (w_Header cidWrapper) ;;
      uncles <-! FetchUncles (w_Uncles cidWrapper) ;;
      txs <-! FetchTrxs (w_Transactions cidWrapper) ;;
      rcts <-! FetchRcts (w_Receipts cidWrapper) ;;
      states <-! FetchState (w_StateNodes cidWrapper) ;;
      storages <-! FetchStorage (w_StorageNodes cidWrapper) ;;
      Ok {| i_BlockNumber := Some (w_BlockNumber cidWrapper); i_TotalDifficulty := Some td;
            i_Header := header; i_Uncles := uncles; i_Transactions := txs; i_Receipts := rcts;
            i_StateNodes := states; i_StorageNodes := storages |}
  end.

End Fetcher.
End Ipfs.

(** ** What [Fetch] returns *)

Section Properties.
Context `{GethCommon} `{CidLib}.

(** The CIDs a wrapper asks for, and the blocks of the answer, in order. *)
Definition wrapper_cids (w : CIDWrapper) : list string :=
  [h_CID (w_Header w)] ++ map u_CID (w_Uncles w) ++ map tx_CID (w_Transactions w) ++
  map r_CID (w_Receipts w) ++ map s_CID (filter (λ n, s_CID n ≠ "") (w_StateNodes w)) ++
  map sk_CID (filter (λ n, sk_CID n ≠ "" ∧ sk_StateKey n ≠ "") (w_StorageNodes w)).

Definition iplds_blocks (i : IPLDs) : list BlockModel :=
  [i_Header i] ++ i_Uncles i ++ i_Transactions i ++ i_Receipts i ++
  map sn_IPLD (i_StateNodes i) ++ map stn_IPLD (i_StorageNodes i).

Lemma fetch_with_evaluates {A B} (cid : A → string) (mk : A → BlockModel → B) l :
  evaluates (db_collect (λ x, b <-- fetch_model (cid x) ;; db_ret (mk x b)) l)
    (λ d, range_collect (λ x, b <-! block_of d (cid x) ;; Ok (mk x b)) l).
Proof.
  refine (collect_evaluates _ (λ x d, b <-! block_of d (cid x) ;; Ok (mk x b)) l _). intros x.
  apply bind_evaluates; [apply fetch_model_evaluates|]. intros b. refine (ret_evaluates _).
Qed.

(** Decorated blocks: the blocks are those of the CIDs. *)
Lemma fetch_with_blocks {A B} (cid : A → string) (mk : A → BlockModel → B) (ipld : B → BlockModel) d l ys :
  range_collect (λ x, b <-! block_of d (cid x) ;; Ok (mk x b)) l = Ok ys →
  (∀ x b, ipld (mk x b) = b) →
  range_collect (λ x, block_of d (cid x)) l = Ok (map ipld ys).
Proof.
  intros H1 Hi. apply range_collect_Ok in H1. apply range_collect_Ok. apply Forall2_fmap_r.
  eapply Forall2_impl; [apply H1|]. simpl. intros x y (b & -> & [= <-])%rbind_Ok_inv.
  by rewrite Hi.
Qed.

(** The value of [Fetch_body]. *)
Definition fetched (w : CIDWrapper) (td : Z) (d : EthDB) : result IPLDs :=
  header <-! wrapped "eth pg fetcher: header fetching error" (block_of d (h_CID (w_Header w))) ;;
  uncles <-! wrapped "eth pg fetcher: uncle fetching error"
    (range_collect (λ c, block_of d (u_CID c)) (w_Uncles w)) ;;
  txs <-! wrapped "eth pg fetcher: transaction fetching error"
    (range_collect (λ c, block_of d (tx_CID c)) (w_Transactions w)) ;;
  rcts <-! wrapped "eth pg fetcher: receipt fetching error"
    (range_collect (λ c, block_of d (r_CID c)) (w_Receipts w)) ;;
  states <-! wrapped "eth pg fetcher: state fetching error"
    (range_collect (λ n, b <-! block_of d (s_CID n) ;;
      Ok {| sn_Type := ResolveToNodeType (s_NodeType n); sn_StateLeafKey := HexToHash (s_StateKey n);
            sn_Path := s_Path n; sn_IPLD := b |}) (filter (λ n, s_CID n ≠ "") (w_StateNodes w))) ;;
  storages <-! wrapped "eth pg fetcher: storage fetching error"
    (range_collect (λ n, b <-! block_of d (sk_CID n) ;;
      Ok {| stn_Type := ResolveToNodeType (sk_NodeType n);
            stn_StateLeafKey := HexToHash (sk_StateKey n);
            stn_StorageLeafKey := HexToHash (sk_StorageKey n);
            stn_Path := sk_Path n; stn_IPLD := b |})
      (filter (λ n, sk_CID n ≠ "" ∧ sk_StateKey n ≠ "") (w_StorageNodes w))) ;;
  Ok {| i_BlockNumber := Some (w_BlockNumber w); i_TotalDifficulty := Some td;
        i_Header := header; i_Uncles := uncles; i_Transactions := txs; i_Receipts := rcts;
        i_StateNodes := states; i_StorageNodes := storages |}.

Lemma Fetch_body_evaluates w td : evaluates (Pg.Fetch_body w td) (fetched w td).
Proof.
  unfold Pg.Fetch_body, fetched.
  refine (bind_evaluates _ _ _ _ (wrapped_evaluates _ _ _ (fetch_model_evaluates _)) _). intros h.
  do 3 (refine (bind_evaluates _ _ _ _ (wrapped_evaluates _ _ _
    (collect_evaluates _ (λ c d, block_of d _) _ (λ c, fetch_model_evaluates _))) _); intros ?).
  do 2 (refine (bind_evaluates _ _ _ _ (wrapped_evaluates _ _ _ (fetch_with_evaluates _ _ _)) _);
    intros ?).
  refine (ret_evaluates _).
Qed.

(** A fetched wrapper holds the blocks of its CIDs. *)
Lemma fetched_blocks w td d i :
  fetched w td d = Ok i →
  range_collect (block_of d) (wrapper_cids w) = Ok (iplds_blocks i) ∧
  i_BlockNumber i = Some (w_BlockNumber w) ∧ i_TotalDifficulty i = Some td.
Proof.
  unfold fetched.
  intros (h & Hh & (us & Hu & (ts & Ht & (rs & Hr & (ss & Hs & (sts & Hst & [= <-])
    %rbind_wrapped_Ok)%rbind_wrapped_Ok)%rbind_wrapped_Ok)%rbind_wrapped_Ok)
    %rbind_wrapped_Ok)%rbind_wrapped_Ok.
  split; [|done]. unfold wrapper_cids, iplds_blocks. simpl. rewrite Hh. simpl.
  rewrite !range_collect_app, !range_collect_fmap, Hu. simpl. rewrite Ht. simpl. rewrite Hr. simpl.
  apply (fetch_with_blocks s_CID _ sn_IPLD) in Hs; [|done].
  apply (fetch_with_blocks sk_CID _ stn_IPLD) in Hst; [|done]. by rewrite Hs, Hst.
Qed.

(** A failing [Fetch] misses one of the blocks. *)
Lemma fetched_fails w td d :
  is_ok (fetched w td d) = false → ∃ c, c ∈ wrapper_cids w ∧ is_ok (block_of d c) = false.
Proof.
  assert (Hb : ∀ c (A : Type) (f : BlockModel → A), is_ok (b <-! block_of d c ;; Ok (f b)) = false →
    is_ok (block_of d c) = false) by (intros c A f; by destruct (block_of d c)).
  unfold fetched, wrapper_cids.
  intros [Hf|(h & _ & Hf)]%wrapped_rbind_not_ok; [exists (h_CID (w_Header w)); set_solver|].
  apply wrapped_rbind_not_ok in Hf as [(x & Hx & Hf)%range_collect_fails|(us & _ & Hf)];
    [exists (u_CID x); set_solver|].
  apply wrapped_rbind_not_ok in Hf as [(x & Hx & Hf)%range_collect_fails|(ts & _ & Hf)];
    [exists (tx_CID x); set_solver|].
  apply wrapped_rbind_not_ok in Hf as [(x & Hx & Hf)%range_collect_fails|(rs & _ & Hf)];
    [exists (r_CID x); set_solver|].
  apply wrapped_rbind_not_ok in Hf as [(x & Hx & Hf%Hb)%range_collect_fails|(ss & _ & Hf)];
    [exists (s_CID x); set_solver|].
  apply wrapped_rbind_not_ok in Hf as [(x & Hx & Hf%Hb)%range_collect_fails|(sts & _ & Hf)];
    [exists (sk_CID x); set_solver|done].
Qed.

(** ** Properties *)

(** [Fetch] returns the block stored for every CID of the wrapper, in the
    wrapper's order and skipping only the rows without a CID (or, for storage,
    without a state key), together with the wrapper's block number and the
    difficulty read from its header; it fails only when the difficulty is not
    a number or one of those CIDs has no block. *)
Theorem Fetch_exact w s :
  aborted s = false →
  match out_result (Pg.Fetch w no_faults s).1 with
  | Ok i => range_collect (block_of (tables s)) (wrapper_cids w) = Ok (iplds_blocks i) ∧
      i_BlockNumber i = Some (w_BlockNumber w) ∧
      i_TotalDifficulty i = big_SetString (h_TotalDifficulty (w_Header w)) ∧
      i_TotalDifficulty i ≠ None
  | _ => big_SetString (h_TotalDifficulty (w_Header w)) = None ∨
      ∃ c, c ∈ wrapper_cids w ∧ is_ok (block_of (tables s) c) = false
  end.
Proof.
  intros Hs. unfold Pg.Fetch.
  destruct (big_SetString _) as [td|] eqn:Etd; simpl; [|by left].
  destruct (transact_deferred_evaluates _ _ (Fetch_body_evaluates w td) s Hs) as [-> _].
  destruct (fetched w td (tables s)) as [i|e|y] eqn:E.
  - apply fetched_blocks in E as (E1 & E2 & E3). rewrite E3. done.
  - right. apply (fetched_fails w td). by rewrite E.
  - right. apply (fetched_fails w td). by rewrite E.
Qed.

Context `{RowOrder}.

(** A retrieved wrapper has no header when the subscription turned headers off. *)
Lemma retrieve_header_off f n h :
  hf_Off (HeaderFilter_ f) = true →
  returns (retrieve_header f n h) (λ r, w_Header r.1 = HeaderModel_zero).
Proof.
  intros Hoff. unfold retrieve_header. rewrite Hoff. simpl.
  do 5 (eapply returns_bind; [apply returns_any|intros ? _]). by apply returns_ret.
Qed.

(** Historical data without headers can never be delivered: whatever the
    database does, every wrapper [Retrieve] returns for a subscription with
    the header filter off is refused by both fetchers. *)
Theorem header_off_never_fetched f n o s cws e s' GetBlock GetBlocks :
  hf_Off (HeaderFilter_ f) = true → Retrieve f n o s = (DOk (cws, e), s') →
  Forall (λ w,
    (∀ o2 s2, ∃ err, Pg.Fetch w o2 s2 = (DErr true err, s2)) ∧
    ∃ err, Ipfs.Fetch GetBlock GetBlocks w = Err err) cws.
Proof.
  intros Hoff HR.
  assert (Hret : returns (Retrieve f n) (λ r, Forall (λ w, w_Header w = HeaderModel_zero) r.1)).
  { apply returns_transact_deferred. eapply returns_bind; [apply returns_any|intros hs _].
    eapply returns_bind.
    { apply returns_collect. intros h. by apply retrieve_header_off. }
    intros ws Hws. apply returns_ret. simpl. by apply Forall_fmap. }
  specialize (Hret _ _ _ _ HR). eapply Forall_impl; [apply Hret|]. simpl. intros w Hw.
  unfold Pg.Fetch, Ipfs.Fetch. rewrite Hw. simpl. split; [intros o2 s2|]; by eexists.
Qed.

End Properties.

(** ** Witnesses *)

Section Witnesses.
#[local] Existing Instance Concrete.geth.
#[local] Existing Instance newest_first.
#[local] Existing Instance Concrete.cidlib.

Definition ex_wrapper : CIDWrapper := {|
  w_BlockNumber := 5;
  w_Header := {| h_ID := 1; h_BlockNumber := 5; h_BlockHash := ""; h_ParentHash := "";
    h_CID := "c"; h_TotalDifficulty := "42"; h_NodeID := 0; h_Reward := 0; h_StateRoot := "";
    h_UncleRoot := ""; h_TxRoot := ""; h_RctRoot := ""; h_Bloom := []; h_Timestamp := 0;
    h_TimesValidated := 1 |};
  w_Uncles := []; w_Transactions := []; w_Receipts := []; w_StateNodes := []; w_StorageNodes := [] |}.

Definition ex_stored : session EthDB :=
  mkSession (set_blocks {[ "/blocks/c" := [7] ]} EthDB_empty) ∅ false 0%nat.

Lemma Fetch_exact_witness :
  is_ok (out_result (Pg.Fetch ex_wrapper no_faults ex_stored).1) = true ∧
  match out_result (Pg.Fetch ex_wrapper no_faults ex_stored).1 with
  | Ok i => range_collect (block_of (tables ex_stored)) (wrapper_cids ex_wrapper) = Ok (iplds_blocks i) ∧
      i_BlockNumber i = Some (w_BlockNumber ex_wrapper) ∧
      i_TotalDifficulty i = big_SetString (h_TotalDifficulty (w_Header ex_wrapper)) ∧
      i_TotalDifficulty i ≠ None
  | _ => big_SetString (h_TotalDifficulty (w_Header ex_wrapper)) = None ∨
      ∃ c, c ∈ wrapper_cids ex_wrapper ∧ is_ok (block_of (tables ex_stored) c) = false
  end.
Proof. split; [vm_compute; reflexivity|]. apply (Fetch_exact ex_wrapper ex_stored). reflexivity. Defined.

(** A subscription to transactions only. *)
Definition txs_only : SubscriptionSettings := {|
  BackFill := true; BackFillOnly := false; Start := 0; End_ := 0;
  HeaderFilter_ := {| hf_Off := true; hf_Uncles := false |};
  TxFilter_ := {| tf_Off := false; tf_Src := []; tf_Dst := [] |};
  ReceiptFilter_ := {| rf_Off := true; rf_MatchTxs := false; rf_LogAddresses := []; rf_Topics := [] |};
  StateFilter_ := {| sf_Off := true; sf_Addresses := []; sf_IntermediateNodes := false |};
  StorageFilter_ := {| stf_Off := true; stf_Addresses := []; stf_StorageKeys := [];
                       stf_IntermediateNodes := false |} |}.

Definition ex_history : session EthDB := mkSession (headers_at [3]) ∅ false 0%nat.

Definition ex_retrieved : list CIDWrapper :=
  [{| w_BlockNumber := 3; w_Header := HeaderModel_zero; w_Uncles := []; w_Transactions := [];
      w_Receipts := []; w_StateNodes := []; w_StorageNodes := [] |}].

Lemma header_off_never_fetched_witness :
  let s' := (Retrieve txs_only 3 no_faults ex_history).2 in
  Retrieve txs_only 3 no_faults ex_history = (DOk (ex_retrieved, true), s') ∧
  Forall (λ w,
    (∀ o2 s2, ∃ err, Pg.Fetch w o2 s2 = (DErr true err, s2)) ∧
    ∃ err, Ipfs.Fetch (λ c, Ok (mkBlock c [])) (λ cs, map (λ c, mkBlock c []) cs) w = Err err)
    ex_retrieved.
Proof.
  intros s'. assert (HR : Retrieve txs_only 3 no_faults ex_history = (DOk (ex_retrieved, true), s'))
    by (vm_compute; reflexivity).
  split; [exact HR|].
  apply (header_off_never_fetched txs_only 3 no_faults ex_history ex_retrieved true s'
    (λ c, Ok (mkBlock c [])) (λ cs, map (λ c, mkBlock c []) cs)); [reflexivity|exact HR].
Defined.

End Witnesses.
