(* ===== verification/EthConverter.v ===== *)
(** * Converting statediff payloads (pkg/super_node/eth/converter.go)

    The RLP fields of a payload are represented by what decoding them gives. *)

From S2P Require Import Prelude GoInt Geth EthModel EthFilterer.

(** A node of the state diff, with its storage diff. *)
Record StorageDiffNode : Type := {
  sdn_Path : bytes;
  sdn_Value : bytes;
  sdn_Type : NodeType;
  sdn_LeafKey : bytes
}.

Record StateDiffNode : Type := {
  sd_Path : bytes;
  sd_Value : bytes;
  sd_Type : NodeType;
  sd_LeafKey : bytes;
  sd_StorageNodes : list StorageDiffNode
}.

(** statediff.Payload *)
Record Payload : Type := {
  pl_TotalDifficulty : Z;
  pl_Block : result Block;                       (* rlp.DecodeBytes(BlockRlp, block) *)
  pl_Receipts : result (list Receipt);           (* rlp.DecodeBytes(ReceiptsRlp, &receipts) *)
  pl_StateObject : result (list StateDiffNode)   (* rlp.DecodeBytes(StateObjectRlp, stateDiff) *)
}.

Section Converter.
Context `{GethCommon}.
(** receipts.DeriveFields, and the order in which a Go map is ranged over. *)
Variable DeriveFields : list Receipt → Block → result (list Receipt).
Variable map_range : list string → list string.

Definition tx_meta (i : nat) (trx : Transaction) : result TxModel :=
  from <-! trx_Sender trx ;;
  Ok {| tx_ID := 0; tx_HeaderID := 0; tx_CID := "";
        tx_Dst := HandleNullAddrPointer (trx_To trx); tx_Src := HandleNullAddr from;
        tx_TxHash := Hash_String (trx_Hash trx); tx_Index := Z.of_nat i |}.

Fixpoint convert_txs (i : nat) (transactions : list Transaction) : result (list TxModel) :=
  match transactions with
  | [] => Ok []
  | trx :: transactions =>
      m <-! tx_meta i trx ;;
      ms <-! convert_txs (S i) transactions ;;
      Ok (m :: ms)
  end.

(** [for i, topic := range log.Topics { topicSets[i] = append(...) }]:
    [topicSets] has four elements. *)
Fixpoint add_topics (i : nat) (topics : list bytes) (topicSets : list (list string))
    : result (list (list string)) :=
  match topics with
  | [] => Ok topicSets
  | topic :: topics =>
      match topicSets !! i with
      | None => Panic "index out of range"
      | Some set => add_topics (S i) topics (<[i := set ++ [Hash_String topic]]> topicSets)
      end
  end.

Fixpoint scan_logs (logs : list Log) (topicSets : list (list string)) (mappedContracts : list string)
    : result (list (list string) * list string) :=
  match logs with
  | [] => Ok (topicSets, mappedContracts)
  | log :: logs =>
      sets <-! add_topics 0 (log_Topics log) topicSets ;;
      let addr := Address_Hex (log_Address log) in
      scan_logs logs sets (if bool_decide (addr ∈ mappedContracts) then mappedContracts
                           else mappedContracts ++ [addr])
  end.

Definition rct_meta (receipt : Receipt) : result ReceiptModel :=
  scanned <-! scan_logs (rct_Logs receipt) [[]; []; []; []] [] ;;
  let contract := HandleNullAddr (rct_ContractAddress receipt) in
  match scanned.1 with
  | [t0; t1; t2; t3] =>
      Ok {| r_ID := 0; r_TxID := 0; r_CID := "";
            r_Topic0s := t0; r_Topic1s := t1; r_Topic2s := t2; r_Topic3s := t3;
            r_Contract := contract;
            r_ContractHash := if bool_decide (contract = "") then ""
                              else Hash_String (Keccak256Hash (HexToAddress contract));
            r_LogContracts := map_range scanned.2 |}
  | _ => Panic "index out of range"
  end.

Definition storage_trie_node (n : StorageDiffNode) : TrieNode := {|
  n_Path := sdn_Path n; n_Value := sdn_Value n; n_Type := sdn_Type n;
  n_LeafKey := BytesToHash (sdn_LeafKey n) |}.

Definition state_trie_node (n : StateDiffNode) : TrieNode := {|
  n_Path := sd_Path n; n_Value := sd_Value n; n_Type := sd_Type n;
  n_LeafKey := BytesToHash (sd_LeafKey n) |}.

(** [convertedPayload.StorageNodes[statePath] = append(..., node)] *)
Definition add_storage (statePath : string) (storages : gmap string (list TrieNode))
    (n : StorageDiffNode) : gmap string (list TrieNode) :=
  <[statePath := default [] (storages !! statePath) ++ [storage_trie_node n]]> storages.

Definition convert_nodes (nodes : list StateDiffNode)
    : list TrieNode * gmap string (list TrieNode) :=
  foldl (λ acc stateNode,
    (acc.1 ++ [state_trie_node stateNode],
     foldl (add_storage (Bytes2Hex (sd_Path stateNode))) acc.2 (sd_StorageNodes stateNode)))
    ([], ∅) nodes.

Definition Convert (stateDiffPayload : Payload) : result ConvertedPayload :=
  block <-! pl_Block stateDiffPayload ;;
  txMetaData <-! convert_txs 0 (block_Transactions block) ;;
  decoded <-! pl_Receipts stateDiffPayload ;;
  receipts <-! DeriveFields decoded block ;;
  receiptMetaData <-! range_collect rct_meta receipts ;;
  stateDiff <-! pl_StateObject stateDiffPayload ;;
  let nodes := convert_nodes stateDiff in
  Ok {| p_TotalDifficulty := pl_TotalDifficulty stateDiffPayload; p_Block := block;
        p_TxMetaData := txMetaData; p_Receipts := receipts; p_ReceiptMetaData := receiptMetaData;
        p_StateNodes := nodes.1; p_StorageNodes := nodes.2 |}.

(** ** Lemmas *)

Lemma convert_txs_spec txs : ∀ i ms,
  convert_txs i txs = Ok ms →
  length ms = length txs ∧
  ∀ j m, ms !! j = Some m → ∃ t, txs !! j = Some t ∧ tx_Index m = Z.of_nat (i + j) ∧
    tx_TxHash m = Hash_String (trx_Hash t).
Proof.
  induction txs as [|t txs IH]; intros i ms; simpl.
  - intros [= <-]. split; [done|]. intros j m. by rewrite lookup_nil.
  - intros (m & Hm & (ms' & Hms & [= <-])%rbind_Ok_inv)%rbind_Ok_inv.
    destruct (IH _ _ Hms) as [Hlen Hall]. split; [simpl; lia|].
    intros [|j] m'; simpl.
    + intros [= <-]. exists t. unfold tx_meta in Hm. apply rbind_Ok_inv in Hm as (f & _ & [= <-]).
      simpl. split_and!; [done| |done]. f_equal. lia.
    + intros Hj. destruct (Hall j m' Hj) as (t' & Ht & Hi & Hh). exists t'.
      split_and!; [done| |done]. rewrite Hi. f_equal. lia.
Qed.

Lemma add_topics_panics topics : ∀ i sets,
  length sets = 4%nat → (i ≤ 4)%nat →
  match add_topics i topics sets with
  | Ok sets' => length sets' = 4%nat ∧ (i + length topics ≤ 4)%nat
  | Err _ => False
  | Panic _ => (4 < i + length topics)%nat
  end.
Proof.
  induction topics as [|t topics IH]; intros i sets Hl Hi; simpl; [lia|].
  destruct (sets !! i) as [set|] eqn:E.
  - apply lookup_lt_Some in E.
    specialize (IH (S i) (<[i := set ++ [Hash_String t]]> sets)
      ltac:(by rewrite length_insert) ltac:(lia)).
    destruct (add_topics _ _ _); [|done|]; lia.
  - apply lookup_ge_None in E. lia.
Qed.

Lemma scan_logs_panics logs : ∀ sets cs,
  length sets = 4%nat →
  match scan_logs logs sets cs with
  | Ok r => length r.1 = 4%nat ∧ Forall (λ l, length (log_Topics l) ≤ 4)%nat logs
  | Err _ => False
  | Panic _ => Exists (λ l, 4 < length (log_Topics l))%nat logs
  end.
Proof.
  induction logs as [|l logs IH]; intros sets cs Hl; simpl; [by split|].
  pose proof (add_topics_panics (log_Topics l) 0 sets Hl ltac:(lia)) as Ha.
  destruct (add_topics 0 _ _) as [sets'|e|w]; simpl; [|done|left; lia].
  destruct Ha as [Hl' Hle].
  specialize (IH sets' (if bool_decide (Address_Hex (log_Address l) ∈ cs) then cs
                        else cs ++ [Address_Hex (log_Address l)]) Hl').
  destruct (scan_logs _ _ _); [|done|by right].
  destruct IH as [? ?]. split; [done|]. constructor; [lia|done].
Qed.

(** The metadata of a receipt exists exactly when no log has a fifth topic. *)
Lemma rct_meta_total r :
  match rct_meta r with
  | Ok _ => Forall (λ l, length (log_Topics l) ≤ 4)%nat (rct_Logs r)
  | Err _ => False
  | Panic _ => Exists (λ l, 4 < length (log_Topics l))%nat (rct_Logs r)
  end.
Proof.
  unfold rct_meta.
  pose proof (scan_logs_panics (rct_Logs r) [[]; []; []; []] [] eq_refl) as Hs.
  destruct (scan_logs _ _ _) as [[sets cs]|e|w]; simpl in *; [|done..].
  destruct Hs as [Hl Hall]. by destruct sets as [|? [|? [|? [|? [|? ?]]]]].
Qed.

(** When every decoder succeeds, only a log with too many topics stops a conversion. *)
Lemma Convert_not_ok p b rs rs' :
  is_ok (Convert p) = false →
  pl_Block p = Ok b → is_ok (convert_txs 0 (block_Transactions b)) = true →
  pl_Receipts p = Ok rs → DeriveFields rs b = Ok rs' → is_ok (pl_StateObject p) = true →
  Exists (λ r, Exists (λ l, 4 < length (log_Topics l))%nat (rct_Logs r)) rs'.
Proof.
  intros E Hb Ht Hr Hd Hs. unfold Convert in E. rewrite Hb in E. simpl in E.
  destruct (convert_txs 0 _); [|done..]. simpl in E. rewrite Hr in E. simpl in E.
  rewrite Hd in E. simpl in E.
  assert (Hrm : is_ok (range_collect rct_meta rs') = false).
  { destruct (range_collect rct_meta rs'); [|done..]. simpl in E. by destruct (pl_StateObject p). }
  rewrite range_collect_is_ok in Hrm. clear -Hrm.
  induction rs' as [|r rs IH]; simpl in Hrm; [done|].
  apply andb_false_iff in Hrm as [Hr|Hr]; [left|right; by apply IH].
  pose proof (rct_meta_total r). by destruct (rct_meta r).
Qed.

(** ** Properties *)

(** A converted payload is aligned: it has one metadata entry per
    transaction, carrying the transaction's position and hash, and one per
    receipt; and with logs of at most four topics -- the EVM's limit -- the
    conversion does not panic unless a library call does. *)
Theorem Convert_aligned p :
  match Convert p with
  | Ok c => aligned c ∧
      (∀ j m, p_TxMetaData c !! j = Some m → ∃ t, block_Transactions (p_Block c) !! j = Some t ∧
        tx_Index m = Z.of_nat j ∧ tx_TxHash m = Hash_String (trx_Hash t))
  | _ => ∀ b rs rs', pl_Block p = Ok b → is_ok (convert_txs 0 (block_Transactions b)) = true →
      pl_Receipts p = Ok rs → DeriveFields rs b = Ok rs' → is_ok (pl_StateObject p) = true →
      Exists (λ r, Exists (λ l, 4 < length (log_Topics l))%nat (rct_Logs r)) rs'
  end.
Proof.
  destruct (Convert p) as [c|e|w] eqn:E.
  - unfold Convert in E. apply rbind_Ok_inv in E as (b & Hb & E).
    apply rbind_Ok_inv in E as (ms & Hms & E). apply rbind_Ok_inv in E as (rs & Hrs & E).
    apply rbind_Ok_inv in E as (rs' & Hrs' & E). apply rbind_Ok_inv in E as (rm & Hrm & E).
    apply rbind_Ok_inv in E as (sd & _ & [= <-]). unfold aligned. simpl.
    destruct (convert_txs_spec _ _ _ Hms) as [Hl Hm]. apply range_collect_length in Hrm.
    by split_and!.
  - intros b rs rs'. apply Convert_not_ok. by rewrite E.
  - intros b rs rs'. apply Convert_not_ok. by rewrite E.
Qed.

End Converter.
