(* ===== verification/EthApi.v ===== *)
(** * The eth RPC API of the super node (pkg/super_node/eth/backend.go, api.go)

    The backend answers from the index and the blocks of Postgres: it selects
    the CIDs, fetches their blocks, decodes these and composes the answer.  A
    map[string]interface{} that is returned to the RPC server is a [gmap] of
    [RpcValue]s. *)

From S2P Require Import Prelude GoInt Decimal Geth EthModel Sql Queries Blocks EthDB EthRetriever EthFetcher.

(** ** go-ethereum's types *)

(** types.Header *)
Record types_Header : Type := {
  hdr_ParentHash : bytes;
  hdr_UncleHash : bytes;
  hdr_Coinbase : bytes;
  hdr_Root : bytes;
  hdr_TxHash : bytes;
  hdr_ReceiptHash : bytes;
  hdr_Bloom : bytes;
  hdr_Difficulty : Z;
  hdr_Number : Z;
  hdr_GasLimit : Z;
  hdr_GasUsed : Z;
  hdr_Time : Z;
  hdr_Extra : bytes;
  hdr_MixDigest : bytes;
  hdr_Nonce : bytes
}.

(** types.Transaction: what its accessors return. *)
Record types_Transaction : Type := {
  trn_Hash : bytes;
  trn_To : option bytes;
  trn_Gas : Z;
  trn_GasPrice : Z;
  trn_Value : Z;
  trn_Nonce : Z;
  trn_Data : bytes;
  trn_Protected : bool;
  trn_ChainId : Z;
  trn_V : Z;
  trn_R : Z;
  trn_S : Z
}.

(** types.Block *)
Record types_Block : Type := mkTypesBlock {
  blk_Header : types_Header;
  blk_Transactions : list types_Transaction;
  blk_Uncles : list types_Header
}.

Inductive Signer : Type :=
| FrontierSigner
| EIP155Signer (chainId : Z).

(** What the API calls in go-ethereum: RLP decoding, hashing, sizes, the
    recovery of a sender, and [types.NewBlock], which recomputes the roots of
    the header.  Of receipts and logs only the log topics are read. *)
Class EthRlp := {
  types_Receipt : Type;
  types_Log : Type;
  Receipt_Logs : types_Receipt → list types_Log;
  Log_Topics : types_Log → list bytes;
  DecodeHeader : bytes → result types_Header;
  DecodeTransaction : bytes → result types_Transaction;
  DecodeReceipt : bytes → result types_Receipt;
  Header_Hash : types_Header → bytes;
  Header_Size : types_Header → Z;
  Block_Size : types_Block → Z;
  Sender : Signer → types_Transaction → result bytes;
  NewBlock : types_Header → list types_Transaction → list types_Header → list types_Receipt → types_Block
}.

(** rpc.BlockNumber (go-ethereum) *)
Definition PendingBlockNumber : Z := -2.
Definition LatestBlockNumber : Z := -1.

(** ethereum.FilterQuery *)
Record FilterQuery : Type := {
  fq_BlockHash : option bytes;
  fq_FromBlock : option Z;
  fq_ToBlock : option Z;
  fq_Addresses : list bytes;
  fq_Topics : list (list bytes)
}.

(** ** Results of the API *)

Record RPCTransaction : Type := {
  rt_BlockHash : option bytes;
  rt_BlockNumber : option Z;
  rt_From : bytes;
  rt_Gas : Z;
  rt_GasPrice : Z;
  rt_Hash : bytes;
  rt_Input : bytes;
  rt_Nonce : Z;
  rt_To : option bytes;
  rt_TransactionIndex : option Z;
  rt_Value : Z;
  rt_V : Z;
  rt_R : Z;
  rt_S : Z
}.

(** An element of the field "transactions": a hash, or a [*RPCTransaction]. *)
Inductive FormattedTx : Type :=
| TxHash (h : bytes)
| TxFull (t : option RPCTransaction).

Inductive RpcValue : Type :=
| VBig (n : Z)
| VUint64 (n : Z)
| VBytes (b : bytes)
| VHashes (l : list bytes)
| VTransactions (l : list FormattedTx).

Definition errPendingBlockNumber : error := Sentinel "pending block number not supported".

Section Backend.
Context `{GethCommon} `{CidLib} `{EthRlp} `{RowOrder}.

(** ** backend.go *)

Definition block_number (blockNumber : Z) : DB EthDB Z :=
  number <-- (if blockNumber =? LatestBlockNumber then RetrieveLastBlockNumber else db_ret blockNumber) ;;
  if blockNumber =? PendingBlockNumber then db_fail errPendingBlockNumber else db_ret number.

Definition HeaderByNumber (blockNumber : Z) : DB EthDB types_Header :=
  number <-- block_number blockNumber ;;
  transact_deferred (
    headerCids <-- RetrieveHeaderCIDs number ;;
    match headerCids with
    | [] => shadow (db_fail (Errorf "header at block is not available"))
    | c :: _ =>
        headerIPLD <-- Pg.FetchHeader c ;;
        db_lift (DecodeHeader (Data headerIPLD))
    end).

Definition GetTd (blockHash : bytes) : DB EthDB Z :=
  tdStr <-- scan_one (select_auto (λ d,
    map h_TotalDifficulty (filter (λ h, h_BlockHash h = Hash_String blockHash) (header_cids d)))) ;;
  match big_SetString tdStr with
  | Some td => db_ret td
  | None => db_fail (Errorf "total difficulty retrieved from Postgres cannot be converted to an integer")
  end.

(** [ReceiptFilter{}] *)
Definition ReceiptFilter_zero : ReceiptFilter :=
  {| rf_Off := false; rf_MatchTxs := false; rf_LogAddresses := []; rf_Topics := [] |}.

(** A loop that decodes fetched blocks, with its own [err]. *)
Definition decode_all {A} (decode : bytes → result A) (iplds : list BlockModel) : DB EthDB (list A) :=
  shadow (db_lift (range_collect (λ i, decode (Data i)) iplds)).

Definition Backend_GetLogs (hash : bytes) : DB EthDB (list (list types_Log)) :=
  transact_deferred (
    receiptCIDs <-- RetrieveRctCIDs ReceiptFilter_zero 0 (Some hash) [] ;;
    match receiptCIDs with
    | [] => db_ret []
    | _ =>
        receiptIPLDs <-- Pg.FetchRcts receiptCIDs ;;
        rcts <-- decode_all DecodeReceipt receiptIPLDs ;;
        db_ret (map Receipt_Logs rcts)
    end).

(** What [BlockByNumber] and [BlockByHash] do with the CIDs of a block. *)
Definition compose_block (cids : BlockCIDs) : DB EthDB types_Block :=
  let '(headerCID, uncleCIDs, txCIDs, rctCIDs) := cids in
  transact_deferred (
    headerIPLD <-- Pg.FetchHeader headerCID ;;
    header <-- shadow (db_lift (DecodeHeader (Data headerIPLD))) ;;
    uncleIPLDs <-- Pg.FetchUncles uncleCIDs ;;
    uncles <-- decode_all DecodeHeader uncleIPLDs ;;
    txIPLDs <-- Pg.FetchTrxs txCIDs ;;
    transactions <-- decode_all DecodeTransaction txIPLDs ;;
    rctIPLDs <-- Pg.FetchRcts rctCIDs ;;
    receipts <-- decode_all DecodeReceipt rctIPLDs ;;
    db_ret (NewBlock header transactions uncles receipts)).

Definition BlockByNumber (blockNumber : Z) : DB EthDB types_Block :=
  number <-- block_number blockNumber ;;
  cids <-- RetrieveBlockByNumber number ;;
  compose_block cids.

Definition BlockByHash (hash : bytes) : DB EthDB types_Block :=
  cids <-- RetrieveBlockByHash hash ;;
  compose_block cids.

(** The rows of eth.transaction_cids with the hash, joined with their header. *)
Definition txs_with_hash (txHash : bytes) (d : EthDB) : list (TxModel * HeaderModel) :=
  filter (λ th, tx_TxHash th.1 = Hash_String txHash)
    (join_header tx_HeaderID (transaction_cids d) (header_cids d)).

(** [TxModel{CID: cid}] *)
Definition TxModel_of_cid (cid : string) : TxModel :=
  {| tx_ID := 0; tx_HeaderID := 0; tx_Index := 0; tx_TxHash := ""; tx_CID := cid; tx_Dst := ""; tx_Src := "" |}.

Definition GetTransaction (txHash : bytes) : DB EthDB (types_Transaction * bytes * Z * Z) :=
  info <-- scan_one (select_auto (txs_with_hash txHash)) ;;
  txIPLD <-- transact_early (Pg.FetchTrxs [TxModel_of_cid (tx_CID info.1)]) ;;
  transaction <-- db_lift (match txIPLD with
                           | i :: _ => DecodeTransaction (Data i)
                           | [] => Panic "index out of range"
                           end) ;;
  db_ret (transaction, HexToHash (h_BlockHash info.2), u64 (h_BlockNumber info.2), u64 (tx_Index info.1)).

Definition sliceContainsHash (slice : list string) (hash : bytes) : nat :=
  if existsb (λ str, bool_decide (str = Hash_String hash)) slice then 1 else 0.

(** [for i, actualTopic := range actualTopics] *)
Fixpoint wanted_matches (i : nat) (wantedTopics : list (list string)) (actualTopics : list bytes) : result nat :=
  match actualTopics with
  | [] => Ok 0%nat
  | actualTopic :: actualTopics =>
      match wantedTopics !! i with
      | None => Panic "index out of range"
      | Some slot =>
          let m := if (0 <? length slot)%nat then sliceContainsHash slot actualTopic else 1%nat in
          matches <-! wanted_matches (S i) wantedTopics actualTopics ;;
          Ok (m + matches)%nat
      end
  end.

Definition wantedLog (wantedTopics : list (list string)) (actualTopics : list bytes) : result bool :=
  matches <-! wanted_matches 0 wantedTopics actualTopics ;;
  Ok (matches =? length actualTopics)%nat.

(** The inner loop: the wanted logs of a receipt. *)
Fixpoint wanted_logs (wantedTopics : list (list string)) (logs : list types_Log) : result (list types_Log) :=
  match logs with
  | [] => Ok []
  | log :: logs =>
      wanted <-! wantedLog wantedTopics (Log_Topics log) ;;
      rest <-! wanted_logs wantedTopics logs ;;
      Ok (if wanted then log :: rest else rest)
  end.

Definition extractLogsOfInterest (rctIPLDs : list BlockModel) (wantedTopics : list (list string))
    : result (list types_Log) :=
  logs <-! range_collect (λ rctIPLD,
    rct <-! DecodeReceipt (Data rctIPLD) ;;
    wanted_logs wantedTopics (Receipt_Logs rct)) rctIPLDs ;;
  Ok (concat logs).

Definition RPCMarshalHeader (head : types_Header) : gmap string RpcValue :=
  list_to_map [
    ("number", VBig (hdr_Number head));
    ("hash", VBytes (Header_Hash head));
    ("parentHash", VBytes (hdr_ParentHash head));
    ("nonce", VBytes (hdr_Nonce head));
    ("mixHash", VBytes (hdr_MixDigest head));
    ("sha3Uncles", VBytes (hdr_UncleHash head));
    ("logsBloom", VBytes (hdr_Bloom head));
    ("stateRoot", VBytes (hdr_Root head));
    ("miner", VBytes (hdr_Coinbase head));
    ("difficulty", VBig (hdr_Difficulty head));
    ("extraData", VBytes (hdr_Extra head));
    ("size", VUint64 (Header_Size head));
    ("gasLimit", VUint64 (hdr_GasLimit head));
    ("gasUsed", VUint64 (hdr_GasUsed head));
    ("timestamp", VUint64 (hdr_Time head));
    ("transactionsRoot", VBytes (hdr_TxHash head));
    ("receiptsRoot", VBytes (hdr_ReceiptHash head))].

(** [common.Hash{}], [common.Address{}] *)
Definition zero_hash : bytes := replicate 32 0.
Definition zero_address : bytes := replicate 20 0.

(** The error of [types.Sender] is dropped: the sender is then the zero address. *)
Definition NewRPCTransaction (tx : types_Transaction) (blockHash : bytes) (blockNumber index : Z) : RPCTransaction :=
  let signer := if trn_Protected tx then EIP155Signer (trn_ChainId tx) else FrontierSigner in
  let from := match Sender signer tx with Ok a => a | _ => zero_address end in
  let located := negb (bool_decide (blockHash = zero_hash)) in {|
    rt_BlockHash := if located then Some blockHash else None;
    rt_BlockNumber := if located then Some blockNumber else None;
    rt_From := from; rt_Gas := trn_Gas tx; rt_GasPrice := trn_GasPrice tx; rt_Hash := trn_Hash tx;
    rt_Input := trn_Data tx; rt_Nonce := trn_Nonce tx; rt_To := trn_To tx;
    rt_TransactionIndex := if located then Some index else None;
    rt_Value := trn_Value tx; rt_V := trn_V tx; rt_R := trn_R tx; rt_S := trn_S tx |}.

Definition newRPCTransactionFromBlockIndex (b : types_Block) (index : nat) : option RPCTransaction :=
  tx ← blk_Transactions b !! index;
  Some (NewRPCTransaction tx (Header_Hash (blk_Header b)) (u64 (hdr_Number (blk_Header b))) (Z.of_nat index)).

(** [for idx, tx := range b.Transactions()] *)
Definition NewRPCTransactionFromBlockHash (b : types_Block) (hash : bytes) : option RPCTransaction :=
  '(idx, _) ← list_find (λ tx, trn_Hash tx = hash) (blk_Transactions b);
  newRPCTransactionFromBlockIndex b idx.

Definition RPCMarshalBlock (block : types_Block) (inclTx fullTx : bool) : gmap string RpcValue :=
  let fields := <["size" := VUint64 (Block_Size block)]> (RPCMarshalHeader (blk_Header block)) in
  let formatTx tx :=
    if fullTx then TxFull (NewRPCTransactionFromBlockHash block (trn_Hash tx)) else TxHash (trn_Hash tx) in
  let fields := if inclTx then <["transactions" := VTransactions (map formatTx (blk_Transactions block))]> fields
                else fields in
  <["uncles" := VHashes (map Header_Hash (blk_Uncles block))]> fields.

Definition rpcMarshalHeader (header : types_Header) : DB EthDB (gmap string RpcValue) :=
  td <-- GetTd (Header_Hash header) ;;
  db_ret (<["totalDifficulty" := VBig td]> (RPCMarshalHeader header)).

Definition rpcMarshalBlock (b : types_Block) (inclTx fullTx : bool) : DB EthDB (gmap string RpcValue) :=
  td <-- GetTd (Header_Hash (blk_Header b)) ;;
  db_ret (<["totalDifficulty" := VBig td]> (RPCMarshalBlock b inclTx fullTx)).

(** ** api.go *)

(** The error is dropped: without an answer of the database the height is 0. *)
Definition BlockNumber : DB EthDB Z := λ o s,
  match RetrieveLastBlockNumber o s with
  | (DErr _ _, s) => (DOk 0, s)
  | (DOk number, s) => (DOk (u64 number), s)
  | r => r
  end.

(** [topicStrSets]: four slots, further ones are cut off. *)
Definition topic_slots (topics : list (list bytes)) : list (list string) :=
  let sets := map (map Hash_String) (take 4 topics) in sets ++ replicate (4 - length sets) [].

Definition logs_filter (crit : FilterQuery) : ReceiptFilter := {|
  rf_Off := false; rf_MatchTxs := false;
  rf_LogAddresses := map Address_Hex (fq_Addresses crit);
  rf_Topics := topic_slots (fq_Topics crit) |}.

(** A bound of the range, or what the database says. *)
Definition bound (n : option Z) (m : DB EthDB Z) : DB EthDB Z :=
  match n with
  | Some n => db_ret (i64 n)
  | None => shadow m
  end.

(** [None]: the loop over the range of heights still runs after [fuel] rounds. *)
Definition GetLogs (fuel : nat) (crit : FilterQuery) : DB EthDB (option (list types_Log)) :=
  let filter := logs_filter crit in
  rctIPLDs <-- transact_early_fuel (
    match fq_BlockHash crit with
    | Some hash =>
        rctCIDs <-- shadow (RetrieveRctCIDs filter 0 (Some hash) []) ;;
        rctIPLDs <-- shadow (Pg.FetchRcts rctCIDs) ;;
        db_ret (Some rctIPLDs)
    | None =>
        start <-- bound (fq_FromBlock crit) RetrieveFirstBlockNumber ;;
        stop <-- bound (fq_ToBlock crit) RetrieveLastBlockNumber ;;
        rctCIDs <-- db_range fuel (λ i, shadow (RetrieveRctCIDs filter i None [])) start stop ;;
        match rctCIDs with
        | Some rctCIDs =>
            rctIPLDs <-- Pg.FetchRcts (concat rctCIDs) ;;
            db_ret (Some rctIPLDs)
        | None => db_ret None
        end
    end) ;;
  match rctIPLDs with
  | Some rctIPLDs =>
      logs <-- db_lift (extractLogsOfInterest rctIPLDs (rf_Topics filter)) ;;
      db_ret (Some logs)
  | None => db_ret None
  end.

Definition GetHeaderByNumber (number : Z) : DB EthDB (gmap string RpcValue) :=
  header <-- HeaderByNumber number ;; rpcMarshalHeader header.

Definition GetBlockByNumber (number : Z) (fullTx : bool) : DB EthDB (gmap string RpcValue) :=
  block <-- BlockByNumber number ;; rpcMarshalBlock block true fullTx.

Definition GetBlockByHash (hash : bytes) (fullTx : bool) : DB EthDB (gmap string RpcValue) :=
  block <-- BlockByHash hash ;; rpcMarshalBlock block true fullTx.

Definition GetTransactionByHash (hash : bytes) : DB EthDB RPCTransaction :=
  r <-- GetTransaction hash ;;
  let '(tx, blockHash, blockNumber, index) := r in
  db_ret (NewRPCTransaction tx blockHash blockNumber index).

End Backend.

(** ** A concrete instance, for the witnesses

    Headers are encoded as their number, which is also their hash; a receipt is its
    encoding, with one log whose topic is this encoding. *)
Module ApiConcrete.

Definition ex_header (n : Z) : types_Header := {|
  hdr_ParentHash := [n - 1]; hdr_UncleHash := []; hdr_Coinbase := []; hdr_Root := []; hdr_TxHash := [7];
  hdr_ReceiptHash := [8]; hdr_Bloom := []; hdr_Difficulty := 1; hdr_Number := n; hdr_GasLimit := 10;
  hdr_GasUsed := 5; hdr_Time := 0; hdr_Extra := []; hdr_MixDigest := []; hdr_Nonce := [] |}.

Definition ex_trn : types_Transaction := {|
  trn_Hash := [7]; trn_To := None; trn_Gas := 9; trn_GasPrice := 3; trn_Value := 0; trn_Nonce := 1;
  trn_Data := []; trn_Protected := false; trn_ChainId := 0; trn_V := 0; trn_R := 0; trn_S := 0 |}.

Definition rlp : EthRlp := {|
  types_Receipt := bytes; types_Log := list bytes; Receipt_Logs := λ r, [[r]]; Log_Topics := λ l, l;
  DecodeHeader := λ b, match b with [n] => Ok (ex_header n) | _ => Err (Errorf "rlp") end;
  DecodeTransaction := λ b, if bool_decide (b = [7]) then Ok ex_trn else Err (Errorf "rlp");
  DecodeReceipt := λ b, Ok b;
  Header_Hash := λ h, [hdr_Number h]; Header_Size := λ _, 500; Block_Size := λ _, 700;
  Sender := λ _ _, Ok [1];
  NewBlock := λ h ts us rs, mkTypesBlock h ts us |}.

End ApiConcrete.
