(* ===== verification/EthServe.v ===== *)
(** * What is published is served

    [Publish] of publish_and_indexer.go against [BlockByHash] and
    [GetBlockByHash] of backend.go and api.go: a block that was converted and
    published under a new hash is composed again, from the rows of the index
    and the blocks they name, as the block it was. *)

From S2P Require Import Prelude GoInt Decimal Geth EthModel Sql Queries Blocks EthIpld EthDB EthPublisher.
From S2P Require Import EthRetriever EthFetcher EthFilterer EthConverter EthApi.

(** ** The rows under [Publish] *)

(** The rows of a header: what [BlockByHash] selects. *)
Definition uncle_rows (hid : Z) (d : EthDB) : list UncleModel :=
  filter (λ u, u_HeaderID u = hid) (uncle_cids d).
Definition tx_rows (hid : Z) (d : EthDB) : list TxModel :=
  filter (λ t, tx_HeaderID t = hid) (transaction_cids d).
Definition rct_rows (hid : Z) (d : EthDB) : list ReceiptModel :=
  filter (λ r, r_TxID r ∈ map tx_ID (tx_rows hid d)) (receipt_cids d).

(** The columns of an uncle and of a transaction that matter. *)
Definition uncle_cols (u : UncleModel) : string * string := (u_BlockHash u, u_CID u).
Definition tx_cols (t : TxModel) : Z * string * string := (tx_Index t, tx_TxHash t, tx_CID t).

Section Rows.
Context `{GethCommon} `{CidLib} `{TrieLib} `{StateRlp}.
Variables (hrow : HeaderModel).
#[local] Abbreviation hid := (h_ID hrow).

(** The only header with the hash is [hrow], and under it are uncles with the
    columns [us], transactions with the columns [ts] and, in the order of the
    transactions, receipts with the CIDs [rs]. *)
Definition laid (us : list (string * string)) (ts : list (Z * string * string)) (rs : list string)
    (d : EthDB) : Prop :=
  filter (λ h, h_BlockHash h = h_BlockHash hrow) (header_cids d) = [hrow] ∧
  map uncle_cols (uncle_rows hid d) = us ∧
  map tx_cols (tx_rows hid d) = ts ∧
  map (λ r, (r_TxID r, r_CID r)) (rct_rows hid d) = zip (map tx_ID (tx_rows hid d)) rs.

Definition progress us ts rs : state_pred EthDB := λ d q, wf d q ∧ has_header hid d ∧ laid us ts rs d.

Lemma filter_snoc_in {A} (P : A → Prop) `{!∀ x, Decision (P x)} l x : P x → filter P (l ++ [x]) = filter P l ++ [x].
Proof. intros Hx. by rewrite filter_app, filter_cons_True, filter_nil. Qed.

(** The sequence of a table is above its ids. *)
Lemma next_fresh {R K} name (id : R → Z) (key : R → K) rows q :
  table_ok name id key rows q → default 0 (q !! name) + 1 ∉ map id rows.
Proof.
  intros (_ & _ & Hf) (r & Hr & Hin)%list_elem_of_fmap. rewrite Forall_forall in Hf. specialize (Hf r Hin). lia.
Qed.

Lemma uncle_step us ts rs u : u_BlockHash u ∉ map fst us →
  ensures (progress us ts rs) (indexUncleCID u hid) (λ _, progress (us ++ [uncle_cols u]) ts rs).
Proof.
  intros Hnew. eapply ensures_weaken; [done| |apply (ensures_post (progress us ts rs))].
  2: { eapply ensures_weaken; [| |apply (indexUncleCID_ensures hid u)]; [by intros d q (Hw & Hh & _)|done]. }
  2: { apply exec_ensures. intros d q (Hw & Hh & Hhdr & Hu & Ht & Hr).
    destruct (upsert_rows _ _ _ _ _ (uncle_cids d) q) as [[n rows] q'] eqn:E. simpl.
    instantiate (1 := λ _ d q, laid (us ++ [uncle_cols u]) ts rs d). simpl.
    assert (Hf : ∀ r, r ∈ uncle_cids d → bool_decide (uncle_key r = (hid, u_BlockHash u)) = false).
    { intros r Hin. apply bool_decide_eq_false. intros [= Hk1 Hk2]. apply Hnew. rewrite <- Hu, map_map, <- Hk2.
      apply list_elem_of_fmap. exists r. split; [done|]. by apply list_elem_of_filter. }
    apply (upsert_rows_fresh "eth.uncle_cids" _ (uncle_row u hid) (uncle_update u) u_ID _ q) in Hf.
    rewrite E in Hf. injection Hf as -> ->. split_and!; [done| |done|done].
    rewrite <- Hu. unfold uncle_rows. simpl. rewrite filter_snoc_in by done. by rewrite map_app. }
  by intros [] d q [[Hw Hh] Hl].
Qed.

(** Between a transaction and its receipt: the transaction's row is the last. *)
Definition in_tx us ts rs (n : Z) : state_pred EthDB := λ d q,
  progress us ts rs d q ∧ has_tx n d ∧ ∃ ids, map tx_ID (tx_rows hid d) = ids ++ [n] ∧ length ids = length rs.

Lemma served_tx_step us ts rs t : tx_TxHash t ∉ map (λ c, c.1.2) ts → length ts = length rs →
  ensures (progress us ts rs) (indexTransactionCID t hid) (λ n, in_tx us (ts ++ [tx_cols t]) rs n).
Proof.
  intros Hnew Hlen. eapply ensures_weaken; [done| |apply (ensures_post (progress us ts rs))].
  2: { eapply ensures_weaken; [| |apply (indexTransactionCID_ensures hid t)]; [by intros d q (Hw & Hh & _)|done]. }
  2: { apply exec_ensures. intros d q (Hw & Hh & Hhdr & Hu & Ht & Hr).
    destruct (upsert_rows _ _ _ _ _ (transaction_cids d) q) as [[n rows] q'] eqn:E. simpl.
    instantiate (1 := λ n d q, laid us (ts ++ [tx_cols t]) rs d ∧
      ∃ ids, map tx_ID (tx_rows hid d) = ids ++ [n] ∧ length ids = length rs). simpl.
    assert (Hf : ∀ r, r ∈ transaction_cids d → bool_decide (tx_key r = (hid, tx_TxHash t)) = false).
    { intros r Hin. apply bool_decide_eq_false. intros [= Hk1 Hk2]. apply Hnew. rewrite <- Ht, map_map, <- Hk2.
      apply list_elem_of_fmap. exists r. split; [done|]. by apply list_elem_of_filter. }
    apply (upsert_rows_fresh "eth.transaction_cids" _ (tx_row t hid) (tx_update t) tx_ID _ q) in Hf.
    rewrite E in Hf. injection Hf as -> ->. pose proof (next_fresh _ _ _ _ _ (wf_txs _ _ Hw)) as Hn.
    set (n := default 0 (q !! "eth.transaction_cids") + 1) in *.
    assert (Hrows : tx_rows hid (set_transactions (transaction_cids d ++ [tx_row t hid n]) d)
                    = tx_rows hid d ++ [tx_row t hid n]) by (unfold tx_rows; simpl; by rewrite filter_snoc_in).
    assert (Hids : length (map tx_ID (tx_rows hid d)) = length rs).
    { rewrite <- Hlen, <- Ht. by rewrite !length_map. }
    assert (Hrcts : rct_rows hid (set_transactions (transaction_cids d ++ [tx_row t hid n]) d) = rct_rows hid d).
    { unfold rct_rows. rewrite Hrows. simpl. apply filter_ext_in. intros r Hin. rewrite map_app. simpl.
      rewrite elem_of_app, list_elem_of_singleton. split; [|by left]. intros [?|Hrn]; [done|].
      destruct Hn. rewrite <- Hrn. pose proof (fk_rcts _ _ Hw) as Hfk. rewrite Forall_forall in Hfk. by apply Hfk. }
    unfold laid. rewrite Hrows, Hrcts, !map_app, Ht, Hr. split.
    - split_and!; [done|done|done|]. simpl. rewrite <- (app_nil_r rs) at 2. rewrite zip_with_app by done.
      simpl. by rewrite app_nil_r.
    - by exists (map tx_ID (tx_rows hid d)). }
  intros n d q [[[Hw Hh] Hx] [Hl Hi]]. by split_and!.
Qed.

Lemma rct_step us ts rs n r :
  ensures (in_tx us ts rs n) (indexReceiptCID r n) (λ _, progress us ts (rs ++ [r_CID r])).
Proof.
  eapply ensures_weaken; [done| |apply (ensures_post (in_tx us ts rs n))].
  2: { eapply ensures_weaken; [| |apply (indexReceiptCID_ensures hid r n)]; [|done].
       by intros d q ((Hw & Hh & _) & Hx & _). }
  2: { apply exec_ensures. intros d q ((Hw & Hh & Hhdr & Hu & Ht & Hr) & Hx & ids & Hids & Hlen).
    destruct (upsert_rows _ _ _ _ _ (receipt_cids d) q) as [[m rows] q'] eqn:E. simpl.
    instantiate (1 := λ _ d q, laid us ts (rs ++ [r_CID r]) d). simpl.
    assert (Hn : n ∉ ids).
    { assert (Hnd : NoDup (map tx_ID (tx_rows hid d))).
      { destruct (wf_txs _ _ Hw) as (Hnd & _). eapply sublist_NoDup; [exact Hnd|].
        apply fmap_sublist, sublist_filter. }
      rewrite Hids in Hnd. apply NoDup_app in Hnd as (_ & Hd & _). intros Hin. by apply (Hd n Hin), list_elem_of_singleton. }
    assert (Hf : ∀ x, x ∈ receipt_cids d → bool_decide (r_TxID x = n) = false).
    { intros x Hin. apply bool_decide_eq_false. intros Hk. apply Hn.
      assert (Hin' : (r_TxID x, r_CID x) ∈ map (λ r, (r_TxID r, r_CID r)) (rct_rows hid d)).
      { apply list_elem_of_fmap. exists x. split; [done|]. apply list_elem_of_filter. split; [|done].
        rewrite Hids, Hk. set_solver. }
      rewrite Hr, Hids in Hin'. rewrite <- (app_nil_r rs), zip_with_app in Hin' by done.
      simpl in Hin'. rewrite app_nil_r, Hk in Hin'. by eapply elem_of_zip_l. }
    apply (upsert_rows_fresh "eth.receipt_cids" _ (rct_row r n) (λ x, rct_row r (r_TxID x) (r_ID x)) r_ID _ q) in Hf.
    rewrite E in Hf. injection Hf as -> ->. split_and!; [done..|].
    unfold rct_rows. simpl. change (tx_rows hid (set_receipts _ d)) with (tx_rows hid d).
    rewrite filter_snoc_in by (simpl; rewrite Hids; set_solver).
    rewrite map_app. change (filter _ (receipt_cids d)) with (rct_rows hid d).
    rewrite Hr, Hids, zip_with_app by done. simpl. rewrite <- (app_nil_r rs) at 1. rewrite zip_with_app by done.
    simpl. by rewrite app_nil_r. }
  by intros [] d q [[Hw Hh] Hl].
Qed.

(** The statements on blocks, states and storage do not touch these rows. *)

#[local] Ltac keeps_laid := upsert_keeps ltac:(unfold laid).

Lemma insert_block_laid us ts rs k raw : ensures (λ d _, laid us ts rs d) (insert_block k raw) (λ _ d _, laid us ts rs d).
Proof. by apply insert_block_keeps. Qed.
Lemma PublishRaw_laid us ts rs codec mh raw :
  ensures (λ d _, laid us ts rs d) (PublishRaw codec mh raw) (λ _ d _, laid us ts rs d).
Proof. by apply PublishRaw_keeps. Qed.
Lemma indexStateCID_laid us ts rs st h :
  ensures (λ d _, laid us ts rs d) (indexStateCID st h) (λ _ d _, laid us ts rs d).
Proof. keeps_laid. Qed.
Lemma indexStateAccount_laid us ts rs a sid :
  ensures (λ d _, laid us ts rs d) (indexStateAccount a sid) (λ _ d _, laid us ts rs d).
Proof. keeps_laid. Qed.
Lemma indexStorageCID_laid us ts rs st sid :
  ensures (λ d _, laid us ts rs d) (indexStorageCID st sid) (λ _ d _, laid us ts rs d).
Proof. keeps_laid. Qed.

Lemma publishState_laid us ts rs p h :
  ensures (λ d _, laid us ts rs d) (publishAndIndexStateAndStorage p h) (λ _ d _, laid us ts rs d).
Proof.
  apply (for_ensures (λ d _, laid us ts rs d)). intros sn. eapply bind_ensures; [apply PublishRaw_laid|]. intros c.
  eapply bind_ensures; [apply indexStateCID_laid|]. intros sid. simpl.
  case_match; [|by apply ret_ensures].
  eapply bind_ensures; [apply lift_ensures|]. intros a.
  eapply bind_ensures; [apply indexStateAccount_laid|]. intros [].
  apply (for_ensures (λ d _, laid us ts rs d)). intros stn. eapply bind_ensures; [apply PublishRaw_laid|]. intros sc.
  apply indexStorageCID_laid.
Qed.

Lemma insert_block_progress us ts rs k raw : ensures (progress us ts rs) (insert_block k raw) (λ _, progress us ts rs).
Proof. apply insert_block_keeps. intros b d q (Hw & Hh & Hl). split_and!; [by apply set_blocks_wf|done|done]. Qed.

Lemma insert_block_in_tx us ts rs n k raw : ensures (in_tx us ts rs n) (insert_block k raw) (λ _, in_tx us ts rs n).
Proof.
  apply insert_block_keeps. intros b d q ((Hw & Hh & Hl) & Hx & Hi). split; [|by split].
  split_and!; [by apply set_blocks_wf|done|done].
Qed.

(** The uncles of a payload. *)
Lemma uncles_loop us0 p uns : NoDup (map fst us0 ++ map (λ un, Hash_String (header_Hash un.1)) uns) →
  ensures (progress us0 [] [])
    (db_for (λ un : Header * Node, shadow (PublishIPLD un.2) ;;; shadow (indexUncleCID (uncle_model p un.1 un.2) hid)) uns)
    (λ _, progress (us0 ++ map (λ un, (Hash_String (header_Hash un.1), Cid un.2)) uns) [] []).
Proof.
  revert us0. induction uns as [|[h n] uns IH]; intros us0 Hnd; simpl; [rewrite app_nil_r; apply ret_ensures|].
  apply (bind_ensures _ _ _ (λ _, progress (us0 ++ [(Hash_String (header_Hash h), Cid n)]) [] [])).
  - eapply bind_ensures; [apply shadow_ensures, insert_block_progress|intros []].
    apply shadow_ensures, (uncle_step us0 [] [] (uncle_model p h n)). simpl in *.
    apply NoDup_app in Hnd as (_ & Hd & _). intros Hin. apply (Hd _ Hin). set_solver.
  - intros []. specialize (IH (us0 ++ [(Hash_String (header_Hash h), Cid n)])).
    rewrite <- app_assoc in IH. apply IH. rewrite map_app. simpl. by rewrite <- app_assoc.
Qed.

(** The transactions: after [i] of them. *)
Definition tx_prefix (p : ConvertedPayload) (ts : list Node) (i : nat) : list (Z * string * string) :=
  take i (zip_with (λ m n, (tx_Index m, tx_TxHash m, Cid n)) (p_TxMetaData p) ts).

Lemma served_txs_loop us p (rcts ts : list Node) : NoDup (map tx_TxHash (p_TxMetaData p)) →
  ∀ l i, drop i ts = l → (i ≤ length ts)%nat →
  (i ≤ length (p_TxMetaData p))%nat → (i ≤ length rcts)%nat →
  ensures (progress us (tx_prefix p ts i) (map Cid (take i rcts))) (publish_txs i p rcts hid l)
    (λ _ d q, progress us (tx_prefix p ts (length ts)) (map Cid (take (length ts) rcts)) d q ∧
      (length ts ≤ length (p_TxMetaData p))%nat ∧ (length ts ≤ length rcts)%nat).
Proof.
  intros Hnd. induction l as [|t l IH]; intros i Hd Hi Hm Hr; simpl.
  { assert (i = length ts) as ->; [|by apply ret_ensures_weaken].
    apply (f_equal length) in Hd. rewrite length_drop in Hd. simpl in Hd. lia. }
  assert (Ht : ts !! i = Some t).
  { rewrite <- (Nat.add_0_r i), <- lookup_drop, Hd. done. }
  assert (Hd' : drop (S i) ts = l) by (apply (drop_S _ _ _) in Ht; congruence).
  assert (Hi' : (S i ≤ length ts)%nat) by (by eapply lookup_lt_Some).
  eapply bind_ensures; [apply shadow_ensures, insert_block_progress|intros []].
  eapply bind_ensures; [apply index_ensures|]. intros r. apply ensures_pure. intros Er.
  eapply bind_ensures; [apply shadow_ensures, insert_block_progress|intros []].
  eapply bind_ensures; [apply index_ensures|]. intros m. apply ensures_pure. intros Em.
  assert (Epre : tx_prefix p ts (S i) = tx_prefix p ts i ++ [(tx_Index m, tx_TxHash m, Cid t)]).
  { apply take_S_r. by rewrite lookup_zip_with, Em; simpl; rewrite Ht. }
  assert (Epr : map Cid (take (S i) rcts) = map Cid (take i rcts) ++ [Cid r]).
  { by rewrite (take_S_r _ _ _ Er), map_app. }
  assert (Elen : length (tx_prefix p ts i) = i).
  { unfold tx_prefix. rewrite length_take, length_zip_with. lia. }
  eapply bind_ensures.
  { apply shadow_ensures, (served_tx_step us _ _ (with_tx_CID m (Cid t))); simpl.
    - assert (Eh : map (λ c : Z * string * string, c.1.2) (tx_prefix p ts i) = take i (map tx_TxHash (p_TxMetaData p))).
      { unfold tx_prefix. apply list_eq. intros j. rewrite list_lookup_fmap.
        destruct (decide (j < i)%nat); [|by rewrite !lookup_take_ge by lia].
        rewrite !lookup_take_lt by lia. rewrite list_lookup_fmap, lookup_zip_with.
        destruct (lookup_lt_is_Some_2 (p_TxMetaData p) j) as [x Hx]; [lia|].
        destruct (lookup_lt_is_Some_2 ts j) as [y Hy]; [lia|]. by rewrite Hx, Hy. }
      rewrite Eh. intros Hin. apply list_elem_of_lookup in Hin as [j Hj]. apply lookup_take_Some in Hj as [Hj Hlt].
      assert (Hmi : map tx_TxHash (p_TxMetaData p) !! i = Some (tx_TxHash m)) by (by rewrite list_lookup_fmap, Em).
      pose proof (NoDup_lookup _ _ _ _ Hnd Hj Hmi). lia.
    - rewrite Elen, length_map, length_take. lia. }
  intros n. eapply bind_ensures; [apply lift_ensures|intros rm].
  eapply bind_ensures; [apply shadow_ensures, (rct_step us _ _ n (with_rct_CID rm (Cid r)))|intros []].
  eapply ensures_weaken; [|intros a d q Hx; exact Hx|apply (IH (S i))]; [|done|done| |].
  - intros d q Hp. by rewrite Epre, Epr.
  - apply lookup_lt_Some in Em. lia.
  - apply lookup_lt_Some in Er. lia.
Qed.

End Rows.

(** ** The state after [Publish] *)

Lemma ensures_exists {T A X} (P : X → state_pred T) (m : DB T A) Q :
  (∀ x, ensures (P x) m Q) → ensures (λ d q, ∃ x, P x d q) m Q.
Proof. intros Hm o s [x Hx]. by apply (Hm x). Qed.

Section Published.
Context `{GethCommon} `{CidLib} `{TrieLib} `{StateRlp}.
Variables (nodeID : Z) (p : ConvertedPayload) (ns : BlockNodes).

Definition payload_hash : string := Hash_String (header_Hash (block_Header (p_Block p))).

(** No header has the payload's hash yet. *)
Definition new_hash : state_pred EthDB := λ d q, wf d q ∧ payload_hash ∉ map h_BlockHash (header_cids d).

(** The row of the payload's header. *)
Definition payload_row (hrow : HeaderModel) : Prop :=
  h_BlockHash hrow = payload_hash ∧ h_CID hrow = Cid (headerNode ns) ∧
  h_TotalDifficulty hrow = pretty (p_TotalDifficulty p).

Lemma insert_block_new_hash k raw : ensures new_hash (insert_block k raw) (λ _, new_hash).
Proof. apply insert_block_keeps. intros b d q [Hw Hh]. split; [by apply set_blocks_wf|done]. Qed.

Lemma header_step reward :
  ensures new_hash (indexHeaderCID nodeID (header_model p (Cid (headerNode ns)) reward))
    (λ hid d q, ∃ hrow, (progress hrow [] [] [] d q ∧ payload_row hrow) ∧ hid = h_ID hrow).
Proof.
  set (m := header_model p (Cid (headerNode ns)) reward).
  eapply ensures_weaken; [done| |apply (ensures_post new_hash)].
  2: { eapply ensures_weaken; [| |apply (indexHeaderCID_ensures nodeID m)]; [by intros d q [Hw _]|done]. }
  2: { apply exec_ensures. intros d q [Hw Hh].
    destruct (upsert_rows _ _ _ _ _ (header_cids d) q) as [[n rows] q'] eqn:E. simpl.
    instantiate (1 := λ n d q, let hrow := header_row m nodeID n in laid hrow [] [] [] d). simpl.
    assert (Hf : ∀ r, r ∈ header_cids d → bool_decide (header_key r = header_key m) = false).
    { intros r Hin. apply bool_decide_eq_false. intros [= _ Hk]. apply Hh, list_elem_of_fmap. by exists r. }
    apply (upsert_rows_fresh "eth.header_cids" _ (header_row m nodeID) (header_update m nodeID) h_ID _ q) in Hf.
    rewrite E in Hf. injection Hf as -> ->. pose proof (next_fresh _ _ _ _ _ (wf_headers _ _ Hw)) as Hn.
    set (n := default 0 (q !! "eth.header_cids") + 1) in *.
    assert (Hu : uncle_rows n d = []).
    { apply filter_none. intros u Hu Hk. apply Hn. rewrite <- Hk. pose proof (fk_uncles _ _ Hw) as Hfk.
      rewrite Forall_forall in Hfk. by apply Hfk. }
    assert (Ht : tx_rows n d = []).
    { apply filter_none. intros t Ht Hk. apply Hn. rewrite <- Hk. pose proof (fk_txs _ _ Hw) as Hfk.
      rewrite Forall_forall in Hfk. by apply Hfk. }
    assert (Hr : rct_rows n d = []).
    { unfold rct_rows. rewrite Ht. apply filter_none. intros r _. apply not_elem_of_nil. }
    unfold laid. simpl. split_and!.
    - rewrite filter_snoc_in by done. rewrite filter_none; [done|]. intros h Hin Hk. apply Hh.
      unfold payload_hash. rewrite <- Hk. by apply list_elem_of_fmap_2.
    - by rewrite (Hu : uncle_rows n (set_headers _ d) = _).
    - by rewrite (Ht : tx_rows n (set_headers _ d) = _).
    - by rewrite (Ht : tx_rows n (set_headers _ d) = _), (Hr : rct_rows n (set_headers _ d) = _). }
  intros n d q [[Hw Hx] Hl]. exists (header_row m nodeID n). by split_and!.
Qed.

(** What is laid down under the header. *)
Definition payload_uncles : list (string * string) :=
  map (λ un, (Hash_String (header_Hash un.1), Cid un.2)) (zip (block_Uncles (p_Block p)) (uncleNodes ns)).

Definition published_rows (d : EthDB) (q : gmap string Z) : Prop := ∃ hrow,
  (progress hrow payload_uncles (tx_prefix p (txNodes ns) (length (txNodes ns)))
    (map Cid (take (length (txNodes ns)) (rctNodes ns))) d q ∧ payload_row hrow) ∧
  (length (txNodes ns) ≤ length (p_TxMetaData p))%nat ∧ (length (txNodes ns) ≤ length (rctNodes ns))%nat.

Lemma Publish_body_rows :
  length (block_Uncles (p_Block p)) = length (uncleNodes ns) →
  NoDup (map (λ u, Hash_String (header_Hash u)) (block_Uncles (p_Block p))) →
  NoDup (map tx_TxHash (p_TxMetaData p)) →
  ensures new_hash (Publish_body nodeID p ns) (λ _, published_rows).
Proof.
  intros Hlen Hnu Hnt.
  eapply bind_ensures; [apply for_ensures; intros n; apply shadow_ensures, insert_block_new_hash|intros []].
  eapply bind_ensures; [apply for_ensures; intros n; apply shadow_ensures, insert_block_new_hash|intros []].
  eapply bind_ensures; [apply shadow_ensures, insert_block_new_hash|intros []].
  eapply bind_ensures; [apply lift_ensures|intros rw].
  eapply bind_ensures; [apply header_step|intros hid].
  apply ensures_exists. intros hrow. apply ensures_pure. intros ->. apply ensures_pure. intros Hrow.
  eapply bind_ensures; [apply (uncles_loop hrow [])|intros []].
  { simpl. rewrite <- (map_map fst (λ u, Hash_String (header_Hash u))).
    assert (Ez : map fst (zip (block_Uncles (p_Block p)) (uncleNodes ns)) = block_Uncles (p_Block p))
      by (apply fst_zip; lia). by rewrite Ez. }
  eapply bind_ensures; [apply (served_txs_loop hrow payload_uncles p (rctNodes ns) (txNodes ns) Hnt (txNodes ns) 0); [done|lia..]|intros []].
  apply ensures_pure. intros Hl.
  eapply ensures_weaken; [| |apply (ensures_and _ _ _ _ _ (publishState_ensures p (h_ID hrow))
    (publishState_laid hrow payload_uncles
    (tx_prefix p (txNodes ns) (length (txNodes ns))) (map Cid (take (length (txNodes ns)) (rctNodes ns))) p (h_ID hrow)))].
  - intros d q (Hw & Hh & Hd). by split.
  - intros [] d q [[Hw Hh] Hd]. exists hrow. split; [split; [split; [done|by split]|done]|done].
Qed.

End Published.

(** ** Retrieving the rows *)

Lemma join_one (r : ReceiptModel) txs : NoDup (map tx_ID txs) → r_TxID r ∈ map tx_ID txs →
  ∃ t, t ∈ txs ∧ tx_ID t = r_TxID r ∧ (t ← txs; if bool_decide (r_TxID r = tx_ID t) then [(r, t)] else []) = [(r, t)].
Proof.
  assert (Hz : ∀ l, r_TxID r ∉ map tx_ID l →
    (t ← l; if bool_decide (r_TxID r = tx_ID t) then [(r, t)] else []) = []).
  { intros l. induction l as [|t l IH]; [done|]. simpl. intros [Hne Hl]%not_elem_of_cons.
    rewrite bool_decide_eq_false_2 by done. by apply IH. }
  induction txs as [|t txs IH]; simpl; [by intros _ ?%elem_of_nil|].
  intros [Hn Hnd]%NoDup_cons Hin. destruct (decide (r_TxID r = tx_ID t)) as [E|Hne].
  - exists t. rewrite bool_decide_eq_true_2 by done. split; [set_solver|]. split; [done|].
    simpl. f_equal. apply Hz. by rewrite E.
  - apply elem_of_cons in Hin as [?|Hin]; [done|]. destruct (IH Hnd Hin) as (t' & H1 & H2 & H3).
    exists t'. rewrite bool_decide_eq_false_2 by done. split; [set_solver|]. by split.
Qed.

Lemma join_tx_spec rcts txs : NoDup (map tx_ID txs) → Forall (λ r, r_TxID r ∈ map tx_ID txs) rcts →
  map fst (join_tx rcts txs) = rcts ∧ Forall (λ x, x.2 ∈ txs ∧ tx_ID x.2 = r_TxID x.1) (join_tx rcts txs).
Proof.
  intros Hnd. induction 1 as [|r rcts Hr _ [IH1 IH2]]; [by split|].
  destruct (join_one r txs Hnd Hr) as (t & Ht & Hid & E). unfold join_tx. rewrite bind_cons, E. simpl. split.
  - f_equal. exact IH1.
  - constructor; [done|exact IH2].
Qed.

Definition rct_query (txIDs : list Z) (d : EthDB) : list ReceiptModel :=
  map fst (order_by (λ x, tx_Index x.2)
    (filter (λ x, r_TxID x.1 ∈ txIDs) (join_tx (receipt_cids d) (transaction_cids d)))).

(** When the transactions are numbered and the receipts are those of the
    transactions, in this order, the query answers with the receipts. *)
Lemma rct_query_rows hid d q rs : wf d q →
  (∀ j t, tx_rows hid d !! j = Some t → tx_Index t = Z.of_nat j) →
  map (λ r, (r_TxID r, r_CID r)) (rct_rows hid d) = zip (map tx_ID (tx_rows hid d)) rs →
  rct_query (map tx_ID (tx_rows hid d)) d = rct_rows hid d.
Proof.
  intros Hw Hidx Hr. destruct (wf_txs _ _ Hw) as (Hnd & _ & _).
  destruct (join_tx_spec _ _ Hnd (fk_rcts _ _ Hw)) as [J1 J2]. unfold rct_query.
  set (J := join_tx _ _) in *.
  assert (Hf : map fst (filter (λ x, r_TxID x.1 ∈ map tx_ID (tx_rows hid d)) J) = rct_rows hid d).
  { transitivity (filter (λ r, r_TxID r ∈ map tx_ID (tx_rows hid d)) (map fst J)).
    - by rewrite <- map_filter.
    - by rewrite J1. }
  rewrite order_by_numbered; [done|]. intros j [r t] Hj.
  assert (Hrj : rct_rows hid d !! j = Some r) by (by rewrite <- Hf, list_lookup_fmap, Hj).
  assert (Hin : t ∈ transaction_cids d ∧ tx_ID t = r_TxID r).
  { rewrite Forall_forall in J2. apply list_elem_of_lookup_2, list_elem_of_filter in Hj as [_ Hj]. by apply (J2 _ Hj). }
  apply (f_equal (lookup j)) in Hr. rewrite list_lookup_fmap, Hrj in Hr. simpl in Hr. symmetry in Hr.
  apply lookup_zip_Some in Hr as [Hid _]. rewrite list_lookup_fmap in Hid.
  destruct (tx_rows hid d !! j) as [t'|] eqn:Et; [|done]. injection Hid as Hid. simpl.
  rewrite <- (Hidx _ _ Et). f_equal. eapply (NoDup_map_inj tx_ID); [exact Hnd|apply Hin| |].
  - apply list_elem_of_lookup_2, list_elem_of_filter in Et. apply Et.
  - destruct Hin as [_ ->]. by rewrite Hid.
Qed.

(** ** Serving a block *)

Section Serve.
Context `{GethCommon} `{CidLib} `{TrieLib} `{StateRlp} `{EthRlp} `{RowOrder}.

Lemma RetrieveBlockByHash_evaluates hash : evaluates (RetrieveBlockByHash hash) (λ d,
  match filter (λ h, h_BlockHash h = Hash_String hash) (header_cids d) with
  | [] => Err ErrNoRows
  | h :: _ =>
      let txs := order_by tx_Index (tx_rows (h_ID h) d) in
      Ok (h, any_order (uncle_rows (h_ID h) d), txs, rct_query (map tx_ID txs) d)
  end).
Proof.
  apply transact_deferred_evaluates. eapply evaluates_ext; [|apply bind_evaluates].
  2: { apply scan_one_evaluates, select_evaluates. }
  2: { intros h. apply bind_evaluates; [apply select_rows_evaluates|intros us].
       apply bind_evaluates; [apply select_evaluates|intros ts].
       apply bind_evaluates; [apply select_evaluates|intros rs]. refine (ret_evaluates _). }
  intros d. simpl. by destruct (filter _ (header_cids d)).
Qed.

(** The value of [compose_block]. *)
Definition composed (cids : BlockCIDs) (d : EthDB) : result types_Block :=
  let '(headerCID, uncleCIDs, txCIDs, rctCIDs) := cids in
  headerIPLD <-! block_of d (h_CID headerCID) ;;
  header <-! DecodeHeader (Data headerIPLD) ;;
  uncleIPLDs <-! range_collect (λ c, block_of d (u_CID c)) uncleCIDs ;;
  uncles <-! range_collect (λ i, DecodeHeader (Data i)) uncleIPLDs ;;
  txIPLDs <-! range_collect (λ c, block_of d (tx_CID c)) txCIDs ;;
  transactions <-! range_collect (λ i, DecodeTransaction (Data i)) txIPLDs ;;
  rctIPLDs <-! range_collect (λ c, block_of d (r_CID c)) rctCIDs ;;
  receipts <-! range_collect (λ i, DecodeReceipt (Data i)) rctIPLDs ;;
  Ok (NewBlock header transactions uncles receipts).

Lemma compose_block_evaluates cids : evaluates (compose_block cids) (composed cids).
Proof.
  destruct cids as [[[h us] ts] rs]. apply transact_deferred_evaluates.
  refine (bind_evaluates _ _ _ _ (fetch_model_evaluates _) _). intros hb.
  refine (bind_evaluates _ _ _ _ (shadow_evaluates _ _ (lift_evaluates _)) _). intros hd.
  refine (bind_evaluates _ _ _ _ (collect_evaluates _ (λ c d, block_of d _) _ (λ c, fetch_model_evaluates _)) _). intros ub.
  refine (bind_evaluates _ _ _ _ (shadow_evaluates _ _ (lift_evaluates _)) _). intros u.
  refine (bind_evaluates _ _ _ _ (collect_evaluates _ (λ c d, block_of d _) _ (λ c, fetch_model_evaluates _)) _). intros tb.
  refine (bind_evaluates _ _ _ _ (shadow_evaluates _ _ (lift_evaluates _)) _). intros t.
  refine (bind_evaluates _ _ _ _ (collect_evaluates _ (λ c d, block_of d _) _ (λ c, fetch_model_evaluates _)) _). intros rb.
  refine (bind_evaluates _ _ _ _ (shadow_evaluates _ _ (lift_evaluates _)) _). intros r.
  refine (ret_evaluates _).
Qed.

(** [y] is what the encoding of [x] decodes to. *)
Definition decodes {A B} (enc : A → result bytes) (dec : bytes → result B) (x : A) (y : B) : Prop :=
  ∃ raw, enc x = Ok raw ∧ dec raw = Ok y.

(** What the values of a payload decode to. *)
Definition decoded (p : ConvertedPayload) (h : types_Header) (us : list types_Header)
    (ts : list types_Transaction) (rs : list types_Receipt) : Prop :=
  decodes header_RLP DecodeHeader (block_Header (p_Block p)) h ∧
  Forall2 (decodes header_RLP DecodeHeader) (block_Uncles (p_Block p)) us ∧
  Forall2 (decodes trx_RLP DecodeTransaction) (block_Transactions (p_Block p)) ts ∧
  Forall2 (decodes rct_RLP DecodeReceipt) (p_Receipts p) rs.

(** The node is in the database under its key, with its data. *)
Definition stored_node (d : EthDB) (n : Node) : Prop := block_of d (Cid n) = Ok (mkBlock (Cid n) (RawData n)).

Lemma fetch_decode {A B R} (enc : A → result bytes) (dec : bytes → result B) (cid : R → string)
    (xs : list A) (ns : list Node) (ys : list B) (rows : list R) d :
  Forall2 (encodes enc) xs ns → Forall2 (decodes enc dec) xs ys → map cid rows = map Cid ns →
  Forall (stored_node d) ns →
  ∃ bs, range_collect (λ c, block_of d (cid c)) rows = Ok bs ∧ range_collect (λ i, dec (Data i)) bs = Ok ys.
Proof.
  intros He Hd Hc Hs. exists (map (λ n, mkBlock (Cid n) (RawData n)) ns). split.
  - rewrite <- (range_collect_fmap (block_of d) cid), Hc. rewrite range_collect_fmap. apply range_collect_Ok.
    apply Forall2_fmap_r, Forall_Forall2_diag. exact Hs.
  - rewrite range_collect_fmap. apply range_collect_Ok. simpl. clear Hc Hs. revert ys Hd.
    induction He as [|x n xs ns [He _] _ IH]; intros ys Hd; inversion Hd as [|? y ? ys' (raw & E1 & E2) Hd']; subst; [constructor|].
    constructor; [congruence|by apply IH].
Qed.

(** The same when the rows name the nodes in another order. *)
Lemma fetch_decode_perm {A B R} (enc : A → result bytes) (dec : bytes → result B) (cid : R → string)
    (xs : list A) (ns : list Node) (ys : list B) (rows : list R) d :
  Forall2 (encodes enc) xs ns → Forall2 (decodes enc dec) xs ys → map cid rows ≡ₚ map Cid ns →
  Forall (stored_node d) ns →
  ∃ bs ys', ys' ≡ₚ ys ∧
    range_collect (λ c, block_of d (cid c)) rows = Ok bs ∧ range_collect (λ i, dec (Data i)) bs = Ok ys'.
Proof.
  intros He Hd Hc Hs. destruct (Permutation_map_inv _ _ Hc) as (ns' & Hc' & Hns). 
  apply Forall2_flip in He. destruct (Permutation_Forall2 Hns He) as (xs' & Hxs & He').
  destruct (Permutation_Forall2 Hxs Hd) as (ys' & Hys & Hd'). apply Forall2_flip in He'.
  rewrite Hns in Hs. destruct (fetch_decode enc dec cid xs' ns' ys' rows d He' Hd' Hc' Hs) as (bs & H1' & H2').
  exists bs, ys'. by split_and!.
Qed.

(** What [BlockByHash] evaluates to. *)
Definition served (hash : bytes) (d : EthDB) : result types_Block :=
  cids <-! match filter (λ h, h_BlockHash h = Hash_String hash) (header_cids d) with
           | [] => Err ErrNoRows
           | h :: _ =>
               let txs := order_by tx_Index (tx_rows (h_ID h) d) in
               Ok (h, any_order (uncle_rows (h_ID h) d), txs, rct_query (map tx_ID txs) d)
           end ;;
  composed cids d.

Lemma BlockByHash_evaluates hash : evaluates (BlockByHash hash) (served hash).
Proof.
  apply bind_evaluates; [apply RetrieveBlockByHash_evaluates|intros cids; apply compose_block_evaluates].
Qed.

Lemma GetTd_evaluates hash : evaluates (GetTd hash) (λ d,
  tdStr <-! match map h_TotalDifficulty (filter (λ h, h_BlockHash h = Hash_String hash) (header_cids d)) with
            | [] => Err ErrNoRows | x :: _ => Ok x end ;;
  match big_SetString tdStr with
  | Some td => Ok td
  | None => Err (Errorf "total difficulty retrieved from Postgres cannot be converted to an integer")
  end).
Proof.
  apply bind_evaluates; [apply scan_one_evaluates, select_auto_evaluates|].
  intros td. case_match; [apply ret_evaluates|apply fail_evaluates].
Qed.

Lemma map_zip_with_r {A B C D} (f : A → B → C) (g : C → D) (h : B → D) l k :
  (∀ x y, g (f x y) = h y) → (length k ≤ length l)%nat → map g (zip_with f l k) = map h k.
Proof.
  intros Hg. revert l. induction k as [|y k IH]; intros [|x l] Hl; simpl in *; try done; [lia|].
  rewrite Hg. f_equal. apply IH. lia.
Qed.

(** The rows of a payload are numbered like its metadata. *)
Lemma tx_rows_numbered p ns rows : map tx_cols rows = tx_prefix p (txNodes ns) (length (txNodes ns)) →
  (∀ j m, p_TxMetaData p !! j = Some m → tx_Index m = Z.of_nat j) →
  (∀ j t, rows !! j = Some t → tx_Index t = Z.of_nat j) ∧
  (length (txNodes ns) ≤ length (p_TxMetaData p) → map tx_CID rows = map Cid (txNodes ns))%nat.
Proof.
  intros E Hm. split.
  - intros j t Hj. apply (f_equal (lookup j)) in E. rewrite list_lookup_fmap, Hj in E. simpl in E.
    unfold tx_prefix in E. symmetry in E. apply lookup_take_Some in E as [E _].
    apply lookup_zip_with_Some in E as (m & n & E & Hjm & _). injection E as -> _ _. by apply Hm.
  - intros Hl. transitivity (map snd (map tx_cols rows)); [by rewrite map_map|]. rewrite E. unfold tx_prefix.
    rewrite take_ge by (rewrite length_zip_with; lia). by apply map_zip_with_r.
Qed.

Lemma published_rows_served p ns h us ts rs d q :
  published_rows p ns d q → Forall (stored_node d) (headerNode ns :: uncleNodes ns ++ txNodes ns ++ rctNodes ns) →
  FromBlockAndReceipts (p_Block p) (p_Receipts p) = Ok ns → decoded p h us ts rs →
  (∀ j m, p_TxMetaData p !! j = Some m → tx_Index m = Z.of_nat j) →
  length (p_Receipts p) = length (block_Transactions (p_Block p)) →
  ∃ us', us' ≡ₚ us ∧ served (header_Hash (block_Header (p_Block p))) d = Ok (NewBlock h ts us' rs).
Proof.
  intros (hrow & [(Hw & Hh & Hhdr & Hu & Ht & Hr) (Eh & Ec & Etd)] & Hlm & Hlr) Hst Hns (Dh & Du & Dt & Dr) Hm Hlen.
  pose proof (FromBlockAndReceipts_lengths _ _ _ Hns) as (L1 & L2 & L3).
  apply FromBlockAndReceipts_encodes in Hns as (Nh & Nu & Nt & Nr & _).
  apply Forall_cons in Hst as [Sh Hst]. apply Forall_app in Hst as [Su Hst]. apply Forall_app in Hst as [St Sr].
  unfold served. unfold payload_hash in Eh. rewrite <- Eh, Hhdr. simpl.
  destruct (tx_rows_numbered p ns _ Ht Hm) as [Hnum Htc]. specialize (Htc Hlm).
  rewrite order_by_numbered by done. rewrite take_ge in Hr by lia.
  rewrite (rct_query_rows _ d q _ Hw Hnum Hr). rewrite Ec, Sh. simpl.
  destruct Nh as [Eraw _], Dh as (raw & Eraw' & Dh). rewrite Eraw in Eraw'. injection Eraw' as <-. rewrite Dh. simpl.
  destruct (fetch_decode_perm header_RLP DecodeHeader u_CID _ _ _ (any_order (uncle_rows (h_ID hrow) d)) d Nu Du)
    as (ub & us' & Hus & -> & Eu); [|done|].
  { rewrite any_order_perm. refine (eq_ind _ (λ l, _ ≡ₚ l) (Permutation_refl _) _ _). transitivity (map snd (map uncle_cols (uncle_rows (h_ID hrow) d))); [by rewrite map_map|]. rewrite Hu.
    unfold payload_uncles. rewrite map_map. simpl. rewrite <- (map_map snd Cid). f_equal. apply snd_zip. lia. }
  simpl. rewrite Eu. simpl.
  destruct (fetch_decode trx_RLP DecodeTransaction tx_CID _ _ _ (tx_rows (h_ID hrow) d) d Nt Dt Htc St) as (tb & -> & Et).
  simpl. rewrite Et. simpl.
  destruct (fetch_decode rct_RLP DecodeReceipt r_CID _ _ _ (rct_rows (h_ID hrow) d) d Nr Dr) as (rb & -> & Er); [|done|].
  { transitivity (map snd (map (λ r, (r_TxID r, r_CID r)) (rct_rows (h_ID hrow) d))); [by rewrite map_map|].
    rewrite Hr. apply snd_zip. rewrite !length_map.
    apply (f_equal length) in Htc. rewrite !length_map in Htc. lia. }
  simpl. rewrite Er. by exists us'.
Qed.

End Serve.

(** ** Properties *)

Section Properties.
Context `{GethCommon} `{CidLib} `{TrieLib} `{StateRlp} `{EthRlp} `{!CidLaws} `{RowOrder}.
Variable DeriveFields : list Receipt → Block → result (list Receipt).
Variable map_range : list string → list string.

(** The hashes of a block's uncles and of its transactions are distinct, and
    every transaction has a receipt. *)
Definition proper_block (p : ConvertedPayload) : Prop :=
  NoDup (map (λ u, Hash_String (header_Hash u)) (block_Uncles (p_Block p))) ∧
  NoDup (map (λ t, Hash_String (trx_Hash t)) (block_Transactions (p_Block p))) ∧
  length (p_Receipts p) = length (block_Transactions (p_Block p)).

Lemma Convert_numbered pl p : Convert DeriveFields map_range pl = Ok p →
  map tx_TxHash (p_TxMetaData p) = map (λ t, Hash_String (trx_Hash t)) (block_Transactions (p_Block p)) ∧
  (∀ j m, p_TxMetaData p !! j = Some m → tx_Index m = Z.of_nat j).
Proof.
  unfold Convert. intros E. apply rbind_Ok_inv in E as (b & Hb & E).
  apply rbind_Ok_inv in E as (ms & Hms & E). apply rbind_Ok_inv in E as (rs & Hrs & E).
  apply rbind_Ok_inv in E as (rs' & Hrs' & E). apply rbind_Ok_inv in E as (rm & Hrm & E).
  apply rbind_Ok_inv in E as (sd & _ & [= <-]). simpl.
  destruct (convert_txs_spec _ _ _ Hms) as [Hl Hm]. split.
  - apply list_eq. intros j. rewrite !list_lookup_fmap. destruct (ms !! j) as [m|] eqn:Em.
    + destruct (Hm _ _ Em) as (t & -> & _ & Hh). simpl. by rewrite Hh.
    + apply lookup_ge_None in Em. rewrite (lookup_ge_None_2 (block_Transactions b)) by lia. done.
  - intros j m Em. by destruct (Hm _ _ Em) as (t & _ & Hi & _).
Qed.

(** A published payload: its rows, and its nodes under their CIDs. *)
Lemma Publish_stores nodeID p o s s' :
  NoDup (map (λ u, Hash_String (header_Hash u)) (block_Uncles (p_Block p))) →
  NoDup (map tx_TxHash (p_TxMetaData p)) → length (p_Receipts p) = length (block_Transactions (p_Block p)) →
  wf (tables s) (seqs s) → addressed (tables s) (seqs s) →
  payload_hash p ∉ map h_BlockHash (header_cids (tables s)) →
  Publish nodeID p o s = (DOk tt, s') → tables s' = tables s ∧ commit_refused o s' ∨
  ∃ ns, FromBlockAndReceipts (p_Block p) (p_Receipts p) = Ok ns ∧ (∃ q, published_rows p ns (tables s') q) ∧
    Forall (stored_node (tables s')) (headerNode ns :: uncleNodes ns ++ txNodes ns ++ rctNodes ns).
Proof.
  intros Hnu Hnt Hlen Hwf Haddr Hnew E.
  unfold Publish, db_bind, db_lift in E. destruct (FromBlockAndReceipts _ _) as [ns|e|w] eqn:Ens; [|done..].
  apply transact_deferred_commits in E as (s1 & s2 & Hb & Hbody & [Ht|Ht]); [right|by left|apply Publish_body_open].
  assert (Ht1 : tables s1 = tables s) by (rewrite <- (begin_tables o s); by rewrite Hb).
  assert (Hq1 : seqs s1 = seqs s) by (rewrite <- (begin_seqs o s); by rewrite Hb).
  pose proof (FromBlockAndReceipts_lengths _ _ _ Ens) as (L1 & L2 & L3).
  destruct (FromBlockAndReceipts_encodes _ _ _ Ens) as (Nh & Nu & Nt & Nr & Gt & Gr).
  apply encodes_genuine in Nu as Gu, Nt as Gt', Nr as Gr'. destruct Nh as [_ Gh].
  pose proof (Publish_body_rows nodeID p ns ltac:(lia) Hnu Hnt o s1) as Hrows.
  pose proof (Publish_body_holds (blocks (tables s)) nodeID p ns ltac:(lia) o s1) as Hholds.
  pose proof (Publish_body_addressed nodeID p ns Gu Gh Gt' Gr' Gt Gr o s1) as Hadd.
  rewrite Hbody, Ht1 in Hrows, Hholds, Hadd. rewrite Hq1 in Hrows, Hadd. rewrite Ht.
  specialize (Hrows (conj Hwf Hnew)). specialize (Hadd Haddr).
  destruct Hholds as [_ [Hall _]%Forall_app]; [by split|].
  exists ns. split; [done|]. split; [by eexists|].
  assert (Hst : ∀ n, n ∈ published_nodes ns → genuine n → stored_node (tables s2) n).
  { intros n Hn Hg. eapply block_of_genuine; [done|exact Hadd|]. rewrite Forall_forall in Hall. by apply Hall, list_elem_of_fmap_2. }
  unfold published_nodes in Hst. rewrite take_ge in Hst by lia.
  apply Forall_forall. intros n Hn. rewrite Forall_forall in Gu, Gt', Gr'. apply Hst.
  - set_solver.
  - apply elem_of_cons in Hn as [->|Hn]; [done|]. rewrite !elem_of_app in Hn. naive_solver.
Qed.

(** The answer of [rpcMarshalBlock]. *)
Definition marshalled (b : types_Block) (fullTx : bool) (d : EthDB) : result (gmap string RpcValue) :=
  td <-! (tdStr <-! match map h_TotalDifficulty (filter (λ h, h_BlockHash h = Hash_String (Header_Hash (blk_Header b))) (header_cids d)) with
                    | [] => Err ErrNoRows | x :: _ => Ok x end ;;
          match big_SetString tdStr with
          | Some td => Ok td
          | None => Err (Errorf "total difficulty retrieved from Postgres cannot be converted to an integer")
          end) ;;
  Ok (<["totalDifficulty" := VBig td]> (RPCMarshalBlock b true fullTx)).

Lemma rpcMarshalBlock_evaluates b fullTx : evaluates (rpcMarshalBlock b true fullTx) (marshalled b fullTx).
Proof. refine (bind_evaluates _ _ _ _ (GetTd_evaluates _) _). intros td. refine (ret_evaluates _). Qed.

(** C3: a converted block whose hash is new, once published, is served:
    [BlockByHash] composes the block again that its header, uncles,
    transactions and receipts decode to -- the transactions and receipts in
    their order, the uncles in the order in which the server returns their
    rows, which the query leaves open -- and, when the composed header still has
    the hash, the RPC answer carries its total difficulty.  The only other
    possibility is that the server refused the COMMIT, and then nothing changed. *)
Theorem published_block_is_served nodeID pl p h us ts rs o s s' :
  Convert DeriveFields map_range pl = Ok p → proper_block p → decoded p h us ts rs →
  wf (tables s) (seqs s) → addressed (tables s) (seqs s) →
  payload_hash p ∉ map h_BlockHash (header_cids (tables s)) →
  Publish nodeID p o s = (DOk tt, s') → tables s' = tables s ∧ commit_refused o s' ∨
  ∀ s1, tables s1 = tables s' → aborted s1 = false →
    let hash := header_Hash (block_Header (p_Block p)) in
    ∃ us', us' ≡ₚ us ∧
    let b := NewBlock h ts us' rs in
    out_result (BlockByHash hash no_faults s1).1 = Ok b ∧
    (Header_Hash (blk_Header b) = hash → ∀ fullTx,
       out_result (GetBlockByHash hash fullTx no_faults s1).1 =
       Ok (<["totalDifficulty" := VBig (p_TotalDifficulty p)]> (RPCMarshalBlock b true fullTx))).
Proof.
  intros Hc (Hnu & Hnt & Hlen) Hdec Hwf Haddr Hnew E.
  destruct (Convert_numbered _ _ Hc) as [Hhash Hidx]. rewrite <- Hhash in Hnt.
  destruct (Publish_stores _ _ _ _ _ Hnu Hnt Hlen Hwf Haddr Hnew E) as [Ht|(ns & Ens & (q & Hrows) & Hst)]; [by left|].
  right. intros s1 Hs1 Ha hash. rewrite <- Hs1 in Hrows, Hst.
  destruct (published_rows_served _ _ _ _ _ _ _ _ Hrows Hst Ens Hdec Hidx Hlen) as (us' & Hus & Hs).
  fold hash in Hs. exists us'. split; [done|]. intros b.
  split; [by destruct (BlockByHash_evaluates hash s1 Ha) as [-> _]|]. intros Hhb fullTx.
  assert (Hget : evaluates (GetBlockByHash hash fullTx) (λ d, blk <-! served hash d ;; marshalled blk fullTx d)).
  { apply bind_evaluates; [apply BlockByHash_evaluates|intros blk]. apply rpcMarshalBlock_evaluates. }
  destruct (Hget s1 Ha) as [-> _]. rewrite Hs. simpl. unfold marshalled. fold b. rewrite Hhb.
  destruct Hrows as (hrow & [(_ & _ & Hhdr & _) (Eh & _ & Etd)] & _).
  unfold payload_hash in Eh. unfold hash. rewrite <- Eh, Hhdr. simpl. by rewrite Etd, big_SetString_pretty.
Qed.

End Properties.

(** ** Witness *)

Section Witnesses.
#[local] Existing Instance Concrete.geth.
#[local] Existing Instance Concrete.cidlib.
#[local] Existing Instance Concrete.cid_laws.
#[local] Existing Instance EthPublisher.ex_trielib.
#[local] Existing Instance EthPublisher.ex_staterlp.
#[local] Existing Instance ApiConcrete.rlp.
#[local] Existing Instance newest_first.
Import ApiConcrete.

Definition ex_payload : Payload := {|
  pl_TotalDifficulty := 11; pl_Block := Ok ex_block; pl_Receipts := Ok [ex_rct];
  pl_StateObject := Ok [{| sd_Path := [1]; sd_Value := [3]; sd_Type := Leaf; sd_LeafKey := [2]; sd_StorageNodes := [] |}] |}.

Definition ex_Convert : result ConvertedPayload := Convert (λ rs _, Ok rs) (λ l, l) ex_payload.
Definition ex_p : ConvertedPayload := match ex_Convert with Ok p => p | _ => ex_converted end.
Definition ex_published : session EthDB := (Publish 1 ex_p no_faults ex_session).2.

Definition ex_types_rct : types_Receipt := [8].

Lemma published_block_is_served_witness :
  header_cids (tables ex_published) ≠ [] ∧
  (tables ex_published = tables ex_session ∧ commit_refused no_faults ex_published ∨
   ∀ s1, tables s1 = tables ex_published → aborted s1 = false →
     let hash := header_Hash (block_Header (p_Block ex_p)) in
     ∃ us', us' ≡ₚ [ex_header 8] ∧
     let b := NewBlock (ex_header 9) [ex_trn] us' [ex_types_rct] in
     out_result (BlockByHash hash no_faults s1).1 = Ok b ∧
     (Header_Hash (blk_Header b) = hash → ∀ fullTx,
        out_result (GetBlockByHash hash fullTx no_faults s1).1 =
        Ok (<["totalDifficulty" := VBig (p_TotalDifficulty ex_p)]> (RPCMarshalBlock b true fullTx)))).
Proof.
  split; [vm_compute; discriminate|].
  apply (published_block_is_served (λ rs _, Ok rs) (λ l, l) 1 ex_payload ex_p (ex_header 9) [ex_header 8] [ex_trn] [ex_types_rct]
    no_faults ex_session ex_published).
  - vm_compute. reflexivity.
  - split_and!; [apply (NoDup_singleton (A := string))..|reflexivity].
  - split_and!; [by exists [9]|constructor; [by exists [8]|constructor]|constructor; [by exists [7]|constructor]
      |constructor; [by exists [8]|constructor]].
  - apply wf_empty.
  - intros p raw c raw' _ Hc. change (blocks_of (tables ex_session)) with (∅ : gmap string bytes) in Hc.
    by apply lookup_empty_Some in Hc.
  - apply not_elem_of_nil.
  - vm_compute. reflexivity.
Defined.

End Witnesses.
