(* ===== verification/EthLogs.v ===== *)
(** * eth_getLogs (pkg/super_node/eth/api.go, backend.go)

    What [GetLogs] answers, as a condition on the rows and on the logs of the
    receipts they name. *)

From S2P Require Import Prelude GoInt Geth EthModel Sql Queries Blocks EthDB EthRetriever EthFetcher EthApi.

Section Logs.
Context `{GethCommon} `{CidLib} `{EthRlp} `{RowOrder}.

(** ** Which logs of a receipt are wanted *)

(** Every topic of the log is in the slot of its position, unless this is
    empty. *)
Definition log_wanted (slots : list (list string)) (topics : list bytes) : Prop :=
  ∀ j t slot, topics !! j = Some t → slots !! j = Some slot → slot = [] ∨ Hash_String t ∈ slot.

Lemma sliceContainsHash_spec slot h : sliceContainsHash slot h = if bool_decide (Hash_String h ∈ slot) then 1%nat else 0%nat.
Proof.
  unfold sliceContainsHash. destruct (existsb _ slot) eqn:E.
  - apply existsb_exists in E as (x & Hx%list_elem_of_In & ->%bool_decide_eq_true).
    by rewrite bool_decide_eq_true_2.
  - rewrite bool_decide_eq_false_2; [done|]. intros Hin. apply not_true_iff_false in E. apply E, existsb_exists.
    exists (Hash_String h). split; [by apply list_elem_of_In|by apply bool_decide_eq_true].
Qed.

Lemma wanted_matches_spec slots topics : ∀ i, (i + length topics ≤ length slots)%nat →
  ∃ m, wanted_matches i slots topics = Ok m ∧ (m ≤ length topics)%nat ∧
    (m = length topics ↔ log_wanted (drop i slots) topics).
Proof.
  induction topics as [|t topics IH]; intros i Hi; simpl in *.
  { exists 0%nat. split_and!; [done|lia|]. split; [|done]. intros _ j t slot. by rewrite lookup_nil. }
  destruct (lookup_lt_is_Some_2 slots i) as [slot Hs]; [lia|]. rewrite Hs.
  destruct (IH (S i)) as (m & -> & Hm & Hw); [lia|]. simpl.
  set (b := if (0 <? length slot)%nat then _ else 1%nat).
  assert (Hb : (b ≤ 1)%nat ∧ (b = 1%nat ↔ slot = [] ∨ Hash_String t ∈ slot)).
  { unfold b. rewrite sliceContainsHash_spec. destruct slot as [|x slot]; simpl; [split; [lia|naive_solver]|].
    destruct (bool_decide (Hash_String t ∈ x :: slot)) eqn:E; [apply bool_decide_eq_true in E|apply bool_decide_eq_false in E];
      split; [lia|naive_solver|lia|naive_solver]. }
  destruct Hb as [Hb1 Hb2]. exists (b + m)%nat. split_and!; [done|lia|].
  rewrite (drop_S _ _ _ Hs). split.
  - intros Heq. assert (b = 1%nat ∧ m = length topics) as [Eb Em] by lia. intros [|j] u sl; simpl.
    + intros [= <-] [= <-]. by apply Hb2.
    + by apply Hw.
  - intros Hall. assert (b = 1%nat) as -> by (apply Hb2; by apply (Hall 0%nat)).
    assert (m = length topics) as ->; [|done]. apply Hw. intros j. by apply (Hall (S j)).
Qed.

(** With four slots, [wantedLog] answers for the logs of the EVM, and panics on
    a log with more topics. *)
Lemma wantedLog_spec slots topics : length slots = 4%nat →
  if (length topics <=? 4)%nat then ∃ b, wantedLog slots topics = Ok b ∧ (b = true ↔ log_wanted slots topics)
  else is_ok (wantedLog slots topics) = false.
Proof.
  intros Hs. destruct (Nat.leb_spec (length topics) 4).
  - destruct (wanted_matches_spec slots topics 0) as (m & E & Hm & Hw); [lia|]. unfold wantedLog. rewrite E. simpl.
    exists (m =? length topics)%nat. split; [done|]. by rewrite Nat.eqb_eq.
  - assert (Hl : ∀ ts i, (i ≤ length slots)%nat → (length slots < i + length ts)%nat → is_ok (wanted_matches i slots ts) = false).
    { induction ts as [|t ts IH]; intros i Hi0 Hi; simpl in *; [lia|]. destruct (slots !! i) as [slot|] eqn:Es; [|done].
      apply lookup_lt_Some in Es. specialize (IH (S i) ltac:(lia) ltac:(lia)). by destruct (wanted_matches (S i) slots ts). }
    unfold wantedLog. specialize (Hl topics 0%nat ltac:(lia) ltac:(lia)). by destruct (wanted_matches 0 slots topics).
Qed.

Lemma wanted_logs_spec slots logs : length slots = 4%nat →
  match wanted_logs slots logs with
  | Ok ls => ∀ l, l ∈ ls ↔ l ∈ logs ∧ log_wanted slots (Log_Topics l)
  | _ => ∃ l, l ∈ logs ∧ (4 < length (Log_Topics l))%nat
  end.
Proof.
  intros Hs. induction logs as [|l logs IH]; simpl; [intros l; split; [by intros ?%elem_of_nil|by intros [?%elem_of_nil _]]|].
  pose proof (wantedLog_spec slots (Log_Topics l) Hs) as Hw. destruct (Nat.leb_spec (length (Log_Topics l)) 4).
  - destruct Hw as (b & -> & Hb). simpl. destruct (wanted_logs slots logs) as [ls|e|w]; simpl.
    2, 3: destruct IH as (l' & Hl' & Hlen); exists l'; split; [set_solver|done].
    intros x. destruct b; [|]; rewrite ?elem_of_cons, IH.
    + split; [intros [->|[? ?]]; [split; [by left|by apply Hb]|split; [by right|done]]|].
      intros [[->|Hx] Hwx]; [by left|by right].
    + split; [by intros [? ?]; split; [right|]|]. intros [[->|Hx] Hwx]; [|done]. by apply Hb in Hwx.
  - destruct (wantedLog slots (Log_Topics l)); [done|..]; exists l; (split; [set_solver|done]).
Qed.

(** ** Which receipts are selected *)

Definition linked (d : EthDB) (h : HeaderModel) (t : TxModel) (r : ReceiptModel) : Prop :=
  h ∈ header_cids d ∧ t ∈ transaction_cids d ∧ r ∈ receipt_cids d ∧ tx_HeaderID t = h_ID h ∧ r_TxID r = tx_ID t.

Lemma elem_of_select_receipts p c d r :
  r ∈ select_receipts p c d ↔ ∃ h t, linked d h t r ∧ p h = true ∧ c r = true.
Proof.
  unfold select_receipts, linked. rewrite list_elem_of_fmap. split.
  - intros ([[r' t] h] & -> & [[Hp Hc] Hin]%elem_of_order_by%list_elem_of_filter). simpl in *.
    apply list_elem_of_bind in Hin as ([r2 t2] & Hin & Hj). apply list_elem_of_bind in Hin as (h2 & Hin & Hh).
    case_bool_decide; [|by apply elem_of_nil in Hin]. apply list_elem_of_singleton in Hin. simplify_eq.
    apply list_elem_of_bind in Hj as (r3 & Hj & Hr). apply list_elem_of_bind in Hj as (t3 & Hj & Ht).
    case_bool_decide; [|by apply elem_of_nil in Hj]. apply list_elem_of_singleton in Hj. simplify_eq.
    exists h2, t3. by split_and!.
  - intros (h & t & (Hh & Ht & Hr & E1 & E2) & Hp & Hc). exists (r, t, h). split; [done|].
    apply elem_of_order_by, list_elem_of_filter. split; [done|].
    apply list_elem_of_bind. exists (r, t). split.
    + apply list_elem_of_bind. exists h. split; [|done]. simpl. rewrite bool_decide_eq_true_2 by done. set_solver.
    + apply list_elem_of_bind. exists r. split; [|done]. apply list_elem_of_bind. exists t. split; [|done].
      rewrite bool_decide_eq_true_2 by done. set_solver.
Qed.

(** The conditions on the columns of a receipt: one of the addresses has logged
    in it, and every non-empty slot has one of the topics of its position. *)
Definition row_wanted (crit : FilterQuery) (r : ReceiptModel) : Prop :=
  (fq_Addresses crit = [] ∨ ∃ a, a ∈ fq_Addresses crit ∧ Address_Hex a ∈ r_LogContracts r) ∧
  ∀ i slot, topic_slots (fq_Topics crit) !! i = Some slot → slot ≠ [] → ∃ x, x ∈ topic_column i r ∧ x ∈ slot.

Lemma topic_slots_length topics : length (topic_slots topics) = 4%nat.
Proof. unfold topic_slots. rewrite length_app, length_replicate, length_map, length_take. lia. Qed.

Lemma overlaps_true column wanted : overlaps column wanted = true ↔ ∃ x, x ∈ column ∧ x ∈ wanted.
Proof.
  unfold overlaps. rewrite existsb_exists. split; intros (x & Hx & Hw); exists x.
  - apply list_elem_of_In in Hx. by apply bool_decide_eq_true in Hw.
  - split; [by apply list_elem_of_In|by apply bool_decide_eq_true].
Qed.

Lemma topic_conjuncts_spec r topics : ∀ i, (i + length topics ≤ 4)%nat →
  (forallb (λ c, c r) (topic_conjuncts i topics) = true ↔
   ∀ j slot, topics !! j = Some slot → slot ≠ [] → ∃ x, x ∈ topic_column (i + j) r ∧ x ∈ slot) ∧
  (topic_conjuncts i topics = [] ↔ ∀ j slot, topics !! j = Some slot → slot = []).
Proof.
  induction topics as [|slot topics IH]; intros i Hi; simpl in *.
  { split; split; try done; intros _ j slot; by rewrite lookup_nil. }
  destruct (IH (S i) ltac:(lia)) as [I1 I2].
  assert (Hc : (∀ P : nat → list string → Prop,
    (∀ j sl, (slot :: topics) !! j = Some sl → P j sl) ↔ P 0%nat slot ∧ ∀ j sl, topics !! j = Some sl → P (S j) sl)).
  { intros P. split; [intros Ha; split; [by apply Ha|intros j; apply (Ha (S j))]|].
    intros [H0' HS] [|j] sl; simpl; [by intros [= <-]|by apply HS]. }
  rewrite (Hc (λ j sl, sl ≠ [] → ∃ x, x ∈ topic_column (i + j) r ∧ x ∈ sl)), (Hc (λ j sl, sl = [])), Nat.add_0_r.
  setoid_rewrite <- Nat.add_succ_comm.
  destruct slot as [|x slot]; simpl.
  - rewrite andb_false_r, I1, I2. split; [|naive_solver]. split; [by intros Ha; split|by intros [_ Ha]].
  - rewrite andb_true_r. destruct (Nat.ltb_spec i 4); [|lia]. simpl. rewrite andb_true_iff, I1, overlaps_true.
    split; [naive_solver|]. split; [done|by intros [? _]].
Qed.

Lemma rct_clause_logs crit : ∃ c, rct_clause (logs_filter crit) [] = Ok c ∧ ∀ r, c r = true ↔ row_wanted crit r.
Proof.
  unfold rct_clause, logs_filter, topic_clause. cbn [rf_MatchTxs rf_LogAddresses rf_Topics].
  set (slots := topic_slots (fq_Topics crit)).
  assert (Hspec : ∀ r, _) by exact (λ r, topic_conjuncts_spec r slots 0 ltac:(unfold slots; rewrite topic_slots_length; simpl; lia)).
  assert (Hn : hasTopics slots = false ↔ topic_conjuncts 0 slots = []).
  { rewrite (proj2 (Hspec {| r_ID := 0; r_TxID := 0; r_CID := ""; r_Contract := ""; r_ContractHash := "";
      r_LogContracts := []; r_Topic0s := []; r_Topic1s := []; r_Topic2s := []; r_Topic3s := [] |})).
    unfold hasTopics. rewrite <- not_true_iff_false, existsb_exists. split.
    - intros Hno j slot Hj. destruct slot as [|x slot]; [done|]. exfalso. apply Hno. exists (x :: slot).
      split; [|done]. apply list_elem_of_In. by eapply list_elem_of_lookup_2.
    - intros Hall (slot & Hin%list_elem_of_In & Hl). apply list_elem_of_lookup in Hin as [j Hj].
      by rewrite (Hall _ _ Hj) in Hl. }
  assert (Ha : ∀ r, (if (0 <? length (map Address_Hex (fq_Addresses crit)))%nat then overlaps (r_LogContracts r) (map Address_Hex (fq_Addresses crit)) else true) = true
    ↔ fq_Addresses crit = [] ∨ ∃ a, a ∈ fq_Addresses crit ∧ Address_Hex a ∈ r_LogContracts r).
  { intros r. destruct (fq_Addresses crit) as [|a l]; [by split; [left|]|]. simpl. rewrite overlaps_true. split.
    - intros (x & Hx & (b & -> & Hb)%(list_elem_of_fmap Address_Hex (a :: l))). right. by exists b.
    - intros [?|(b & Hb & Hx)]; [done|]. exists (Address_Hex b). split; [done|].
      by apply (list_elem_of_fmap_2 Address_Hex (a :: l)). }
  unfold row_wanted. fold slots. destruct (0 <? length (map Address_Hex (fq_Addresses crit)))%nat;
    destruct (hasTopics slots) eqn:Eh.
  - destruct (topic_conjuncts 0 slots) as [|c cs] eqn:Ec; [by discriminate (proj2 Hn eq_refl)|].
    eexists; split; [done|]. intros r. simpl. rewrite orb_false_r, andb_true_iff, Ha. f_equiv. apply (Hspec r).
  - eexists; split; [done|]. intros r. simpl. rewrite orb_false_r, andb_true_r, Ha.
    pose proof (proj1 (proj2 (Hspec r)) (proj1 Hn eq_refl)). naive_solver.
  - destruct (topic_conjuncts 0 slots) as [|c cs] eqn:Ec; [by discriminate (proj2 Hn eq_refl)|].
    eexists; split; [done|]. intros r. simpl. rewrite orb_false_r. specialize (Ha r). rewrite (proj1 (Hspec r)). tauto.
  - eexists; split; [done|]. intros r. simpl. specialize (Ha r).
    pose proof (proj1 (proj2 (Hspec r)) (proj1 Hn eq_refl)). split; [intros _; split; [tauto|naive_solver]|done].
Qed.

(** ** What the query evaluates to *)

Definition first_or_none (l : list Z) : result Z := match l with [] => Err ErrNoRows | n :: _ => Ok n end.
Definition lowest (d : EthDB) : result Z := first_or_none (take 1 (order_by (λ n, n) (block_numbers d))).
Definition highest (d : EthDB) : result Z := first_or_none (take 1 (order_by Z.opp (block_numbers d))).

Definition from_height (crit : FilterQuery) (d : EthDB) : result Z :=
  match fq_FromBlock crit with Some n => Ok (i64 n) | None => lowest d end.
Definition to_height (crit : FilterQuery) (d : EthDB) : result Z :=
  match fq_ToBlock crit with Some n => Ok (i64 n) | None => highest d end.

(** The condition on headers of one [RetrieveRctCIDs]. *)
Definition at_height (i : Z) (h : HeaderModel) : bool :=
  (if 0 <? i then h_BlockNumber h =? i else true) && true.
Definition at_hash (hash : bytes) (h : HeaderModel) : bool :=
  (if 0 <? 0 then h_BlockNumber h =? 0 else true) && bool_decide (h_BlockHash h = Hash_String hash).

(** [None]: the loop over the heights has not ended. *)
Definition selected_rows (fuel : nat) (crit : FilterQuery) (d : EthDB) : result (option (list ReceiptModel)) :=
  c <-! rct_clause (logs_filter crit) [] ;;
  match fq_BlockHash crit with
  | Some hash => Ok (Some (select_receipts (at_hash hash) c d))
  | None =>
      start <-! from_height crit d ;;
      stop <-! to_height crit d ;;
      Ok ((λ hs, concat (map (λ i, select_receipts (at_height i) c d) hs)) <$> heights fuel start stop)
  end.

Definition fetched_blocks (rows : list ReceiptModel) (d : EthDB) : result (list BlockModel) :=
  range_collect (λ r, block_of d (r_CID r)) rows.

Definition answer (fuel : nat) (crit : FilterQuery) (d : EthDB) : result (option (list types_Log)) :=
  rows <-! selected_rows fuel crit d ;;
  match rows with
  | Some rows =>
      bs <-! fetched_blocks rows d ;;
      ls <-! extractLogsOfInterest bs (topic_slots (fq_Topics crit)) ;;
      Ok (Some ls)
  | None => Ok None
  end.

Lemma FetchRcts_evaluates rows : evaluates (Pg.FetchRcts rows) (fetched_blocks rows).
Proof. apply (collect_evaluates _ (λ c d, block_of d (r_CID c))). intros c. apply fetch_model_evaluates. Qed.

Lemma bound_evaluates n m f : evaluates m f →
  evaluates (bound n m) (λ d, match n with Some n => Ok (i64 n) | None => f d end).
Proof. intros Hm. destruct n; [refine (ret_evaluates _)|by apply shadow_evaluates]. Qed.

Lemma lowest_evaluates : evaluates RetrieveFirstBlockNumber lowest.
Proof.
  refine (scan_one_evaluates _ (λ d, take 1 (order_by (λ n, n) (block_numbers d))) _). apply select_auto_evaluates.
Qed.
Lemma highest_evaluates : evaluates RetrieveLastBlockNumber highest.
Proof.
  refine (scan_one_evaluates _ (λ d, take 1 (order_by Z.opp (block_numbers d))) _). apply select_auto_evaluates.
Qed.

(** The blocks of the selected rows, inside the transaction. *)
Definition selected_blocks (fuel : nat) (crit : FilterQuery) (d : EthDB) : result (option (list BlockModel)) :=
  rows <-! selected_rows fuel crit d ;;
  match rows with
  | Some rows => bs <-! fetched_blocks rows d ;; Ok (Some bs)
  | None => Ok None
  end.

Lemma some_blocks_evaluates (m : DB EthDB (list BlockModel)) f : evaluates m f →
  evaluates (bs <-- m ;; db_ret (Some bs)) (λ d, bs <-! f d ;; Ok (Some bs)).
Proof. intros Hm. apply bind_evaluates; [done|intros bs; refine (ret_evaluates _)]. Qed.

Lemma loop_blocks_evaluates rows :
  evaluates match rows with
            | Some rctCIDs => rctIPLDs <-- Pg.FetchRcts (concat rctCIDs) ;; db_ret (Some rctIPLDs)
            | None => db_ret None
            end
    (λ d, match rows with Some rows => bs <-! fetched_blocks (concat rows) d ;; Ok (Some bs) | None => Ok None end).
Proof. destruct rows; [refine (some_blocks_evaluates _ _ (FetchRcts_evaluates _))|refine (ret_evaluates _)]. Qed.

Lemma wanted_logs_evaluates slots bs :
  evaluates match bs with
            | Some rctIPLDs => logs <-- db_lift (extractLogsOfInterest rctIPLDs slots) ;; db_ret (Some logs)
            | None => db_ret None
            end
    (λ d : EthDB, match bs with Some bs => ls <-! extractLogsOfInterest bs slots ;; Ok (Some ls) | None => Ok None end).
Proof.
  destruct bs; [|refine (ret_evaluates _)]. apply bind_evaluates; [refine (lift_evaluates _)|intros ls; refine (ret_evaluates _)].
Qed.

Lemma GetLogs_evaluates fuel crit : evaluates (GetLogs fuel crit) (answer fuel crit).
Proof.
  destruct (rct_clause_logs crit) as (c & Ec & _).
  eapply evaluates_ext; [|apply bind_evaluates; [apply transact_early_fuel_evaluates; instantiate (1 := selected_blocks fuel crit)|
    intros bs; refine (wanted_logs_evaluates _ bs)]].
  - intros d. unfold answer, selected_blocks. destruct (selected_rows fuel crit d) as [[rows|]|e|w]; simpl; [|done..].
    by destruct (fetched_blocks rows d).
  - unfold selected_blocks, selected_rows. destruct (fq_BlockHash crit) as [hash|] eqn:Eh.
    + eapply evaluates_ext; [|apply bind_evaluates; [refine (shadow_evaluates _ _ (query_evaluates _))|
        intros rows; refine (some_blocks_evaluates _ _ (shadow_evaluates _ _ (FetchRcts_evaluates rows)))]].
      intros d. rewrite Ec. simpl. done.
    + eapply evaluates_ext; [|apply bind_evaluates; [refine (bound_evaluates _ _ _ lowest_evaluates)|intros start];
        apply bind_evaluates; [refine (bound_evaluates _ _ _ highest_evaluates)|intros stop];
        apply bind_evaluates; [refine (db_range_evaluates _ _ (λ i d, select_receipts (at_height i) c d) _ _ _)|
          intros rows; refine (loop_blocks_evaluates rows)]].
      * intros d. unfold from_height, to_height. rewrite Ec. simpl. unfold rbind.
        destruct (fq_FromBlock crit), (fq_ToBlock crit); simpl.
        all: try destruct (lowest d); try destruct (highest d); simpl; try done.
        all: by destruct (heights _ _ _).
      * intros i. apply shadow_evaluates. eapply evaluates_ext; [|apply query_evaluates]. intros d. by rewrite Ec.
Qed.

Lemma elem_of_concat {A} (x : A) ls : x ∈ concat ls ↔ ∃ l, x ∈ l ∧ l ∈ ls.
Proof.
  rewrite list_elem_of_In, in_concat. setoid_rewrite list_elem_of_In. naive_solver.
Qed.

(** A header is asked for by its hash, or by a height of the range; but a height
    that is not positive asks for every header. *)
Definition asked (crit : FilterQuery) (d : EthDB) (h : HeaderModel) : Prop :=
  match fq_BlockHash crit with
  | Some hash => h_BlockHash h = Hash_String hash
  | None => ∃ start stop i, from_height crit d = Ok start ∧ to_height crit d = Ok stop ∧
      start ≤ i ≤ stop ∧ (0 < i → h_BlockNumber h = i)
  end.

(** The rows of the receipts that are asked for and pass the filter. *)
Definition wanted_row (crit : FilterQuery) (d : EthDB) (r : ReceiptModel) : Prop :=
  row_wanted crit r ∧ ∃ h t, linked d h t r ∧ asked crit d h.

Lemma at_height_true i h : at_height i h = true ↔ (0 < i → h_BlockNumber h = i).
Proof.
  unfold at_height. rewrite andb_true_r. destruct (Z.ltb_spec 0 i); [|by split; [intros _ ?; lia|]].
  rewrite Z.eqb_eq. naive_solver.
Qed.

Lemma end_fails l (f : Z → Z) : is_ok (first_or_none (take 1 (order_by f l))) = false → l = [].
Proof.
  intros E. apply Permutation_nil_r. rewrite <- (order_by_perm f l). by destruct (order_by f l).
Qed.

(** The loop over the range is not done after [fuel] rounds -- or never. *)
Definition unfinished (fuel : nat) (crit : FilterQuery) (d : EthDB) : Prop :=
  fq_BlockHash crit = None ∧ ∃ start stop, from_height crit d = Ok start ∧ to_height crit d = Ok stop ∧
    start ≤ stop ∧ (Z.of_nat fuel ≤ stop - start ∨ stop = 2 ^ 63 - 1).

Lemma end_is_i64 d (f : Z → Z) n : Forall is_i64 (block_numbers d) →
  first_or_none (take 1 (order_by f (block_numbers d))) = Ok n → is_i64 n.
Proof.
  intros Hd E. rewrite <- (order_by_perm f (block_numbers d)) in Hd.
  destruct (order_by f (block_numbers d)); [done|]. injection E as ->. by inversion Hd.
Qed.

(** The heights of the loop: the range, unless the loop is unfinished. *)
Lemma heights_of_range fuel start stop : is_i64 start → is_i64 stop →
  match heights fuel start stop with
  | Some hs => ¬ (start ≤ stop ∧ (Z.of_nat fuel ≤ stop - start ∨ stop = 2 ^ 63 - 1)) ∧ ∀ i, i ∈ hs ↔ start ≤ i ≤ stop
  | None => start ≤ stop ∧ (Z.of_nat fuel ≤ stop - start ∨ stop = 2 ^ 63 - 1)
  end.
Proof.
  intros Hstart Hstop. destruct (Z.le_gt_cases start stop) as [Hle|Hgt].
  2: { replace (heights fuel start stop) with (Some ([] : list Z)).
       - split; [lia|]. intros i. rewrite elem_of_nil. lia.
       - destruct fuel; simpl; by destruct (Z.leb_spec start stop); try lia. }
  destruct (decide (stop = 2 ^ 63 - 1)) as [->|Hmax]; [rewrite heights_endless by done; lia|].
  destruct (Z.le_gt_cases (Z.of_nat fuel) (stop - start)).
  - rewrite heights_short by done. lia.
  - rewrite heights_range by (unfold is_i64 in *; lia). split; [lia|]. intros i. rewrite elem_of_seqZ. lia.
Qed.

Lemma selected_rows_spec fuel crit d : Forall is_i64 (block_numbers d) →
  match selected_rows fuel crit d with
  | Ok (Some rows) => ¬ unfinished fuel crit d ∧ ∀ r, r ∈ rows ↔ wanted_row crit d r
  | Ok None => unfinished fuel crit d
  | _ => ¬ unfinished fuel crit d ∧ header_cids d = [] ∧ (fq_FromBlock crit = None ∨ fq_ToBlock crit = None)
  end.
Proof.
  intros Hd.
  destruct (rct_clause_logs crit) as (c & Ec & Hc). unfold selected_rows, wanted_row, asked, unfinished. rewrite Ec. simpl.
  destruct (fq_BlockHash crit) as [hash|].
  { split; [naive_solver|]. intros r. rewrite elem_of_select_receipts, <- Hc. unfold at_hash.
    setoid_rewrite andb_true_iff. setoid_rewrite bool_decide_eq_true. simpl. naive_solver. }
  assert (Hnil : ∀ l : list HeaderModel, map h_BlockNumber l = [] → l = []) by (by intros []).
  destruct (from_height crit d) as [start|e|w] eqn:Es; simpl.
  2, 3: split; [naive_solver|]; unfold from_height in Es; destruct (fq_FromBlock crit); [done|]; split; [|by left];
    apply Hnil, (end_fails _ (λ n, n)); change (is_ok (lowest d) = false); by rewrite Es.
  destruct (to_height crit d) as [stop|e|w] eqn:Et; simpl.
  2, 3: split; [naive_solver|]; unfold to_height in Et; destruct (fq_ToBlock crit); [done|]; split; [|by right];
    apply Hnil, (end_fails _ Z.opp); change (is_ok (highest d) = false); by rewrite Et.
  assert (Hs : is_i64 start).
  { unfold from_height in Es. destruct (fq_FromBlock crit); [injection Es as <-; apply i64_range|by eapply end_is_i64]. }
  assert (Ht : is_i64 stop).
  { unfold to_height in Et. destruct (fq_ToBlock crit); [injection Et as <-; apply i64_range|by eapply end_is_i64]. }
  pose proof (heights_of_range fuel start stop Hs Ht) as Hh. destruct (heights fuel start stop) as [hs|]; simpl.
  2: { split; [done|]. by exists start, stop. }
  destruct Hh as [Hfin Hhs]. split; [naive_solver|]. intros r. rewrite <- Hc. split.
  - intros (rows & Hr & (i & -> & Hi%Hhs)%list_elem_of_fmap)%elem_of_concat.
    apply elem_of_select_receipts in Hr as (h & t & Hl & Hh & Hcr).
    pose proof (proj1 (at_height_true i h) Hh).
    split; [done|]. exists h, t. split; [done|]. exists start, stop, i. split_and!; [done|done|lia|lia|done].
  - intros (Hcr & h & t & Hl & a & b & i & [= <-] & [= <-] & Hi & Hh).
    apply elem_of_concat. exists (select_receipts (at_height i) c d). split.
    + apply elem_of_select_receipts. exists h, t. split_and!; [done|by apply at_height_true|done].
    + apply list_elem_of_fmap. exists i. split; [done|by apply Hhs].
Qed.

(** The receipt that a row names. *)
Definition receipt_of (d : EthDB) (r : ReceiptModel) : result types_Receipt :=
  b <-! block_of d (r_CID r) ;; DecodeReceipt (Data b).

Lemma extract_spec bs slots : length slots = 4%nat →
  match extractLogsOfInterest bs slots with
  | Ok ls => ∀ l, l ∈ ls ↔ ∃ b rct, b ∈ bs ∧ DecodeReceipt (Data b) = Ok rct ∧ l ∈ Receipt_Logs rct ∧ log_wanted slots (Log_Topics l)
  | _ => ∃ b, b ∈ bs ∧ (is_ok (DecodeReceipt (Data b)) = false ∨
      ∃ rct l, DecodeReceipt (Data b) = Ok rct ∧ l ∈ Receipt_Logs rct ∧ (4 < length (Log_Topics l))%nat)
  end.
Proof.
  intros Hs. unfold extractLogsOfInterest.
  set (f := λ b : BlockModel, rct <-! DecodeReceipt (Data b) ;; wanted_logs slots (Receipt_Logs rct)).
  destruct (is_ok (range_collect f bs)) eqn:Ef.
  - destruct (range_collect f bs) as [lss| |] eqn:E; [|done..]. simpl. apply range_collect_Ok in E.
    intros l. rewrite elem_of_concat. split.
    + intros (ls & Hl & [j Hj]%list_elem_of_lookup). destruct (Forall2_lookup_r _ _ _ _ _ E Hj) as (b & Hb & Eb).
      unfold f in Eb. apply rbind_Ok_inv in Eb as (rct & Hrct & Ew).
      pose proof (wanted_logs_spec slots (Receipt_Logs rct) Hs) as Hw. rewrite Ew in Hw. apply Hw in Hl as [Hl1 Hl2].
      exists b, rct. split_and!; [by eapply list_elem_of_lookup_2|done..].
    + intros (b & rct & [j Hj]%list_elem_of_lookup & Hrct & Hl & Hlw).
      destruct (Forall2_lookup_l _ _ _ _ _ E Hj) as (ls & Hls & Eb). unfold f in Eb. rewrite Hrct in Eb. simpl in Eb.
      pose proof (wanted_logs_spec slots (Receipt_Logs rct) Hs) as Hw. rewrite Eb in Hw.
      exists ls. split; [by apply Hw|by eapply list_elem_of_lookup_2].
  - assert (Hfail : ∃ b, b ∈ bs ∧ is_ok (f b) = false) by by apply range_collect_fails.
    destruct Hfail as (b & Hb & Hf). enough (is_ok (DecodeReceipt (Data b)) = false ∨
      ∃ rct l, DecodeReceipt (Data b) = Ok rct ∧ l ∈ Receipt_Logs rct ∧ (4 < length (Log_Topics l))%nat).
    { destruct (range_collect f bs); [done|..]; by exists b. }
    unfold f in Hf. destruct (DecodeReceipt (Data b)) as [rct| |]; [right|by left..].
    pose proof (wanted_logs_spec slots (Receipt_Logs rct) Hs) as Hw. simpl in Hf.
    destruct (wanted_logs slots (Receipt_Logs rct)); [done|..]; destruct Hw as (l & Hl & Ht); by exists rct, l.
Qed.

(** ** Properties *)

(** C4: on a database whose heights fit an int64, [GetLogs] answers with exactly
    the logs whose topics are in the slots of their positions, in the receipts
    that are asked for and whose row has one of the addresses and one topic of
    every non-empty slot -- where the address and the topics of the row may come
    from different logs of the receipt, and a range with a height that is not
    positive asks for the whole database.  The loop over a range of heights
    ends after as many rounds as the range has heights, except that it never
    ends when the range reaches the largest int64.  It fails only when the
    database is empty and a bound is to be taken from it, when a wanted receipt
    cannot be fetched or decoded, or when a wanted receipt has a log with more
    than four topics. *)
Theorem GetLogs_exact fuel crit s : aborted s = false → Forall is_i64 (block_numbers (tables s)) →
  let d := tables s in
  match out_result (GetLogs fuel crit no_faults s).1 with
  | Ok (Some ls) => ¬ unfinished fuel crit d ∧
      ∀ l, l ∈ ls ↔ log_wanted (topic_slots (fq_Topics crit)) (Log_Topics l) ∧
        ∃ r rct, wanted_row crit d r ∧ receipt_of d r = Ok rct ∧ l ∈ Receipt_Logs rct
  | Ok None => unfinished fuel crit d
  | _ => ¬ unfinished fuel crit d ∧
      (header_cids d = [] ∧ (fq_FromBlock crit = None ∨ fq_ToBlock crit = None) ∨
       ∃ r, wanted_row crit d r ∧ (is_ok (receipt_of d r) = false ∨
         ∃ rct l, receipt_of d r = Ok rct ∧ l ∈ Receipt_Logs rct ∧ (4 < length (Log_Topics l))%nat))
  end.
Proof.
  intros Ha Hd d. destruct (GetLogs_evaluates fuel crit s Ha) as [-> _]. fold d. unfold answer.
  pose proof (selected_rows_spec fuel crit d Hd) as Hsel.
  destruct (selected_rows fuel crit d) as [[rows|]| |]; simpl; [|done|naive_solver..].
  destruct Hsel as [Hfin Hsel].
  pose proof (λ bs, extract_spec bs _ (topic_slots_length (fq_Topics crit))) as Hex.
  unfold fetched_blocks. destruct (range_collect _ rows) as [bs|e|w] eqn:Eb; simpl.
  - specialize (Hex bs). apply range_collect_Ok in Eb.
    assert (Hrow : ∀ b, b ∈ bs → ∃ r, wanted_row crit d r ∧ block_of d (r_CID r) = Ok b).
    { intros b [j Hj]%list_elem_of_lookup. destruct (Forall2_lookup_r _ _ _ _ _ Eb Hj) as (r & Hr & Er).
      exists r. split; [by eapply Hsel, list_elem_of_lookup_2|done]. }
    destruct (extractLogsOfInterest bs (topic_slots (fq_Topics crit))) as [ls|e|w]; simpl.
    + split; [done|]. intros l. rewrite Hex. split.
      * intros (b & rct & (r & Hr & Er)%Hrow & Hrct & Hl & Hw). split; [done|].
        exists r, rct. split_and!; [done|by unfold receipt_of; rewrite Er|done].
      * intros (Hw & r & rct & [j Hj]%Hsel%list_elem_of_lookup & Hrct & Hl).
        destruct (Forall2_lookup_l _ _ _ _ _ Eb Hj) as (b & Hb & Er). unfold receipt_of in Hrct. rewrite Er in Hrct.
        exists b, rct. split_and!; [by eapply list_elem_of_lookup_2|done..].
    + split; [done|]. right. destruct Hex as (b & (r & Hr & Er)%Hrow & Hf). exists r.
      split; [done|]. unfold receipt_of. by rewrite Er.
    + split; [done|]. right. destruct Hex as (b & (r & Hr & Er)%Hrow & Hf). exists r.
      split; [done|]. unfold receipt_of. by rewrite Er.
  - split; [done|]. right. destruct (range_collect_fails (λ r, block_of d (r_CID r)) rows) as (r & Hr & Hf); [by rewrite Eb|].
    exists r. split; [by apply Hsel|left]. unfold receipt_of. by destruct (block_of d (r_CID r)).
  - split; [done|]. right. destruct (range_collect_fails (λ r, block_of d (r_CID r)) rows) as (r & Hr & Hf); [by rewrite Eb|].
    exists r. split; [by apply Hsel|left]. unfold receipt_of. by destruct (block_of d (r_CID r)).
Qed.

End Logs.

(** ** Witness *)

Section Witnesses.
#[local] Existing Instance Concrete.geth.
#[local] Existing Instance newest_first.
#[local] Existing Instance Concrete.cidlib.
#[local] Existing Instance ApiConcrete.rlp.

(** A block at height 9 whose receipt has a log of address 1 with topic 8. *)
Definition ex_logs : EthDB :=
  set_blocks {[ "/blocks/c" := [8] ]}
    (set_receipts [{| r_ID := 1; r_TxID := 1; r_CID := "c"; r_Contract := ""; r_ContractHash := "";
       r_LogContracts := [Address_Hex [1]]; r_Topic0s := [Hash_String [8]]; r_Topic1s := []; r_Topic2s := [];
       r_Topic3s := [] |}]
    (set_transactions [{| tx_ID := 1; tx_HeaderID := 9; tx_Index := 0; tx_TxHash := ""; tx_CID := "t";
       tx_Dst := ""; tx_Src := "" |}] (headers_at [9]))).

Definition ex_crit : FilterQuery :=
  {| fq_BlockHash := None; fq_FromBlock := Some 9; fq_ToBlock := None; fq_Addresses := [[2]; [1]];
     fq_Topics := [[[8]]; []] |}.

Lemma GetLogs_exact_witness :
  let s := mkSession ex_logs ∅ false 0%nat in
  out_result (GetLogs 1 ex_crit no_faults s).1 = Ok (Some [[[8]]]) ∧
  let d := tables s in
  match out_result (GetLogs 1 ex_crit no_faults s).1 with
  | Ok (Some ls) => ¬ unfinished 1 ex_crit d ∧
      ∀ l, l ∈ ls ↔ log_wanted (topic_slots (fq_Topics ex_crit)) (Log_Topics l) ∧
        ∃ r rct, wanted_row ex_crit d r ∧ receipt_of d r = Ok rct ∧ l ∈ Receipt_Logs rct
  | Ok None => unfinished 1 ex_crit d
  | _ => ¬ unfinished 1 ex_crit d ∧
      (header_cids d = [] ∧ (fq_FromBlock ex_crit = None ∨ fq_ToBlock ex_crit = None) ∨
       ∃ r, wanted_row ex_crit d r ∧ (is_ok (receipt_of d r) = false ∨
         ∃ rct l, receipt_of d r = Ok rct ∧ l ∈ Receipt_Logs rct ∧ (4 < length (Log_Topics l))%nat))
  end.
Proof.
  intros s. split; [vm_compute; reflexivity|]. apply (GetLogs_exact 1 ex_crit s); [reflexivity|].
  repeat constructor; discriminate.
Defined.

End Witnesses.
