(* ===== verification/Service.v ===== *)
(** * The super node's subscription service (pkg/super_node/service.go,
    subscription.go, helpers.go)

    What the service needs from a chain is the class [Chain]; its operations
    are state-passing functions on [Service].  Channels live in stores keyed by
    a channel identity, so subscriptions that share a channel share its buffer.
    A non-blocking send on a buffered channel succeeds exactly when the buffer
    has room.  The order in which Go ranges over a map is a parameter. *)

From S2P Require Import Prelude GoInt ChainTypes Geth.

(** ** What a chain provides *)

(** [shared.SubscriptionSettings], [ConvertedData], [IPLDs] and the filterer
    for one chain.  A converted payload may be a nil interface. *)
Class Chain := {
  Settings : Type;
  StartingBlock : Settings → Z;
  EndingBlock : Settings → Z;
  HistoricalData : Settings → bool;
  HistoricalDataOnly : Settings → bool;
  Settings_ChainType : Settings → ChainType;
  Settings_rlp : Settings → result bytes;
  ConvertedData : Type;
  ConvertedData_Height : ConvertedData → Z;
  Response : Type;
  Response_Height : Response → result Z;
  Response_rlp : Response → result bytes;
  FilterPayload : Settings → option ConvertedData → result Response
}.

(** ** Data *)

Inductive Flag : Type := EmptyFlag | BackFillCompleteFlag.

#[global] Instance Flag_eq_dec : EqDecision Flag.
Proof. solve_decision. Defined.

Record SubscriptionPayload : Type := mkPayload {
  sp_Data : bytes;
  sp_Height : Z;
  sp_Err : string;
  sp_Flag : Flag
}.

Definition SubscriptionPayload_Error (sp : SubscriptionPayload) : option error :=
  if bool_decide (sp_Err sp = "") then None else Some (Errorf (sp_Err sp)).

Definition BackFillComplete (sp : SubscriptionPayload) : bool :=
  if bool_decide (sp_Flag sp = BackFillCompleteFlag) then true else false.

(** The two channels of a subscription, by identity. *)
Record Subscription : Type := mkSub {
  ID : string;
  PayloadChan : nat;
  QuitChan : nat
}.

(** A buffered channel: capacity and contents, oldest first. *)
Record channel (A : Type) : Type := mkChan { cap : nat; buf : list A }.
Arguments mkChan {A} _ _.
Arguments cap {A} _.
Arguments buf {A} _.

Definition try_send {A} (c : nat) (x : A) (chans : gmap nat (channel A)) : gmap nat (channel A) :=
  match chans !! c with
  | Some ch =>
      if (length (buf ch) <? cap ch)%nat then <[c := mkChan (cap ch) (buf ch ++ [x])]> chans
      else chans
  | None => chans
  end.

Section Service.
Context `{Chain} `{GethCommon}.
(** The order in which [range] visits a map. *)
Variable range_types : gmap bytes (gmap string Subscription) → list (bytes * gmap string Subscription).
Variable range_subs : gmap string Subscription → list (string * Subscription).

Record Service : Type := mkService {
  Subscriptions : gmap bytes (gmap string Subscription);
  SubscriptionTypes : gmap bytes Settings;
  payloads : gmap nat (channel SubscriptionPayload);
  quits : gmap nat (channel bool);
  chain : ChainType;
  stopped : bool                       (* the service's own QuitChan is closed *)
}.

Definition with_subs (subs : gmap bytes (gmap string Subscription)) (types : gmap bytes Settings)
    (sap : Service) : Service :=
  mkService subs types (payloads sap) (quits sap) (chain sap) (stopped sap).

(** ** Non-blocking sends *)

Definition send_payload (sub : Subscription) (p : SubscriptionPayload) (sap : Service) : Service :=
  mkService (Subscriptions sap) (SubscriptionTypes sap)
    (try_send (PayloadChan sub) p (payloads sap)) (quits sap) (chain sap) (stopped sap).

Definition sendNonBlockingErr (sub : Subscription) (msg : string) (sap : Service) : Service :=
  send_payload sub (mkPayload [] 0 msg EmptyFlag) sap.

Definition sendNonBlockingQuit (sub : Subscription) (sap : Service) : Service :=
  mkService (Subscriptions sap) (SubscriptionTypes sap) (payloads sap)
    (try_send (QuitChan sub) true (quits sap)) (chain sap) (stopped sap).

(** ** Closing *)

Definition delete_type (subType : bytes) (sap : Service) : Service :=
  with_subs (delete subType (Subscriptions sap)) (delete subType (SubscriptionTypes sap)) sap.

Definition quit_all (subs : gmap string Subscription) (sap : Service) : Service :=
  foldl (λ sap p, sendNonBlockingQuit p.2 sap) sap (range_subs subs).

Definition closeType (subType : bytes) (sap : Service) : Service :=
  delete_type subType (quit_all (default ∅ (Subscriptions sap !! subType)) sap).

Definition close (sap : Service) : Service :=
  foldl (λ sap p, delete_type p.1 (quit_all p.2 sap)) sap (range_types (Subscriptions sap)).

(** Closing a closed channel panics. *)
Definition Stop (sap : Service) : result Service :=
  if stopped sap then Panic "close of closed channel"
  else Ok (close (mkService (Subscriptions sap) (SubscriptionTypes sap) (payloads sap) (quits sap)
                    (chain sap) true)).

(** ** Serving live data *)

(** [for id, sub := range subs { select { case sub.PayloadChan <- ... } }]:
    the sent value, [response.Height()] included, is evaluated each time. *)
Fixpoint serve_subs (response : Response) (responseRLP : bytes)
    (subs : list (string * Subscription)) (sap : Service) : result Service :=
  match subs with
  | [] => Ok sap
  | (id, sub) :: subs =>
      height <-! Response_Height response ;;
      serve_subs response responseRLP subs
        (send_payload sub (mkPayload responseRLP height "" EmptyFlag) sap)
  end.

(** The body of the loop over subscription types. *)
Definition serve_type (payload : option ConvertedData) (ty : bytes)
    (subs : gmap string Subscription) (sap : Service) : result Service :=
  match SubscriptionTypes sap !! ty with
  | None => Ok (closeType ty sap)
  | Some subConfig =>
      past <-! (if 0 <? EndingBlock subConfig then
                  match payload with
                  | None => Panic "invalid memory address or nil pointer dereference"
                  | Some p => Ok (EndingBlock subConfig <? ConvertedData_Height p)
                  end
                else Ok false) ;;
      if past : bool then Ok (closeType ty sap)
      else
        match FilterPayload subConfig payload with
        | Panic w => Panic w
        | Err _ => Ok (closeType ty sap)
        | Ok response =>
            match Response_rlp response with
            | Panic w => Panic w
            | Err _ => Ok sap
            | Ok responseRLP => serve_subs response responseRLP (range_subs subs) sap
            end
        end
  end.

Fixpoint serve_types (payload : option ConvertedData)
    (types : list (bytes * gmap string Subscription)) (sap : Service) : result Service :=
  match types with
  | [] => Ok sap
  | (ty, subs) :: types =>
      sap <-! serve_type payload ty subs sap ;;
      serve_types payload types sap
  end.

Definition filterAndServe (payload : option ConvertedData) (sap : Service) : result Service :=
  serve_types payload (range_types (Subscriptions sap)) sap.

(** ** Historical data *)

(** The retriever and the fetcher, on the database at the time of each call,
    and whether the service was told to quit before a height was looked up. *)
Variable CIDs : Type.
Variable RetrieveFirst RetrieveLast : result Z.
Variable Retrieve : Settings → Z → result (list CIDs * bool).
Variable Fetch : CIDs → result Response.
Variable quit_before : Z → bool.

Definition send_cids (sub : Subscription) (cids : CIDs) (sap : Service) : result Service :=
  match Fetch cids with
  | Panic w => Panic w
  | Err _ => Ok (sendNonBlockingErr sub "super node IPLD Fetching error" sap)
  | Ok response =>
      match Response_rlp response with
      | Panic w => Panic w
      | Err _ => Ok sap
      | Ok responseRLP =>
          height <-! Response_Height response ;;
          Ok (send_payload sub (mkPayload responseRLP height "" EmptyFlag) sap)
      end
  end.

Fixpoint send_all_cids (sub : Subscription) (cs : list CIDs) (sap : Service) : result Service :=
  match cs with
  | [] => Ok sap
  | c :: cs => sap <-! send_cids sub c sap ;; send_all_cids sub cs sap
  end.

Definition send_height (sub : Subscription) (params : Settings) (i : Z) (sap : Service)
    : result Service :=
  match Retrieve params i with
  | Panic w => Panic w
  | Err _ => Ok (sendNonBlockingErr sub "super node CID Retrieval error" sap)
  | Ok (cidWrappers, empty) =>
      if empty : bool then Ok sap else send_all_cids sub cidWrappers sap
  end.

(** [for i := startingBlock; i <= endingBlock; i++]; the boolean says whether
    the loop ran to its end. *)
Fixpoint send_heights (sub : Subscription) (params : Settings) (hs : list Z) (sap : Service)
    : result (Service * bool) :=
  match hs with
  | [] => Ok (sap, true)
  | i :: hs =>
      if quit_before i then Ok (sap, false)
      else sap <-! send_height sub params i sap ;; send_heights sub params hs sap
  end.

(** The block range of the historical feed.  The feed itself is a goroutine;
    here it runs to its end, after the range was computed without an error.  The
    heights are listed, so the range must not reach the largest int64, where
    the counter wraps around; HistoricalFeed steps the counter as it is. *)
Definition historical_range (params : Settings) : result (Z * Z) :=
  first <-! RetrieveFirst ;;
  let startingBlock := if first <? StartingBlock params then StartingBlock params else first in
  last <-! RetrieveLast ;;
  let endingBlock :=
    if (last >? EndingBlock params) && (EndingBlock params >? 0)
       && (EndingBlock params >? startingBlock)
    then EndingBlock params else last in
  Ok (startingBlock, endingBlock).

Definition sendHistoricalData (sub : Subscription) (params : Settings) (sap : Service)
    : result Service :=
  range <-! historical_range params ;;
  sent <-! send_heights sub params (seqZ range.1 (range.2 - range.1 + 1)) sap ;;
  if sent.2 : bool
  then Ok (send_payload sub (mkPayload [] 0 "" BackFillCompleteFlag) sent.1)
  else Ok sent.1.

(** ** Subscribing *)

Definition add_subscriber (subscriptionType : bytes) (id : string) (subscription : Subscription)
    (params : Settings) (sap : Service) : Service :=
  let subs := default ∅ (Subscriptions sap !! subscriptionType) in
  with_subs (<[subscriptionType := <[id := subscription]> subs]> (Subscriptions sap))
    (<[subscriptionType := params]> (SubscriptionTypes sap)) sap.

Definition Subscribe (id : string) (sub quitChan : nat) (params : Settings) (sap : Service)
    : result Service :=
  let subscription := mkSub id sub quitChan in
  let refuse msg sap := sendNonBlockingQuit subscription (sendNonBlockingErr subscription msg sap) in
  if bool_decide (Settings_ChainType params ≠ chain sap) then
    Ok (refuse "subscription is for another chain" sap)
  else
    match Settings_rlp params with
    | Panic w => Panic w
    | Err _ => Ok (refuse "rlp encoding error" sap)
    | Ok by_ =>
        let subscriptionType := Keccak256Hash by_ in
        let sap :=
          if negb (HistoricalDataOnly params)
          then add_subscriber subscriptionType id subscription params sap else sap in
        if HistoricalData params || HistoricalDataOnly params then
          match sendHistoricalData subscription params sap with
          | Err _ => Ok (refuse "super node subscriber backfill error" sap)
          | r => r
          end
        else Ok sap
    end.

Definition Unsubscribe_type (id : string) (sap : Service) (ty : bytes) : Service :=
  let subs := delete id (default ∅ (Subscriptions sap !! ty)) in
  if bool_decide (subs = ∅)
  then delete_type ty sap
  else with_subs (<[ty := subs]> (Subscriptions sap)) (SubscriptionTypes sap) sap.

Definition Unsubscribe (id : string) (sap : Service) : Service :=
  foldl (Unsubscribe_type id) sap (map fst (range_types (Subscriptions sap))).

(** ** Lemmas: channels *)

(** Sends in sequence. *)
Definition send_all (sends : list (nat * SubscriptionPayload))
    (chans : gmap nat (channel SubscriptionPayload)) : gmap nat (channel SubscriptionPayload) :=
  foldl (λ chans s, try_send s.1 s.2 chans) chans sends.

(** What a channel holds after [xs] were offered to it: a full buffer drops. *)
Definition offered {A} (ch : channel A) (xs : list A) : channel A :=
  foldl (λ ch x, if (length (buf ch) <? cap ch)%nat then mkChan (cap ch) (buf ch ++ [x]) else ch) ch xs.

Lemma offered_take {A} (xs : list A) : ∀ ch,
  (length (buf ch) ≤ cap ch)%nat → offered ch xs = mkChan (cap ch) (take (cap ch) (buf ch ++ xs)).
Proof.
  induction xs as [|x xs IH]; intros [n b] Hl; simpl in *.
  - by rewrite app_nil_r, take_ge by lia.
  - destruct (length b <? n)%nat eqn:E.
    + apply Nat.ltb_lt in E. rewrite IH by (simpl; rewrite length_app; simpl; lia). simpl.
      by rewrite <- app_assoc.
    + apply Nat.ltb_ge in E. rewrite IH by done. simpl. by rewrite !take_app_le by lia.
Qed.

Lemma try_send_lookup {A} c c' (x : A) chans :
  try_send c x chans !! c' =
  if decide (c = c') then (λ ch, offered ch [x]) <$> (chans !! c') else chans !! c'.
Proof.
  unfold try_send. destruct (decide (c = c')) as [->|Hne].
  - destruct (chans !! c') as [ch|] eqn:E; simpl; [|by rewrite E].
    unfold offered. simpl. destruct (_ <? _)%nat; [by rewrite lookup_insert_eq|by rewrite E].
  - destruct (chans !! c) as [ch|]; [|done]. destruct (_ <? _)%nat; [|done].
    by rewrite lookup_insert_ne.
Qed.

(** The contents of a channel depend on the sends to it only. *)
Lemma send_all_lookup sends : ∀ chans c,
  send_all sends chans !! c =
  (λ ch, offered ch (map snd (filter (λ s, s.1 = c) sends))) <$> (chans !! c).
Proof.
  induction sends as [|[c' x] sends IH]; intros chans c; simpl.
  - by destruct (chans !! c).
  - rewrite IH, try_send_lookup. rewrite filter_cons. simpl.
    destruct (decide (c' = c)) as [->|Hne]; destruct (chans !! c); simpl; done.
Qed.

Lemma send_all_app s1 s2 chans : send_all (s1 ++ s2) chans = send_all s2 (send_all s1 chans).
Proof. apply foldl_app. Qed.

(** ** Lemmas: the maps *)

Lemma quit_all_maps subs sap :
  Subscriptions (quit_all subs sap) = Subscriptions sap ∧
  SubscriptionTypes (quit_all subs sap) = SubscriptionTypes sap ∧
  payloads (quit_all subs sap) = payloads sap ∧ chain (quit_all subs sap) = chain sap.
Proof.
  unfold quit_all. revert sap. induction (range_subs subs) as [|p l IH]; intros sap; simpl; [done|].
  destruct (IH (sendNonBlockingQuit p.2 sap)) as (-> & -> & -> & ->). done.
Qed.

Lemma closeType_maps ty sap :
  Subscriptions (closeType ty sap) = delete ty (Subscriptions sap) ∧
  SubscriptionTypes (closeType ty sap) = delete ty (SubscriptionTypes sap) ∧
  payloads (closeType ty sap) = payloads sap ∧ chain (closeType ty sap) = chain sap.
Proof.
  unfold closeType, delete_type, with_subs. simpl.
  destruct (quit_all_maps (default ∅ (Subscriptions sap !! ty)) sap) as (-> & -> & -> & ->). done.
Qed.

(** ** The invariant of the subscription maps *)

Record svc_ok (sap : Service) : Prop := {
  ok_same_types : ∀ ty, is_Some (Subscriptions sap !! ty) ↔ is_Some (SubscriptionTypes sap !! ty);
  ok_nonempty : ∀ ty subs, Subscriptions sap !! ty = Some subs → subs ≠ ∅;
  ok_hash : ∀ ty params, SubscriptionTypes sap !! ty = Some params →
    ∃ by_, Settings_rlp params = Ok by_ ∧ ty = Keccak256Hash by_;
  ok_live : ∀ ty params, SubscriptionTypes sap !! ty = Some params →
    HistoricalDataOnly params = false ∧ Settings_ChainType params = chain sap;
  ok_ids : ∀ ty subs id sub, Subscriptions sap !! ty = Some subs → subs !! id = Some sub → ID sub = id
}.

(** Two states with the same subscriptions: channels may differ. *)
Definition same_maps (sap sap' : Service) : Prop :=
  Subscriptions sap' = Subscriptions sap ∧ SubscriptionTypes sap' = SubscriptionTypes sap ∧
  chain sap' = chain sap.

#[local] Instance same_maps_preorder : PreOrder same_maps.
Proof.
  split; [by intros sap|]. intros s1 s2 s3 (H1 & H2 & H3) (H4 & H5 & H6).
  split_and!; congruence.
Qed.

Lemma svc_ok_maps sap sap' : same_maps sap sap' → svc_ok sap → svc_ok sap'.
Proof. intros (H1 & H2 & H3) [O1 O2 O3 O4 O5]. by split; rewrite ?H1, ?H2, ?H3. Qed.

#[local] Instance svc_ok_proper : Proper (same_maps ==> impl) svc_ok.
Proof. intros sap sap' Hm Hok. by eapply svc_ok_maps. Qed.

Lemma delete_type_ok ty sap : svc_ok sap → svc_ok (delete_type ty sap).
Proof.
  intros [O1 O2 O3 O4 O5]. split; simpl.
  - intros ty'. rewrite !lookup_delete_is_Some. naive_solver.
  - intros ty' subs [_ Hl]%lookup_delete_Some. eauto.
  - intros ty' subs [_ Hl]%lookup_delete_Some. eauto.
  - intros ty' subs [_ Hl]%lookup_delete_Some. eauto.
  - intros ty' subs id sub [_ Hl]%lookup_delete_Some. eauto.
Qed.

Lemma quit_all_ok subs sap : svc_ok sap → svc_ok (quit_all subs sap).
Proof. destruct (quit_all_maps subs sap) as (? & ? & _ & ?). by apply svc_ok_maps. Qed.

Lemma closeType_ok ty sap : svc_ok sap → svc_ok (closeType ty sap).
Proof. intros. by apply delete_type_ok, quit_all_ok. Qed.

Lemma close_ok sap : svc_ok sap → svc_ok (close sap).
Proof.
  unfold close. generalize (range_types (Subscriptions sap)). intros l. revert sap.
  induction l as [|p l IH]; intros sap Hok; simpl; [done|]. by apply IH, delete_type_ok, quit_all_ok.
Qed.

Lemma Unsubscribe_type_ok id sap ty :
  svc_ok sap → is_Some (Subscriptions sap !! ty) → svc_ok (Unsubscribe_type id sap ty).
Proof.
  intros Hok [subs Hs]. unfold Unsubscribe_type. rewrite Hs. simpl.
  case_bool_decide as He; [by apply delete_type_ok|].
  destruct Hok as [O1 O2 O3 O4 O5]. split; simpl; try done.
  - intros ty'. rewrite <- O1. destruct (decide (ty = ty')) as [->|Hne].
    + rewrite lookup_insert_eq, Hs. split; by eexists.
    + by rewrite lookup_insert_ne.
  - intros ty' m. destruct (decide (ty = ty')) as [->|Hne].
    + rewrite lookup_insert_eq. by intros [= <-].
    + rewrite lookup_insert_ne by done. eauto.
  - intros ty' m id' sub. destruct (decide (ty = ty')) as [->|Hne].
    + rewrite lookup_insert_eq. intros [= <-] [_ Hl]%lookup_delete_Some. eauto.
    + rewrite lookup_insert_ne by done. eauto.
Qed.

Lemma Unsubscribe_type_other id sap ty ty' :
  ty ≠ ty' → Subscriptions (Unsubscribe_type id sap ty) !! ty' = Subscriptions sap !! ty'.
Proof.
  intros Hne. unfold Unsubscribe_type. case_bool_decide; simpl.
  - by rewrite lookup_delete_ne.
  - by rewrite lookup_insert_ne.
Qed.

Lemma add_subscriber_ok id sub params by_ sap :
  Settings_rlp params = Ok by_ → HistoricalDataOnly params = false →
  Settings_ChainType params = chain sap → ID sub = id → svc_ok sap →
  svc_ok (add_subscriber (Keccak256Hash by_) id sub params sap).
Proof.
  intros Hby Hh Hc Hid [O1 O2 O3 O4 O5]. set (ty := Keccak256Hash by_).
  split; simpl; intros ty'; destruct (decide (ty = ty')) as [<-|Hne];
    rewrite ?lookup_insert_eq, ?lookup_insert_ne by done; eauto.
  - split; by eexists.
  - intros m [= <-]. apply insert_non_empty.
  - intros p [= <-]. eauto.
  - intros p [= <-]. eauto.
  - intros m id' s [= <-]. destruct (decide (id = id')) as [<-|Hne].
    + rewrite lookup_insert_eq. by intros [= <-].
    + rewrite lookup_insert_ne by done. intros Hs.
      destruct (Subscriptions sap !! ty) as [m|] eqn:E; simpl in Hs; [eauto|].
      by rewrite lookup_empty in Hs.
Qed.

Lemma serve_subs_maps r data subs : ∀ sap sap',
  serve_subs r data subs sap = Ok sap' → same_maps sap sap'.
Proof.
  induction subs as [|[id s] subs IH]; intros sap sap'; simpl; [by intros [= <-]|].
  intros (h & _ & Hs)%rbind_Ok_inv. by apply IH in Hs.
Qed.

Lemma send_cids_maps sub cids sap sap' : send_cids sub cids sap = Ok sap' → same_maps sap sap'.
Proof.
  unfold send_cids. destruct (Fetch cids) as [r|e|w]; [|by intros [= <-]|done].
  destruct (Response_rlp r) as [d|e|w]; [|by intros [= <-]|done].
  by intros (h & _ & [= <-])%rbind_Ok_inv.
Qed.

Lemma send_all_cids_maps sub cs : ∀ sap sap',
  send_all_cids sub cs sap = Ok sap' → same_maps sap sap'.
Proof.
  induction cs as [|c cs IH]; intros sap sap'; simpl; [by intros [= <-]|].
  intros (s1 & H1 & H2)%rbind_Ok_inv. etransitivity; [by eapply send_cids_maps|by apply IH].
Qed.

Lemma send_heights_maps sub params hs : ∀ sap r,
  send_heights sub params hs sap = Ok r → same_maps sap r.1.
Proof.
  induction hs as [|i hs IH]; intros sap r; simpl; [by intros [= <-]|].
  destruct (quit_before i); [by intros [= <-]|].
  intros (s1 & H1 & H2)%rbind_Ok_inv. etransitivity; [|by apply IH].
  unfold send_height in H1. destruct (Retrieve params i) as [[cs []]|e|w]; try done;
    [by injection H1 as <-|by apply send_all_cids_maps in H1|by injection H1 as <-].
Qed.

Lemma sendHistoricalData_maps sub params sap sap' :
  sendHistoricalData sub params sap = Ok sap' → same_maps sap sap'.
Proof.
  intros (rg & _ & ([s1 b] & H1 & H2)%rbind_Ok_inv)%rbind_Ok_inv. apply send_heights_maps in H1.
  by destruct b; injection H2 as <-.
Qed.

Lemma serve_type_ok payload ty subs sap sap' :
  serve_type payload ty subs sap = Ok sap' → svc_ok sap → svc_ok sap'.
Proof.
  unfold serve_type. destruct (SubscriptionTypes sap !! ty) as [cfg|];
    [|intros [= <-]; apply closeType_ok].
  intros (past & _ & Hs)%rbind_Ok_inv. destruct past; [injection Hs as <-; apply closeType_ok|].
  destruct (FilterPayload cfg payload) as [r|e|w]; [|injection Hs as <-; apply closeType_ok|done].
  destruct (Response_rlp r) as [d|e|w]; [|by injection Hs as <-|done].
  intros Hok. apply serve_subs_maps in Hs. by rewrite <- Hs.
Qed.

Lemma filterAndServe_ok payload sap sap' :
  filterAndServe payload sap = Ok sap' → svc_ok sap → svc_ok sap'.
Proof.
  unfold filterAndServe. generalize (range_types (Subscriptions sap)). intros l. revert sap.
  induction l as [|[ty subs] l IH]; intros sap; simpl; [by intros [= <-]|].
  intros (s1 & H1 & H2)%rbind_Ok_inv Hok. eapply IH; [apply H2|]. by eapply serve_type_ok.
Qed.

Lemma Subscribe_ok id c q params sap sap' :
  Subscribe id c q params sap = Ok sap' → svc_ok sap → svc_ok sap'.
Proof.
  unfold Subscribe. case_bool_decide as Hc; [intros [= <-]; by apply svc_ok_maps|].
  destruct (Settings_rlp params) as [by_|e|w] eqn:Hby; [|intros [= <-]; by apply svc_ok_maps|done].
  intros Hs Hok.
  set (sap1 := if negb _ then _ else _) in Hs.
  assert (Hok1 : svc_ok sap1).
  { unfold sap1. destruct (HistoricalDataOnly params) eqn:E; simpl; [done|].
    by apply add_subscriber_ok. }
  destruct (_ || _); [|by injection Hs as <-].
  destruct (sendHistoricalData _ params sap1) as [s2|e|w] eqn:E2;
    [|injection Hs as <-; by apply (svc_ok_maps sap1)|done].
  injection Hs as <-. apply sendHistoricalData_maps in E2. by rewrite <- E2.
Qed.

(** The maps of types visited while unsubscribing are still there. *)
Lemma Unsubscribe_loop_ok id tys : ∀ sap,
  NoDup tys → (∀ ty, ty ∈ tys → is_Some (Subscriptions sap !! ty)) → svc_ok sap →
  svc_ok (foldl (Unsubscribe_type id) sap tys).
Proof.
  induction tys as [|ty tys IH]; intros sap Hnd Hin Hok; simpl; [done|].
  apply NoDup_cons in Hnd as [Hty Hnd]. apply IH; [done| |].
  - intros ty' Hty'. rewrite Unsubscribe_type_other by set_solver. set_solver.
  - apply Unsubscribe_type_ok; [done|]. set_solver.
Qed.

(** ** Lemmas: what is sent *)

(** What one payload means for a subscription type. *)
Inductive verdict : Type := Close | Skip | Deliver (data : bytes) (height : Z).

Definition verdict_of (payload : option ConvertedData) (cfg : option Settings) : result verdict :=
  match cfg with
  | None => Ok Close
  | Some cfg =>
      past <-! (if 0 <? EndingBlock cfg then
                  match payload with
                  | None => Panic "invalid memory address or nil pointer dereference"
                  | Some p => Ok (EndingBlock cfg <? ConvertedData_Height p)
                  end
                else Ok false) ;;
      if past : bool then Ok Close
      else
        match FilterPayload cfg payload with
        | Panic w => Panic w
        | Err _ => Ok Close
        | Ok response =>
            match Response_rlp response with
            | Panic w => Panic w
            | Err _ => Ok Skip
            | Ok data => match Response_Height response with
                         | Ok h => Ok (Deliver data h)
                         | Err e => Err e
                         | Panic w => Panic w
                         end
            end
        end
  end.

Definition sends_of (v : verdict) (subs : list (string * Subscription))
    : list (nat * SubscriptionPayload) :=
  match v with
  | Deliver data h => map (λ p, (PayloadChan p.2, mkPayload data h "" EmptyFlag)) subs
  | _ => []
  end.

Lemma serve_subs_sends r data h subs : ∀ sap sap',
  Response_Height r = Ok h → serve_subs r data subs sap = Ok sap' →
  payloads sap' = send_all (sends_of (Deliver data h) subs) (payloads sap).
Proof.
  induction subs as [|[id s] subs IH]; intros sap sap' Hh; simpl; [by intros [= <-]|].
  rewrite Hh. simpl. intros Hs. by apply IH in Hs.
Qed.

(** One type served: its entry is kept or deleted, and its subscribers are
    sent what the verdict says. *)
Lemma serve_type_sends payload ty subs sap sap' :
  subs ≠ ∅ → (∀ m, range_subs m ≡ₚ map_to_list m) →
  serve_type payload ty subs sap = Ok sap' →
  ∃ v, verdict_of payload (SubscriptionTypes sap !! ty) = Ok v ∧
    payloads sap' = send_all (sends_of v (range_subs subs)) (payloads sap) ∧
    (∀ ty', ty' ≠ ty → Subscriptions sap' !! ty' = Subscriptions sap !! ty' ∧
                       SubscriptionTypes sap' !! ty' = SubscriptionTypes sap !! ty') ∧
    Subscriptions sap' !! ty = (match v with Close => None | _ => Subscriptions sap !! ty end).
Proof.
  intros Hne Hperm. unfold serve_type, verdict_of.
  destruct (closeType_maps ty sap) as (C1 & C2 & C3 & _).
  assert (Hclose : ∃ v, @Ok verdict Close = Ok v ∧
    payloads (closeType ty sap) = send_all (sends_of v (range_subs subs)) (payloads sap) ∧
    (∀ ty', ty' ≠ ty → Subscriptions (closeType ty sap) !! ty' = Subscriptions sap !! ty' ∧
      SubscriptionTypes (closeType ty sap) !! ty' = SubscriptionTypes sap !! ty') ∧
    Subscriptions (closeType ty sap) !! ty = match v with Close => None | _ => Subscriptions sap !! ty end).
  { exists Close. rewrite C1, C2, C3. split_and!; try done; [|by rewrite lookup_delete_eq].
    intros ty' Hty. by rewrite !lookup_delete_ne. }
  destruct (SubscriptionTypes sap !! ty) as [cfg|]; [|by intros [= <-]].
  intros (past & -> & Hs)%rbind_Ok_inv. simpl. destruct past; [by injection Hs as <-|].
  destruct (FilterPayload cfg payload) as [r|e|w]; [|by injection Hs as <-|done].
  destruct (Response_rlp r) as [d|e|w]; [|injection Hs as <-; by exists Skip|done].
  assert (Hh : ∃ h, Response_Height r = Ok h).
  { destruct (range_subs subs) as [|[id s] l] eqn:E.
    - exfalso. apply Hne. apply map_to_list_empty_iff. apply Permutation_nil_r.
      by rewrite <- E, Hperm.
    - simpl in Hs. apply rbind_Ok_inv in Hs as (h & Hh & _). eauto. }
  destruct Hh as [h Hh]. rewrite Hh. exists (Deliver d h).
  destruct (serve_subs_maps _ _ _ _ _ Hs) as (M1 & M2 & _). rewrite M1, M2.
  split_and!; try done. by eapply serve_subs_sends.
Qed.

(** The sends of a whole round, in the order the types are visited. *)
Definition sends_for (payload : option ConvertedData) (types : gmap bytes Settings)
    (l : list (bytes * gmap string Subscription)) : list (nat * SubscriptionPayload) :=
  flat_map (λ p, match verdict_of payload (types !! p.1) with
                 | Ok v => sends_of v (range_subs p.2)
                 | _ => []
                 end) l.

Definition kept (v : verdict) (subs : gmap string Subscription) : option (gmap string Subscription) :=
  match v with Close => None | _ => Some subs end.

Lemma serve_types_sends (payload : option ConvertedData) (types : gmap bytes Settings)
    (l : list (bytes * gmap string Subscription)) : (∀ m, range_subs m ≡ₚ map_to_list m) → ∀ sap sap',
  NoDup l.*1 →
  (∀ p, p ∈ l → p.2 ≠ ∅ ∧ Subscriptions sap !! p.1 = Some p.2 ∧
                 SubscriptionTypes sap !! p.1 = types !! p.1) →
  serve_types payload l sap = Ok sap' →
  payloads sap' = send_all (sends_for payload types l) (payloads sap) ∧
  (∀ p, p ∈ l → ∃ v, verdict_of payload (types !! p.1) = Ok v ∧
                      Subscriptions sap' !! p.1 = kept v p.2) ∧
  (∀ ty, ty ∉ l.*1 → Subscriptions sap' !! ty = Subscriptions sap !! ty).
Proof.
  intros Hperm. induction l as [|[ty subs] l IH]; intros sap sap' Hnd Hl; simpl.
  - intros [= <-]. split_and!; [done|set_solver|done].
  - intros (s1 & H1 & H2)%rbind_Ok_inv. apply NoDup_cons in Hnd as [Hty Hnd].
    destruct (Hl (ty, subs)) as (Hne & Hsub & Htyp); [set_solver|]. simpl in *.
    apply serve_type_sends in H1 as (v & Hv & Hp & Ho & Hk); [|done..].
    rewrite Htyp in Hv. rewrite Hv.
    apply IH in H2 as (P1 & P2 & P3); [|done|].
    + split_and!.
      * by rewrite P1, Hp, send_all_app.
      * intros p [->|Hp']%elem_of_cons; [|by apply P2]. exists v. split; [done|].
        simpl. rewrite P3 by done. by rewrite Hk, Hsub; destruct v.
      * intros ty' [Hne' Hn']%not_elem_of_cons. rewrite P3 by done. by apply Ho.
    + intros p Hp'. destruct (Hl p) as (? & ? & ?); [set_solver|].
      assert (p.1 ≠ ty) by (intros <-; apply Hty; by apply list_elem_of_fmap_2).
      destruct (Ho p.1) as [-> ->]; done.
Qed.

Lemma serve_type_total payload ty subs sap v :
  verdict_of payload (SubscriptionTypes sap !! ty) = Ok v →
  ∃ sap', serve_type payload ty subs sap = Ok sap'.
Proof.
  unfold verdict_of, serve_type. destruct (SubscriptionTypes sap !! ty) as [cfg|]; [|by eexists].
  intros (past & -> & Hv)%rbind_Ok_inv. simpl. destruct past; [by eexists|].
  destruct (FilterPayload cfg payload) as [r|e|w]; [|by eexists|done].
  destruct (Response_rlp r) as [d|e|w]; [|by eexists|done].
  destruct (Response_Height r) as [h|e|w] eqn:Hh; [|done|done]. clear Hv.
  generalize (range_subs subs) sap. intros l. induction l as [|[id s] l IH]; intros sap1; simpl.
  - by eexists.
  - rewrite Hh. simpl. apply IH.
Qed.

Lemma serve_types_total (payload : option ConvertedData) (types : gmap bytes Settings)
    (l : list (bytes * gmap string Subscription)) : ∀ sap,
  (∀ m, range_subs m ≡ₚ map_to_list m) → NoDup l.*1 →
  (∀ p, p ∈ l → p.2 ≠ ∅ ∧ SubscriptionTypes sap !! p.1 = types !! p.1 ∧
                 ∃ v, verdict_of payload (types !! p.1) = Ok v) →
  ∃ sap', serve_types payload l sap = Ok sap'.
Proof.
  induction l as [|[ty subs] l IH]; intros sap Hperm Hnd Hl; simpl; [by eexists|].
  apply NoDup_cons in Hnd as [Hty Hnd].
  destruct (Hl (ty, subs)) as (Hne & Htyp & v & Hv); [set_solver|]. simpl in *.
  rewrite <- Htyp in Hv. destruct (serve_type_total payload ty subs sap v Hv) as [s1 H1].
  rewrite H1. simpl. apply IH; [done|done|]. intros p Hp.
  destruct (Hl p) as (? & <- & Hv'); [set_solver|].
  apply serve_type_sends in H1 as (_ & _ & _ & Ho & _); [|done..].
  assert (p.1 ≠ ty) by (intros <-; apply Hty; by apply list_elem_of_fmap_2).
  destruct (Ho p.1) as [_ ->]; [done|]. done.
Qed.

Lemma range_facts sap :
  (∀ m, range_types m ≡ₚ map_to_list m) →
  NoDup (range_types (Subscriptions sap)).*1 ∧
  ∀ p, p ∈ range_types (Subscriptions sap) ↔ Subscriptions sap !! p.1 = Some p.2.
Proof.
  intros Hperm. split; [rewrite Hperm; apply NoDup_fst_map_to_list|].
  intros [ty subs]. rewrite Hperm. by rewrite elem_of_map_to_list.
Qed.

(** A channel that only one subscription uses. *)
Definition own_channel (sap : Service) (ty : bytes) (id : string) (sub : Subscription) : Prop :=
  ∀ ty' subs' id' sub', Subscriptions sap !! ty' = Some subs' → subs' !! id' = Some sub' →
    PayloadChan sub' = PayloadChan sub → ty' = ty ∧ id' = id.

Lemma sends_of_own v subs c :
  filter (λ s, s.1 = c) (sends_of v subs) =
  match v with
  | Deliver d h => map (λ p, (c, mkPayload d h "" EmptyFlag)) (filter (λ p, PayloadChan p.2 = c) subs)
  | _ => []
  end.
Proof.
  destruct v; simpl; [done|done|]. induction subs as [|p l IH]; simpl; [done|].
  rewrite !filter_cons. simpl. destruct (decide _) as [<-|]; simpl; by rewrite IH.
Qed.

(** What a subscriber with a channel of its own is sent in one round. *)
Lemma sends_for_own (payload : option ConvertedData) (types : gmap bytes Settings)
    (l : list (bytes * gmap string Subscription)) sap ty subs id sub v :
  (∀ m, range_subs m ≡ₚ map_to_list m) → NoDup l.*1 →
  (∀ p, p ∈ l → Subscriptions sap !! p.1 = Some p.2) →
  own_channel sap ty id sub → subs !! id = Some sub →
  verdict_of payload (types !! ty) = Ok v → (ty, subs) ∈ l →
  map snd (filter (λ s, s.1 = PayloadChan sub) (sends_for payload types l)) =
  match v with Deliver d h => [mkPayload d h "" EmptyFlag] | _ => [] end.
Proof.
  clear quit_before. intros Hperm Hnd Hl Hown Hid Hv Hin.
  assert (Hother : ∀ l', (∀ p, p ∈ l' → p ∈ l) → ty ∉ l'.*1 →
    filter (λ s, s.1 = PayloadChan sub) (sends_for payload types l') = []).
  { intros l' Hsub. induction l' as [|[ty' subs'] l' IH]; simpl; [done|].
    intros [Hne Hn]%not_elem_of_cons. rewrite filter_app, IH by set_solver.
    rewrite app_nil_r. destruct (verdict_of payload (types !! ty')) as [v'|e|w]; [|done..].
    rewrite sends_of_own. destruct v' as [| |d h]; [done|done|].
    rewrite filter_none; [done|]. intros [id' s']. rewrite Hperm, elem_of_map_to_list. simpl.
    intros Hs' Hc. destruct (Hown ty' subs' id' s') as [-> _]; try done.
    apply (Hl (ty', subs')), Hsub; set_solver. }
  apply list_elem_of_split in Hin as (l1 & l2 & ->).
  rewrite fmap_app in Hnd. simpl in Hnd. apply NoDup_app in Hnd as (_ & H1 & [H2 _]%NoDup_cons).
  unfold sends_for. rewrite flat_map_app. simpl. rewrite !filter_app.
  fold (sends_for payload types l1). fold (sends_for payload types l2).
  rewrite (Hother l1), (Hother l2) by set_solver. rewrite app_nil_l, app_nil_r, Hv, sends_of_own.
  destruct v as [| |d h]; [done|done|].
  assert (Hone : filter (λ p, PayloadChan p.2 = PayloadChan sub) (range_subs subs) = [(id, sub)]).
  { apply Permutation_singleton_r. rewrite Hperm.
    assert (Hd : map_to_list subs ≡ₚ (id, sub) :: map_to_list (delete id subs)).
    { rewrite <- map_to_list_insert, insert_delete_id by (done || apply lookup_delete_eq). done. }
    rewrite Hd, filter_cons_True by done. rewrite filter_none; [done|]. intros [id' s']. rewrite elem_of_map_to_list.
    intros [Hne Hs']%lookup_delete_Some Hc. destruct (Hown ty subs id' s') as [_ Hn]; try done.
    apply (Hl (ty, subs)). set_solver. }
  by rewrite Hone.
Qed.

(** C7: serving a payload: when no subscription type makes the filter panic,
    one round of [filterAndServe] completes, and for every subscription type
    the round does what its verdict says: a type past its ending block, or
    whose filter fails, is closed and deleted; otherwise the type stays, and
    each subscriber with a channel of its own has the filtered, encoded payload
    appended to its channel exactly once when there is room, and nothing else. *)
Theorem filterAndServe_delivers payload sap :
  (∀ m, range_types m ≡ₚ map_to_list m) → (∀ m, range_subs m ≡ₚ map_to_list m) →
  svc_ok sap →
  (∀ ty cfg, SubscriptionTypes sap !! ty = Some cfg → ∃ v, verdict_of payload (Some cfg) = Ok v) →
  ∃ sap', filterAndServe payload sap = Ok sap' ∧ svc_ok sap' ∧
    ∀ ty subs, Subscriptions sap !! ty = Some subs →
      ∃ cfg v, SubscriptionTypes sap !! ty = Some cfg ∧ verdict_of payload (Some cfg) = Ok v ∧
        Subscriptions sap' !! ty = kept v subs ∧
        ∀ id sub ch, subs !! id = Some sub → own_channel sap ty id sub →
          payloads sap !! PayloadChan sub = Some ch →
          payloads sap' !! PayloadChan sub = Some
            (offered ch match v with Deliver d h => [mkPayload d h "" EmptyFlag] | _ => [] end).
Proof.
  intros Ht Hs Hok Hv. destruct (range_facts sap Ht) as [Hnd Hin].
  assert (Hcfg : ∀ ty subs, Subscriptions sap !! ty = Some subs →
    ∃ cfg, SubscriptionTypes sap !! ty = Some cfg).
  { intros ty subs Hty. apply (ok_same_types sap Hok). by eexists. }
  destruct (serve_types_total payload (SubscriptionTypes sap) (range_types (Subscriptions sap)) sap)
    as [sap' Hr]; [done|done| |].
  { intros [ty subs] Hp%Hin. simpl in *. split_and!; [by eapply ok_nonempty|done|].
    destruct (Hcfg ty subs Hp) as [cfg Hc]. rewrite Hc. by eapply Hv. }
  exists sap'. split_and!; [done|by eapply filterAndServe_ok|].
  apply (serve_types_sends payload (SubscriptionTypes sap)) in Hr as (P1 & P2 & _); [|done|done|].
  2: { intros p Hp%Hin. split_and!; [by eapply ok_nonempty|done|done]. }
  intros ty subs Hty. destruct (Hcfg ty subs Hty) as [cfg Hc].
  destruct (P2 (ty, subs)) as (v & Hv' & Hk); [by apply Hin|]. cbn [fst snd] in *.
  exists cfg, v. split_and!; [done|by rewrite <- Hc|done|].
  intros id sub ch Hid Hown Hch. rewrite P1, send_all_lookup, Hch. simpl. do 2 f_equal.
  eapply sends_for_own; [done|exact Hnd| |done|done|done|by apply Hin]. intros p. by apply Hin.
Qed.

(** A subscription type whose filter or response panics takes the service
    down: no order of visiting the types avoids it. *)
Lemma filterAndServe_stuck payload sap ty subs cfg w :
  (∀ m, range_types m ≡ₚ map_to_list m) → (∀ m, range_subs m ≡ₚ map_to_list m) →
  svc_ok sap → Subscriptions sap !! ty = Some subs → SubscriptionTypes sap !! ty = Some cfg →
  verdict_of payload (Some cfg) = Panic w →
  ∀ sap', filterAndServe payload sap ≠ Ok sap'.
Proof.
  intros Ht Hs Hok Hsub Hcfg Hw sap' Hr. destruct (range_facts sap Ht) as [Hnd Hin].
  apply (serve_types_sends payload (SubscriptionTypes sap)) in Hr as (_ & P2 & _); [|done|done|].
  - destruct (P2 (ty, subs)) as (v & Hv & _); [by apply Hin|]. simpl in Hv. congruence.
  - intros p Hp%Hin. split_and!; [by eapply ok_nonempty|done|done].
Qed.

(** The handler itself has no error to return. *)
Lemma filterAndServe_no_err payload sap e :
  (∀ r e, Response_Height r ≠ Err e) → filterAndServe payload sap ≠ Err e.
Proof.
  intros Hh. unfold filterAndServe. generalize (range_types (Subscriptions sap)). intros l.
  assert (Hsubs : ∀ r d l s, serve_subs r d l s ≠ Err e).
  { intros r d l'. induction l' as [|[id s] l' IH]; intros s0; simpl; [done|].
    destruct (Response_Height r) eqn:E; simpl; [apply IH|by destruct (Hh r e0)|done]. }
  revert sap. induction l as [|[ty subs] l IH]; intros sap; simpl; [done|].
  destruct (serve_type payload ty subs sap) as [s1|e1|w] eqn:E1; simpl; [apply IH| |done].
  intros [= ->]. revert E1. unfold serve_type.
  destruct (SubscriptionTypes sap !! ty) as [cfg|]; [|done].
  destruct (0 <? EndingBlock cfg); [destruct payload; [|done]|]; simpl;
    try (destruct (_ <? _); [done|]);
    (destruct (FilterPayload cfg _); [|done..]); (destruct (Response_rlp _); [|done..]); apply Hsubs.
Qed.

(** A round panics exactly when the verdict on some registered type does. *)
Lemma filterAndServe_panics payload sap :
  (∀ m, range_types m ≡ₚ map_to_list m) → (∀ m, range_subs m ≡ₚ map_to_list m) → svc_ok sap →
  (∀ r e, Response_Height r ≠ Err e) →
  (∃ w, filterAndServe payload sap = Panic w) ↔
  ∃ ty cfg w, SubscriptionTypes sap !! ty = Some cfg ∧ verdict_of payload (Some cfg) = Panic w.
Proof.
  intros Ht Hs Hok Hh. destruct (range_facts sap Ht) as [Hnd Hin]. split.
  - intros [w Hw].
    destruct (decide (map_Forall (λ _ cfg, is_ok (verdict_of payload (Some cfg)) = true) (SubscriptionTypes sap)))
      as [Hall|Hno].
    + exfalso. destruct (serve_types_total payload (SubscriptionTypes sap) (range_types (Subscriptions sap)) sap)
        as [sap' Hr]; [done|done| |unfold filterAndServe in Hw; congruence].
      intros [ty subs] Hp%Hin. cbn [fst snd] in *. split_and!; [by eapply ok_nonempty|done|].
      destruct (proj1 (ok_same_types sap Hok ty)) as [cfg Hcfg]; [by eexists|]. rewrite Hcfg.
      specialize (Hall ty cfg Hcfg). cbn beta in Hall.
      destruct (verdict_of payload (Some cfg)) as [v| |]; [by eexists|done..].
    + apply map_not_Forall in Hno as (ty & cfg & Hcfg & Hn); [|tc_solve]. cbn beta in Hn. exists ty, cfg.
      destruct (verdict_of payload (Some cfg)) as [v|e|w'] eqn:Hv; [done| |by exists w'].
      exfalso. revert Hv. unfold verdict_of.
      destruct (0 <? EndingBlock cfg); [destruct payload; [|done]|]; simpl;
        try (destruct (_ <? _); [done|]);
        (destruct (FilterPayload cfg _) as [r| |]; [|done..]); (destruct (Response_rlp r); [|done..]);
        by destruct (Response_Height r) eqn:E; [|destruct (Hh r e0)|].
  - intros (ty & cfg & w & Hcfg & Hw).
    destruct (proj2 (ok_same_types sap Hok ty)) as [subs Hsubs]; [by eexists|].
    destruct (filterAndServe payload sap) as [s|e|w'] eqn:E; [| |by eexists].
    + exfalso. by eapply filterAndServe_stuck.
    + exfalso. by eapply filterAndServe_no_err.
Qed.

(** ** Lemmas: the historical feed *)

(** What one set of CIDs, and one height, put on the channel. *)
Definition packets_of_cids (cids : CIDs) : result (list SubscriptionPayload) :=
  match Fetch cids with
  | Panic w => Panic w
  | Err _ => Ok [mkPayload [] 0 "super node IPLD Fetching error" EmptyFlag]
  | Ok response =>
      match Response_rlp response with
      | Panic w => Panic w
      | Err _ => Ok []
      | Ok data => h <-! Response_Height response ;; Ok [mkPayload data h "" EmptyFlag]
      end
  end.

Definition packets_of_height (params : Settings) (i : Z) : result (list SubscriptionPayload) :=
  match Retrieve params i with
  | Panic w => Panic w
  | Err _ => Ok [mkPayload [] 0 "super node CID Retrieval error" EmptyFlag]
  | Ok (cs, empty) =>
      if empty : bool then Ok []
      else ps <-! range_collect packets_of_cids cs ;; Ok (concat ps)
  end.

Definition send_packets (sub : Subscription) (ps : list SubscriptionPayload) (sap : Service) : Service :=
  foldl (λ sap p, send_payload sub p sap) sap ps.

Lemma send_packets_app sub ps qs sap :
  send_packets sub (ps ++ qs) sap = send_packets sub qs (send_packets sub ps sap).
Proof. apply foldl_app. Qed.

Lemma send_packets_channel sub ps sap ch :
  payloads sap !! PayloadChan sub = Some ch →
  payloads (send_packets sub ps sap) !! PayloadChan sub = Some (offered ch ps).
Proof.
  revert sap ch. induction ps as [|p ps IH]; intros sap ch Hch; simpl; [done|].
  rewrite (IH _ (offered ch [p])); [done|]. simpl. rewrite try_send_lookup, decide_True by done.
  by rewrite Hch.
Qed.

Lemma send_cids_packets sub cids sap ps :
  packets_of_cids cids = Ok ps → send_cids sub cids sap = Ok (send_packets sub ps sap).
Proof.
  unfold packets_of_cids, send_cids. destruct (Fetch cids) as [r|e|w]; [|by intros [= <-]|done].
  destruct (Response_rlp r) as [d|e|w]; [|by intros [= <-]|done].
  intros (h & -> & [= <-])%rbind_Ok_inv. done.
Qed.

Lemma send_all_cids_packets sub cs : ∀ sap ps,
  range_collect packets_of_cids cs = Ok ps →
  send_all_cids sub cs sap = Ok (send_packets sub (concat ps) sap).
Proof.
  induction cs as [|c cs IH]; intros sap ps; simpl; [by intros [= <-]|].
  intros (p & Hp & (qs & Hq & [= <-])%rbind_Ok_inv)%rbind_Ok_inv.
  rewrite (send_cids_packets _ _ _ _ Hp). simpl. rewrite (IH _ _ Hq).
  by rewrite send_packets_app.
Qed.

Lemma send_height_packets sub params i sap ps :
  packets_of_height params i = Ok ps → send_height sub params i sap = Ok (send_packets sub ps sap).
Proof.
  unfold packets_of_height, send_height.
  destruct (Retrieve params i) as [[cs []]|e|w]; [by intros [= <-]| |by intros [= <-]|done].
  intros (qs & Hq & [= <-])%rbind_Ok_inv. by apply send_all_cids_packets.
Qed.

Lemma send_heights_packets sub params hs : ∀ sap ps,
  (∀ i, i ∈ hs → quit_before i = false) →
  range_collect (packets_of_height params) hs = Ok ps →
  send_heights sub params hs sap = Ok (send_packets sub (concat ps) sap, true).
Proof.
  induction hs as [|i hs IH]; intros sap ps Hq; simpl; [by intros [= <-]|].
  intros (p & Hp & (qs & Hqs & [= <-])%rbind_Ok_inv)%rbind_Ok_inv.
  rewrite Hq by set_solver. rewrite (send_height_packets _ _ _ _ _ Hp). simpl.
  rewrite (IH _ qs) by set_solver. by rewrite send_packets_app.
Qed.

Lemma historical_range_eq params first last :
  RetrieveFirst = Ok first → RetrieveLast = Ok last →
  historical_range params = Ok (Z.max first (StartingBlock params),
    if (EndingBlock params <? last) && (0 <? EndingBlock params)
       && (Z.max first (StartingBlock params) <? EndingBlock params)
    then EndingBlock params else last).
Proof.
  intros H1 H2. unfold historical_range. rewrite H1, H2. simpl. rewrite !Z.gtb_ltb.
  by replace (if first <? StartingBlock params then StartingBlock params else first)
    with (Z.max first (StartingBlock params)) by (destruct (Z.ltb_spec first (StartingBlock params)); lia).
Qed.

(** ** The historical feed *)

(** The range the settings ask for, within what the index holds. *)
Definition wanted_range (params : Settings) (first last : Z) : Z * Z :=
  (Z.max first (StartingBlock params),
   if 0 <? EndingBlock params then Z.min last (EndingBlock params) else last).

(** The historical feed covers the wanted range exactly when an ending
    block below the last block lies above the block the feed starts at;
    otherwise the ending block is ignored, so that a subscriber asking for a
    single block, or for blocks before the index begins, is fed everything up
    to the last indexed block. *)
Theorem historical_range_wanted params first last :
  RetrieveFirst = Ok first → RetrieveLast = Ok last →
  (historical_range params = Ok (wanted_range params first last) ↔
   (0 < EndingBlock params < last → Z.max first (StartingBlock params) < EndingBlock params)) ∧
  (EndingBlock params ≤ Z.max first (StartingBlock params) →
   historical_range params = Ok (Z.max first (StartingBlock params), last)).
Proof.
  intros H1 H2. rewrite (historical_range_eq _ _ _ H1 H2). unfold wanted_range.
  destruct (Z.ltb_spec (EndingBlock params) last), (Z.ltb_spec 0 (EndingBlock params)),
    (Z.ltb_spec (Z.max first (StartingBlock params)) (EndingBlock params)); simpl;
  (split; [split; [intros Heq; apply (f_equal (λ r, match r with Ok x => x.2 | _ => 0 end)) in Heq;
    simpl in Heq; lia|intros ?; do 2 f_equal; lia]|intros ?; do 2 f_equal; lia]).
Qed.

(** A historical-only subscription registers no subscriber, and its
    channel is offered, in ascending block order, exactly the packets of each
    block of the range (a retrieval or fetching error is a packet too) and then
    the completion notice; a full buffer drops the rest, the notice included. *)
Theorem Subscribe_historical_feed id c q params sap ch by_ start stop ps :
  Settings_ChainType params = chain sap → Settings_rlp params = Ok by_ →
  HistoricalDataOnly params = true →
  historical_range params = Ok (start, stop) →
  (∀ i, start ≤ i ≤ stop → quit_before i = false) →
  range_collect (packets_of_height params) (seqZ start (stop - start + 1)) = Ok ps →
  payloads sap !! c = Some ch → (length (buf ch) ≤ cap ch)%nat →
  ∃ sap', Subscribe id c q params sap = Ok sap' ∧
    Subscriptions sap' = Subscriptions sap ∧ SubscriptionTypes sap' = SubscriptionTypes sap ∧
    payloads sap' !! c = Some (mkChan (cap ch)
      (take (cap ch) (buf ch ++ concat ps ++ [mkPayload [] 0 "" BackFillCompleteFlag]))).
Proof.
  intros Hc Hr Hh Hrange Hq Hps Hch Hl. unfold Subscribe. rewrite bool_decide_eq_false_2 by tauto.
  rewrite Hr, Hh, orb_true_r. simpl. unfold sendHistoricalData. rewrite Hrange. simpl.
  rewrite (send_heights_packets _ _ _ _ ps); [|intros i Hi%elem_of_seqZ; apply Hq; lia|done].
  simpl. eexists. split; [done|]. simpl.
  set (sub := mkSub id c q). set (s1 := send_packets sub (concat ps) sap).
  assert (Hm : same_maps sap s1).
  { unfold s1, send_packets. generalize (concat ps) sap. intros l.
    induction l as [|p l IH]; intros sap0; simpl; [done|]. etransitivity; [|apply IH]. done. }
  destruct Hm as (-> & -> & _). split_and!; [done..|].
  rewrite try_send_lookup, decide_True by done. unfold s1.
  rewrite (send_packets_channel sub _ sap ch) by done. simpl. rewrite <- offered_take by done.
  unfold offered. by rewrite foldl_app.
Qed.

(** When the backfill fails the subscriber is told the error and to quit,
    but stays registered: it goes on receiving live payloads until the API
    unsubscribes it. *)
Theorem Subscribe_backfill_error_stays id c q params sap by_ e :
  Settings_ChainType params = chain sap → Settings_rlp params = Ok by_ →
  HistoricalDataOnly params = false → HistoricalData params = true →
  historical_range params = Err e →
  ∃ sap', Subscribe id c q params sap = Ok sap' ∧
    (Subscriptions sap' !! Keccak256Hash by_ ≫= lookup id) = Some (mkSub id c q) ∧
    quits sap' = try_send q true (quits sap).
Proof.
  intros Hc Hr Hho Hh Hrange. unfold Subscribe. rewrite bool_decide_eq_false_2 by tauto.
  rewrite Hr, Hho, Hh. simpl. unfold sendHistoricalData. rewrite Hrange. simpl.
  eexists. split; [done|]. simpl. rewrite lookup_insert_eq. simpl. by rewrite lookup_insert_eq.
Qed.

(** ** Unsubscribing and stopping *)

Definition without (id : string) (subs : gmap string Subscription) : option (gmap string Subscription) :=
  let subs := delete id subs in if bool_decide (subs = ∅) then None else Some subs.

Lemma Unsubscribe_loop_spec id tys : ∀ sap ty,
  NoDup tys →
  Subscriptions (foldl (Unsubscribe_type id) sap tys) !! ty =
    (if bool_decide (ty ∈ tys) then without id (default ∅ (Subscriptions sap !! ty))
     else Subscriptions sap !! ty) ∧
  SubscriptionTypes (foldl (Unsubscribe_type id) sap tys) !! ty =
    (if bool_decide (ty ∈ tys ∧ without id (default ∅ (Subscriptions sap !! ty)) = None) then None
     else SubscriptionTypes sap !! ty).
Proof.
  induction tys as [|t tys IH]; intros sap ty Hnd; simpl.
  - done.
  - apply NoDup_cons in Hnd as [Ht Hnd]. destruct (IH (Unsubscribe_type id sap t) ty Hnd) as [-> ->].
    destruct (decide (ty = t)) as [->|Hne].
    + rewrite !(bool_decide_eq_false_2 (t ∈ tys)) by done.
      rewrite (bool_decide_eq_true_2 (t ∈ t :: tys)) by set_solver.
      rewrite (bool_decide_eq_false_2 (t ∈ tys ∧ _)) by tauto.
      unfold Unsubscribe_type, without. case_bool_decide as He; simpl.
      * rewrite !lookup_delete_eq, bool_decide_eq_true_2; [done|]. split; [set_solver|done].
      * rewrite lookup_insert_eq, bool_decide_eq_false_2; [done|]. by intros [_ ?].
    + rewrite !Unsubscribe_type_other by done.
      assert (Hty : SubscriptionTypes (Unsubscribe_type id sap t) !! ty = SubscriptionTypes sap !! ty).
      { unfold Unsubscribe_type. case_bool_decide; simpl; [|done]. by rewrite lookup_delete_ne. }
      rewrite Hty. split; [by rewrite (bool_decide_ext _ (ty ∈ t :: tys)) by set_solver|].
      by rewrite (bool_decide_ext _ (ty ∈ t :: tys ∧
        without id (default ∅ (Subscriptions sap !! ty)) = None)) by set_solver.
Qed.

(** Unsubscribing removes exactly the subscriptions with the given id: a
    type left without subscribers is deleted with its settings, every other
    type keeps its other subscribers and its settings, and no channel is
    touched. *)
Theorem Unsubscribe_exact id sap :
  (∀ m, range_types m ≡ₚ map_to_list m) → svc_ok sap →
  svc_ok (Unsubscribe id sap) ∧
  (∀ ty, Subscriptions (Unsubscribe id sap) !! ty = Subscriptions sap !! ty ≫= without id) ∧
  (∀ ty, SubscriptionTypes (Unsubscribe id sap) !! ty =
     subs ← Subscriptions sap !! ty; _ ← without id subs; SubscriptionTypes sap !! ty) ∧
  payloads (Unsubscribe id sap) = payloads sap ∧ quits (Unsubscribe id sap) = quits sap.
Proof.
  intros Ht Hok. destruct (range_facts sap Ht) as [Hnd Hin]. unfold Unsubscribe.
  set (tys := map fst _).
  assert (Htys : ∀ ty, ty ∈ tys ↔ is_Some (Subscriptions sap !! ty)).
  { intros ty. unfold tys. rewrite list_elem_of_fmap. split.
    - intros ([ty' subs] & -> & Hp%Hin). by eexists.
    - intros [subs Hs]. exists (ty, subs). split; [done|]. by apply Hin. }
  split_and!.
  - apply Unsubscribe_loop_ok; [done|by apply Htys|done].
  - intros ty. destruct (Unsubscribe_loop_spec id tys sap ty Hnd) as [-> _].
    destruct (Subscriptions sap !! ty) as [subs|] eqn:E; simpl.
    + rewrite bool_decide_eq_true_2; [done|]. apply Htys. rewrite E. by eexists.
    + rewrite bool_decide_eq_false_2; [done|]. rewrite Htys, E. by intros [? ?].
  - intros ty. destruct (Unsubscribe_loop_spec id tys sap ty Hnd) as [_ ->].
    destruct (Subscriptions sap !! ty) as [subs|] eqn:E; simpl.
    + destruct (without id subs) as [m|] eqn:Ew; simpl.
      * rewrite bool_decide_eq_false_2; [done|]. by intros [_ ?].
      * rewrite bool_decide_eq_true_2; [done|]. split; [|done]. apply Htys. rewrite E. by eexists.
    + rewrite bool_decide_eq_false_2.
      * destruct (SubscriptionTypes sap !! ty) eqn:E2; [|done].
        destruct (proj2 (ok_same_types sap Hok ty)) as [? ?]; [by eexists|congruence].
      * intros [[? ?]%Htys _]. congruence.
  - generalize tys sap. intros l. induction l as [|t l IH]; intros s; simpl; [done|].
    rewrite IH. unfold Unsubscribe_type. by case_bool_decide.
  - generalize tys sap. intros l. induction l as [|t l IH]; intros s; simpl; [done|].
    rewrite IH. unfold Unsubscribe_type. by case_bool_decide.
Qed.

(** A quit channel that has received a notice. *)
Definition notified (c : nat) (sap : Service) : Prop :=
  ∃ ch, quits sap !! c = Some ch ∧ buf ch ≠ [].

Definition has_quit (c : nat) (sap : Service) : Prop :=
  ∃ ch, quits sap !! c = Some ch ∧ (0 < cap ch)%nat.

Lemma sendNonBlockingQuit_facts sub sap c :
  (has_quit c sap → has_quit c (sendNonBlockingQuit sub sap)) ∧
  (notified c sap → notified c (sendNonBlockingQuit sub sap)) ∧
  (c = QuitChan sub → has_quit c sap → notified c (sendNonBlockingQuit sub sap)).
Proof.
  unfold has_quit, notified. simpl. rewrite try_send_lookup. unfold offered. simpl.
  split_and!.
  - intros (ch & Hc & Hl). rewrite Hc. destruct (decide _); [|by eauto]. simpl.
    eexists. split; [done|]. by destruct (_ <? _)%nat.
  - intros (ch & Hc & Hl). rewrite Hc. destruct (decide _); [|by eauto]. simpl.
    eexists. split; [done|]. destruct (_ <? _)%nat; [|done]. simpl. by destruct (buf ch).
  - intros -> (ch & Hc & Hl). rewrite Hc, decide_True by done. simpl.
    eexists. split; [done|]. destruct (_ <? _)%nat eqn:E; simpl; [by destruct (buf ch)|].
    apply Nat.ltb_ge in E. intros Hn. rewrite Hn in E. simpl in E. lia.
Qed.

Lemma quit_loop_facts (l : list (string * Subscription)) sap c :
  (has_quit c sap → has_quit c (foldl (λ sap p, sendNonBlockingQuit p.2 sap) sap l)) ∧
  (notified c sap → notified c (foldl (λ sap p, sendNonBlockingQuit p.2 sap) sap l)) ∧
  (c ∈ map (λ p, QuitChan p.2) l → has_quit c sap →
   notified c (foldl (λ sap p, sendNonBlockingQuit p.2 sap) sap l)).
Proof.
  revert sap. induction l as [|p l IH]; intros sap; simpl; [set_solver|].
  destruct (sendNonBlockingQuit_facts p.2 sap c) as (S1 & S2 & S3).
  destruct (IH (sendNonBlockingQuit p.2 sap)) as (I1 & I2 & I3). split_and!; [tauto|tauto|].
  intros [Hc|Hc]%elem_of_cons Hq; tauto.
Qed.

Lemma close_loop_facts (l : list (bytes * gmap string Subscription)) c : ∀ sap,
  let sap' := foldl (λ sap p, delete_type p.1 (quit_all p.2 sap)) sap l in
  (notified c sap → notified c sap') ∧
  (has_quit c sap → c ∈ flat_map (λ p, map (λ q, QuitChan q.2) (range_subs p.2)) l →
   notified c sap') ∧
  (∀ ty, Subscriptions sap' !! ty = if bool_decide (ty ∈ l.*1) then None else Subscriptions sap !! ty) ∧
  (∀ ty, SubscriptionTypes sap' !! ty =
     if bool_decide (ty ∈ l.*1) then None else SubscriptionTypes sap !! ty) ∧
  payloads sap' = payloads sap.
Proof.
  induction l as [|[ty subs] l IH]; intros sap; simpl; [set_solver|].
  destruct (IH (delete_type ty (quit_all subs sap))) as (I1 & I2 & I3 & I4 & I5).
  destruct (quit_loop_facts (range_subs subs) sap c) as (Q1 & Q2 & Q3).
  destruct (quit_all_maps subs sap) as (M1 & M2 & M3 & _). split_and!.
  - intros Hn. by apply I1, Q2.
  - intros Hq [Hc|Hc]%elem_of_app; [by apply I1, Q3|]. apply I2; [by apply Q1|done].
  - intros ty'. rewrite I3. simpl. rewrite M1. destruct (decide (ty' = ty)) as [->|Hne].
    + rewrite lookup_delete_eq, (bool_decide_eq_true_2 (ty ∈ ty :: _)) by set_solver.
      by case_bool_decide.
    + rewrite lookup_delete_ne by done. by rewrite (bool_decide_ext _ (ty' ∈ ty :: l.*1)) by set_solver.
  - intros ty'. rewrite I4. simpl. rewrite M2. destruct (decide (ty' = ty)) as [->|Hne].
    + rewrite lookup_delete_eq, (bool_decide_eq_true_2 (ty ∈ ty :: _)) by set_solver.
      by case_bool_decide.
    + rewrite lookup_delete_ne by done. by rewrite (bool_decide_ext _ (ty' ∈ ty :: l.*1)) by set_solver.
  - by rewrite I5.
Qed.

Lemma close_stopped sap : stopped (close sap) = stopped sap.
Proof.
  unfold close. generalize (range_types (Subscriptions sap)). intros l. revert sap.
  induction l as [|p l IH]; intros sap; simpl; [done|]. rewrite IH. simpl. unfold quit_all.
  generalize (range_subs p.2). intros l'. revert sap. clear.
  induction l' as [|q l' IH]; intros sap; simpl; [done|]. by rewrite IH.
Qed.

Lemma close_empties sap : (∀ m, range_types m ≡ₚ map_to_list m) → svc_ok sap →
  Subscriptions (close sap) = ∅ ∧ SubscriptionTypes (close sap) = ∅ ∧ payloads (close sap) = payloads sap.
Proof.
  intros Ht Hok. destruct (range_facts sap Ht) as [_ Hin]. unfold close.
  destruct (close_loop_facts (range_types (Subscriptions sap)) 0%nat sap) as (_ & _ & C1 & C2 & C3).
  assert (Hdom : ∀ ty, ty ∈ (range_types (Subscriptions sap)).*1 ↔ is_Some (Subscriptions sap !! ty)).
  { intros ty. rewrite list_elem_of_fmap. split.
    - intros ([ty' subs] & -> & Hp%Hin). by eexists.
    - intros [subs Hp]. exists (ty, subs). split; [done|]. by apply Hin. }
  split_and!; [| |done]; apply map_empty; intros ty; [rewrite C1|rewrite C2];
    (case_bool_decide as Hn; [done|]).
  - rewrite Hdom in Hn. by apply eq_None_not_Some.
  - rewrite Hdom, (ok_same_types sap Hok) in Hn. by apply eq_None_not_Some.
Qed.

(** Stopping the service removes every subscription and its settings, and
    every subscriber whose quit channel is buffered has a notice in it;
    nothing more is sent to the subscribers' payload channels.  Stopping it a
    second time panics. *)
Theorem Stop_notifies sap :
  (∀ m, range_types m ≡ₚ map_to_list m) → (∀ m, range_subs m ≡ₚ map_to_list m) → svc_ok sap →
  stopped sap = false →
  ∃ sap', Stop sap = Ok sap' ∧ Subscriptions sap' = ∅ ∧ SubscriptionTypes sap' = ∅ ∧
    payloads sap' = payloads sap ∧
    (∀ ty subs id sub, Subscriptions sap !! ty = Some subs → subs !! id = Some sub →
       has_quit (QuitChan sub) sap → notified (QuitChan sub) sap') ∧
    ∃ w, Stop sap' = Panic w.
Proof.
  intros Ht Hs Hok Hst. unfold Stop at 1. rewrite Hst. set (sap1 := mkService _ _ _ _ _ true).
  eexists. split; [done|].
  assert (Hok1 : svc_ok sap1) by by apply (svc_ok_maps sap).
  destruct (close_empties sap1 Ht Hok1) as (-> & -> & ->). split_and!; [done..| |].
  - intros ty subs id sub Hty Hid Hq. destruct (range_facts sap Ht) as [_ Hin].
    destruct (close_loop_facts (range_types (Subscriptions sap)) (QuitChan sub) sap1) as (_ & C4 & _).
    apply C4; [done|]. apply list_elem_of_In, in_flat_map. exists (ty, subs). split.
    + apply list_elem_of_In. by apply Hin.
    + apply list_elem_of_In, list_elem_of_fmap. exists (id, sub). split; [done|]. simpl.
      by rewrite Hs, elem_of_map_to_list.
  - unfold Stop. rewrite close_stopped. by eexists.
Qed.

End Service.

(** ** The service as a state machine *)

Section Reachability.
Context `{Chain} `{GethCommon}.

(** One step: a handler running under the lock, with whatever order the maps
    are visited in and whatever the database holds at that time; or a
    goroutine or a subscriber sending on or receiving from channels. *)
Inductive step : Service → Service → Prop :=
| step_subscribe CIDs first last (ret : Settings → Z → result (list CIDs * bool)) fetch quit
    id c q params sap sap' :
    Subscribe CIDs first last ret fetch quit id c q params sap = Ok sap' → step sap sap'
| step_unsubscribe range_types id sap :
    (∀ m, range_types m ≡ₚ map_to_list m) → step sap (Unsubscribe range_types id sap)
| step_serve range_types range_subs payload sap sap' :
    (∀ m, range_types m ≡ₚ map_to_list m) → (∀ m, range_subs m ≡ₚ map_to_list m) →
    filterAndServe range_types range_subs payload sap = Ok sap' → step sap sap'
| step_stop range_types range_subs sap sap' :
    (∀ m, range_types m ≡ₚ map_to_list m) → (∀ m, range_subs m ≡ₚ map_to_list m) →
    Stop range_types range_subs sap = Ok sap' → step sap sap'
| step_channels sap p q :
    step sap (mkService (Subscriptions sap) (SubscriptionTypes sap) p q (chain sap) (stopped sap)).

Definition NewService (c : ChainType) : Service := mkService ∅ ∅ ∅ ∅ c false.

Lemma NewService_ok c : svc_ok (NewService c).
Proof. split; simpl; try done. intros ty. rewrite !lookup_empty. by split; intros []. Qed.

Lemma step_ok sap sap' : step sap sap' → svc_ok sap → svc_ok sap'.
Proof.
  intros Hst Hok. destruct Hst as [| rt id sap Hrt |rt rs payload sap sap' Hrt Hrs Hs|rt rs sap sap' Hrt Hrs Hs|].
  - by eapply Subscribe_ok.
  - apply Unsubscribe_loop_ok; [|intros ty|done].
    + rewrite Hrt. apply NoDup_fst_map_to_list.
    + intros ([ty' subs] & -> & Hp)%list_elem_of_fmap. rewrite Hrt, elem_of_map_to_list in Hp. by eexists.
  - by eapply filterAndServe_ok.
  - unfold Stop in Hs. destruct (stopped sap); [done|]. injection Hs as <-.
    by apply close_ok, (svc_ok_maps sap).
  - by apply (svc_ok_maps sap).
Qed.

(** The chain of a service is fixed when it is built. *)
Lemma foldl_chain {A} (f : Service → A → Service) l : (∀ s x, chain (f s x) = chain s) →
  ∀ s, chain (foldl f s l) = chain s.
Proof. intros Hf. induction l as [|x l IH]; intros s; simpl; [done|]. by rewrite IH. Qed.

Lemma serve_types_chain rs payload l : ∀ sap sap',
  serve_types rs payload l sap = Ok sap' → chain sap' = chain sap.
Proof.
  induction l as [|[ty subs] l IH]; intros sap sap'; simpl; [by intros [= <-]|].
  intros (s1 & H1 & H2)%rbind_Ok_inv. rewrite (IH _ _ H2). clear H2. revert H1. unfold serve_type.
  destruct (closeType_maps rs ty sap) as (_ & _ & _ & Hc).
  destruct (SubscriptionTypes sap !! ty) as [cfg|]; [|by intros [= <-]].
  intros (past & _ & Hs)%rbind_Ok_inv. destruct past; [by injection Hs as <-|].
  destruct (FilterPayload cfg payload) as [r|e|w]; [|by injection Hs as <-|done].
  destruct (Response_rlp r) as [d|e|w]; [|by injection Hs as <-|done].
  by apply serve_subs_maps in Hs as (_ & _ & ?).
Qed.

Lemma Subscribe_chain {CIDs} first last ret fetch quit id c q params sap sap' :
  Subscribe CIDs first last ret fetch quit id c q params sap = Ok sap' → chain sap' = chain sap.
Proof.
  unfold Subscribe. case_bool_decide; [by intros [= <-]|].
  destruct (Settings_rlp params) as [by_|e|w]; [|by intros [= <-]|done].
  set (sap1 := if negb _ then _ else _). assert (Hc : chain sap1 = chain sap).
  { unfold sap1. by destruct (negb _). }
  destruct (_ || _); [|by intros [= <-]].
  destruct (sendHistoricalData _ _ _ _ _ _ _ params sap1) as [s2|e|w] eqn:E2; [|by intros [= <-]|done].
  intros [= <-]. apply sendHistoricalData_maps in E2 as (_ & _ & E2). congruence.
Qed.

Lemma step_chain sap sap' : step sap sap' → chain sap' = chain sap.
Proof.
  intros Hst. destruct Hst as [| rt id sap Hrt |rt rs payload sap sap' Hrt Hrs Hs|rt rs sap sap' Hrt Hrs Hs|].
  - by eapply Subscribe_chain.
  - apply foldl_chain. intros s ty. unfold Unsubscribe_type. by case_bool_decide.
  - by eapply serve_types_chain.
  - unfold Stop in Hs. destruct (stopped sap); [done|]. injection Hs as <-.
    unfold close. rewrite foldl_chain; [done|]. intros s p. simpl. by destruct (quit_all_maps rs p.2 s) as (_ & _ & _ & ->).
  - done.
Qed.

(** C8: in every reachable state of the service the two maps have the same
    subscription types, every type has a subscriber and is the hash of the
    encoding of its settings, which are for the service's chain and are not
    historical-only, and subscribers are filed under their own id. *)
Theorem reachable_ok c sap : rtc step (NewService c) sap → svc_ok sap ∧ chain sap = c.
Proof.
  assert (Hinv : svc_ok (NewService c) ∧ chain (NewService c) = c) by (by split; [apply NewService_ok|]).
  revert Hinv. generalize (NewService c). intros s0 Hinv Hr. induction Hr as [s|s1 s2 s3 Hst _ IH]; [done|].
  destruct Hinv as [Hok Hc]. apply IH. split; [by eapply step_ok|]. by rewrite (step_chain _ _ Hst).
Qed.

End Reachability.
