(* ===== verification/EthService.v ===== *)
(** * The subscription service on the Ethereum chain

    The [Chain] instance built from the Ethereum settings, payloads, IPLDs and
    filterer, and what the service does with an Ethereum subscription whose
    range does not start yet. *)

From S2P Require Import Prelude GoInt ChainTypes Geth EthModel EthFilterer Service.

Section EthService.
Context `{GethCommon} `{CidLib}.
(** [rlp.EncodeToBytes] of the settings and of the response. *)
Variable settings_rlp : SubscriptionSettings → result bytes.
Variable iplds_rlp : IPLDs → result bytes.

(** A nil payload fails the filterer's type assertion. *)
Definition Filter_interface (cfg : SubscriptionSettings) (payload : option ConvertedPayload)
    : result IPLDs :=
  match payload with
  | Some p => Filter cfg p
  | None => Err (Errorf "eth filterer expected payload type")
  end.

Definition eth_chain : Chain := {|
  Settings := SubscriptionSettings;
  StartingBlock := λ sc, i64 (Start sc);
  EndingBlock := λ sc, i64 (End_ sc);
  HistoricalData := BackFill;
  HistoricalDataOnly := BackFillOnly;
  Settings_ChainType := λ _, Ethereum;
  Settings_rlp := settings_rlp;
  ConvertedData := ConvertedPayload;
  ConvertedData_Height := Payload_Height;
  Response := IPLDs;
  Response_Height := IPLDs_Height;
  Response_rlp := iplds_rlp;
  FilterPayload := Filter_interface
|}.

#[local] Existing Instance eth_chain.

Definition past_end (cfg : SubscriptionSettings) (p : ConvertedPayload) : Prop :=
  0 < i64 (End_ cfg) < Payload_Height p.

(** The verdict on an Ethereum payload panics exactly when the range of the
    subscription has not started. *)
Lemma eth_verdict cfg p :
  aligned p → encodable p → (∀ i, no_panic (iplds_rlp i)) → is_ok (iplds_rlp IPLDs_zero) = true →
  (past_end cfg p ∨ i64 (Start cfg) ≤ Payload_Height p →
     ∃ v, verdict_of (Some p) (Some (cfg : Settings)) = Ok v) ∧
  (¬ past_end cfg p → Payload_Height p < i64 (Start cfg) →
     ∃ w, verdict_of (Some p) (Some (cfg : Settings)) = Panic w).
Proof.
  intros Ha He Hr Hz. unfold verdict_of, past_end. simpl.
  pose proof (Filter_no_panic cfg p Ha He) as Hnp.
  pose proof (Filter_number cfg p) as Hnum. pose proof (checkRange_spec (i64 (Start cfg))
    (i64 (End_ cfg)) (i64 (block_Number (p_Block p)))) as Hc. unfold Payload_Height in *.
  set (h := i64 (block_Number (p_Block p))) in *.
  destruct (Z.ltb_spec 0 (i64 (End_ cfg))); simpl;
    [destruct (Z.ltb_spec (i64 (End_ cfg)) h); simpl; [split; [by eexists|lia]|]|];
  (split; [intros Hcase|intros Hn Hlt]).
  1, 3: destruct (Filter cfg p) as [i|e|w]; [|by eexists|done]; specialize (Hr i);
    destruct (iplds_rlp i); [|by eexists|done]; unfold IPLDs_Height;
    rewrite (Hnum i eq_refl), (proj2 Hc) by lia; by eexists.
  all: unfold Filter in *; fold h; destruct (checkRange _ _ _); [lia|]; simpl;
    destruct (iplds_rlp IPLDs_zero); [|done..]; by eexists.
Qed.

Lemma eth_height_no_err (r : Response) e : Response_Height r ≠ Err e.
Proof. simpl. unfold IPLDs_Height. by destruct (i_BlockNumber r). Qed.

(** C19: an Ethereum payload takes the serving node down exactly when some
    subscription it is not past the end of starts above the payload's height:
    the filterer answers the empty IPLDs, whose missing block number is then
    dereferenced.  A node with one such subscription cannot serve anyone. *)
Theorem future_start_crashes range_types range_subs sap p :
  (∀ m, range_types m ≡ₚ map_to_list m) → (∀ m, range_subs m ≡ₚ map_to_list m) →
  svc_ok sap → aligned p → encodable p → (∀ i, no_panic (iplds_rlp i)) →
  is_ok (iplds_rlp IPLDs_zero) = true →
  ((∃ w, filterAndServe range_types range_subs (Some p) sap = Panic w) ↔
   ∃ ty cfg, SubscriptionTypes sap !! ty = Some (cfg : Settings) ∧
     ¬ past_end cfg p ∧ Payload_Height p < i64 (Start cfg)).
Proof.
  intros Ht Hs Hok Ha He Hr Hz.
  rewrite (filterAndServe_panics (H:=eth_chain) range_types range_subs (Some p) sap Ht Hs Hok) by apply eth_height_no_err.
  split.
  - intros (ty & cfg & w & Hcfg & Hw). exists ty, cfg. split; [done|].
    destruct (eth_verdict cfg p Ha He Hr Hz) as [Hin _].
    split; [intros Hp|]; [destruct Hin as [v Hv]; [by left|congruence]|].
    apply Z.lt_nge. intros Hle. destruct Hin as [v Hv]; [by right|congruence].
  - intros (ty & cfg & Hcfg & Hn & Hlt). exists ty, cfg.
    destruct (proj2 (eth_verdict cfg p Ha He Hr Hz) Hn Hlt) as [w Hw]. by exists w.
Qed.

(** The verdict on a nil payload. *)
Lemma eth_verdict_nil cfg :
  verdict_of (None : option ConvertedData) (Some (cfg : Settings)) =
  if 0 <? i64 (End_ cfg) then Panic "invalid memory address or nil pointer dereference" else Ok Close.
Proof. unfold verdict_of. simpl. by destruct (0 <? i64 (End_ cfg)). Qed.

(** The nil payload that back-filling forwards after a failed conversion:
    if every subscription is open-ended, all of them are closed and removed;
    if one has an ending block, the serving node is taken down. *)
Theorem nil_payload_closes_all range_types range_subs sap :
  (∀ m, range_types m ≡ₚ map_to_list m) → (∀ m, range_subs m ≡ₚ map_to_list m) → svc_ok sap →
  ((∀ ty cfg, SubscriptionTypes sap !! ty = Some (cfg : Settings) → i64 (End_ cfg) ≤ 0) →
     ∃ sap', filterAndServe range_types range_subs None sap = Ok sap' ∧ Subscriptions sap' = ∅) ∧
  ((∃ ty cfg, SubscriptionTypes sap !! ty = Some (cfg : Settings) ∧ 0 < i64 (End_ cfg)) →
     ∃ w, filterAndServe range_types range_subs None sap = Panic w).
Proof.
  intros Ht Hs Hok. destruct (range_facts range_types sap Ht) as [Hnd Hin]. split.
  - intros Hall. assert (Hv : ∀ p, p ∈ range_types (Subscriptions sap) →
      verdict_of (H:=eth_chain) None (SubscriptionTypes sap !! p.1) = Ok Close).
    { intros [ty subs] Hp%Hin. cbn [fst snd] in *.
      destruct (proj1 (ok_same_types sap Hok ty)) as [cfg Hcfg]; [by eexists|]. rewrite Hcfg, eth_verdict_nil.
      specialize (Hall ty cfg Hcfg). by destruct (Z.ltb_spec 0 (i64 (End_ cfg))); [lia|]. }
    destruct (serve_types_total (H:=eth_chain) range_subs None (SubscriptionTypes sap)
      (range_types (Subscriptions sap)) sap) as [sap' Hr]; [done|done| |].
    { intros p Hp. split_and!; [apply Hin in Hp; by eapply ok_nonempty|done|]. exists Close. by apply Hv. }
    exists sap'. split; [done|].
    apply (serve_types_sends (H:=eth_chain) range_subs None (SubscriptionTypes sap)) in Hr
      as (_ & P2 & P3); [|done|done|].
    2: { intros p Hp%Hin. split_and!; [by eapply ok_nonempty|done|done]. }
    apply map_empty. intros ty. destruct (Subscriptions sap !! ty) as [subs|] eqn:E.
    + destruct (P2 (ty, subs)) as (v & Hv' & Hk); [by apply Hin|].
      rewrite (Hv (ty, subs)) in Hv' by (by apply Hin). by injection Hv' as <-.
    + rewrite P3; [done|]. intros ([ty' subs] & -> & Hp%Hin)%list_elem_of_fmap. simpl in *. congruence.
  - intros (ty & cfg & Hcfg & He).
    destruct (proj2 (ok_same_types sap Hok ty)) as [subs Hsubs]; [by eexists|].
    destruct (filterAndServe (H:=eth_chain) range_types range_subs None sap) as [s|e|w'] eqn:E; [| |by eexists].
    + exfalso. eapply (filterAndServe_stuck (H:=eth_chain) range_types range_subs None sap ty subs cfg); try done.
      rewrite eth_verdict_nil. by destruct (Z.ltb_spec 0 (i64 (End_ cfg))); [|lia].
    + exfalso. eapply (filterAndServe_no_err (H:=eth_chain) range_types range_subs None sap e); [|exact E].
      intros r e'. simpl. unfold IPLDs_Height. by destruct (i_BlockNumber r).
Qed.

End EthService.

(** ** Witnesses *)

Section Witnesses.
#[local] Existing Instance Concrete.geth.
#[local] Existing Instance Concrete.cidlib.

Definition ex_settings_rlp (sc : SubscriptionSettings) : result bytes := Ok [Start sc].
Definition ex_iplds_rlp (i : IPLDs) : result bytes := Ok [default 0 (i_BlockNumber i)].
#[local] Instance ex_chain : Chain := eth_chain ex_settings_rlp ex_iplds_rlp.

Definition ex_starting (start : Z) (live : bool) : SubscriptionSettings := {|
  BackFill := true; BackFillOnly := negb live; Start := start; End_ := 0;
  HeaderFilter_ := HeaderFilter_ ex_settings; TxFilter_ := TxFilter_ ex_settings;
  ReceiptFilter_ := ReceiptFilter_ ex_settings; StateFilter_ := StateFilter_ ex_settings;
  StorageFilter_ := StorageFilter_ ex_settings |}.

(** A service with channels, and with one subscriber "s" on channels 1 and 2. *)
Definition ex_empty : Service :=
  mkService ∅ ∅ {[1%nat := mkChan 2 []]} {[2%nat := mkChan 1 []]} Ethereum false.
Definition ex_svc (cfg : SubscriptionSettings) : Service :=
  add_subscriber (Keccak256Hash [Start cfg]) "s" (mkSub "s" 1 2) (cfg : Settings) ex_empty.

Lemma ex_empty_ok : svc_ok ex_empty.
Proof. by apply (svc_ok_maps (NewService Ethereum)), NewService_ok. Qed.

Lemma ex_svc_ok cfg : BackFillOnly cfg = false → svc_ok (ex_svc cfg).
Proof. intros Hb. by apply add_subscriber_ok; [| | | |apply ex_empty_ok]. Qed.

Lemma ex_svc_types cfg ty (cfg' : Settings) :
  SubscriptionTypes (ex_svc cfg) !! ty = Some cfg' → cfg' = cfg.
Proof.
  change (<[Keccak256Hash [Start cfg] := (cfg : Settings)]> (∅ : gmap bytes Settings) !! ty = Some cfg' → cfg' = cfg).
  by intros [[_ <-]|[_ Hl]]%lookup_insert_Some; [|apply lookup_empty_Some in Hl].
Qed.

Lemma ex_svc_own cfg : own_channel (ex_svc cfg) (Keccak256Hash [Start cfg]) "s" (mkSub "s" 1 2).
Proof.
  intros ty subs id sub. change (<[Keccak256Hash [Start cfg] := <["s" := mkSub "s" 1 2]> (∅ : gmap string Subscription)]>
    (∅ : gmap bytes (gmap string Subscription)) !! ty = Some subs → subs !! id = Some sub →
    PayloadChan sub = 1%nat → ty = Keccak256Hash [Start cfg] ∧ id = "s").
  intros [[<- <-]|[_ Hl]]%lookup_insert_Some; [|by apply lookup_empty_Some in Hl].
  by intros [[<- _]|[_ Hl]]%lookup_insert_Some; [|apply lookup_empty_Some in Hl].
Qed.

Lemma ex_aligned : aligned ex_two_txs.
Proof. split; reflexivity. Qed.

Lemma ex_encodable : encodable ex_two_txs.
Proof. split_and!; [intros; exact I|exact I|repeat constructor..]. Qed.

Lemma future_start_crashes_witness :
  (svc_ok (ex_svc (ex_starting 100 true)) ∧ Payload_Height ex_two_txs = 9) ∧
  ∃ w, filterAndServe map_to_list map_to_list (Some (ex_two_txs : ConvertedData))
         (ex_svc (ex_starting 100 true)) = Panic w.
Proof.
  assert (Hok : svc_ok (ex_svc (ex_starting 100 true))) by (apply ex_svc_ok; reflexivity).
  split; [split; [exact Hok|reflexivity]|].
  apply (future_start_crashes ex_settings_rlp ex_iplds_rlp map_to_list map_to_list
    (ex_svc (ex_starting 100 true)) ex_two_txs);
    [done|done|exact Hok|apply ex_aligned|apply ex_encodable|done|done|].
  exists (Keccak256Hash [100]), (ex_starting 100 true).
  split_and!; [reflexivity|unfold past_end; simpl; vm_compute; intros [H1 _]; discriminate|reflexivity].
Defined.

Lemma filterAndServe_delivers_witness :
  svc_ok (ex_svc ex_settings) ∧
  ∃ sap', filterAndServe map_to_list map_to_list (Some (ex_two_txs : ConvertedData))
            (ex_svc ex_settings) = Ok sap' ∧ svc_ok sap' ∧
    payloads sap' !! 1%nat = Some (mkChan 2 [mkPayload [9] 9 "" EmptyFlag]).
Proof.
  assert (Hok : svc_ok (ex_svc ex_settings)) by (apply ex_svc_ok; reflexivity).
  split; [exact Hok|].
  destruct (filterAndServe_delivers (H:=ex_chain) map_to_list map_to_list (Some ex_two_txs)
    (ex_svc ex_settings)) as (sap' & Hs & Hok' & Hall); [done|done|exact Hok| |].
  - intros ty cfg ->%ex_svc_types. by eexists.
  - exists sap'. split; [exact Hs|]. split; [exact Hok'|].
    destruct (Hall (Keccak256Hash [5]) {["s" := mkSub "s" 1 2]}) as (cfg & v & Hc & Hv & _ & Hch); [reflexivity|].
    apply ex_svc_types in Hc as ->. injection Hv as <-.
    apply (Hch "s" (mkSub "s" 1 2) (mkChan 2 [])); [reflexivity|apply ex_svc_own|reflexivity].
Defined.

(** The range of "from 5, without an end", and of "from 5 to 5", when the index
    holds blocks 1 to 9. *)
Definition ex_ending (end_ : Z) : SubscriptionSettings := {|
  BackFill := true; BackFillOnly := true; Start := 5; End_ := end_;
  HeaderFilter_ := HeaderFilter_ ex_settings; TxFilter_ := TxFilter_ ex_settings;
  ReceiptFilter_ := ReceiptFilter_ ex_settings; StateFilter_ := StateFilter_ ex_settings;
  StorageFilter_ := StorageFilter_ ex_settings |}.

Lemma historical_range_wanted_witness :
  historical_range (H:=ex_chain) (Ok 1) (Ok 9) (ex_ending 7) = Ok (5, 7) ∧
  historical_range (H:=ex_chain) (Ok 1) (Ok 9) (ex_ending 5) = Ok (5, 9).
Proof.
  destruct (historical_range_wanted (H:=ex_chain) (Ok 1) (Ok 9) (ex_ending 7) 1 9) as [Hw _]; [done..|].
  destruct (historical_range_wanted (H:=ex_chain) (Ok 1) (Ok 9) (ex_ending 5) 1 9) as [_ Hi]; [done..|].
  split; [by apply Hw|by apply Hi].
Defined.

(** Two packets and the notice, offered to a channel with room for two. *)
Lemma Subscribe_historical_feed_witness :
  ∃ sap', Subscribe (H:=ex_chain) Z (Ok 1) (Ok 6) (λ _ i, Ok ([i], false))
      (λ i, Filter ex_settings ex_two_txs) (λ _, false) "h" 1 2
      (ex_ending 0) ex_empty = Ok sap' ∧
    Subscriptions sap' = ∅ ∧ SubscriptionTypes sap' = ∅ ∧
    payloads sap' !! 1%nat = Some (mkChan 2 [mkPayload [9] 9 "" EmptyFlag; mkPayload [9] 9 "" EmptyFlag]).
Proof.
  destruct (Subscribe_historical_feed (H:=ex_chain) Z (Ok 1) (Ok 6) (λ _ i, Ok ([i], false))
    (λ i, Filter ex_settings ex_two_txs) (λ _, false) "h" 1 2 (ex_ending 0) ex_empty
    (mkChan 2 []) [5] 5 6 [[mkPayload [9] 9 "" EmptyFlag]; [mkPayload [9] 9 "" EmptyFlag]])
    as (sap' & Hs & H1 & H2 & H3); [reflexivity..|vm_compute; reflexivity|reflexivity|simpl; lia|].
  exists sap'. split_and!; [exact Hs|exact H1|exact H2|exact H3].
Defined.

Lemma Subscribe_backfill_error_stays_witness :
  ∃ sap', Subscribe (H:=ex_chain) Z (Err (Driver "no rows")) (Ok 6) (λ _ i, Ok ([i], false))
      (λ i, Filter ex_settings ex_two_txs) (λ _, false) "s" 1 2
      (ex_starting 3 true) ex_empty = Ok sap' ∧
    (Subscriptions sap' !! Keccak256Hash [3] ≫= lookup "s") = Some (mkSub "s" 1 2) ∧
    quits sap' = try_send 2 true (quits ex_empty).
Proof.
  apply (Subscribe_backfill_error_stays (H:=ex_chain) Z (Err (Driver "no rows")) (Ok 6) (λ _ i, Ok ([i], false))
    (λ i, Filter ex_settings ex_two_txs) (λ _, false) "s" 1 2 (ex_starting 3 true)
    ex_empty [3] (Driver "no rows")); reflexivity.
Defined.

Lemma Unsubscribe_exact_witness :
  Subscriptions (Unsubscribe map_to_list "s" (ex_svc ex_settings)) !! Keccak256Hash [5] = None.
Proof.
  destruct (Unsubscribe_exact (H:=ex_chain) map_to_list "s" (ex_svc ex_settings)) as (_ & Hs & _);
    [done|apply ex_svc_ok; reflexivity|]. rewrite Hs. vm_compute. reflexivity.
Defined.

Lemma Stop_notifies_witness :
  ∃ sap', Stop map_to_list map_to_list (ex_svc ex_settings) = Ok sap' ∧ notified 2 sap'.
Proof.
  destruct (Stop_notifies (H:=ex_chain) map_to_list map_to_list (ex_svc ex_settings))
    as (sap' & Hs & _ & _ & _ & Hn & _); [done|done|apply ex_svc_ok; reflexivity|reflexivity|].
  exists sap'. split; [exact Hs|].
  apply (Hn (Keccak256Hash [5]) {["s" := mkSub "s" 1 2]} "s" (mkSub "s" 1 2)); [reflexivity..|].
  exists (mkChan 1 []). split; [reflexivity|simpl; lia].
Defined.

Lemma reachable_ok_witness :
  svc_ok (Unsubscribe map_to_list "s" (NewService Ethereum)) ∧
  chain (Unsubscribe map_to_list "s" (NewService Ethereum)) = Ethereum.
Proof.
  apply (reachable_ok (H:=ex_chain) Ethereum). apply rtc_once. by apply step_unsubscribe.
Defined.

Lemma nil_payload_closes_all_witness :
  ∃ sap', filterAndServe (H:=ex_chain) map_to_list map_to_list None (ex_svc ex_settings) = Ok sap' ∧
    Subscriptions sap' = ∅.
Proof.
  apply (nil_payload_closes_all ex_settings_rlp ex_iplds_rlp map_to_list map_to_list (ex_svc ex_settings));
    [done|done|apply ex_svc_ok; reflexivity|].
  intros ty cfg ->%ex_svc_types. vm_compute. discriminate.
Defined.

End Witnesses.
