(* ===== verification/ServiceApi.v ===== *)
(** * The public API of the super node (pkg/super_node/api.go)

    [Stream] answers a subscriber: one goroutine runs the service's Subscribe,
    another relays the packets of the subscription's channel to the client.  The
    theorems are about the relay next to everything else the service does. *)

From S2P Require Import Prelude GoInt ChainTypes Geth Service.
From S2P Require EthModel EthFilterer EthService.

Section Api.
Context `{Chain} `{GethCommon}.

(** Decoding the settings of either chain. *)
Variable eth_DecodeBytes btc_DecodeBytes : bytes → result Settings.

(** [Stream] up to the goroutines it starts: the settings they subscribe with. *)
Definition Stream (supported : bool) (rlpParams : bytes) (sap : Service) : result Settings :=
  params <-! match chain sap with
             | Ethereum => eth_DecodeBytes rlpParams
             | Bitcoin => btc_DecodeBytes rlpParams
             | _ => Panic "SuperNode is not configured for a specific chain type"
             end ;;
  if supported then Ok params else Err (Errorf "notifications not supported").

(** [Modules] of the InfoAPI. *)
Definition Modules : gmap string string := {["vdb" := "Stream"]}.

(** ** The relay *)

(** [PayloadChanBufferSize] and the capacity of quitChan. *)
Definition payload_capacity : nat := Z.to_nat 2000.
Definition quit_capacity : nat := 1.

(** The service's side: orders of iteration, the retriever and the fetcher. *)
Variable range_types : gmap bytes (gmap string Subscription) → list (bytes * gmap string Subscription).
Variable range_subs : gmap string Subscription → list (string * Subscription).
Variable CIDs : Type.
Variable RetrieveFirst RetrieveLast : result Z.
Variable Retrieve : Settings → Z → result (list CIDs * bool).
Variable Fetch : CIDs → result Response.
Variable quit_before : Z → bool.

(** The subscription: its id, its two channels and its settings. *)
Variable id : string.
Variable c q : nat.
Variable params : Settings.

(** What else happens at the service. *)
Inductive other : Service → Service → Prop :=
| o_subscribe id' c' q' params' sap sap' : id' ≠ id → c' ≠ c → q' ≠ q →
    Subscribe CIDs RetrieveFirst RetrieveLast Retrieve Fetch quit_before id' c' q' params' sap = Ok sap' →
    other sap sap'
| o_unsubscribe id' sap : id' ≠ id → other sap (Unsubscribe range_types id' sap)
| o_serve payload sap sap' : filterAndServe range_types range_subs payload sap = Ok sap' → other sap sap'
| o_stop sap sap' : Stop range_types range_subs sap = Ok sap' → other sap sap'.

(** [put] is what the service has put on the channel, [sent] what the client was
    notified of, [failed] a packet whose notification failed. *)
Record relay : Type := mkRelay {
  service : Service;
  subscribing : bool;                    (* go api.sn.Subscribe(...) has not run yet *)
  relaying : bool;
  put : list SubscriptionPayload;
  sent : list SubscriptionPayload;
  failed : list SubscriptionPayload
}.

Definition buffered (sap : Service) : list SubscriptionPayload :=
  match payloads sap !! c with Some ch => buf ch | None => [] end.

(** The service moves: what is new on the channel was put there. *)
Definition moved (sap' : Service) (r : relay) : relay :=
  mkRelay sap' (subscribing r) (relaying r)
    (put r ++ drop (length (buffered (service r))) (buffered sap')) (sent r) (failed r).

(** Receiving from the channels. *)
Definition receive (sap : Service) : Service :=
  mkService (Subscriptions sap) (SubscriptionTypes sap)
    (match payloads sap !! c with Some ch => <[c := mkChan (cap ch) (tail (buf ch))]> (payloads sap) | None => payloads sap end)
    (quits sap) (chain sap) (stopped sap).

Definition receive_quit (sap : Service) : Service :=
  mkService (Subscriptions sap) (SubscriptionTypes sap) (payloads sap)
    (match quits sap !! q with Some ch => <[q := mkChan (cap ch) (tail (buf ch))]> (quits sap) | None => quits sap end)
    (chain sap) (stopped sap).

Definition told_to_quit (sap : Service) : bool :=
  match quits sap !! q with Some ch => negb (bool_decide (buf ch = [])) | None => false end.

(** Whether the client may refuse a notification or go away. *)
Variable flaky : bool.

Inductive relay_step : relay → relay → Prop :=
| rs_subscribe r sap' : subscribing r = true →
    Subscribe CIDs RetrieveFirst RetrieveLast Retrieve Fetch quit_before id c q params (service r) = Ok sap' →
    relay_step r (mkRelay sap' false (relaying r) (put (moved sap' r)) (sent r) (failed r))
| rs_other r sap' : other (service r) sap' → relay_step r (moved sap' r)
| rs_notify r p ps : relaying r = true → buffered (service r) = p :: ps →
    relay_step r (mkRelay (receive (service r)) (subscribing r) true (put r) (sent r ++ [p]) (failed r))
| rs_failed r p ps : flaky = true → relaying r = true → buffered (service r) = p :: ps →
    relay_step r (mkRelay (Unsubscribe range_types id (receive (service r))) (subscribing r) false (put r) (sent r) (failed r ++ [p]))
| rs_gone r : flaky = true → relaying r = true →
    relay_step r (mkRelay (Unsubscribe range_types id (service r)) (subscribing r) false (put r) (sent r) (failed r))
| rs_quit r : relaying r = true → told_to_quit (service r) = true →
    relay_step r (mkRelay (receive_quit (service r)) (subscribing r) false (put r) (sent r) (failed r)).

(** [make(chan SubscriptionPayload, PayloadChanBufferSize)], [make(chan bool, 1)] *)
Definition relay_start (sap : Service) : relay :=
  mkRelay (mkService (Subscriptions sap) (SubscriptionTypes sap) (<[c := mkChan payload_capacity []]> (payloads sap))
    (<[q := mkChan quit_capacity []]> (quits sap)) (chain sap) (stopped sap)) true true [] [] [].

End Api.

(** ** Lemmas: the service only adds to a channel *)

Section Adding.
Context `{Chain} `{GethCommon}.

(** [c] holds in [sap'] what it holds in [sap] after some packets were offered. *)
Definition adds (c : nat) (sap sap' : Service) : Prop :=
  ∀ ch, payloads sap !! c = Some ch → ∃ xs, payloads sap' !! c = Some (offered ch xs).

#[local] Instance adds_preorder c : PreOrder (adds c).
Proof.
  split; [intros s ch Hch; by exists []|]. intros s1 s2 s3 H1 H2 ch Hch.
  destruct (H1 ch Hch) as [xs Hxs]. destruct (H2 _ Hxs) as [ys Hys]. exists (xs ++ ys). rewrite Hys.
  unfold offered. by rewrite foldl_app.
Qed.

Lemma adds_same c sap sap' : payloads sap' = payloads sap → adds c sap sap'.
Proof. intros Hp ch Hch. exists []. by rewrite Hp. Qed.

Lemma send_payload_adds c sub p sap : adds c sap (send_payload sub p sap).
Proof.
  intros ch Hch. simpl. rewrite try_send_lookup, Hch. case_decide; [by exists [p]|by exists []].
Qed.

Lemma foldl_adds {A} c (f : Service → A → Service) l : (∀ s x, adds c s (f s x)) → ∀ s, adds c s (foldl f s l).
Proof.
  intros Hf. induction l as [|x l IH]; intros s; simpl; [reflexivity|]. etransitivity; [apply Hf|apply IH].
Qed.

Lemma quit_all_adds rs c subs sap : adds c sap (quit_all rs subs sap).
Proof. apply adds_same. by destruct (quit_all_maps rs subs sap) as (_ & _ & ? & _). Qed.

Lemma closeType_adds rs c ty sap : adds c sap (closeType rs ty sap).
Proof. apply adds_same. by destruct (closeType_maps rs ty sap) as (_ & _ & ? & _). Qed.

Lemma serve_subs_adds c r data subs : ∀ sap sap', serve_subs r data subs sap = Ok sap' → adds c sap sap'.
Proof.
  induction subs as [|[id s] subs IH]; intros sap sap'; simpl; [by intros [= <-]|].
  intros (h & _ & Hs)%rbind_Ok_inv. etransitivity; [apply send_payload_adds|by eapply IH].
Qed.

Lemma serve_type_adds rs c payload ty subs sap sap' :
  serve_type rs payload ty subs sap = Ok sap' → adds c sap sap'.
Proof.
  unfold serve_type. destruct (SubscriptionTypes sap !! ty) as [cfg|]; [|intros [= <-]; apply closeType_adds].
  intros (past & _ & Hs)%rbind_Ok_inv. destruct past; [injection Hs as <-; apply closeType_adds|].
  destruct (FilterPayload cfg payload) as [r|e|w]; [|injection Hs as <-; apply closeType_adds|done].
  destruct (Response_rlp r) as [d|e|w]; [by eapply serve_subs_adds|by injection Hs as <-|done].
Qed.

Lemma serve_types_adds rs c payload l : ∀ sap sap', serve_types rs payload l sap = Ok sap' → adds c sap sap'.
Proof.
  induction l as [|[ty subs] l IH]; intros sap sap'; simpl; [by intros [= <-]|].
  intros (s1 & H1 & H2)%rbind_Ok_inv. etransitivity; [by eapply serve_type_adds|by eapply IH].
Qed.

Lemma send_cids_adds {CIDs} (Fetch : CIDs → result Response) c sub cs : ∀ sap sap',
  send_all_cids CIDs Fetch sub cs sap = Ok sap' → adds c sap sap'.
Proof.
  induction cs as [|x cs IH]; intros sap sap'; simpl; [by intros [= <-]|].
  intros (s1 & H1 & H2)%rbind_Ok_inv. etransitivity; [|by eapply IH]. revert H1. unfold send_cids.
  destruct (Fetch x) as [r|e|w]; [|intros [= <-]; apply send_payload_adds|done].
  destruct (Response_rlp r) as [d|e|w]; [|by intros [= <-]|done].
  intros (h & _ & [= <-])%rbind_Ok_inv. apply send_payload_adds.
Qed.

Lemma sendHistoricalData_adds {CIDs} first last ret (Fetch : CIDs → result Response) quit c sub params sap sap' :
  sendHistoricalData CIDs first last ret Fetch quit sub params sap = Ok sap' → adds c sap sap'.
Proof.
  intros (rg & _ & ([s1 b] & H1 & H2)%rbind_Ok_inv)%rbind_Ok_inv.
  assert (adds c sap s1) as Ha.
  { revert H1. generalize (seqZ rg.1 (rg.2 - rg.1 + 1)). intros hs. revert sap. induction hs as [|i hs IH]; intros sap; simpl.
    - by intros [= <- _].
    - destruct (quit i); [by intros [= <- _]|]. intros (s2 & Hs & Hr)%rbind_Ok_inv. etransitivity; [|by apply IH].
      unfold send_height in Hs. destruct (ret params i) as [[cs []]|e|w]; [by injection Hs as <-| | |done].
      + by eapply send_cids_adds.
      + injection Hs as <-. apply send_payload_adds. }
  etransitivity; [exact Ha|]. simpl in H2. destruct b; injection H2 as <-; [apply send_payload_adds|reflexivity].
Qed.

Lemma refuse_adds c sub msg sap : adds c sap (sendNonBlockingQuit sub (sendNonBlockingErr sub msg sap)).
Proof. etransitivity; [apply send_payload_adds|by apply adds_same]. Qed.

Lemma Subscribe_adds {CIDs} first last ret (Fetch : CIDs → result Response) quit c id c' q params sap sap' :
  Subscribe CIDs first last ret Fetch quit id c' q params sap = Ok sap' → adds c sap sap'.
Proof.
  unfold Subscribe. case_bool_decide; [intros [= <-]; apply refuse_adds|].
  destruct (Settings_rlp params) as [by_|e|w]; [|intros [= <-]; apply refuse_adds|done].
  set (sap1 := if negb _ then _ else _). assert (adds c sap sap1) as Ha by (apply adds_same; unfold sap1; by destruct (negb _)).
  destruct (_ || _); [|by intros [= <-]].
  destruct (sendHistoricalData _ _ _ _ _ _ _ params sap1) as [s2|e|w] eqn:E2; [intros [= <-]| |done].
  - etransitivity; [exact Ha|by eapply sendHistoricalData_adds].
  - intros [= <-]. etransitivity; [exact Ha|apply refuse_adds].
Qed.

Lemma Unsubscribe_adds rt c id sap : adds c sap (Unsubscribe rt id sap).
Proof. apply foldl_adds. intros s ty. apply adds_same. unfold Unsubscribe_type. by case_bool_decide. Qed.

Lemma Stop_adds rt rs c sap sap' : Stop rt rs sap = Ok sap' → adds c sap sap'.
Proof.
  unfold Stop. destruct (stopped sap); [done|]. intros [= <-].
  assert (∀ s, adds c s (close rt rs s)) as Hc.
  { intros s. apply foldl_adds. intros s' p. etransitivity; [apply (quit_all_adds rs)|by apply adds_same]. }
  intros ch Hch. by apply Hc.
Qed.

End Adding.

(** ** Lemmas: the relay *)

Section Relay.
Context `{Chain} `{GethCommon}.
Variable range_types : gmap bytes (gmap string Subscription) → list (bytes * gmap string Subscription).
Variable range_subs : gmap string Subscription → list (string * Subscription).
Variable CIDs : Type.
Variable RetrieveFirst RetrieveLast : result Z.
Variable Retrieve : Settings → Z → result (list CIDs * bool).
Variable Fetch : CIDs → result Response.
Variable quit_before : Z → bool.
Variable id : string.
Variable c q : nat.
Variable params : Settings.
Variable flaky : bool.

Abbreviation rstep := (relay_step range_types range_subs CIDs RetrieveFirst RetrieveLast Retrieve Fetch quit_before
  id c q params flaky).
Abbreviation others := (other range_types range_subs CIDs RetrieveFirst RetrieveLast Retrieve Fetch quit_before id c q).

Lemma other_adds sap sap' : others sap sap' → adds c sap sap'.
Proof.
  intros Ho. destruct Ho as [id' c' q' params' s s' _ _ _ Hs|id' s _|payload s s' Hs|s s' Hs].
  - by eapply Subscribe_adds.
  - apply Unsubscribe_adds.
  - by eapply serve_types_adds.
  - by eapply Stop_adds.
Qed.

(** The buffer grows at its end and stays within the capacity. *)
Definition open_channel (sap : Service) : Prop :=
  ∃ ch, payloads sap !! c = Some ch ∧ cap ch = payload_capacity ∧ (length (buf ch) ≤ payload_capacity)%nat.

Lemma adds_buffered sap sap' : adds c sap sap' → open_channel sap →
  open_channel sap' ∧ buffered c sap' = buffered c sap ++ drop (length (buffered c sap)) (buffered c sap').
Proof.
  intros Ha (ch & Hch & Hcap & Hl). destruct (Ha _ Hch) as [xs Hxs].
  rewrite offered_take in Hxs by lia. unfold open_channel, buffered. rewrite Hxs, Hch. simpl. split.
  - eexists. split; [reflexivity|]. simpl. rewrite length_take. split; [done|lia].
  - rewrite take_app_ge by lia. by rewrite drop_app_length.
Qed.

Record relay_ok (r : relay) : Prop := {
  ro_channel : open_channel (service r);
  ro_put : put r = sent r ++ failed r ++ buffered c (service r);
  ro_failed : relaying r = true → failed r = []
}.

Lemma relay_start_ok sap : relay_ok (relay_start c q sap).
Proof.
  split; simpl.
  - eexists. simpl. rewrite lookup_insert_eq. split; [reflexivity|]. simpl. split; [done|lia].
  - unfold buffered. simpl. by rewrite lookup_insert_eq.
  - done.
Qed.

Lemma receive_channel sap p ps : open_channel sap → buffered c sap = p :: ps →
  open_channel (receive c sap) ∧ buffered c (receive c sap) = ps.
Proof.
  unfold open_channel, buffered. intros (ch & Hch & Hcap & Hl). rewrite Hch. intros Eb. rewrite Eb in Hl. simpl in Hl |- *.
  rewrite Hch, lookup_insert_eq. split; [|by rewrite Eb]. eexists. split; [reflexivity|]. simpl. rewrite Eb. simpl.
  split; [done|lia].
Qed.

Lemma moved_ok r sap' : adds c (service r) sap' → relay_ok r → relay_ok (moved c sap' r).
Proof.
  intros Ha [Hc Hp Hf]. destruct (adds_buffered _ _ Ha Hc) as [Hc' Hb]. split; simpl; [done| |done].
  rewrite Hp. rewrite Hb at 2. by rewrite <- !app_assoc.
Qed.

Lemma unsubscribed_ok r rt : relay_ok r →
  open_channel (Unsubscribe rt id (service r)) ∧ buffered c (Unsubscribe rt id (service r)) = buffered c (service r).
Proof.
  intros [Hc _ _]. unfold open_channel, buffered.
  assert (payloads (Unsubscribe rt id (service r)) = payloads (service r)) as ->; [|done].
  unfold Unsubscribe. generalize (map fst (rt (Subscriptions (service r)))). intros l. generalize (service r).
  induction l as [|ty l IH]; intros s; simpl; [done|]. rewrite IH. unfold Unsubscribe_type. by case_bool_decide.
Qed.

Lemma relay_step_ok r r' : rstep r r' → relay_ok r → relay_ok r'.
Proof.
  intros Hs Hok. destruct Hs as [r sap' Hsub Hr|r sap' Ho|r p ps Hr Hb|r p ps _ Hr Hb|r _ Hr|r Hr Hq].
  - destruct (moved_ok r sap') as [A B C]; [by eapply Subscribe_adds|done|]. by split.
  - apply moved_ok; [by apply other_adds|done].
  - destruct Hok as [Hc Hp Hf]. destruct (receive_channel _ _ _ Hc Hb) as [Hc' Hb']. split; simpl; [done| |auto].
    rewrite Hb', Hp, Hb, (Hf Hr). by rewrite <- !app_assoc.
  - pose proof Hok as [Hc Hp Hf]. destruct (receive_channel _ _ _ Hc Hb) as [Hc' Hb'].
    destruct (unsubscribed_ok (mkRelay (receive c (service r)) (subscribing r) false (sent r ++ [p] ++ ps) (sent r) [p]) range_types)
      as [Hc2 Hb2]; [split; simpl; [done|by rewrite Hb'|done]|]. simpl in *. split; simpl; [done| |done].
    rewrite Hb2, Hb', Hp, Hb, (Hf Hr). by rewrite <- !app_assoc.
  - pose proof Hok as [Hc Hp Hf]. destruct (unsubscribed_ok r range_types Hok) as [Hc2 Hb2]. split; simpl; [done| |done].
    by rewrite Hb2.
  - destruct Hok as [Hc Hp Hf]. by split.
Qed.

Lemma relay_reachable_ok r r' : rtc rstep r r' → relay_ok r → relay_ok r'.
Proof. induction 1 as [r|r1 r2 r3 Hs _ IH]; [done|]. intros Hok. apply IH. by eapply relay_step_ok. Qed.

(** A relay that has ended sends nothing any more. *)
Lemma ended_for_good r r' : rtc rstep r r' → relaying r = false → relaying r' = false ∧ sent r' = sent r.
Proof.
  induction 1 as [r|r1 r2 r3 Hs _ IH]; [done|]. intros Hr.
  destruct Hs as [r sap' _ _|r sap' _|r p ps Hr' _|r p ps _ Hr' _|r _ Hr'|r Hr' _]; try congruence;
    by destruct (IH Hr).
Qed.

(** The relay can always send what is buffered. *)
Lemma relay_drains r : relay_ok r → relaying r = true →
  ∃ r', rtc rstep r r' ∧ relay_ok r' ∧ relaying r' = true ∧ sent r' = put r ∧ put r' = put r ∧
    buffered c (service r') = [] ∧ quits (service r') = quits (service r).
Proof.
  remember (buffered c (service r)) as ps eqn:E. revert r E. induction ps as [|p ps IH]; intros r E Hok Hr.
  - exists r. split_and!; try done. rewrite (ro_put _ Hok), <- E, (ro_failed _ Hok Hr). by rewrite !app_nil_r.
  - set (r1 := mkRelay (receive c (service r)) (subscribing r) true (put r) (sent r ++ [p]) (failed r)).
    assert (rstep r r1) as Hs by (by eapply rs_notify).
    pose proof (relay_step_ok _ _ Hs Hok) as Hok'.
    destruct (receive_channel _ _ _ (ro_channel _ Hok) (eq_sym E)) as [_ Hb].
    destruct (IH r1 (eq_sym Hb) Hok' eq_refl) as (r' & Hr' & Ho & Hre & Hsent & Hput & Hbuf & Hq). exists r'.
    split; [by eapply rtc_l|]. by split_and!.
Qed.

(** ** Properties *)

(** C14: a client is notified of the packets that were put on its channel in
    their order, each at most once and none left out; at most 2000 are waiting,
    and a packet whose notification failed ends the relay. *)
Theorem relay_in_order sap r :
  rtc rstep (relay_start c q sap) r →
  put r = sent r ++ failed r ++ buffered c (service r) ∧ (length (buffered c (service r)) ≤ 2000)%nat ∧
  (relaying r = true → failed r = []).
Proof.
  intros Hr. destruct (relay_reachable_ok _ _ Hr (relay_start_ok sap)) as [(ch & Hch & _ & Hl) Hp Hf].
  split; [done|]. split; [|done]. unfold buffered. rewrite Hch. unfold payload_capacity in Hl. lia.
Qed.

(** C17: when the service has told a relay to quit -- its range is over, its
    settings were refused, the service stops -- what the client still gets is a
    race: the relay may send all that is buffered and then return, or return at
    once, and then the rest is never sent. *)
Theorem quit_races_packets sap r :
  rtc rstep (relay_start c q sap) r → relaying r = true → told_to_quit q (service r) = true →
  (∃ r', rtc rstep r r' ∧ relaying r' = false ∧ sent r' = put r) ∧
  (∃ r', rtc rstep r r' ∧ relaying r' = false ∧ sent r' = sent r ∧
     ∀ r'', rtc rstep r' r'' → sent r'' = sent r).
Proof.
  intros Hr Hre Hq. pose proof (relay_reachable_ok _ _ Hr (relay_start_ok sap)) as Hok. split.
  - destruct (relay_drains r Hok Hre) as (r1 & H1 & _ & Hr1 & Hs & _ & _ & Hqs). eexists. split.
    + eapply rtc_r; [exact H1|]. apply (rs_quit _ _ _ _ _ _ _ _ _ _ _ _ _ r1); [done|]. unfold told_to_quit in *. by rewrite Hqs.
    + by split.
  - assert (rstep r (mkRelay (receive_quit q (service r)) (subscribing r) false (put r) (sent r) (failed r))) as Hs
      by (by apply rs_quit). eexists. split; [by eapply rtc_once|]. split; [done|]. split; [done|].
    intros r'' Hr''. by destruct (ended_for_good _ _ Hr'' eq_refl).
Qed.

(** Subscribing and relaying are not ordered: a client that goes away
    before its Subscribe has run leaves a registered subscription whose relay has
    ended for good. *)
Theorem early_disconnect_leaks sap by_ :
  flaky = true → Settings_ChainType params = chain sap → Settings_rlp params = Ok by_ →
  HistoricalData params = false → HistoricalDataOnly params = false →
  ∃ r, rtc rstep (relay_start c q sap) r ∧ relaying r = false ∧
    Subscriptions (service r) !! Keccak256Hash by_ ≫= lookup id = Some (mkSub id c q) ∧
    ∀ r', rtc rstep r r' → relaying r' = false ∧ sent r' = [].
Proof.
  intros Hfl Hct Hrlp Hh Ho. set (s1 := Unsubscribe range_types id (service (relay_start c q sap))).
  assert (chain s1 = chain sap) as Hc1.
  { unfold s1, Unsubscribe. rewrite foldl_chain; [done|]. intros s ty. unfold Unsubscribe_type. by case_bool_decide. }
  assert (Subscribe CIDs RetrieveFirst RetrieveLast Retrieve Fetch quit_before id c q params s1 =
    Ok (add_subscriber (Keccak256Hash by_) id (mkSub id c q) params s1)) as Hs.
  { unfold Subscribe. rewrite bool_decide_eq_false_2 by (by rewrite Hc1; intros []). by rewrite Hrlp, Hh, Ho. }
  eexists. split; [|split; [|split]].
  - eapply rtc_l; [by apply rs_gone|]. eapply rtc_once. by apply rs_subscribe.
  - done.
  - simpl. by rewrite lookup_insert_eq; simpl; rewrite lookup_insert_eq.
  - intros r' Hr'. by apply ended_for_good in Hr'.
Qed.

End Relay.

(** ** Witnesses *)

Import EthModel EthFilterer.

Section Witnesses.
#[local] Existing Instance EthService.ex_chain.
#[local] Existing Instance Concrete.geth.

(** A subscription to heights 5 to 9, and a payload of height 10. *)
Definition ex_until : SubscriptionSettings := {|
  BackFill := false; BackFillOnly := false; Start := 5; End_ := 9;
  HeaderFilter_ := HeaderFilter_ ex_settings; TxFilter_ := TxFilter_ ex_settings;
  ReceiptFilter_ := ReceiptFilter_ ex_settings; StateFilter_ := StateFilter_ ex_settings;
  StorageFilter_ := StorageFilter_ ex_settings |}.
Definition ex_later : ConvertedPayload := {|
  p_TotalDifficulty := 12; p_Block := {| block_Header := {| header_RLP := Ok [10]; header_Number := 10; header_Hash := [10];
    header_ParentHash := [9] |}; block_Uncles := []; block_Transactions := []; block_Root := []; block_TxHash := [];
    block_ReceiptHash := []; block_UncleHash := []; block_Bloom := []; block_Time := 0 |};
  p_TxMetaData := []; p_Receipts := []; p_ReceiptMetaData := []; p_StateNodes := []; p_StorageNodes := ∅ |}.

Definition ex_relay_start : relay := relay_start 1 2 (mkService ∅ ∅ ∅ ∅ Ethereum false : Service).
Definition ex_subscribe (s : Service) : result Service :=
  Subscribe Z (Ok 1) (Ok 9) (λ _ i, Ok ([i], false)) (λ _, Ok IPLDs_zero) (λ _, false) "s" 1 2 (ex_until : Settings) s.
Definition ex_serve (p : ConvertedPayload) (s : Service) : result Service :=
  filterAndServe map_to_list map_to_list (Some (p : ConvertedData)) s.
Definition ok_or {A} (a : A) (r : result A) : A := match r with Ok a => a | _ => a end.
Definition ex_s1 : Service := ok_or (service ex_relay_start) (ex_subscribe (service ex_relay_start)).
Definition ex_s2 : Service := ok_or ex_s1 (ex_serve ex_two_txs ex_s1).
Definition ex_s3 : Service := ok_or ex_s2 (ex_serve ex_later ex_s2).
Definition ex_r1 : relay := mkRelay ex_s1 false true (put (moved 1 ex_s1 ex_relay_start)) [] [].
Definition ex_r3 : relay := moved 1 ex_s3 (moved 1 ex_s2 ex_r1).

Abbreviation ex_step flaky := (relay_step map_to_list map_to_list Z (Ok 1) (Ok 9) (λ _ i, Ok ([i], false)) (λ _, Ok IPLDs_zero)
  (λ _, false) "s" 1 2 (ex_until : Settings) flaky).

Lemma ok_or_ok {A} (a : A) r : is_ok r = true → r = Ok (ok_or a r).
Proof. by destruct r. Qed.

Lemma ex_served : rtc (ex_step false) ex_relay_start ex_r3.
Proof.
  assert (ex_subscribe (service ex_relay_start) = Ok ex_s1) as H1 by (apply ok_or_ok; vm_compute; reflexivity).
  assert (ex_serve ex_two_txs ex_s1 = Ok ex_s2) as H2 by (apply ok_or_ok; vm_compute; reflexivity).
  assert (ex_serve ex_later ex_s2 = Ok ex_s3) as H3 by (apply ok_or_ok; vm_compute; reflexivity).
  apply rtc_l with (y := ex_r1); [exact (rs_subscribe _ _ _ _ _ _ _ _ _ _ _ _ _ ex_relay_start ex_s1 eq_refl H1)|].
  apply rtc_l with (y := moved 1 ex_s2 ex_r1).
  { apply (rs_other _ _ _ _ _ _ _ _ _ _ _ _ _ ex_r1 ex_s2). exact (o_serve _ _ _ _ _ _ _ _ _ _ _ (@Some ConvertedPayload ex_two_txs) ex_s1 ex_s2 H2). }
  apply rtc_once, (rs_other _ _ _ _ _ _ _ _ _ _ _ _ _ (moved 1 ex_s2 ex_r1) ex_s3).
  exact (o_serve _ _ _ _ _ _ _ _ _ _ _ (@Some ConvertedPayload ex_later) ex_s2 ex_s3 H3).
Qed.

Lemma relay_in_order_witness : map sp_Height (put ex_r3) = [9] ∧ (length (buffered 1 (service ex_r3)) ≤ 2000)%nat.
Proof.
  split; [vm_compute; reflexivity|].
  apply (relay_in_order (H := EthService.ex_chain) (H0 := Concrete.geth) map_to_list map_to_list Z (Ok 1) (Ok 9) (λ _ i, Ok ([i], false)) (λ _, Ok IPLDs_zero) (λ _, false) "s" 1 2
    ex_until false (mkService ∅ ∅ ∅ ∅ Ethereum false : Service) ex_r3), ex_served.
Defined.

(** The packet of height 9 may or may not reach the client. *)
Lemma quit_races_packets_witness :
  (∃ r, rtc (ex_step false) ex_relay_start r ∧ relaying r = false ∧ map sp_Height (sent r) = [9]) ∧
  (∃ r, rtc (ex_step false) ex_relay_start r ∧ relaying r = false ∧ sent r = []).
Proof.
  assert (relaying ex_r3 = true ∧ told_to_quit 2 (service ex_r3) = true ∧ sent ex_r3 = [] ∧ map sp_Height (put ex_r3) = [9])
    as (Hr & Hq & Hs & Hp) by (split; [reflexivity|split; [vm_compute; reflexivity|split; [reflexivity|vm_compute; reflexivity]]]).
  destruct (quit_races_packets (H := EthService.ex_chain) (H0 := Concrete.geth) map_to_list map_to_list Z (Ok 1) (Ok 9) (λ _ i, Ok ([i], false)) (λ _, Ok IPLDs_zero) (λ _, false) "s" 1 2
    ex_until false (mkService ∅ ∅ ∅ ∅ Ethereum false : Service) ex_r3 ex_served Hr Hq)
    as [(r1 & H1 & Hr1 & Hs1) (r2 & H2 & Hr2 & Hs2 & _)].
  split.
  - exists r1. split; [etransitivity; [apply ex_served|done]|]. split; [done|]. by rewrite Hs1.
  - exists r2. split; [etransitivity; [apply ex_served|done]|]. split; [done|]. by rewrite Hs2.
Defined.

Lemma early_disconnect_leaks_witness : ∃ r, rtc (ex_step true) ex_relay_start r ∧ relaying r = false ∧
  is_Some (Subscriptions (service r) !! Keccak256Hash [5] ≫= lookup "s").
Proof.
  destruct (early_disconnect_leaks (H := EthService.ex_chain) (H0 := Concrete.geth) map_to_list map_to_list Z (Ok 1) (Ok 9) (λ _ i, Ok ([i], false)) (λ _, Ok IPLDs_zero) (λ _, false)
    "s" 1 2 ex_until true (mkService ∅ ∅ ∅ ∅ Ethereum false : Service) [5]) as (r & Hr & Hre & Hl & _);
    [reflexivity..|]. exists r. split; [exact Hr|]. split; [exact Hre|]. by eexists.
Defined.

End Witnesses.
