(* ===== verification/WorkerPool.v ===== *)
(** * Worker pools: resync and back-filling
    (pkg/super_node/resync/service.go, pkg/super_node/backfiller.go)

    A pass hands bins of block heights to workers over an unbuffered channel
    and then sends each worker a quit signal.  Workers fetch, convert, publish
    and index concurrently: publishing a payload and indexing what it returned
    are two steps, and other workers publish and index in between.  A panic in
    a worker is not recovered and ends the process, so nothing steps after it.
    [step_of i] is the next step of worker [i], so a schedule is a list of
    worker indices. *)

From S2P Require Import Prelude GoInt Heights ChainTypes Geth.

(** ** The pipeline of one payload *)

(** Converter, publisher, indexer and fetcher, on the state [St] of the
    database; a failed conversion leaves a nil payload. *)
Class Pipeline := {
  Raw : Type;
  Converted : Type;
  CIDs : Type;
  St : Type;
  FetchAt : list Z → result (list Raw);
  Convert : Raw → result Converted;
  Publish : option Converted → St → result CIDs * St;
  Index : option CIDs → St → result unit * St
}.

(** [x, err := f()] where an error is logged and leaves [x] nil; a panic goes
    on unwinding. *)
Definition nil_on_error {A} (r : result A) : result (option A) :=
  match r with Ok a => Ok (Some a) | Err _ => Ok None | Panic w => Panic w end.

(** Replacing one worker of a list moves what it holds. *)
Lemma concat_insert {W A} (f : W → list A) l i w w' :
  l !! i = Some w →
  concat (map f (<[i := w']> l)) ++ f w ≡ₚ concat (map f l) ++ f w'.
Proof.
  revert i. induction l as [|x l IH]; intros [|i] Hi; simpl in *; try done.
  - injection Hi as ->. rewrite (Permutation_app_comm (f w' ++ _)), (Permutation_app_comm (f w ++ _)).
    rewrite !app_assoc. by rewrite (Permutation_app_comm (f w) (f w')).
  - rewrite <- !app_assoc. by rewrite IH.
Qed.

Section Pool.
Context `{Pipeline}.

(** What the workers did, in order: a payload offered to the serving process,
    a call of [Publish] or [Index] with what it returned. *)
Inductive event : Type :=
| Offered (payload : option Converted)
| Published (payload : option Converted) (r : result CIDs)
| Indexed (cids : option CIDs) (r : result unit).

(** ** The workers *)

(** Where a worker is: in its [select], before the next payload of its section,
    before publishing a converted payload, before indexing, or returned. *)
Inductive worker : Type :=
| Idle
| Busy (payloads : list Raw)
| Publishing (ipldPayload : option Converted) (payloads : list Raw)
| Indexing (cidPayload : option CIDs) (payloads : list Raw)
| Done.

(** The section of a worker that received [heights]: [heights[0]] panics on an
    empty bin; a fetching error is logged and leaves no payloads. *)
Definition received (heights : list Z) : result (list Raw) :=
  match heights with
  | [] => Panic "runtime error: index out of range"
  | _ :: _ => payloads <-! nil_on_error (FetchAt heights) ;; Ok (default [] payloads)
  end.

(** What one step of a worker comes to: where it is next, unless it panicked,
    the database, and what it did. *)
Record outcome : Type := mkOutcome { next : result worker; after : St; did : list event }.

(** The loop over the payloads in [resync]: errors are logged and the nil they
    leave is passed on. *)
Definition resync (w : worker) (s : St) : outcome :=
  match w with
  | Busy (payload :: payloads) =>
      mkOutcome (ipldPayload <-! nil_on_error (Convert payload) ;; Ok (Publishing ipldPayload payloads)) s []
  | Publishing ipldPayload payloads =>
      let '(r, s) := Publish ipldPayload s in
      mkOutcome (cidPayload <-! nil_on_error r ;; Ok (Indexing cidPayload payloads)) s
        [Published ipldPayload r]
  | Indexing cidPayload payloads =>
      let '(r, s) := Index cidPayload s in
      mkOutcome (_ <-! nil_on_error r ;; Ok (Busy payloads)) s [Indexed cidPayload r]
  | Busy [] => mkOutcome (Ok Idle) s []
  | Idle | Done => mkOutcome (Ok w) s []
  end.

(** The loop over the payloads in [backFill]: the payload is also offered to
    the serving process, and a publishing error goes on with the next one. *)
Definition backFill (w : worker) (s : St) : outcome :=
  match w with
  | Busy (payload :: payloads) =>
      match nil_on_error (Convert payload) with
      | Ok ipldPayload => mkOutcome (Ok (Publishing ipldPayload payloads)) s [Offered ipldPayload]
      | Err e => mkOutcome (Err e) s []
      | Panic w => mkOutcome (Panic w) s []
      end
  | Publishing ipldPayload payloads =>
      let '(r, s) := Publish ipldPayload s in
      mkOutcome (match r with
                 | Ok cidPayload => Ok (Indexing (Some cidPayload) payloads)
                 | Err _ => Ok (Busy payloads)
                 | Panic w => Panic w
                 end) s [Published ipldPayload r]
  | Indexing cidPayload payloads =>
      let '(r, s) := Index cidPayload s in
      mkOutcome (_ <-! nil_on_error r ;; Ok (Busy payloads)) s [Indexed cidPayload r]
  | Busy [] => mkOutcome (Ok Idle) s []
  | Idle | Done => mkOutcome (Ok w) s []
  end.

(** ** The pool *)

Inductive command : Type := Heights (heights : list Z) | Quit.

(** The dispatching goroutine's remaining sends, the workers, the state they
    share, what they did, and the panic that ended the process, if any. *)
Record pool : Type := mkPool {
  dispatcher : list command;
  workers : list worker;
  store : St;
  log : list event;
  crashed : option string
}.

(** Worker [i] goes on to [w], or crashes the process. *)
Definition goes_on (p : pool) (d : list command) (i : nat) (o : outcome) : pool :=
  match next o with
  | Ok w => mkPool d (<[i := w]> (workers p)) (after o) (log p ++ did o) None
  | Err _ => p
  | Panic why => mkPool d (workers p) (after o) (log p ++ did o) (Some why)
  end.

(** The step of worker [i] of a pool whose workers run [body]: an idle worker
    receives what the dispatcher is sending, a busy one goes on with its
    section. *)
Definition step_of (body : worker → St → outcome) (i : nat) (p : pool) : option pool :=
  match crashed p with
  | Some _ => None
  | None =>
      w ← workers p !! i;
      match w, dispatcher p with
      | Idle, Heights hs :: d =>
          Some (goes_on p d i (mkOutcome (payloads <-! received hs ;; Ok (Busy payloads)) (store p) []))
      | Idle, Quit :: d => Some (goes_on p d i (mkOutcome (Ok Done) (store p) []))
      | Idle, [] | Done, _ => None
      | _, d => Some (goes_on p d i (body w (store p)))
      end
  end.

(** A whole schedule. *)
Fixpoint run (body : worker → St → outcome) (schedule : list nat) (p : pool) : option pool :=
  match schedule with
  | [] => Some p
  | i :: schedule => p' ← step_of body i p; run body schedule p'
  end.

(** One pass over the bins with [n] workers. *)
Definition start_pass (bins : list (list Z)) (n : nat) (s : St) : pool :=
  mkPool (map Heights bins ++ replicate n Quit) (replicate n Idle) s [] None.

(** A dispatcher that panics or returns an error while the workers started. *)
Definition start_bins (bins : list (list Z)) (n : nat) (s : St) : pool :=
  mkPool (map Heights bins) (replicate n Idle) s [] None.

(** How the pass ended, if it did: a worker crashed the process, or the
    dispatcher has sent everything and comes to [r]. *)
Definition ended (r : result unit) (p : pool) : option (result unit) :=
  match crashed p, dispatcher p with
  | Some why, _ => Some (Panic why)
  | None, [] => Some r
  | None, _ :: _ => None
  end.

(** ** Resync *)

Class Cleaner := {
  ResetValidation : list (Z * Z) → St → result unit * St;
  Clean : list (Z * Z) → DataType → St → result unit * St
}.
Context `{Cleaner}.

Record Config : Type := mkConfig {
  BatchSize : Z;
  BatchNumber : nat;
  ranges : list (Z * Z);
  data : DataType;
  clearOldCache : bool;
  resetValidation : bool
}.

(** The bins sent while ranging over the ranges, and what the loop comes to: an
    error or a panic of [GetBlockHeightBins] ends it. *)
Fixpoint range_bins (rngs : list (Z * Z)) (batchSize : Z) : list (list Z) * result unit :=
  match rngs with
  | [] => ([], Ok tt)
  | rng :: rngs =>
      if rng.2 <? rng.1 then range_bins rngs batchSize
      else
        match GetBlockHeightBins rng.1 rng.2 batchSize with
        | Ok blockRangeBins =>
            let '(bins, r) := range_bins rngs batchSize in (blockRangeBins ++ bins, r)
        | Err e => ([], Err e)
        | Panic w => ([], Panic w)
        end
  end.

(** What [Resync] does before the workers start. *)
Definition resync_prepare (rs : Config) (s : St) : result unit * St :=
  let '(r, s) := if resetValidation rs then ResetValidation (ranges rs) s else (Ok tt, s) in
  match r with
  | Ok _ =>
      if clearOldCache rs then
        let '(r, s) := Clean (ranges rs) (data rs) s in
        (match r with Err _ => Err (Errorf "data resync cleaning error") | r => r end, s)
      else (Ok tt, s)
  | Err _ => (Err (Errorf "validation reset failed"), s)
  | Panic w => (Panic w, s)
  end.

(** [Resync] under a schedule of its workers: [None] when the schedule is not
    one the pool allows or does not run the pass to its end.  An error of
    [GetBlockHeightBins] leaves the workers running. *)
Definition Resync (rs : Config) (schedule : list nat) (s : St) : option (result unit * St) :=
  match resync_prepare rs s with
  | (Ok _, s) =>
      let '(bins, r) := range_bins (ranges rs) (BatchSize rs) in
      let start := match r with Ok _ => start_pass | _ => start_bins end in
      p ← run resync schedule (start bins (BatchNumber rs) s);
      r ← ended r p; Some (r, store p)
  | (r, s) => Some (r, s)
  end.

(** ** Back-filling *)

(** The bins of the gaps of one pass; an error is logged and its gap skipped, a
    panic ends the process. *)
Fixpoint gap_bins (gaps : list Gap) (batchSize : Z) : list (list Z) * result unit :=
  match gaps with
  | [] => ([], Ok tt)
  | gap :: gaps =>
      match GetBlockHeightBins (Heights.Start gap) (Heights.Stop gap) batchSize with
      | Ok blockRangeBins =>
          let '(bins, r) := gap_bins gaps batchSize in (blockRangeBins ++ bins, r)
      | Err _ => gap_bins gaps batchSize
      | Panic w => ([], Panic w)
      end
  end.

(** What was offered to the serving process, published and indexed. *)
Definition offered (l : list event) : list (option Converted) :=
  omap (λ e, match e with Offered p => Some p | _ => None end) l.
Definition published (l : list event) : list (option Converted) :=
  omap (λ e, match e with Published p _ => Some p | _ => None end) l.
Definition indexed (l : list event) : list (option CIDs) :=
  omap (λ e, match e with Indexed c _ => Some c | _ => None end) l.

(** One pass of [BackFill] with a service that is not stopped: how it ends, the
    database and what was offered to the serving process. *)
Definition BackFill_pass (gaps : list Gap) (batchSize : Z) (batchNumber : nat) (schedule : list nat)
    (s : St) : option (result unit * St * list (option Converted)) :=
  let '(bins, r) := gap_bins gaps batchSize in
  let start := match r with Ok _ => start_pass | _ => start_bins end in
  p ← run backFill schedule (start bins batchNumber s);
  r ← ended r p; Some (r, store p, offered (log p)).

(** The same pass with [Stop], which closes the channel the quit signals are
    sent on.  Before each bin the dispatcher looks at the channel and then
    blocks on handing over the bin. *)
Record bf_state : Type := mkBF {
  bf_pool : pool;
  sending : bool;
  closed : bool;
  returned : bool;
  panicked : bool
}.

Definition with_done (p : pool) (i : nat) : pool :=
  mkPool (dispatcher p) (<[i := Done]> (workers p)) (store p) (log p) (crashed p).

Inductive bf_step : bf_state → bf_state → Prop :=
| bf_check p hs d :
    crashed p = None → dispatcher p = Heights hs :: d →
    bf_step (mkBF p false false false false) (mkBF p true false false false)
| bf_check_closed p hs d :
    crashed p = None → dispatcher p = Heights hs :: d →
    bf_step (mkBF p false true false false) (mkBF p false true true false)
| bf_hand_over p p' i hs d c :
    dispatcher p = Heights hs :: d → workers p !! i = Some Idle →
    step_of backFill i p = Some p' →
    bf_step (mkBF p true c false false) (mkBF p' false c false false)
| bf_work p p' i w c b r :
    workers p !! i = Some w → w ≠ Idle → step_of backFill i p = Some p' →
    bf_step (mkBF p b c r false) (mkBF p' b c r false)
| bf_quit p p' i d :
    dispatcher p = Quit :: d → workers p !! i = Some Idle →
    step_of backFill i p = Some p' →
    bf_step (mkBF p false false false false) (mkBF p' false false false false)
| bf_send_on_closed p d :
    crashed p = None → dispatcher p = Quit :: d →
    bf_step (mkBF p false true false false) (mkBF p false true false true)
| bf_worker_sees_closed p i b r :
    crashed p = None → workers p !! i = Some Idle →
    bf_step (mkBF p b true r false) (mkBF (with_done p i) b true r false)
| bf_Stop p b r :
    crashed p = None →
    bf_step (mkBF p b false r false) (mkBF p b true r false).

Definition bf_start (bins : list (list Z)) (n : nat) (s : St) : bf_state :=
  mkBF (start_pass bins n s) false false false false.

(** ** Specification *)

(** The log is what the calls returned, one after the other, on the way from
    the database [s] to [s']. *)
Fixpoint replay (s : St) (l : list event) (s' : St) : Prop :=
  match l with
  | [] => s' = s
  | Offered _ :: l => replay s l s'
  | Published p r :: l => (Publish p s).1 = r ∧ replay (Publish p s).2 l s'
  | Indexed c r :: l => (Index c s).1 = r ∧ replay (Index c s).2 l s'
  end.

(** What is to be indexed after [Publish] returned [r]. *)
Definition resync_indexes (r : result CIDs) : option (option CIDs) :=
  match r with Ok c => Some (Some c) | Err _ => Some None | Panic _ => None end.
Definition backFill_indexes (r : result CIDs) : option (option CIDs) :=
  match r with Ok c => Some (Some c) | Err _ | Panic _ => None end.

Definition to_index (indexes : result CIDs → option (option CIDs)) (l : list event) : list (option CIDs) :=
  omap (λ e, match e with Published _ r => indexes r | _ => None end) l.

(** At every moment no more was indexed than publishing had returned, and, with
    [forwards], no more was published than had been offered. *)
Definition ordered (indexes : result CIDs → option (option CIDs)) (forwards : bool) (l : list event) : Prop :=
  ∀ l1 l2, l = l1 ++ l2 →
    indexed l1 ⊆+ to_index indexes l1 ∧ (forwards = true → published l1 ⊆+ offered l1).

(** The payloads of all bins were published exactly once, converted or nil,
    and what each publishing returned was indexed exactly once. *)
Definition all_processed (indexes : result CIDs → option (option CIDs)) (bins : list (list Z))
    (l : list event) : Prop :=
  ∃ payloads, range_collect received bins = Ok payloads ∧
    map Ok (published l) ≡ₚ map (λ x, nil_on_error (Convert x)) (concat payloads) ∧
    indexed l ≡ₚ to_index indexes l.

Definition event_panicked (e : event) (w : string) : Prop :=
  match e with
  | Published _ r => r = Panic w
  | Indexed _ r => r = Panic w
  | Offered _ => False
  end.

(** A call panicked with [w]: a fetch, a conversion or the last call logged. *)
Definition call_panicked (bins : list (list Z)) (l : list event) (w : string) : Prop :=
  (∃ hs, hs ∈ bins ∧ received hs = Panic w) ∨
  (∃ hs payloads x, hs ∈ bins ∧ received hs = Ok payloads ∧ x ∈ payloads ∧ Convert x = Panic w) ∨
  (∃ l' e, l = l' ++ [e] ∧ event_panicked e w).

Definition no_panics : Prop :=
  (∀ hs, no_panic (FetchAt hs)) ∧ (∀ x, no_panic (Convert x)) ∧
  (∀ c s, no_panic (Publish c s).1) ∧ (∀ c s, no_panic (Index c s).1).

(** ** Lemmas: the log *)

Lemma replay_app s l1 l2 s' : replay s (l1 ++ l2) s' ↔ ∃ s1, replay s l1 s1 ∧ replay s1 l2 s'.
Proof.
  revert s. induction l1 as [|e l1 IH]; intros s; simpl; [naive_solver|].
  destruct e; rewrite IH; naive_solver.
Qed.

Lemma app_snoc_prefix {A} (l1 l2 l : list A) e : l ++ [e] = l1 ++ l2 →
  (∃ l3, l = l1 ++ l3) ∨ l1 = l ++ [e].
Proof.
  destruct l2 as [|x l2 _] using rev_ind; [rewrite app_nil_r; by right|].
  rewrite app_assoc. intros [-> _]%app_inj_tail. eauto.
Qed.

Lemma ordered_snoc indexes forwards l e : ordered indexes forwards l →
  indexed (l ++ [e]) ⊆+ to_index indexes (l ++ [e]) →
  (forwards = true → published (l ++ [e]) ⊆+ offered (l ++ [e])) →
  ordered indexes forwards (l ++ [e]).
Proof.
  intros Ho H1 H2 l1 l2 Hl. destruct (app_snoc_prefix _ _ _ _ Hl) as [[l3 Hl3]| ->]; [|done].
  by apply (Ho l1 l3).
Qed.

Lemma replay_no_panics s l s' : no_panics → replay s l s' → ∀ e w, e ∈ l → ¬ event_panicked e w.
Proof.
  intros (_ & _ & Hp & Hi). revert s. induction l as [|e l IH]; intros s Hr e' w He Hw; [by apply elem_of_nil in He|].
  apply elem_of_cons in He as [->|He].
  - destruct e as [c|c r|c r]; simpl in *; [done|..]; destruct Hr as [Hr _]; subst;
      [specialize (Hp c s); by rewrite Hw in Hp|specialize (Hi c s); by rewrite Hw in Hi].
  - destruct e as [c|c r|c r]; simpl in Hr; [by eapply IH|..]; destruct Hr as [_ Hr]; by eapply IH.
Qed.

Lemma received_no_panic hs : no_panics → hs ≠ [] → no_panic (received hs).
Proof. intros (Hf & _) Hne. destruct hs as [|h hs]; [done|]. simpl. specialize (Hf (h :: hs)). by destruct (FetchAt (h :: hs)). Qed.

Lemma call_panicked_absurd s bins l s' w : no_panics → Forall (λ hs, hs ≠ []) bins → replay s l s' →
  ¬ call_panicked bins l w.
Proof.
  intros Hn Hb Hr [(hs & Hhs & Hw)|[(hs & ps & x & _ & _ & _ & Hw)|(l' & e & -> & Hw)]].
  - rewrite Forall_forall in Hb. pose proof (received_no_panic hs Hn (Hb _ Hhs)) as Hp. by rewrite Hw in Hp.
  - destruct Hn as (_ & Hc & _). specialize (Hc x). by rewrite Hw in Hc.
  - eapply (replay_no_panics s); [done..| |exact Hw]. set_solver.
Qed.

(** ** Lemmas: one step *)

(** What the proofs use of the two loops. *)
Record loop_body (body : worker → St → outcome) (indexes : result CIDs → option (option CIDs))
    (forwards : bool) : Prop := {
  lb_finish s : body (Busy []) s = mkOutcome (Ok Idle) s [];
  lb_convert x xs s : body (Busy (x :: xs)) s =
    match nil_on_error (Convert x) with
    | Ok c => mkOutcome (Ok (Publishing c xs)) s (if forwards then [Offered c] else [])
    | Err e => mkOutcome (Err e) s []
    | Panic w => mkOutcome (Panic w) s []
    end;
  lb_publish c xs s : body (Publishing c xs) s =
    mkOutcome (match (Publish c s).1 with
               | Panic w => Panic w
               | r => Ok (match indexes r with Some cids => Indexing cids xs | None => Busy xs end)
               end) (Publish c s).2 [Published c (Publish c s).1];
  lb_index c xs s : body (Indexing c xs) s =
    mkOutcome (match (Index c s).1 with Panic w => Panic w | _ => Ok (Busy xs) end)
      (Index c s).2 [Indexed c (Index c s).1];
  lb_panic w : indexes (Panic w) = None
}.

Lemma resync_body : loop_body resync resync_indexes false.
Proof.
  split; intros; simpl; [done| | | |done].
  - by destruct (Convert x).
  - by destruct (Publish c s) as [[] ?].
  - by destruct (Index c s) as [[] ?].
Qed.

Lemma backFill_body : loop_body backFill backFill_indexes true.
Proof.
  split; intros; simpl; [done|done| | |done].
  - by destruct (Publish c s) as [[] ?].
  - by destruct (Index c s) as [[] ?].
Qed.

Section Steps.
Context {body : worker → St → outcome} {indexes : result CIDs → option (option CIDs)} {forwards : bool}.
Context (Hbody : loop_body body indexes forwards).

Definition published_next (r : result CIDs) (xs : list Raw) : worker :=
  match indexes r with Some cids => Indexing cids xs | None => Busy xs end.

(** The ways worker [i] steps. *)
Inductive step_case (i : nat) (p : pool) : pool → Prop :=
| sc_fetch hs d payloads : workers p !! i = Some Idle → dispatcher p = Heights hs :: d →
    received hs = Ok payloads →
    step_case i p (mkPool d (<[i := Busy payloads]> (workers p)) (store p) (log p) None)
| sc_fetch_panic hs d w : workers p !! i = Some Idle → dispatcher p = Heights hs :: d →
    received hs = Panic w →
    step_case i p (mkPool d (workers p) (store p) (log p) (Some w))
| sc_quit d : workers p !! i = Some Idle → dispatcher p = Quit :: d →
    step_case i p (mkPool d (<[i := Done]> (workers p)) (store p) (log p) None)
| sc_finish : workers p !! i = Some (Busy []) →
    step_case i p (mkPool (dispatcher p) (<[i := Idle]> (workers p)) (store p) (log p) None)
| sc_convert x xs c : workers p !! i = Some (Busy (x :: xs)) → nil_on_error (Convert x) = Ok c →
    step_case i p (mkPool (dispatcher p) (<[i := Publishing c xs]> (workers p)) (store p)
      (log p ++ if forwards then [Offered c] else []) None)
| sc_convert_panic x xs w : workers p !! i = Some (Busy (x :: xs)) → Convert x = Panic w →
    step_case i p (mkPool (dispatcher p) (workers p) (store p) (log p) (Some w))
| sc_publish c xs r s' : workers p !! i = Some (Publishing c xs) → Publish c (store p) = (r, s') →
    no_panic r →
    step_case i p (mkPool (dispatcher p) (<[i := published_next r xs]> (workers p)) s'
      (log p ++ [Published c r]) None)
| sc_publish_panic c xs w s' : workers p !! i = Some (Publishing c xs) → Publish c (store p) = (Panic w, s') →
    step_case i p (mkPool (dispatcher p) (workers p) s' (log p ++ [Published c (Panic w)]) (Some w))
| sc_index c xs r s' : workers p !! i = Some (Indexing c xs) → Index c (store p) = (r, s') →
    no_panic r →
    step_case i p (mkPool (dispatcher p) (<[i := Busy xs]> (workers p)) s' (log p ++ [Indexed c r]) None)
| sc_index_panic c xs w s' : workers p !! i = Some (Indexing c xs) → Index c (store p) = (Panic w, s') →
    step_case i p (mkPool (dispatcher p) (workers p) s' (log p ++ [Indexed c (Panic w)]) (Some w)).

Lemma step_of_cases i p p' : step_of body i p = Some p' → crashed p = None ∧ step_case i p p'.
Proof.
  unfold step_of. destruct (crashed p); [done|]. destruct (workers p !! i) as [w|] eqn:Hi; simpl; [|done].
  intros Hs. split; [done|]. destruct w as [|[|x xs]|c xs|c xs|]; [| | | | |done].
  - destruct (dispatcher p) as [|[hs|] d] eqn:Hd; [done| |].
    + injection Hs as <-. destruct (received hs) as [ps|e|w] eqn:Hr; unfold goes_on; simpl; rewrite ?app_nil_r;
        [by eapply sc_fetch| |by eapply sc_fetch_panic].
      exfalso. destruct hs as [|h hs]; [done|]. simpl in Hr. by destruct (FetchAt _).
    + injection Hs as <-. unfold goes_on. simpl. rewrite app_nil_r. by eapply sc_quit.
  - injection Hs as <-. rewrite (lb_finish _ _ _ Hbody). unfold goes_on. simpl. rewrite app_nil_r. by apply sc_finish.
  - injection Hs as <-. rewrite (lb_convert _ _ _ Hbody). destruct (Convert x) as [c|e|w] eqn:Hc; unfold goes_on; simpl.
    + eapply sc_convert; [done|by rewrite Hc].
    + eapply sc_convert; [done|by rewrite Hc].
    + rewrite app_nil_r. by eapply sc_convert_panic.
  - injection Hs as <-. rewrite (lb_publish _ _ _ Hbody).
    destruct (Publish c (store p)) as [[r|e|w] s'] eqn:Hp; unfold goes_on; simpl;
      [by apply (sc_publish i p c xs (Ok r))|by apply (sc_publish i p c xs (Err e))|by eapply sc_publish_panic].
  - injection Hs as <-. rewrite (lb_index _ _ _ Hbody).
    destruct (Index c (store p)) as [[r|e|w] s'] eqn:Hp; unfold goes_on; simpl;
      [by eapply (sc_index i p c xs (Ok r))|by eapply (sc_index i p c xs (Err e))|by eapply sc_index_panic].
Qed.

(** ** Lemmas: how long a pass can run *)

Definition alive (w : worker) : nat := match w with Done => 0 | _ => 1 end.
Definition worker_cost (w : worker) : nat :=
  match w with
  | Idle | Done => 0
  | Busy xs => 1 + 3 * length xs
  | Publishing _ xs => 3 + 3 * length xs
  | Indexing _ xs => 2 + 3 * length xs
  end.
Definition command_cost (c : command) : nat :=
  match c with
  | Heights hs => match received hs with Ok xs => 2 + 3 * length xs | _ => 1 end
  | Quit => 1
  end.

Definition cost (p : pool) : nat :=
  match crashed p with
  | Some _ => 0
  | None => sum_list (map command_cost (dispatcher p)) + sum_list (map worker_cost (workers p))
  end.

(** The dispatcher sends bins, then one signal for each worker alive; no
    worker quits before all bins are handed out. *)
Definition pool_ok (n : nat) (p : pool) : Prop :=
  ∃ bins k, dispatcher p = map Heights bins ++ replicate k Quit ∧
    sum_list (map alive (workers p)) = k ∧ (bins ≠ [] → k = n).

Lemma sum_insert (f : worker → nat) l i w w' :
  l !! i = Some w →
  (sum_list (map f (<[i := w']> l)) + f w = sum_list (map f l) + f w')%nat.
Proof.
  revert i. induction l as [|x l IH]; intros [|i] Hi; simpl in *; try done.
  - injection Hi as ->. lia.
  - specialize (IH i Hi). lia.
Qed.

Lemma sum_ge (f : worker → nat) l i w : l !! i = Some w → (f w ≤ sum_list (map f l))%nat.
Proof.
  revert i. induction l as [|x l IH]; intros [|i] Hi; simpl in *; try done.
  - injection Hi as ->. lia.
  - specialize (IH i Hi). lia.
Qed.

Lemma step_cost i p p' : step_of body i p = Some p' → (cost p' < cost p)%nat.
Proof.
  intros [Hn Hc]%step_of_cases. unfold cost. rewrite Hn.
  destruct Hc as [hs d ps Hi Hd Hr|hs d w Hi Hd Hr|d Hi Hd|Hi|x xs c Hi Hx|x xs w Hi Hx|
    c xs r s' Hi Hp Hnp|c xs w s' Hi Hp|c xs r s' Hi Hp Hnp|c xs w s' Hi Hp]; cbn [crashed];
    pose proof (sum_ge worker_cost _ i _ Hi) as Hge;
    try match goal with |- context [<[i := ?w]> _] => pose proof (sum_insert worker_cost _ i _ w Hi) as Hsum end;
    cbn [dispatcher workers] in *; rewrite ?Hd; cbn [map sum_list_with sum_list command_cost worker_cost length] in *;
    rewrite ?Hr in *; try lia.
  all: unfold published_next in *; simpl in *; try destruct (indexes r); simpl in *; lia.
Qed.

Lemma step_pool_ok n i p p' : step_of body i p = Some p' → crashed p' = None → pool_ok n p → pool_ok n p'.
Proof.
  intros [_ Hc]%step_of_cases Hn (bins & k & Hd & Hk & Hb). unfold pool_ok.
  destruct Hc as [hs d ps Hi Hd' Hr|hs d w Hi Hd' Hr|d Hi Hd'|Hi|x xs c Hi Hx|x xs w Hi Hx|
    c xs r s' Hi Hp Hnp|c xs w s' Hi Hp|c xs r s' Hi Hp Hnp|c xs w s' Hi Hp]; try done; cbn [dispatcher workers];
    match goal with |- context [<[i := ?w]> _] => pose proof (sum_insert alive _ i _ w Hi) as Hsum end;
    try (exists bins, k; split_and!; [done| |done]; unfold published_next in *; simpl in *;
         try destruct (indexes r); simpl in *; lia).
  - destruct bins as [|b bins]; [rewrite Hd' in Hd; by destruct k|].
    rewrite Hd' in Hd. injection Hd as <- ->. exists bins, k. simpl in *. split_and!; [done|lia|auto].
  - destruct bins as [|b bins]; [|by rewrite Hd' in Hd]. destruct k as [|k]; [by rewrite Hd' in Hd|].
    rewrite Hd' in Hd. injection Hd as ->. exists [], k. simpl in *. split_and!; [done|lia|done].
Qed.

Lemma run_crashed sched p p' : run body sched p = Some p' → crashed p' = None → crashed p = None.
Proof.
  destruct sched as [|i sched]; simpl; [by intros [= <-]|].
  destruct (step_of body i p) as [p1|] eqn:E; simpl; [|done]. by apply step_of_cases in E as [-> _].
Qed.

Lemma run_pool_ok n sched : ∀ p p', run body sched p = Some p' → crashed p' = None → pool_ok n p → pool_ok n p'.
Proof.
  induction sched as [|i sched IH]; intros p p'; simpl; [by intros [= <-]|].
  destruct (step_of body i p) as [p1|] eqn:E; simpl; [|done]. intros Hr Hn Hok.
  eapply IH; [done..|]. eapply step_pool_ok; [done| |done]. by eapply run_crashed.
Qed.

Lemma run_cost sched : ∀ p p', run body sched p = Some p' → (length sched + cost p' ≤ cost p)%nat.
Proof.
  induction sched as [|i sched IH]; intros p p'; simpl; [by intros [= <-]|].
  destruct (step_of body i p) as [p1|] eqn:E; simpl; [|done]. intros Hr%IH.
  apply step_cost in E. lia.
Qed.

Lemma run_app l1 l2 p : run body (l1 ++ l2) p = run body l1 p ≫= run body l2.
Proof. revert p. induction l1 as [|i l1 IH]; intros p; simpl; [done|]. destruct (step_of body i p); simpl; [apply IH|done]. Qed.

(** A pool that has work left can step, whatever happened before. *)
Lemma pool_progress n p : (0 < n)%nat → pool_ok n p → (0 < cost p)%nat → ∃ i p', step_of body i p = Some p'.
Proof.
  intros Hn (bins & k & Hd & Hk & Hb) Hc. unfold cost in Hc. destruct (crashed p) eqn:Hcr; [lia|].
  set (can := λ w, match w with
    | Idle => negb (bool_decide (length (dispatcher p) = 0%nat)) | Done => false | _ => true end).
  destruct (decide (Exists (λ w, can w = true) (workers p))) as [He|Hno].
  - apply Exists_exists in He as (w & Hw & Hcan). apply list_elem_of_lookup in Hw as [i Hw].
    exists i. unfold step_of. rewrite Hcr, Hw. simpl. destruct w as [|xs|c xs|c xs|]; [|by eexists..|done].
    unfold can in Hcan. by destruct (dispatcher p) as [|[hs|] d]; [|eexists..].
  - exfalso. rewrite <- Forall_Exists_neg, Forall_forall in Hno.
    assert (Hnb : ∀ w, w ∈ workers p → worker_cost w = 0%nat).
    { intros w Hw. specialize (Hno w Hw). by destruct w. }
    assert (Hsum : ∀ l : list worker, (∀ w, w ∈ l → worker_cost w = 0%nat) → sum_list (map worker_cost l) = 0%nat).
    { intros l. induction l as [|w l IH]; intros Hl; simpl; [done|]. rewrite Hl, IH by set_solver. done. }
    rewrite (Hsum _ Hnb) in Hc.
    destruct (dispatcher p) as [|c d] eqn:E; [simpl in Hc; lia|].
    assert (Hk0 : (0 < k)%nat).
    { destruct bins as [|b bins]; [|by rewrite Hb by done]. destruct k; [done|lia]. }
    assert (Hex : ∀ l, (0 < sum_list (map alive l))%nat → ∃ w, w ∈ l ∧ alive w = 1%nat).
    { intros l. induction l as [|w l IH]; simpl; [lia|]. intros Hl.
      destruct w; [eexists; split; [by left|done]..|].
      destruct IH as (w & ? & ?); [done|]. exists w. set_solver. }
    destruct (Hex (workers p)) as (w & Hw & Ha); [lia|]. apply (Hno w Hw). unfold can. by destruct w.
Qed.

Lemma start_pass_ok bins n s : pool_ok n (start_pass bins n s).
Proof. exists bins, n. split_and!; [done| |done]. simpl. by induction n; simpl; [|f_equal]. Qed.

(** All that a pool without cost can be: crashed, or finished. *)
Lemma sent_all_done n p : pool_ok n p → dispatcher p = [] → Forall (eq Done) (workers p).
Proof.
  intros (bins & k & Hd & Hk & _) E. rewrite E in Hd. destruct bins; [|done]. destruct k; [|done].
  generalize dependent (workers p). intros l Hk.
  induction l as [|w l IH]; simpl in *; [done|]. destruct w; simpl in *; [lia..|]. by constructor; [|apply IH].
Qed.

Lemma cost_zero p : cost p = 0%nat → is_Some (ended (Ok tt) p).
Proof.
  unfold cost, ended. destruct (crashed p); [by eexists|].
  destruct (dispatcher p) as [|[hs|] d]; simpl; [by eexists| |lia]. destruct (received hs); simpl; lia.
Qed.

(** Whatever has happened, a pass can be brought to its end. *)
Lemma pool_completes n p : (0 < n)%nat → pool_ok n p →
  ∃ more p', run body more p = Some p' ∧ is_Some (ended (Ok tt) p').
Proof.
  intros Hn. remember (cost p) as c eqn:Hc. revert p Hc.
  induction c as [c IH] using lt_wf_ind. intros p Hc Hok.
  destruct (decide (cost p = 0)%nat) as [Hz|Hnz]; [exists [], p; split; [done|by apply cost_zero]|].
  destruct (pool_progress n p Hn Hok ltac:(lia)) as (i & p1 & H1).
  pose proof (step_cost _ _ _ H1). destruct (crashed p1) as [w|] eqn:Hcr.
  - exists [i], p1. simpl. rewrite H1. simpl. split; [done|]. unfold ended. rewrite Hcr. by eexists.
  - destruct (IH (cost p1) ltac:(lia) p1 eq_refl) as (more & p' & Hr & He); [by eapply step_pool_ok|].
    exists (i :: more), p'. simpl. by rewrite H1.
Qed.

(** A crashed or unfinished pool after a schedule goes on to an end. *)
Lemma run_completes n sched bins s p : (0 < n)%nat → run body sched (start_pass bins n s) = Some p →
  ∃ more p', run body (sched ++ more) (start_pass bins n s) = Some p' ∧ is_Some (ended (Ok tt) p').
Proof.
  intros Hn Hr. destruct (crashed p) as [w|] eqn:Hcr.
  - exists [], p. rewrite app_nil_r. split; [done|]. unfold ended. rewrite Hcr. by eexists.
  - destruct (pool_completes n p Hn) as (more & p' & Hm & He).
    { eapply run_pool_ok; [done..|apply start_pass_ok]. }
    exists more, p'. by rewrite run_app, Hr.
Qed.

(** ** Lemmas: what a pass has done *)

Definition pending (w : worker) : list Raw :=
  match w with Busy xs | Publishing _ xs | Indexing _ xs => xs | _ => [] end.
Definition publishing (w : worker) : list (option Converted) :=
  match w with Publishing c _ => [c] | _ => [] end.
Definition indexing (w : worker) : list (option CIDs) :=
  match w with Indexing c _ => [c] | _ => [] end.
Definition to_send (d : list command) : list (list Z) :=
  omap (λ c, match c with Heights hs => Some hs | Quit => None end) d.

(** Where the payloads of [bins] are in a pool that has not crashed. *)
Record accounts (bins : list (list Z)) (p : pool) : Prop := {
  ac_sent : ∃ handed payloads converted, bins = handed ++ to_send (dispatcher p) ∧
    range_collect received handed = Ok payloads ∧
    concat payloads ≡ₚ converted ++ concat (map pending (workers p)) ∧
    map (λ x, nil_on_error (Convert x)) converted ≡ₚ
      map Ok (published (log p) ++ concat (map publishing (workers p)));
  ac_offered : forwards = true →
    offered (log p) ≡ₚ published (log p) ++ concat (map publishing (workers p));
  ac_indexed : to_index indexes (log p) ≡ₚ indexed (log p) ++ concat (map indexing (workers p))
}.

Record pass_inv (s0 : St) (bins : list (list Z)) (p : pool) : Prop := {
  pi_replay : replay s0 (log p) (store p);
  pi_ordered : ordered indexes forwards (log p);
  pi_accounts : crashed p = None → accounts bins p;
  pi_crashed w : crashed p = Some w → call_panicked bins (log p) w
}.

Lemma published_app l1 l2 : published (l1 ++ l2) = published l1 ++ published l2.
Proof. apply omap_app. Qed.
Lemma offered_app l1 l2 : offered (l1 ++ l2) = offered l1 ++ offered l2.
Proof. apply omap_app. Qed.
Lemma indexed_app l1 l2 : indexed (l1 ++ l2) = indexed l1 ++ indexed l2.
Proof. apply omap_app. Qed.
Lemma to_index_app l1 l2 : to_index indexes (l1 ++ l2) = to_index indexes l1 ++ to_index indexes l2.
Proof. apply omap_app. Qed.

Lemma concat_idle {A} (f : worker → list A) n : f Idle = [] → concat (map f (replicate n Idle)) = [].
Proof. intros Hf. induction n as [|n IH]; simpl; [done|]. by rewrite Hf, IH. Qed.

Lemma to_send_start bins n : to_send (map Heights bins ++ replicate n Quit) = bins.
Proof.
  unfold to_send. rewrite omap_app.
  replace (omap _ (replicate n Quit)) with ([] : list (list Z)) by (induction n; simpl; done).
  rewrite app_nil_r. induction bins as [|b bins IH]; simpl; [done|]. by f_equal.
Qed.

Lemma start_pass_inv s bins n : pass_inv s bins (start_pass bins n s).
Proof.
  split; simpl; try done.
  - intros l1 l2 Hl. symmetry in Hl. apply app_nil in Hl as [-> ->]. done.
  - intros _. split; simpl; [|by rewrite concat_idle..].
    exists [], [], []. by rewrite to_send_start, !concat_idle.
Qed.

(** The next worker's payloads, moved by an insertion. *)
Ltac moved Hi w :=
  pose proof (concat_insert pending _ _ _ w Hi) as Hpend;
  pose proof (concat_insert publishing _ _ _ w Hi) as Hpub;
  pose proof (concat_insert indexing _ _ _ w Hi) as Hidx;
  cbn [pending publishing indexing] in Hpend, Hpub, Hidx; rewrite ?app_nil_r in Hpend; rewrite ?app_nil_r in Hpub; rewrite ?app_nil_r in Hidx.

Lemma step_accounts i bins p p' : step_case i p p' → accounts bins p → crashed p' = None → accounts bins p'.
Proof.
  intros Hc [(handed & pss & conv & Hb & Hr & Hconv & Hpubl) Hoff Hind] Hcr.
  destruct Hc as [hs d ps Hi Hd Hrec|hs d w Hi Hd Hrec|d Hi Hd|Hi|x xs c Hi Hx|x xs w Hi Hx|
    c xs r s' Hi Hp Hnp|c xs w s' Hi Hp|c xs r s' Hi Hp Hnp|c xs w s' Hi Hp]; try done; clear Hcr;
    match goal with |- context [<[i := ?w]> _] => moved Hi w end.
  - split; cbn [log workers dispatcher]; [|intros Hf; rewrite Hpub; by apply Hoff|by rewrite Hidx].
    exists (handed ++ [hs]), (pss ++ [ps]), conv. rewrite Hb, Hd, range_collect_app, Hr. simpl. rewrite Hrec. simpl.
    split_and!; [by rewrite <- app_assoc|done| |by rewrite Hpub].
    by rewrite concat_app, Hconv, Hpend, <- app_assoc; simpl; rewrite app_nil_r.
  - split; cbn [log workers dispatcher]; [|intros Hf; rewrite Hpub; by apply Hoff|by rewrite Hidx].
    exists handed, pss, conv. rewrite Hb, Hd. simpl. split_and!; [done|done|by rewrite Hpend|by rewrite Hpub].
  - split; cbn [log workers dispatcher]; [|intros Hf; rewrite Hpub; by apply Hoff|by rewrite Hidx].
    exists handed, pss, conv. split_and!; [done|done|by rewrite Hpend|by rewrite Hpub].
  - assert (Hno : ∀ l, published (l ++ if forwards then [Offered c] else []) = published l ∧
        indexed (l ++ if forwards then [Offered c] else []) = indexed l ∧
        to_index indexes (l ++ if forwards then [Offered c] else []) = to_index indexes l).
    { intros l. rewrite published_app, indexed_app, to_index_app. destruct forwards; simpl; by rewrite ?app_nil_r. }
    destruct (Hno (log p)) as (N1 & N2 & N3).
    split; cbn [log workers dispatcher]; rewrite ?N1, ?N2, ?N3; [| |by rewrite Hidx].
    + exists handed, pss, (conv ++ [x]). split_and!; [done|done| |].
      * rewrite Hconv, <- app_assoc. apply Permutation_app_head. simpl.
        apply (Permutation_app_inv_r xs). rewrite <- Hpend. simpl. by rewrite <- Permutation_middle.
      * rewrite map_app, Hpubl. simpl. rewrite Hx, Hpub, !map_app, <- app_assoc. done.
    + intros ->. rewrite offered_app, Hoff, Hpub by done. simpl. by rewrite <- app_assoc.
  - assert (Hnx : concat (map pending (<[i:=published_next r xs]> (workers p))) ++ xs ≡ₚ concat (map pending (workers p)) ++ xs ∧
        concat (map publishing (<[i:=published_next r xs]> (workers p))) ++ [c] ≡ₚ concat (map publishing (workers p)) ∧
        concat (map indexing (<[i:=published_next r xs]> (workers p))) ≡ₚ concat (map indexing (workers p)) ++ option_list (indexes r)).
    { unfold published_next in *. destruct (indexes r); simpl in *; rewrite ?app_nil_r in *; done. }
    destruct Hnx as (E1%Permutation_app_inv_r & E2 & E3).
    split; cbn [log workers dispatcher].
    + exists handed, pss, conv. split_and!; [done|done|by rewrite E1|].
      rewrite published_app. simpl. rewrite Hpubl, <- E2, !map_app, <- !app_assoc.
      apply Permutation_app_head. apply Permutation_app_comm.
    + intros Hf. rewrite offered_app, published_app, (Hoff Hf). simpl. rewrite app_nil_r, <- E2, <- app_assoc.
      apply Permutation_app_head, Permutation_app_comm.
    + rewrite to_index_app, indexed_app, Hind. simpl. rewrite app_nil_r, E3, <- app_assoc.
      destruct (indexes r); simpl; done.
  - split; cbn [log workers dispatcher].
    + exists handed, pss, conv. apply Permutation_app_inv_r in Hpend.
      split_and!; [done|done|by rewrite Hpend|]. rewrite published_app. simpl. by rewrite app_nil_r, Hpub.
    + intros Hf. rewrite offered_app, published_app. simpl. by rewrite !app_nil_r, Hpub, Hoff.
    + rewrite to_index_app, indexed_app, Hind. simpl. rewrite app_nil_r, <- Hidx, <- app_assoc.
      apply Permutation_app_head, Permutation_app_comm.
Qed.

Lemma step_ordered i bins p p' : step_case i p p' → accounts bins p →
  ordered indexes forwards (log p) → ordered indexes forwards (log p').
Proof.
  intros Hc [_ Hoff Hind] Ho.
  assert (Hpublish : ∀ c xs, workers p !! i = Some (Publishing c xs) → forwards = true →
      published (log p) ++ [c] ⊆+ offered (log p)).
  { intros c xs Hi Hf. rewrite (Hoff Hf). moved Hi (Busy xs). rewrite <- Hpub.
    apply submseteq_app; [done|]. apply submseteq_inserts_l. done. }
  assert (Hindex : ∀ c xs, workers p !! i = Some (Indexing c xs) →
      indexed (log p) ++ [c] ⊆+ to_index indexes (log p)).
  { intros c xs Hi. rewrite Hind. moved Hi (Busy xs). rewrite <- Hidx.
    apply submseteq_app; [done|]. apply submseteq_inserts_l. done. }
  assert (Hi0 : indexed (log p) ⊆+ to_index indexes (log p)) by (rewrite Hind; apply submseteq_inserts_r; done).
  assert (Hp0 : forwards = true → published (log p) ⊆+ offered (log p))
    by (intros Hf; rewrite (Hoff Hf); apply submseteq_inserts_r; done).
  destruct Hc as [| | | |x xs c Hi Hx| |c xs r s' Hi _ _|c xs w s' Hi _|c xs r s' Hi _ _|c xs w s' Hi _]; cbn [log]; try done.
  - destruct forwards eqn:Hf; [|by rewrite app_nil_r].
    apply ordered_snoc; [done|rewrite indexed_app, to_index_app; simpl; by rewrite !app_nil_r|].
    intros _. rewrite published_app, offered_app. simpl. rewrite app_nil_r. apply submseteq_inserts_r. auto.
  - apply ordered_snoc; [done| |].
    + rewrite indexed_app, to_index_app. simpl. rewrite app_nil_r. by apply submseteq_inserts_r.
    + intros Hf. rewrite published_app, offered_app. simpl. rewrite app_nil_r. eauto.
  - apply ordered_snoc; [done| |].
    + rewrite indexed_app, to_index_app. simpl. rewrite app_nil_r. by apply submseteq_inserts_r.
    + intros Hf. rewrite published_app, offered_app. simpl. rewrite app_nil_r. eauto.
  - apply ordered_snoc; [done| |].
    + rewrite indexed_app, to_index_app. simpl. rewrite app_nil_r. eauto.
    + intros Hf. rewrite published_app, offered_app. simpl. rewrite !app_nil_r. auto.
  - apply ordered_snoc; [done| |].
    + rewrite indexed_app, to_index_app. simpl. rewrite app_nil_r. eauto.
    + intros Hf. rewrite published_app, offered_app. simpl. rewrite !app_nil_r. auto.
Qed.

Lemma collected_in {A B} (f : A → result (list B)) l yss x : range_collect f l = Ok yss → x ∈ concat yss →
  ∃ a ys, a ∈ l ∧ f a = Ok ys ∧ x ∈ ys.
Proof.
  intros Hf%range_collect_Ok. induction Hf as [|a ys l yss Ha _ IH]; simpl; [by intros ?%elem_of_nil|].
  intros [Hx|Hx]%elem_of_app; [exists a, ys; split_and!; [by left|done|done]|].
  destruct (IH Hx) as (a' & ys' & ? & ? & ?). exists a', ys'. split_and!; [by right|done|done].
Qed.

Lemma step_call_panicked i bins p p' w : step_case i p p' → accounts bins p → crashed p' = Some w →
  call_panicked bins (log p') w.
Proof.
  intros Hc [(handed & pss & conv & Hb & Hr & Hconv & _) _ _] Hw.
  destruct Hc as [hs d ps Hi Hd Hrec|hs d w' Hi Hd Hrec|d Hi Hd|Hi|x xs c Hi Hx|x xs w' Hi Hx|
    c xs r s' Hi Hp Hnp|c xs w' s' Hi Hp|c xs r s' Hi Hp Hnp|c xs w' s' Hi Hp]; try done;
    cbn [crashed log] in *; injection Hw as ->.
  - left. exists hs. split; [|done]. rewrite Hb, Hd. simpl. set_solver.
  - right; left. destruct (collected_in _ _ _ x Hr) as (hs & ps & Hhs & Hps & Hin).
    + rewrite Hconv. moved Hi (Busy xs). apply elem_of_app. right.
      apply list_elem_of_lookup_2 in Hi. apply list_elem_of_In, in_concat.
      exists (x :: xs). split; [|by left]. apply list_elem_of_In.
      change (x :: xs) with (pending (Busy (x :: xs))). by apply list_elem_of_fmap_2.
    + exists hs, ps, x. rewrite Hb. split_and!; [set_solver|done..].
  - right; right. by eexists _, _.
  - right; right. by eexists _, _.
Qed.

Lemma step_replay i s0 p p' : step_case i p p' → replay s0 (log p) (store p) → replay s0 (log p') (store p').
Proof.
  intros Hc Hr. destruct Hc as [| | | |x xs c Hi Hx| |c xs r s' _ Hp _|c xs w s' _ Hp|c xs r s' _ Hp _|c xs w s' _ Hp];
    cbn [log store]; try done; apply replay_app; exists (store p); (split; [done|]);
    [by destruct forwards|simpl; by rewrite Hp..].
Qed.

Lemma step_inv s0 bins i p p' : step_of body i p = Some p' → pass_inv s0 bins p → pass_inv s0 bins p'.
Proof.
  intros [Hn Hc]%step_of_cases [Hr Ho Ha _]. specialize (Ha Hn). split.
  - by eapply step_replay.
  - by eapply step_ordered.
  - by eapply step_accounts.
  - intros w. by eapply step_call_panicked.
Qed.

Lemma run_inv s0 bins sched : ∀ p p', run body sched p = Some p' → pass_inv s0 bins p → pass_inv s0 bins p'.
Proof.
  induction sched as [|i sched IH]; intros p p'; simpl; [by intros [= <-]|].
  destruct (step_of body i p) as [p1|] eqn:E; simpl; [|done]. eauto using step_inv.
Qed.

Lemma concat_done {A} (f : worker → list A) l : f Done = [] → Forall (eq Done) l → concat (map f l) = [].
Proof. intros Hf. induction 1 as [|w l <- _ IH]; simpl; [done|]. by rewrite Hf, IH. Qed.

(** What the end of a pass says. *)
Lemma pass_ended bins n sched s p r :
  run body sched (start_pass bins n s) = Some p → ended (Ok tt) p = Some r →
  replay s (log p) (store p) ∧ ordered indexes forwards (log p) ∧
  match r with
  | Ok _ => all_processed indexes bins (log p) ∧ (forwards = true → offered (log p) ≡ₚ published (log p))
  | Err _ => False
  | Panic w => call_panicked bins (log p) w
  end.
Proof.
  intros Hr He. destruct (run_inv s bins _ _ _ Hr (start_pass_inv s bins n)) as [Hrep Hord Hacc Hcr].
  split_and!; [done..|]. unfold ended in He. destruct (crashed p) as [w|] eqn:Hc; [injection He as <-; auto|].
  destruct (dispatcher p) as [|] eqn:Hd; [|done]. injection He as <-.
  pose proof (run_pool_ok n _ _ _ Hr Hc (start_pass_ok bins n s)) as Hok.
  pose proof (sent_all_done n p Hok Hd) as Hdone.
  destruct (Hacc eq_refl) as [(handed & pss & conv & Hb & Hrc & Hconv & Hpub) Hoff Hind].
  rewrite Hd in Hb. simpl in Hb. rewrite app_nil_r in Hb. subst handed.
  rewrite (concat_done pending) in Hconv by done. rewrite (concat_done publishing) in Hpub, Hoff by done.
  rewrite (concat_done indexing) in Hind by done. rewrite app_nil_r in Hconv, Hind. rewrite !app_nil_r in Hpub.
  rewrite app_nil_r in Hoff.
  split; [|done]. exists pss. split_and!; [done|by rewrite <- Hpub, Hconv|done].
Qed.

End Steps.

(** ** Lemmas: the bins *)

Lemma range_bins_spec rngs batch :
  0 < batch → Forall (λ r, 0 ≤ r.1 ∧ 0 ≤ r.2 ∧ r.2 + batch < two64) rngs →
  (range_bins rngs batch).2 = Ok tt ∧ Forall (λ hs, hs ≠ []) (range_bins rngs batch).1 ∧
  concat (range_bins rngs batch).1 = flat_map (λ r, seqZ r.1 (r.2 - r.1 + 1)) rngs.
Proof.
  intros Hb. induction 1 as [|[a b] rngs (H1 & H2 & H3) Hall (IH1 & IH2 & IH3)]; simpl in *; [done|].
  destruct (Z.ltb_spec b a); simpl.
  - by rewrite IH1, IH3, seqZ_nil by lia.
  - destruct (GetBlockHeightBins_bins a b batch) as (bins & -> & Hc & Hne & _); [lia..|].
    destruct (range_bins rngs batch) as [rest err]. simpl in *. split_and!; [done| |].
    + apply Forall_app. split; [|done]. eapply Forall_impl; [exact Hne|]. intros [|]; simpl; [lia|done].
    + by rewrite concat_app, Hc, IH3.
Qed.

Lemma gap_bins_spec gaps batch :
  0 < batch → Forall (λ g, 0 ≤ Heights.Start g ∧ 0 ≤ Heights.Stop g ∧ Heights.Stop g + batch < two64) gaps →
  (gap_bins gaps batch).2 = Ok tt ∧ Forall (λ hs, hs ≠ []) (gap_bins gaps batch).1 ∧
  concat (gap_bins gaps batch).1 =
    flat_map (λ g, seqZ (Heights.Start g) (Heights.Stop g - Heights.Start g + 1)) gaps.
Proof.
  intros Hb. induction 1 as [|[a b] gaps (H1 & H2 & H3) Hall (IH1 & IH2 & IH3)]; simpl in *; [done|].
  destruct (Z.ltb_spec b a) as [Hlt|Hge].
  - assert (HG : ∃ e, GetBlockHeightBins a b batch = Err e).
    { unfold GetBlockHeightBins. rewrite (proj2 (Z.ltb_lt _ _)) by done. by eexists. }
    destruct HG as [e ->]. by rewrite IH1, IH3, (seqZ_nil a) by lia.
  - destruct (GetBlockHeightBins_bins a b batch) as (bins & -> & Hc & Hne & _); [lia..|].
    destruct (gap_bins gaps batch) as [rest err]. simpl in *. split_and!; [done| |].
    + apply Forall_app. split; [|done]. eapply Forall_impl; [exact Hne|]. intros [|]; simpl; [lia|done].
    + by rewrite concat_app, Hc, IH3.
Qed.

(** ** Properties *)

(** C25: resyncing with at least one worker, on ranges that do not come near
    the end of uint64: the bins handed to the workers cover each height of each
    range exactly once, in order.  Whatever the interleaving of the workers'
    fetches, conversions, publishings and indexings, the database is what the
    logged calls made of it, one after the other, and nothing is indexed that
    publishing has not returned before.  When [Resync] returns it returns no
    error, and every payload of every bin was published exactly once (a nil
    payload where the conversion failed), and what each publishing returned
    was indexed exactly once (nil where it failed).  The process ends otherwise
    only by a panic of a fetch, a conversion, a publishing or an indexing of
    that work, after which nothing happens.  Every schedule is bounded by
    the work there is and extends to one of these ends, and to a return if the
    calls do not panic. *)
Theorem Resync_complete rs s s1 :
  (0 < BatchNumber rs)%nat → 0 < BatchSize rs →
  Forall (λ r, 0 ≤ r.1 ∧ 0 ≤ r.2 ∧ r.2 + BatchSize rs < two64) (ranges rs) →
  resync_prepare rs s = (Ok tt, s1) →
  ∃ bins, range_bins (ranges rs) (BatchSize rs) = (bins, Ok tt) ∧
  concat bins = flat_map (λ r, seqZ r.1 (r.2 - r.1 + 1)) (ranges rs) ∧
  (∀ sched r s', Resync rs sched s = Some (r, s') → ∃ l,
     replay s1 l s' ∧ ordered resync_indexes false l ∧
     match r with
     | Ok _ => all_processed resync_indexes bins l
     | Err _ => False
     | Panic w => call_panicked bins l w
     end) ∧
  (∀ sched p, run resync sched (start_pass bins (BatchNumber rs) s1) = Some p →
     (length sched ≤ cost (start_pass bins (BatchNumber rs) s1))%nat ∧
     ∃ more r s', Resync rs (sched ++ more) s = Some (r, s') ∧ (no_panics → r = Ok tt)).
Proof.
  intros Hn Hb Hr Hp. destruct (range_bins_spec _ _ Hb Hr) as (Herr & Hne & Hc).
  destruct (range_bins (ranges rs) (BatchSize rs)) as [bins rb] eqn:Hbins. simpl in *. subst rb.
  assert (HR : ∀ sched, Resync rs sched s =
    p ← run resync sched (start_pass bins (BatchNumber rs) s1); r ← ended (Ok tt) p; Some (r, store p)).
  { intros sched. unfold Resync. by rewrite Hp, Hbins. }
  exists bins. split_and!; [done|done| |].
  - intros sched r s'. rewrite HR. destruct (run _ _ _) as [p|] eqn:E; simpl; [|done].
    destruct (ended _ p) as [r'|] eqn:He; simpl; [|done]. intros [= <- <-].
    destruct (pass_ended resync_body _ _ _ _ _ _ E He) as (Hrep & Hord & Hres).
    exists (log p). split_and!; [done..|]. by destruct r'; [destruct Hres|..].
  - intros sched p Hrun. split; [apply (run_cost resync_body) in Hrun; lia|].
    destruct (run_completes resync_body _ _ _ _ _ Hn Hrun) as (more & p' & Hm & [r He]).
    exists more, r, (store p'). rewrite HR, Hm. simpl. rewrite He. split; [done|].
    intros Hnp. destruct (pass_ended resync_body _ _ _ _ _ _ Hm He) as (Hrep & _ & Hres).
    destruct r as [[]|e|w]; [done..|]. by eapply call_panicked_absurd in Hres.
Qed.

(** C26: a back-filling pass that is not stopped, on gaps that do not come near
    the end of uint64, hands out each height of each gap exactly once, in order.
    Whatever the interleaving, the database is what the logged calls made
    of it, nothing is indexed that publishing has not returned before, and
    no payload is published before it was offered to the serving process.
    When the pass comes to its end, every payload of every bin was offered and
    published exactly once (a nil payload where the conversion failed), and
    exactly the CIDs that publishing returned were indexed; the payloads whose
    publishing failed were not.  The process ends otherwise only by a panic
    of a fetch, a conversion, a publishing or an indexing of that work.  Every
    schedule is bounded and extends to one of these ends, and to the end of the
    pass if the calls do not panic. *)
Theorem BackFill_pass_complete gaps batchSize n s : (0 < n)%nat → 0 < batchSize →
  Forall (λ g, 0 ≤ Heights.Start g ∧ 0 ≤ Heights.Stop g ∧ Heights.Stop g + batchSize < two64) gaps →
  ∃ bins, gap_bins gaps batchSize = (bins, Ok tt) ∧
  concat bins = flat_map (λ g, seqZ (Heights.Start g) (Heights.Stop g - Heights.Start g + 1)) gaps ∧
  (∀ sched r s' forwarded, BackFill_pass gaps batchSize n sched s = Some (r, s', forwarded) → ∃ l,
     replay s l s' ∧ forwarded = offered l ∧ ordered backFill_indexes true l ∧
     match r with
     | Ok _ => all_processed backFill_indexes bins l ∧ forwarded ≡ₚ published l
     | Err _ => False
     | Panic w => call_panicked bins l w
     end) ∧
  (∀ sched p, run backFill sched (start_pass bins n s) = Some p →
     (length sched ≤ cost (start_pass bins n s))%nat ∧
     ∃ more r s' forwarded, BackFill_pass gaps batchSize n (sched ++ more) s = Some (r, s', forwarded) ∧
       (no_panics → r = Ok tt)).
Proof.
  intros Hn Hb Hg. destruct (gap_bins_spec _ _ Hb Hg) as (Herr & Hne & Hc).
  destruct (gap_bins gaps batchSize) as [bins rb] eqn:Hbins. simpl in *. subst rb.
  assert (HR : ∀ sched, BackFill_pass gaps batchSize n sched s =
    p ← run backFill sched (start_pass bins n s); r ← ended (Ok tt) p; Some (r, store p, offered (log p))).
  { intros sched. unfold BackFill_pass. by rewrite Hbins. }
  exists bins. split_and!; [done|done| |].
  - intros sched r s' fw. rewrite HR. destruct (run _ _ _) as [p|] eqn:E; simpl; [|done].
    destruct (ended _ p) as [r'|] eqn:He; simpl; [|done]. intros [= <- <- <-].
    destruct (pass_ended backFill_body _ _ _ _ _ _ E He) as (Hrep & Hord & Hres).
    exists (log p). split_and!; [done..|]. by destruct r'; [destruct Hres; auto|..].
  - intros sched p Hrun. split; [apply (run_cost backFill_body) in Hrun; lia|].
    destruct (run_completes backFill_body _ _ _ _ _ Hn Hrun) as (more & p' & Hm & [r He]).
    exists more, r, (store p'), (offered (log p')). rewrite HR, Hm. simpl. rewrite He. split; [done|].
    intros Hnp. destruct (pass_ended backFill_body _ _ _ _ _ _ Hm He) as (Hrep & _ & Hres).
    destruct r as [[]|e|w]; [done..|]. by eapply call_panicked_absurd in Hres.
Qed.

(** Closing the quit channel releases every idle worker. *)
Lemma workers_see_closed p b n : crashed p = None → workers p = replicate n Idle →
  ∃ ws, Forall (eq Done) ws ∧
    rtc bf_step (mkBF p b true false false)
      (mkBF (mkPool (dispatcher p) ws (store p) (log p) None) b true false false).
Proof.
  intros Hcr Hw. enough (Hk : ∀ k m p, crashed p = None → workers p = replicate m Done ++ replicate k Idle →
    ∃ ws, Forall (eq Done) ws ∧
      rtc bf_step (mkBF p b true false false)
        (mkBF (mkPool (dispatcher p) ws (store p) (log p) None) b true false false)).
  { by apply (Hk n 0%nat). }
  clear. intros k. induction k as [|k IH]; intros m p Hcr Hw.
  - exists (replicate m Done). split; [by apply Forall_replicate|].
    rewrite app_nil_r in Hw. rewrite <- Hw, <- Hcr. by destruct p.
  - destruct (IH (S m) (with_done p m)) as (ws & Hws & Hr); [done| |].
    { simpl. rewrite Hw, insert_app_r_alt by (rewrite length_replicate; lia).
      rewrite length_replicate, Nat.sub_diag. simpl. clear. induction m; simpl; [done|by f_equal]. }
    exists ws. split; [done|]. eapply rtc_l; [|exact Hr].
    apply (bf_worker_sees_closed p m); [done|]. rewrite Hw, lookup_app_r by (rewrite length_replicate; lia).
    by rewrite length_replicate, Nat.sub_diag.
Qed.

(** Only a closed channel makes the dispatcher panic. *)
Lemma open_no_panic st st' : bf_step st st' → closed st' = false → panicked st' = false.
Proof. by destruct 1. Qed.

(** [Stop] races with the pass in progress.  Stopping the service while
    the dispatcher sends its quit signals -- in particular on a pass that found
    no gaps -- can crash it with a send on a closed channel; stopping it after
    the dispatcher has looked at the quit channel can leave it blocked for
    ever, once all workers are gone.  Without [Stop] the dispatcher never
    panics. *)
Theorem BackFill_Stop_races bins n s : (0 < n)%nat →
  (bins = [] → ∃ st, rtc bf_step (bf_start bins n s) st ∧ panicked st = true) ∧
  (bins ≠ [] → ∃ st, rtc bf_step (bf_start bins n s) st ∧
     returned st = false ∧ panicked st = false ∧ crashed (bf_pool st) = None ∧ ∀ st', ¬ bf_step st st') ∧
  (∀ st, rtc bf_step (bf_start bins n s) st → closed st = false → panicked st = false).
Proof.
  intros Hn. split_and!.
  - intros ->. destruct n as [|n]; [lia|]. eexists. split.
    + eapply rtc_l; [by apply bf_Stop|]. by eapply rtc_once, bf_send_on_closed.
    + reflexivity.
  - intros Hb. destruct bins as [|b bins]; [done|].
    destruct (workers_see_closed (start_pass (b :: bins) n s) true n eq_refl eq_refl) as (ws & Hws & Hr).
    eexists. split; [eapply rtc_l; [by eapply bf_check|]; eapply rtc_l; [by apply bf_Stop|exact Hr]|].
    split_and!; [done..|]. intros st' Hst. rewrite Forall_forall in Hws.
    inversion Hst as [| |? ? ? ? ? ? ? Hi|? ? i w ? ? ? Hi Hne Hs|? ? ? ? ? Hi| |? ? ? ? ? Hi|]; subst; simpl in *;
      try done; try (by apply list_elem_of_lookup_2, Hws in Hi).
    pose proof (list_elem_of_lookup_2 _ _ _ Hi) as Hw%Hws. subst w.
    unfold step_of in Hs. simpl in Hs. by rewrite Hi in Hs.
  - intros st [<-|(st1 & _ & Hst)]%rtc_inv_r; [done|]. by eapply open_no_panic.
Qed.

End Pool.

(** ** Witnesses

    A pipeline whose payloads are heights, of which 7 cannot be converted; the
    database is the list of what was indexed. *)

Section Witnesses.

#[local] Instance ex_pipeline : Pipeline := {|
  Raw := Z; Converted := Z; CIDs := Z; St := list Z;
  FetchAt := λ hs, Ok hs;
  Convert := λ x, if x =? 7 then Err (Driver "rlp") else Ok x;
  Publish := λ c s, match c with Some c => (Ok c, s) | None => (Err (Errorf "payload type"), s) end;
  Index := λ c s, match c with Some c => (Ok tt, s ++ [c]) | None => (Err (Errorf "cids type"), s) end
|}.

#[local] Instance ex_cleaner : Cleaner := {|
  ResetValidation := λ _ s, (Ok tt, s);
  Clean := λ _ _ s, (Ok tt, [])
|}.

Definition ex_config : Config := mkConfig 2 2 [(5, 7); (9, 8); (20, 20)] Full true true.

(** Two workers publish 20 and 5 before either of them is indexed, and index 20
    first although the bin of 5 was handed out before. *)
Lemma Resync_complete_witness :
  ∃ bins, concat bins = [5; 6; 7; 20] ∧
  (∃ l, replay ([] : @St ex_pipeline) l [20; 5; 6] ∧ all_processed resync_indexes bins l) ∧
  ∃ more r s', Resync ex_config ([0; 1; 1]%nat ++ more) ([1] : @St ex_pipeline) = Some (r, s').
Proof.
  destruct (Resync_complete ex_config ([1] : @St ex_pipeline) ([] : @St ex_pipeline))
    as (bins & Hbins & H1 & H2 & H3);
    [simpl; lia|simpl; lia|repeat constructor; simpl; rewrite ?two64_val; lia|reflexivity|].
  exists bins. split_and!; [exact H1| |].
  - destruct (H2 [0; 1; 0; 1; 1; 1; 1; 1; 1; 1; 0; 1; 0; 0; 0; 0; 0; 0; 1; 1]%nat (Ok tt) [20; 5; 6])
      as (l & Hl & _ & Hall); [reflexivity|eauto].
  - vm_compute in Hbins. injection Hbins as <-.
    edestruct (H3 [0; 1; 1]%nat) as [_ (more & r & s' & Hm & _)]; [reflexivity|by exists more, r, s'].
Defined.

Lemma BackFill_pass_complete_witness :
  ∃ bins, concat bins = [6; 7] ∧
  ∃ l, replay ([] : @St ex_pipeline) l [6] ∧ [Some 6; None] = offered l ∧ all_processed backFill_indexes bins l.
Proof.
  destruct (BackFill_pass_complete [Heights.mkGap 6 7] 2 1 ([] : @St ex_pipeline)) as (bins & _ & H1 & H2 & _);
    [lia|lia|repeat constructor; simpl; rewrite ?two64_val; lia|].
  exists bins. split; [exact H1|].
  destruct (H2 [0; 0; 0; 0; 0; 0; 0; 0]%nat (Ok tt) [6] [Some 6; None]) as (l & Hl & Hf & _ & Hall & _);
    [reflexivity|eauto].
Defined.

(** A publisher that panics on a nil payload ends the process: of the section
    of 6, 7 and 8 only the first is indexed. *)
Definition panicking : Pipeline :=
  {| Raw := Z; Converted := Z; CIDs := Z; St := list Z;
     FetchAt := @FetchAt ex_pipeline; Convert := @Convert ex_pipeline;
     Publish := λ c s, match c with Some c => (Ok c, s) | None => (Panic "nil payload", s) end;
     Index := @Index ex_pipeline |}.

Example ex_panics_crash :
  @BackFill_pass panicking [Heights.mkGap 6 8] 3 1 [0; 0; 0; 0; 0; 0]%nat ([] : @St panicking) =
    Some (Panic "nil payload", [6], [Some 6; None]).
Proof. reflexivity. Qed.

Lemma BackFill_Stop_races_witness :
  ∃ st, rtc bf_step (bf_start [] 1 ([] : @St ex_pipeline)) st ∧ panicked st = true.
Proof. destruct (BackFill_Stop_races [] 1 ([] : @St ex_pipeline)) as (Hs & _); [lia|by apply Hs]. Defined.

End Witnesses.
