(* ===== verification/SyncLoop.v ===== *)
(** * The syncing process (pkg/super_node/service.go, [Sync] and
    [publishAndIndex])

    One goroutine converts the streamed payloads, offers each to the serving
    process and puts it in a buffered channel used as a ring buffer;
    WorkerPoolSize worker goroutines take payloads from it, publish and index
    them.  Dropping the oldest payload is a receive and then a blocking send,
    between which the workers run; a worker receives, publishes and indexes
    in separate steps, between which the others run, so payloads are not
    stored in the order they were received.  A panic ends the process. *)

From S2P Require Import Prelude WorkerPool.

Section Sync.
Context `{Pipeline}.

(** Where the producing goroutine is: in its [select], or in the default case
    of the ring buffer, before [<-publishAndIndexPayload] or before the send,
    or returned. *)
Inductive producer : Type :=
| Select
| Dropping (payload : Converted)
| Sending (payload : Converted)
| Quitted.

(** Where a worker is: in its [select], before publishing, before indexing, or
    returned. *)
Inductive sync_worker : Type :=
| WIdle
| WPublishing (payload : Converted)
| WIndexing (cidPayload : CIDs)
| WDone.

Record sync_state : Type := mkSync {
  ring : list Converted;                  (* publishAndIndexPayload, oldest first *)
  serving : list Converted;               (* screenAndServePayload, oldest first *)
  prod : producer;
  sync_workers : list sync_worker;
  quit : bool;                            (* QuitChan is closed *)
  arrived : list Converted;               (* every payload converted so far *)
  dropped : list Converted;
  taken : list Converted;                 (* in the order workers received them *)
  history : list event;                   (* the calls of the workers *)
  db : St;
  died : option string                    (* the panic that ended the process *)
}.

(** PayloadChanBufferSize, and the capacity of the serving channel. *)
Variable size serve_size : nat.

(** [case payload := <-sap.PayloadChan] up to the ring buffer's select. *)
Definition sync_payload (payload : Raw) (st : sync_state) : sync_state :=
  match WorkerPool.Convert payload with
  | Ok ipldPayload =>
      let serving := if (length (serving st) <? serve_size)%nat
                     then serving st ++ [ipldPayload] else serving st in
      if (length (ring st) <? size)%nat
      then mkSync (ring st ++ [ipldPayload]) serving Select (sync_workers st) (quit st)
             (arrived st ++ [ipldPayload]) (dropped st) (taken st) (history st) (db st) None
      else mkSync (ring st) serving (Dropping ipldPayload) (sync_workers st) (quit st)
             (arrived st ++ [ipldPayload]) (dropped st) (taken st) (history st) (db st) None
  | Err _ => st
  | Panic why =>
      mkSync (ring st) (serving st) (prod st) (sync_workers st) (quit st) (arrived st) (dropped st)
        (taken st) (history st) (db st) (Some why)
  end.

(** The next step of a worker that has a payload: a publishing error goes on
    with the next payload, an indexing error is logged. *)
Definition publishAndIndex (w : sync_worker) (s : St) : result sync_worker * St * list event :=
  match w with
  | WPublishing payload =>
      let '(r, s) := Publish (Some payload) s in
      (match r with Ok cidPayload => Ok (WIndexing cidPayload) | Err _ => Ok WIdle | Panic why => Panic why end,
       s, [Published (Some payload) r])
  | WIndexing cidPayload =>
      let '(r, s) := Index (Some cidPayload) s in
      (match r with Ok _ | Err _ => Ok WIdle | Panic why => Panic why end, s, [Indexed (Some cidPayload) r])
  | WIdle | WDone => (Ok w, s, [])
  end.

(** That step taken by worker [i]. *)
Definition sync_work (i : nat) (w : sync_worker) (st : sync_state) : sync_state :=
  let '(r, s, did) := publishAndIndex w (db st) in
  mkSync (ring st) (serving st) (prod st)
    (match r with Ok w => <[i := w]> (sync_workers st) | _ => sync_workers st end) (quit st)
    (arrived st) (dropped st) (taken st) (history st ++ did) s
    (match r with Panic why => Some why | _ => None end).

Definition with_prod (p : producer) (st : sync_state) : sync_state :=
  mkSync (ring st) (serving st) p (sync_workers st) (quit st) (arrived st) (dropped st) (taken st)
    (history st) (db st) None.
Definition with_ring (b : list Converted) (st : sync_state) : sync_state :=
  mkSync b (serving st) (prod st) (sync_workers st) (quit st) (arrived st) (dropped st) (taken st)
    (history st) (db st) None.
Definition with_worker (i : nat) (w : sync_worker) (st : sync_state) : sync_state :=
  mkSync (ring st) (serving st) (prod st) (<[i := w]> (sync_workers st)) (quit st) (arrived st) (dropped st)
    (taken st) (history st) (db st) None.

(** The steps of a process that has not ended. *)
Inductive sync_step_of (st : sync_state) : sync_state → Prop :=
| sync_receive payload :
    prod st = Select → sync_step_of st (sync_payload payload st)
| sync_drop x y b :
    prod st = Dropping x → ring st = y :: b →
    sync_step_of st (mkSync b (serving st) (Sending x) (sync_workers st) (quit st) (arrived st)
      (dropped st ++ [y]) (taken st) (history st) (db st) None)
| sync_send x :
    prod st = Sending x → (length (ring st) < size)%nat →
    sync_step_of st (with_prod Select (with_ring (ring st ++ [x]) st))
| sync_take i y b :
    sync_workers st !! i = Some WIdle → ring st = y :: b →
    sync_step_of st (mkSync b (serving st) (prod st) (<[i := WPublishing y]> (sync_workers st)) (quit st)
      (arrived st) (dropped st) (taken st ++ [y]) (history st) (db st) None)
| sync_publish_index i w :
    sync_workers st !! i = Some w → w ≠ WIdle → w ≠ WDone → sync_step_of st (sync_work i w st)
| sync_serve y b :
    serving st = y :: b →
    sync_step_of st (mkSync (ring st) b (prod st) (sync_workers st) (quit st) (arrived st) (dropped st)
      (taken st) (history st) (db st) None)
| sync_Stop :
    sync_step_of st (mkSync (ring st) (serving st) (prod st) (sync_workers st) true (arrived st) (dropped st)
      (taken st) (history st) (db st) None)
| sync_quit : prod st = Select → quit st = true → sync_step_of st (with_prod Quitted st)
| sync_worker_quit i :
    sync_workers st !! i = Some WIdle → quit st = true → sync_step_of st (with_worker i WDone st).

Definition sync_step (st st' : sync_state) : Prop := died st = None ∧ sync_step_of st st'.

(** [Sync] with [n] workers. *)
Definition sync_start (n : nat) (s : St) : sync_state :=
  mkSync [] [] Select (replicate n WIdle) false [] [] [] [] s None.

(** ** Lemmas *)

Definition held (p : producer) : list Converted :=
  match p with Dropping x | Sending x => [x] | Select | Quitted => [] end.

(** What the workers are about to publish and to index. *)
Definition to_publish (w : sync_worker) : list (option Converted) :=
  match w with WPublishing c => [Some c] | _ => [] end.
Definition to_be_indexed (w : sync_worker) : list (option CIDs) :=
  match w with WIndexing c => [Some c] | _ => [] end.
Definition in_work {A} (f : sync_worker → list A) (st : sync_state) : list A := concat (map f (sync_workers st)).

(** The payloads taken are published or about to be, and what was published
    without an error is indexed or about to be. *)
Definition work_accounts (st : sync_state) : Prop :=
  map Some (taken st) ≡ₚ published (history st) ++ in_work to_publish st ∧
  to_index backFill_indexes (history st) ≡ₚ indexed (history st) ++ in_work to_be_indexed st.

(** What ended the process. *)
Definition sync_panicked (st : sync_state) (why : string) : Prop :=
  (∃ payload, WorkerPool.Convert payload = Panic why) ∨
  ∃ l e, history st = l ++ [e] ∧ event_panicked e why.

Record sync_ok (s0 : St) (st : sync_state) : Prop := {
  ok_order : (taken st ++ ring st ++ held (prod st)) `sublist_of` arrived st;
  ok_count : arrived st ≡ₚ dropped st ++ taken st ++ ring st ++ held (prod st);
  ok_ring : (length (ring st) ≤ size)%nat;
  ok_serving : (length (serving st) ≤ serve_size)%nat;
  ok_replay : replay s0 (history st) (db st);
  ok_ordered : ordered backFill_indexes false (history st);
  ok_published : published (history st) ⊆+ map Some (taken st);
  ok_accounts : died st = None → work_accounts st;
  ok_died why : died st = Some why → sync_panicked st why
}.

Lemma in_work_insert {A} (f : sync_worker → list A) st i w w' : sync_workers st !! i = Some w →
  concat (map f (<[i := w']> (sync_workers st))) ++ f w ≡ₚ in_work f st ++ f w'.
Proof. apply concat_insert. Qed.

(** A worker that does not change what it is about to do. *)
Lemma in_work_same {A} (f : sync_worker → list A) st i w w' : sync_workers st !! i = Some w → f w = [] → f w' = [] →
  concat (map f (<[i := w']> (sync_workers st))) ≡ₚ in_work f st.
Proof. intros Hi Hw Hw'. pose proof (in_work_insert f st i w w' Hi) as Hp. by rewrite Hw, Hw', !app_nil_r in Hp. Qed.

Lemma sync_ok_worker s0 st i w : sync_workers st !! i = Some WIdle → to_publish w = [] → to_be_indexed w = [] →
  died st = None → sync_ok s0 st → sync_ok s0 (with_worker i w st).
Proof.
  intros Hi H1 H2 Hn [O1 O2 O3 O4 O5 O6 O7 O8 O9]. split; simpl; try done. intros _.
  destruct (O8 Hn) as [A1 A2]. split; unfold in_work; simpl; rewrite (in_work_same _ _ _ _ _ Hi) by done; done.
Qed.

(** A step of the workers keeps the accounts. *)
Lemma sync_work_ok s0 st i w : sync_workers st !! i = Some w → w ≠ WIdle → w ≠ WDone →
  died st = None → sync_ok s0 st → sync_ok s0 (sync_work i w st).
Proof.
  intros Hi Hw1 Hw2 Hn [O1 O2 O3 O4 O5 O6 O7 O8 O9]. destruct (O8 Hn) as [A1 A2]. clear O8 O9.
  unfold sync_work. destruct w as [|payload|cids|]; [done| | |done]; simpl.
  - destruct (Publish (Some payload) (db st)) as [r s'] eqn:Hp.
    assert (Hin : published (history st) ++ [Some payload] ⊆+ map Some (taken st)).
    { rewrite A1. apply submseteq_app; [done|]. pose proof (in_work_insert to_publish _ _ _ WIdle Hi) as Hpe.
      simpl in Hpe. rewrite app_nil_r in Hpe. rewrite <- Hpe. by apply submseteq_inserts_l. }
    split; simpl; try done.
    + apply replay_app. exists (db st). split; [done|]. simpl. by rewrite Hp.
    + apply ordered_snoc; [done| |done]. rewrite indexed_app, to_index_app, A2. simpl.
      rewrite app_nil_r, <- app_assoc. by apply submseteq_inserts_r.
    + by rewrite published_app.
    + intros Hr. split; simpl; rewrite ?published_app, ?indexed_app, ?to_index_app; simpl; rewrite ?app_nil_r.
      * rewrite A1, <- app_assoc. apply Permutation_app_head.
        destruct r as [c|e|why]; [|..|done]; simpl; unfold in_work; simpl;
          match goal with |- context [<[i := ?w]> _] => pose proof (in_work_insert to_publish _ _ _ w Hi) as Hpe end;
          simpl in Hpe; rewrite app_nil_r in Hpe; unfold in_work in Hpe; rewrite <- Hpe; by rewrite <- Permutation_cons_append.
      * rewrite A2, <- app_assoc. apply Permutation_app_head.
        destruct r as [c|e|why]; [|..|done]; simpl; unfold in_work; simpl;
          match goal with |- context [<[i := ?w]> _] => pose proof (in_work_insert to_be_indexed _ _ _ w Hi) as Hpe end;
          simpl in Hpe; rewrite app_nil_r in Hpe; unfold in_work in Hpe; by rewrite Hpe.
    + intros why Hr. right. exists (history st), (Published (Some payload) r). split; [done|]. destruct r; [done..|simpl; congruence].
  - destruct (Index (Some cids) (db st)) as [r s'] eqn:Hp.
    assert (Hin : indexed (history st) ++ [Some cids] ⊆+ to_index backFill_indexes (history st)).
    { rewrite A2. apply submseteq_app; [done|]. pose proof (in_work_insert to_be_indexed _ _ _ WIdle Hi) as Hpe.
      simpl in Hpe. rewrite app_nil_r in Hpe. rewrite <- Hpe. by apply submseteq_inserts_l. }
    split; simpl; try done.
    + apply replay_app. exists (db st). split; [done|]. simpl. by rewrite Hp.
    + apply ordered_snoc; [done| |done]. rewrite indexed_app, to_index_app. simpl. by rewrite app_nil_r.
    + rewrite published_app. simpl. by rewrite app_nil_r.
    + intros Hr. assert (Hws : match (match r with Ok _ | Err _ => Ok WIdle | Panic why => Panic why end : result sync_worker)
        with Ok w => <[i := w]> (sync_workers st) | _ => sync_workers st end = <[i := WIdle]> (sync_workers st)) by (by destruct r).
      split; unfold in_work; simpl; rewrite Hws, ?published_app, ?indexed_app, ?to_index_app; simpl; rewrite ?app_nil_r.
      * by rewrite (in_work_same to_publish _ _ _ _ Hi) by done.
      * rewrite A2, <- app_assoc. apply Permutation_app_head.
        pose proof (in_work_insert to_be_indexed _ _ _ WIdle Hi) as Hpe. simpl in Hpe. rewrite app_nil_r in Hpe.
        rewrite <- Hpe. by rewrite <- Permutation_cons_append.
    + intros why Hr. right. exists (history st), (Indexed (Some cids) r). split; [done|]. destruct r; [done..|simpl; congruence].
Qed.

Lemma sync_payload_ok s0 st payload : prod st = Select → died st = None → sync_ok s0 st → sync_ok s0 (sync_payload payload st).
Proof.
  intros Hp Hn [O1 O2 O3 O4 O5 O6 O7 O8 O9]. unfold sync_payload.
  destruct (WorkerPool.Convert payload) as [c|e|w] eqn:Hc; [|by split..|].
  - rewrite Hp in *. simpl in *. rewrite app_nil_r in O1, O2.
    assert (Hsv : (length (if (length (serving st) <? serve_size)%nat then serving st ++ [c] else serving st)
      ≤ serve_size)%nat).
    { destruct (Nat.ltb_spec (length (serving st)) serve_size); [|done]. rewrite length_app. simpl. lia. }
    destruct (Nat.ltb_spec (length (ring st)) size); split; simpl; rewrite ?length_app; simpl; try lia; try done; try by auto.
    + rewrite app_nil_r, app_assoc. by apply sublist_app.
    + by rewrite O2, app_nil_r, <- !app_assoc.
    + rewrite app_assoc. by apply sublist_app.
    + by rewrite O2, <- !app_assoc.
  - split; simpl; try done. intros why [= <-]. left. eauto.
Qed.

Lemma sync_step_ok s0 st st' : sync_step st st' → sync_ok s0 st → sync_ok s0 st'.
Proof.
  intros [Hn Hst] Hok. destruct Hst as [p Hp|x y b Hp Hr|x Hp Hl|i y b Hi Hr|i w Hi Hw1 Hw2|y b Hr| |Hp Hq|i Hi Hq];
    [by apply sync_payload_ok| | | |by apply sync_work_ok| | | |by apply sync_ok_worker];
    destruct Hok as [O1 O2 O3 O4 O5 O6 O7 O8 O9]; try specialize (O8 Hn).
  - rewrite Hp, Hr in *. simpl in *. split; simpl; rewrite ?length_app; simpl; try lia; try done.
    + etransitivity; [|exact O1]. apply sublist_app; [done|]. by apply sublist_cons.
    + rewrite O2, <- app_assoc. apply Permutation_app_head. by rewrite <- Permutation_middle.
  - rewrite Hp in *. simpl in *. split; simpl; rewrite ?length_app; simpl; try lia; try done; by rewrite app_nil_r.
  - rewrite Hr in *. simpl in *. split; simpl; rewrite ?length_app; simpl; try lia; try done.
    + by rewrite <- app_assoc.
    + by rewrite O2, <- !app_assoc.
    + rewrite map_app. by apply submseteq_inserts_r.
    + intros _. destruct O8 as [A1 A2]. split; unfold in_work; simpl.
      * pose proof (in_work_insert to_publish _ _ _ (WPublishing y) Hi) as Hpe. simpl in Hpe. rewrite app_nil_r in Hpe.
        by rewrite map_app, Hpe, A1, <- app_assoc.
      * by rewrite (in_work_same _ _ _ _ _ Hi).
  - rewrite Hr in *. simpl in *. split; simpl; try done. lia.
  - by split.
  - rewrite Hp in *. by split.
Qed.

Lemma sync_steps_ok s0 st st' : rtc sync_step st st' → sync_ok s0 st → sync_ok s0 st'.
Proof. induction 1; [done|]. intros. eauto using sync_step_ok. Qed.

Lemma sync_start_ok n s : sync_ok s (sync_start n s).
Proof.
  split; simpl; try done; try lia.
  - intros l1 l2 Hl. symmetry in Hl. apply app_nil in Hl as [-> ->]. done.
  - intros _. split; unfold in_work; simpl.
    + induction n as [|n IH]; simpl; [done|exact IH].
    + induction n as [|n IH]; simpl; [done|exact IH].
Qed.

(** While no worker has taken anything, what arrived is what was dropped, then
    the ring, then the held payload, and dropping only starts on a full ring. *)
Record sync_alone (st : sync_state) : Prop := {
  alone_all : dropped st ++ ring st ++ held (prod st) = arrived st;
  alone_full : match prod st with
               | Select | Quitted => dropped st ≠ [] → length (ring st) = size
               | Dropping _ => length (ring st) = size
               | Sending _ => S (length (ring st)) = size
               end
}.

Lemma sync_step_taken st st' : sync_step st st' → taken st' = [] → taken st = [].
Proof.
  intros [_ Hst]. destruct Hst as [p ?| | |i y b ? ?|i w _ _ _| | | |]; simpl; try done.
  - unfold sync_payload. destruct (WorkerPool.Convert p); [|done..]. by destruct (_ <? _)%nat.
  - by intros [? _]%app_nil.
  - unfold sync_work. by destruct (publishAndIndex w (db st)) as [[[w'|e|why] s'] did].
Qed.

Lemma sync_step_alone st st' : (length (ring st) ≤ size)%nat →
  sync_step st st' → taken st' = [] → sync_alone st → sync_alone st'.
Proof.
  intros Hle [_ Hst] Ht [A1 A2]. destruct Hst as [p Hp|x y b Hp Hr|x Hp Hl|i y b Hi Hr|i w Hi Hw1 Hw2|y b Hr| |Hp Hq|i Hi Hq].
  - unfold sync_payload in *. destruct (WorkerPool.Convert p) as [c|e|w]; [|by split..].
    rewrite Hp in *. simpl in *. rewrite app_nil_r in A1.
    destruct (Nat.ltb_spec (length (ring st)) size); split; simpl; try lia.
    + by rewrite app_nil_r, app_assoc, A1.
    + intros Hd. specialize (A2 Hd). lia.
    + by rewrite app_assoc, A1.
  - rewrite Hp, Hr in *. simpl in *. split; simpl; [|lia]. by rewrite <- app_assoc.
  - rewrite Hp in *. simpl in *. split; simpl; rewrite ?app_nil_r; [done|]. intros _. rewrite length_app. simpl. lia.
  - simpl in Ht. by apply app_nil in Ht as [_ ?].
  - unfold sync_work. destruct (publishAndIndex w (db st)) as [[r s'] did]. by split.
  - by split.
  - by split.
  - rewrite Hp in *. by split.
  - by split.
Qed.

Lemma sync_steps_alone s0 st st' : rtc sync_step st st' → sync_ok s0 st →
  taken st' = [] → sync_alone st → taken st = [] ∧ sync_alone st'.
Proof.
  induction 1 as [st|st1 st2 st3 Hst Hr IH]; intros Hok Ht Ha; [done|].
  assert (Ht2 : taken st2 = []).
  { clear -Hr Ht. induction Hr as [|a b c Hab Hbc IHr]; [done|]. eapply sync_step_taken; eauto. }
  split; [by eapply sync_step_taken|]. apply IH; [by eapply sync_step_ok|done|].
  eapply sync_step_alone; [by destruct Hok|done|done|done].
Qed.

(** Receiving [k] copies of a payload into an empty ring. *)
Lemma fill_ring r x st k : WorkerPool.Convert r = Ok x → prod st = Select → ring st = [] → (k ≤ size)%nat →
  died st = None →
  ∃ st', rtc sync_step st st' ∧ prod st' = Select ∧ ring st' = replicate k x ∧ died st' = None ∧
    sync_workers st' = sync_workers st.
Proof.
  intros Hc Hp Hr. induction k as [|k IH]; intros Hk Hn; [by exists st|].
  destruct IH as (st1 & Hs & Hp1 & Hr1 & Hn1 & Hw1); [lia|done|].
  exists (sync_payload r st1). split; [eapply rtc_r; [done|split; [done|by constructor]]|].
  unfold sync_payload. rewrite Hc, Hr1, length_replicate.
  rewrite (proj2 (Nat.ltb_lt _ _)) by lia. simpl. by rewrite <- replicate_S_end.
Qed.

(** A worker with a payload publishes and indexes it, and is idle again. *)
Lemma work_idle i payload st : (∀ c s, no_panic (Publish c s).1) → (∀ c s, no_panic (Index c s).1) →
  died st = None → sync_workers st !! i = Some (WPublishing payload) →
  ∃ st', rtc sync_step st st' ∧ prod st' = prod st ∧ ring st' = ring st ∧ died st' = None ∧
    sync_workers st' !! i = Some WIdle.
Proof.
  intros HP HI Hn Hi. pose proof (lookup_lt_Some _ _ _ Hi) as Hlt. specialize (HP (Some payload) (db st)).
  assert (H1 : sync_step st (sync_work i (WPublishing payload) st)) by (split; [done|by constructor]).
  unfold sync_work in H1. simpl in H1. destruct (Publish (Some payload) (db st)) as [[cids|e|w] s'] eqn:Hp; [| |done].
  - eexists. split.
    + eapply rtc_l; [exact H1|]. apply rtc_once. split; [done|].
      eapply (sync_publish_index _ i (WIndexing cids)); [simpl; by rewrite list_lookup_insert_eq|done|done].
    + unfold sync_work. simpl. specialize (HI (Some cids) s').
      destruct (Index (Some cids) s') as [[?|?|?] ?]; simpl; rewrite ?list_lookup_insert_eq by (by rewrite length_insert); done.
  - eexists. split; [by apply rtc_once|]. simpl. by rewrite list_lookup_insert_eq.
Qed.

(** An idle worker empties the ring. *)
Lemma drain_ring i st : (∀ c s, no_panic (Publish c s).1) → (∀ c s, no_panic (Index c s).1) →
  died st = None → sync_workers st !! i = Some WIdle →
  ∃ st', rtc sync_step st st' ∧ prod st' = prod st ∧ ring st' = [].
Proof.
  intros HP HI. remember (ring st) as l eqn:Hl. revert st Hl.
  induction l as [|y l IH]; intros st Hl Hn Hi; [by exists st|].
  assert (H1 := sync_take st i y l Hi (eq_sym Hl)).
  match type of H1 with sync_step_of _ ?x => set (st1 := x) in * end.
  assert (Hi1 : sync_workers st1 !! i = Some (WPublishing y)).
  { simpl. rewrite list_lookup_insert_eq; [done|]. by eapply lookup_lt_Some. }
  destruct (work_idle i y st1 HP HI eq_refl Hi1) as (st2 & Hr2 & Hp2 & Hl2 & Hn2 & Hi2).
  destruct (IH st2) as (st3 & Hr3 & Hp3 & Hl3); [by rewrite Hl2|done|done|].
  exists st3. split_and!; [|by rewrite Hp3, Hp2|done].
  eapply rtc_l; [split; [exact Hn|exact H1]|]. by etransitivity.
Qed.

(** ** Properties *)

(** C30: whatever the interleaving of the syncing goroutine, its [n] workers,
    the serving process and [Stop]: workers receive payloads in arrival order
    and none twice -- what they received, then what is in the ring buffer, then
    the payload the producer holds, is a subsequence of the converted payloads
    -- and a payload is either there or was dropped; the buffers never exceed
    their capacity.  The database is what the workers' calls made of it in
    the order they happened, which is not the order of receiving; at every
    moment nothing was indexed that publishing had not returned, only received
    payloads were published, and while the process lives the payloads
    received are those published and those a worker is about to publish, and
    the CIDs returned are those indexed and those a worker is about to index.
    Only a panic of a conversion, or of the last call, ends the process. *)
Theorem ring_order n s st : rtc sync_step (sync_start n s) st →
  (taken st ++ ring st ++ held (prod st)) `sublist_of` arrived st ∧
  arrived st ≡ₚ dropped st ++ taken st ++ ring st ++ held (prod st) ∧
  (length (ring st) ≤ size)%nat ∧ (length (serving st) ≤ serve_size)%nat ∧
  replay s (history st) (db st) ∧
  ordered backFill_indexes false (history st) ∧
  published (history st) ⊆+ map Some (taken st) ∧
  match died st with
  | None =>
      map Some (taken st) ≡ₚ published (history st) ++ in_work to_publish st ∧
      to_index backFill_indexes (history st) ≡ₚ indexed (history st) ++ in_work to_be_indexed st
  | Some why => sync_panicked st why
  end.
Proof.
  intros Hr. eapply sync_steps_ok in Hr; [|apply sync_start_ok]. destruct Hr as [O1 O2 O3 O4 O5 O6 O7 O8 O9].
  split_and!; [done..|]. destruct (died st) as [why|]; [by apply O9|by apply O8].
Qed.

(** While the workers are busy the ring buffer keeps the latest payloads:
    between two payloads it holds the last [size] that arrived, in order. *)
Theorem ring_keeps_latest n s st : rtc sync_step (sync_start n s) st → taken st = [] → prod st = Select →
  ring st = drop (length (arrived st) - size) (arrived st).
Proof.
  intros Hr Ht Hp. pose proof (sync_start_ok n s) as H0.
  pose proof (ok_ring _ _ (sync_steps_ok _ _ _ Hr H0)) as Hle.
  destruct (sync_steps_alone s _ _ Hr H0 Ht) as [_ [A1 A2]]; [by split; simpl; [|intros []]|].
  rewrite Hp in *. simpl in *. rewrite app_nil_r in A1. rewrite <- A1, length_app.
  destruct (dropped st) as [|y d] eqn:Hd.
  - simpl. replace (_ - size)%nat with 0%nat by lia. done.
  - rewrite A2 by done. replace (_ - size)%nat with (length (y :: d)) by lia. by rewrite drop_app_length.
Qed.

(** Dropping the oldest payload can block the syncing process for ever:
    when the workers empty the ring between the failed send and the receive,
    the producer waits for a payload only it could send, and it no longer
    looks at the stream or at the quit channel. *)
Theorem ring_can_block n s r x : (0 < n)%nat → WorkerPool.Convert r = Ok x →
  (∀ c s, no_panic (Publish c s).1) → (∀ c s, no_panic (Index c s).1) →
  ∃ st, rtc sync_step (sync_start n s) st ∧ prod st = Dropping x ∧
    ∀ st', rtc sync_step st st' → prod st' = Dropping x ∧ ring st' = [] ∧ arrived st' = arrived st.
Proof.
  intros Hpos Hc HP HI.
  destruct (fill_ring r x (sync_start n s) size) as (st1 & H1 & Hp1 & Hr1 & Hn1 & Hw1); [done..|].
  assert (Hp : prod (sync_payload r st1) = Dropping x ∧ died (sync_payload r st1) = None ∧
    sync_workers (sync_payload r st1) = replicate n WIdle).
  { unfold sync_payload. by rewrite Hc, Hr1, length_replicate, Nat.ltb_irrefl. }
  destruct Hp as (Hp & Hn & Hw).
  destruct (drain_ring 0 (sync_payload r st1) HP HI Hn) as (st & H2 & Hp2 & Hr2); [rewrite Hw; by destruct n; [lia|]|].
  exists st. rewrite Hp in Hp2. split_and!; [|done|].
  { etransitivity; [exact H1|]. eapply rtc_l; [split; [done|by constructor]|exact H2]. }
  clear H2. intros st' Hr. induction Hr as [|a b c Hab _ IH]; [done|].
  assert (Hb : prod b = Dropping x ∧ ring b = [] ∧ arrived b = arrived a).
  { destruct Hab as [_ Hab]. destruct Hab as [| | | |i w _ _ _| | | |]; simpl in *; try congruence; try done.
    unfold sync_work. by destruct (publishAndIndex w (db a)) as [[[w'|e|why] s'] did]. }
  destruct Hb as (B1 & B2 & B3). rewrite <- B3. by apply IH.
Qed.

End Sync.

(** ** Witnesses *)

Section Witnesses.
#[local] Existing Instance ex_pipeline.

(** Step from the state of the goal by a rule. *)
Ltac ex_step f :=
  split; [done|];
  match goal with
  | |- sync_step_of _ _ ?st _ => let rule := eval cbv beta in (f st) in apply rule; first [done | simpl; lia]
  end.

(** A ring of one payload: 1 arrives, then 2, which replaces it. *)
Definition ex_ring (ring : list Z) (p : producer) (arrived dropped : list Z) : sync_state :=
  mkSync (ring : list Converted) [] p [WIdle; WIdle] false (arrived : list Converted) (dropped : list Converted) []
    [] ([] : @St ex_pipeline) None.

Lemma ex_ring_steps : rtc (sync_step 1 0) (sync_start 2 ([] : @St ex_pipeline)) (ex_ring [2] Select [1; 2] [1]).
Proof.
  eapply (rtc_l _ _ (ex_ring [1] Select [1] [])); [ex_step (λ st, sync_receive 1 0 st (1 : @Raw ex_pipeline))|].
  eapply (rtc_l _ _ (ex_ring [1] (Dropping (2 : @Converted ex_pipeline)) [1; 2] []));
    [ex_step (λ st, sync_receive 1 0 st (2 : @Raw ex_pipeline))|].
  eapply (rtc_l _ _ (ex_ring [] (Sending (2 : @Converted ex_pipeline)) [1; 2] [1]));
    [ex_step (λ st, sync_drop 1 0 st (2 : @Converted ex_pipeline) (1 : @Converted ex_pipeline))|].
  apply rtc_once. ex_step (λ st, sync_send 1 0 st (2 : @Converted ex_pipeline)).
Qed.

(** Two workers store 1 and 2 in the other order than they received them. *)
Definition ex_work (ring : list Z) (arrived taken : list Z) (ws : list sync_worker) (l : list event) (s : list Z) : sync_state :=
  mkSync (ring : list Converted) [] Select ws false (arrived : list Converted) [] (taken : list Converted)
    l (s : @St ex_pipeline) None.

Definition ex_published (x : Z) : event :=
  Published (Some (x : @Converted ex_pipeline)) (Ok (x : @CIDs ex_pipeline)).
Definition ex_indexed (x : Z) : event := Indexed (Some (x : @CIDs ex_pipeline)) (Ok tt).

Lemma ex_work_steps :
  rtc (sync_step 2 0) (sync_start 2 ([] : @St ex_pipeline))
    (ex_work [] [1; 2] [1; 2] [WIdle; WIdle]
       [ex_published 2; ex_published 1; ex_indexed 2; ex_indexed 1] [2; 1]).
Proof.
  set (W1 := WPublishing (1 : @Converted ex_pipeline)). set (W2 := WPublishing (2 : @Converted ex_pipeline)).
  set (I1 := WIndexing (1 : @CIDs ex_pipeline)). set (I2 := WIndexing (2 : @CIDs ex_pipeline)).
  eapply (rtc_l _ _ (ex_work [1] [1] [] [WIdle; WIdle] [] []));
    [ex_step (λ st, sync_receive 2 0 st (1 : @Raw ex_pipeline))|].
  eapply (rtc_l _ _ (ex_work [1; 2] [1; 2] [] [WIdle; WIdle] [] []));
    [ex_step (λ st, sync_receive 2 0 st (2 : @Raw ex_pipeline))|].
  eapply (rtc_l _ _ (ex_work [2] [1; 2] [1] [W1; WIdle] [] [])); [ex_step (λ st, sync_take 2 0 st 0)|].
  eapply (rtc_l _ _ (ex_work [] [1; 2] [1; 2] [W1; W2] [] [])); [ex_step (λ st, sync_take 2 0 st 1)|].
  eapply (rtc_l _ _ (ex_work [] [1; 2] [1; 2] [W1; I2] [ex_published 2] []));
    [ex_step (λ st, sync_publish_index 2 0 st 1 W2)|].
  eapply (rtc_l _ _ (ex_work [] [1; 2] [1; 2] [I1; I2] [ex_published 2; ex_published 1] []));
    [ex_step (λ st, sync_publish_index 2 0 st 0 W1)|].
  eapply (rtc_l _ _ (ex_work [] [1; 2] [1; 2] [I1; WIdle] [ex_published 2; ex_published 1; ex_indexed 2] [2]));
    [ex_step (λ st, sync_publish_index 2 0 st 1 I2)|].
  apply rtc_once. ex_step (λ st, sync_publish_index 2 0 st 0 I1).
Qed.

Lemma ring_order_witness :
  ([1; 2] : list Z) `sublist_of` [1; 2] ∧
  replay ([] : @St ex_pipeline) [ex_published 2; ex_published 1; ex_indexed 2; ex_indexed 1] [2; 1].
Proof.
  destruct (ring_order 2 0 2 ([] : @St ex_pipeline) _ ex_work_steps) as (Hs & _ & _ & _ & Hr & _).
  split; [exact Hs|exact Hr].
Defined.

Lemma ring_keeps_latest_witness :
  ring (ex_ring [2] Select [1; 2] [1]) = drop (2 - 1) [1; 2].
Proof. apply (ring_keeps_latest 1 0 2 ([] : @St ex_pipeline) _ ex_ring_steps); reflexivity. Defined.

Lemma ring_can_block_witness :
  ∃ st, rtc (sync_step 2000 2000) (sync_start 1 ([] : @St ex_pipeline)) st ∧ prod st = Dropping (3 : @Converted ex_pipeline) ∧
    ∀ st', rtc (sync_step 2000 2000) st st' →
      prod st' = Dropping (3 : @Converted ex_pipeline) ∧ ring st' = [] ∧ arrived st' = arrived st.
Proof.
  apply (ring_can_block 2000 2000 1 ([] : @St ex_pipeline) (3 : @Raw ex_pipeline) (3 : @Converted ex_pipeline));
    [lia|reflexivity|by intros [] ?|by intros [] ?].
Defined.

End Witnesses.
