(* ===== verification/NodeSetup.v ===== *)
(** * Setting up the super node (pkg/super_node/config.go, constructors.go,
    NewSuperNode of service.go, NewBackFillService of backfiller.go,
    resync/config.go, NewResyncService of resync/service.go, shared/env.go,
    pkg/config/database.go, pkg/postgres/postgres.go)

    From the settings to the configuration, and from the configuration to the
    services and the implementations they are wired with.  A database handle is
    its settings and the id of its node; an implementation is the constructor it
    was built with. *)

From S2P Require Import Prelude GoInt Heights ChainTypes Geth EthModel Sql.

(** ** The environment *)

(** A value of the configuration file, as [viper.Get] returns it. *)
Inductive setting : Type := STable | SList | SScalar | SBytes (l : list Z) | SInt64s (l : list Z).

Record Node : Type := mkNode_ {
  node_ID : string;
  node_ClientName : string;
  node_GenesisBlock : string;
  node_NetworkID : string
}.

Definition Node_zero : Node := mkNode_ "" "" "" "".

(** config.Database *)
Record Database : Type := mkDatabase {
  Hostname : string;
  Name : string;
  User : string;
  Password : string;
  Port : Z;
  MaxIdle : Z;
  MaxOpen : Z;
  MaxLifetime : Z
}.

(** rpcclient.ConnConfig *)
Record ConnConfig : Type := mkConn { Host : string; Pass : string; ConnUser : string }.

(** viper, the file system, and what connects to the outside: an Ethereum node,
    a Bitcoin node, Postgres, an IPFS repository. *)
Class Environment := {
  GetString : string → string;
  GetStringSlice : string → list string;
  GetBool : string → bool;
  GetInt : string → Z;
  GetInt64 : string → Z;
  Get : string → option setting;
  UserHomeDir : result string;
  Join : string → string → string;
  rpc_Dial : string → result unit;
  rpcclient_New : ConnConfig → result unit;
  sqlx_Connect : string → result unit;
  InitIPFSNode : string → result unit;
  InitIPFSBlockService : string → result unit
}.

(** int settings are 64-bit. *)
Class EnvironmentLaws `{Environment} := {
  GetInt_range : ∀ k, is_i64 (GetInt k);
  GetInt64_range : ∀ k, is_i64 (GetInt64 k)
}.

(** ** The nodes table and database handles *)

Record node_row : Type := mkNodeRow { nr_ID : Z; nr_Node : Node }.

(** postgres.DB *)
Record PgDB : Type := mkPgDB { pg_Settings : Database; pg_Node : Node; pg_NodeID : Z }.

Definition node_key (n : Node) : string * string * string := (node_GenesisBlock n, node_NetworkID n, node_ID n).

(** [INSERT INTO nodes ... ON CONFLICT (genesis_block, network_id, node_id) DO
    UPDATE ... RETURNING id] *)
Definition CreateNode (node : Node) : DB (list node_row) Z :=
  exec_auto (λ rows q,
    let '(id, rows, q) := upsert_rows "nodes" (λ r, bool_decide (node_key (nr_Node r) = node_key node))
      (λ id, mkNodeRow id node) (λ r, mkNodeRow (nr_ID r) node) nr_ID rows q in
    (id, rows, q)).

Definition DbConnectionString (dbConfig : Database) : string :=
  let address := Hostname dbConfig +:+ ":" +:+ pretty (Port dbConfig) +:+ "/" +:+ Name dbConfig +:+ "?sslmode=disable" in
  if bool_decide (User dbConfig = "") then "postgresql://" +:+ address
  else if bool_decide (Password dbConfig = "") then "postgresql://" +:+ User dbConfig +:+ "@" +:+ address
  else "postgresql://" +:+ User dbConfig +:+ ":" +:+ Password dbConfig +:+ "@" +:+ address.

Section Setup.
Context `{Environment}.

Definition NewDB (databaseConfig : Database) (node : Node) : DB (list node_row) PgDB :=
  db_lift (sqlx_Connect (DbConnectionString databaseConfig)) ;;;
  id <-- CreateNode node ;;
  db_ret (mkPgDB databaseConfig node id).

(** utils.LoadPostgres: an error ends the process. *)
Definition LoadPostgres (database : Database) (node : Node) : DB (list node_row) PgDB :=
  NewDB database node.

(** ** Settings *)

Definition Database_Init : Database := {|
  Name := GetString "database.name"; Hostname := GetString "database.hostname"; Port := GetInt "database.port";
  User := GetString "database.user"; Password := GetString "database.password";
  MaxIdle := GetInt "database.maxIdle"; MaxOpen := GetInt "database.maxOpen";
  MaxLifetime := GetInt "database.maxLifetime" |}.

Inductive mode : Type := Sync | BackFill | Serve.

Definition with_pool (con : Database) (idle open lifetime : Z) : Database :=
  mkDatabase (Hostname con) (Name con) (User con) (Password con) (Port con) idle open lifetime.

Definition overrideDBConnConfig (con : Database) (m : mode) : Database :=
  match m with
  | Sync => with_pool con (GetInt "database.sync.maxIdle") (GetInt "database.sync.maxOpen")
      (GetInt "database.sync.maxLifetime")
  | BackFill => with_pool con (GetInt "database.backFill.maxIdle") (GetInt "database.backFill.maxOpen")
      (GetInt "database.backFill.maxLifetime")
  | Serve => with_pool con (GetInt "database.server.maxIdle") (GetInt "database.server.maxOpen")
      (GetInt "database.server.maxLifetime")
  end.

(** A client: the [interface{}] of the configuration, nil when it was not set. *)
Inductive Client : Type := NilClient | EthClient (url : string) | BtcClient (c : ConnConfig).

Definition GetEthNodeAndClient (path : string) : result (Node * Client) :=
  _ <-! rpc_Dial path ;;
  Ok ({| node_ID := GetString "ethereum.nodeID"; node_ClientName := GetString "ethereum.clientName";
         node_GenesisBlock := GetString "ethereum.genesisBlock"; node_NetworkID := GetString "ethereum.networkID" |},
      EthClient path).

Definition GetBtcNodeAndClient (path : string) : Node * Client :=
  ({| node_ID := GetString "bitcoin.nodeID"; node_ClientName := GetString "bitcoin.clientName";
      node_GenesisBlock := GetString "bitcoin.genesisBlock"; node_NetworkID := GetString "bitcoin.networkID" |},
   BtcClient (mkConn path (GetString "bitcoin.pass") (GetString "bitcoin.user"))).

(** The [switch c.Chain] of the configurations: a chain without a case leaves
    the fields as they were. *)
Definition node_and_client (chain : ChainType) (ethPrefix ethPath btcPath : string) (old : Node * Client)
    : result (Node * Client) :=
  match chain with
  | Ethereum => GetEthNodeAndClient (ethPrefix +:+ GetString ethPath)
  | Bitcoin => Ok (GetBtcNodeAndClient (GetString btcPath))
  | _ => Ok old
  end.

Definition GetIPFSPath : result string :=
  let ipfsPath := GetString "ipfs.path" in
  if bool_decide (ipfsPath = "") then home <-! UserHomeDir ;; Ok (Join home ".ipfs") else Ok ipfsPath.

(** A pair of a value and an error. *)
Definition checked {A} (r : A * option error) : result A :=
  match r.2 with None => Ok r.1 | Some e => Err e end.

Definition ipfs_mode_and_path : result (IPFSMode * string) :=
  m <-! checked (ChainTypes.GetIPFSMode (GetString "ipfs.mode")) ;;
  match m with
  | LocalInterface | RemoteClient => p <-! GetIPFSPath ;; Ok (m, p)
  | _ => Ok (m, "")
  end.

(** [time.Second * time.Duration(n)], in nanoseconds. *)
Definition seconds (n : Z) : Z := i64 (1000000000 * n).

(** ** config.go *)

Record Config : Type := mkConfig {
  cf_Chain : ChainType;
  cf_IPFSPath : string;
  cf_IPFSMode : IPFSMode;
  cf_DBConfig : Database;
  cf_Serve : bool;
  cf_ServeDBConn : option PgDB;
  cf_WSEndpoint : string;
  cf_HTTPEndpoint : string;
  cf_IPCEndpoint : string;
  cf_Sync : bool;
  cf_SyncDBConn : option PgDB;
  cf_Workers : Z;
  cf_WSClient : Client;
  cf_NodeInfo : Node;
  cf_BackFill : bool;
  cf_BackFillDBConn : option PgDB;
  cf_HTTPClient : Client;
  cf_Frequency : Z;
  cf_BatchSize : Z;
  cf_BatchNumber : Z;
  cf_ValidationLevel : Z;
  cf_Timeout : Z
}.

(** The sync fields: workers, node, client and connection. *)
Definition sync_fields (chain : ChainType) (dbConfig : Database) : DB (list node_row) (Z * (Node * Client) * option PgDB) :=
  if GetBool "superNode.sync" then
    let workers := GetInt "superNode.workers" in
    let workers := if workers <? 1 then 1 else workers in
    nc <-- db_lift (node_and_client chain "ws://" "ethereum.wsPath" "bitcoin.wsPath" (Node_zero, NilClient)) ;;
    syncDB <-- LoadPostgres (overrideDBConnConfig dbConfig Sync) nc.1 ;;
    db_ret (workers, nc, Some syncDB)
  else db_ret (0, (Node_zero, NilClient), None).

Definition or_default (s d : string) : string := if bool_decide (s = "") then d else s.

(** The server fields: endpoints and connection. *)
Definition serve_fields (dbConfig : Database) (node : Node) : DB (list node_row) (string * string * string * option PgDB) :=
  if GetBool "superNode.server" then
    let wsPath := or_default (GetString "superNode.wsPath") "127.0.0.1:8080" in
    ipcPath <-- db_lift (
      let ipcPath := GetString "superNode.ipcPath" in
      if bool_decide (ipcPath = "") then home <-! UserHomeDir ;; Ok (Join home ".vulcanize/vulcanize.ipc") else Ok ipcPath) ;;
    let httpPath := or_default (GetString "superNode.httpPath") "127.0.0.1:8081" in
    serveDB <-- LoadPostgres (overrideDBConnConfig dbConfig Serve) node ;;
    db_ret (wsPath, ipcPath, httpPath, Some serveDB)
  else db_ret ("", "", "", None).

Definition BackFillFields (c : Config) : DB (list node_row) Config :=
  let timeout := GetInt "superNode.timeout" in
  let timeout := if timeout <? 15 then 15 else timeout in
  nc <-- db_lift (node_and_client (cf_Chain c) "http://" "ethereum.httpPath" "bitcoin.httpPath"
                    (cf_NodeInfo c, cf_HTTPClient c)) ;;
  let freq := GetInt "superNode.frequency" in
  let frequency := if freq <=? 0 then seconds 30 else seconds freq in
  backFillDB <-- LoadPostgres (overrideDBConnConfig (cf_DBConfig c) BackFill) nc.1 ;;
  db_ret {|
    cf_Chain := cf_Chain c; cf_IPFSPath := cf_IPFSPath c; cf_IPFSMode := cf_IPFSMode c; cf_DBConfig := cf_DBConfig c;
    cf_Serve := cf_Serve c; cf_ServeDBConn := cf_ServeDBConn c; cf_WSEndpoint := cf_WSEndpoint c;
    cf_HTTPEndpoint := cf_HTTPEndpoint c; cf_IPCEndpoint := cf_IPCEndpoint c;
    cf_Sync := cf_Sync c; cf_SyncDBConn := cf_SyncDBConn c; cf_Workers := cf_Workers c; cf_WSClient := cf_WSClient c;
    cf_NodeInfo := nc.1; cf_BackFill := cf_BackFill c; cf_BackFillDBConn := Some backFillDB; cf_HTTPClient := nc.2;
    cf_Frequency := frequency; cf_BatchSize := u64 (GetInt64 "superNode.batchSize");
    cf_BatchNumber := u64 (GetInt64 "superNode.batchNumber");
    cf_ValidationLevel := GetInt "superNode.validationLevel"; cf_Timeout := seconds timeout |}.

Definition NewSuperNodeConfig : DB (list node_row) Config :=
  chain <-- db_lift (checked (NewChainType (GetString "superNode.chain"))) ;;
  mp <-- db_lift ipfs_mode_and_path ;;
  let dbConfig := Database_Init in
  sf <-- sync_fields chain dbConfig ;;
  let '(workers, nc, syncDB) := sf in
  vf <-- serve_fields dbConfig nc.1 ;;
  let '(ws, ipc, http, serveDB) := vf in
  let c := {|
    cf_Chain := chain; cf_IPFSPath := mp.2; cf_IPFSMode := mp.1; cf_DBConfig := dbConfig;
    cf_Serve := GetBool "superNode.server"; cf_ServeDBConn := serveDB; cf_WSEndpoint := ws; cf_HTTPEndpoint := http;
    cf_IPCEndpoint := ipc; cf_Sync := GetBool "superNode.sync"; cf_SyncDBConn := syncDB; cf_Workers := workers;
    cf_WSClient := nc.2; cf_NodeInfo := nc.1; cf_BackFill := GetBool "superNode.backFill"; cf_BackFillDBConn := None;
    cf_HTTPClient := NilClient; cf_Frequency := 0; cf_BatchSize := 0; cf_BatchNumber := 0; cf_ValidationLevel := 0;
    cf_Timeout := 0 |} in
  if GetBool "superNode.backFill" then BackFillFields c else db_ret c.

(** ** constructors.go *)

(** The package an implementation is from. *)
Inductive package : Type := eth | btc.

Inductive ResponseFilterer : Type := mkResponseFilterer (p : package).
Inductive CIDIndexer : Type :=
| IndexesCIDs (p : package) (db : option PgDB)
| IndexesOnPublish (p : package) (db : option PgDB).
Inductive CIDRetriever : Type := mkCIDRetriever (p : package) (db : option PgDB).
Inductive PayloadStreamer : Type := eth_Streamer (client : string) | btc_HTTPStreamer (c : ConnConfig).
Inductive PayloadFetcher : Type := eth_Fetcher (client : string) (timeout : Z) | btc_Fetcher (c : ConnConfig).
Inductive PayloadConverter : Type := mkPayloadConverter (p : package).
Inductive IPLDFetcher : Type := FetchesFromIPFS (p : package) (path : string) | FetchesFromPg (p : package) (db : option PgDB).
Inductive IPLDPublisher : Type :=
| PublishesToIPFS (p : package) (path : string)
| PublishesAndIndexes (p : package) (db : option PgDB).
Inductive Cleaner : Type := mkCleaner (p : package) (db : option PgDB).

(** The [default] of a switch. *)
Definition invalid {A} (what : string) : result A := Err (Errorf what).

Definition NewResponseFilterer (chain : ChainType) : result ResponseFilterer :=
  match chain with
  | Ethereum => Ok (mkResponseFilterer eth)
  | Bitcoin => Ok (mkResponseFilterer btc)
  | _ => invalid "invalid chain for filterer constructor"
  end.

Definition NewCIDIndexer (chain : ChainType) (db : option PgDB) (ipfsMode : IPFSMode) : result CIDIndexer :=
  match chain with
  | Ethereum =>
      match ipfsMode with
      | LocalInterface | RemoteClient => Ok (IndexesCIDs eth db)
      | DirectPostgres => Ok (IndexesOnPublish eth db)
      | UnknownMode => invalid "ethereum CIDIndexer unexpected ipfs mode"
      end
  | Bitcoin =>
      match ipfsMode with
      | LocalInterface | RemoteClient => Ok (IndexesCIDs btc db)
      | DirectPostgres => Ok (IndexesOnPublish eth db)
      | UnknownMode => invalid "bitcoin CIDIndexer unexpected ipfs mode"
      end
  | _ => invalid "invalid chain for indexer constructor"
  end.

Definition NewCIDRetriever (chain : ChainType) (db : option PgDB) : result CIDRetriever :=
  match chain with
  | Ethereum => Ok (mkCIDRetriever eth db)
  | Bitcoin => Ok (mkCIDRetriever btc db)
  | _ => invalid "invalid chain for retriever constructor"
  end.

(** The buffer of eth's and btc's payload channels. *)
Definition PayloadChanBufferSize : Z := 20000.

Definition NewPayloadStreamer (chain : ChainType) (clientOrConfig : Client) : result (PayloadStreamer * Z) :=
  match chain with
  | Ethereum =>
      match clientOrConfig with
      | EthClient url => Ok (eth_Streamer url, PayloadChanBufferSize)
      | _ => invalid "ethereum payload streamer constructor: client type"
      end
  | Bitcoin =>
      match clientOrConfig with
      | BtcClient c => Ok (btc_HTTPStreamer c, PayloadChanBufferSize)
      | _ => invalid "bitcoin payload streamer constructor: client config type"
      end
  | _ => invalid "invalid chain for streamer constructor"
  end.

Definition NewPaylaodFetcher (chain : ChainType) (client : Client) (timeout : Z) : result PayloadFetcher :=
  match chain with
  | Ethereum =>
      match client with
      | EthClient url => Ok (eth_Fetcher url timeout)
      | _ => invalid "ethereum payload fetcher constructor: client type"
      end
  | Bitcoin =>
      match client with
      | BtcClient c => _ <-! rpcclient_New c ;; Ok (btc_Fetcher c)
      | _ => invalid "bitcoin payload fetcher constructor: client type"
      end
  | _ => invalid "invalid chain for payload fetcher constructor"
  end.

Definition NewPayloadConverter (chain : ChainType) : result PayloadConverter :=
  match chain with
  | Ethereum => Ok (mkPayloadConverter eth)
  | Bitcoin => Ok (mkPayloadConverter btc)
  | _ => invalid "invalid chain for converter constructor"
  end.

(** The constructors over an IPFS repository; over Postgres, they cannot fail. *)
Definition new_ipfs_fetcher (p : package) (path : string) : result IPLDFetcher :=
  _ <-! InitIPFSBlockService path ;; Ok (FetchesFromIPFS p path).
Definition new_ipfs_publisher (p : package) (path : string) : result IPLDPublisher :=
  _ <-! InitIPFSNode path ;; Ok (PublishesToIPFS p path).

Definition NewIPLDFetcher (chain : ChainType) (ipfsPath : string) (db : option PgDB) (ipfsMode : IPFSMode)
    : result IPLDFetcher :=
  match chain with
  | Ethereum =>
      match ipfsMode with
      | LocalInterface | RemoteClient => new_ipfs_fetcher eth ipfsPath
      | DirectPostgres => Ok (FetchesFromPg eth db)
      | UnknownMode => invalid "ethereum IPLDFetcher unexpected ipfs mode"
      end
  | Bitcoin =>
      match ipfsMode with
      | LocalInterface | RemoteClient => new_ipfs_fetcher btc ipfsPath
      | DirectPostgres => Ok (FetchesFromPg btc db)
      | UnknownMode => invalid "bitcoin IPLDFetcher unexpected ipfs mode"
      end
  | _ => invalid "invalid chain for IPLD fetcher constructor"
  end.

Definition NewIPLDPublisher (chain : ChainType) (ipfsPath : string) (db : option PgDB) (ipfsMode : IPFSMode)
    : result IPLDPublisher :=
  match chain with
  | Ethereum =>
      match ipfsMode with
      | LocalInterface | RemoteClient => new_ipfs_publisher eth ipfsPath
      | DirectPostgres => Ok (PublishesAndIndexes eth db)
      | UnknownMode => invalid "ethereum IPLDPublisher unexpected ipfs mode"
      end
  | Bitcoin =>
      match ipfsMode with
      | LocalInterface | RemoteClient => new_ipfs_publisher btc ipfsPath
      | DirectPostgres => Ok (PublishesAndIndexes btc db)
      | UnknownMode => invalid "bitcoin IPLDPublisher unexpected ipfs mode"
      end
  | _ => invalid "invalid chain for publisher constructor"
  end.

(** The namespace of the chain's API. *)
Definition NewPublicAPI (chain : ChainType) : result string :=
  match chain with
  | Ethereum => Ok "eth"
  | _ => invalid "invalid chain for public api constructor"
  end.

Definition NewCleaner (chain : ChainType) (db : option PgDB) : result Cleaner :=
  match chain with
  | Ethereum => Ok (mkCleaner eth db)
  | Bitcoin => Ok (mkCleaner btc db)
  | _ => invalid "invalid chain for cleaner constructor"
  end.

(** ** service.go: NewSuperNode *)

(** The fields [NewSuperNode] sets; an interface that is not set is nil. *)
Record SuperNode : Type := mkSuperNode {
  sn_Streamer : option PayloadStreamer;
  sn_PayloadChan : option Z;
  sn_Converter : option PayloadConverter;
  sn_Publisher : option IPLDPublisher;
  sn_Indexer : option CIDIndexer;
  sn_Filterer : option ResponseFilterer;
  sn_IPLDFetcher : option IPLDFetcher;
  sn_Retriever : option CIDRetriever;
  sn_db : option PgDB;
  sn_WorkerPoolSize : Z;
  sn_NodeInfo : Node;
  sn_ipfsPath : string;
  sn_chain : ChainType
}.

Definition NewSuperNode (settings : Config) : result SuperNode :=
  let chain := cf_Chain settings in
  syncing <-! (if cf_Sync settings then
      sp <-! NewPayloadStreamer chain (cf_WSClient settings) ;;
      converter <-! NewPayloadConverter chain ;;
      publisher <-! NewIPLDPublisher chain (cf_IPFSPath settings) (cf_SyncDBConn settings) (cf_IPFSMode settings) ;;
      indexer <-! NewCIDIndexer chain (cf_SyncDBConn settings) (cf_IPFSMode settings) ;;
      filterer <-! NewResponseFilterer chain ;;
      Ok (Some sp.1, Some sp.2, Some converter, Some publisher, Some indexer, Some filterer)
    else Ok (None, None, None, None, None, None)) ;;
  serving <-! (if cf_Serve settings then
      retriever <-! NewCIDRetriever chain (cf_ServeDBConn settings) ;;
      fetcher <-! NewIPLDFetcher chain (cf_IPFSPath settings) (cf_ServeDBConn settings) (cf_IPFSMode settings) ;;
      Ok (Some retriever, Some fetcher, cf_ServeDBConn settings)
    else Ok (None, None, None)) ;;
  let '(streamer, chan, converter, publisher, indexer, filterer) := syncing in
  let '(retriever, fetcher, db) := serving in
  Ok (mkSuperNode streamer chan converter publisher indexer filterer fetcher retriever db
        (cf_Workers settings) (cf_NodeInfo settings) (cf_IPFSPath settings) chain).

(** [APIs]: an error of the chain's API is only logged. *)
Definition APIs (sap : SuperNode) : list string :=
  let apis := ["vdb"; "rpc"; "net"; "admin"] in
  match NewPublicAPI (sn_chain sap) with
  | Ok chainAPI => apis ++ [chainAPI]
  | _ => apis
  end.

(** ** backfiller.go and resync/service.go: the services *)

Definition DefaultMaxBatchSize : Z := 100.
Definition DefaultMaxBatchNumber : Z := 50.

(** The sizes of both services. *)
Definition batch_size (n : Z) : Z := if n =? 0 then DefaultMaxBatchSize else n.
Definition batch_number (n : Z) : Z := let n := i64 n in if n =? 0 then DefaultMaxBatchNumber else n.

Record BackFillService : Type := mkBackFill {
  bfs_Converter : PayloadConverter;
  bfs_Publisher : IPLDPublisher;
  bfs_Indexer : CIDIndexer;
  bfs_Retriever : CIDRetriever;
  bfs_Fetcher : PayloadFetcher;
  bfs_GapCheckFrequency : Z;
  bfs_BatchSize : Z;
  bfs_BatchNumber : Z;
  bfs_chain : ChainType;
  bfs_validationLevel : Z
}.

Definition NewBackFillService (settings : Config) : result BackFillService :=
  let chain := cf_Chain settings in
  publisher <-! NewIPLDPublisher chain (cf_IPFSPath settings) (cf_BackFillDBConn settings) (cf_IPFSMode settings) ;;
  indexer <-! NewCIDIndexer chain (cf_BackFillDBConn settings) (cf_IPFSMode settings) ;;
  converter <-! NewPayloadConverter chain ;;
  retriever <-! NewCIDRetriever chain (cf_BackFillDBConn settings) ;;
  fetcher <-! NewPaylaodFetcher chain (cf_HTTPClient settings) (cf_Timeout settings) ;;
  Ok (mkBackFill converter publisher indexer retriever fetcher (cf_Frequency settings)
        (batch_size (cf_BatchSize settings)) (batch_number (cf_BatchNumber settings)) chain (cf_ValidationLevel settings)).

(** resync/config.go *)
Record ResyncConfig : Type := mkResyncConfig {
  rc_Chain : ChainType;
  rc_ResyncType : DataType;
  rc_ClearOldCache : bool;
  rc_ResetValidation : bool;
  rc_DB : option PgDB;
  rc_DBConfig : Database;
  rc_IPFSPath : string;
  rc_IPFSMode : IPFSMode;
  rc_HTTPClient : Client;
  rc_NodeInfo : Node;
  rc_Ranges : list (Z * Z);
  rc_BatchSize : Z;
  rc_Timeout : Z;
  rc_BatchNumber : Z
}.

(** [if ok, err := SupportedDataType(...); !ok] *)
Definition supported (d : DataType) (c : ChainType) : result unit :=
  match SupportedDataType d c with
  | (true, _) => Ok tt
  | (false, Some e) => Err e
  | (false, None) => invalid "chain type does not support data type"
  end.

Definition NewReSyncConfig : DB (list node_row) ResyncConfig :=
  let timeout := GetInt "resync.timeout" in
  let timeout := if timeout <? 5 then 5 else timeout in
  let start := u64 (GetInt64 "resync.start") in
  let stop := u64 (GetInt64 "resync.stop") in
  mp <-- db_lift ipfs_mode_and_path ;;
  ty <-- db_lift (checked (GenerateDataTypeFromString (GetString "resync.type"))) ;;
  chain <-- db_lift (checked (NewChainType (GetString "resync.chain"))) ;;
  db_lift (supported ty chain) ;;;
  nc <-- db_lift (node_and_client chain "http://" "ethereum.httpPath" "bitcoin.httpPath" (Node_zero, NilClient)) ;;
  let dbConfig := Database_Init in
  db <-- LoadPostgres dbConfig nc.1 ;;
  db_ret {|
    rc_Chain := chain; rc_ResyncType := ty; rc_ClearOldCache := GetBool "resync.clearOldCache";
    rc_ResetValidation := GetBool "resync.resetValidation"; rc_DB := Some db; rc_DBConfig := dbConfig;
    rc_IPFSPath := mp.2; rc_IPFSMode := mp.1; rc_HTTPClient := nc.2; rc_NodeInfo := nc.1;
    rc_Ranges := [(start, stop)]; rc_BatchSize := u64 (GetInt64 "resync.batchSize"); rc_Timeout := seconds timeout;
    rc_BatchNumber := u64 (GetInt64 "resync.batchNumber") |}.

(** resync/service.go *)
Record ResyncService : Type := mkResync {
  rs_Converter : PayloadConverter;
  rs_Publisher : IPLDPublisher;
  rs_Indexer : CIDIndexer;
  rs_Retriever : CIDRetriever;
  rs_Fetcher : PayloadFetcher;
  rs_Cleaner : Cleaner;
  rs_BatchSize : Z;
  rs_BatchNumber : Z;
  rs_chain : ChainType;
  rs_data : DataType;
  rs_ranges : list (Z * Z);
  rs_clearOldCache : bool;
  rs_resetValidation : bool
}.

Definition NewResyncService (settings : ResyncConfig) : result ResyncService :=
  let chain := rc_Chain settings in
  publisher <-! NewIPLDPublisher chain (rc_IPFSPath settings) (rc_DB settings) (rc_IPFSMode settings) ;;
  indexer <-! NewCIDIndexer chain (rc_DB settings) (rc_IPFSMode settings) ;;
  converter <-! NewPayloadConverter chain ;;
  retriever <-! NewCIDRetriever chain (rc_DB settings) ;;
  fetcher <-! NewPaylaodFetcher chain (rc_HTTPClient settings) (rc_Timeout settings) ;;
  cleaner <-! NewCleaner chain (rc_DB settings) ;;
  Ok (mkResync converter publisher indexer retriever fetcher cleaner
        (batch_size (rc_BatchSize settings)) (batch_number (rc_BatchNumber settings)) chain (rc_ResyncType settings)
        (rc_Ranges settings) (rc_ClearOldCache settings) (rc_ResetValidation settings)).

(** ** eth/subscription_config.go and btc/subscription_config.go *)

Definition NewEthSubscriptionConfig : SubscriptionSettings :=
  let s k := "superNode.ethSubscription." +:+ k in {|
  EthModel.BackFill := GetBool (s "historicalData");
  EthModel.BackFillOnly := GetBool (s "historicalDataOnly");
  EthModel.Start := GetInt64 (s "startingBlock");
  EthModel.End_ := GetInt64 (s "endingBlock");
  EthModel.HeaderFilter_ := {| hf_Off := GetBool (s "headerFilter.off"); hf_Uncles := GetBool (s "headerFilter.uncles") |};
  EthModel.TxFilter_ := {| tf_Off := GetBool (s "txFilter.off"); tf_Src := GetStringSlice (s "txFilter.src");
    tf_Dst := GetStringSlice (s "txFilter.dst") |};
  EthModel.ReceiptFilter_ := {| rf_Off := GetBool (s "receiptFilter.off"); rf_MatchTxs := GetBool (s "receiptFilter.matchTxs");
    rf_LogAddresses := GetStringSlice (s "receiptFilter.contracts");
    rf_Topics := [GetStringSlice (s "receiptFilter.topic0s"); GetStringSlice (s "receiptFilter.topic1s");
      GetStringSlice (s "receiptFilter.topic2s"); GetStringSlice (s "receiptFilter.topic3s")] |};
  EthModel.StateFilter_ := {| sf_Off := GetBool (s "stateFilter.off"); sf_IntermediateNodes := GetBool (s "stateFilter.intermediateNodes");
    sf_Addresses := GetStringSlice (s "stateFilter.addresses") |};
  EthModel.StorageFilter_ := {| stf_Off := GetBool (s "storageFilter.off");
    stf_IntermediateNodes := GetBool (s "storageFilter.intermediateNodes");
    stf_Addresses := GetStringSlice (s "storageFilter.addresses");
    stf_StorageKeys := GetStringSlice (s "storageFilter.storageKeys") |} |}.

End Setup.
