(* ===== verification/NodeRun.v ===== *)
(** * Running the super node (cmd/superNode.go), and what its set-up guarantees

    The command reads the configuration, builds the super node and starts the
    processes the settings ask for.  The theorems follow a run from the
    settings: the services are wired with implementations of the configured
    chain, the numbers of the configuration are in range, and a node that
    serves and back-fills without syncing has no filterer. *)

From S2P Require Import Prelude GoInt Heights ChainTypes Geth EthModel Sql.
From S2P Require Service EthFilterer EthService.
From S2P Require Import NodeSetup.

(** ** cmd/superNode.go *)

(** The background processes of a node. *)
Inductive process : Type := Serving | Syncing | BackFilling (bfs : BackFillService).

(** The plugins of IPFS, the servers of go-ethereum, and the subscription to
    the chain that [Sync] opens first. *)
Class Externals := {
  InitIPFSPlugins : result unit;
  StartIPCEndpoint : string → list string → result unit;
  StartWSEndpoint : string → list string → list string → result unit;
  StartHTTPEndpoint : string → list string → list string → result unit;
  Stream : PayloadStreamer → result unit
}.

Section Run.
Context `{Environment} `{Externals}.

Definition startServers (superNode : SuperNode) (settings : Config) : result unit :=
  _ <-! StartIPCEndpoint (cf_IPCEndpoint settings) (APIs superNode) ;;
  _ <-! StartWSEndpoint (cf_WSEndpoint settings) (APIs superNode) ["vdb"] ;;
  StartHTTPEndpoint (cf_HTTPEndpoint settings) (APIs superNode) [ChainType_API (cf_Chain settings)].

(** The start of [Sync]: a nil streamer panics. *)
Definition start_sync (superNode : SuperNode) : result unit :=
  match sn_Streamer superNode with
  | Some s => Stream s
  | None => Panic "invalid memory address or nil pointer dereference"
  end.

(** The command, up to the wait for the signal: the configuration, the node,
    and the processes in the order in which they were started.  An error ends
    the process. *)
Definition superNode : DB (list node_row) (Config * SuperNode * list process) :=
  superNodeConfig <-- NewSuperNodeConfig ;;
  db_lift (if bool_decide (cf_IPFSMode superNodeConfig = LocalInterface) then InitIPFSPlugins else Ok tt) ;;;
  node <-- db_lift (NewSuperNode superNodeConfig) ;;
  serving <-- db_lift (if cf_Serve superNodeConfig
    then _ <-! startServers node superNodeConfig ;; Ok [Serving] else Ok []) ;;
  syncing <-- db_lift (if cf_Sync superNodeConfig
    then _ <-! start_sync node ;; Ok [Syncing] else Ok []) ;;
  filling <-- db_lift (if cf_BackFill superNodeConfig
    then bfs <-! NewBackFillService superNodeConfig ;; Ok [BackFilling bfs] else Ok []) ;;
  db_ret (superNodeConfig, node, serving ++ syncing ++ filling).

End Run.

(** ** What set-up promises *)

(** The package of a chain's implementations. *)
Definition package_of (c : ChainType) : option package :=
  match c with Ethereum => Some eth | Bitcoin => Some btc | _ => None end.

(** Publishing, indexing and fetching of a package in an IPFS mode: CIDs are
    indexed after the blocks are put in IPFS, or with them in one transaction. *)
Definition publishes (p : package) (m : IPFSMode) (path : string) (db : option PgDB) (pub : IPLDPublisher) : Prop :=
  pub = match m with DirectPostgres => PublishesAndIndexes p db | _ => PublishesToIPFS p path end.
Definition indexes (p : package) (m : IPFSMode) (db : option PgDB) (idx : CIDIndexer) : Prop :=
  idx = match m with DirectPostgres => IndexesOnPublish p db | _ => IndexesCIDs p db end.
Definition fetches_iplds (p : package) (m : IPFSMode) (path : string) (db : option PgDB) (f : IPLDFetcher) : Prop :=
  f = match m with DirectPostgres => FetchesFromPg p db | _ => FetchesFromIPFS p path end.

(** The one component that is of the wrong package: the indexer of a Bitcoin
    node in direct Postgres mode is Ethereum's. *)
Definition indexer_wired (p : package) (m : IPFSMode) (db : option PgDB) (idx : CIDIndexer) : Prop :=
  (¬ (p = btc ∧ m = DirectPostgres) → indexes p m db idx) ∧
  (p = btc ∧ m = DirectPostgres → indexes eth m db idx).

Definition streams (p : package) (s : PayloadStreamer) : Prop :=
  match p, s with eth, eth_Streamer _ | btc, btc_HTTPStreamer _ => True | _, _ => False end.
Definition fetches_chain (p : package) (f : PayloadFetcher) : Prop :=
  match p, f with eth, eth_Fetcher _ _ | btc, btc_Fetcher _ => True | _, _ => False end.

(** A client of the kind the chain's constructors assert. *)
Definition client_for (p : package) (c : Client) : Prop :=
  match p, c with eth, EthClient _ | btc, BtcClient _ => True | _, _ => False end.

Definition node_wired (p : package) (c : Config) (sn : SuperNode) : Prop :=
  (if cf_Sync c then
     ∃ s pub idx, sn_Streamer sn = Some s ∧ streams p s ∧ sn_PayloadChan sn = Some PayloadChanBufferSize ∧
       sn_Converter sn = Some (mkPayloadConverter p) ∧ sn_Publisher sn = Some pub ∧ sn_Indexer sn = Some idx ∧
       publishes p (cf_IPFSMode c) (cf_IPFSPath c) (cf_SyncDBConn c) pub ∧
       indexer_wired p (cf_IPFSMode c) (cf_SyncDBConn c) idx ∧ sn_Filterer sn = Some (mkResponseFilterer p)
   else sn_Streamer sn = None ∧ sn_PayloadChan sn = None ∧ sn_Converter sn = None ∧ sn_Publisher sn = None ∧
        sn_Indexer sn = None ∧ sn_Filterer sn = None) ∧
  (if cf_Serve c then
     ∃ f, sn_Retriever sn = Some (mkCIDRetriever p (cf_ServeDBConn c)) ∧ sn_IPLDFetcher sn = Some f ∧
       fetches_iplds p (cf_IPFSMode c) (cf_IPFSPath c) (cf_ServeDBConn c) f ∧ sn_db sn = cf_ServeDBConn c
   else sn_Retriever sn = None ∧ sn_IPLDFetcher sn = None ∧ sn_db sn = None).

Definition backfill_wired (p : package) (c : Config) (b : BackFillService) : Prop :=
  bfs_Converter b = mkPayloadConverter p ∧
  publishes p (cf_IPFSMode c) (cf_IPFSPath c) (cf_BackFillDBConn c) (bfs_Publisher b) ∧
  indexer_wired p (cf_IPFSMode c) (cf_BackFillDBConn c) (bfs_Indexer b) ∧
  bfs_Retriever b = mkCIDRetriever p (cf_BackFillDBConn c) ∧ fetches_chain p (bfs_Fetcher b).

(** What a configuration that was read promises the constructors. *)
Definition configured `{Environment} (c : Config) : Prop :=
  cf_Sync c = GetBool "superNode.sync" ∧ cf_Serve c = GetBool "superNode.server" ∧
  cf_BackFill c = GetBool "superNode.backFill" ∧
  cf_IPFSMode c ∈ [LocalInterface; DirectPostgres] ∧
  (∀ p, package_of (cf_Chain c) = Some p →
    (cf_Sync c = true → client_for p (cf_WSClient c)) ∧ (cf_BackFill c = true → client_for p (cf_HTTPClient c))) ∧
  (cf_Sync c = true → is_Some (cf_SyncDBConn c)) ∧ (cf_Serve c = true → is_Some (cf_ServeDBConn c)) ∧
  (cf_BackFill c = true → is_Some (cf_BackFillDBConn c)).

(** The largest number of seconds a [time.Duration] holds. *)
Definition max_seconds : Z := 9223372036.

(** The numbers of a configuration. *)
Definition in_range `{Environment} (c : Config) : Prop :=
  (cf_Sync c = true → 1 ≤ cf_Workers c) ∧
  (cf_BackFill c = true →
    (GetInt "superNode.timeout" ≤ max_seconds →
       cf_Timeout c = 1000000000 * Z.max 15 (GetInt "superNode.timeout")) ∧
    (GetInt "superNode.frequency" ≤ max_seconds → 1000000000 ≤ cf_Frequency c) ∧
    cf_BatchSize c = u64 (GetInt64 "superNode.batchSize") ∧
    cf_BatchNumber c = u64 (GetInt64 "superNode.batchNumber")).

(** A chain whose filterer was not set: calling it panics. *)
Definition unfiltered (c : Service.Chain) : Service.Chain := {|
  Service.Settings := Service.Settings;
  Service.StartingBlock := Service.StartingBlock;
  Service.EndingBlock := Service.EndingBlock;
  Service.HistoricalData := Service.HistoricalData;
  Service.HistoricalDataOnly := Service.HistoricalDataOnly;
  Service.Settings_ChainType := Service.Settings_ChainType;
  Service.Settings_rlp := Service.Settings_rlp;
  Service.ConvertedData := Service.ConvertedData;
  Service.ConvertedData_Height := Service.ConvertedData_Height;
  Service.Response := Service.Response;
  Service.Response_Height := Service.Response_Height;
  Service.Response_rlp := Service.Response_rlp;
  Service.FilterPayload := λ _ _, Panic "invalid memory address or nil pointer dereference" |}.

(** What the node serves a chain's payloads with. *)
Definition filterer_of (sn : SuperNode) (c : Service.Chain) : Service.Chain :=
  match sn_Filterer sn with Some _ => c | None => unfiltered c end.

(** ** Lemmas *)

(** One bind: what its first call returns, and the rest for each such value. *)
Ltac step_with L := eapply returns_bind; [apply L|simpl].

Section SetupLemmas.
Context `{Environment}.

Lemma NewDB_settings d n : returns (NewDB d n) (λ db, pg_Settings db = d ∧ pg_Node db = n).
Proof.
  unfold NewDB. step_with (@returns_any (list node_row)). intros _ _.
  step_with (@returns_any (list node_row)). intros id _. by apply returns_ret.
Qed.

Lemma node_and_client_kind chain pre e b old p nc :
  package_of chain = Some p → node_and_client chain pre e b old = Ok nc → client_for p nc.2.
Proof.
  unfold node_and_client, GetEthNodeAndClient.
  destruct chain; intros [= <-]; [intros ([] & _ & [= <-])%rbind_Ok_inv|intros [= <-]]; done.
Qed.

Lemma ipfs_mode_known mp : ipfs_mode_and_path = Ok mp → mp.1 ∈ [LocalInterface; DirectPostgres].
Proof.
  unfold ipfs_mode_and_path. intros (m & Hm & Hr)%rbind_Ok_inv.
  assert (mp.1 = m) as ->.
  { destruct m; try (apply rbind_Ok_inv in Hr as (p & _ & [= <-]); done); by injection Hr as <-. }
  revert Hm. unfold checked, ChainTypes.GetIPFSMode, NewIPFSMode.
  repeat case_match; simpl in *; intros; simplify_eq; set_solver.
Qed.

Lemma sync_fields_spec chain d :
  returns (sync_fields chain d) (λ f,
    (GetBool "superNode.sync" = true → 1 ≤ f.1.1 ∧ is_Some f.2) ∧
    ∀ p, package_of chain = Some p → GetBool "superNode.sync" = true → client_for p f.1.2.2).
Proof.
  unfold sync_fields. destruct (GetBool "superNode.sync"); [|by apply returns_ret].
  step_with (@returns_lift (list node_row)). intros nc Hnc.
  step_with (@returns_any (list node_row)). intros db _. apply returns_ret. simpl. split.
  - intros _. split; [destruct (_ <? 1) eqn:E; lia|done].
  - intros p Hp _. by eapply node_and_client_kind.
Qed.

Lemma serve_fields_spec d n :
  returns (serve_fields d n) (λ f, GetBool "superNode.server" = true → is_Some f.2).
Proof.
  unfold serve_fields. destruct (GetBool "superNode.server"); [|by apply returns_ret].
  step_with (@returns_any (list node_row)). intros ipc _.
  step_with (@returns_any (list node_row)). intros db _. by apply returns_ret.
Qed.

Lemma seconds_id n : 0 ≤ n ≤ max_seconds → seconds n = 1000000000 * n.
Proof. unfold max_seconds, seconds. intros Hn. apply i64_id. unfold is_i64. lia. Qed.

Lemma BackFillFields_spec c :
  returns (BackFillFields c) (λ c',
    cf_Chain c' = cf_Chain c ∧ cf_IPFSMode c' = cf_IPFSMode c ∧ cf_Sync c' = cf_Sync c ∧ cf_Serve c' = cf_Serve c ∧
    cf_BackFill c' = cf_BackFill c ∧ cf_SyncDBConn c' = cf_SyncDBConn c ∧ cf_ServeDBConn c' = cf_ServeDBConn c ∧
    cf_WSClient c' = cf_WSClient c ∧ cf_Workers c' = cf_Workers c ∧ is_Some (cf_BackFillDBConn c') ∧
    (∀ p, package_of (cf_Chain c) = Some p → client_for p (cf_HTTPClient c')) ∧
    (GetInt "superNode.timeout" ≤ max_seconds →
       cf_Timeout c' = 1000000000 * Z.max 15 (GetInt "superNode.timeout")) ∧
    (GetInt "superNode.frequency" ≤ max_seconds → 1000000000 ≤ cf_Frequency c') ∧
    cf_BatchSize c' = u64 (GetInt64 "superNode.batchSize") ∧
    cf_BatchNumber c' = u64 (GetInt64 "superNode.batchNumber")).
Proof.
  unfold BackFillFields. step_with (@returns_lift (list node_row)). intros nc Hnc.
  step_with (@returns_any (list node_row)). intros db _. apply returns_ret. simpl. split_and!; try done.
  - intros p Hp. by eapply node_and_client_kind.
  - intros Hm. rewrite seconds_id; destruct (_ <? 15) eqn:E; unfold max_seconds in *; lia.
  - intros Hm. destruct (_ <=? 0) eqn:E; rewrite seconds_id; unfold max_seconds in *; lia.
Qed.

Lemma NewSuperNodeConfig_spec : returns NewSuperNodeConfig (λ c, configured c ∧ in_range c).
Proof.
  unfold NewSuperNodeConfig. step_with (@returns_lift (list node_row)). intros chain _.
  step_with (@returns_lift (list node_row)). intros mp Hmp%ipfs_mode_known.
  step_with sync_fields_spec. intros [[workers nc] syncDB] [Hs Hws]. simpl in *.
  step_with serve_fields_spec. intros [[[ws ipc] http] serveDB] Hv. simpl in *.
  destruct (GetBool "superNode.backFill") eqn:Eb.
  - eapply returns_weaken; [apply BackFillFields_spec|]. simpl.
    intros c (Ec & Em & Es & Ev & Ebf & Hsd & Hvd & Hwc & Hw & Hbd & Hc & Ht & Hf & Hbs & Hbn).
    unfold configured, in_range. rewrite Ec, Em, Es, Ev, Ebf, Hsd, Hvd, Hwc, Hw, Eb.
    split; [|split; [intros Hy; by apply Hs|done]].
    split_and!; try done; [|intros Hy; by apply Hs].
    intros p Hp. split; intros Hy; [by eapply Hws|by apply Hc].
  - apply returns_ret. unfold configured, in_range. simpl. rewrite Eb.
    split; [|split; [intros Hy; by apply Hs|done]].
    split_and!; try done; [|intros Hy; by apply Hs].
    intros p Hp. split; [intros Hy; by eapply Hws|done].
Qed.

End SetupLemmas.

(** *** Constructors of a supported chain *)

Lemma package_cases c p :
  package_of c = Some p → (c = Ethereum ∧ p = eth) ∨ (c = Bitcoin ∧ p = btc).
Proof. destruct c; intros [= <-]; auto. Qed.

Section Constructors.
Context `{Environment}.
Variables (c : ChainType) (p : package).
Hypothesis Hp : package_of c = Some p.

Lemma NewIPLDPublisher_wired path db m pub : NewIPLDPublisher c path db m = Ok pub → publishes p m path db pub.
Proof.
  unfold publishes. destruct (package_cases _ _ Hp) as [[-> ->]|[-> ->]]; destruct m; simpl; try done;
    unfold new_ipfs_publisher; try (by intros (? & _ & [= <-])%rbind_Ok_inv); by intros [= <-].
Qed.

Lemma NewCIDIndexer_wired db m idx : NewCIDIndexer c db m = Ok idx → indexer_wired p m db idx.
Proof.
  unfold indexer_wired, indexes. destruct (package_cases _ _ Hp) as [[-> ->]|[-> ->]]; destruct m; simpl; try done;
    intros [= <-]; (split; [|by intros []]); try done. intros Hno. by destruct Hno.
Qed.

Lemma NewIPLDFetcher_chain path db m f : NewIPLDFetcher c path db m = Ok f → fetches_iplds p m path db f.
Proof.
  unfold fetches_iplds. destruct (package_cases _ _ Hp) as [[-> ->]|[-> ->]]; destruct m; simpl; try done;
    unfold new_ipfs_fetcher; try (by intros (? & _ & [= <-])%rbind_Ok_inv); by intros [= <-].
Qed.

Lemma NewPaylaodFetcher_chain cl t f : NewPaylaodFetcher c cl t = Ok f → fetches_chain p f.
Proof.
  destruct (package_cases _ _ Hp) as [[-> ->]|[-> ->]]; destruct cl; simpl; try done;
    [intros [= <-]|intros (? & _ & [= <-])%rbind_Ok_inv]; done.
Qed.

Lemma NewPayloadStreamer_chain cl :
  client_for p cl → ∃ s, NewPayloadStreamer c cl = Ok (s, PayloadChanBufferSize) ∧ streams p s.
Proof. destruct (package_cases _ _ Hp) as [[-> ->]|[-> ->]]; destruct cl; simpl; try done; intros _; by eexists. Qed.

Lemma simple_constructors db :
  NewPayloadConverter c = Ok (mkPayloadConverter p) ∧ NewResponseFilterer c = Ok (mkResponseFilterer p) ∧
  NewCIDRetriever c db = Ok (mkCIDRetriever p db) ∧ NewCleaner c db = Ok (mkCleaner p db).
Proof. by destruct (package_cases _ _ Hp) as [[-> ->]|[-> ->]]. Qed.

(** With the external calls succeeding, the others do too. *)
Lemma constructors_total path db m cl t :
  m ∈ [LocalInterface; DirectPostgres] → is_ok (InitIPFSNode path) = true → is_ok (InitIPFSBlockService path) = true →
  is_ok (NewIPLDPublisher c path db m) = true ∧
  is_ok (NewCIDIndexer c db m) = true ∧
  is_ok (NewIPLDFetcher c path db m) = true ∧
  ((∀ k, is_ok (rpcclient_New k) = true) → client_for p cl →
   is_ok (NewPaylaodFetcher c cl t) = true).
Proof.
  intros Hm Hn Hb. destruct (package_cases _ _ Hp) as [[-> ->]|[-> ->]];
    (apply elem_of_cons in Hm as [->|[->|[]%not_elem_of_nil]%elem_of_cons]); simpl;
    unfold new_ipfs_publisher, new_ipfs_fetcher;
    destruct (InitIPFSNode path), (InitIPFSBlockService path); try done; simpl;
    (split_and!; [done..|]); intros Hr; destruct cl as [|u|k]; try done; simpl;
    specialize (Hr k); by destruct (rpcclient_New k).
Qed.

End Constructors.

(** ** Theorems *)

Section NodeTheorems.
Context `{Environment} `{Externals}.

(** The services of a supported chain, from what their configuration promises. *)
Lemma NewSuperNode_wired c p :
  package_of (cf_Chain c) = Some p → cf_IPFSMode c ∈ [LocalInterface; DirectPostgres] →
  (cf_Sync c = true → client_for p (cf_WSClient c)) →
  (∀ path, is_ok (InitIPFSNode path) = true) → (∀ path, is_ok (InitIPFSBlockService path) = true) →
  ∃ sn, NewSuperNode c = Ok sn ∧ node_wired p c sn.
Proof.
  intros Hp Hm Hws Hn Hb. unfold NewSuperNode, node_wired.
  destruct (simple_constructors _ _ Hp (cf_ServeDBConn c)) as (Ec & Ef & Er & _).
  destruct (constructors_total _ _ Hp (cf_IPFSPath c) (cf_SyncDBConn c) _ NilClient 0 Hm (Hn _) (Hb _)) as (P1 & I1 & _ & _).
  destruct (constructors_total _ _ Hp (cf_IPFSPath c) (cf_ServeDBConn c) _ NilClient 0 Hm (Hn _) (Hb _)) as (_ & _ & F1 & _).
  destruct (NewIPLDPublisher _ _ _ _) as [pub|?|?] eqn:Ep; [|done..].
  destruct (NewCIDIndexer _ _ _) as [idx|?|?] eqn:Ei; [|done..].
  destruct (NewIPLDFetcher _ _ _ _) as [ifetch|?|?] eqn:Ex; [|done..].
  pose proof (NewIPLDPublisher_wired _ _ Hp _ _ _ _ Ep) as Hpub.
  pose proof (NewCIDIndexer_wired _ _ Hp _ _ _ Ei) as Hidx.
  pose proof (NewIPLDFetcher_chain _ _ Hp _ _ _ _ Ex) as Hfet.
  rewrite Ec, Ef, Er. destruct (cf_Sync c), (cf_Serve c); simpl;
    try (destruct (NewPayloadStreamer_chain _ _ Hp (cf_WSClient c)) as (st & -> & Hst); [by apply Hws|]);
    simpl; eexists; (split; [done|]); simpl; split; eauto 20.
Qed.

Lemma NewBackFillService_wired c p :
  package_of (cf_Chain c) = Some p → cf_IPFSMode c ∈ [LocalInterface; DirectPostgres] →
  client_for p (cf_HTTPClient c) →
  (∀ path, is_ok (InitIPFSNode path) = true) → (∀ path, is_ok (InitIPFSBlockService path) = true) →
  (∀ k, is_ok (rpcclient_New k) = true) →
  ∃ b, NewBackFillService c = Ok b ∧ backfill_wired p c b.
Proof.
  intros Hp Hm Hcl Hn Hb Hr. unfold NewBackFillService, backfill_wired.
  destruct (simple_constructors _ _ Hp (cf_BackFillDBConn c)) as (Ec & _ & Er & _).
  destruct (constructors_total _ _ Hp (cf_IPFSPath c) (cf_BackFillDBConn c) _ (cf_HTTPClient c) (cf_Timeout c) Hm
    (Hn _) (Hb _)) as (P1 & I1 & _ & F1). specialize (F1 Hr Hcl).
  destruct (NewIPLDPublisher _ _ _ _) as [pub|?|?] eqn:Ep; [|done..].
  destruct (NewCIDIndexer _ _ _) as [idx|?|?] eqn:Ei; [|done..].
  destruct (NewPaylaodFetcher _ _ _) as [fe|?|?] eqn:Ex; [|done..].
  rewrite Ec, Er. simpl. eexists. split; [done|]. simpl. split_and!; try done.
  - by eapply NewIPLDPublisher_wired.
  - by eapply NewCIDIndexer_wired.
  - by eapply NewPaylaodFetcher_chain.
Qed.

(** C35: for every configuration that [NewSuperNodeConfig] returns on a chain
    with an implementation, and with the external services up, [NewSuperNode]
    does not fail; the components it does not set are those of the processes
    that are turned off, and every component it sets is of that chain's package
    and of the configured IPFS mode, path and connection, but for one: the
    indexer of a Bitcoin node in direct Postgres mode is Ethereum's.  The same of
    [NewBackFillService] when back-filling is on. *)
Theorem configured_node_wired o s c s' p :
  NewSuperNodeConfig o s = (DOk c, s') → package_of (cf_Chain c) = Some p →
  (∀ path, is_ok (InitIPFSNode path) = true) → (∀ path, is_ok (InitIPFSBlockService path) = true) →
  (∀ k, is_ok (rpcclient_New k) = true) →
  (∃ sn, NewSuperNode c = Ok sn ∧ node_wired p c sn) ∧
  (cf_BackFill c = true → ∃ b, NewBackFillService c = Ok b ∧ backfill_wired p c b).
Proof.
  intros Hc Hp Hn Hb Hr.
  destruct (NewSuperNodeConfig_spec o s c s' Hc) as [(_ & _ & _ & Hm & Hcl & _) _].
  destruct (Hcl p Hp) as [Hws Hht]. split.
  - by apply NewSuperNode_wired.
  - intros Hbf. apply NewBackFillService_wired; auto.
Qed.

(** C36: the numbers of a node that was configured: at least one worker when
    syncing; a timeout of at least 15 seconds and a frequency of at least one,
    unless the setting overflows a [time.Duration]; batches of at least one
    height; but no back-filling worker at all when the number of batches is
    negative. *)
Theorem configured_bounds o s c s' :
  (∀ k, is_i64 (GetInt64 k)) → NewSuperNodeConfig o s = (DOk c, s') →
  (cf_Sync c = true → 1 ≤ cf_Workers c) ∧
  (cf_BackFill c = true →
    (GetInt "superNode.timeout" ≤ max_seconds →
       cf_Timeout c = 1000000000 * Z.max 15 (GetInt "superNode.timeout")) ∧
    (GetInt "superNode.frequency" ≤ max_seconds → 1000000000 ≤ cf_Frequency c) ∧
    ∀ b, NewBackFillService c = Ok b →
      bfs_GapCheckFrequency b = cf_Frequency c ∧ 1 ≤ bfs_BatchSize b < two64 ∧
      (1 ≤ bfs_BatchNumber b ↔ 0 ≤ GetInt64 "superNode.batchNumber")).
Proof.
  intros Hi Hc. destruct (NewSuperNodeConfig_spec o s c s' Hc) as [_ [Hw Hb]]. split; [done|].
  intros (Ht & Hf & Es & En)%Hb. split_and!; [done..|]. intros b. unfold NewBackFillService.
  intros (? & _ & (? & _ & (? & _ & (? & _ & (? & _ & [= <-])%rbind_Ok_inv)%rbind_Ok_inv)%rbind_Ok_inv)%rbind_Ok_inv)%rbind_Ok_inv.
  simpl. unfold batch_size, batch_number, DefaultMaxBatchSize, DefaultMaxBatchNumber. rewrite Es, En.
  split_and!; [done|..].
  - pose proof (u64_range (GetInt64 "superNode.batchSize")) as Hr. unfold is_u64 in Hr. destruct (_ =? 0) eqn:E; lia.
  - pose proof (u64_range (GetInt64 "superNode.batchSize")) as Hr. unfold is_u64, two64 in *. destruct (_ =? 0) eqn:E; lia.
  - rewrite i64_u64 by apply Hi. destruct (_ =? 0) eqn:E; lia.
Qed.

(** What the command starts. *)
Lemma superNode_inv o s c sn ps s' :
  superNode o s = (DOk (c, sn, ps), s') →
  (∃ o' s1 s2, NewSuperNodeConfig o' s1 = (DOk c, s2)) ∧ NewSuperNode c = Ok sn ∧
  ∃ bs, ps = (if cf_Serve c then [Serving] else []) ++ (if cf_Sync c then [Syncing] else []) ++ map BackFilling bs ∧
        (cf_BackFill c = false → bs = []) ∧ (cf_BackFill c = true → ∃ b, bs = [b] ∧ NewBackFillService c = Ok b).
Proof.
  unfold superNode, db_bind, db_lift, db_ret.
  destruct (NewSuperNodeConfig o s) as [[c1| |] s1] eqn:Ec; [|done..].
  destruct (if bool_decide _ then _ else _) as [u| |]; [|done..].
  destruct (NewSuperNode c1) as [sn1| |] eqn:En; [|done..].
  destruct (cf_Serve c1) eqn:Ev; [destruct (rbind _ _) as [l1| |] eqn:E1; [|done..];
    apply rbind_Ok_inv in E1 as (? & _ & [= <-])|];
  (destruct (cf_Sync c1) eqn:Es; [destruct (rbind _ _) as [l2| |] eqn:E2; [|done..];
    apply rbind_Ok_inv in E2 as (? & _ & [= <-])|]);
  (destruct (cf_BackFill c1) eqn:Eb; [destruct (rbind _ _) as [l3| |] eqn:E3; [|done..];
    apply rbind_Ok_inv in E3 as (b & Hb & [= <-])|]);
  intros [= <- <- <- <-]; rewrite ?Ev, ?Es, ?Eb; (split; [by eauto|]); (split; [done|]);
  first [exists [b]; split; [done|]; split; [done|]; by eauto|by exists []].
Qed.

(** C37: a node that serves and back-fills but does not sync has no filterer:
    the first payload that back-filling forwards ends the process, exactly when
    some subscription is registered that has not ended by that height. *)
Theorem serve_without_sync_crashes o s c sn ps s' :
  superNode o s = (DOk (c, sn, ps), s') →
  GetBool "superNode.server" = true → GetBool "superNode.backFill" = true → GetBool "superNode.sync" = false →
  (∃ b, ps = [Serving; BackFilling b]) ∧
  ∀ (C : Service.Chain) `{GethCommon} range_types range_subs payload (sap : Service.Service (H := filterer_of sn C)),
    (∀ m, range_types m ≡ₚ map_to_list m) → (∀ m, range_subs m ≡ₚ map_to_list m) → Service.svc_ok sap →
    (∀ (r : Service.Response) e, Service.Response_Height r ≠ Err e) →
    (∃ w, Service.filterAndServe range_types range_subs (Some payload) sap = Panic w) ↔
    ∃ ty cfg, Service.SubscriptionTypes sap !! ty = Some cfg ∧
      (Service.EndingBlock cfg ≤ 0 ∨ Service.ConvertedData_Height payload ≤ Service.EndingBlock cfg).
Proof.
  intros (Hc & Hn & bs & -> & Hb0 & Hb1)%superNode_inv Hserve Hback Hsync.
  destruct Hc as (o' & s1 & s2 & Hc). destruct (NewSuperNodeConfig_spec _ _ _ _ Hc) as [(Es & Ev & Eb & _) _].
  rewrite Hsync in Es. rewrite Hserve in Ev. rewrite Hback in Eb. rewrite Ev, Es.
  split; [destruct (Hb1 Eb) as (b & -> & _); by eexists|].
  assert (sn_Filterer sn = None) as Hnil.
  { revert Hn. unfold NewSuperNode. rewrite Es. simpl. intros ([[? ?] ?] & _ & [= <-])%rbind_Ok_inv. done. }
  intros C G. assert (filterer_of sn C = unfiltered C) as -> by (unfold filterer_of; by rewrite Hnil).
  intros range_types range_subs payload sap Ht Hs Hok Hh.
  rewrite (Service.filterAndServe_panics range_types range_subs (Some payload) sap Ht Hs Hok Hh).
  unfold Service.verdict_of. simpl. split.
  - intros (ty & cfg & w & Hty & Hv). exists ty, cfg. split; [done|]. revert Hv.
    destruct (0 <? _) eqn:E0; simpl; [|left; by apply Z.ltb_ge].
    destruct (Service.EndingBlock cfg <? _) eqn:E1; [discriminate|right; by apply Z.ltb_ge].
  - intros (ty & cfg & Hty & Hle). exists ty, cfg. eexists. split; [done|].
    destruct (0 <? _) eqn:E0; simpl; [|done]. destruct (Service.EndingBlock cfg <? _) eqn:E1; [|reflexivity].
    apply Z.ltb_lt in E0, E1. exfalso. destruct Hle as [Hle|Hle].
    + by apply (Z.lt_irrefl 0), (Z.lt_le_trans _ _ _ E0).
    + by apply (Z.lt_irrefl _ (Z.lt_le_trans _ _ _ E1 Hle)).
Qed.

End NodeTheorems.

(** ** Witnesses *)

Section Witnesses.

(** A node on Ethereum and Postgres with the given processes turned on, and a
    negative number of batches. *)
Definition ex_env (sync serve back : bool) : Environment := {|
  GetString := λ k, if bool_decide (k = "superNode.chain") then "Ethereum" else "";
  GetStringSlice := λ _, [];
  GetBool := λ k,
    if bool_decide (k = "superNode.sync") then sync
    else if bool_decide (k = "superNode.server") then serve
    else if bool_decide (k = "superNode.backFill") then back else false;
  GetInt := λ k, if bool_decide (k = "superNode.timeout") then 20 else 0;
  GetInt64 := λ k, if bool_decide (k = "superNode.batchNumber") then -1 else 0;
  Get := λ _, None;
  UserHomeDir := Ok "/root";
  Join := λ a b, a +:+ "/" +:+ b;
  rpc_Dial := λ _, Ok tt;
  rpcclient_New := λ _, Ok tt;
  sqlx_Connect := λ _, Ok tt;
  InitIPFSNode := λ _, Ok tt;
  InitIPFSBlockService := λ _, Ok tt |}.

Definition ex_externals : Externals := {|
  InitIPFSPlugins := Ok tt;
  StartIPCEndpoint := λ _ _, Ok tt;
  StartWSEndpoint := λ _ _ _, Ok tt;
  StartHTTPEndpoint := λ _ _ _, Ok tt;
  Stream := λ _, Ok tt |}.

Definition ex_session : session (list node_row) := mkSession [] ∅ false 0.
Definition ex_run := superNode (H := ex_env false true true) (H0 := ex_externals) no_faults ex_session.
Definition ex_config_run := NewSuperNodeConfig (H := ex_env true true true) no_faults ex_session.

Lemma ex_env_range k : is_i64 (GetInt64 (Environment := ex_env true true true) k).
Proof. unfold is_i64. simpl. case_bool_decide; lia. Qed.

(** The configuration: three rows are written, all for the same node. *)
Lemma ex_config : ∃ c s', ex_config_run = (DOk c, s') ∧ cf_Chain c = Ethereum ∧ cf_Sync c = true ∧
  cf_BackFill c = true ∧ cf_Timeout c = 20000000000 ∧ cf_Frequency c = 30000000000 ∧ cf_BatchNumber c = two64 - 1 ∧
  length (tables s') = 1%nat ∧ ∃ b, NewBackFillService (H := ex_env true true true) c = Ok b.
Proof.
  let v := eval vm_compute in ex_config_run in match v with (DOk ?c, ?s) => exists c, s end.
  split; [by vm_compute|]. split_and!; try reflexivity. by eexists.
Qed.

Lemma configured_node_wired_witness :
  ∃ c s', ex_config_run = (DOk c, s') ∧
  ∃ sn b, NewSuperNode (H := ex_env true true true) c = Ok sn ∧ node_wired eth c sn ∧
    NewBackFillService (H := ex_env true true true) c = Ok b ∧ backfill_wired eth c b.
Proof.
  destruct ex_config as (c & s' & Hc & Hch & _ & Hb & _). exists c, s'. split; [exact Hc|].
  destruct (configured_node_wired (H := ex_env true true true) no_faults ex_session c s' eth Hc)
    as [(sn & Hsn & Hw) Hbf]; [by rewrite Hch|done..|].
  destruct (Hbf Hb) as (b & Hb1 & Hb2). by exists sn, b.
Defined.

Lemma configured_bounds_witness :
  ∃ c s', ex_config_run = (DOk c, s') ∧ 1 ≤ cf_Workers c ∧ cf_Timeout c = 20000000000 ∧ 1000000000 ≤ cf_Frequency c ∧
  ∃ b, NewBackFillService (H := ex_env true true true) c = Ok b ∧ bfs_BatchNumber b < 1.
Proof.
  destruct ex_config as (c & s' & Hc & Hch & Hs & Hb & Ht & _ & _ & _ & b & Hb'). exists c, s'. split; [exact Hc|].
  destruct (configured_bounds (H := ex_env true true true) no_faults ex_session c s' ex_env_range Hc) as [Hw Hbf].
  destruct (Hbf Hb) as (Ht' & Hf & Hn). split; [by apply Hw|]. split; [exact Ht|]. split; [by apply Hf|].
  exists b. split; [exact Hb'|].
  destruct (Hn b Hb') as (_ & _ & Hi). simpl in Hi. destruct (decide (1 ≤ bfs_BatchNumber b)) as [H1|H1]; [|lia].
  apply Hi in H1. lia.
Defined.

(** A service of a node without filterer, with one subscription without end. *)
Definition ex_unfiltered : Service.Chain := unfiltered EthService.ex_chain.
Definition ex_serving : Service.Service (H := ex_unfiltered) :=
  Service.add_subscriber (H := ex_unfiltered) (Keccak256Hash (GethCommon := Concrete.geth) [Start EthFilterer.ex_settings])
    "s" (Service.mkSub "s" 1 2) EthFilterer.ex_settings (Service.NewService (H := ex_unfiltered) Ethereum).

Lemma ex_serving_ok : Service.svc_ok (H := ex_unfiltered) (H0 := Concrete.geth) ex_serving.
Proof. apply (Service.add_subscriber_ok (H := ex_unfiltered)); try done. apply (Service.NewService_ok (H := ex_unfiltered)). Qed.

Lemma serve_without_sync_crashes_witness :
  ∃ c sn b s', ex_run = (DOk (c, sn, [Serving; BackFilling b]), s') ∧
  ∃ w, Service.filterAndServe (H := ex_unfiltered) map_to_list map_to_list
         (Some (EthFilterer.ex_two_txs : Service.ConvertedData (Chain := ex_unfiltered))) ex_serving = Panic w.
Proof.
  assert (Hr : ∃ c sn ps s', ex_run = (DOk (c, sn, ps), s') ∧ sn_Filterer sn = None).
  { let v := eval vm_compute in ex_run in match v with (DOk (?c, ?sn, ?ps), ?s) => exists c, sn, ps, s end.
    split; [by vm_compute|reflexivity]. }
  destruct Hr as (c & sn & ps & s' & Hr & Hnil).
  destruct (serve_without_sync_crashes (H := ex_env false true true) (H0 := ex_externals) no_faults ex_session c sn ps s' Hr
    eq_refl eq_refl eq_refl) as [(b & ->) Hall].
  exists c, sn, b, s'. split; [exact Hr|].
  specialize (Hall EthService.ex_chain Concrete.geth map_to_list map_to_list).
  unfold filterer_of in Hall. destruct (sn_Filterer sn); [done|].
  apply (Hall (EthFilterer.ex_two_txs : Service.ConvertedData (Chain := ex_unfiltered)) ex_serving); [done|done|apply ex_serving_ok| |].
  - intros r e. simpl. unfold IPLDs_Height. by destruct (i_BlockNumber r).
  - exists (Keccak256Hash (GethCommon := Concrete.geth) [Start EthFilterer.ex_settings]), EthFilterer.ex_settings.
    split; [reflexivity|]. left. vm_compute. discriminate.
Defined.

End Witnesses.
