(* ===== verification/Watcher.v ===== *)
(** * The watcher (pkg/watcher/service.go, shared/interfaces.go)

    The watcher reads a subscription to a super node and hands the payloads to
    its repository.  With historical data only, one goroutine hands them over as
    they come.  Otherwise two goroutines share an index, the next height to be
    handed over: the receiver hands over the payload of that height and queues
    the others, and the ticker takes queued payloads of that height.  Their
    steps interleave at every atomic access of the index, at every call of the
    repository and at every communication. *)

From S2P Require Import Prelude GoInt Geth.
From S2P Require Service.

Abbreviation SubscriptionPayload := Service.SubscriptionPayload.
Abbreviation sp_Height := Service.sp_Height.
Abbreviation sp_Data := Service.sp_Data.

(** ** shared.Repository *)

(** The state is the repository's database; a call returns its outcome and the
    database it leaves.  [Panic] is a call that does not return: a panic, or a
    statement that waits for ever. *)
Class Repository := {
  Repo : Type;
  LoadTriggers : Repo → result unit * Repo;
  QueueData : SubscriptionPayload → Repo → result unit * Repo;
  GetQueueData : Z → Repo → result (SubscriptionPayload * Z) * Repo;
  ReadyData : SubscriptionPayload → Repo → result unit * Repo
}.

(** What the watcher expects of it: [queued] is the data in the queue by height.
    Queueing a height again replaces its data, and an error leaves the queue as
    it was. *)
Class RepositoryLaws `{Repository} := {
  queued : Repo → gmap Z bytes;
  QueueData_queued : ∀ p r res r', QueueData p r = (res, r') →
    queued r' = match res with Ok _ => <[sp_Height p := sp_Data p]> (queued r) | _ => queued r end;
  GetQueueData_queued : ∀ h r res r', GetQueueData h r = (res, r') →
    match res with
    | Ok (p, newIndex) => sp_Height p = h ∧ newIndex = i64_add h 1 ∧ queued r !! h = Some (sp_Data p) ∧
        queued r' = delete h (queued r)
    | _ => queued r' = queued r
    end;
  ReadyData_queued : ∀ p r res r', ReadyData p r = (res, r') → queued r' = queued r
}.

(** ** The service *)

(** The fields of Service the processes use; [payloadIndex] is a pointer. *)
Record Service (R : Type) : Type := mkService {
  payloadIndex : option Z;
  endingIndex : Z;
  repo : R
}.
Arguments mkService {R} _ _ _.
Arguments payloadIndex {R} _.
Arguments endingIndex {R} _.
Arguments repo {R} _.

Section Watcher.
Context `{Repository}.

(** What [NewWatcher] leaves in the fields. *)
Definition NewService (r : Repo) : Service Repo := mkService None 0 r.

(** [wasm.Instantiate] is the parameter. *)
Definition Init (Instantiate : result unit) (s : Service Repo) : result unit * Service Repo :=
  match Instantiate with
  | Ok _ => let '(res, r) := LoadTriggers (repo s) in (res, mkService (payloadIndex s) (endingIndex s) r)
  | e => (e, s)
  end.

(** [atomic.StoreInt64]: a nil pointer panics. *)
Definition StoreInt64 (v : Z) (s : Service Repo) : result (Service Repo) :=
  match payloadIndex s with
  | Some _ => Ok (mkService (Some v) (endingIndex s) (repo s))
  | None => Panic "invalid memory address or nil pointer dereference"
  end.

Inductive queuing : Type := BackFillOnlyQueuing | CombinedQueuing.

(** [Watch], up to the process it starts: the settings are the subscription's,
    [rlpConfig] its encoding and [Stream] the subscription at the super node. *)
Definition Watch (rlpConfig : result bytes) (Stream : bytes → result unit) (startingBlock endingBlock : Z)
    (historicalDataOnly : bool) (s : Service Repo) : result (Service Repo * queuing) :=
  params <-! rlpConfig ;;
  _ <-! Stream params ;;
  s <-! StoreInt64 (i64 startingBlock) s ;;
  let s := mkService (payloadIndex s) (i64 endingBlock) (repo s) in
  Ok (s, if historicalDataOnly then BackFillOnlyQueuing else CombinedQueuing).

(** ** combinedQueuing *)

(** Where the receiver is: in its select, in [ReadyData], before the increment
    of the index, in [QueueData], blocked on [forwardQuit <- true], or gone. *)
Inductive receiver : Type :=
| Listening
| Readying (p : SubscriptionPayload)
| Advancing
| Queueing (p : SubscriptionPayload)
| Forwarding
| Gone.

(** Where the ticker is: in its select, in [GetQueueData] with the height it
    loaded, before it stores the new index, before it compares the index with
    the end, blocked on [s.QuitChan <- true], in [ReadyData], or gone. *)
Inductive ticker : Type :=
| Waiting
| Getting (height : Z)
| Storing (p : SubscriptionPayload) (newIndex : Z)
| Comparing (p : SubscriptionPayload)
| Quitting (p : SubscriptionPayload)
| Handing (p : SubscriptionPayload)
| Stopped.

(** [ready] lists the payloads given to [ReadyData], in the order of the calls;
    [arrived] all that came over the subscription; [lost] those that could not
    be queued. *)
Record watch : Type := mkWatch {
  index : Z;
  chan : list SubscriptionPayload;         (* s.PayloadChan, oldest first *)
  store : Repo;
  recv : receiver;
  tick : ticker;
  ready : list SubscriptionPayload;
  arrived : list SubscriptionPayload;
  lost : list SubscriptionPayload
}.

(** s.endingIndex does not change while the processes run. *)
Variable ending : Z.

Definition set_recv (r : receiver) (w : watch) : watch :=
  mkWatch (index w) (chan w) (store w) r (tick w) (ready w) (arrived w) (lost w).
Definition set_tick (t : ticker) (w : watch) : watch :=
  mkWatch (index w) (chan w) (store w) (recv w) t (ready w) (arrived w) (lost w).
Definition set_index (i : Z) (w : watch) : watch :=
  mkWatch i (chan w) (store w) (recv w) (tick w) (ready w) (arrived w) (lost w).
Definition set_chan (c : list SubscriptionPayload) (w : watch) : watch :=
  mkWatch (index w) c (store w) (recv w) (tick w) (ready w) (arrived w) (lost w).
Definition set_store (r : Repo) (w : watch) : watch :=
  mkWatch (index w) (chan w) r (recv w) (tick w) (ready w) (arrived w) (lost w).

(** The super node sends a payload; its height is below the largest int64. *)
Definition push (p : SubscriptionPayload) (w : watch) : watch :=
  mkWatch (index w) (chan w ++ [p]) (store w) (recv w) (tick w) (ready w) (arrived w ++ [p]) (lost w).

(** [ReadyData]: an error is only logged. *)
Definition readied (p : SubscriptionPayload) (w : watch) : watch :=
  mkWatch (index w) (chan w) (ReadyData p (store w)).2 (recv w) (tick w) (ready w ++ [p]) (arrived w) (lost w).

(** [QueueData]: an error is only logged, and the payload is gone. *)
Definition enqueue (p : SubscriptionPayload) (w : watch) : watch :=
  let '(res, r) := QueueData p (store w) in
  mkWatch (index w) (chan w) r (recv w) (tick w) (ready w) (arrived w)
    (match res with Ok _ => lost w | _ => lost w ++ [p] end).

(** What the receiver does with a payload from the channel. *)
Definition dispatch (p : SubscriptionPayload) (i : Z) : receiver :=
  match Service.SubscriptionPayload_Error p with
  | Some _ => Listening
  | None => if sp_Height p =? i then Readying p else Queueing p
  end.

(** One step of a goroutine.  A panic ends the process, so a step needs the
    call it makes to return. *)
Inductive progress : watch → watch → Prop :=
| recv_payload p c w : recv w = Listening → chan w = p :: c →
    progress w (set_recv (dispatch p (index w)) (set_chan c w))
| recv_quit w : recv w = Listening → progress w (set_recv Forwarding w)
| recv_ready p w : recv w = Readying p → no_panic (ReadyData p (store w)).1 →
    progress w (set_recv Advancing (readied p w))
| recv_advance w : recv w = Advancing →
    let i := i64_add (index w) 1 in
    progress w (set_recv (if i >? ending then Forwarding else Listening) (set_index i w))
| recv_queue p w : recv w = Queueing p → no_panic (QueueData p (store w)).1 →
    progress w (set_recv Listening (enqueue p w))
| tick_load w : tick w = Waiting → progress w (set_tick (Getting (index w)) w)
| tick_empty h e r w : tick w = Getting h → GetQueueData h (store w) = (Err e, r) →
    progress w (set_tick Waiting (set_store r w))
| tick_got h p n r w : tick w = Getting h → GetQueueData h (store w) = (Ok (p, n), r) →
    progress w (set_tick (Storing p n) (set_store r w))
| tick_store p n w : tick w = Storing p n → progress w (set_tick (Comparing p) (set_index n w))
| tick_compare p w : tick w = Comparing p →
    progress w (set_tick (if index w >? ending then Quitting p else Handing p) w)
| tick_hand p w : tick w = Handing p → no_panic (ReadyData p (store w)).1 →
    progress w (set_tick Waiting (readied p w))
| sync_quit p w : tick w = Quitting p → recv w = Listening →
    progress w (set_tick (Handing p) (set_recv Forwarding w))
| sync_forward w : recv w = Forwarding → tick w = Waiting →
    progress w (set_tick Stopped (set_recv Gone w)).

(** A step of a goroutine, or an arrival. *)
Inductive wstep : watch → watch → Prop :=
| w_progress w w' : progress w w' → wstep w w'
| w_push p w : - 2 ^ 63 ≤ sp_Height p < 2 ^ 63 - 1 → wstep w (push p w).

Definition watch_start (start : Z) (r : Repo) : watch := mkWatch start [] r Listening Waiting [] [] [].

(** ** backFillOnlyQueuing *)

(** The goroutine on what comes over the subscription: the payloads handed
    over, the repository, and whether the process ended by itself. *)
Fixpoint backFillOnlyQueuing (ps : list SubscriptionPayload) (r : Repo)
    : result (list SubscriptionPayload * Repo * bool) :=
  match ps with
  | [] => Ok ([], r, false)
  | p :: ps =>
      match Service.SubscriptionPayload_Error p with
      | Some _ => backFillOnlyQueuing ps r
      | None =>
          if Service.BackFillComplete p then Ok ([], r, true)
          else match ReadyData p r with
               | (Panic w, _) => Panic w
               | (_, r) =>
                   rest <-! backFillOnlyQueuing ps r ;;
                   let '(done, r, stopped) := rest in
                   Ok (p :: done, r, stopped)
               end
      end
  end.

End Watcher.

(** ** Lemmas: counting payloads *)

Section Counting.

(** A payload by its height and data, and those without an error. *)
Definition item (p : SubscriptionPayload) : Z * bytes := (sp_Height p, sp_Data p).
Definition items (l : list SubscriptionPayload) : list (Z * bytes) :=
  map item (filter (λ p, Service.SubscriptionPayload_Error p = None) l).

Definition cnt (h : Z) (l : list (Z * bytes)) : nat := length (filter (λ x, x.1 = h) l).
Definition qcnt (h : Z) (m : gmap Z bytes) : nat := match m !! h with Some _ => 1%nat | None => 0%nat end.

Lemma cnt_nil h : cnt h [] = 0%nat.
Proof. done. Qed.

Lemma cnt_cons h x l : cnt h (x :: l) = ((if decide (x.1 = h) then 1 else 0) + cnt h l)%nat.
Proof. unfold cnt. rewrite filter_cons. by case_decide. Qed.

Lemma cnt_item h p l : cnt h (item p :: l) = ((if decide (sp_Height p = h) then 1 else 0) + cnt h l)%nat.
Proof. apply cnt_cons. Qed.

Lemma cnt_app h l k : cnt h (l ++ k) = (cnt h l + cnt h k)%nat.
Proof. unfold cnt. by rewrite filter_app, length_app. Qed.

Lemma cnt_pos h l : (0 < cnt h l)%nat ↔ h ∈ map fst l.
Proof.
  induction l as [|x l IH]; [rewrite cnt_nil; simpl; split; [lia|by intros ?%not_elem_of_nil]|].
  rewrite cnt_cons. simpl. rewrite elem_of_cons, <- IH. destruct (decide (x.1 = h)); [naive_solver lia|].
  split; [right; lia|intros [->|?]; [done|lia]].
Qed.

Lemma cnt_NoDup l : (∀ h, (cnt h l ≤ 1)%nat) → NoDup (map fst l).
Proof.
  induction l as [|x l IH]; intros Hc; simpl; [constructor|]. constructor.
  - rewrite <- cnt_pos. specialize (Hc x.1). rewrite cnt_cons, decide_True in Hc by done. lia.
  - apply IH. intros h. specialize (Hc h). rewrite cnt_cons in Hc. lia.
Qed.

Lemma qcnt_insert h k d m : qcnt h (<[k := d]> m) = if decide (k = h) then 1%nat else qcnt h m.
Proof.
  unfold qcnt. case_decide; [subst; by rewrite lookup_insert_eq|by rewrite lookup_insert_ne].
Qed.

Lemma qcnt_delete h k d m : m !! k = Some d →
  qcnt h m = ((if decide (k = h) then 1 else 0) + qcnt h (delete k m))%nat.
Proof.
  intros Hk. unfold qcnt. case_decide; [subst; by rewrite Hk, lookup_delete_eq|by rewrite lookup_delete_ne].
Qed.

Lemma items_app l k : items (l ++ k) = items l ++ items k.
Proof. unfold items. by rewrite filter_app, map_app. Qed.

Lemma items_cons p l : items (p :: l) =
  match Service.SubscriptionPayload_Error p with None => [item p] | Some _ => [] end ++ items l.
Proof.
  unfold items. rewrite filter_cons. destruct (Service.SubscriptionPayload_Error p); [by rewrite decide_False|].
  by rewrite decide_True.
Qed.

End Counting.

(** ** Lemmas: where the payloads are *)

Section Reliable.
Context `{RepositoryLaws}.
Variables (ending start : Z) (q0 : gmap Z bytes).

(** The payloads a goroutine holds: the receiver; the ticker, before and after
    it stores the new index. *)
Definition recv_held (r : receiver) : list SubscriptionPayload :=
  match r with Readying p | Queueing p => [p] | _ => [] end.
Definition tick_taken (t : ticker) : list SubscriptionPayload :=
  match t with Storing p _ => [p] | _ => [] end.
Definition tick_held (t : ticker) : list SubscriptionPayload :=
  match t with Comparing p | Quitting p | Handing p => [p] | _ => [] end.

(** What was or is about to be handed over, and what is still to be. *)
Definition handled (w : watch) : list (Z * bytes) := map item (ready w ++ tick_held (tick w)).
Definition pending (w : watch) : list (Z * bytes) :=
  items (chan w) ++ map item (recv_held (recv w) ++ tick_taken (tick w) ++ lost w).

(** How often a height came, the initial queue included. *)
Definition total (h : Z) (w : watch) : nat := (cnt h (items (arrived w)) + qcnt h q0)%nat.

Definition advancing (r : receiver) : bool := match r with Advancing => true | _ => false end.
Definition readying (r : receiver) : bool := match r with Readying _ | Advancing => true | _ => false end.

Record watch_ok (w : watch) : Prop := {
  ok_cnt : ∀ h, total h w = (cnt h (handled w) + cnt h (pending w) + qcnt h (queued (store w)))%nat;
  ok_range : ∀ h, (0 < total h w)%nat → - 2 ^ 63 ≤ h < 2 ^ 63 - 1;
  ok_start : start ≤ index w;
  ok_done : ∀ h, start ≤ h < index w → (0 < cnt h (handled w))%nat;
  ok_bound : ∀ h, (0 < cnt h (handled w))%nat →
    start ≤ h ∧ (h < index w ∨ advancing (recv w) = true ∧ h = index w);
  ok_recv : match recv w with
            | Readying p => sp_Height p = index w
            | Advancing => (0 < cnt (index w) (handled w))%nat
            | _ => True
            end;
  ok_tick : match tick w with
            | Getting h => start ≤ h ≤ index w
            | Storing p n => sp_Height p = index w ∧ n = index w + 1 ∧ readying (recv w) = false
            | _ => True
            end;
  ok_items : ∀ x, x ∈ handled w ∨ x ∈ pending w ∨ queued (store w) !! x.1 = Some x.2 →
    x ∈ items (arrived w) ∨ q0 !! x.1 = Some x.2
}.

(** Every height comes once. *)
Definition distinct_heights (w : watch) : Prop := ∀ h, (total h w ≤ 1)%nat.

Lemma watch_start_ok r : queued r = q0 → (∀ h, (0 < qcnt h q0)%nat → - 2 ^ 63 ≤ h < 2 ^ 63 - 1) →
  watch_ok (watch_start start r).
Proof.
  intros Hq Hb. split; unfold total, handled, pending; simpl; try done.
  - intros h. by rewrite Hq.
  - lia.
  - intros h Hc. rewrite cnt_nil in Hc. lia.
  - rewrite Hq. intros x [[]%not_elem_of_nil|[[]%not_elem_of_nil|?]]. by right.
Qed.

Lemma total_step w w' h : wstep ending w w' → (total h w ≤ total h w')%nat.
Proof.
  intros [v v' Hp|p v _]; unfold total; simpl.
  - destruct Hp; try done; simpl; unfold enqueue; by destruct (QueueData _ _).
  - rewrite items_app, cnt_app. lia.
Qed.

(** Counts of concatenations, spelled out. *)
Ltac counts := unfold total, handled, pending in *; simpl in *;
  rewrite ?items_app, ?items_cons, ?map_app, ?cnt_app in *; simpl in *; rewrite ?cnt_app, ?cnt_item, ?cnt_nil in *.

(** The parts of the invariant on the goroutines. *)
Definition recv_ok (w : watch) : Prop :=
  match recv w with
  | Readying p => sp_Height p = index w
  | Advancing => (0 < cnt (index w) (handled w))%nat
  | _ => True
  end.
Definition tick_ok (w : watch) : Prop :=
  match tick w with
  | Getting h => start ≤ h ≤ index w
  | Storing p n => sp_Height p = index w ∧ n = index w + 1 ∧ readying (recv w) = false
  | _ => True
  end.

(** A payload is somewhere. *)
Definition somewhere (x : Z * bytes) (w : watch) : Prop :=
  x ∈ handled w ∨ x ∈ pending w ∨ queued (store w) !! x.1 = Some x.2.

(** A step that leaves the index and what is handled. *)
Lemma watch_ok_moved w w' : watch_ok w → arrived w' = arrived w → index w' = index w → handled w' = handled w →
  (∀ h, (cnt h (pending w') + qcnt h (queued (store w')) = cnt h (pending w) + qcnt h (queued (store w)))%nat) →
  (∀ x, somewhere x w' → somewhere x w) → advancing (recv w') = advancing (recv w) → recv_ok w' → tick_ok w' →
  watch_ok w'.
Proof.
  intros [C R S D B Rc T I] Ea Ei Eh Ec Es Er Hr Ht. unfold total in *. unfold recv_ok, tick_ok in *. rewrite ?Ei, ?Eh in *.
  split; unfold total; rewrite ?Ea, ?Ei, ?Eh; try done.
  - intros h. specialize (C h). specialize (Ec h). lia.
  - by rewrite Er.
  - intros x Hx. apply I, Es. unfold somewhere. by rewrite Eh.
Qed.

(** The receiver takes the payload of the index: the ticker has none of it. *)
Lemma storing_alone p n w : tick w = Storing p n → sp_Height p = index w → distinct_heights w → watch_ok w →
  ∀ q, (0 < cnt (sp_Height q) (items (chan w) ++ map item (recv_held (recv w))))%nat → sp_Height q ≠ index w.
Proof.
  intros Et Ep Hd Hok q Hq Eq. specialize (Hd (index w)). rewrite (ok_cnt _ Hok) in Hd. counts. rewrite Et in Hd.
  counts. rewrite Eq in Hq. rewrite decide_True in Hd by done. lia.
Qed.

Lemma recv_payload_ok p c w : recv w = Listening → chan w = p :: c → distinct_heights w → watch_ok w →
  watch_ok (set_recv (dispatch p (index w)) (set_chan c w)).
Proof.
  intros Er Ec Hd Hok. pose proof (ok_tick _ Hok) as T. unfold dispatch.
  destruct (Service.SubscriptionPayload_Error p) eqn:Ee; [|destruct (Z.eqb_spec (sp_Height p) (index w)) as [E|]];
    (eapply watch_ok_moved; [exact Hok|done|done|done|..]).
  all: try (intros h; counts; rewrite Er, Ec; counts; rewrite Ee; counts; lia).
  all: try (intros x; unfold somewhere, pending, handled; simpl; rewrite Er, Ec, items_cons, Ee; simpl; set_solver).
  all: try (rewrite Er; done).
  all: try done.
  all: unfold tick_ok; simpl; destruct (tick w) as [|h|q k| | | |] eqn:Et; try done.
  all: destruct T as (Eq & En & _); try done.
  exfalso. apply (storing_alone _ _ _ Et Eq Hd Hok p); [|done].
  rewrite Ec, items_cons, Ee. counts. rewrite decide_True by done. lia.
Qed.

(** A height that is in two places is impossible. *)
Lemma queue_alone h d w : queued (store w) !! h = Some d → distinct_heights w → watch_ok w →
  cnt h (handled w) = 0%nat ∧ cnt h (pending w) = 0%nat.
Proof.
  intros Hq Hd Hok. specialize (Hd h). rewrite (ok_cnt _ Hok) in Hd. unfold qcnt in Hd. rewrite Hq in Hd. lia.
Qed.

Lemma recv_queue_ok p w : recv w = Queueing p → distinct_heights w → watch_ok w →
  watch_ok (set_recv Listening (enqueue p w)).
Proof.
  intros Er Hd Hok. pose proof (ok_tick _ Hok) as T. unfold enqueue.
  destruct (QueueData p (store w)) as [res r] eqn:Eq. pose proof (QueueData_queued _ _ _ _ Eq) as Hq.
  eapply watch_ok_moved; [exact Hok|done|done|done| | |simpl; by rewrite Er|done|].
  - intros h. pose proof (Hd h) as Hh. rewrite (ok_cnt _ Hok) in Hh. counts. rewrite Er in *. counts. rewrite Hq.
    destruct res; rewrite ?qcnt_insert; case_decide; counts; rewrite ?decide_True, ?decide_False by done; lia.
  - intros x. unfold somewhere, pending, handled. simpl. rewrite Er, Hq. destruct res; simpl; [|set_solver..].
    intros [?|[?|Hl]]; [set_solver..|]. apply lookup_insert_Some in Hl as [[E1 E2]|[_ Hl]]; [|by auto].
    right; left. assert (x = item p) as -> by (destruct x; simpl in *; by rewrite <- E1, <- E2). set_solver.
  - unfold tick_ok. simpl. destruct (tick w); try done. by destruct T as (? & ? & _).
Qed.

Lemma recv_ready_ok p w : recv w = Readying p → distinct_heights w → watch_ok w →
  watch_ok (set_recv Advancing (readied p w)).
Proof.
  intros Er Hd [C R S D B Rc T I]. rewrite Er in *. unfold readied.
  pose proof (ReadyData_queued p (store w) _ _ (surjective_pairing _)) as Hq.
  split; unfold total; simpl; try done.
  - intros h. specialize (C h). counts. rewrite Er in C. counts. rewrite Hq. lia.
  - intros h Hh. specialize (D h Hh). counts. lia.
  - intros h Hh. destruct (decide (h = index w)) as [->|Hne]; [split; [done|by right]|].
    destruct (B h) as [Hs Hb]; [|destruct Hb as [?|Hb]; [by auto|destruct Hb as [Hb _]; done]].
    counts. rewrite decide_False in Hh by congruence. lia.
  - counts. rewrite decide_True by done. lia.
  - intros x Hx. apply I. revert Hx. unfold handled, pending. simpl. rewrite Er, Hq, !map_app. simpl. set_solver.
Qed.

Lemma recv_advance_ok w : recv w = Advancing → distinct_heights w → watch_ok w →
  let i := i64_add (index w) 1 in
  watch_ok (set_recv (if i >? ending then Forwarding else Listening) (set_index i w)).
Proof.
  intros Er Hd [C R S D B Rc T I]. rewrite Er in *.
  assert (i64_add (index w) 1 = index w + 1) as ->.
  { apply i64_add_id. unfold is_i64. pose proof (R (index w)) as Hr. rewrite (C (index w)) in Hr. lia. }
  split; unfold total; simpl; try done.
  - intros h. specialize (C h). counts. rewrite Er in C. counts. destruct (_ >? _); counts; lia.
  - lia.
  - intros h Hh. destruct (decide (h = index w)) as [->|]; [done|]. apply D. lia.
  - intros h Hh. destruct (B h Hh) as [? [?|[_ ?]]]; (split; [done|left; lia]).
  - by destruct (_ >? _).
  - destruct (tick w); try done; [lia|]. destruct T as (? & ? & ?). done.
  - intros x Hx. apply I. revert Hx. unfold handled, pending. simpl. rewrite Er. destruct (_ >? _); simpl; auto.
Qed.

(** The steps that only move a goroutine. *)
Lemma quiet_ok w w' : watch_ok w → arrived w' = arrived w → index w' = index w → handled w' = handled w →
  pending w' = pending w → queued (store w') = queued (store w) → advancing (recv w') = advancing (recv w) →
  recv_ok w' → tick_ok w' → watch_ok w'.
Proof.
  intros Hok Ea Ei Eh Ep Eq Er Hr Ht. eapply watch_ok_moved; [exact Hok|try done..].
  - intros h. by rewrite Ep, Eq.
  - intros x. unfold somewhere. by rewrite Eh, Ep, Eq.
Qed.

Lemma tick_got_ok h p n r w : tick w = Getting h → GetQueueData h (store w) = (Ok (p, n), r) →
  distinct_heights w → watch_ok w → watch_ok (set_tick (Storing p n) (set_store r w)).
Proof.
  intros Et Eg Hd Hok. destruct (GetQueueData_queued _ _ _ _ Eg) as (Ep & En & Hq & Hr).
  destruct (queue_alone _ _ _ Hq Hd Hok) as [H1 H2]. pose proof (ok_tick _ Hok) as T. rewrite Et in T.
  pose proof (ok_recv _ Hok) as Rc.
  assert (h = index w) as Eh.
  { destruct (decide (h = index w)); [done|]. pose proof (ok_done _ Hok h). lia. }
  assert (- 2 ^ 63 ≤ h < 2 ^ 63 - 1) as Hrange.
  { apply (ok_range _ Hok). rewrite (ok_cnt _ Hok). unfold qcnt. rewrite Hq. lia. }
  eapply watch_ok_moved; [exact Hok|done|done| | | |done| |].
  - unfold handled. simpl. by rewrite Et.
  - intros k. pose proof (qcnt_delete k h _ _ Hq) as Hk. counts. rewrite Et, Hr. counts. rewrite Ep. lia.
  - intros x. unfold somewhere, pending, handled. simpl. rewrite Et, Hr. simpl.
    assert (queued (store w) !! (item p).1 = Some (item p).2) as Hp by (simpl; by rewrite Ep).
    rewrite lookup_delete_Some. rewrite !map_app. simpl. rewrite !elem_of_app, !elem_of_cons. 
    intros [?|[[?|[?|[->|?]]]|[_ ?]]]; auto.
  - unfold recv_ok, handled in *. simpl. by rewrite Et in Rc.
  - unfold tick_ok. simpl. split_and!; [congruence|rewrite En, i64_add_id by (unfold is_i64; lia); lia|].
    revert Rc H2. unfold pending. destruct (recv w) as [|q| | | |] eqn:Er; simpl; try done.
    + intros Eq. rewrite cnt_app, cnt_item. rewrite decide_True by congruence. lia.
    + intros Hi _. rewrite <- Eh in Hi. lia.
Qed.

Lemma tick_store_ok p n w : tick w = Storing p n → distinct_heights w → watch_ok w →
  watch_ok (set_tick (Comparing p) (set_index n w)).
Proof.
  intros Et Hd [C R S D B Rc T I]. rewrite Et in T. destruct T as (Ep & -> & Hr).
  assert (advancing (recv w) = false) as Ha by (by destruct (recv w)).
  split; unfold total; simpl; try done.
  - intros h. specialize (C h). counts. rewrite Et in C. counts. lia.
  - lia.
  - intros h Hh. destruct (decide (h = index w)) as [->|].
    + counts. rewrite decide_True by done. lia.
    + specialize (D h). counts. rewrite Et in D. counts. lia.
  - intros h Hh. destruct (decide (h = index w)) as [->|Hne]; [split; [done|left; lia]|].
    destruct (B h) as [Hs Hb]; [counts; rewrite Et; counts; rewrite decide_False in Hh by congruence; lia|].
    split; [done|]. destruct Hb as [?|[Hb _]]; [left; lia|congruence].
  - by destruct (recv w).
  - intros x Hx. apply I. revert Hx. unfold handled, pending. simpl. rewrite Et, !map_app. simpl. set_solver.
Qed.

Lemma push_ok p w : - 2 ^ 63 ≤ sp_Height p < 2 ^ 63 - 1 → watch_ok w → watch_ok (push p w).
Proof.
  intros Hp [C R S D B Rc T I]. split; unfold total; simpl; try done.
  - intros h. specialize (C h). unfold total in C. unfold handled, pending in *. simpl. rewrite !items_app, !cnt_app. rewrite !cnt_app in C. lia.
  - intros h. rewrite items_app, cnt_app, items_cons. specialize (R h). unfold total in R.
    destruct (Service.SubscriptionPayload_Error p); simpl; rewrite ?cnt_item, ?cnt_nil.
    + intros Hc. apply R. clear - Hc. lia.
    + destruct (decide (sp_Height p = h)) as [<-|]; [done|]. intros Hc. apply R. clear - Hc. lia.
  - intros x. specialize (I x). revert I. unfold handled, pending. simpl. rewrite !items_app, !elem_of_app. tauto.
Qed.

Lemma wstep_ok w w' : wstep ending w w' → distinct_heights w → watch_ok w → watch_ok w'.
Proof.
  intros [v v' Hp|p v Hb] Hd Hok; [|by apply push_ok]. pose proof (ok_tick _ Hok) as T. pose proof (ok_recv _ Hok) as Rc.
  destruct Hp as [p c v Er Ec|v Er|p v Er _|v Er|p v Er _|v Et|h e r v Et Eg|h p n r v Et Eg|p n v Et|p v Et|p v Et _|p v Et Er|v Er Et].
  - by apply recv_payload_ok.
  - apply (quiet_ok v); try done; unfold handled, pending, tick_ok; simpl; rewrite ?Er; try done.
    rewrite Er in T. by destruct (tick v).
  - by apply recv_ready_ok.
  - by apply recv_advance_ok.
  - by apply recv_queue_ok.
  - apply (quiet_ok v); try done; unfold handled, pending, recv_ok, tick_ok in *; simpl; rewrite ?Et in *; try done.
    split; [apply (ok_start _ Hok)|done].
  - pose proof (GetQueueData_queued _ _ _ _ Eg) as Hq.
    apply (quiet_ok v); try done; unfold handled, pending, recv_ok in *; simpl; by rewrite ?Et in *.
  - by eapply tick_got_ok.
  - by apply tick_store_ok.
  - apply (quiet_ok v); try done; unfold handled, pending, tick_ok, recv_ok in *; simpl; rewrite ?Et in *; by destruct (_ >? _).
  - pose proof (ReadyData_queued p (store v) _ _ (surjective_pairing _)) as Hq.
    assert (handled (set_tick Waiting (readied p v)) = handled v) as Eh.
    { unfold handled. simpl. rewrite Et. simpl. by rewrite app_nil_r. }
    apply (quiet_ok v); try done; unfold pending, recv_ok; rewrite ?Eh; simpl; by rewrite ?Et.
  - apply (quiet_ok v); try done; unfold handled, pending, recv_ok; simpl; by rewrite ?Et, ?Er.
  - apply (quiet_ok v); try done; unfold handled, pending, recv_ok; simpl; by rewrite ?Et, ?Er.
Qed.

Lemma watch_reachable_ok w w' : rtc (wstep ending) w w' → distinct_heights w' → watch_ok w → watch_ok w'.
Proof.
  induction 1 as [w|w w1 w' Hs Hr IH]; [done|]. intros Hd Hok. apply IH; [done|]. apply (wstep_ok w); try done.
  intros h. etransitivity; [|apply (Hd h)]. etransitivity; [by eapply total_step|].
  clear IH Hd Hok Hs. induction Hr as [|w1 w2 w3 Hs _ IH]; [done|]. etransitivity; [by eapply total_step|done].
Qed.

(** C11: if every height comes once, then however the goroutines interleave
    no height is given to the trigger tables twice, none is given that was not
    sent or queued with that data, and no height between the start and the index
    is left out: all but the one that the ticker holds have been handed over. *)
Theorem combinedQueuing_complete r w :
  queued r = q0 → (∀ h, is_Some (q0 !! h) → - 2 ^ 63 ≤ h < 2 ^ 63 - 1) →
  rtc (wstep ending) (watch_start start r) w → distinct_heights w →
  NoDup (map sp_Height (ready w)) ∧
  (∀ p, p ∈ ready w → (item p ∈ items (arrived w) ∨ q0 !! sp_Height p = Some (sp_Data p)) ∧
     start ≤ sp_Height p ≤ index w) ∧
  (∀ h, start ≤ h < index w → h ∈ map sp_Height (ready w ++ tick_held (tick w))).
Proof.
  intros Hq Hb Hr Hd. assert (watch_ok w) as Hok.
  { apply (watch_reachable_ok _ _ Hr Hd), watch_start_ok; [done|]. intros h Hh. apply Hb. unfold qcnt in Hh.
    destruct (q0 !! h); [by eexists|lia]. }
  assert (∀ h, cnt h (map item (ready w)) ≤ cnt h (handled w))%nat as Hle.
  { intros h. unfold handled. rewrite map_app, cnt_app. lia. }
  assert (∀ l, map fst (map item l) = map sp_Height l) as Efst by (intros l; rewrite map_map; by apply map_ext).
  split_and!.
  - rewrite <- Efst. apply cnt_NoDup. intros h. specialize (Hd h). rewrite (ok_cnt _ Hok) in Hd. specialize (Hle h). lia.
  - intros p Hp. assert (item p ∈ handled w) as Hin.
    { unfold handled. rewrite map_app. apply elem_of_app. left. by apply list_elem_of_fmap_2. }
    split; [apply (ok_items _ Hok (item p)); by left|].
    destruct (ok_bound _ Hok (sp_Height p)) as [Hs Hi]; [|lia]. apply cnt_pos. by apply (list_elem_of_fmap_2 fst) in Hin.
  - intros h Hh. rewrite <- Efst. by apply cnt_pos, (ok_done _ Hok).
Qed.

End Reliable.
