(* ===== verification/WatcherRuns.v ===== *)
(** * Runs of the watcher (pkg/watcher/service.go)

    Theorems on the processes of [Watcher]: that the service as constructed
    never gets to them, when they stop, what they lose when the queue does not
    work, how they can block each other, and what the goroutine of a historical
    watch makes of the payloads it receives. *)

From S2P Require Import Prelude GoInt Geth.
From S2P Require Service EthFilterer EthService.
From S2P Require Import Watcher.

#[local] Arguments i64_add : simpl never.

(** ** Starting *)

Section Starting.
Context `{Repository}.

(** [NewWatcher] never sets the pointer of the index, and [Watch] stores the
    starting block through it: with a subscription that could be opened, it
    panics. *)
Lemma Watch_panics rlpConfig Stream start stop only r params :
  rlpConfig = Ok params → Stream params = Ok tt →
  ∃ w, Watch rlpConfig Stream start stop only (NewService r) = Panic w.
Proof. intros -> Hs. unfold Watch. simpl. rewrite Hs. by eexists. Qed.

End Starting.

(** ** Stopping *)

Section Stopping.
Context `{RepositoryLaws}.
Variables (ending start : Z).
Hypothesis ends : ending < start.
Hypothesis fits : - 2 ^ 63 ≤ start ∧ start + 3 < 2 ^ 63.

Definition handing (t : ticker) : nat := match t with Handing _ => 1 | _ => 0 end.

(** Before the receiver leaves its loop, and after. *)
Definition early (r : receiver) : bool := match r with Forwarding | Gone => false | _ => true end.

Definition few (w : watch) : Prop :=
  match recv w with
  | Listening | Queueing _ | Readying _ => ready w = [] ∧ handing (tick w) = 0%nat
  | Advancing => length (ready w) = 1%nat ∧ handing (tick w) = 0%nat
  | Forwarding | Gone => (length (ready w) + handing (tick w) ≤ 1)%nat
  end.

(** How far the index can get. *)
Definition near (w : watch) : Prop :=
  if early (recv w) then
    match tick w with
    | Waiting => index w = start
    | Getting h => index w = start ∧ h = start
    | Storing _ n => index w = start ∧ n = start + 1
    | Comparing _ | Quitting _ => index w = start + 1
    | Handing _ | Stopped => False
    end
  else
    start ≤ index w ∧
    match tick w with
    | Waiting | Handing _ => index w ≤ start + 2
    | Getting h => index w ≤ start + 2 ∧ start ≤ h ≤ start + 2
    | Storing _ n => index w ≤ start + 2 ∧ start < n ≤ start + 3
    | Comparing _ | Quitting _ | Stopped => index w ≤ start + 3
    end.

Lemma add_one z : start ≤ z ≤ start + 2 → i64_add z 1 = z + 1.
Proof. intros Hz. apply i64_add_id. unfold is_i64. lia. Qed.

Lemma few_step w w' : wstep ending w w' → few w ∧ near w → few w' ∧ near w'.
Proof.
  intros [v v' Hp|p v _]; [|done]. unfold few, near.
  destruct Hp as [p c v Er Ec|v Er|p v Er _|v Er|p v Er _|v Et|h e r v Et Eg|h p n r v Et Eg|p n v Et|p v Et|p v Et _|p v Et Er|v Er Et];
    simpl; rewrite ?Er, ?Et; simpl.
  - unfold dispatch. destruct (Service.SubscriptionPayload_Error p); [done|]. by destruct (_ =? _).
  - intros [[-> Hh] Hn]. split; [simpl; lia|]. destruct (tick v); try done; simpl in *; lia.
  - by intros [[-> Hh] Hn].
  - intros [[Hl Hh] Hn]. assert (start ≤ index v ≤ start + 1) as Hi by (destruct (tick v); try done; lia).
    assert (i = index v + 1) as -> by (apply add_one; lia).
    assert (index v + 1 >? ending = true) as -> by lia. simpl. split; [lia|].
    destruct (tick v); try done; simpl in *; lia.
  - unfold enqueue. by destruct (QueueData _ _).
  - intros [Hf Hn]. destruct (recv v); simpl in *; (split; [done|]); lia.
  - intros [Hf Hn]. destruct (recv v); simpl in *; (split; [done|]); lia.
  - intros [Hf Hn]. destruct (GetQueueData_queued _ _ _ _ Eg) as (_ & -> & _).
    destruct (recv v); simpl in *; (split; [done|]); rewrite add_one by lia; lia.
  - intros [Hf Hn]. destruct (recv v); simpl in *; (split; [done|]); lia.
  - intros [Hf Hn]. assert (index v >? ending = true) as -> by (destruct (recv v); simpl in *; lia).
    destruct (recv v); simpl in *; (split; [done|]); lia.
  - intros [Hf Hn]. destruct (recv v); simpl in *; try (destruct Hf; lia); try done;
      (split; [rewrite length_app; simpl; lia|]); lia.
  - intros [[-> _] Hn]. simpl. split; [done|lia].
  - intros [Hf Hn]. simpl. split; [lia|]. simpl in Hn. lia.
Qed.

(** The settings document that an ending block of 0 or less means "no
    end", but the index is compared with it as it is: then the watcher hands over
    one payload at most, whatever arrives and however its goroutines interleave. *)
Theorem no_end_stops_at_once r w :
  rtc (wstep ending) (watch_start start r) w → (length (ready w) ≤ 1)%nat.
Proof.
  intros Hr. assert (few w ∧ near w) as [Hf _].
  { remember (watch_start start r) as w0 eqn:E0. assert (few w0 ∧ near w0) as H1 by (subst; done).
    clear E0. induction Hr as [w|w w1 w2 Hs _ IH]; [done|]. apply IH. by eapply few_step. }
  unfold few in Hf. destruct (recv w); try (destruct Hf as [-> _]; simpl; lia); lia.
Qed.

End Stopping.

(** ** A queue that does not work *)

Section NoQueue.
Context `{Repository}.
Variables (ending start : Z).
(** In the states of the repository that matter, which its calls do not leave. *)
Variable usable : Repo → Prop.
Hypothesis no_put : ∀ p r, usable r → is_ok (QueueData p r).1 = false ∧ usable (QueueData p r).2.
Hypothesis no_get : ∀ h r, usable r → is_ok (GetQueueData h r).1 = false ∧ usable (GetQueueData h r).2.
Hypothesis ready_usable : ∀ p r, usable r → usable (ReadyData p r).2.
Hypothesis start_fits : - 2 ^ 63 ≤ start < 2 ^ 63 - 1.

Definition good (l : list SubscriptionPayload) : list SubscriptionPayload :=
  filter (λ p, Service.SubscriptionPayload_Error p = None) l.

(** The index, before an increment that is under way. *)
Definition upcoming (w : watch) : Z := index w + (if advancing (recv w) then 1 else 0).

Record unqueued (w : watch) : Prop := {
  un_ready : map sp_Height (ready w) = seqZ start (Z.of_nat (length (ready w)));
  un_index : upcoming w = start + Z.of_nat (length (ready w));
  un_tick : match tick w with Waiting | Getting _ | Stopped => True | _ => False end;
  un_recv : match recv w with Readying p => sp_Height p = index w | Advancing => ready w ≠ [] | _ => True end;
  un_all : good (arrived w) ≡ₚ ready w ++ lost w ++ recv_held (recv w) ++ good (chan w);
  un_range : Forall (λ p, sp_Height p < 2 ^ 63 - 1) (good (arrived w));
  un_store : usable (store w)
}.

Lemma seqZ_snoc n : seqZ start (Z.of_nat (S n)) = seqZ start (Z.of_nat n) ++ [start + Z.of_nat n].
Proof. by rewrite seqZ_S. Qed.

Lemma unqueued_progress w w' : progress ending w w' → unqueued w → unqueued w'.
Proof.
  intros Hp [R I T V A B U]. unfold upcoming in *.
  destruct Hp as [p c v Er Ec|v Er|p v Er _|v Er|p v Er _|v Et|h e r v Et Eg|h p n r v Et Eg|p n v Et|p v Et|p v Et _|p v Et Er|v Er Et];
    rewrite ?Er, ?Et in *; simpl in *; try done; try (split; unfold upcoming; simpl; rewrite ?Er; done).
  - unfold dispatch. rewrite Ec in A. unfold good in A. rewrite filter_cons in A. fold (good (arrived v)) in A.
    destruct (Service.SubscriptionPayload_Error p) eqn:Ee; [rewrite decide_False in A by done|rewrite decide_True in A by done].
    + by split.
    + destruct (Z.eqb_spec (sp_Height p) (index v)); by split.
  - split; unfold upcoming; simpl; try done.
    + rewrite map_app, length_app, R. simpl. rewrite Nat.add_1_r, seqZ_snoc. f_equal. f_equal. lia.
    + rewrite length_app. simpl. lia.
    + by destruct (ready v).
    + rewrite A. simpl. rewrite <- app_assoc. apply Permutation_app_head. simpl. symmetry. apply Permutation_middle.
    + by apply ready_usable.
  - assert (i = index v + 1) as ->.
    { apply i64_add_id. unfold is_i64. split; [lia|].
      assert (index v ∈ map sp_Height (ready v)) as Hin by (rewrite R; apply elem_of_seqZ;
        assert (length (ready v) ≠ 0%nat) by (by destruct (ready v)); lia).
      apply list_elem_of_fmap in Hin as (p & -> & Hp). rewrite Forall_forall in B.
      assert (sp_Height p < 2 ^ 63 - 1) as Hb; [|lia]. apply B. rewrite A. set_solver. }
    split; unfold upcoming; simpl; try done; destruct (_ >? _); simpl; try done; lia.
  - unfold enqueue. destruct (no_put p (store v) U) as [Hno Hu]. destruct (QueueData p (store v)) as [res r].
    split; unfold upcoming; simpl; try done. rewrite A. destruct res; [done|..]; simpl;
      by rewrite <- !app_assoc.
  - destruct (no_get h (store v) U) as [_ Hu]. rewrite Eg in Hu. by split.
  - destruct (no_get h (store v) U) as [Hno _]. by rewrite Eg in Hno.
Qed.

(** When nothing can be queued or taken from the queue, the payloads
    handed over are those of consecutive heights from the start, in order, and
    every other one is lost: a payload that comes before its turn is not handed
    over, and the watcher stays at a height until that height comes again. *)
Lemma unqueued_in_order r w :
  usable r → rtc (wstep ending) (watch_start start r) w →
  map sp_Height (ready w) = seqZ start (Z.of_nat (length (ready w))) ∧
  good (arrived w) ≡ₚ ready w ++ lost w ++ recv_held (recv w) ++ good (chan w) ∧
  (recv w = Listening → index w = start + Z.of_nat (length (ready w))).
Proof.
  intros Hu Hr. assert (unqueued w) as [R I _ _ A _ _].
  { remember (watch_start start r) as w0 eqn:E0. assert (unqueued w0) as H1.
    { subst. split; unfold upcoming; simpl; try done; lia. }
    clear E0. induction Hr as [w|w w1 w2 Hs _ IH]; [done|]. apply IH.
    destruct Hs as [v v' Hp|p v Hb]; [by apply (unqueued_progress v)|]. destruct H1 as [R I T V A B U].
    split; try done; unfold good in *; simpl; rewrite !filter_app.
    - rewrite A, !app_assoc. done.
    - apply Forall_app. split; [done|]. rewrite filter_cons, filter_nil. case_decide; [|constructor].
      repeat constructor. lia. }
  split_and!; [done|done|]. intros Er. unfold upcoming in I. rewrite Er in I. simpl in I. lia.
Qed.

End NoQueue.

(** ** Both goroutines at the end *)

Section Blocked.
Context `{Repository}.
Variable ending : Z.

(** The receiver forwards the quit signal while the ticker sends its own. *)
Definition blocked (w : watch) : Prop := recv w = Forwarding ∧ ∃ p, tick w = Quitting p.

Lemma blocked_stuck w w' : blocked w → ¬ progress ending w w'.
Proof.
  intros [Hr [p Ht]] Hp. destruct Hp; congruence.
Qed.

(** Neither leaves again, and the payload of the ticker is never handed over. *)
Lemma blocked_forever w w' : blocked w → rtc (wstep ending) w w' → blocked w' ∧ tick w' = tick w ∧ ready w' = ready w.
Proof.
  intros Hb Hr. induction Hr as [w|w w1 w2 Hs _ IH]; [done|].
  destruct Hs as [v v' Hp|p v _]; [by apply blocked_stuck in Hp|]. by destruct (IH Hb) as (? & ? & ?).
Qed.

End Blocked.

(** A repository in memory that never fails. *)
Module Mem.

Definition mem_repository : Repository := {|
  Repo := gmap Z bytes;
  LoadTriggers := λ r, (Ok tt, r);
  QueueData := λ p r, (Ok tt, <[sp_Height p := sp_Data p]> r);
  GetQueueData := λ h r,
    match r !! h with
    | Some d => (Ok (Service.mkPayload d h "" Service.EmptyFlag, i64_add h 1), delete h r)
    | None => (Err (Errorf "sql: no rows in result set"), r)
    end;
  ReadyData := λ _ r, (Ok tt, r) |}.

Definition mem_laws : RepositoryLaws (H := mem_repository).
Proof.
  refine {| queued := λ r : Repo (Repository := mem_repository), (r : gmap Z bytes) |}.
  - by intros p r res r' [= <- <-].
  - simpl. intros h r res r'. destruct (r !! h) eqn:E; intros [= <- <-]; done.
  - by intros p r res r' [= <- <-].
Defined.

#[export] Existing Instance mem_repository.
#[export] Existing Instance mem_laws.

Definition data (h : Z) : SubscriptionPayload := Service.mkPayload [h] h "" Service.EmptyFlag.

(** A schedule: what happens next. *)
Inductive event : Type := Arrive (h : Z) | Receive | Do_ready | Advance | Do_queue | Load | Get | Store | Compare | Hand.

Definition run_event (ending : Z) (e : event) (w : watch) : option watch :=
  match e, recv w, tick w with
  | Arrive h, _, _ => Some (push (data h) w)
  | Receive, Listening, _ =>
      match chan w with p :: c => Some (set_recv (dispatch p (index w)) (set_chan c w)) | [] => None end
  | Do_ready, Readying p, _ => Some (set_recv Advancing (readied p w))
  | Advance, Advancing, _ =>
      let i := i64_add (index w) 1 in Some (set_recv (if i >? ending then Forwarding else Listening) (set_index i w))
  | Do_queue, Queueing p, _ => Some (set_recv Listening (enqueue p w))
  | Load, _, Waiting => Some (set_tick (Getting (index w)) w)
  | Get, _, Getting h =>
      match GetQueueData h (store w) with
      | (Ok (p, n), r) => Some (set_tick (Storing p n) (set_store r w))
      | (Err _, r) => Some (set_tick Waiting (set_store r w))
      | _ => None
      end
  | Store, _, Storing p n => Some (set_tick (Comparing p) (set_index n w))
  | Compare, _, Comparing p => Some (set_tick (if index w >? ending then Quitting p else Handing p) w)
  | Hand, _, Handing p => Some (set_tick Waiting (readied p w))
  | _, _, _ => None
  end.

Fixpoint run_events (ending : Z) (es : list event) (w : watch) : option watch :=
  match es with
  | [] => Some w
  | e :: es => match run_event ending e w with Some w => run_events ending es w | None => None end
  end.

Definition fits (e : event) : bool :=
  match e with Arrive h => (- 2 ^ 63 <=? h) && (h <? 2 ^ 63 - 1) | _ => true end.

Lemma run_event_step ending e w w' : fits e = true → run_event ending e w = Some w' → wstep ending w w'.
Proof.
  intros Hf. unfold run_event. destruct e; simpl in Hf.
  - intros [= <-]. apply w_push. simpl. lia.
  - destruct (recv w) eqn:Er; try done. destruct (chan w) eqn:Ec; [done|]. intros [= <-]. by apply w_progress, recv_payload.
  - destruct (recv w) eqn:Er; try done. intros [= <-]. by apply w_progress, recv_ready.
  - destruct (recv w) eqn:Er; try done. intros [= <-]. by apply w_progress, recv_advance.
  - destruct (recv w) eqn:Er; try done. intros [= <-]. by apply w_progress, recv_queue.
  - destruct (recv w), (tick w) eqn:Et; try done; intros [= <-]; by apply w_progress, tick_load.
  - destruct (tick w) as [|h| | | | |] eqn:Et; try by destruct (recv w).
    destruct (GetQueueData h (store w)) as [[[p n]|e|y] r] eqn:Eg; destruct (recv w); try done; intros [= <-];
      apply w_progress; solve [by eapply tick_got|by eapply tick_empty].
  - destruct (recv w), (tick w) eqn:Et; try done; intros [= <-]; by apply w_progress, tick_store.
  - destruct (recv w), (tick w) eqn:Et; try done; intros [= <-]; by apply w_progress, tick_compare.
  - destruct (recv w), (tick w) eqn:Et; try done; intros [= <-]; by apply w_progress, tick_hand.
Qed.

Lemma run_events_steps ending es : ∀ w w', forallb fits es = true → run_events ending es w = Some w' → rtc (wstep ending) w w'.
Proof.
  induction es as [|e es IH]; intros w w'; simpl; [by intros _ [= <-]|].
  intros [Hf Hfs]%andb_true_iff. destruct (run_event ending e w) as [w1|] eqn:E; [|done].
  intros Hr. eapply rtc_l; [by eapply run_event_step|by apply IH].
Qed.

End Mem.

(** ** Races *)

Section Races.
Import Mem.

(** Heights 0, 1, 2 of a watch that ends at 2: height 1 comes early and is
    queued; the ticker takes it and stores the index 2, the receiver hands over
    height 2 before the ticker looks at the index again. *)
Definition ex_blocked_run : list event :=
  [Arrive 1; Arrive 0; Arrive 2; Receive; Do_queue; Receive; Do_ready; Advance; Load; Get; Store;
   Receive; Do_ready; Advance; Compare].

(** The same heights of a watch without end in sight. *)
Definition ex_disordered_run : list event :=
  [Arrive 1; Arrive 0; Arrive 2; Receive; Do_queue; Receive; Do_ready; Advance; Load; Get; Store;
   Receive; Do_ready; Compare; Hand].

(** Where these runs lead. *)
Definition run_to (ending : Z) (es : list event) : watch :=
  match run_events ending es (watch_start 0 ∅) with Some w => w | None => watch_start 0 ∅ end.

Lemma run_to_reachable ending es :
  forallb fits es = true → (if run_events ending es (watch_start 0 ∅) is Some _ then true else false) = true →
  rtc (wstep ending) (watch_start 0 ∅) (run_to ending es).
Proof.
  unfold run_to. destruct (run_events ending es _) as [w|] eqn:E; [|done]. intros Hf _. by apply (run_events_steps ending es).
Qed.

Lemma ex_blocked_reachable : rtc (wstep 2) (watch_start 0 ∅) (run_to 2 ex_blocked_run).
Proof. apply run_to_reachable; vm_compute; reflexivity. Qed.

Lemma ex_disordered_reachable : rtc (wstep 100) (watch_start 0 ∅) (run_to 100 ex_disordered_run).
Proof. apply run_to_reachable; vm_compute; reflexivity. Qed.

(** With every height coming once and a repository that never fails, the
    goroutines can reach a state in which each waits to send to the other: the
    watcher does not end, no step of theirs is possible again, and the payload
    that the ticker took off the queue is never handed over. *)
Theorem goroutines_block_each_other :
  ∃ w p, rtc (wstep 2) (watch_start 0 ∅) w ∧ map sp_Height (arrived w) = [1; 0; 2] ∧
    recv w = Forwarding ∧ tick w = Quitting p ∧ sp_Height p = 1 ∧
    ∀ w', rtc (wstep 2) w w' → (∀ w'', ¬ progress 2 w' w'') ∧ map sp_Height (ready w') = [0; 2].
Proof.
  assert (recv (run_to 2 ex_blocked_run) = Forwarding) as Hf by (vm_compute; reflexivity).
  assert (tick (run_to 2 ex_blocked_run) = Quitting (data 1)) as Hq by (vm_compute; reflexivity).
  exists (run_to 2 ex_blocked_run), (data 1). split; [apply ex_blocked_reachable|].
  split; [vm_compute; reflexivity|]. split; [exact Hf|]. split; [exact Hq|]. split; [reflexivity|].
  intros w' Hw. destruct (blocked_forever 2 _ w' (conj Hf (ex_intro _ _ Hq)) Hw) as (Hb' & _ & ->).
  split; [|vm_compute; reflexivity]. intros w''. by apply blocked_stuck.
Qed.

(** The ticker stores the index before it hands its payload over, so a
    later height can overtake it: the heights of the trigger tables are out of
    order although every height comes once. *)
Theorem order_is_lost :
  ∃ w, rtc (wstep 100) (watch_start 0 ∅) w ∧ map sp_Height (ready w) = [0; 2; 1].
Proof.
  exists (run_to 100 ex_disordered_run). split; [apply ex_disordered_reachable|vm_compute; reflexivity].
Qed.

End Races.

(** ** Historical data only *)

Section Historical.
Context `{Repository}.
Hypothesis ready_returns : ∀ p r, no_panic (ReadyData p r).1.

(** The repository after a list of payloads. *)
Definition hand_over (ps : list SubscriptionPayload) (r : Repo) : Repo := foldl (λ r p, (ReadyData p r).2) r ps.

Lemma backFillOnlyQueuing_data ps rest : ∀ r,
  Forall (λ p, Service.BackFillComplete p = false) ps →
  backFillOnlyQueuing (ps ++ rest) r =
  (rest <-! backFillOnlyQueuing rest (hand_over (good ps) r) ;;
   let '(done, r, stopped) := rest in Ok (good ps ++ done, r, stopped)).
Proof.
  induction ps as [|p ps IH]; intros r Hf; simpl.
  - by destruct (backFillOnlyQueuing rest r) as [[[done r'] st]|e|w].
  - apply Forall_cons in Hf as [Hp Hf]. unfold good. rewrite filter_cons. fold (good ps).
    destruct (Service.SubscriptionPayload_Error p) eqn:Ee; [rewrite decide_False by done; by apply IH|].
    rewrite decide_True by done. rewrite Hp. specialize (ready_returns p r). simpl.
    destruct (ReadyData p r) as [[[]|e|w] r1]; simpl in *; [..|done];
      rewrite IH by done; by destruct (backFillOnlyQueuing rest _) as [[[done r'] st]|e'|w'].
Qed.

(** What a retrieval sends is not flagged. *)
Lemma packets_not_complete `{Service.Chain} {CIDs} (Retrieve : Service.Settings → Z → result (list CIDs * bool))
    (Fetch : CIDs → result Service.Response) params i ps :
  Service.packets_of_height CIDs Retrieve Fetch params i = Ok ps → Forall (λ p, Service.BackFillComplete p = false) ps.
Proof.
  unfold Service.packets_of_height. destruct (Retrieve params i) as [[cs empty]|e|w]; [|by intros [= <-]; repeat constructor|done].
  destruct empty; [by intros [= <-]|]. intros (pss & Hp & [= <-])%rbind_Ok_inv. apply Forall_concat.
  apply range_collect_Ok in Hp. eapply Forall2_Forall_r; [exact Hp|]. apply Forall_forall. intros c _ qs.
  unfold Service.packets_of_cids. destruct (Fetch c) as [r|e|w]; [|by intros [= <-]; repeat constructor|done].
  destruct (Service.Response_rlp r) as [d|e|w]; [|by intros [= <-]; repeat constructor|done].
  intros (h & _ & [= <-])%rbind_Ok_inv. by repeat constructor.
Qed.

End Historical.

(** ** Witnesses *)

Section Witnesses.
Import Mem.

Lemma ex_disordered_distinct : distinct_heights ∅ (run_to 100 ex_disordered_run).
Proof.
  intros h. unfold total.
  assert (items (arrived (run_to 100 ex_disordered_run)) = [item (data 1); item (data 0); item (data 2)]) as ->
    by (vm_compute; reflexivity).
  rewrite !cnt_item, cnt_nil. unfold qcnt. rewrite lookup_empty. unfold data, Service.sp_Height.
  repeat case_decide; lia.
Qed.

Lemma combinedQueuing_complete_witness :
  NoDup (map sp_Height (ready (run_to 100 ex_disordered_run))) ∧
  ∀ h, 0 ≤ h < 2 → h ∈ map sp_Height (ready (run_to 100 ex_disordered_run)).
Proof.
  destruct (combinedQueuing_complete (H := mem_repository) 100 0 ∅ (∅ : gmap Z bytes) (run_to 100 ex_disordered_run)) as (H1 & _ & H3);
    [reflexivity|by intros h [d Hd]|apply ex_disordered_reachable|apply ex_disordered_distinct|].
  split; [exact H1|]. intros h Hh.
  assert (index (run_to 100 ex_disordered_run) = 2) as Ei by (vm_compute; reflexivity).
  assert (tick (run_to 100 ex_disordered_run) = Waiting) as Et by (vm_compute; reflexivity).
  specialize (H3 h). rewrite Ei, Et in H3. simpl in H3. rewrite app_nil_r in H3. apply H3. exact Hh.
Defined.

(** A watch without an end that begins at height 0. *)
Definition ex_one_run : list event := [Arrive 0; Arrive 1; Receive; Do_ready; Advance].

Lemma no_end_stops_at_once_witness :
  map sp_Height (ready (run_to 0 ex_one_run)) = [0] ∧ recv (run_to (-1) ex_one_run) = Forwarding ∧
  (length (ready (run_to (-1) ex_one_run)) ≤ 1)%nat.
Proof.
  split; [vm_compute; reflexivity|]. split; [vm_compute; reflexivity|].
  apply (no_end_stops_at_once (H := mem_repository) (-1) 0 ltac:(lia) ltac:(lia) (∅ : gmap Z bytes)).
  apply run_to_reachable; vm_compute; reflexivity.
Defined.

End Witnesses.
