(* ===== verification/HistoricalFeed.v ===== *)
(** * The historical feed of a super node, followed into a watcher
    (pkg/super_node: service.go, api.go; pkg/watcher/service.go)

    Three goroutines run side by side: that of [sendHistoricalData], which looks
    the heights of a range up and offers their packets to the channel of the
    subscription, dropping what does not fit; the relay of [Stream], which
    notifies the client of each packet it receives from this channel; and that
    of [backFillOnlyQueuing] in the client, which hands the payloads over to its
    repository.  Between the last two is the RPC connection, which keeps the
    order of the notifications.  Nobody quits or disconnects. *)

From S2P Require Import Prelude GoInt Geth.
From S2P Require Service ServiceApi EthFilterer EthService.
From S2P Require Import Watcher WatcherRuns.

#[local] Arguments i64_add : simpl never.

(** ** The processes *)

(** The goroutine of [sendHistoricalData]: about to compare [i] with the last
    height, or with the CIDs of [i] that it has not fetched yet. *)
Inductive feed (CIDs : Type) : Type :=
| Before
| AtHeight (i endingBlock : Z)
| Fetching (cids : list CIDs) (i endingBlock : Z)
| Over.
Arguments Before {CIDs}.
Arguments AtHeight {CIDs} i endingBlock.
Arguments Fetching {CIDs} cids i endingBlock.
Arguments Over {CIDs}.

Section Feed.
Context `{Repository} `{Service.Chain} `{GethCommon}.
Variable CIDs : Type.
Variable RetrieveFirst RetrieveLast : result Z.
Variable Retrieve : Service.Settings → Z → result (list CIDs * bool).
Variable Fetch : CIDs → result Service.Response.
Variable sub : Service.Subscription.
Variable params : Service.Settings.
(** The watcher's repository at the start. *)
Variable r0 : Repo.

Abbreviation c := (Service.PayloadChan sub).

Record run : Type := mkRun {
  service : Service.Service;
  feeding : feed CIDs;
  wire : list SubscriptionPayload;   (* notified and not received yet *)
  got : list SubscriptionPayload     (* received by the watcher *)
}.

(** The watcher's goroutine has not left its loop. *)
Definition watching (st : run) : bool :=
  match backFillOnlyQueuing (got st) r0 with Ok (_, _, stopped) => negb stopped | _ => false end.

Definition completion_notice : SubscriptionPayload := Service.mkPayload [] 0 "" Service.BackFillCompleteFlag.

Inductive hstep : run → run → Prop :=
| h_start st by_ first last : feeding st = Before →
    Service.Settings_ChainType params = Service.chain (service st) → Service.Settings_rlp params = Ok by_ →
    Service.HistoricalDataOnly params = true →
    Service.historical_range RetrieveFirst RetrieveLast params = Ok (first, last) →
    hstep st (mkRun (service st) (AtHeight first last) (wire st) (got st))
| h_retrieved st i stop cs empty : feeding st = AtHeight i stop → i ≤ stop → Retrieve params i = Ok (cs, empty) →
    hstep st (mkRun (service st) (Fetching (if empty : bool then [] else cs) i stop) (wire st) (got st))
| h_failed st i stop e : feeding st = AtHeight i stop → i ≤ stop → Retrieve params i = Err e →
    hstep st (mkRun (Service.sendNonBlockingErr sub "super node CID Retrieval error" (service st))
      (Fetching [] i stop) (wire st) (got st))
| h_send st x cs i stop sap' : feeding st = Fetching (x :: cs) i stop →
    Service.send_cids CIDs Fetch sub x (service st) = Ok sap' →
    hstep st (mkRun sap' (Fetching cs i stop) (wire st) (got st))
| h_next st i stop : feeding st = Fetching [] i stop →
    hstep st (mkRun (service st) (AtHeight (i64_add i 1) stop) (wire st) (got st))
| h_notice st i stop : feeding st = AtHeight i stop → stop < i →
    hstep st (mkRun (Service.send_payload sub completion_notice (service st)) Over (wire st) (got st))
| h_notify st p ps : ServiceApi.buffered c (service st) = p :: ps →
    hstep st (mkRun (ServiceApi.receive c (service st)) (feeding st) (wire st ++ [p]) (got st))
| h_receive st p ps : wire st = p :: ps → watching st = true →
    hstep st (mkRun (service st) (feeding st) ps (got st ++ [p])).

(** [Stream] has made the channel and started [Subscribe]. *)
Definition feed_start (sap : Service.Service) : run :=
  mkRun (Service.mkService (Service.Subscriptions sap) (Service.SubscriptionTypes sap)
    (<[c := Service.mkChan ServiceApi.payload_capacity []]> (Service.payloads sap))
    (Service.quits sap) (Service.chain sap) (Service.stopped sap)) Before [] [].

Definition stuck_run (st : run) : Prop := ∀ st', ¬ hstep st st'.

(** ** What the feed has still to offer *)

Abbreviation of_cids := (Service.packets_of_cids CIDs Fetch).
Abbreviation of_height := (Service.packets_of_height CIDs Retrieve Fetch params).

(** The packets of the heights from [i] to [stop], and the notice. *)
Definition of_range (i stop : Z) : result (list SubscriptionPayload) :=
  ps <-! range_collect of_height (seqZ i (stop - i + 1)) ;; Ok (concat ps ++ [completion_notice]).

Definition rest (f : feed CIDs) : result (list SubscriptionPayload) :=
  match f with
  | Before => range <-! Service.historical_range RetrieveFirst RetrieveLast params ;; of_range range.1 range.2
  | AtHeight i stop => of_range i stop
  | Fetching cs i stop => ps <-! range_collect of_cids cs ;; qs <-! of_range (i + 1) stop ;; Ok (concat ps ++ qs)
  | Over => Ok []
  end.

(** How many CIDs the heights from [i] to [stop] have. *)
Definition cids_at (i : Z) : nat := match Retrieve params i with Ok (cs, _) => length cs | _ => 0 end.
Definition work_from (i stop : Z) : nat := S (sum_list_with (λ j, cids_at j + 2)%nat (seqZ i (stop - i + 1))).
Definition work (f : feed CIDs) : nat :=
  match f with
  | Before => match Service.historical_range RetrieveFirst RetrieveLast params with
              | Ok (a, b) => S (work_from a b) | _ => 0 end
  | AtHeight i stop => work_from i stop
  | Fetching cs i stop => length cs + S (work_from (i + 1) stop)
  | Over => 0
  end.

Definition cost (st : run) : nat :=
  3 * work (feeding st) + 2 * length (ServiceApi.buffered c (service st)) + length (wire st).

(** ** Lemmas *)

Lemma of_range_cons i stop : i ≤ stop →
  of_range i stop = (p <-! of_height i ;; qs <-! of_range (i + 1) stop ;; Ok (p ++ qs)).
Proof.
  intros Hi. unfold of_range. rewrite (seqZ_cons i) by lia. replace (Z.pred (stop - i + 1)) with (stop - (i + 1) + 1) by lia.
  replace (Z.succ i) with (i + 1) by lia. simpl. destruct (of_height i) as [p| |]; simpl; [|done..].
  destruct (range_collect _ _) as [ps| |]; simpl; [|done..]. by rewrite <- app_assoc.
Qed.

Lemma of_range_nil i stop : stop < i → of_range i stop = Ok [completion_notice].
Proof. intros Hi. unfold of_range. by rewrite seqZ_nil by lia. Qed.

Lemma work_from_cons i stop : i ≤ stop → work_from i stop = (cids_at i + 2 + work_from (i + 1) stop)%nat.
Proof.
  intros Hi. unfold work_from. rewrite (seqZ_cons i) by lia. replace (Z.pred (stop - i + 1)) with (stop - (i + 1) + 1) by lia.
  replace (Z.succ i) with (i + 1) by lia. simpl. lia.
Qed.

(** Offering packets to the channel keeps it open; what fits is appended. *)
Lemma send_packets_buffered ps sap : ServiceApi.open_channel c sap →
  ServiceApi.open_channel c (Service.send_packets sub ps sap) ∧
  ServiceApi.buffered c (Service.send_packets sub ps sap) =
    take ServiceApi.payload_capacity (ServiceApi.buffered c sap ++ ps).
Proof.
  intros (ch & Hch & Hcap & Hl). pose proof (Service.send_packets_channel sub ps sap ch Hch) as Hs.
  rewrite Service.offered_take in Hs by lia. unfold ServiceApi.open_channel, ServiceApi.buffered. rewrite Hs, Hch, Hcap.
  split; [|done]. eexists. split; [done|]. simpl. rewrite length_take. split; [done|lia].
Qed.

Lemma send_packets_chain ps : ∀ sap, Service.chain (Service.send_packets sub ps sap) = Service.chain sap.
Proof. induction ps as [|p ps IH]; intros sap; [done|]. simpl. by rewrite IH. Qed.

Lemma good_sublist l k : l `sublist_of` k → good l `sublist_of` good k.
Proof.
  induction 1 as [|x l k _ IH|x l k _ IH]; unfold good in *; simpl; rewrite ?filter_cons; [done|..];
    case_decide; by try constructor.
Qed.

(** ** The invariant *)

Section Invariant.
Hypothesis ready_returns : ∀ p r, no_panic (ReadyData p r).1.
Variable sap : Service.Service.
Variables start stop : Z.
Variable by_ : bytes.
Variable ps : list (list SubscriptionPayload).
Hypothesis same_chain : Service.Settings_ChainType params = Service.chain sap.
Hypothesis encoded : Service.Settings_rlp params = Ok by_.
Hypothesis only : Service.HistoricalDataOnly params = true.
Hypothesis range : Service.historical_range RetrieveFirst RetrieveLast params = Ok (start, stop).
Hypothesis fits : - 2 ^ 63 ≤ start ∧ stop < 2 ^ 63 - 1.
Hypothesis packets : range_collect of_height (seqZ start (stop - start + 1)) = Ok ps.

Definition total : list SubscriptionPayload := concat ps ++ [completion_notice].

Definition feed_in_range (f : feed CIDs) : Prop :=
  match f with
  | Before | Over => True
  | AtHeight i e => e = stop ∧ start ≤ i
  | Fetching _ i e => e = stop ∧ start ≤ i ≤ stop
  end.

(** Everything there was to offer, in order, but for what was dropped -- and
    nothing is dropped when it all fits. *)
Definition accounts (all : list SubscriptionPayload) : Prop :=
  all `sublist_of` total ∧ ((length total ≤ ServiceApi.payload_capacity)%nat → all = total).

Record feed_ok (st : run) : Prop := {
  fo_channel : ServiceApi.open_channel c (service st);
  fo_chain : Service.chain (service st) = Service.chain sap;
  fo_range : feed_in_range (feeding st);
  fo_all : ∃ rs, rest (feeding st) = Ok rs ∧
    accounts (got st ++ wire st ++ ServiceApi.buffered c (service st) ++ rs)
}.

Lemma accounts_offer g w sap' qs rs : ServiceApi.open_channel c sap' →
  accounts (g ++ w ++ ServiceApi.buffered c sap' ++ qs ++ rs) →
  accounts (g ++ w ++ ServiceApi.buffered c (Service.send_packets sub qs sap') ++ rs).
Proof.
  intros Hc [Hsub Heq]. destruct (send_packets_buffered qs sap' Hc) as [_ ->].
  rewrite (app_assoc (ServiceApi.buffered c sap')) in Hsub, Heq. set (b := ServiceApi.buffered c sap' ++ qs) in *. split.
  - etransitivity; [|exact Hsub]. apply sublist_app; [done|]. apply sublist_app; [done|]. apply sublist_app; [|done].
    apply sublist_take.
  - intros Hl. specialize (Heq Hl). rewrite take_ge; [done|].
    apply (f_equal length) in Heq. rewrite !length_app in Heq. lia.
Qed.

Lemma feed_start_ok : feed_ok (feed_start sap).
Proof.
  split; simpl.
  - eexists. simpl. rewrite lookup_insert_eq. split; [reflexivity|]. simpl. split; [done|lia].
  - done.
  - done.
  - rewrite range. simpl. unfold of_range. rewrite packets. simpl. eexists. split; [done|].
    unfold ServiceApi.buffered. simpl. rewrite lookup_insert_eq. simpl. by split.
Qed.

Lemma hstep_ok st st' : hstep st st' → feed_ok st → feed_ok st'.
Proof.
  intros Hs [Hc Hch Hr (rs & Hrs & Ha)].
  destruct Hs as [st by' a b Ef _ _ _ Hab|st i e cs empty Ef Hi Hret|st i e x Ef Hi Hret|st x cs i e sap' Ef Hsend
    |st i e Ef|st i e Ef Hi|st p qs Hb|st p qs Hw _]; try rewrite Ef in *; simpl in *.
  - rewrite range in Hab, Hrs. injection Hab as <- <-. split; simpl; try done. by exists rs.
  - destruct Hr as [-> Hge]. rewrite of_range_cons in Hrs by done.
    apply rbind_Ok_inv in Hrs as (p & Hp & (qs & Hqs & [= <-])%rbind_Ok_inv).
    split; simpl; try done. unfold Service.packets_of_height in Hp. rewrite Hret in Hp. destruct empty; simpl.
    + injection Hp as <-. rewrite Hqs. by eexists.
    + apply rbind_Ok_inv in Hp as (ls & Hls & [= <-]). rewrite Hls. simpl. rewrite Hqs. by eexists.
  - destruct Hr as [-> Hge]. rewrite of_range_cons in Hrs by done.
    apply rbind_Ok_inv in Hrs as (p & Hp & (qs & Hqs & [= <-])%rbind_Ok_inv).
    unfold Service.packets_of_height in Hp. rewrite Hret in Hp. injection Hp as <-.
    split; simpl; try done; [by apply (send_packets_buffered [_])|]. rewrite Hqs. simpl. eexists. split; [done|].
    by apply (accounts_offer _ _ _ [_]).
  - apply rbind_Ok_inv in Hrs as (ls & Hls & (qs & Hqs & [= <-])%rbind_Ok_inv).
    simpl in Hls. apply rbind_Ok_inv in Hls as (l & Hl & (ls' & Hls' & [= <-])%rbind_Ok_inv).
    rewrite (Service.send_cids_packets _ _ _ _ _ _ Hl) in Hsend. injection Hsend as <-.
    split; simpl; [by apply send_packets_buffered|by rewrite send_packets_chain|done|].
    rewrite Hls'. simpl. rewrite Hqs. simpl. eexists. split; [done|]. apply accounts_offer; [done|].
    simpl in Ha. by rewrite <- app_assoc in Ha.
  - destruct Hr as [-> Hge]. apply rbind_Ok_inv in Hrs as (qs & Hqs & [= <-]).
    assert (i64_add i 1 = i + 1) as -> by (apply i64_add_id; unfold is_i64; lia).
    split; simpl; try done; [lia|]. by exists qs.
  - destruct Hr as [-> Hge]. rewrite of_range_nil in Hrs by done. injection Hrs as <-.
    split; simpl; try done; [by apply (send_packets_buffered [_])|]. eexists. split; [done|].
    apply (accounts_offer _ _ _ [_] []); [done|]. by rewrite app_nil_r.
  - destruct (ServiceApi.receive_channel c _ _ _ Hc Hb) as [Hc' Hb']. split; simpl; try done.
    exists rs. split; [done|]. rewrite Hb', <- app_assoc. simpl. by rewrite Hb in Ha.
  - split; simpl; try done. exists rs. split; [done|]. rewrite Hw in Ha. by rewrite <- app_assoc.
Qed.

(** ** Every step makes progress *)

#[local] Arguments work_from : simpl never.
#[local] Arguments Nat.mul : simpl never.

Lemma send_packets_length qs sap' : ServiceApi.open_channel c sap' →
  (length (ServiceApi.buffered c (Service.send_packets sub qs sap')) ≤ length (ServiceApi.buffered c sap') + length qs)%nat.
Proof. intros Hc. destruct (send_packets_buffered qs sap' Hc) as [_ ->]. rewrite length_take, length_app. lia. Qed.

Lemma of_cids_length x l : of_cids x = Ok l → (length l ≤ 1)%nat.
Proof.
  unfold Service.packets_of_cids. destruct (Fetch x) as [r| |]; [|intros [= <-]; done|done].
  destruct (Service.Response_rlp r); [|intros [= <-]; simpl; lia|done]. by intros (h & _ & [= <-])%rbind_Ok_inv.
Qed.

Lemma hstep_cost st st' : hstep st st' → feed_ok st → (cost st' < cost st)%nat.
Proof.
  intros Hs [Hc Hch Hr (rs & Hrs & _)]. unfold cost.
  destruct Hs as [st by' a b Ef _ _ _ Hab|st i e cs empty Ef Hi Hret|st i e x Ef Hi Hret|st x cs i e sap' Ef Hsend
    |st i e Ef|st i e Ef Hi|st p qs Hb|st p qs Hw _]; try rewrite Ef in *; cbn [feeding service wire got work rest feed_in_range length] in *.
  - rewrite Hab. lia.
  - rewrite (work_from_cons i e) by done. unfold cids_at. rewrite Hret. destruct empty; cbn [length]; lia.
  - rewrite (work_from_cons i e) by done. pose proof (send_packets_length [Service.mkPayload [] 0 "super node CID Retrieval error" Service.EmptyFlag] (service st) Hc) as Hl.
    cbn [Service.send_packets foldl length] in Hl. unfold Service.sendNonBlockingErr. lia.
  - apply rbind_Ok_inv in Hrs as (ls & Hls & _). cbn [range_collect] in Hls. apply rbind_Ok_inv in Hls as (l & Hl & _).
    rewrite (Service.send_cids_packets _ _ _ _ _ _ Hl) in Hsend. injection Hsend as <-.
    pose proof (send_packets_length l (service st) Hc). apply of_cids_length in Hl. lia.
  - destruct Hr as [-> Hge]. assert (i64_add i 1 = i + 1) as -> by (apply i64_add_id; unfold is_i64; lia). lia.
  - pose proof (send_packets_length [completion_notice] (service st) Hc) as Hl.
    cbn [Service.send_packets foldl length] in Hl. unfold work_from. lia.
  - destruct (ServiceApi.receive_channel c _ _ _ Hc Hb) as [_ Hb']. rewrite Hb, Hb', length_app. cbn [length]. lia.
  - rewrite Hw. cbn [length]. lia.
Qed.

Lemma hstep_ends st : feed_ok st → Acc (flip hstep) st.
Proof.
  remember (cost st) as n eqn:Hn. revert st Hn. induction n as [n IH] using lt_wf_ind. intros st -> Hok.
  constructor. intros st' Hs. eapply IH; [by eapply hstep_cost|reflexivity|by eapply hstep_ok].
Qed.

(** ** Where it can end *)

Lemma total_data : Forall (λ p, Service.BackFillComplete p = false) (concat ps).
Proof.
  apply Forall_concat. apply range_collect_Ok in packets. eapply Forall2_Forall_r; [exact packets|].
  apply Forall_forall. intros i _ qs. by apply packets_not_complete.
Qed.

(** What the watcher makes of what it has received. *)
Lemma watched_part g : g `sublist_of` total → ∃ (data : list SubscriptionPayload) (ended : bool),
  data `sublist_of` concat ps ∧ g = data ++ (if ended then [completion_notice] else []) ∧
  backFillOnlyQueuing g r0 = Ok (good data, hand_over (good data) r0, ended).
Proof.
  intros (data & n & -> & Hd & Hn)%sublist_app_r.
  assert (Hdata : Forall (λ p, Service.BackFillComplete p = false) data).
  { pose proof total_data as Hall. rewrite Forall_forall in Hall |- *. intros p Hp. apply Hall. by eapply elem_of_sublist. }
  exists data. rewrite backFillOnlyQueuing_data by done. inversion Hn as [|? ? ? Hn'|? ? ? Hn']; subst;
    apply sublist_nil_r in Hn' as ->; [exists true|exists false]; simpl; rewrite ?app_nil_r; by split_and!.
Qed.

(** When nothing was dropped, what was received is a beginning of it all. *)
Lemma received_beginning data ended l : data `sublist_of` concat ps →
  (data ++ (if ended : bool then [completion_notice] else [])) ++ l = total →
  data `prefix_of` concat ps ∧ (ended = true → data = concat ps ∧ l = []).
Proof.
  intros Hd E. unfold total in E. apply sublist_length in Hd as Hl.
  assert (Ht : take (length data) (concat ps) = data).
  { apply (f_equal (take (length data))) in E. rewrite <- app_assoc, take_app_length, take_app_le in E by done. done. }
  split; [rewrite <- Ht; apply prefix_take|]. intros ->. apply (f_equal (lookup (length data))) in E as Ei.
  rewrite <- app_assoc in Ei. simpl in Ei. rewrite list_lookup_middle in Ei by done.
  destruct (decide (length data < length (concat ps))%nat) as [Hlt|Hge].
  - exfalso. rewrite lookup_app_l in Ei by done. pose proof total_data as Hall. rewrite Forall_forall in Hall.
    symmetry in Ei. apply list_elem_of_lookup_2, Hall in Ei. done.
  - rewrite take_ge in Ht by lia. split; [done|]. rewrite Ht in E. rewrite <- app_assoc in E. simpl in E.
    apply app_inv_head in E. by injection E.
Qed.

(** The feed of a stuck run is over, its channel empty. *)
Lemma stuck_over st : feed_ok st → stuck_run st → feeding st = Over ∧ ServiceApi.buffered c (service st) = [].
Proof.
  intros [Hc Hch Hr (rs & Hrs & _)] Hst. split.
  - destruct (feeding st) as [|i e|cs i e|] eqn:Ef; [exfalso..|done]; simpl in Hr, Hrs.
    + eapply Hst. eapply h_start; try done. by rewrite Hch.
    + destruct (Z.le_gt_cases i e) as [Hle|Hgt]; [|eapply Hst; by eapply h_notice].
      rewrite of_range_cons in Hrs by done. apply rbind_Ok_inv in Hrs as (p & Hp & _).
      unfold Service.packets_of_height in Hp. destruct (Retrieve params i) as [[cs em]|x|w] eqn:Er; [| |done].
      * eapply Hst. by eapply h_retrieved.
      * eapply Hst. by eapply h_failed.
    + destruct cs as [|x cs]; [eapply Hst; by eapply h_next|].
      apply rbind_Ok_inv in Hrs as (ls & Hls & _). apply rbind_Ok_inv in Hls as (l & Hl & _).
      eapply Hst. eapply h_send; [done|]. by apply Service.send_cids_packets.
  - destruct (ServiceApi.buffered c (service st)) eqn:Eb; [done|]. exfalso. eapply Hst. by eapply h_notify.
Qed.

(** The theorem, on any state the invariant describes. *)
Lemma feed_ok_watched st : feed_ok st → ∃ handed r' ended,
  backFillOnlyQueuing (got st) r0 = Ok (handed, r', ended) ∧ r' = hand_over handed r0 ∧
  handed `sublist_of` good (concat ps) ∧
  ((length (concat ps) < ServiceApi.payload_capacity)%nat →
     handed `prefix_of` good (concat ps) ∧ (ended = true → handed = good (concat ps)) ∧
     (stuck_run st → ended = true)).
Proof.
  intros Hok. destruct (fo_all st Hok) as (rs & Hrs & Hsub & Hall).
  destruct (watched_part (got st)) as (data & ended & Hd & Hg & E).
  { etransitivity; [|exact Hsub]. by apply (sublist_inserts_r _ (got st)). }
  exists (good data), (hand_over (good data) r0), ended. split; [done|]. split; [done|].
  split; [by apply good_sublist|]. intros Hroom.
  assert (Hl : (length total ≤ ServiceApi.payload_capacity)%nat) by (unfold total; rewrite length_app; simpl; lia).
  specialize (Hall Hl). rewrite Hg in Hall. destruct (received_beginning data ended _ Hd Hall) as [Hp He].
  split_and!.
  - destruct Hp as [k ->]. unfold good. rewrite filter_app. by eexists.
  - intros ->. f_equal. by apply He.
  - intros Hst. destruct ended; [done|]. exfalso. destruct (stuck_over st Hok Hst) as [Ef Eb].
    rewrite Ef in Hrs. injection Hrs as <-. rewrite Eb in Hall. simpl in Hall. rewrite !app_nil_r in Hall.
    destruct (wire st) as [|p w] eqn:Ew.
    + rewrite app_nil_r in Hall. apply sublist_length in Hd. rewrite Hall in Hd. unfold total in Hd.
      rewrite length_app in Hd. simpl in Hd. lia.
    + eapply Hst. eapply h_receive; [exact Ew|]. unfold watching. by rewrite E.
Qed.

End Invariant.

(** ** Properties *)


End Feed.

(** ** Witness *)

Section Witnesses.
Import Mem.
#[local] Existing Instance EthService.ex_chain.
#[local] Existing Instance Concrete.geth.
#[local] Existing Instance Concrete.cidlib.

(** Heights 5 and 6 of an index that holds 1 to 6. *)
Definition ex_params : Service.Settings := EthService.ex_ending 0.
Definition ex_sub : Service.Subscription := Service.mkSub "h" 1 2.
Definition ex_Fetch (i : Z) : result Service.Response :=
  EthFilterer.Filter EthFilterer.ex_settings EthFilterer.ex_two_txs.
Definition ex_packet : SubscriptionPayload := Service.mkPayload [9] 9 "" Service.EmptyFlag.

Abbreviation ex_hstep := (hstep Z (Ok 1) (Ok 6) (λ _ i, Ok ([i], false)) ex_Fetch ex_sub ex_params (∅ : gmap Z bytes)).

(** A state of the run: the buffer of the channel, the feed, the connection and
    what the watcher has received. *)
Definition ex_state (b : list SubscriptionPayload) (f : feed Z) (w g : list SubscriptionPayload) : run Z :=
  mkRun Z (Service.mkService (Service.Subscriptions EthService.ex_empty) (Service.SubscriptionTypes EthService.ex_empty)
    (<[1%nat := Service.mkChan ServiceApi.payload_capacity b]> (Service.payloads EthService.ex_empty))
    (Service.quits EthService.ex_empty) (Service.chain EthService.ex_empty) (Service.stopped EthService.ex_empty)) f w g.

Definition ex_watched : run Z := ex_state [] Over [] [ex_packet; ex_packet; completion_notice].

#[local] Ltac ex_next st step := apply rtc_l with (y := st);
  [match goal with |- hstep _ _ _ _ _ _ _ _ ?x ?y => enough (Hs : ∃ z, ex_hstep x z ∧ z = y);
     [destruct Hs as (z & Hz & <-); exact Hz|eexists; split; [step|reflexivity]] end|].

Lemma ex_feed_run : rtc ex_hstep (feed_start Z ex_sub EthService.ex_empty) ex_watched.
Proof.
  ex_next (ex_state [] (AtHeight 5 6) [] []) ltac:(eapply h_start; reflexivity).
  ex_next (ex_state [] (Fetching [5] 5 6) [] []) ltac:(eapply h_retrieved; [reflexivity|discriminate|reflexivity]).
  ex_next (ex_state [ex_packet] (Fetching [] 5 6) [] []) ltac:(eapply h_send; reflexivity).
  ex_next (ex_state [ex_packet] (AtHeight 6 6) [] []) ltac:(eapply h_next; reflexivity).
  ex_next (ex_state [] (AtHeight 6 6) [ex_packet] []) ltac:(eapply h_notify; reflexivity).
  ex_next (ex_state [] (Fetching [6] 6 6) [ex_packet] []) ltac:(eapply h_retrieved; [reflexivity|discriminate|reflexivity]).
  ex_next (ex_state [] (Fetching [6] 6 6) [] [ex_packet]) ltac:(eapply h_receive; reflexivity).
  ex_next (ex_state [ex_packet] (Fetching [] 6 6) [] [ex_packet]) ltac:(eapply h_send; reflexivity).
  ex_next (ex_state [ex_packet] (AtHeight 7 6) [] [ex_packet]) ltac:(eapply h_next; reflexivity).
  ex_next (ex_state [ex_packet; completion_notice] (Over) [] [ex_packet]) ltac:(eapply h_notice; reflexivity).
  ex_next (ex_state [completion_notice] (Over) [ex_packet] [ex_packet]) ltac:(eapply h_notify; reflexivity).
  ex_next (ex_state [] (Over) [ex_packet; completion_notice] [ex_packet]) ltac:(eapply h_notify; reflexivity).
  ex_next (ex_state [] (Over) [completion_notice] [ex_packet; ex_packet]) ltac:(eapply h_receive; reflexivity).
  ex_next (ex_state [] (Over) [] [ex_packet; ex_packet; completion_notice]) ltac:(eapply h_receive; reflexivity).
  apply rtc_refl.
Qed.


End Witnesses.
