(* ===== verification/WatcherConverter.v ===== *)
(** * The watcher's converter (pkg/watcher/eth/converter.go)

    The IPLDs of a subscription, decoded again into the models of the trigger
    tables.  The theorems compare these with the models the super node indexed
    for the same block. *)

From S2P Require Import Prelude GoInt Decimal Geth EthModel Rewards EthFilterer EthIpld EthConverter EthPublisher.

(** ** encoding/hex and go-ethereum *)

(** [hex.DecodeString], whose error [common.Hex2Bytes] drops: what was decoded
    before the first character that is not hexadecimal. *)
Definition fromHexChar (c : ascii) : option Z :=
  let n := Z.of_N (N_of_ascii c) in
  if (48 <=? n) && (n <=? 57) then Some (n - 48)
  else if (97 <=? n) && (n <=? 102) then Some (n - 87)
  else if (65 <=? n) && (n <=? 70) then Some (n - 55)
  else None.

Fixpoint Hex2Bytes (s : string) : bytes :=
  match s with
  | String a (String b s) =>
      match fromHexChar a, fromHexChar b with
      | Some x, Some y => 16 * x + y :: Hex2Bytes s
      | _, _ => []
      end
  | _ => []
  end.

(** Decoding, the recovery of a sender with the signer of a height, and the
    derived fields of receipts.  [DecodeTransaction] gives a transaction whose
    sender is not known yet. *)
Class WatcherRlp := {
  DecodeIPLDs : bytes → result IPLDs;
  DecodeHeader : bytes → result Header;
  DecodeTransaction : bytes → result Transaction;
  DecodeReceipt : bytes → result Receipt;
  Sender : Z → Transaction → result bytes;
  DeriveFields : list Receipt → bytes → Z → list Transaction → result (list Receipt)
}.

Section Converter.
Context `{GethCommon} `{WatcherRlp}.
(** The order in which Go ranges over the set of addresses of a receipt. *)
Variable map_range : list string → list string.

(** The loop over the uncles. *)
Definition convert_uncle (header : Header) (uncleIPLD : BlockModel) : result (Header * UncleModel) :=
  uncle <-! DecodeHeader (Data uncleIPLD) ;;
  Ok (uncle, {| u_ID := 0; u_HeaderID := 0; u_CID := CID uncleIPLD;
    u_BlockHash := Hash_String (header_Hash uncle); u_ParentHash := Hash_String (header_ParentHash uncle);
    u_Reward := CalcUncleMinerReward (i64 (header_Number header)) (i64 (header_Number uncle)) |}).

(** The loop over the transactions. *)
Fixpoint convert_transactions (number : Z) (i : nat) (iplds : list BlockModel)
    : result (list (Transaction * TxModel)) :=
  match iplds with
  | [] => Ok []
  | txIPLD :: iplds =>
      tx <-! DecodeTransaction (Data txIPLD) ;;
      from <-! Sender number tx ;;
      rest <-! convert_transactions number (S i) iplds ;;
      Ok ((tx, {| tx_ID := 0; tx_HeaderID := 0; tx_Index := Z.of_nat i; tx_TxHash := Hash_String (trx_Hash tx);
                  tx_CID := CID txIPLD; tx_Dst := HandleNullAddrPointer (trx_To tx); tx_Src := HandleNullAddr from |})
          :: rest)
  end.

Definition contract_hash (contract : string) : string :=
  if bool_decide (contract = "") then "" else Hash_String (Keccak256Hash (Hex2Bytes contract)).

(** The model of a receipt: the contract itself is not set. *)
Definition convert_receipt (rctIPLD : BlockModel) (receipt : Receipt) : result ReceiptModel :=
  scanned <-! scan_logs (rct_Logs receipt) [[]; []; []; []] [] ;;
  match scanned.1 with
  | [t0; t1; t2; t3] =>
      Ok {| r_ID := 0; r_TxID := 0; r_CID := CID rctIPLD; r_Contract := "";
            r_ContractHash := contract_hash (HandleNullAddr (rct_ContractAddress receipt));
            r_LogContracts := map_range scanned.2;
            r_Topic0s := t0; r_Topic1s := t1; r_Topic2s := t2; r_Topic3s := t3 |}
  | _ => Panic "index out of range"
  end.

(** The loop over the receipts, [cids.ReceiptCIDs[matchedTx.Hash()] = ...]. *)
Fixpoint convert_receipts (i : nat) (transactions : list Transaction) (iplds : list BlockModel)
    (receipts : list Receipt) (m : gmap bytes ReceiptModel) : result (gmap bytes ReceiptModel) :=
  match receipts with
  | [] => Ok m
  | receipt :: receipts =>
      match transactions !! i, iplds !! i with
      | Some matchedTx, Some rctIPLD =>
          model <-! convert_receipt rctIPLD receipt ;;
          convert_receipts (S i) transactions iplds receipts (<[trx_Hash matchedTx := model]> m)
      | _, _ => Panic "index out of range"
      end
  end.

Definition convert_state (stateIPLD : StateNode) : StateNodeModel := {|
  s_ID := 0; s_HeaderID := 0; s_Path := []; s_StateKey := Hash_String (sn_StateLeafKey stateIPLD);
  s_NodeType := ResolveFromNodeType (sn_Type stateIPLD); s_CID := CID (sn_IPLD stateIPLD) |}.

Definition convert_storage (m : gmap string (list StorageNodeModel)) (storageIPLD : StorageNode)
    : gmap string (list StorageNodeModel) :=
  let key := Hash_String (stn_StateLeafKey storageIPLD) in
  <[key := default [] (m !! key) ++ [{|
    st_ID := 0; st_StateID := 0; st_Path := []; st_StorageKey := Hash_String (stn_StorageLeafKey storageIPLD);
    st_NodeType := ResolveFromNodeType (stn_Type storageIPLD); st_CID := CID (stn_IPLD storageIPLD) |}]]> m.

(** [String] of a pointer to a big integer. *)
Definition big_String (n : option Z) : string := match n with Some n => pretty n | None => "<nil>" end.

Definition Convert (ethIPLDs : IPLDs) : result CIDPayload :=
  if negb (length (i_Transactions ethIPLDs) =? length (i_Receipts ethIPLDs))%nat
  then Err (Errorf "eth converter needs same numbe of receipts and transactions")
  else
    header <-! DecodeHeader (Data (i_Header ethIPLDs)) ;;
    uncles <-! range_collect (convert_uncle header) (i_Uncles ethIPLDs) ;;
    transactions <-! convert_transactions (header_Number header) 0 (i_Transactions ethIPLDs) ;;
    decoded <-! range_collect (λ rctIPLD, DecodeReceipt (Data rctIPLD)) (i_Receipts ethIPLDs) ;;
    receipts <-! DeriveFields decoded (header_Hash header) (u64 (header_Number header)) (map fst transactions) ;;
    receiptCIDs <-! convert_receipts 0 (map fst transactions) (i_Receipts ethIPLDs) receipts ∅ ;;
    minerReward <-! CalcEthBlockReward header (map fst uncles) (map fst transactions) receipts ;;
    Ok {|
      c_HeaderCID := {|
        h_ID := 0; h_NodeID := 0; h_TimesValidated := 0; h_CID := CID (i_Header ethIPLDs);
        h_ParentHash := Hash_String (header_ParentHash header); h_BlockHash := Hash_String (header_Hash header);
        h_BlockNumber := header_Number header; h_TotalDifficulty := big_String (i_TotalDifficulty ethIPLDs);
        h_Reward := minerReward; h_StateRoot := ""; h_UncleRoot := ""; h_TxRoot := ""; h_RctRoot := "";
        h_Bloom := []; h_Timestamp := 0 |};
      c_UncleCIDs := map snd uncles;
      c_TransactionCIDs := map snd transactions;
      c_ReceiptCIDs := receiptCIDs;
      c_StateNodeCIDs := map convert_state (i_StateNodes ethIPLDs);
      c_StateAccounts := ∅;
      c_StorageNodeCIDs := foldl convert_storage ∅ (i_StorageNodes ethIPLDs) |}.

End Converter.

(** ** What the super node made of the same block *)

(** Documented behaviour: an address prints with a prefix. *)
Class AddressHexLaws `{GethCommon} := {
  Address_Hex_prefix : ∀ a, ∃ s, Address_Hex a = "0x" +:+ s
}.

(** A subscription to everything. *)
Definition whole (f : SubscriptionSettings) : Prop :=
  HeaderFilter_ f = {| hf_Off := false; hf_Uncles := true |} ∧
  TxFilter_ f = {| tf_Off := false; tf_Src := []; tf_Dst := [] |} ∧
  ReceiptFilter_ f = {| rf_Off := false; rf_MatchTxs := false; rf_LogAddresses := []; rf_Topics := [] |} ∧
  StateFilter_ f = {| sf_Off := false; sf_Addresses := []; sf_IntermediateNodes := true |} ∧
  StorageFilter_ f = {| stf_Off := false; stf_Addresses := []; stf_StorageKeys := []; stf_IntermediateNodes := true |}.

Definition DecodesHeaders `{WatcherRlp} (us : list Header) : Prop :=
  Forall (λ u, ∀ raw, header_RLP u = Ok raw → DecodeHeader raw = Ok u) us.

(** Decoding gives back what was encoded. *)
Definition decodable `{WatcherRlp} (p : ConvertedPayload) : Prop :=
  let header := block_Header (p_Block p) in
  let txs := block_Transactions (p_Block p) in
  (∀ raw, header_RLP header = Ok raw → DecodeHeader raw = Ok header) ∧
  DecodesHeaders (block_Uncles (p_Block p)) ∧
  Forall (λ t, Sender (header_Number header) t = trx_Sender t ∧
    ∀ raw, trx_RLP t = Ok raw → DecodeTransaction raw = Ok t) txs ∧
  ∃ ds, Forall2 (λ r d, ∀ raw, rct_RLP r = Ok raw → DecodeReceipt raw = Ok d) (p_Receipts p) ds ∧
    DeriveFields ds (header_Hash header) (u64 (header_Number header)) txs = Ok (p_Receipts p).

(** The models of the super node, as far as the watcher has them. *)
Definition watched_header (h : HeaderModel) : HeaderModel := {|
  h_ID := h_ID h; h_NodeID := h_NodeID h; h_TimesValidated := h_TimesValidated h; h_CID := h_CID h;
  h_ParentHash := h_ParentHash h; h_BlockHash := h_BlockHash h; h_BlockNumber := h_BlockNumber h;
  h_TotalDifficulty := h_TotalDifficulty h; h_Reward := h_Reward h; h_StateRoot := ""; h_UncleRoot := "";
  h_TxRoot := ""; h_RctRoot := ""; h_Bloom := []; h_Timestamp := 0 |}.

Definition watched_receipt `{GethCommon} (r : ReceiptModel) : ReceiptModel := {|
  r_ID := r_ID r; r_TxID := r_TxID r; r_CID := r_CID r; r_Contract := "";
  r_ContractHash := if bool_decide (r_Contract r = "") then "" else Hash_String (Keccak256Hash []);
  r_LogContracts := r_LogContracts r; r_Topic0s := r_Topic0s r; r_Topic1s := r_Topic1s r;
  r_Topic2s := r_Topic2s r; r_Topic3s := r_Topic3s r |}.

Definition watched_state (s : StateNodeModel) : StateNodeModel := {|
  s_ID := s_ID s; s_HeaderID := s_HeaderID s; s_Path := []; s_StateKey := s_StateKey s;
  s_NodeType := s_NodeType s; s_CID := s_CID s |}.

Definition watched_storage (s : StorageNodeModel) : StorageNodeModel := {|
  st_ID := st_ID s; st_StateID := st_StateID s; st_Path := []; st_StorageKey := st_StorageKey s;
  st_NodeType := st_NodeType s; st_CID := st_CID s |}.

(** The storage nodes of a payload with their state nodes, and those below the
    state nodes with the key. *)
Definition storage_pairs `{GethCommon} (p : ConvertedPayload) : list (TrieNode * TrieNode) :=
  concat (map (λ stateNode, map (pair stateNode) (default [] (p_StorageNodes p !! Bytes2Hex (n_Path stateNode))))
    (p_StateNodes p)).
Definition storages_under `{GethCommon} (p : ConvertedPayload) (key : string) : list (TrieNode * TrieNode) :=
  filter (λ x, Hash_String (n_LeafKey x.1) = key) (storage_pairs p).

(** ** Lemmas *)

(** A string with the prefix of [Address.Hex] decodes to nothing. *)
Lemma Hex2Bytes_prefixed s : Hex2Bytes ("0x" +:+ s) = [].
Proof. reflexivity. Qed.

Section Agreement.
Context `{AddressHexLaws} `{CidLib} `{WatcherRlp}.
Variable map_range : list string → list string.

(** The hash of a contract is that of no bytes. *)
Lemma contract_hash_empty a :
  contract_hash (HandleNullAddr a) = if bool_decide (HandleNullAddr a = "") then "" else Hash_String (Keccak256Hash []).
Proof.
  unfold contract_hash, HandleNullAddr. destruct (Address_Hex_prefix a) as [s ->].
  case_bool_decide as Ez; [done|]. by destruct (bool_decide (_ = "0x0000000000000000000000000000000000000000")); [|rewrite Hex2Bytes_prefixed].
Qed.

Lemma convert_receipt_watched b r m :
  rct_meta map_range r = Ok m → convert_receipt map_range b r = Ok (watched_receipt (with_rct_CID m (CID b))).
Proof.
  unfold rct_meta, convert_receipt. intros ([sets addrs] & -> & Hm)%rbind_Ok_inv. simpl in *.
  destruct sets as [|t0 [|t1 [|t2 [|t3 [|t4 sets]]]]]; try done. injection Hm as <-. unfold watched_receipt. simpl.
  by rewrite contract_hash_empty.
Qed.

Lemma package_Ok codec data b : package codec data = Ok b →
  Data b = data ∧ RawdataToCid codec data KECCAK_256 = Ok (CID b).
Proof. unfold package. by intros (c & Hc & [= <-])%rbind_Ok_inv. Qed.

(** What is sent and what is published of the same value. *)
Definition sent_as {A} (codec : Z) (encode : A → result bytes) (x : A) (b : BlockModel) : Prop :=
  encode x = Ok (Data b) ∧ RawdataToCid codec (Data b) KECCAK_256 = Ok (CID b).
Definition node_block (n : Node) : BlockModel := mkBlock (Cid n) (RawData n).

Lemma sent_as_data {A} codec (encode : A → result bytes) xs bs :
  Forall2 (sent_as codec encode) xs bs → Forall2 (λ x b, encode x = Ok (Data b)) xs bs.
Proof. intros HF. eapply Forall2_impl; [exact HF|]. by intros x b []. Qed.

Lemma sent_as_node {A} codec (encode : A → result bytes) x b n :
  sent_as codec encode x b → sent_as codec encode x (node_block n) → b = node_block n.
Proof.
  intros [Ea Eb] [Ec Ed]. destruct b as [c d]. simpl in *. rewrite Ea in Ec. injection Ec as ->.
  rewrite Eb in Ed. by injection Ed as ->.
Qed.

Lemma sent_as_nodes {A} codec (encode : A → result bytes) xs bs ns :
  Forall2 (sent_as codec encode) xs bs → Forall2 (λ x n, sent_as codec encode x (node_block n)) xs ns →
  bs = map node_block ns.
Proof.
  intros HF. revert ns. induction HF as [|x b xs bs Hb _ IH]; intros ns Hn; inversion Hn as [|? n ? ns' Hn1 Hn2]; subst; [done|].
  simpl. f_equal; [by eapply sent_as_node|by apply IH].
Qed.

Lemma packaged_data {A} codec (encode : A → result bytes) xs bs :
  packaged codec encode xs = Ok bs → Forall2 (sent_as codec encode) xs bs.
Proof.
  unfold packaged. intros Hp%range_collect_Ok. eapply Forall2_impl; [exact Hp|].
  intros x b (raw & Hraw & [Hd Hc]%package_Ok)%rbind_Ok_inv. unfold sent_as. by rewrite Hd.
Qed.

Lemma zip_forall2 {A B C} (P : A → C → Prop) (xs : list A) (ys : list B) zs :
  length xs = length ys → Forall2 (λ xy z, P xy.1 z) (zip xs ys) zs → Forall2 P xs zs.
Proof.
  intros Hl HF. apply (Forall2_fmap_l fst) in HF. by rewrite fst_zip in HF by lia.
Qed.

Lemma filterHeaders_whole p hs : filterHeaders {| hf_Off := false; hf_Uncles := true |} p = Ok hs →
  sent_as MEthHeader header_RLP (block_Header (p_Block p)) hs.1 ∧
  Forall2 (sent_as MEthHeader header_RLP) (block_Uncles (p_Block p)) hs.2.
Proof.
  unfold filterHeaders. simpl. intros (raw & Hraw & (h & Hh & (us & Hu & [= <-])%rbind_Ok_inv)%rbind_Ok_inv)%rbind_Ok_inv.
  simpl. apply package_Ok in Hh as [Hd Hc]. split; [unfold sent_as; by rewrite Hd|].
  by apply (packaged_data MEthHeader header_RLP).
Qed.

(** A state node and a storage node as sent. *)
Definition state_sent (n : TrieNode) (s : StateNode) : Prop :=
  sn_StateLeafKey s = n_LeafKey n ∧ sn_Type s = n_Type n ∧
  RawdataToCid MEthStateTrie (n_Value n) KECCAK_256 = Ok (CID (sn_IPLD s)).
Definition storage_sent (x : TrieNode * TrieNode) (s : StorageNode) : Prop :=
  stn_StateLeafKey s = n_LeafKey x.1 ∧ stn_StorageLeafKey s = n_LeafKey x.2 ∧ stn_Type s = n_Type x.2 ∧
  RawdataToCid MEthStorageTrie (n_Value x.2) KECCAK_256 = Ok (CID (stn_IPLD s)).

Lemma storages_whole stateNode l ss : range_collect (filter_storage_node [] stateNode) l = Ok ss →
  Forall2 storage_sent (map (pair stateNode) l) (concat ss).
Proof.
  intros Hss%range_collect_Ok. induction Hss as [|n x l ss Hx _ IH]; simpl; [constructor|].
  unfold filter_storage_node in Hx. simpl in Hx.
  apply rbind_Ok_inv in Hx as (b & [_ Hc]%package_Ok & [= <-]). by constructor.
Qed.

Lemma filterStates_whole p ns :
  filterStateAndStorage {| sf_Off := false; sf_Addresses := []; sf_IntermediateNodes := true |}
    {| stf_Off := false; stf_Addresses := []; stf_StorageKeys := []; stf_IntermediateNodes := true |} p = Ok ns →
  Forall2 state_sent (p_StateNodes p) ns.1 ∧ Forall2 storage_sent (storage_pairs p) ns.2.
Proof.
  unfold filterStateAndStorage, storage_pairs. intros (per & Hper & [= <-])%rbind_Ok_inv. apply range_collect_Ok in Hper. simpl.
  induction Hper as [|n x l per Hx _ [IH1 IH2]]; simpl; [by split|].
  apply rbind_Ok_inv in Hx as (st & Hst & (so & Hso & [= <-])%rbind_Ok_inv). simpl. split.
  - unfold filter_state_node in Hst. simpl in Hst. rewrite orb_true_r in Hst.
    apply rbind_Ok_inv in Hst as (b & [_ Hb]%package_Ok & [= <-]). by constructor.
  - apply Forall2_app; [|done]. by apply storages_whole.
Qed.

(** What a subscription to everything gets of a block. *)
Lemma Filter_whole f p i : whole f → aligned p →
  checkRange (i64 (Start f)) (i64 (End_ f)) (i64 (block_Number (p_Block p))) = true → Filter f p = Ok i →
  i_TotalDifficulty i = Some (p_TotalDifficulty p) ∧
  sent_as MEthHeader header_RLP (block_Header (p_Block p)) (i_Header i) ∧
  Forall2 (sent_as MEthHeader header_RLP) (block_Uncles (p_Block p)) (i_Uncles i) ∧
  Forall2 (sent_as MEthTx trx_RLP) (block_Transactions (p_Block p)) (i_Transactions i) ∧
  Forall2 (sent_as MEthTxReceipt rct_RLP) (p_Receipts p) (i_Receipts i) ∧
  Forall2 state_sent (p_StateNodes p) (i_StateNodes i) ∧ Forall2 storage_sent (storage_pairs p) (i_StorageNodes i).
Proof.
  intros (Eh & Et & Er & Es & Est) Ha Hin. pose proof Ha as [Hlt Hlr]. unfold Filter.
  rewrite Hin, Eh, Et, Er, Es, Est, filterTransactions_selects by done.
  intros (hs & Hhs & ([ts hashes] & Hts & (rs & Hrs & (ns & Hns & [= <-])%rbind_Ok_inv)%rbind_Ok_inv)%rbind_Ok_inv)%rbind_Ok_inv.
  apply filterHeaders_whole in Hhs as [Hh Hu]. apply filterStates_whole in Hns as [Hns1 Hns2].
  apply rbind_Ok_inv in Hts as (bs & Hbs & [= <- _]). simpl in Hrs. rewrite filerReceipts_selects in Hrs by done.
  apply packaged_data in Hbs, Hrs. unfold selected_txs, selected_rcts in *. simpl in *.
  rewrite filter_all in Hbs by done.
  rewrite (filter_all (λ rm : Receipt * ReceiptModel, checkReceipts rm.1 [] (topics_of rm.2) [] (r_LogContracts rm.2) [] = true)) in Hrs
    by (intros; unfold checkReceipts; done).
  split_and!; try done; [by eapply (zip_forall2 (sent_as MEthTx trx_RLP))
    |by eapply (zip_forall2 (sent_as MEthTxReceipt rct_RLP))].
Qed.

(** The blocks sent are the nodes published. *)
Lemma published_as codec {A} (encode : A → result bytes) (mk : A → result Node) :
  (∀ x, mk x = (raw <-! encode x ;; c <-! RawdataToCid codec raw KECCAK_256 ;; Ok (mkNode c raw))) →
  ∀ x n, mk x = Ok n → sent_as codec encode x (node_block n).
Proof. intros Hmk x n. rewrite Hmk. by intros (raw & Hr & (c & Hc & [= <-])%rbind_Ok_inv)%rbind_Ok_inv. Qed.

Lemma FromBlockAndReceipts_sent `{TrieLib} b rs ns : FromBlockAndReceipts b rs = Ok ns →
  sent_as MEthHeader header_RLP (block_Header b) (node_block (headerNode ns)) ∧
  Forall2 (λ u n, sent_as MEthHeader header_RLP u (node_block n)) (block_Uncles b) (uncleNodes ns) ∧
  Forall2 (λ t n, sent_as MEthTx trx_RLP t (node_block n)) (block_Transactions b) (txNodes ns) ∧
  Forall2 (λ r n, sent_as MEthTxReceipt rct_RLP r (node_block n)) rs (rctNodes ns).
Proof.
  unfold FromBlockAndReceipts.
  intros (h & Hh & (us & Hu & ([ts tt] & Ht & ([rcs rt] & Hr & [= <-])%rbind_Ok_inv)
    %rbind_Ok_inv)%rbind_Ok_inv)%rbind_Ok_inv. simpl.
  unfold processTransactions in Ht. apply rbind_Ok_inv in Ht as ([n1 l1] & Ht & Ht').
  case_bool_decide; [|done]. apply rbind_Ok_inv in Ht' as (? & _ & [= -> ->]).
  unfold processReceipts in Hr. apply rbind_Ok_inv in Hr as ([n2 l2] & Hr & Hr').
  case_bool_decide; [|done]. apply rbind_Ok_inv in Hr' as (? & _ & [= -> ->]).
  apply process_loop_nodes in Ht, Hr. apply range_collect_Ok in Hu. split_and!.
  - by apply (published_as MEthHeader header_RLP NewEthHeader).
  - eapply Forall2_impl; [exact Hu|]. by apply (published_as MEthHeader header_RLP NewEthHeader).
  - eapply Forall2_impl; [exact Ht|]. by apply (published_as MEthTx trx_RLP NewEthTx).
  - eapply Forall2_impl; [exact Hr|]. by apply (published_as MEthTxReceipt rct_RLP NewReceipt).
Qed.

Lemma Filter_published `{TrieLib} f p i ns : whole f → aligned p →
  checkRange (i64 (Start f)) (i64 (End_ f)) (i64 (block_Number (p_Block p))) = true → Filter f p = Ok i →
  FromBlockAndReceipts (p_Block p) (p_Receipts p) = Ok ns →
  i_Header i = node_block (headerNode ns) ∧ i_Uncles i = map node_block (uncleNodes ns) ∧
  i_Transactions i = map node_block (txNodes ns) ∧ i_Receipts i = map node_block (rctNodes ns).
Proof.
  intros Hw Ha Hin HF Hns. destruct (Filter_whole f p i Hw Ha Hin HF) as (_ & Eh & Eu & Et & Er & _).
  apply FromBlockAndReceipts_sent in Hns as (Nh & Nu & Nt & Nr).
  split_and!; [by eapply sent_as_node|by eapply sent_as_nodes..].
Qed.

(** The metadata of a converted payload. *)
Lemma converted_payload DeriveFields_ pl p :
  EthConverter.Convert DeriveFields_ map_range pl = Ok p →
  aligned p ∧ convert_txs 0 (block_Transactions (p_Block p)) = Ok (p_TxMetaData p) ∧
  Forall2 (λ r n, rct_meta map_range r = Ok n) (p_Receipts p) (p_ReceiptMetaData p).
Proof.
  unfold EthConverter.Convert. intros (b & _ & E)%rbind_Ok_inv. apply rbind_Ok_inv in E as (ms & Hms & E).
  apply rbind_Ok_inv in E as (rs & _ & E). apply rbind_Ok_inv in E as (rs' & _ & E).
  apply rbind_Ok_inv in E as (rm & Hrm & (sd & _ & [= <-])%rbind_Ok_inv). unfold aligned. simpl.
  destruct (convert_txs_spec _ _ _ Hms) as [Hl _]. pose proof (range_collect_length _ _ _ Hrm).
  apply range_collect_Ok in Hrm. by split_and!.
Qed.

(** Each loop over decoded blocks rebuilds the metadata of the payload. *)
Lemma converted_uncles p us bs :
  DecodesHeaders us → Forall2 (λ u b, header_RLP u = Ok (Data b)) us bs →
  range_collect (convert_uncle (block_Header (p_Block p))) bs =
  Ok (zip_with (λ u b, (u, uncle_model p u (mkNode (CID b) (Data b)))) us bs).
Proof.
  intros Hd HF. induction HF as [|u b us bs Hb _ IH]; [done|]. apply Forall_cons in Hd as [Hu Hd].
  simpl. unfold convert_uncle at 1. by rewrite (Hu _ Hb), (IH Hd).
Qed.

Lemma converted_transactions number txs : ∀ k ms bs,
  Forall (λ t, Sender number t = trx_Sender t ∧ ∀ raw, trx_RLP t = Ok raw → DecodeTransaction raw = Ok t) txs →
  convert_txs k txs = Ok ms → Forall2 (λ t b, trx_RLP t = Ok (Data b)) txs bs →
  convert_transactions number k bs = Ok (zip txs (zip_with (λ m b, with_tx_CID m (CID b)) ms bs)).
Proof.
  induction txs as [|t txs IH]; intros k ms bs Hd Hms HF; inversion HF as [|? b ? bs' Hb HF']; subst; [done|].
  simpl in Hms. apply rbind_Ok_inv in Hms as (m & Hm & (ms' & Hms & [= <-])%rbind_Ok_inv).
  apply Forall_cons in Hd as [[Hs Ht] Hd]. simpl. rewrite (Ht _ Hb). simpl. rewrite Hs.
  unfold tx_meta in Hm. apply rbind_Ok_inv in Hm as (from & -> & [= <-]). simpl.
  by rewrite (IH _ _ _ Hd Hms HF').
Qed.

Lemma decoded_receipts rs ds bs :
  Forall2 (λ r d, ∀ raw, rct_RLP r = Ok raw → DecodeReceipt raw = Ok d) rs ds →
  Forall2 (λ r b, rct_RLP r = Ok (Data b)) rs bs →
  range_collect (λ rctIPLD, DecodeReceipt (Data rctIPLD)) bs = Ok ds.
Proof.
  intros Hd. revert bs. induction Hd as [|r d rs ds Hr _ IH]; intros bs HF; inversion HF as [|? b ? bs' Hb HF']; subst;
    [done|]. simpl. rewrite (Hr _ Hb). simpl. by rewrite (IH _ HF').
Qed.

(** The models of the receipts, under the hashes of their transactions. *)
Lemma converted_receipts rs : ∀ k txs bs ms m,
  Forall2 (λ r n, rct_meta map_range r = Ok n) rs ms →
  length txs = (k + length rs)%nat → length bs = (k + length rs)%nat → NoDup (map trx_Hash txs) →
  ∃ m', convert_receipts map_range k txs bs rs m = Ok m' ∧
    (∀ j t, (j < k)%nat → txs !! j = Some t → m' !! trx_Hash t = m !! trx_Hash t) ∧
    ∀ j t b n, txs !! (k + j)%nat = Some t → bs !! (k + j)%nat = Some b → ms !! j = Some n →
      m' !! trx_Hash t = Some (watched_receipt (with_rct_CID n (CID b))).
Proof.
  induction rs as [|r rs IH]; intros k txs bs ms m HF Ht Hb Hnd; inversion HF as [|? n ? ms' Hn HF']; subst; simpl in *.
  { exists m. split_and!; [done..|]. by intros. }
  destruct (lookup_lt_is_Some_2 txs k ltac:(lia)) as [t Hk], (lookup_lt_is_Some_2 bs k ltac:(lia)) as [b Hkb].
  rewrite Hk, Hkb, (convert_receipt_watched _ _ _ Hn). simpl.
  destruct (IH (S k) txs bs ms' (<[trx_Hash t:=watched_receipt (with_rct_CID n (CID b))]> m)) as (m' & -> & Hold & Hnew);
    [done|lia|lia|done|]. exists m'. split_and!; [done| |].
  - intros j t' Hj Hj'. rewrite (Hold j t') by (done || lia). apply lookup_insert_ne. intros Heq.
    enough (j = k) by lia. eapply (NoDup_lookup (map trx_Hash txs)); [done|..]; rewrite list_lookup_fmap.
    + by rewrite Hj'.
    + rewrite Hk. simpl. by rewrite Heq.
  - intros [|j] t' b' n' Hl1 Hl2 Hl3; simpl in Hl3.
    + rewrite Nat.add_0_r in *. simplify_eq. rewrite (Hold k t) by (done || lia). by rewrite lookup_insert_eq.
    + rewrite Nat.add_succ_r in *. by apply (Hnew j).
Qed.

Lemma watched_states ns ss : Forall2 state_sent ns ss →
  Forall2 (λ n m, ∃ c, RawdataToCid MEthStateTrie (n_Value n) KECCAK_256 = Ok c ∧ m = watched_state (state_model n c))
    ns (map convert_state ss).
Proof.
  intros HF. apply Forall2_fmap_r. eapply Forall2_impl; [exact HF|]. intros n s (Hk & Ht & Hc).
  eexists. split; [exact Hc|]. unfold convert_state, watched_state, state_model. simpl. by rewrite Hk, Ht.
Qed.

(** The map of storage models, read at a key. *)
Lemma convert_storage_under l key : ∀ m,
  default [] (foldl convert_storage m l !! key) = default [] (m !! key) ++
  map (λ s, {| st_ID := 0; st_StateID := 0; st_Path := []; st_StorageKey := Hash_String (stn_StorageLeafKey s);
    st_NodeType := ResolveFromNodeType (stn_Type s); st_CID := CID (stn_IPLD s) |})
    (filter (λ s, Hash_String (stn_StateLeafKey s) = key) l).
Proof.
  induction l as [|s l IH]; intros m; simpl; [by rewrite app_nil_r|]. rewrite IH, filter_cons. unfold convert_storage.
  destruct (decide (Hash_String (stn_StateLeafKey s) = key)) as [->|Hne].
  - rewrite lookup_insert_eq. simpl. by rewrite <- app_assoc.
  - by rewrite lookup_insert_ne by done.
Qed.

Lemma watched_storages p ss key : Forall2 storage_sent (storage_pairs p) ss →
  Forall2 (λ x m, ∃ c, RawdataToCid MEthStorageTrie (n_Value x.2) KECCAK_256 = Ok c ∧ m = watched_storage (storage_model x.2 c))
    (storages_under p key) (default [] (foldl convert_storage ∅ ss !! key)).
Proof.
  rewrite convert_storage_under, lookup_empty. simpl. unfold storages_under. intros HF. apply Forall2_fmap_r.
  induction HF as [|x s xs ss (Hk & Hl & Ht & Hc) _ IH]; [constructor|]. rewrite !filter_cons, Hk.
  case_decide; [|done]. constructor; [|done]. eexists. split; [exact Hc|].
  unfold watched_storage, storage_model. simpl. by rewrite Hl, Ht.
Qed.

(** ** Properties *)


End Agreement.

(** ** Witness *)

Module OneBlock.

#[local] Instance ex_geth : GethCommon := {|
  Keccak256Hash := @Keccak256Hash Concrete.geth; HexToAddress := @HexToAddress Concrete.geth;
  HexToHash := @HexToHash Concrete.geth; FromHex := @FromHex Concrete.geth;
  BytesToHash := @BytesToHash Concrete.geth; Hash_String := @Hash_String Concrete.geth;
  Address_Hex := λ a, "0x" +:+ Concrete.enc a; Bytes2Hex := @Bytes2Hex Concrete.geth |}.

#[local] Instance ex_geth_prefix : AddressHexLaws.
Proof. constructor. intros a. by eexists. Defined.

#[local] Instance ex_cids : CidLib := {|
  Prefix_Sum := λ p b, Ok (Concrete.enc b); cid_Decode := Ok; CidToDsKey := λ c, String "/" c |}.

Definition ex_header (n : Z) : Header := {| header_RLP := Ok [n]; header_Number := n; header_Hash := [n]; header_ParentHash := [n - 1] |}.
Definition ex_trx : Transaction := {| trx_RLP := Ok [7]; trx_Hash := [7]; trx_To := None; trx_Sender := Ok [1]; trx_GasPrice := 3 |}.
Definition ex_receipt : Receipt := {| rct_RLP := Ok [8]; rct_TxHash := [7]; rct_GasUsed := 5; rct_ContractAddress := [4];
  rct_Logs := [{| log_Address := [4]; log_Topics := [[5]; [6]] |}] |}.

#[local] Instance ex_rlp : WatcherRlp := {|
  DecodeIPLDs := λ _, Ok IPLDs_zero;
  DecodeHeader := λ raw, match raw with [n] => Ok (ex_header n) | _ => Err (Errorf "rlp: element is larger than containing list") end;
  DecodeTransaction := λ _, Ok ex_trx;
  DecodeReceipt := λ _, Ok ex_receipt;
  Sender := λ _, trx_Sender;
  DeriveFields := λ rs _ _ _, Ok rs |}.

Definition ex_payload : Payload := {|
  pl_TotalDifficulty := 11;
  pl_Block := Ok {| block_Header := ex_header 9; block_Uncles := [ex_header 8]; block_Transactions := [ex_trx];
    block_Root := [1]; block_TxHash := [7]; block_ReceiptHash := [8]; block_UncleHash := [2]; block_Bloom := [3]; block_Time := 12 |};
  pl_Receipts := Ok [ex_receipt];
  pl_StateObject := Ok [{| sd_Path := [1]; sd_Value := [3]; sd_Type := Leaf; sd_LeafKey := [2]; sd_StorageNodes := [] |}] |}.

#[local] Instance ex_tries : TrieLib := {| rlp_uint := λ n, [Z.of_nat n]; trie_Hash := λ l, concat (map snd l) |}.

Definition ex_whole : SubscriptionSettings := {|
  BackFill := false; BackFillOnly := false; Start := 0; End_ := 0;
  HeaderFilter_ := {| hf_Off := false; hf_Uncles := true |};
  TxFilter_ := {| tf_Off := false; tf_Src := []; tf_Dst := [] |};
  ReceiptFilter_ := {| rf_Off := false; rf_MatchTxs := false; rf_LogAddresses := []; rf_Topics := [] |};
  StateFilter_ := {| sf_Off := false; sf_Addresses := []; sf_IntermediateNodes := true |};
  StorageFilter_ := {| stf_Off := false; stf_Addresses := []; stf_StorageKeys := []; stf_IntermediateNodes := true |} |}.


End OneBlock.
