(* ===== verification/WatcherDB.v ===== *)
(** * The watcher's repository for Ethereum (pkg/watcher/eth/repository.go)

    The queue and the trigger tables in Postgres.  A transaction that is left
    without COMMIT or ROLLBACK keeps its rows locked and its writes invisible:
    the state keeps, for each of them, the keys it wrote to public.blocks. *)

From S2P Require Import Prelude GoInt Geth EthModel Sql Queries Blocks EthDB WatcherConverter Watcher WatcherRuns.
From S2P Require Service.

(** shared.QueuedData, a row of the queue *)
Record QueuedData : Type := mkQueued { qd_ID : Z; qd_Data : bytes; qd_Height : Z }.

(** [queued_data] is the table of that name, which the migrations do not create:
    theirs is eth.queue_data. *)
Record EthRepository : Type := mkRepository {
  db : session EthDB;
  queued_data : option (list QueuedData);
  deleteCalls : Z;
  left_open : list (list string)
}.

Definition set_db (s : session EthDB) (r : EthRepository) : EthRepository :=
  mkRepository s (queued_data r) (deleteCalls r) (left_open r).

(** The session [s] inside a transaction that is then left open: what the others
    see are the tables [t] from before. *)
Definition leave_open (t : EthDB) (keys : list string) (s : session EthDB) (r : EthRepository) : EthRepository :=
  mkRepository (mkSession t (seqs s) false (clock s)) (queued_data r) (deleteCalls r) (keys :: left_open r).

(** [tx, err := db.Beginx()], a body whose errors return without ending the
    transaction, and [return tx.Commit()]. *)
Definition transact_unended (o : oracle) (body : DB EthDB unit) (r : EthRepository) : result unit * EthRepository :=
  match begin_ o (db r) with
  | (DOk _, s1) =>
      match body o s1 with
      | (DOk _, s2) =>
          match commit (tables (db r)) o s2 with
          | (None, s3) => (Ok tt, set_db s3 r)
          | (Some e, s3) => (Err e, set_db s3 r)
          end
      | (DErr _ e, s2) => (Err e, leave_open (tables (db r)) [] s2 r)
      | (DPanic w, s2) => (Panic w, leave_open (tables (db r)) [] s2 r)
      end
  | (DErr _ e, s1) => (Err e, set_db s1 r)
  | (DPanic w, s1) => (Panic w, set_db s1 r)
  end.

Definition vacuumThreshold : Z := 5000.

Section Repository.
Context `{GethCommon} `{WatcherRlp}.
Variable map_range : list string → list string.
(** Which statements fail, the files of the trigger functions and their effect,
    and the error for a parenthesized list of one column, which servers up to
    version 9.6 accept. *)
Variable o : oracle.
Variable ReadFile : string → result string.
Variable run_sql : string → EthDB → result EthDB.
Variable single_column : option error.
Variable nodeID : Z.

(** ** LoadTriggers *)

Definition load_triggers (triggerFunctions : list string) : DB EthDB unit :=
  db_for (λ funcPath,
    sqlString <-- db_lift (ReadFile funcPath) ;;
    exec_check (λ d q, (rbind (run_sql sqlString d) (λ d, Ok (tt, d)), q))) triggerFunctions.

Definition LoadTriggers (triggerFunctions : list string) : EthRepository → result unit * EthRepository :=
  transact_unended o (load_triggers triggerFunctions).

(** ** The queue *)

(** [... DO UPDATE SET (data) VALUES ($1)] does not parse. *)
Definition QueueData (payload : SubscriptionPayload) (r : EthRepository) : result unit * EthRepository :=
  (Err (default (Driver "pq: syntax error at or near VALUES") (o (clock (db r)))), set_db (Sql.tick (db r)) r).

(** [DELETE ... RETURNING *], and the VACUUM whose error is logged. *)
Definition GetQueueData (height : Z) (r : EthRepository) : result (SubscriptionPayload * Z) * EthRepository :=
  let s := Sql.tick (db r) in
  match o (clock (db r)), queued_data r with
  | Some e, _ => (Err e, set_db s r)
  | None, None => (Err (Driver "pq: relation eth.queued_data does not exist"), set_db s r)
  | None, Some rows =>
      match list_find (λ d, qd_Height d = height) rows with
      | None => (Err ErrNoRows, set_db s r)
      | Some (_, res) =>
          let calls := i64_add (deleteCalls r) 1 in
          let vacuum := vacuumThreshold <=? calls in
          (Ok (Service.mkPayload (qd_Data res) (qd_Height res) "" Service.EmptyFlag, i64_add height 1),
           mkRepository (if vacuum then Sql.tick s else s) (Some (filter (λ d, qd_Height d ≠ height) rows))
             (if vacuum then 0 else calls) (left_open r))
      end
  end.

(** ** ReadyData *)

(** The blocks in the order of the statements. *)
Definition iplds_blocks (ethIPLDs : IPLDs) : list BlockModel :=
  i_Header ethIPLDs :: i_Uncles ethIPLDs ++ i_Transactions ethIPLDs ++ i_Receipts ethIPLDs ++
  map sn_IPLD (i_StateNodes ethIPLDs) ++ map stn_IPLD (i_StorageNodes ethIPLDs).

(** One [tx.Exec(pgStr, ...)].  The row of a key that an open transaction wrote
    is locked: the statement waits for its end. *)
Definition ready_block (locked : list string) (b : BlockModel) : DB EthDB unit :=
  match single_column with
  | Some e => reject e
  | None =>
      if bool_decide (CID b ∈ locked) then λ _ s, (DPanic "waits for a transaction that is never ended", s)
      else modify (λ d, put_blocks (<[CID b := Data b]> (blocks_of d)) d)
  end.

(** An error rolls back; the last statement is [return nil]. *)
Definition readyIPLDs (ethIPLDs : IPLDs) (r : EthRepository) : result unit * EthRepository :=
  let t := tables (db r) in
  match begin_ o (db r) with
  | (DOk _, s1) =>
      match db_for (ready_block (concat (left_open r))) (iplds_blocks ethIPLDs) o s1 with
      | (DOk _, s2) => (Ok tt, leave_open t (map CID (iplds_blocks ethIPLDs)) s2 r)
      | (DErr _ e, s2) => (Err e, set_db (rolled_back t s2) r)
      | (DPanic w, s2) => (Panic w, leave_open t [] s2 r)
      end
  | (DErr _ e, s1) => (Err e, set_db s1 r)
  | (DPanic w, s1) => (Panic w, set_db s1 r)
  end.

(** [r.cidIndexer.Index], on another connection of the pool. *)
Definition index_ready (cids : CIDPayload) (r : EthRepository) : result unit * EthRepository :=
  let '(out, s) := Index nodeID cids o (db r) in (out_result out, set_db s r).

Definition ReadyData (payload : SubscriptionPayload) (r : EthRepository) : result unit * EthRepository :=
  match DecodeIPLDs (sp_Data payload) with
  | Ok ethIPLDs =>
      match readyIPLDs ethIPLDs r with
      | (Ok _, r) =>
          match Convert map_range ethIPLDs with
          | Ok cids => index_ready cids r
          | Err e => (Err e, r)
          | Panic w => (Panic w, r)
          end
      | res => res
      end
  | Err e => (Err e, r)
  | Panic w => (Panic w, r)
  end.

(** The repository of the watcher, on a database with the migrations' tables. *)
Definition eth_repository (triggerFunctions : list string) : Repository := {|
  Repo := EthRepository;
  Watcher.LoadTriggers := LoadTriggers triggerFunctions;
  Watcher.QueueData := QueueData;
  Watcher.GetQueueData := GetQueueData;
  Watcher.ReadyData := ReadyData |}.

End Repository.

Definition NewRepository (s : session EthDB) : EthRepository := mkRepository s None 0 [].

(** ** Lemmas: what indexing leaves alone *)

Section Indexing.
Context `{GethCommon}.

(** A predicate that no statement of a payload's header, uncles, transactions
    and receipts can change. *)
Section Frame.
Variable P : EthDB → Prop.
Hypothesis P_headers : ∀ f d, P d → P (set_headers f d).
Hypothesis P_uncles : ∀ f d, P d → P (set_uncles f d).
Hypothesis P_transactions : ∀ f d, P d → P (set_transactions f d).
Hypothesis P_receipts : ∀ f d, P d → P (set_receipts f d).

Definition framed : state_pred EthDB := λ d _, P d.

#[local] Ltac frame :=
  apply exec_ensures; unfold framed; intros ?? Hd;
  match goal with |- context [upsert_rows ?n ?c ?row ?upd ?id ?rows ?q0] =>
    destruct (upsert_rows n c row upd id rows q0) as [[? ?] ?]; simpl; by auto
  end.

Lemma indexHeaderCID_frame nodeID h : ensures framed (indexHeaderCID nodeID h) (λ _, framed).
Proof. frame. Qed.
Lemma indexUncleCID_frame u hid : ensures framed (indexUncleCID u hid) (λ _, framed).
Proof. frame. Qed.
Lemma indexTransactionCID_frame t hid : ensures framed (indexTransactionCID t hid) (λ _, framed).
Proof. frame. Qed.
Lemma indexReceiptCID_frame r id : ensures framed (indexReceiptCID r id) (λ _, framed).
Proof. frame. Qed.

(** What remains are the state and storage nodes. *)
Lemma Index_body_frame nodeID p Q :
  (∀ hid, ensures framed (indexStateAndStorageCIDs p hid) Q) → ensures framed (Index_body nodeID p) Q.
Proof.
  intros Hs. eapply bind_ensures; [apply indexHeaderCID_frame|]. intros hid.
  eapply bind_ensures; [apply for_ensures; intros u; apply shadow_ensures, indexUncleCID_frame|].
  intros []. apply (bind_ensures _ _ _ (λ _, framed)); [|intros []; apply Hs].
  apply shadow_ensures, for_ensures. intros t. eapply bind_ensures; [apply indexTransactionCID_frame|].
  intros id. simpl. case_match; [apply indexReceiptCID_frame|apply ret_ensures].
Qed.

Hypothesis P_states : ∀ f d, P d → P (set_states f d).
Hypothesis P_accounts : ∀ f d, P d → P (set_accounts f d).
Hypothesis P_storages : ∀ f d, P d → P (set_storages f d).

Lemma indexStateAndStorageCIDs_frame p hid : ensures framed (indexStateAndStorageCIDs p hid) (λ _, framed).
Proof.
  apply for_ensures. intros st.
  assert (ensures framed (indexStateCID st hid) (λ _, framed)) as Hst by frame.
  eapply bind_ensures; [exact Hst|]. intros id. simpl. case_match; [|apply ret_ensures].
  assert (∀ sc, ensures framed (indexStorageCID sc id) (λ _, framed)) as Hsc by (intros; frame).
  eapply bind_ensures; [by apply for_ensures|]. intros [].
  case_match; [|apply ret_ensures].
  match goal with |- ensures _ (indexStateAccount ?a _) _ =>
    assert (ensures framed (indexStateAccount a id) (λ _, framed)) as Ha by frame; exact Ha end.
Qed.

End Frame.

(** Indexing never writes a block, however it ends. *)
Lemma Index_blocks nodeID p o s : blocks (tables (Index nodeID p o s).2) = blocks (tables s).
Proof.
  apply (transact_deferred_invariant (framed (λ d, blocks d = blocks (tables s))) (Index_body nodeID p) o s).
  - by intros d q q'.
  - apply Index_body_grows.
  - apply Index_body_shadow_aborts.
  - apply Index_body_frame; [by destruct d..|]. intros hid. by apply indexStateAndStorageCIDs_frame; destruct d.
  - done.
Qed.

(** A payload whose state nodes have no path and whose maps have no entry for
    the empty path. *)
Record pathless (p : CIDPayload) : Prop := {
  pl_paths : Forall (λ st, s_Path st = []) (c_StateNodeCIDs p);
  pl_storage : c_StorageNodeCIDs p !! Bytes2Hex [] = None;
  pl_accounts : c_StateAccounts p !! Bytes2Hex [] = None
}.

(** Only rows of the header's empty path are new, and no other table of nodes
    changes. *)
Definition collapsed (d0 : EthDB) (hid : Z) : state_pred EthDB := λ d _,
  storage_cids d = storage_cids d0 ∧ state_accounts d = state_accounts d0 ∧
  Forall (λ x, x ∈ state_cids d0 ∨ state_row_key x = (hid, [])) (state_cids d).

Definition same_nodes (d0 d : EthDB) : Prop :=
  storage_cids d = storage_cids d0 ∧ state_accounts d = state_accounts d0 ∧ state_cids d = state_cids d0.

Lemma indexStateCID_collapsed d0 hid st : s_Path st = [] →
  ensures (collapsed d0 hid) (indexStateCID st hid) (λ _, collapsed d0 hid).
Proof.
  intros Hp. apply exec_ensures. intros d q (Es & Ea & Hf). rewrite Hp.
  pose proof (upsert_rows_Forall (λ x, x ∈ state_cids d0 ∨ state_row_key x = (hid, [])) "eth.state_cids"
    (λ r, bool_decide (state_row_key r = (hid, []))) (state_row st (non_null (s_StateKey st)) hid)
    (state_update st (non_null (s_StateKey st))) s_ID (state_cids d) q) as Hu.
  destruct (upsert_rows _ _ _ _ _ _ _) as [[id rows] q']. split_and!; [done..|]. simpl. apply Hu; [| |done].
  - intros n. right. unfold state_row_key. simpl. by rewrite Hp.
  - intros r Hr _. right. unfold state_row_key in *. simpl. by apply bool_decide_eq_true in Hr.
Qed.

Lemma Index_body_collapsed nodeID p d0 : pathless p →
  ensures (framed (same_nodes d0)) (Index_body nodeID p) (λ _ d q, ∃ hid, collapsed d0 hid d q).
Proof.
  intros [Hp Hs Ha]. apply Index_body_frame; [by destruct d..|]. intros hid.
  eapply (ensures_weaken (collapsed d0 hid) _ _ (λ _, collapsed d0 hid)).
  - intros d q (Es & Ea & Et). split_and!; [done..|]. rewrite Et. apply Forall_forall. by left.
  - intros _ d q Hc. by exists hid.
  - unfold indexStateAndStorageCIDs. revert Hp. generalize (c_StateNodeCIDs p). intros l Hp.
    induction Hp as [|st l Hst _ IH]; [apply ret_ensures|]. simpl. apply (bind_ensures _ _ _ (λ _, collapsed d0 hid)); [|intros []; exact IH].
    apply (bind_ensures _ _ _ (λ _, collapsed d0 hid)); [by apply indexStateCID_collapsed|]. intros id. simpl. rewrite Hst, Hs, Ha.
    case_match; [|apply ret_ensures]. apply (bind_ensures _ _ _ (λ _, collapsed d0 hid)); intros; apply ret_ensures.
Qed.

End Indexing.

(** ** Lemmas: the calls *)

(** Its effects are visible together or not at all. *)
Lemma transact_unended_atomic o body r :
  let '(res, r') := transact_unended o body r in
  match res with
  | Ok _ => ∃ s1 s2, begin_ o (db r) = (DOk tt, s1) ∧ body o s1 = (DOk tt, s2) ∧ tables (db r') = tables s2
  | _ => tables (db r') = tables (db r)
  end.
Proof.
  unfold transact_unended. pose proof (begin_tables o (db r)) as Hb.
  destruct (begin_ o (db r)) as [[[]|b e|w] s1]; simpl in *; [|done..].
  destruct (body o s1) as [[[]|b e|w] s2] eqn:E; [|done..]. unfold commit.
  destruct (aborted s2); [done|]. destruct (o (clock s2)); [done|]. simpl. by exists s1, s2.
Qed.

Section Calls.
Context `{GethCommon} `{WatcherRlp}.
Variable map_range : list string → list string.
Variable o : oracle.
Variable single_column : option error.
Variable nodeID : Z.

Abbreviation Ready := (ReadyData map_range o single_column nodeID).
Abbreviation readies := (readyIPLDs o single_column).

(** Nobody sees what [readyIPLDs] writes; when it returns without an error its
    transaction is open. *)
Lemma readyIPLDs_invisible i r :
  let '(res, r') := readies i r in
  tables (db r') = tables (db r) ∧ queued_data r' = queued_data r ∧ left_open r ⊆ left_open r' ∧
  (is_ok res = true → left_open r' = map CID (iplds_blocks i) :: left_open r).
Proof.
  unfold readyIPLDs. pose proof (begin_tables o (db r)) as Hb.
  destruct (begin_ o (db r)) as [[[]|b e|w] s1]; cbn beta iota; simpl in Hb; [|by split_and!..].
  destruct (db_for (ready_block single_column _) _ o s1) as [[[]|b e|w] s2]; simpl; split_and!; try done; set_solver.
Qed.

Lemma ReadyData_frame p r :
  let r' := (Ready p r).2 in
  blocks (tables (db r')) = blocks (tables (db r)) ∧ queued_data r' = queued_data r ∧ left_open r ⊆ left_open r'.
Proof.
  unfold ReadyData. destruct (DecodeIPLDs (sp_Data p)) as [i|e|w]; [|done..].
  pose proof (readyIPLDs_invisible i r) as Hr. destruct (readies i r) as [[u|e|w] r1]; destruct Hr as (Ht & Hq & Hl & _);
    simpl; [|by rewrite Ht..]. rewrite <- Ht, <- Hq. destruct (Convert map_range i) as [c|e|w]; [|done..].
  unfold index_ready. pose proof (Index_blocks nodeID c o (db r1)) as Hi.
  by destruct (Index nodeID c o (db r1)).
Qed.

(** A block whose row is locked stops the loop. *)
Lemma ready_block_locked locked bs s : (∃ b, b ∈ bs ∧ CID b ∈ locked) →
  is_DOk (db_for (ready_block single_column locked) bs o s).1 = false.
Proof.
  intros (b & Hb & Hl). revert s. induction bs as [|x bs IH]; intros s; [by apply elem_of_nil in Hb|].
  simpl. unfold db_bind. destruct (ready_block single_column locked x o s) as [[[]|? ?|?] s'] eqn:E; [|done..].
  apply elem_of_cons in Hb as [->|Hb]; [|by apply IH].
  unfold ready_block in E. destruct single_column; [done|]. by rewrite bool_decide_eq_true_2 in E.
Qed.

(** What the watcher relies on finds no queue. *)
Lemma no_queue h r : queued_data r = None →
  is_ok (GetQueueData o h r).1 = false ∧ queued_data (GetQueueData o h r).2 = None.
Proof. intros Hq. unfold GetQueueData. rewrite Hq. by destruct (o (clock (db r))). Qed.

(** The count of deletions stays below the threshold. *)
Lemma GetQueueData_calls h r : 0 ≤ deleteCalls r < vacuumThreshold →
  0 ≤ deleteCalls (GetQueueData o h r).2 < vacuumThreshold.
Proof.
  unfold GetQueueData, vacuumThreshold. intros Hc. destruct (o _); [done|]. destruct (queued_data r) as [rows|]; [|done].
  destruct (list_find _ rows) as [[j d]|]; [|done]. simpl. rewrite i64_add_id by (unfold is_i64; lia).
  destruct (Z.leb_spec 5000 (deleteCalls r + 1)); lia.
Qed.

(** A queued payload is returned once, with the next index. *)
Lemma GetQueueData_exact h r rows d : o (clock (db r)) = None → queued_data r = Some rows →
  NoDup (map qd_Height rows) → d ∈ rows → qd_Height d = h →
  (GetQueueData o h r).1 = Ok (Service.mkPayload (qd_Data d) h "" Service.EmptyFlag, i64_add h 1) ∧
  queued_data (GetQueueData o h r).2 = Some (filter (λ x, qd_Height x ≠ h) rows).
Proof.
  intros Ho Hq Hnd Hd Hh. unfold GetQueueData. rewrite Ho, Hq.
  destruct (list_find (λ d, qd_Height d = h) rows) as [[j d']|] eqn:E.
  - apply list_find_Some in E as (Hj & Hd' & _). apply list_elem_of_lookup_2 in Hj.
    assert (d' = d) as -> by (eapply (NoDup_map_inj qd_Height); [exact Hnd|done|done|congruence]). by rewrite Hd'.
  - apply list_find_None in E. rewrite Forall_forall in E. by destruct (E d Hd).
Qed.

(** ** Properties *)

(** [ReadyData] never makes a block visible, whatever the server does: the
    transaction of [readyIPLDs] is not committed.  When it succeeds, the
    converted models of the payload were indexed, and a transaction on the rows
    of its blocks stays open -- so that no later call with one of these blocks
    can succeed. *)
Theorem ready_blocks_stay_hidden p r :
  let '(res, r') := Ready p r in
  blocks (tables (db r')) = blocks (tables (db r)) ∧
  (is_ok res = true → ∃ i w s, DecodeIPLDs (sp_Data p) = Ok i ∧ Convert map_range i = Ok w ∧
     tables s = tables (db r) ∧ Index nodeID w o s = (DOk tt, db r') ∧
     left_open r' = map CID (iplds_blocks i) :: left_open r ∧
     ∀ p2 i2 r2, DecodeIPLDs (sp_Data p2) = Ok i2 → left_open r' ⊆ left_open r2 →
       (∃ b b2, b ∈ iplds_blocks i ∧ b2 ∈ iplds_blocks i2 ∧ CID b2 = CID b) → is_ok (Ready p2 r2).1 = false).
Proof.
  pose proof (ReadyData_frame p r) as [Hb _]. destruct (Ready p r) as [res r'] eqn:E. split; [exact Hb|].
  intros Hok. unfold ReadyData in E. destruct (DecodeIPLDs (sp_Data p)) as [i|e|w]; [|by simplify_eq..].
  pose proof (readyIPLDs_invisible i r) as Hr. destruct (readies i r) as [[u|e|w] r1]; [|by simplify_eq..].
  destruct Hr as (Ht & _ & _ & Hl). destruct (Convert map_range i) as [c|e|w] eqn:Ec; [|by simplify_eq..].
  unfold index_ready in E. destruct (Index nodeID c o (db r1)) as [[[]|b e|w] s] eqn:Ei; simplify_eq/=.
  exists i, c, (db r1). split_and!; try done; [by apply Hl|].
  intros p2 i2 r2 Hi2 Hsub (b & b2 & Hb1 & Hb2 & Hc). unfold ReadyData. rewrite Hi2. unfold readyIPLDs.
  destruct (begin_ o (db r2)) as [[[]|? ?|?] s1]; cbn beta iota; [|done..].
  assert (is_DOk (db_for (ready_block single_column (concat (left_open r2))) (iplds_blocks i2) o s1).1 = false) as Hno.
  { apply ready_block_locked. exists b2. split; [done|]. rewrite Hc. apply list_elem_of_In, in_concat.
    exists (map CID (iplds_blocks i)). rewrite <- !list_elem_of_In. split; [|by apply list_elem_of_fmap_2].
    apply Hsub. rewrite (Hl eq_refl). by left. }
  by destruct (db_for (ready_block single_column _) _ o s1) as [[[]|? ?|?] s2].
Qed.

Variable ReadFile : string → result string.
Variable run_sql : string → EthDB → result EthDB.

(** C15: on the tables of the migrations the watcher has no queue: however its
    goroutines interleave, what is handed over are payloads of consecutive
    heights from the start, every payload that comes before its turn is lost, and
    no block of any payload is ever visible in public.blocks. *)
Theorem postgres_watch_in_order triggerFunctions ending start r :
  let repo := eth_repository map_range o ReadFile run_sql single_column nodeID triggerFunctions in
  ∀ w : watch (H := repo), queued_data r = None → - 2 ^ 63 ≤ start < 2 ^ 63 - 1 →
  rtc (wstep (H := repo) ending) (watch_start (H := repo) start r) w →
  map sp_Height (ready (H := repo) w) = seqZ start (Z.of_nat (length (ready (H := repo) w))) ∧
  good (arrived (H := repo) w) ≡ₚ ready (H := repo) w ++ lost (H := repo) w ++ recv_held (recv (H := repo) w) ++
    good (chan (H := repo) w) ∧
  (recv (H := repo) w = Listening → index (H := repo) w = start + Z.of_nat (length (ready (H := repo) w))) ∧
  blocks (tables (db (store (H := repo) w))) = blocks (tables (db r)).
Proof.
  intros repo w Hq Hs Hr.
  assert (blocks (tables (db (store (H := repo) w))) = blocks (tables (db r)) ∧ queued_data (store (H := repo) w) = None) as [Hb _].
  { remember (watch_start (H := repo) start r) as w0 eqn:E0.
    assert (blocks (tables (db (store (H := repo) w0))) = blocks (tables (db r)) ∧ queued_data (store (H := repo) w0) = None)
      as Hw0 by (by subst). clear E0. induction Hr as [|w w1 w2 Hs1 _ IH]; [done|]. apply IH.
    destruct Hw0 as [<- Hw0]. destruct Hs1 as [v v' Hp|]; [|done].
    destruct Hp as [| |p v _ _| |p v _ _| |h e r' v _ Eg|h p n r' v _ Eg| | |p v _ _| |]; try done.
    - destruct (ReadyData_frame p (store (H := repo) v)) as (E1 & E2 & _). simpl in *. by rewrite E1, E2.
    - pose proof (no_queue h (store (H := repo) v) Hw0) as [_ E2]. simpl in *. rewrite Eg in E2.
      split; [|done]. unfold GetQueueData in Eg. rewrite Hw0 in Eg. by destruct (o _); injection Eg as _ <-.
    - pose proof (no_queue h (store (H := repo) v) Hw0) as [E1 _]. simpl in *. by rewrite Eg in E1.
    - destruct (ReadyData_frame p (store (H := repo) v)) as (E1 & E2 & _). simpl in *. by rewrite E1, E2. }
  destruct (unqueued_in_order (H := repo) ending start (λ r, queued_data r = None)) with (r := r) (w := w)
    as (H1' & H2' & H3'); try done.
  - intros h r' Hr'. by apply no_queue.
  - intros p r' Hr'. destruct (ReadyData_frame p r') as (_ & E2 & _). simpl in *. by rewrite E2.
Qed.

End Calls.

(** ** What indexing makes of the converter's models *)

(** Documented behaviour: no bytes print as the empty string, a hash does not. *)
Class HexLaws `{GethCommon} := {
  Bytes2Hex_nil : Bytes2Hex [] = "";
  Hash_String_not_nil : ∀ h, Hash_String h ≠ ""
}.

Section Nodes.
Context `{HexLaws} `{WatcherRlp}.
Variable map_range : list string → list string.

Lemma convert_storage_key l : ∀ m, m !! "" = None → foldl convert_storage m l !! "" = None.
Proof.
  induction l as [|s l IH]; intros m Hm; [done|]. simpl. apply IH. unfold convert_storage.
  rewrite lookup_insert_ne; [done|apply Hash_String_not_nil].
Qed.

Lemma Convert_pathless i w : Convert map_range i = Ok w → pathless w.
Proof.
  unfold Convert. destruct (negb _); [done|].
  intros (h & _ & E)%rbind_Ok_inv. apply rbind_Ok_inv in E as (us & _ & E). apply rbind_Ok_inv in E as (ts & _ & E).
  apply rbind_Ok_inv in E as (ds & _ & E). apply rbind_Ok_inv in E as (rs & _ & E).
  apply rbind_Ok_inv in E as (rm & _ & E). apply rbind_Ok_inv in E as (rw & _ & [= <-]).
  split; simpl; rewrite ?Bytes2Hex_nil.
  - apply Forall_fmap, Forall_true. done.
  - by apply convert_storage_key.
  - done.
Qed.

(** C16: the converter sets no path, so the state nodes of a watched block
    all have the same key: at most one row of eth.state_cids is new or changed
    by indexing it, and neither storage nodes nor accounts are indexed at all. *)
Theorem watched_nodes_collapse i w nodeID o s :
  Convert map_range i = Ok w → wf (tables s) (seqs s) → is_DOk (Index nodeID w o s).1 = true →
  let d := tables s in let d' := tables (Index nodeID w o s).2 in
  storage_cids d' = storage_cids d ∧ state_accounts d' = state_accounts d ∧
  ∀ x y, x ∈ state_cids d' → y ∈ state_cids d' → x ∉ state_cids d → y ∉ state_cids d → x = y.
Proof.
  intros Hc Hwf Hok. simpl.
  pose proof (transact_deferred_invariant wf (Index_body nodeID w) o s wf_seq_closed (Index_body_grows nodeID w)
    (Index_body_shadow_aborts nodeID w) (Index_body_ensures nodeID w) Hwf) as Hwf'.
  fold (Index nodeID w) in Hwf'. destruct (Index nodeID w o s) as [[[]|b e|why] s'] eqn:Ei; [|done..]. simpl in *.
  apply transact_deferred_ok in Ei as (s1 & s2 & Hb & Hbody & [Ht| ->]); [|by split_and!; [..|intros x y]].
  pose proof (begin_tables o s) as Hbt. rewrite Hb in Hbt. simpl in Hbt.
  pose proof (Index_body_collapsed nodeID w (tables s) (Convert_pathless _ _ Hc) o s1) as Hcol.
  rewrite Hbody in Hcol. destruct Hcol as (hid & Es & Ea & Hf); [by unfold framed, same_nodes; rewrite Hbt|].
  rewrite Ht in *. split_and!; [done..|]. intros x y Hx Hy Hnx Hny.
  rewrite Forall_forall in Hf. destruct (Hf x Hx) as [?|Ex]; [done|]. destruct (Hf y Hy) as [?|Ey]; [done|].
  destruct (wf_states _ _ Hwf') as (_ & Hnd & _). eapply (NoDup_map_inj state_row_key); [exact Hnd|done|done|congruence].
Qed.

End Nodes.

(** ** Witnesses *)

Module Examples.

#[local] Instance ex_geth : GethCommon := {|
  Keccak256Hash := @Keccak256Hash Concrete.geth; HexToAddress := @HexToAddress Concrete.geth;
  HexToHash := @HexToHash Concrete.geth; FromHex := @FromHex Concrete.geth;
  BytesToHash := @BytesToHash Concrete.geth; Hash_String := @Hash_String Concrete.geth;
  Address_Hex := λ a, "0x" +:+ Concrete.enc a; Bytes2Hex := λ b, match b with [] => "" | _ => Concrete.enc b end |}.

#[local] Instance ex_geth_hex : HexLaws.
Proof. by constructor. Defined.

(** A block with a transaction and two state nodes. *)
Definition ex_iplds : IPLDs := {|
  i_BlockNumber := Some 9; i_TotalDifficulty := Some 11; i_Header := mkBlock "h" [9]; i_Uncles := [];
  i_Transactions := [mkBlock "t" [7]]; i_Receipts := [mkBlock "r" [8]];
  i_StateNodes := [{| sn_Type := Branch; sn_StateLeafKey := []; sn_Path := [0]; sn_IPLD := mkBlock "s0" [1] |};
                   {| sn_Type := Leaf; sn_StateLeafKey := [5]; sn_Path := [1]; sn_IPLD := mkBlock "s1" [2] |}];
  i_StorageNodes := [{| stn_Type := Leaf; stn_StateLeafKey := [5]; stn_StorageLeafKey := [6]; stn_Path := [2]; stn_IPLD := mkBlock "st" [3] |}] |}.

#[local] Instance ex_rlp : WatcherRlp := {|
  DecodeIPLDs := λ _, Ok ex_iplds; DecodeHeader := λ _, Ok (OneBlock.ex_header 9);
  DecodeTransaction := λ _, Ok OneBlock.ex_trx; DecodeReceipt := λ _, Ok OneBlock.ex_receipt;
  Sender := λ _, trx_Sender; DeriveFields := λ rs _ _ _, Ok rs |}.

Definition ex_repository : EthRepository := NewRepository (mkSession EthDB_empty ∅ false 0).

Lemma ready_blocks_stay_hidden_witness :
  let '(res, r') := ReadyData (λ l, l) no_faults None 1 (Mem.data 9) ex_repository in
  res = Ok tt ∧ length (header_cids (tables (db r'))) = 1%nat ∧ blocks (tables (db r')) = ∅ ∧
  is_ok (ReadyData (λ l, l) no_faults None 1 (Mem.data 9) r').1 = false.
Proof.
  pose proof (ready_blocks_stay_hidden (λ l, l) no_faults None 1 (Mem.data 9) ex_repository) as Ht.
  destruct (ReadyData (λ l, l) no_faults None 1 (Mem.data 9) ex_repository) as [res r'] eqn:E.
  assert (res = Ok tt) as -> by (replace res with (ReadyData (λ l, l) no_faults None 1 (Mem.data 9) ex_repository).1;
    [vm_compute; reflexivity|by rewrite E]).
  assert (length (header_cids (tables (db r'))) = 1%nat) as Hl
    by (replace r' with (ReadyData (λ l, l) no_faults None 1 (Mem.data 9) ex_repository).2;
        [vm_compute; reflexivity|by rewrite E]).
  destruct Ht as [Hb Hr]. split; [done|]. split; [done|]. split; [exact Hb|].
  destruct (Hr eq_refl) as (i & w & s & Hi & _ & _ & _ & _ & Hno).
  apply (Hno (Mem.data 9) i r'); [exact Hi|done|]. exists (i_Header i), (i_Header i). split_and!; [by left..|done].
Defined.

Definition ex_watched : CIDPayload :=
  {| c_HeaderCID := {| h_ID := 0; h_NodeID := 0; h_TimesValidated := 0; h_CID := "h"; h_ParentHash := ""; h_BlockHash := "";
       h_BlockNumber := 9; h_TotalDifficulty := "11"; h_Reward := 0; h_StateRoot := ""; h_UncleRoot := ""; h_TxRoot := "";
       h_RctRoot := ""; h_Bloom := []; h_Timestamp := 0 |};
     c_UncleCIDs := []; c_TransactionCIDs := []; c_ReceiptCIDs := ∅; c_StateNodeCIDs := []; c_StateAccounts := ∅;
     c_StorageNodeCIDs := ∅ |}.

(** The two state nodes end up in one row, and the storage node in none. *)
Lemma watched_nodes_collapse_witness : ∃ w, Convert (λ l, l) ex_iplds = Ok w ∧ length (c_StateNodeCIDs w) = 2%nat ∧
  let d' := tables (Index 1 w no_faults (db ex_repository)).2 in
  length (state_cids d') = 1%nat ∧ storage_cids d' = [].
Proof.
  destruct (Convert (λ l, l) ex_iplds) as [w|e|why] eqn:E; [|vm_compute in E; discriminate..].
  exists w. split; [done|].
  assert (w = match Convert (λ l, l) ex_iplds with Ok w => w | _ => ex_watched end) as Ew by (by rewrite E).
  split; [rewrite Ew; vm_compute; reflexivity|].
  destruct (watched_nodes_collapse (λ l, l) ex_iplds w 1 no_faults (db ex_repository) E) as (Hs & _);
    [apply wf_empty|rewrite Ew; vm_compute; reflexivity|].
  split; [rewrite Ew; vm_compute; reflexivity|exact Hs].
Defined.

Lemma postgres_watch_in_order_witness :
  let repo := eth_repository (λ l, l) no_faults (λ _, Ok "") (λ _ d, Ok d) None 1 [] in
  ∃ w : watch (H := repo), rtc (wstep (H := repo) 9) (watch_start (H := repo) 0 ex_repository) w ∧
    lost (H := repo) w = [Mem.data 1] ∧
    map sp_Height (ready (H := repo) w) = seqZ 0 (Z.of_nat (length (ready (H := repo) w))).
Proof.
  intros repo.
  assert (∃ w, rtc (wstep (H := repo) 9) (watch_start (H := repo) 0 ex_repository) w ∧ lost (H := repo) w = [Mem.data 1])
    as (w & Hw & Hl).
  { eexists. split.
    - eapply rtc_l; [apply (w_push 9 (Mem.data 1)); simpl; lia|].
      eapply rtc_l; [apply w_progress; by eapply (recv_payload 9 (Mem.data 1) [])|].
      eapply rtc_l; [apply w_progress; by eapply (recv_queue 9 (Mem.data 1))|]. apply rtc_refl.
    - reflexivity. }
  exists w. split; [exact Hw|]. split; [exact Hl|].
  eapply (postgres_watch_in_order (λ l, l) no_faults None 1 (λ _, Ok "") (λ _ d, Ok d) [] 9 0 ex_repository w);
    [reflexivity|lia|exact Hw].
Defined.

End Examples.
