(* ===== verification/IpldNodes.v ===== *)
(** * Headers, transactions, receipts and accounts as IPLD nodes (pkg/ipfs/ipld:
    eth_header.go, eth_tx.go, eth_receipt.go, eth_account.go, shared.go)

    What the nodes answer through the interface [node.Node]: the paths through
    them, their trees and links, and the maps they marshal to JSON. *)

From S2P Require Import Prelude GoInt Decimal Geth EthModel.

(** ** Data

    A [types.Header], and what the methods of a [types.Transaction] and the
    fields of a [types.Receipt] hold. *)

Record HeaderFields : Type := mkHeaderFields {
  hd_ParentHash : bytes;
  hd_UncleHash : bytes;
  hd_Coinbase : bytes;
  hd_Root : bytes;
  hd_TxHash : bytes;
  hd_ReceiptHash : bytes;
  hd_Bloom : bytes;
  hd_Difficulty : Z;
  hd_Number : Z;
  hd_GasLimit : Z;
  hd_GasUsed : Z;
  hd_Time : Z;
  hd_Extra : bytes;
  hd_MixDigest : bytes;
  hd_Nonce : bytes
}.

Record TxFields : Type := mkTxFields {
  tx_Gas : Z;
  tx_GasPrice : Z;
  tx_Data : bytes;
  tx_Nonce : Z;
  RawSignatureValues : Z * Z * Z;               (* v, r, s *)
  tx_To : option bytes;
  tx_Value : Z;
  tx_StorageSize : string                       (* tx.Size().String() *)
}.

Record ReceiptFields : Type := mkReceiptFields {
  rc_PostState : bytes;
  rc_Status : Z;
  rc_CumulativeGasUsed : Z;
  rc_Bloom : bytes;
  rc_Logs : list Log;
  rc_TxHash : bytes;
  rc_ContractAddress : bytes;
  rc_GasUsed : Z;
  rc_StorageSize : string
}.

Record EthAccount : Type := mkAccount {
  Nonce : Z;
  Balance : Z;
  Root : bytes;
  CodeHash : bytes
}.

(** A node is the object, its CID and its bytes. *)
Record EthHeader : Type := mkEthHeader { eh_Header : HeaderFields; eh_cid : string; eh_rawdata : bytes }.
Record EthTx : Type := mkEthTx { et_Transaction : TxFields; et_cid : string; et_rawdata : bytes }.
Record EthReceipt : Type := mkEthReceipt { er_Receipt : ReceiptFields; er_cid : string; er_rawdata : bytes }.
Record EthAccountSnapshot : Type := mkSnapshot { account : EthAccount; as_cid : string; as_rawdata : bytes }.

(** The dynamic values that [Resolve] answers with and that the maps marshalled
    to JSON hold; [VLink] is a *node.Link, [VCid] a cid.Cid. *)
Inductive value : Type :=
| VUint (n : Z)
| VBig (n : Z)
| VText (s : string)
| VBytes (b : bytes)
| VAddress (a : option bytes)
| VLogs (l : list Log)
| VLink (c : string)
| VCid (c : string)
| VNil
| VHeader (h : EthHeader)
| VTx (t : EthTx)
| VReceipt (r : EthReceipt)
| VAccount (a : EthAccountSnapshot).

Abbreviation json := (list (string * value)).

(** Parameters: multihash encoding, CIDs, RLP and hexadecimal integers
    (go-multihash, go-cid, go-ethereum's rlp and hexutil).  An item of a trie
    node is its bytes, or [None] when it is itself a list. *)
Class NodeCodec := {
  mh_Encode : bytes → Z → result bytes;
  NewCidV1 : Z → bytes → string;
  Cid_Type : string → Z;
  EncodeBig : Z → string;
  node_items : bytes → result (list (option bytes));
  account_rlp : bytes → result EthAccount;
  header_rlp : bytes → result HeaderFields;
  tx_rlp : bytes → result TxFields;
  receipt_rlp : bytes → result ReceiptFields
}.

Definition MEthHeaderList : Z := 0x91.
Definition MEthAccountSnapshot : Z := 0x97.
Definition RawBinary : Z := 0x55.

(** [rlp.DecodeBytes] into a pointer, which must not be nil. *)
Definition DecodeBytes {A} (target_is_nil : bool) (decoded : result A) : result A :=
  if target_is_nil then Err (Sentinel "rlp: pointer given to Decode must not be nil") else decoded.

(** The [switch] of a [Resolve]: the entry of a key. *)
Fixpoint switch (cases : json) (p : string) : option value :=
  match cases with
  | [] => None
  | (k, v) :: cases => if bool_decide (p = k) then Some v else switch cases p
  end.

Definition no_such_link : error := Errorf "no such link".
Definition unexpected_elements (first : string) : error := Errorf ("unexpected path elements past " +:+ first).

Definition switch_or_fail (cases : json) (p : string) : result (value * list string) :=
  match switch cases p with
  | Some v => Ok (v, [])
  | None => Err no_such_link
  end.

(** [ResolveLink]: resolve, and assert that the result is a link. *)
Definition assert_link (r : result (value * list string)) : result (string * list string) :=
  obj <-! r ;;
  match obj.1 with
  | VLink c => Ok (c, obj.2)
  | _ => Err (Errorf "resolved item was not a link")
  end.

(** [Tree] of a node with these paths. *)
Definition tree_of (paths : list string) (p : string) (depth : Z) : list string :=
  if negb (bool_decide (p = "")) || (depth =? 0) then [] else paths.

(** [strconv.ParseUint(s, 10, 64)] *)
Definition ParseUint (s : string) : result Z :=
  match unsigned s with
  | Some n => if n <? two64 then Ok n else Err (Driver "strconv.ParseUint: value out of range")
  | None => Err (Driver "strconv.ParseUint: invalid syntax")
  end.

Section Nodes.
Context `{NodeCodec}.

(** ** shared.go *)

Definition keccak256ToCid (codec : Z) (h : bytes) : result string :=
  match mh_Encode h KECCAK_256 with
  | Ok buf => Ok (NewCidV1 codec buf)
  | Err _ => Panic "multihash"
  | Panic w => Panic w
  end.

Definition commonHashToCid (codec : Z) (h : bytes) : result string :=
  match mh_Encode h KECCAK_256 with
  | Ok mhash => Ok (NewCidV1 codec mhash)
  | Err _ => Panic "multihash"
  | Panic w => Panic w
  end.

(** ** eth_header.go *)

(** [var h *types.Header] is nil. *)
Definition DecodeEthHeader (c : string) (b : bytes) : result EthHeader :=
  h <-! DecodeBytes true (header_rlp b) ;; Ok (mkEthHeader h c b).

(** The codec and the hash of each of the keys that are links. *)
Definition header_links (h : HeaderFields) : list (string * (Z * bytes)) :=
  [("parent", (MEthHeader, hd_ParentHash h));
   ("receipts", (MEthTxReceiptTrie, hd_ReceiptHash h));
   ("root", (MEthStateTrie, hd_Root h));
   ("tx", (MEthTxTrie, hd_TxHash h));
   ("uncles", (MEthHeaderList, hd_UncleHash h))].

(** The second [switch]. *)
Definition header_values (h : HeaderFields) : json :=
  [("bloom", VBytes (hd_Bloom h));
   ("coinbase", VBytes (hd_Coinbase h));
   ("difficulty", VBig (hd_Difficulty h));
   ("extra", VText ("0x" +:+ EncodeToString (hd_Extra h)));
   ("gaslimit", VUint (hd_GasLimit h));
   ("gasused", VUint (hd_GasUsed h));
   ("mixdigest", VBytes (hd_MixDigest h));
   ("nonce", VBytes (hd_Nonce h));
   ("number", VBig (hd_Number h));
   ("time", VUint (hd_Time h))].

Definition header_Resolve (b : EthHeader) (p : list string) : result (value * list string) :=
  match p with
  | [] => Ok (VHeader b, [])
  | first :: rest =>
      match list_find (λ l, first = l.1) (header_links (eh_Header b)) with
      | Some (_, (_, (codec, h))) => c <-! commonHashToCid codec h ;; Ok (VLink c, rest)
      | None =>
          match rest with
          | [] => switch_or_fail (header_values (eh_Header b)) first
          | _ => Err (unexpected_elements first)
          end
      end
  end.

Definition header_Tree : string → Z → list string :=
  tree_of ["time"; "bloom"; "coinbase"; "difficulty"; "extra"; "gaslimit"; "gasused"; "mixdigest"; "nonce";
           "number"; "parent"; "receipts"; "root"; "tx"; "uncles"].

Definition header_ResolveLink (b : EthHeader) (p : list string) : result (string * list string) :=
  assert_link (header_Resolve b p).

Definition header_Links (b : EthHeader) : result (list string) :=
  range_collect (λ l, commonHashToCid l.2.1 l.2.2) (header_links (eh_Header b)).

(** The map that [MarshalJSON] marshals. *)
Definition header_JSON (b : EthHeader) : result json :=
  let h := eh_Header b in
  parent <-! commonHashToCid MEthHeader (hd_ParentHash h) ;;
  receipts <-! commonHashToCid MEthTxReceiptTrie (hd_ReceiptHash h) ;;
  root <-! commonHashToCid MEthStateTrie (hd_Root h) ;;
  tx <-! commonHashToCid MEthTxTrie (hd_TxHash h) ;;
  uncles <-! commonHashToCid MEthHeaderList (hd_UncleHash h) ;;
  Ok [("time", VUint (hd_Time h));
      ("bloom", VBytes (hd_Bloom h));
      ("coinbase", VBytes (hd_Coinbase h));
      ("difficulty", VBig (hd_Difficulty h));
      ("extra", VText ("0x" +:+ EncodeToString (hd_Extra h)));
      ("gaslimit", VUint (hd_GasLimit h));
      ("gasused", VUint (hd_GasUsed h));
      ("mixdigest", VBytes (hd_MixDigest h));
      ("nonce", VBytes (hd_Nonce h));
      ("number", VBig (hd_Number h));
      ("parent", VCid parent);
      ("receipts", VCid receipts);
      ("root", VCid root);
      ("tx", VCid tx);
      ("uncles", VCid uncles)].

(** [Size] does nothing for headers and accounts. *)
Definition header_Size (b : EthHeader) : result Z := Ok 0.

(** ** eth_tx.go *)

(** [var t *types.Transaction] is nil. *)
Definition DecodeEthTx (c : string) (b : bytes) : result EthTx :=
  t <-! DecodeBytes true (tx_rlp b) ;; Ok (mkEthTx t c b).

Definition tx_values (t : TxFields) : json :=
  let '(v, r, s) := RawSignatureValues t in
  [("gas", VUint (tx_Gas t));
   ("gasPrice", VBig (tx_GasPrice t));
   ("input", VText (EncodeToString (tx_Data t)));
   ("nonce", VUint (tx_Nonce t));
   ("r", VText (EncodeBig r));
   ("s", VText (EncodeBig s));
   ("toAddress", VAddress (tx_To t));
   ("v", VText (EncodeBig v));
   ("value", VText (EncodeBig (tx_Value t)))].

Definition tx_Resolve (t : EthTx) (p : list string) : result (value * list string) :=
  match p with
  | [] => Ok (VTx t, [])
  | [first] => switch_or_fail (tx_values (et_Transaction t)) first
  | first :: _ => Err (unexpected_elements first)
  end.

Definition tx_Tree : string → Z → list string :=
  tree_of ["gas"; "gasPrice"; "input"; "nonce"; "r"; "s"; "toAddress"; "v"; "value"].

Definition tx_ResolveLink (t : EthTx) (p : list string) : result (string * list string) :=
  assert_link (tx_Resolve t p).

Definition tx_Links (t : EthTx) : result (list string) := Ok [].

Definition tx_Size (t : EthTx) : result Z := ParseUint (tx_StorageSize (et_Transaction t)).

Definition tx_JSON (t : EthTx) : result json :=
  let tx := et_Transaction t in
  let '(v, r, s) := RawSignatureValues tx in
  Ok [("gas", VUint (tx_Gas tx));
      ("gasPrice", VText (EncodeBig (tx_GasPrice tx)));
      ("input", VText (EncodeToString (tx_Data tx)));
      ("nonce", VUint (tx_Nonce tx));
      ("r", VText (EncodeBig r));
      ("s", VText (EncodeBig s));
      ("toAddress", VAddress (tx_To tx));
      ("v", VText (EncodeBig v));
      ("value", VText (EncodeBig (tx_Value tx)))].

(** ** eth_receipt.go *)

(** [var r *types.Receipt] is nil. *)
Definition DecodeEthReceipt (c : string) (b : bytes) : result EthReceipt :=
  r <-! DecodeBytes true (receipt_rlp b) ;; Ok (mkEthReceipt r c b).

Definition receipt_values (r : ReceiptFields) : json :=
  [("root", VBytes (rc_PostState r));
   ("status", VUint (rc_Status r));
   ("cumulativeGasUsed", VUint (rc_CumulativeGasUsed r));
   ("logsBloom", VBytes (rc_Bloom r));
   ("logs", VLogs (rc_Logs r));
   ("transactionHash", VBytes (rc_TxHash r));
   ("contractAddress", VBytes (rc_ContractAddress r));
   ("gasUsed", VUint (rc_GasUsed r))].

Definition receipt_Resolve (r : EthReceipt) (p : list string) : result (value * list string) :=
  match p with
  | [] => Ok (VReceipt r, [])
  | [first] => switch_or_fail (receipt_values (er_Receipt r)) first
  | first :: _ => Err (unexpected_elements first)
  end.

Definition receipt_Tree : string → Z → list string :=
  tree_of ["root"; "status"; "cumulativeGasUsed"; "logsBloom"; "logs"; "transactionHash"; "contractAddress"; "gasUsed"].

Definition receipt_ResolveLink (r : EthReceipt) (p : list string) : result (string * list string) :=
  assert_link (receipt_Resolve r p).

Definition receipt_Links (r : EthReceipt) : result (list string) := Ok [].

Definition receipt_Size (r : EthReceipt) : result Z := ParseUint (rc_StorageSize (er_Receipt r)).

Definition receipt_JSON (r : EthReceipt) : result json := Ok (receipt_values (er_Receipt r)).

(** ** eth_account.go *)

Definition account_Resolve (a : EthAccountSnapshot) (p : list string) : result (value * list string) :=
  match p with
  | [] => Ok (VAccount a, [])
  | [x] =>
      if bool_decide (x = "balance") then Ok (VBig (Balance (account a)), [])
      else if bool_decide (x = "codeHash") then
        c <-! keccak256ToCid RawBinary (CodeHash (account a)) ;; Ok (VLink c, [])
      else if bool_decide (x = "nonce") then Ok (VUint (Nonce (account a)), [])
      else if bool_decide (x = "root") then
        c <-! keccak256ToCid MEthStorageTrie (Root (account a)) ;; Ok (VLink c, [])
      else Err no_such_link
  | first :: _ => Err (unexpected_elements first)
  end.

Definition account_Tree : string → Z → list string := tree_of ["balance"; "codeHash"; "nonce"; "root"].

Definition account_ResolveLink (a : EthAccountSnapshot) (p : list string) : result (string * list string) :=
  assert_link (account_Resolve a p).

Definition account_Links (a : EthAccountSnapshot) : result (list string) := Ok [].

Definition account_Size (a : EthAccountSnapshot) : result Z := Ok 0.

Definition account_JSON (a : EthAccountSnapshot) : result json :=
  codeHash <-! keccak256ToCid RawBinary (CodeHash (account a)) ;;
  root <-! keccak256ToCid MEthStorageTrie (Root (account a)) ;;
  Ok [("balance", VBig (Balance (account a)));
      ("codeHash", VCid codeHash);
      ("nonce", VUint (Nonce (account a)));
      ("root", VCid root)].

(** ** The interface node.Node *)

Class IpldNode (A : Type) := {
  n_Resolve : A → list string → result (value * list string);
  n_Tree : string → Z → list string;
  n_ResolveLink : A → list string → result (string * list string);
  n_Links : A → result (list string);
  n_JSON : A → result json
}.

#[export] Instance header_node : IpldNode EthHeader :=
  { n_Resolve := header_Resolve; n_Tree := header_Tree; n_ResolveLink := header_ResolveLink;
    n_Links := header_Links; n_JSON := header_JSON }.
#[export] Instance tx_node : IpldNode EthTx :=
  { n_Resolve := tx_Resolve; n_Tree := tx_Tree; n_ResolveLink := tx_ResolveLink;
    n_Links := tx_Links; n_JSON := tx_JSON }.
#[export] Instance receipt_node : IpldNode EthReceipt :=
  { n_Resolve := receipt_Resolve; n_Tree := receipt_Tree; n_ResolveLink := receipt_ResolveLink;
    n_Links := receipt_Links; n_JSON := receipt_JSON }.
#[export] Instance account_node : IpldNode EthAccountSnapshot :=
  { n_Resolve := account_Resolve; n_Tree := account_Tree; n_ResolveLink := account_ResolveLink;
    n_Links := account_Links; n_JSON := account_JSON }.

(** The promise of the interface: the JSON object has the paths of the tree as
    its keys; a path of one element resolves exactly when it is one of them,
    and the entry is the value it resolves to, as [marshalled] renders it. *)
Definition coherent {A} `{IpldNode A} (marshalled : string → value → value) (n : A) : Prop :=
  ∃ js, n_JSON n = Ok js ∧ js.*1 ≡ₚ n_Tree "" (-1) ∧ NoDup (js.*1) ∧
    ∀ k, match n_Resolve n [k] with
         | Ok (v, rest) => rest = [] ∧ (k, marshalled k v) ∈ js
         | Err _ => k ∉ js.*1
         | Panic _ => False
         end.

(** The links of a node are those its paths of one element resolve to. *)
Definition lists_links {A} `{IpldNode A} (n : A) : Prop :=
  ∃ cs, n_Links n = Ok cs ∧ ∀ c, c ∈ cs ↔ ∃ k, n_ResolveLink n [k] = Ok (c, []).

(** A link is marshalled as its CID. *)
Definition as_json (v : value) : value := match v with VLink c => VCid c | _ => v end.

(** Documented behaviour of [multihash.Encode]: a known code is not refused. *)
Definition encodes : Prop := ∀ h, ∃ buf, mh_Encode h KECCAK_256 = Ok buf.

(** ** Lemmas *)

Lemma keccak256_encodes codec h : encodes → ∃ c, keccak256ToCid codec h = Ok c.
Proof. intros He. destruct (He h) as [buf E]. unfold keccak256ToCid. rewrite E. eauto. Qed.

Lemma commonHash_encodes codec h : encodes → ∃ c, commonHashToCid codec h = Ok c.
Proof. apply keccak256_encodes. Qed.

Lemma switch_spec cases p : NoDup (cases.*1) → ∀ v, switch cases p = Some v ↔ (p, v) ∈ cases.
Proof.
  induction cases as [|[k w] cases IH]; intros Hn v; simpl in *; [by split; [|intros ?%elem_of_nil]|].
  apply NoDup_cons in Hn as [Hk Hn]. rewrite elem_of_cons. case_bool_decide as Hp.
  - subst. split; [intros [= ->]; by left|]. intros [[= ->]|Hin]; [done|].
    destruct Hk. by apply (list_elem_of_fmap_2 fst) in Hin.
  - rewrite IH by done. split; [by right|]. by intros [[= ? ?]|?].
Qed.

(** A switch over the entries of the JSON. *)
Lemma switch_coherent cases p : NoDup (cases.*1) →
  match switch_or_fail cases p with
  | Ok (v, rest) => rest = [] ∧ (p, v) ∈ cases
  | Err _ => p ∉ cases.*1
  | Panic _ => False
  end.
Proof.
  intros Hn. unfold switch_or_fail. pose proof (switch_spec cases p Hn) as Hs.
  destruct (switch cases p) as [v|]; [by split; [|apply Hs]|].
  intros ([k v] & -> & Hin)%list_elem_of_fmap. by apply Hs in Hin.
Qed.

Ltac closed_NoDup := cbn; apply (bool_decide_eq_true_1 _); vm_compute; reflexivity.

Lemma header_values_NoDup h : NoDup ((header_values h).*1).
Proof. closed_NoDup. Qed.

Lemma tx_values_NoDup t : NoDup ((tx_values t).*1).
Proof. unfold tx_values. destruct (RawSignatureValues t) as [[v r] s]. closed_NoDup. Qed.

Lemma receipt_values_NoDup r : NoDup ((receipt_values r).*1).
Proof. closed_NoDup. Qed.

(** What the first switch of a header finds. *)
Lemma header_links_find h k :
  match list_find (λ l : string * (Z * bytes), k = l.1) (header_links h) with
  | Some (_, l) => l ∈ header_links h ∧ l.1 = k
  | None => k ∉ (header_links h).*1
  end.
Proof.
  destruct (list_find _ _) as [[i l]|] eqn:E.
  - apply list_find_Some in E as (Hl & -> & _). split; [by eapply list_elem_of_lookup_2|done].
  - apply list_find_None in E. rewrite Forall_forall in E. intros (l & -> & Hin)%list_elem_of_fmap.
    by apply (E l).
Qed.

(** A link of the header is resolved whatever follows it. *)
Lemma header_Resolve_link (b : EthHeader) k codec h rest : (k, (codec, h)) ∈ header_links (eh_Header b) →
  header_Resolve b (k :: rest) = (c <-! commonHashToCid codec h ;; Ok (VLink c, rest)).
Proof.
  intros Hin. unfold header_links in Hin. repeat (apply elem_of_cons in Hin as [Hin|Hin]; [by injection Hin as -> -> ->|]).
  by apply elem_of_nil in Hin.
Qed.

Lemma header_coherent (b : EthHeader) : encodes → coherent (λ _, as_json) b.
Proof.
  intros He. pose proof (λ codec h, commonHash_encodes codec h He) as Hc. cbn.
  unfold coherent. cbn [n_JSON n_Tree n_Resolve header_node]. unfold header_JSON.
  set (h := eh_Header b).
  destruct (Hc MEthHeader (hd_ParentHash h)) as [c1 E1], (Hc MEthTxReceiptTrie (hd_ReceiptHash h)) as [c2 E2],
    (Hc MEthStateTrie (hd_Root h)) as [c3 E3], (Hc MEthTxTrie (hd_TxHash h)) as [c4 E4],
    (Hc MEthHeaderList (hd_UncleHash h)) as [c5 E5].
  rewrite E1, E2, E3, E4, E5. cbn [rbind]. eexists. split; [reflexivity|]. split; [done|]. split; [closed_NoDup|].
  intros k. pose proof (header_links_find h k) as Hf. unfold header_Resolve. fold h.
  destruct (list_find _ _) as [[i [k' [codec hash]]]|].
  - destruct Hf as [Hin Hk]. simpl in Hk. subst k'. unfold header_links in Hin.
    repeat (apply elem_of_cons in Hin as [[= -> -> ->]|Hin];
      [first [rewrite E1|rewrite E2|rewrite E3|rewrite E4|rewrite E5]; split; [done|]; set_solver|]).
    by apply elem_of_nil in Hin.
  - pose proof (switch_coherent (header_values h) k (header_values_NoDup h)) as Hs.
    destruct (switch_or_fail (header_values h) k) as [[v rest]|e|w]; [|set_solver|done].
    destruct Hs as [-> Hs]. split; [done|]. unfold header_values in Hs.
    repeat (apply elem_of_cons in Hs as [[= -> ->]|Hs]; [set_solver|]). by apply elem_of_nil in Hs.
Qed.


(** A switch whose entries are no links resolves to none. *)
Definition no_link (cases : json) : bool :=
  forallb (λ kv, match kv.2 with VLink _ => false | _ => true end) cases.

Lemma switch_no_link cases k c rest : no_link cases = true → switch_or_fail cases k ≠ Ok (VLink c, rest).
Proof.
  unfold switch_or_fail. induction cases as [|[k' v] cases IH]; simpl; [done|].
  intros [Hv Hc]%andb_true_iff. case_bool_decide; [by destruct v|by apply IH].
Qed.

Lemma header_values_no_link h : no_link (header_values h) = true.
Proof. done. Qed.

Lemma tx_values_no_link t : no_link (tx_values t) = true.
Proof. unfold tx_values. by destruct (RawSignatureValues t) as [[v r] s]. Qed.

Lemma header_ResolveLink_one (b : EthHeader) k c :
  header_ResolveLink b [k] = Ok (c, []) ↔
  ∃ codec h, (k, (codec, h)) ∈ header_links (eh_Header b) ∧ commonHashToCid codec h = Ok c.
Proof.
  unfold header_ResolveLink. split.
  - unfold header_Resolve. pose proof (header_links_find (eh_Header b) k) as Hf.
    destruct (list_find _ _) as [[i [k' [codec h]]]|].
    + destruct Hf as [Hin Hk]. simpl in Hk. subst k'. exists codec, h. split; [done|].
      destruct (commonHashToCid codec h); [|done..]. by simplify_eq/=.
    + destruct (switch_or_fail _ k) as [[[] rest]|e|w] eqn:E; simpl; try done.
      by apply switch_no_link in E.
  - intros (codec & h & Hin & Hc). by rewrite (header_Resolve_link b k codec h []), Hc.
Qed.

Lemma elem_of_range_collect {A B} (f : A → result B) l ys : range_collect f l = Ok ys →
  ∀ y, y ∈ ys ↔ ∃ x, x ∈ l ∧ f x = Ok y.
Proof.
  intros E%range_collect_Ok y. split.
  - intros [i Hy]%list_elem_of_lookup. destruct (Forall2_lookup_r _ _ _ _ _ E Hy) as (x & Hx & Hf).
    exists x. split; [by eapply list_elem_of_lookup_2|done].
  - intros (x & [i Hx]%list_elem_of_lookup & Hf). destruct (Forall2_lookup_l _ _ _ _ _ E Hx) as (y' & Hy & Hf').
    rewrite Hf in Hf'. injection Hf' as ->. by eapply list_elem_of_lookup_2.
Qed.

Lemma range_collect_total_in {A B} (f : A → result B) l :
  (∀ x, x ∈ l → ∃ y, f x = Ok y) → ∃ ys, range_collect f l = Ok ys.
Proof.
  intros Hf. assert (Hok : is_ok (range_collect f l) = true).
  { rewrite range_collect_is_ok. apply forallb_forall. intros x Hx%list_elem_of_In. by destruct (Hf x Hx) as [y ->]. }
  destruct (range_collect f l); [by eexists|done..].
Qed.

Lemma header_lists_links (b : EthHeader) : encodes → lists_links b.
Proof.
  intros He. unfold lists_links. cbn [n_Links n_ResolveLink header_node]. unfold header_Links.
  destruct (range_collect_total_in (λ l : string * (Z * bytes), commonHashToCid l.2.1 l.2.2)
    (header_links (eh_Header b)) (λ l _, commonHash_encodes _ _ He)) as [cs E].
  exists cs. split; [done|]. intros c. setoid_rewrite header_ResolveLink_one.
  rewrite (elem_of_range_collect _ _ _ E). split.
  - intros ([k [codec h]] & Hin & Hc). by exists k, codec, h.
  - intros (k & codec & h & Hin & Hc). by exists (k, (codec, h)).
Qed.

Lemma assert_link_Ok r c rest : assert_link r = Ok (c, rest) → r = Ok (VLink c, rest).
Proof. destruct r as [[[] r']|e|w]; simpl; try done. by intros [= -> ->]. Qed.

Lemma tx_lists_links (t : EthTx) : lists_links t.
Proof.
  exists []. split; [done|]. intros c. split; [by intros ?%elem_of_nil|].
  intros (k & Hk%assert_link_Ok). by apply switch_no_link in Hk; [|apply tx_values_no_link].
Qed.

Lemma receipt_lists_links (r : EthReceipt) : lists_links r.
Proof.
  exists []. split; [done|]. intros c. split; [by intros ?%elem_of_nil|].
  intros (k & Hk%assert_link_Ok). by apply switch_no_link in Hk.
Qed.

Lemma receipt_coherent (r : EthReceipt) : coherent (λ _ v, v) r.
Proof.
  exists (receipt_values (er_Receipt r)). split; [done|]. split; [done|]. split; [apply receipt_values_NoDup|].
  intros k. apply switch_coherent, receipt_values_NoDup.
Qed.

(** The gas price is rendered in hexadecimal in the JSON only. *)
Definition tx_rendered (k : string) (v : value) : value :=
  match v with VBig n => VText (EncodeBig n) | _ => v end.

Lemma tx_coherent (t : EthTx) : coherent tx_rendered t.
Proof.
  destruct t as [f c b]. unfold coherent. cbn [n_JSON n_Tree n_Resolve tx_node]. unfold tx_JSON, tx_Resolve. simpl.
  pose proof (λ k, switch_coherent (tx_values f) k (tx_values_NoDup f)) as Hs. unfold tx_values in Hs.
  destruct (RawSignatureValues f) as [[v r] s] eqn:E. eexists. split; [reflexivity|].
  split; [done|]. split; [closed_NoDup|]. intros k. specialize (Hs k). unfold tx_values. rewrite E.
  destruct (switch_or_fail _ k) as [[w rest]|e|w]; [|exact Hs|done].
  destruct Hs as [-> Hs]. split; [done|].
  repeat (apply elem_of_cons in Hs as [[= -> ->]|Hs]; [simpl; set_solver|]). by apply elem_of_nil in Hs.
Qed.

Lemma account_coherent (a : EthAccountSnapshot) : encodes → coherent (λ _, as_json) a.
Proof.
  intros He. unfold coherent. cbn [n_JSON n_Tree n_Resolve account_node]. unfold account_JSON, account_Resolve.
  destruct (keccak256_encodes RawBinary (CodeHash (account a)) He) as [c1 ->],
    (keccak256_encodes MEthStorageTrie (Root (account a)) He) as [c2 ->]. cbn [rbind].
  eexists. split; [reflexivity|]. split; [done|]. split; [closed_NoDup|]. intros k. simpl.
  repeat (case_bool_decide; [by subst; split; [|set_solver]|]). set_solver.
Qed.

(** The links of an account are not listed. *)
Lemma account_hides_links (a : EthAccountSnapshot) : encodes → ¬ lists_links a.
Proof.
  intros He (cs & [= <-] & Hl). destruct (keccak256_encodes RawBinary (CodeHash (account a)) He) as [c Hc].
  apply (not_elem_of_nil c), Hl. exists "codeHash". unfold n_ResolveLink, account_node, account_ResolveLink, account_Resolve.
  simpl bool_decide. cbn beta iota. by rewrite Hc.
Qed.

(** ** Properties *)

(** C6: The four kinds of nodes keep the promise of the interface: the keys of the
    JSON object are the paths of the tree, a path of one element resolves
    exactly when it is one of them, and to the value marshalled under it -- a
    link as its CID, and the gas price of a transaction, alone, in another
    form than resolved.  Headers list the links their paths resolve to, and
    resolve them whatever path follows; accounts list none of theirs. *)
Theorem nodes_coherent : encodes →
  (∀ b : EthHeader, coherent (λ _, as_json) b ∧ lists_links b ∧
     ∃ cs, header_Links b = Ok cs ∧ ∀ k codec h, (k, (codec, h)) ∈ header_links (eh_Header b) →
       ∃ c, c ∈ cs ∧ ∀ rest, header_ResolveLink b (k :: rest) = Ok (c, rest)) ∧
  (∀ t : EthTx, coherent tx_rendered t ∧ lists_links t) ∧
  (∀ r : EthReceipt, coherent (λ _ v, v) r ∧ lists_links r) ∧
  (∀ a : EthAccountSnapshot, coherent (λ _, as_json) a ∧ ¬ lists_links a).
Proof.
  intros He. split_and!; intros; split_and!;
    auto using header_coherent, header_lists_links, tx_coherent, tx_lists_links, receipt_coherent,
      receipt_lists_links, account_coherent, account_hides_links.
  destruct (header_lists_links b He) as (cs & E & Hl). exists cs. split; [exact E|].
  intros k codec h Hin. destruct (commonHash_encodes codec h He) as [c Hc]. exists c. split.
  - apply Hl. exists k. apply header_ResolveLink_one. eauto.
  - intros rest. unfold header_ResolveLink. by rewrite (header_Resolve_link b k codec h rest Hin), Hc.
Qed.

(** Decoding into a nil pointer: the three decoders refuse every input. *)
Lemma decoders_refuse c b :
  is_ok (DecodeEthHeader c b) = false ∧ is_ok (DecodeEthTx c b) = false ∧ is_ok (DecodeEthReceipt c b) = false.
Proof. done. Qed.

(** [StorageSize.String] ends in a unit, which no unsigned number does: [Size]
    of a transaction or receipt is always an error. *)
Lemma digits_from_unit s u : digit u = None → ∀ acc, digits_from acc (s +:+ String u "") = None.
Proof.
  intros Hu. induction s as [|a s IH]; intros acc; simpl; [by rewrite Hu|].
  destruct (digit a); [apply IH|done].
Qed.

Lemma ParseUint_unit s : is_ok (ParseUint (s +:+ "B")) = false.
Proof.
  unfold ParseUint, unsigned. destruct s as [|a s]; [done|].
  replace (digits_from 0 (String a s +:+ "B")) with (@None Z); [done|].
  symmetry. by apply digits_from_unit.
Qed.

Lemma sizes_refused (t : EthTx) (r : EthReceipt) n m :
  tx_StorageSize (et_Transaction t) = n +:+ "B" → rc_StorageSize (er_Receipt r) = m +:+ "B" →
  is_ok (tx_Size t) = false ∧ is_ok (receipt_Size r) = false.
Proof. intros E1 E2. unfold tx_Size, receipt_Size. rewrite E1, E2. by split; apply ParseUint_unit. Qed.

End Nodes.

(** ** Witness *)

Section Witness.

#[local] Instance ex_node_codec : NodeCodec := {|
  mh_Encode := λ h _, Ok h;
  NewCidV1 := λ codec h, Concrete.of_bits (encode (codec, h));
  Cid_Type := λ _, MEthStateTrie;
  EncodeBig := pretty;
  node_items := λ _, Err (Driver "rlp");
  account_rlp := λ _, Err (Driver "rlp");
  header_rlp := λ _, Err (Driver "rlp");
  tx_rlp := λ _, Err (Driver "rlp");
  receipt_rlp := λ _, Err (Driver "rlp")
|}.

Definition ex_tx : EthTx := mkEthTx (mkTxFields 21000 9 [1] 0 (27, 3, 4) None 5 "120.00 B") "c" [8].

Lemma nodes_coherent_witness :
  encodes ∧ coherent tx_rendered ex_tx ∧
  tx_Resolve ex_tx ["gasPrice"] = Ok (VBig 9, []) ∧
  match tx_JSON ex_tx with Ok js => switch js "gasPrice" = Some (VText "9") | _ => False end.
Proof.
  assert (He : encodes) by (intros h; by eexists).
  split; [exact He|]. split; [|by split].
  destruct (nodes_coherent He) as (_ & Ht & _). exact (proj1 (Ht ex_tx)).
Defined.

End Witness.
