(* ===== verification/TrieNode.v ===== *)
(** * Trie nodes as IPLD objects (pkg/ipfs/ipld: trie_node.go, eth_state.go,
    eth_storage.go, eth_tx_trie.go, eth_receipt_trie.go)

    Decoding of the nodes of the four tries, path resolution through them and
    their JSON.  A path element is a string of one-byte characters. *)

From S2P Require Import Prelude Geth EthModel IpldNodes.

(** ** Data *)

(** An element of a node, of dynamic type []byte, cid.Cid, nil, string,
    *EthAccountSnapshot, *EthTx or *EthReceipt. *)
Inductive element : Type :=
| EBytes (b : bytes)
| ECid (c : string)
| ENil
| EText (s : string)
| EAccount (a : EthAccountSnapshot)
| ETx (t : EthTx)
| EReceipt (r : EthReceipt).

Record trie_node : Type := mkTrieNode {
  nodeKind : string;
  elements : list element;
  tn_cid : string;
  tn_rawdata : bytes
}.

Section Decode.
Context `{CidLib} `{NodeCodec}.

(** ** Decoding *)

(** [nibbleToByte] *)
Definition nibbleToByte (k : bytes) : bytes := flat_map (λ b, [b / 16; b mod 16]) k.

(** The type assertion [x.([]byte)]. *)
Definition as_bytes (x : option bytes) : result bytes :=
  match x with
  | Some b => Ok b
  | None => Panic "interface conversion: interface {} is []interface {}, not []uint8"
  end.

(** [decodeCompactKey] on the two items of a node. *)
Definition decodeCompactKey (i0 i1 : option bytes) : result (string * (bytes * bytes)) :=
  first <-! as_bytes i0 ;;
  last <-! as_bytes i1 ;;
  match first with
  | [] => Panic "index out of range"
  | f :: _ =>
      if f / 16 =? 0 then Ok ("extension", (drop 2 (nibbleToByte first), last))
      else if f / 16 =? 1 then Ok ("extension", (drop 1 (nibbleToByte first), last))
      else if f / 16 =? 2 then Ok ("leaf", (drop 2 (nibbleToByte first), last))
      else if f / 16 =? 3 then Ok ("leaf", (drop 1 (nibbleToByte first), last))
      else Err (Errorf "unknown hex prefix")
  end.

Definition parseTrieNodeExtension (i : bytes * bytes) (codec : Z) : result (list element) :=
  c <-! keccak256ToCid codec i.2 ;; Ok [EBytes i.1; ECid c].

Definition parseTrieNodeBranch (i : list (option bytes)) (codec : Z) : result (list element) :=
  range_collect (λ vi,
    match vi with
    | None => Err (Errorf "unable to decode branch node entry into []byte")
    | Some v =>
        if (length v =? 0)%nat then Ok ENil
        else if (length v =? 32)%nat then c <-! keccak256ToCid codec v ;; Ok (ECid c)
        else Err (Errorf "unrecognized object")
    end) i.

Definition decodeEthStateTrieLeaf (i : bytes * bytes) : result (list element) :=
  a <-! account_rlp i.2 ;;
  c <-! RawdataToCid MEthAccountSnapshot i.2 KECCAK_256 ;;
  Ok [EBytes i.1; EAccount (mkSnapshot a c i.2)].

Definition decodeEthStorageTrieLeaf (i : bytes * bytes) : result (list element) :=
  Ok [EBytes i.1; EBytes i.2].

Definition decodeEthTxTrieLeaf (i : bytes * bytes) : result (list element) :=
  t <-! tx_rlp i.2 ;;
  c <-! RawdataToCid MEthTx i.2 KECCAK_256 ;;
  Ok [EBytes i.1; ETx (mkEthTx t c i.2)].

Definition decodeEthRctTrieLeaf (i : bytes * bytes) : result (list element) :=
  r <-! receipt_rlp i.2 ;;
  c <-! RawdataToCid MEthTxReceipt i.2 KECCAK_256 ;;
  Ok [EBytes i.1; EReceipt (mkEthReceipt r c i.2)].

(** The elements of a two-item node: the error of the element decoder is
    assigned and never looked at, which leaves no elements. *)
Definition ignore_error (r : result (list element)) : result (list element) :=
  match r with Err _ => Ok [] | _ => r end.

Definition decodeTrieNode (c : string) (b : bytes)
    (leafDecoder : bytes * bytes → result (list element)) : result trie_node :=
  i <-! node_items b ;;
  let codec := Cid_Type c in
  match i with
  | [i0; i1] =>
      kd <-! decodeCompactKey i0 i1 ;;
      els <-! ignore_error (if bool_decide (kd.1 = "extension")
                            then parseTrieNodeExtension kd.2 codec else leafDecoder kd.2) ;;
      Ok (mkTrieNode kd.1 els c b)
  | _ =>
      if (length i =? 17)%nat then
        els <-! parseTrieNodeBranch i codec ;;
        Ok (mkTrieNode "branch" els c b)
      else Err (Errorf "unknown trie node type")
  end.

Definition FromStateTrieRLP (raw : bytes) : result trie_node :=
  c <-! RawdataToCid MEthStateTrie raw KECCAK_256 ;; decodeTrieNode c raw decodeEthStateTrieLeaf.

Definition FromStorageTrieRLP (raw : bytes) : result trie_node :=
  c <-! RawdataToCid MEthStorageTrie raw KECCAK_256 ;; decodeTrieNode c raw decodeEthStorageTrieLeaf.

Definition DecodeEthTxTrie (c : string) (b : bytes) : result trie_node := decodeTrieNode c b decodeEthTxTrieLeaf.

Definition DecodeEthRctTrie (c : string) (b : bytes) : result trie_node := decodeTrieNode c b decodeEthRctTrieLeaf.

(** ** Resolving paths *)

(** One path element: characters go to [out] until it has [i] of them. *)
Fixpoint shift_element (pe : string) (i : nat) (out re : string) : string * string :=
  match pe with
  | EmptyString => (out, re)
  | String c pe =>
      if (String.length out <? i)%nat
      then shift_element pe i (out +:+ String c "") re
      else shift_element pe i out (re +:+ String c "")
  end.

Fixpoint shift_loop (p : list string) (i : nat) (out : string) (rest : list string)
    : string * list string :=
  match p with
  | [] => (out, rest)
  | pe :: p =>
      let '(out, re) := shift_element pe i out "" in
      let rest := if bool_decide (String.length out = i) && negb (bool_decide (re = ""))
                  then rest ++ [re] else rest in
      shift_loop p i out rest
  end.

Definition shiftFromPath (p : list string) (i : nat) : string * list string := shift_loop p i "" [].

Definition getHexIndex (s : string) : Z :=
  match s with
  | String c "" =>
      let n := Z.of_nat (Ascii.nat_of_ascii c) in
      if (48 <=? n) && (n <=? 57) then n - 48
      else if (97 <=? n) && (n <=? 102) then n - 97 + 10
      else -1
  | _ => -1
  end.

Definition hex_digit (n : Z) : ascii :=
  Ascii.ascii_of_nat (Z.to_nat (if n <? 10 then 48 + n else 87 + n)).

(** [fmt.Sprintf("%x", n)] of a byte. *)
Definition fmt_x (n : Z) : string :=
  if n <? 16 then String (hex_digit n) "" else String (hex_digit (n / 16)) (String (hex_digit (n mod 16)) "").

(** The two loops over the shifted characters, shared by extensions and leaves. *)
Definition match_nibbles (nibbles : bytes) (idx : string) (what : string) : result unit :=
  if (String.length idx <? length nibbles)%nat then Err (Errorf ("not enough nibbles to traverse this " +:+ what))
  else if existsb (λ c, getHexIndex (String c "") =? -1) (String.list_ascii_of_string idx)
  then Err (Errorf "invalid path element")
  else if forallb (λ nc, bool_decide (String nc.2 "" = fmt_x nc.1)) (zip nibbles (String.list_ascii_of_string idx))
  then Ok tt
  else Err (Errorf "no such link in this extension").

(** [t.elements[k]] *)
Definition element_at (t : trie_node) (k : nat) : result element :=
  match elements t !! k with
  | Some e => Ok e
  | None => Panic "index out of range"
  end.

Definition nibbles_of (t : trie_node) : result bytes :=
  e <-! element_at t 0 ;;
  match e with EBytes b => Ok b | _ => Panic "interface conversion" end.

Definition resolveTrieNodeExtension (t : trie_node) (p : list string)
    : result (value * list string) :=
  nibbles <-! nibbles_of t ;;
  let '(idx, rest) := shiftFromPath p (length nibbles) in
  _ <-! match_nibbles nibbles idx "extension" ;;
  e <-! element_at t 1 ;;
  match e with
  | ECid c => Ok (VLink c, rest)
  | _ => Panic "interface conversion"
  end.

(** [link.Resolve(p)] on an element that is a node. *)
Definition resolve_child (e : element) (p : list string) : result (value * list string) :=
  match e with
  | EAccount a => account_Resolve a p
  | ETx t => tx_Resolve t p
  | EReceipt r => receipt_Resolve r p
  | _ => Err (Errorf "leaf children is not an IPLD node")
  end.

Definition resolveTrieNodeLeaf (t : trie_node) (p : list string)
    : result (value * list string) :=
  nibbles <-! nibbles_of t ;;
  p <-! (if (length nibbles =? 0)%nat then Ok p
         else
           let '(idx, rest) := shiftFromPath p (length nibbles) in
           _ <-! match_nibbles nibbles idx "leaf" ;; Ok rest) ;;
  e <-! element_at t 1 ;;
  resolve_child e p.

Definition resolveTrieNodeBranch (t : trie_node) (p : list string)
    : result (value * list string) :=
  let '(idx, rest) := shiftFromPath p 1 in
  let hidx := getHexIndex idx in
  if hidx =? -1 then Err (Errorf "incorrect path")
  else
    child <-! element_at t (Z.to_nat hidx) ;;
    match child with
    | ENil => Err (Errorf "no such link in this branch")
    | ECid c => Ok (VLink c, rest)
    | _ => Panic "interface conversion"
    end.

Definition Resolve (t : trie_node) (p : list string) : result (value * list string) :=
  if bool_decide (nodeKind t = "extension") then resolveTrieNodeExtension t p
  else if bool_decide (nodeKind t = "leaf") then resolveTrieNodeLeaf t p
  else if bool_decide (nodeKind t = "branch") then resolveTrieNodeBranch t p
  else Err (Errorf "nodeKind case not implemented").

Definition ResolveLink (t : trie_node) (p : list string) : result (string * list string) :=
  r <-! Resolve t p ;;
  match r.1 with
  | VLink c => Ok (c, r.2)
  | _ => Err (Errorf "was not a link")
  end.

(** The elements that hold a CID. *)
Definition Links (t : trie_node) : list string :=
  omap (λ e, match e with ECid c => Some c | _ => None end) (elements t).

(** [Tree]: the elements are tested for the type *cid.Cid, which no decoder
    stores. *)
Definition Tree (t : trie_node) (p : string) (depth : Z) : result (list string) :=
  if negb (bool_decide (p = "")) || (depth =? 0) then Ok []
  else if bool_decide (nodeKind t = "extension") then
    nibbles <-! nibbles_of t ;; Ok [foldr (λ n s, fmt_x n +:+ s) "" nibbles]
  else Ok [].

(** ** JSON *)

(** [fmt.Sprintf("%x", e)] of each byte in turn, without padding. *)
Definition hex_of (b : bytes) : string := foldr (λ n s, fmt_x n +:+ s) "" b.

Definition element_value (e : element) : value :=
  match e with
  | EBytes b => VBytes b
  | ECid c => VCid c
  | ENil => VNil
  | EText s => VText s
  | EAccount a => VAccount a
  | ETx t => VTx t
  | EReceipt r => VReceipt r
  end.

(** The keys of the children of a branch. *)
Definition branch_keys : list (string * nat) :=
  [("0", 0); ("1", 1); ("2", 2); ("3", 3); ("4", 4); ("5", 5); ("6", 6); ("7", 7); ("8", 8); ("9", 9);
   ("a", 10); ("b", 11); ("c", 12); ("d", 13); ("e", 14); ("f", 15)]%nat.

(** The map that [MarshalJSON] marshals, and the node, whose second element it
    replaces when it is a []byte. *)
Definition MarshalJSON (t : trie_node) : result (json * trie_node) :=
  if bool_decide (nodeKind t = "extension") || bool_decide (nodeKind t = "leaf") then
    key <-! nibbles_of t ;;
    e <-! element_at t 1 ;;
    let e := match e with EBytes b => EText (hex_of b) | _ => e end in
    Ok ([("type", VText (nodeKind t)); (hex_of key, element_value e)],
        mkTrieNode (nodeKind t) (<[1%nat := e]> (elements t)) (tn_cid t) (tn_rawdata t))
  else if bool_decide (nodeKind t = "branch") then
    children <-! range_collect (λ k, e <-! element_at t k.2 ;; Ok (k.1, element_value e)) branch_keys ;;
    Ok (("type", VText "branch") :: children, t)
  else Err (Errorf "nodeKind not supported").

(** ** The specification of the compact key

    The hex-prefix encoding of a nibble path: a flag nibble (2 for a leaf,
    plus 1 for an odd path), padded to whole bytes. *)
Fixpoint pack (ns : bytes) : bytes :=
  match ns with
  | a :: b :: ns => 16 * a + b :: pack ns
  | _ => []
  end.

Definition hp_encode (leaf : bool) (ns : bytes) : bytes :=
  let flag := if leaf then 2 else 0 in
  if Nat.even (length ns) then pack (flag :: 0 :: ns) else pack (flag + 1 :: ns).

Definition nibble (n : Z) : Prop := 0 ≤ n < 16.

(** ** Lemmas: compact keys *)

Lemma nibbleToByte_pack ns : Forall nibble ns → Nat.Even (length ns) → nibbleToByte (pack ns) = ns.
Proof.
  intros Hns He. remember (length ns) as k eqn:Hk. revert ns Hns Hk He.
  induction k as [k IH] using lt_wf_ind. intros [|a [|b ns]] Hns Hk He; simpl in *; [done| |].
  - subst k. destruct He as [m Hm]. lia.
  - apply Forall_cons in Hns as [Ha Hns]. apply Forall_cons in Hns as [Hb Hns]. unfold nibble in *.
    rewrite (IH (length ns)) by (try done; try lia; subst k; destruct He as [m Hm]; exists (m - 1)%nat; lia).
    f_equal; [|f_equal].
    + rewrite Z.mul_comm, Z.div_add_l by lia. rewrite Z.div_small by lia. lia.
    + rewrite Z.add_comm, Z.mul_comm, Z_mod_plus_full. apply Z.mod_small. lia.
Qed.

Lemma pack_nonempty a b ns : pack (a :: b :: ns) = 16 * a + b :: pack ns.
Proof. done. Qed.

Lemma flag_div a b : nibble b → (16 * a + b) / 16 = a.
Proof. unfold nibble. intros. rewrite Z.mul_comm, Z.div_add_l by lia. rewrite Z.div_small by lia. lia. Qed.

Lemma decodeCompactKey_hp leaf ns v : Forall nibble ns →
  decodeCompactKey (Some (hp_encode leaf ns)) (Some v) =
  Ok (if leaf then "leaf" else "extension", (ns, v)).
Proof.
  intros Hns. unfold hp_encode, decodeCompactKey. cbn [as_bytes rbind].
  destruct (Nat.even (length ns)) eqn:E.
  - apply Nat.even_spec in E. rewrite pack_nonempty, flag_div by (unfold nibble; lia).
    assert (Hb : nibbleToByte (16 * (if leaf then 2 else 0) + 0 :: pack ns) = (if leaf then 2 else 0) :: 0 :: ns).
    { rewrite <- pack_nonempty. apply nibbleToByte_pack; [|destruct E as [m Hm]; exists (S m); simpl; lia].
      constructor; [unfold nibble; destruct leaf; lia|constructor; [unfold nibble; lia|done]]. }
    rewrite Hb. by destruct leaf.
  - destruct ns as [|n ns]; [done|]. rewrite pack_nonempty. apply Forall_cons in Hns as [Hn Hns].
    rewrite flag_div by done.
    assert (Hb : nibbleToByte (16 * ((if leaf then 2 else 0) + 1) + n :: pack ns) =
      (if leaf then 2 else 0) + 1 :: n :: ns).
    { rewrite <- pack_nonempty. apply nibbleToByte_pack.
      - constructor; [unfold nibble; destruct leaf; lia|by constructor].
      - assert (Ho : Nat.Odd (length (n :: ns))) by (apply Nat.odd_spec; unfold Nat.odd; by rewrite E).
        destruct Ho as [m Hm]. exists (S m). simpl in *. lia. }
    rewrite Hb. by destruct leaf.
Qed.

(** ** Lemmas: paths *)

Abbreviation chars := String.list_ascii_of_string.
Definition path_chars (p : list string) : list ascii := flat_map chars p.

Lemma chars_app s t : chars (s +:+ t) = chars s ++ chars t.
Proof. induction s as [|c s IH]; simpl; [done|by rewrite IH]. Qed.

Lemma chars_length s : length (chars s) = String.length s.
Proof. induction s; simpl; congruence. Qed.

Lemma chars_inj s t : chars s = chars t → s = t.
Proof.
  intros Heq. rewrite <- (String.string_of_list_ascii_of_string s), <- (String.string_of_list_ascii_of_string t).
  by rewrite Heq.
Qed.

Lemma shift_element_spec pe i : ∀ out re,
  (length (chars out) ≤ i)%nat →
  chars (shift_element pe i out re).1 = chars out ++ take (i - length (chars out)) (chars pe) ∧
  chars (shift_element pe i out re).2 = chars re ++ drop (i - length (chars out)) (chars pe).
Proof.
  induction pe as [|c pe IH]; intros out re Hle; simpl.
  - by rewrite take_nil, drop_nil, !app_nil_r.
  - rewrite <- chars_length. destruct (Nat.ltb_spec (length (chars out)) i) as [Hlt|Hge].
    + destruct (IH (out +:+ String c "") re) as [H1 H2]; [rewrite chars_app, length_app; simpl; lia|].
      rewrite H1, H2, chars_app, length_app. simpl.
      replace (i - length (chars out))%nat with (S (i - (length (chars out) + 1)))%nat by lia.
      simpl. by rewrite <- app_assoc.
    + destruct (IH out (re +:+ String c "") Hle) as [H1 H2].
      rewrite H1, H2, chars_app. simpl.
      replace (i - length (chars out))%nat with 0%nat by lia. simpl. by rewrite drop_0, <- app_assoc.
Qed.

Lemma shift_loop_spec p i : ∀ out rest,
  (length (chars out) ≤ i)%nat →
  chars (shift_loop p i out rest).1 = chars out ++ take (i - length (chars out)) (path_chars p) ∧
  path_chars (shift_loop p i out rest).2 = path_chars rest ++ drop (i - length (chars out)) (path_chars p).
Proof.
  induction p as [|pe p IH]; intros out rest Hle; simpl.
  - by rewrite take_nil, drop_nil, !app_nil_r.
  - destruct (shift_element_spec pe i out "" Hle) as [H1 H2].
    destruct (shift_element pe i out "") as [o r]. simpl in *.
    assert (Hlo : length (chars o) = (length (chars out) + Nat.min (i - length (chars out)) (length (chars pe)))%nat).
    { by rewrite H1, length_app, length_take. }
    set (rest' := if _ && _ then _ else _).
    destruct (IH o rest') as [I1 I2]; [lia|]. rewrite I1, I2.
    replace (i - length (chars o))%nat with (i - length (chars out) - length (chars pe))%nat by lia.
    assert (Hrest : path_chars rest' = path_chars rest ++ chars r).
    { unfold rest'. rewrite <- chars_length. unfold path_chars.
      case_bool_decide as Hi; simpl; [case_bool_decide as Hr; simpl|].
      - subst r. by rewrite app_nil_r.
      - rewrite flat_map_app. simpl. by rewrite app_nil_r.
      - rewrite H2, drop_ge by lia. by rewrite app_nil_r. }
    rewrite take_app, drop_app, <- H2, Hrest, H1, <- !app_assoc. done.
Qed.

Lemma shiftFromPath_spec p i :
  chars (shiftFromPath p i).1 = take i (path_chars p) ∧
  path_chars (shiftFromPath p i).2 = drop i (path_chars p).
Proof.
  destruct (shift_loop_spec p i "" []) as [H1 H2]; simpl; [lia|].
  unfold shiftFromPath. rewrite H1, H2. simpl. by rewrite Nat.sub_0_r.
Qed.

(** The characters of a nibble path. *)
Definition nibble_chars (ns : bytes) : list ascii := map hex_digit ns.

Lemma hex_digit_index n : nibble n → getHexIndex (String (hex_digit n) "") = n.
Proof.
  unfold nibble. intros Hn.
  assert (Hc : n = 0 ∨ n = 1 ∨ n = 2 ∨ n = 3 ∨ n = 4 ∨ n = 5 ∨ n = 6 ∨ n = 7 ∨ n = 8 ∨ n = 9 ∨
    n = 10 ∨ n = 11 ∨ n = 12 ∨ n = 13 ∨ n = 14 ∨ n = 15) by lia.
  by repeat destruct Hc as [->|Hc]; [..|subst n].
Qed.

Lemma match_nibbles_spec ns p what : Forall nibble ns →
  match match_nibbles ns (shiftFromPath p (length ns)).1 what with
  | Ok _ => nibble_chars ns `prefix_of` path_chars p
  | Err _ => ¬ nibble_chars ns `prefix_of` path_chars p
  | Panic _ => False
  end.
Proof.
  intros Hns. destruct (shiftFromPath_spec p (length ns)) as [H1 _].
  set (idx := (shiftFromPath p (length ns)).1) in *. pose proof H1 as Hidx.
  assert (Hpre : nibble_chars ns `prefix_of` path_chars p ↔ chars idx = nibble_chars ns).
  { rewrite H1. split.
    - intros [l ->]. unfold nibble_chars. by rewrite take_app_length' by (by rewrite length_map).
    - intros Heq. exists (drop (length ns) (path_chars p)). by rewrite <- Heq, take_drop. }
  enough (Hm : match match_nibbles ns idx what with
    | Ok _ => chars idx = nibble_chars ns | Err _ => chars idx ≠ nibble_chars ns | Panic _ => False end)
    by (destruct (match_nibbles ns idx what); tauto).
  clear Hpre H1. unfold match_nibbles. rewrite <- chars_length.
  assert (Hlen : chars idx = nibble_chars ns → length (chars idx) = length ns).
  { intros ->. apply length_map. }
  destruct (Nat.ltb_spec (length (chars idx)) (length ns)); [intros Heq; apply Hlen in Heq; lia|].
  clear Hlen. destruct (existsb _ _) eqn:Ex.
  - intros Heq. apply existsb_exists in Ex as (c & Hc & Hx). rewrite Heq in Hc.
    unfold nibble_chars in Hc. apply in_map_iff in Hc as (n & <- & Hn).
    rewrite Forall_forall in Hns. apply list_elem_of_In, Hns in Hn.
    rewrite hex_digit_index in Hx by done. unfold nibble in Hn. zbool. lia.
  - assert (Hle : length (chars idx) = length ns).
    { apply Nat.le_antisymm; [|done]. rewrite Hidx. apply firstn_le_length. }
    clear Ex. revert Hle. generalize (chars idx). clear -Hns. unfold nibble_chars.
    induction Hns as [|n ns Hn Hns IH]; intros [|c cs] Hle; try done.
    cbn [zip zip_with forallb map fst snd].
    assert (Hfmt : fmt_x n = String (hex_digit n) "").
    { unfold fmt_x, nibble in *. by rewrite (proj2 (Z.ltb_lt n 16)) by lia. }
    rewrite Hfmt. specialize (IH cs ltac:(simpl in Hle; lia)).
    case_bool_decide as Hc; simpl.
    + injection Hc as ->. destruct (forallb _ _); [by rewrite IH|]. intros [= Heq]. by apply IH.
    + intros [= Heq _]. by subst c.
Qed.

(** Elements past the nibbles are kept whole; those before them are used up. *)
Lemma shift_element_past pe i out : String.length out = i → shift_element pe i out "" = (out, pe).
Proof.
  intros Hi. destruct (shift_element_spec pe i out "") as [H1 H2]; [rewrite chars_length; lia|].
  rewrite chars_length, Hi, Nat.sub_diag in H1, H2. rewrite take_0, app_nil_r in H1. simpl in H2. rewrite drop_0 in H2.
  destruct (shift_element pe i out ""). simpl in *. f_equal; by apply chars_inj.
Qed.

Lemma shift_loop_past l i out rest : String.length out = i → Forall (λ e, e ≠ "") l →
  shift_loop l i out rest = (out, rest ++ l).
Proof.
  intros Hi Hl. revert rest. induction Hl as [|e l He Hl IH]; intros rest; simpl; [by rewrite app_nil_r|].
  rewrite shift_element_past by done. rewrite !bool_decide_eq_true_2 by done.
  rewrite bool_decide_eq_false_2 by done. simpl. rewrite IH. by rewrite <- app_assoc.
Qed.

Lemma shift_loop_used q l i : ∀ out rest, (length (chars out) + length (path_chars q) ≤ i)%nat →
  ∃ out', chars out' = chars out ++ path_chars q ∧ shift_loop (q ++ l) i out rest = shift_loop l i out' rest.
Proof.
  induction q as [|pe q IH]; intros out rest Hle; simpl in *.
  - exists out. by rewrite app_nil_r.
  - rewrite length_app in Hle. destruct (shift_element_spec pe i out "") as [H1 H2]; [lia|].
    destruct (shift_element pe i out "") as [o r]. simpl in *.
    rewrite drop_ge in H2 by lia. rewrite take_ge in H1 by lia.
    assert (r = "") as -> by (by apply chars_inj). rewrite andb_false_r.
    destruct (IH o rest) as (out' & Ho & E); [rewrite H1, length_app; lia|].
    exists out'. split; [|done]. by rewrite Ho, H1, <- app_assoc.
Qed.

Lemma shiftFromPath_nibbles q l ns : path_chars q = nibble_chars ns → Forall (λ e, e ≠ "") l →
  (shiftFromPath (q ++ l) (length ns)).2 = l.
Proof.
  intros Hq Hl. unfold shiftFromPath.
  assert (Hn : length (path_chars q) = length ns) by (rewrite Hq; apply length_map).
  destruct (shift_loop_used q l (length ns) "" []) as (out & Ho & ->); [simpl; lia|].
  rewrite shift_loop_past; [done| |done]. rewrite <- chars_length, Ho. exact Hn.
Qed.

(** A leaf resolves the paths that begin with its nibbles as its child does
    the rest of the path. *)
Lemma leaf_Resolve c raw ns e p : Forall nibble ns →
  let t := mkTrieNode "leaf" [EBytes ns; e] c raw in
  (nibble_chars ns `prefix_of` path_chars p → ∃ rest,
     path_chars p = nibble_chars ns ++ path_chars rest ∧ Resolve t p = resolve_child e rest) ∧
  (¬ nibble_chars ns `prefix_of` path_chars p → ∃ err, Resolve t p = Err err).
Proof.
  intros Hns t. unfold Resolve. simpl. unfold resolveTrieNodeLeaf. simpl.
  destruct (Nat.eqb_spec (length ns) 0) as [Hz|Hnz].
  - apply nil_length_inv in Hz as ->. simpl. split; [intros _; by exists p|].
    intros []. apply prefix_nil.
  - pose proof (match_nibbles_spec ns p "leaf" Hns) as Hm.
    destruct (shiftFromPath_spec p (length ns)) as [_ H2].
    destruct (shiftFromPath p (length ns)) as [idx rest]. simpl in *.
    destruct (match_nibbles ns idx "leaf") as [[]|err|w]; simpl; [| |done].
    + split; [intros _|done]. exists rest. split; [|done].
      destruct Hm as [l Hl']. rewrite H2, Hl'. unfold nibble_chars.
      by rewrite drop_app_length' by (by rewrite length_map).
    + split; [done|]. by exists err.
Qed.

(** ... and the rest is exactly the elements that follow the nibbles. *)
Lemma leaf_Resolve_child c raw ns e q l : Forall nibble ns →
  path_chars q = nibble_chars ns → Forall (λ e, e ≠ "") (q ++ l) →
  Resolve (mkTrieNode "leaf" [EBytes ns; e] c raw) (q ++ l) = resolve_child e l.
Proof.
  intros Hns Hq [Hqe Hl]%Forall_app. unfold Resolve. simpl. unfold resolveTrieNodeLeaf. simpl.
  destruct (Nat.eqb_spec (length ns) 0) as [Hz|Hnz].
  - apply nil_length_inv in Hz as ->. destruct q as [|x q]; [done|].
    apply Forall_cons in Hqe as [Hx _]. destruct x; [done|]. by destruct Hx.
  - pose proof (match_nibbles_spec ns (q ++ l) "leaf" Hns) as Hm.
    pose proof (shiftFromPath_nibbles q l ns Hq Hl) as Hs.
    destruct (shiftFromPath (q ++ l) (length ns)) as [idx rest]. simpl in *. subst rest.
    assert (Hpre : nibble_chars ns `prefix_of` path_chars (q ++ l)).
    { exists (path_chars l). unfold path_chars in *. by rewrite flat_map_app, Hq. }
    by destruct (match_nibbles ns idx "leaf") as [[]|err|w].
Qed.

(** A branch lists no paths, although its children are links. *)
Lemma Tree_branch_empty t p depth : nodeKind t = "branch" → Tree t p depth = Ok [].
Proof. unfold Tree. intros ->. by destruct (_ || _). Qed.

(** Errors of the element decoder are lost. *)
Lemma decodeTrieNode_two c b leafDecoder leaf ns v :
  node_items b = Ok [Some (hp_encode leaf ns); Some v] → Forall nibble ns →
  decodeTrieNode c b leafDecoder =
    (els <-! ignore_error (if leaf : bool then leafDecoder (ns, v)
                           else parseTrieNodeExtension (ns, v) (Cid_Type c)) ;;
     Ok (mkTrieNode (if leaf then "leaf" else "extension") els c b)).
Proof.
  intros Hi Hns. unfold decodeTrieNode. rewrite Hi. cbn [rbind].
  rewrite decodeCompactKey_hp by done. by destruct leaf.
Qed.

(** ** Lemmas: JSON *)

Lemma MarshalJSON_branch t : nodeKind t = "branch" →
  MarshalJSON t = (children <-! range_collect (λ k, e <-! element_at t k.2 ;; Ok (k.1, element_value e)) branch_keys ;;
                   Ok (("type", VText "branch") :: children, t)).
Proof. intros Hk. unfold MarshalJSON. by rewrite Hk. Qed.

Lemma element_at_Ok t k e : elements t !! k = Some e → element_at t k = Ok e.
Proof. unfold element_at. by intros ->. Qed.

(** The digits of [branch_keys] are those [getHexIndex] reads, with the index. *)
Lemma branch_keys_index k n : (k, n) ∈ branch_keys →
  shiftFromPath [k] 1 = (k, []) ∧ getHexIndex k = Z.of_nat n ∧ (n < 16)%nat.
Proof.
  intros Hin. unfold branch_keys in Hin.
  repeat (apply elem_of_cons in Hin as [[= -> ->]|Hin]; [split_and!; [reflexivity|reflexivity|lia]|]).
  by apply elem_of_nil in Hin.
Qed.

(** The children of a branch are links or absent. *)
Lemma parseTrieNodeBranch_elements i codec els : parseTrieNodeBranch i codec = Ok els →
  length els = length i ∧ Forall (λ e, e = ENil ∨ ∃ c, e = ECid c) els.
Proof.
  intros E. split; [by eapply range_collect_length|]. apply range_collect_Ok in E.
  induction E as [|x y i els Hx E IH]; constructor; [|done]. destruct x as [v|]; [|done].
  destruct (length v =? 0)%nat; [by injection Hx as <-; left|].
  destruct (length v =? 32)%nat; [|done].
  destruct (keccak256ToCid codec v) as [c| |]; [|done..]. injection Hx as <-. right. by exists c.
Qed.

Lemma hex_of_nibbles ns : Forall nibble ns → chars (hex_of ns) = nibble_chars ns.
Proof.
  induction 1 as [|n ns Hn Hns IH]; [done|]. simpl. rewrite chars_app, IH.
  unfold fmt_x, nibble in *. by rewrite (proj2 (Z.ltb_lt n 16)) by lia.
Qed.

(** ** Properties *)

(** An extension node decoded from the compact key of a nibble path and the
    hash of its child resolves exactly the paths that begin with these
    nibbles -- however they are cut into elements -- to the link of the child,
    and leaves the rest of the path; it never panics. *)
Theorem extension_resolves c b leafDecoder ns h link :
  node_items b = Ok [Some (hp_encode false ns); Some h] → Forall nibble ns →
  keccak256ToCid (Cid_Type c) h = Ok link →
  ∃ t, decodeTrieNode c b leafDecoder = Ok t ∧
    ∀ p, match Resolve t p with
         | Ok (r, rest) => r = VLink link ∧ path_chars p = nibble_chars ns ++ path_chars rest
         | Err _ => ¬ nibble_chars ns `prefix_of` path_chars p
         | Panic _ => False
         end.
Proof.
  intros Hi Hns Hl. eexists. split.
  { rewrite (decodeTrieNode_two _ _ _ false ns h) by done. simpl.
    unfold parseTrieNodeExtension. simpl. by rewrite Hl. }
  intros p. unfold Resolve. simpl. unfold resolveTrieNodeExtension. simpl.
  pose proof (match_nibbles_spec ns p "extension" Hns) as Hm.
  destruct (shiftFromPath_spec p (length ns)) as [_ H2].
  destruct (shiftFromPath p (length ns)) as [idx rest]. simpl in *.
  destruct (match_nibbles ns idx "extension"); simpl; [|done|done]. split; [done|].
  destruct Hm as [l Hl']. rewrite H2, Hl'. unfold nibble_chars.
  by rewrite drop_app_length' by (by rewrite length_map).
Qed.

(** A state leaf resolves the paths that begin with its nibbles as its
    account does the rest of the path.  A leaf whose account does not decode
    is accepted all the same, and resolving any path through it panics. *)
Theorem state_leaf_resolves raw ns v c :
  node_items raw = Ok [Some (hp_encode true ns); Some v] → Forall nibble ns →
  RawdataToCid MEthStateTrie raw KECCAK_256 = Ok c →
  (∀ a ac, account_rlp v = Ok a → RawdataToCid MEthAccountSnapshot v KECCAK_256 = Ok ac →
     ∃ t, FromStateTrieRLP raw = Ok t ∧
       ∀ p, (nibble_chars ns `prefix_of` path_chars p → ∃ rest,
               path_chars p = nibble_chars ns ++ path_chars rest ∧
               Resolve t p = account_Resolve (mkSnapshot a ac v) rest) ∧
            (¬ nibble_chars ns `prefix_of` path_chars p → ∃ e, Resolve t p = Err e)) ∧
  (∀ e, account_rlp v = Err e →
     ∃ t, FromStateTrieRLP raw = Ok t ∧ ∀ p, ∃ w, Resolve t p = Panic w).
Proof.
  intros Hi Hns Hc. unfold FromStateTrieRLP. rewrite Hc. cbn [rbind].
  rewrite (decodeTrieNode_two _ _ _ true ns v) by done. unfold decodeEthStateTrieLeaf. cbn [fst snd]. split.
  - intros a ac -> ->. eexists. split; [reflexivity|]. intros p.
    by apply (leaf_Resolve c raw ns (EAccount (mkSnapshot a ac v)) p Hns).
  - intros e ->. eexists. split; [reflexivity|]. intros p. by eexists.
Qed.

(** The leaves of the state, transaction and receipt tries lead on into the
    account, transaction or receipt they hold: after elements with the nibbles
    of the leaf, however they are cut, the remaining elements are resolved by
    that node. *)
Theorem leaf_paths_lead_on c b ns v cid :
  node_items b = Ok [Some (hp_encode true ns); Some v] → Forall nibble ns →
  (∀ codec, RawdataToCid codec v KECCAK_256 = Ok (cid codec)) →
  ∀ q l, path_chars q = nibble_chars ns → Forall (λ e, e ≠ "") (q ++ l) →
    (∀ a, account_rlp v = Ok a → ∃ t, decodeTrieNode c b decodeEthStateTrieLeaf = Ok t ∧
       Resolve t (q ++ l) = account_Resolve (mkSnapshot a (cid MEthAccountSnapshot) v) l) ∧
    (∀ tx, tx_rlp v = Ok tx → ∃ t, DecodeEthTxTrie c b = Ok t ∧
       Resolve t (q ++ l) = tx_Resolve (mkEthTx tx (cid MEthTx) v) l) ∧
    (∀ r, receipt_rlp v = Ok r → ∃ t, DecodeEthRctTrie c b = Ok t ∧
       Resolve t (q ++ l) = receipt_Resolve (mkEthReceipt r (cid MEthTxReceipt) v) l).
Proof.
  intros Hi Hns Hc q l Hq Hne. unfold DecodeEthTxTrie, DecodeEthRctTrie.
  setoid_rewrite (λ ld, decodeTrieNode_two c b ld true ns v Hi Hns).
  unfold decodeEthStateTrieLeaf, decodeEthTxTrieLeaf, decodeEthRctTrieLeaf. cbn [fst snd].
  split_and!; intros x ->; cbn [rbind]; rewrite Hc; cbn [rbind ignore_error];
    (eexists; split; [reflexivity|]); by rewrite leaf_Resolve_child.
Qed.

(** The JSON of a branch has an entry for each hexadecimal digit: the CID of the
    link the digit resolves to, or null where it resolves to nothing.  That of
    an extension has the one path of its tree, with the link it resolves to.
    Neither changes the node. *)
Theorem trie_JSON_agrees c b leafDecoder :
  (∀ i els, node_items b = Ok i → length i = 17%nat → parseTrieNodeBranch i (Cid_Type c) = Ok els →
     ∃ t js, decodeTrieNode c b leafDecoder = Ok t ∧
       MarshalJSON t = Ok (("type", VText "branch") :: js, t) ∧ js.*1 = branch_keys.*1 ∧
       ∀ k n, (k, n) ∈ branch_keys →
         match Resolve t [k] with
         | Ok (VLink link, rest) => rest = [] ∧ (k, VCid link) ∈ js
         | Err _ => (k, VNil) ∈ js
         | _ => False
         end) ∧
  (∀ ns h link, node_items b = Ok [Some (hp_encode false ns); Some h] → Forall nibble ns → ns ≠ [] →
     keccak256ToCid (Cid_Type c) h = Ok link →
     ∃ t, decodeTrieNode c b leafDecoder = Ok t ∧
       MarshalJSON t = Ok ([("type", VText "extension"); (hex_of ns, VCid link)], t) ∧
       Tree t "" (-1) = Ok [hex_of ns] ∧ Resolve t [hex_of ns] = Ok (VLink link, [])).
Proof.
  split.
  - intros i els Hi Hl Hels. destruct (parseTrieNodeBranch_elements _ _ _ Hels) as [Hle Hf].
    set (t := mkTrieNode "branch" els c b).
    assert (Hat : ∀ n, (n < 16)%nat → ∃ e, element_at t n = Ok e ∧ (e = ENil ∨ ∃ c, e = ECid c)).
    { intros n Hn. destruct (lookup_lt_is_Some_2 els n) as [e He]; [lia|]. exists e.
      split; [by apply element_at_Ok|]. by eapply Forall_lookup_1 in Hf. }
    set (f := λ k : string * nat, e <-! element_at t k.2 ;; Ok (k.1, element_value e)).
    assert (Hjs : ∃ js, range_collect f branch_keys = Ok js).
    { apply range_collect_total_in. intros [k n] Hin. apply branch_keys_index in Hin as (_ & _ & Hn).
      destruct (Hat n Hn) as (e & E & _). unfold f. simpl. rewrite E. by eexists. }
    destruct Hjs as [js Hjs]. exists t, js. split_and!.
    + unfold decodeTrieNode. rewrite Hi. cbn [rbind].
      destruct i as [|i0 [|i1 [|i2 i]]]; [done..|]. rewrite Hl. simpl. by rewrite Hels.
    + rewrite MarshalJSON_branch by done. fold f. by rewrite Hjs.
    + apply range_collect_Ok in Hjs. clear -Hjs. induction Hjs as [|[k n] y l js Hx Hr IH]; [done|].
      simpl. unfold f in Hx. simpl in Hx. destruct (element_at t n); [|done..]. injection Hx as <-. simpl. by f_equal.
    + intros k n Hin. pose proof (elem_of_range_collect _ _ _ Hjs) as Hel.
      destruct (branch_keys_index k n Hin) as (Hs & Hx & Hn).
      unfold Resolve. simpl. unfold resolveTrieNodeBranch. rewrite Hs, Hx.
      destruct (Z.eqb_spec (Z.of_nat n) (-1)); [lia|]. rewrite Nat2Z.id.
      destruct (Hat n Hn) as (e & E & He). rewrite E. cbn [rbind].
      destruct He as [->|[link ->]].
      * apply Hel. exists (k, n). split; [done|]. unfold f. simpl. by rewrite E.
      * split; [done|]. apply Hel. exists (k, n). split; [done|]. unfold f. simpl. by rewrite E.
  - intros ns h link Hi Hns Hne Hlink. rewrite (decodeTrieNode_two _ _ _ false ns h) by done.
    cbn [fst snd]. unfold parseTrieNodeExtension. cbn [fst snd]. rewrite Hlink. cbn [rbind ignore_error].
    eexists. split; [reflexivity|]. split; [done|]. split; [done|].
    unfold Resolve. simpl. unfold resolveTrieNodeExtension. simpl.
    pose proof (match_nibbles_spec ns [hex_of ns] "extension" Hns) as Hm.
    assert (Hp : path_chars [hex_of ns] = nibble_chars ns).
    { unfold path_chars. simpl. rewrite app_nil_r. by apply hex_of_nibbles. }
    pose proof (shiftFromPath_nibbles [hex_of ns] [] ns Hp ltac:(done)) as Hs. rewrite app_nil_r in Hs.
    destruct (shiftFromPath [hex_of ns] (length ns)) as [idx rest]. simpl in *. subst rest.
    rewrite Hp in Hm. by destruct (match_nibbles ns idx "extension") as [[]|err|w].
Qed.

(** The value of a storage leaf is marshalled without padding, so that the JSON
    does not determine it, and the node no longer holds the bytes. *)
Lemma storage_leaf_JSON c raw ns v :
  let t := mkTrieNode "leaf" [EBytes ns; EBytes v] c raw in
  MarshalJSON t = Ok ([("type", VText "leaf"); (hex_of ns, VText (hex_of v))],
                      mkTrieNode "leaf" [EBytes ns; EText (hex_of v)] c raw).
Proof. done. Qed.

Example hex_ambiguous : hex_of [0x01; 0x23] = hex_of [0x12; 0x03].
Proof. reflexivity. Qed.

End Decode.

(** ** Witnesses

    A codec whose node encodings are read off the first byte: 1 is an
    extension over the nibbles 10, 11, 12; 2 a leaf with a good account, 3 a
    leaf with a bad one. *)

Section Witnesses.
#[local] Existing Instance Concrete.cidlib.

#[local] Instance ex_codec : NodeCodec := {|
  mh_Encode := λ h _, Ok h;
  NewCidV1 := λ codec h, Concrete.of_bits (encode (codec, h));
  Cid_Type := λ _, MEthStateTrie;
  EncodeBig := pretty;
  header_rlp := λ _, Err (Driver "rlp");
  tx_rlp := λ b, if bool_decide (b = [8]) then Ok (mkTxFields 21000 9 [1] 0 (27, 3, 4) None 5 "120.00 B") else Err (Driver "rlp");
  receipt_rlp := λ _, Err (Driver "rlp");
  node_items := λ b,
    match b with
    | [1] => Ok [Some (hp_encode false [10; 11; 12]); Some [7]]
    | [2] => Ok [Some (hp_encode true [10; 11]); Some [8]]
    | [3] => Ok [Some (hp_encode true [10; 11]); Some [9]]
    | _ => Err (Driver "rlp")
    end;
  account_rlp := λ b, if bool_decide (b = [8]) then Ok (mkAccount 1 100 [5] [6]) else Err (Driver "rlp")
|}.

Lemma ex_nibbles : Forall nibble [10; 11; 12].
Proof. repeat constructor; unfold nibble; lia. Qed.

Lemma ex_nibbles2 : Forall nibble [10; 11].
Proof. repeat constructor; unfold nibble; lia. Qed.

Lemma extension_resolves_witness :
  ∃ t, decodeTrieNode "c" [1] decodeEthStorageTrieLeaf = Ok t ∧
    Resolve t ["a"; "bcd"; "e"] = Ok (VLink (NewCidV1 MEthStateTrie [7]), ["d"; "e"]).
Proof.
  destruct (extension_resolves "c" [1] decodeEthStorageTrieLeaf [10; 11; 12] [7]
    (NewCidV1 MEthStateTrie [7])) as (t & Ht & _); [reflexivity|exact ex_nibbles|reflexivity|].
  exists t. split; [exact Ht|]. injection Ht as <-. reflexivity.
Defined.

Lemma state_leaf_resolves_witness :
  ∃ t, FromStateTrieRLP [3] = Ok t ∧ ∀ p, ∃ w, Resolve t p = Panic w.
Proof.
  destruct (state_leaf_resolves [3] [10; 11] [9] (Concrete.of_bits (encode (MEthStateTrie, [3]))))
    as [_ Hbad]; [reflexivity|exact ex_nibbles2|reflexivity|].
  by apply (Hbad (Driver "rlp")).
Defined.

(** The nibbles a, b of a transaction leaf, then a field of the transaction. *)
Lemma leaf_paths_lead_on_witness :
  ∃ t, DecodeEthTxTrie "c" [2] = Ok t ∧ Resolve t ["a"; "b"; "gas"] = Ok (VUint 21000, []).
Proof.
  destruct (leaf_paths_lead_on "c" [2] [10; 11] [8] (λ codec, Concrete.of_bits (encode (codec, [8]))))
    with (q := ["a"; "b"]) (l := ["gas"]) as (_ & Ht & _);
    [reflexivity|exact ex_nibbles2|reflexivity|reflexivity|by repeat constructor|].
  destruct (Ht _ eq_refl) as (t & E & R). exists t. split; [exact E|]. exact R.
Defined.

Lemma trie_JSON_agrees_witness :
  ∃ t, decodeTrieNode "c" [1] decodeEthStorageTrieLeaf = Ok t ∧ Tree t "" (-1) = Ok ["abc"].
Proof.
  destruct (trie_JSON_agrees "c" [1] decodeEthStorageTrieLeaf) as [_ He].
  destruct (He [10; 11; 12] [7] (NewCidV1 MEthStateTrie [7]))
    as (t & Ht & _ & Htree & _); [reflexivity|exact ex_nibbles|done|reflexivity|]. by exists t.
Defined.

End Witnesses.
