(* ===== verification/DagPut.v ===== *)
(** * Publishing through an IPFS node (pkg/ipfs/dag_putters)

    The DAG service of an IPFS node is a parameter; publishers thread its
    state and stop at the first error. *)

From S2P Require Import Prelude Geth.

(** The DAG service: [DAG.Add] of an IPFS node. *)
Class DagService := {
  Dag : Type;
  dag_Add : Node → Dag → result unit * Dag
}.

Section Dag.
Context `{DagService}.

(** ** A state monad over the DAG service *)

Definition Pub (A : Type) : Type := Dag → result A * Dag.

Definition pub_ret {A} (a : A) : Pub A := λ d, (Ok a, d).
Definition pub_lift {A} (r : result A) : Pub A := λ d, (r, d).
Definition pub_bind {A B} (m : Pub A) (f : A → Pub B) : Pub B := λ d,
  match m d with
  | (Ok a, d) => f a d
  | (Err e, d) => (Err e, d)
  | (Panic w, d) => (Panic w, d)
  end.


Fixpoint pub_collect {A B} (f : nat → A → Pub B) (i : nat) (l : list A) : Pub (list B) :=
  match l with
  | [] => pub_ret []
  | x :: l => pub_bind (f i x) (λ y, pub_bind (pub_collect f (S i) l) (λ ys, pub_ret (y :: ys)))
  end.

(** ** dag_putters *)

Definition duplicateKeyErrorString : string := "pq: duplicate key value violates unique constraint".

Definition error_text (e : error) : string :=
  match e with Sentinel s => s | Errorf s => s | Driver s => s end.

(** [strings.Contains] *)
Definition Contains (s sub : string) : bool :=
  match String.index 0 sub s with Some _ => true | None => false end.

(** All putters have this body; their type assertions always succeed here. *)
Definition DagPut (n : Node) : Pub string := λ d,
  match dag_Add n d with
  | (Ok _, d) => (Ok (Cid n), d)
  | (Err e, d) => if negb (Contains (error_text e) duplicateKeyErrorString)
                  then (Err e, d) else (Ok (Cid n), d)
  | (Panic w, d) => (Panic w, d)
  end.

Definition index_of {A} (xs : list A) (i : nat) : Pub A :=
  pub_lift (match xs !! i with Some x => Ok x | None => Panic "index out of range" end).


(** ** Lemmas *)

Lemma pub_bind_Ok {A B} (m : Pub A) (f : A → Pub B) d b d' :
  pub_bind m f d = (Ok b, d') → ∃ a d1, m d = (Ok a, d1) ∧ f a d1 = (Ok b, d').
Proof. unfold pub_bind. destruct (m d) as [[a|e|w] d1]; naive_solver. Qed.

Lemma pub_collect_Ok {A B} (f : nat → A → Pub B) (P : nat → A → B → Prop) l :
  (∀ i x d b d', f i x d = (Ok b, d') → P i x b) →
  ∀ i d bs d', pub_collect f i l d = (Ok bs, d') →
  length bs = length l ∧ ∀ j x, l !! j = Some x → ∃ b, bs !! j = Some b ∧ P (i + j)%nat x b.
Proof.
  intros HP. induction l as [|x l IH]; intros i d bs d'; simpl; [by intros [= <- <-]|].
  intros (b & d1 & Hb & (bs' & d2 & Hbs & [= <- <-])%pub_bind_Ok)%pub_bind_Ok.
  destruct (IH _ _ _ _ Hbs) as [Hl Hj]. split; [simpl; lia|].
  intros [|j] y Hy; simpl in *.
  - injection Hy as <-. exists b. split; [done|]. rewrite Nat.add_0_r. by eapply HP.
  - destruct (Hj j y Hy) as (b' & ? & ?). exists b'. split; [done|]. by rewrite <- Nat.add_succ_comm.
Qed.

Lemma DagPut_Ok n d c d' : DagPut n d = (Ok c, d') → c = Cid n.
Proof.
  unfold DagPut. destruct (dag_Add n d) as [[u|e|w] d1]; [by intros [= <- _]| |done].
  destruct (negb _); [done|by intros [= <- _]].
Qed.

Lemma index_of_Ok {A} (xs : list A) i d x d' : index_of xs i d = (Ok x, d') → xs !! i = Some x.
Proof. unfold index_of, pub_lift. by destruct (xs !! i); intros [= <- _]. Qed.

(** [pub_collect_Ok] for bodies that ignore the index. *)
Lemma pub_collect_Forall2 {A B} (f : nat → A → Pub B) (P : A → B → Prop) l i d bs d' :
  (∀ i x d b d', f i x d = (Ok b, d') → P x b) →
  pub_collect f i l d = (Ok bs, d') → Forall2 P l bs.
Proof.
  intros HP Hc. destruct (pub_collect_Ok f (λ _, P) l HP i d bs d' Hc) as [Hl Hj].
  apply Forall2_same_length_lookup_2; [done|]. intros j x b Hx Hb.
  destruct (Hj j x Hx) as (b' & Hb' & ?). by simplify_eq.
Qed.

End Dag.

Declare Scope pub_scope.
Notation "x <~ m ;; k" := (pub_bind m (λ x, k))
  (at level 100, m at next level, k at level 100, right associativity) : pub_scope.
