(* ===== verification/Agreement.v ===== *)
(** * Database programs that agree up to public.blocks

    Used to compare a publisher that writes blocks and metadata in one
    transaction with one that sends the nodes to IPFS and leaves the metadata
    to the indexer. *)

From S2P Require Import Prelude Geth Sql Blocks.

Section Agreement.
Context `{CidLib} `{BlockTableLaws T}.

Definition no_blocks (d : T) : T := put_blocks ∅ d.

(** Two live sessions with the same rows outside public.blocks. *)
Record same_rows (s1 s2 : session T) : Prop := {
  sr_live1 : aborted s1 = false;
  sr_live2 : aborted s2 = false;
  sr_seqs : seqs s1 = seqs s2;
  sr_rows : no_blocks (tables s1) = no_blocks (tables s2)
}.

(** Without server faults both succeed with the same value and the same rows. *)
Definition agree {A} (m1 m2 : DB T A) : Prop := ∀ s1 s2, same_rows s1 s2 →
  ∃ a s1' s2', m1 no_faults s1 = (DOk a, s1') ∧ m2 no_faults s2 = (DOk a, s2') ∧ same_rows s1' s2'.

(** A statement that reads and writes no block. *)
Definition blind {A} (f : T → gmap string Z → A * T * gmap string Z) : Prop :=
  ∀ d1 d2 q, no_blocks d1 = no_blocks d2 →
    (f d1 q).1.1 = (f d2 q).1.1 ∧ (f d1 q).2 = (f d2 q).2 ∧
    no_blocks (f d1 q).1.2 = no_blocks (f d2 q).1.2.

Lemma same_rows_refl s : aborted s = false → same_rows s s.
Proof. by split. Qed.

Lemma agree_trans {A} (m1 m2 m3 : DB T A) : agree m1 m2 → agree m2 m3 → agree m1 m3.
Proof.
  intros H12 H23 s1 s3 Hr. destruct (H12 s1 s1 (same_rows_refl s1 (sr_live1 _ _ Hr))) as (a & s1' & s2' & E1 & E2 & R).
  destruct (H23 s1 s3 Hr) as (b & s2'' & s3' & E2' & E3 & R').
  rewrite E2 in E2'. injection E2' as <- <-. exists a, s1', s3'. split_and!; [done|done|].
  destruct R as [R1 R2 R3 R4], R' as [S1 S2 S3 S4]. split; congruence.
Qed.

Lemma agree_exec {A} (f : T → gmap string Z → A * T * gmap string Z) : blind f → agree (exec f) (exec f).
Proof.
  intros Hf s1 s2 [L1 L2 Hq Hr]. unfold exec. rewrite L1, L2. simpl. rewrite <- Hq.
  destruct (Hf (tables s1) (tables s2) (seqs s1) Hr) as (Q1 & Q2 & Q3).
  destruct (f (tables s1) (seqs s1)) as [[a d1] q1], (f (tables s2) (seqs s1)) as [[b d2] q2].
  simpl in *. subst b q2. do 3 eexists. split_and!; [done|done|]. by split.
Qed.

Lemma agree_ret {A} (a : A) : agree (db_ret a) (db_ret a).
Proof. intros s1 s2 Hr. by exists a, s1, s2. Qed.

Lemma agree_bind {A B} (m1 m2 : DB T A) (k1 k2 : A → DB T B) :
  agree m1 m2 → (∀ a, agree (k1 a) (k2 a)) → agree (db_bind m1 k1) (db_bind m2 k2).
Proof.
  intros Hm Hk s1 s2 Hr. destruct (Hm s1 s2 Hr) as (a & s1' & s2' & E1 & E2 & R).
  destruct (Hk a s1' s2' R) as (b & t1 & t2 & F1 & F2 & R'). exists b, t1, t2.
  unfold db_bind. by rewrite E1, E2.
Qed.

Lemma agree_shadow {A} (m1 m2 : DB T A) : agree m1 m2 → agree (shadow m1) m2.
Proof.
  intros Hm s1 s2 Hr. destruct (Hm s1 s2 Hr) as (a & s1' & s2' & E1 & E2 & R).
  exists a, s1', s2'. unfold shadow. by rewrite E1.
Qed.

Lemma agree_shadow_r {A} (m1 m2 : DB T A) : agree m1 m2 → agree m1 (shadow m2).
Proof.
  intros Hm s1 s2 Hr. destruct (Hm s1 s2 Hr) as (a & s1' & s2' & E1 & E2 & R).
  exists a, s1', s2'. unfold shadow. by rewrite E2.
Qed.

Lemma agree_for {A B} (f : A → DB T unit) (g : B → DB T unit) l1 l2 :
  Forall2 (λ x y, agree (f x) (g y)) l1 l2 → agree (db_for f l1) (db_for g l2).
Proof. induction 1; simpl; [apply agree_ret|]. by apply agree_bind. Qed.

(** [m] returns [a] and touches at most public.blocks. *)
Definition skips {A} (m : DB T A) (a : A) : Prop := ∀ s, aborted s = false →
  ∃ s', m no_faults s = (DOk a, s') ∧ same_rows s' s.

Lemma agree_skip {A B} (m : DB T A) a (k : A → DB T B) m2 :
  skips m a → agree (k a) m2 → agree (db_bind m k) m2.
Proof.
  intros Hm Hk s1 s2 Hr. destruct (Hm s1 (sr_live1 _ _ Hr)) as (s1' & E & R).
  destruct (Hk s1' s2) as (b & t1 & t2 & F1 & F2 & R').
  { destruct Hr, R. split; congruence. }
  exists b, t1, t2. unfold db_bind. by rewrite E.
Qed.

Lemma skips_bind {A B} (m : DB T A) a (k : A → DB T B) b :
  skips m a → skips (k a) b → skips (db_bind m k) b.
Proof.
  intros Hm Hk s Hs. destruct (Hm s Hs) as (s1 & E & R).
  destruct (Hk s1 (sr_live1 _ _ R)) as (s2 & E2 & R2). exists s2. unfold db_bind. rewrite E.
  split; [done|]. destruct R, R2. split; congruence.
Qed.

Lemma skips_lift {A} (r : result A) a : r = Ok a → skips (db_lift r) a.
Proof. intros -> s Hs. exists s. split; [done|by apply same_rows_refl]. Qed.

Lemma skips_ret {A} (a : A) : skips (db_ret a) a.
Proof. intros s Hs. exists s. split; [done|by apply same_rows_refl]. Qed.

Lemma skips_shadow {A} (m : DB T A) a : skips m a → skips (shadow m) a.
Proof. intros Hm s Hs. destruct (Hm s Hs) as (s' & E & R). exists s'. unfold shadow. by rewrite E. Qed.

Lemma skips_for_In {A} (f : A → DB T unit) l : (∀ x, x ∈ l → skips (f x) tt) → skips (db_for f l) tt.
Proof.
  induction l as [|x l IH]; intros Hf; simpl; [apply skips_ret|].
  eapply skips_bind; [apply Hf; set_solver|]. apply IH. set_solver.
Qed.

Lemma skips_for {A} (f : A → DB T unit) l : (∀ x, skips (f x) tt) → skips (db_for f l) tt.
Proof. intros Hf. by apply skips_for_In. Qed.

Lemma skips_insert_block k raw : skips (insert_block k raw) tt.
Proof.
  intros s Hs. unfold insert_block, modify, exec. rewrite Hs. simpl. eexists. split; [done|].
  split; simpl; [done..|]. destruct (blocks_of (tables s) !! k); [done|]. unfold no_blocks. by rewrite put_blocks_put.
Qed.

Lemma skips_PublishIPLD n : skips (PublishIPLD n) tt.
Proof. apply skips_insert_block. Qed.

Lemma skips_PublishRaw codec mh raw c : RawdataToCid codec raw mh = Ok c → skips (PublishRaw codec mh raw) c.
Proof.
  intros Hc. eapply skips_bind; [by apply skips_lift|].
  eapply skips_bind; [apply skips_insert_block|apply skips_ret].
Qed.

Lemma bind_assoc {A B C} (m : DB T A) (f : A → DB T B) (g : B → DB T C) o s :
  db_bind (db_bind m f) g o s = db_bind m (λ a, db_bind (f a) g) o s.
Proof. unfold db_bind. by destruct (m o s) as [[a|e|w] s1]. Qed.

(** Programs that are equal on live sessions without faults. *)
Lemma agree_eq {A} (m1 m1' m2 : DB T A) :
  (∀ s, aborted s = false → m1 no_faults s = m1' no_faults s) → agree m1' m2 → agree m1 m2.
Proof. intros Heq Hm s1 s2 Hr. rewrite Heq; [by apply Hm|exact (sr_live1 _ _ Hr)]. Qed.

Lemma skips_index {A} (xs : list A) i x : xs !! i = Some x → skips (index_ xs i) x.
Proof. intros Hx. apply skips_lift. by rewrite Hx. Qed.

(** Without faults both transactions commit, so agreeing bodies store the same rows. *)
Lemma agree_transact (m1 m2 : DB T unit) s : agree m1 m2 →
  let '(r1, s1) := transact_deferred m1 no_faults s in
  let '(r2, s2) := transact_deferred m2 no_faults s in
  r1 = DOk tt ∧ r2 = DOk tt ∧ seqs s1 = seqs s2 ∧ no_blocks (tables s1) = no_blocks (tables s2).
Proof.
  intros Hm. unfold transact_deferred, begin_. simpl.
  destruct (Hm _ _ (same_rows_refl (mkSession (tables s) (seqs s) false (S (clock s))) eq_refl))
    as ([] & s1 & s2 & E1 & E2 & [L1 L2 Hq Hr]).
  rewrite E1, E2. unfold commit. rewrite L1, L2. simpl. by split_and!.
Qed.

End Agreement.
