(* ===== verification/EthIpfs.v ===== *)
(** * Publishing through an IPFS node (pkg/super_node/eth/publisher.go,
    pkg/ipfs/dag_putters)

    [IPLDPublisher.Publish] puts the block's nodes into a DAG service and
    returns their CIDs with the metadata, for the indexer.  The DAG service is
    a parameter.  The last theorem says that this pair stores what the
    publisher of publish_and_indexer.go stores in one transaction. *)

From S2P Require Import Prelude GoInt Geth EthModel Sql Blocks EthIpld EthDB Rewards.
From S2P Require Import EthFilterer EthPublisher IpldNodes TrieNode DagPut Agreement.
Open Scope pub_scope.

Section Ipfs.
Context `{GethCommon} `{CidLib} `{TrieLib} `{StateRlp} `{NodeCodec} `{DagService}.

(** ** publisher.go *)

Definition publishHeader (header : Node) : Pub string := DagPut header.

Definition publishTransactions (transactions txTrie : list Node) (trxMeta : list TxModel)
    : Pub (list TxModel) :=
  trxCids <~ pub_collect (λ i tx,
    cid <~ DagPut tx ;;
    m <~ index_of trxMeta i ;;
    pub_ret {| tx_ID := 0; tx_HeaderID := 0; tx_Index := tx_Index m; tx_TxHash := tx_TxHash m;
               tx_CID := cid; tx_Dst := tx_Dst m; tx_Src := tx_Src m |}) 0 transactions ;;
  _ <~ pub_collect (λ _ txNode, DagPut txNode) 0 txTrie ;;
  pub_ret trxCids.

(** The receipt nodes carry their receipts, whose hash keys the map. *)
Definition publishReceipts (receipts : list (Receipt * Node)) (receiptTrie : list Node)
    (receiptMeta : list ReceiptModel) : Pub (gmap bytes ReceiptModel) :=
  rctCids <~ pub_collect (λ i rct,
    cid <~ DagPut rct.2 ;;
    m <~ index_of receiptMeta i ;;
    pub_ret (rct_TxHash rct.1,
      {| r_ID := 0; r_TxID := 0; r_CID := cid; r_Contract := r_Contract m;
         r_ContractHash := r_ContractHash m; r_LogContracts := r_LogContracts m;
         r_Topic0s := r_Topic0s m; r_Topic1s := r_Topic1s m; r_Topic2s := r_Topic2s m;
         r_Topic3s := r_Topic3s m |})) 0 receipts ;;
  _ <~ pub_collect (λ _ rctNode, DagPut rctNode) 0 receiptTrie ;;
  pub_ret (foldl (λ m p, <[p.1 := p.2]> m) ∅ rctCids).

(** The account of a state leaf node. *)
Definition decode_account (value : bytes) : result StateAccountModel :=
  i <-! rlp_items value ;;
  match i with
  | [_; Some b] =>
      account <-! rlp_account b ;;
      Ok {| a_ID := 0; a_StateID := 0; a_Balance := acc_Balance account;
            a_Nonce := acc_Nonce account; a_CodeHash := acc_CodeHash account;
            a_StorageRoot := Hash_String (acc_Root account) |}
  | [_; None] => Panic "interface conversion: interface {} is []interface {}, not []uint8"
  | _ => Err (Errorf "IPLDPublisher expected state leaf node rlp to decode into two elements")
  end.

(** A decoded trie node as an IPLD node. *)
Definition ipld_node (t : trie_node) : Node := mkNode (tn_cid t) (tn_rawdata t).

Definition publish_state_node (stateNode : TrieNode)
    : Pub (StateNodeModel * option (string * StateAccountModel)) :=
  node <~ pub_lift (FromStateTrieRLP (n_Value stateNode)) ;;
  cid <~ DagPut (ipld_node node) ;;
  let model := state_model stateNode cid in
  if bool_decide (n_Type stateNode = Leaf) then
    account <~ pub_lift (decode_account (n_Value stateNode)) ;;
    pub_ret (model, Some (Bytes2Hex (n_Path stateNode), account))
  else pub_ret (model, None).

Definition publishStateNodes (stateNodes : list TrieNode)
    : Pub (list StateNodeModel * gmap string StateAccountModel) :=
  per_node <~ pub_collect (λ _, publish_state_node) 0 stateNodes ;;
  pub_ret (map fst per_node,
    foldl (λ m p, match p.2 with Some (path, a) => <[path := a]> m | None => m end) ∅ per_node).

Definition publish_storage_node (storageNode : TrieNode) : Pub StorageNodeModel :=
  node <~ pub_lift (FromStorageTrieRLP (n_Value storageNode)) ;;
  cid <~ DagPut (ipld_node node) ;;
  pub_ret (storage_model storageNode cid).

(** The order in which Go ranges over the map of storage nodes. *)
Variable range_storage : gmap string (list TrieNode) → list (string * list TrieNode).

Definition publishStorageNodes (storageNodes : gmap string (list TrieNode))
    : Pub (gmap string (list StorageNodeModel)) :=
  per_path <~ pub_collect (λ _ p,
    models <~ pub_collect (λ _, publish_storage_node) 0 p.2 ;; pub_ret (p.1, models)) 0
    (range_storage storageNodes) ;;
  pub_ret (foldl (λ m p, <[p.1 := p.2]> m) ∅ per_path).

Definition Publish (ipldPayload : ConvertedPayload) : Pub CIDPayload :=
  ns <~ pub_lift (FromBlockAndReceipts (p_Block ipldPayload) (p_Receipts ipldPayload)) ;;
  headerCid <~ publishHeader (headerNode ns) ;;
  reward <~ pub_lift (CalcEthBlockReward (block_Header (p_Block ipldPayload))
    (block_Uncles (p_Block ipldPayload)) (block_Transactions (p_Block ipldPayload))
    (p_Receipts ipldPayload)) ;;
  uncleCids <~ pub_collect (λ _ un,
    cid <~ publishHeader un.2 ;;
    pub_ret (uncle_model ipldPayload un.1 (mkNode cid (RawData un.2))))
    0 (zip (block_Uncles (p_Block ipldPayload)) (uncleNodes ns)) ;;
  transactionCids <~ publishTransactions (txNodes ns) (txTrieNodes ns) (p_TxMetaData ipldPayload) ;;
  receiptsCids <~ publishReceipts (zip (p_Receipts ipldPayload) (rctNodes ns)) (rctTrieNodes ns)
    (p_ReceiptMetaData ipldPayload) ;;
  states <~ publishStateNodes (p_StateNodes ipldPayload) ;;
  storageNodeCids <~ publishStorageNodes (p_StorageNodes ipldPayload) ;;
  pub_ret {| c_HeaderCID := header_model ipldPayload headerCid reward;
             c_UncleCIDs := uncleCids; c_TransactionCIDs := transactionCids;
             c_ReceiptCIDs := receiptsCids; c_StateNodeCIDs := states.1;
             c_StateAccounts := states.2; c_StorageNodeCIDs := storageNodeCids |}.

(** ** Lemmas: what a successful publication returns *)

(** A decoded node keeps the CID and the bytes it was decoded from. *)
Lemma decodeTrieNode_cid c b dec t : decodeTrieNode c b dec = Ok t → tn_cid t = c ∧ tn_rawdata t = b.
Proof.
  unfold decodeTrieNode. intros (i & _ & Ht)%rbind_Ok_inv.
  destruct i as [|i0 [|i1 [|i2 i]]].
  - done.
  - done.
  - apply rbind_Ok_inv in Ht as (kd & _ & (els & _ & [= <-])%rbind_Ok_inv). done.
  - revert Ht. case_match; [|done]. by intros (els & _ & [= <-])%rbind_Ok_inv.
Qed.

(** ** Lemmas: the indexing statements *)

Ltac blind_upsert :=
  intros d1 d2 q Hd; destruct d1, d2; unfold no_blocks, put_blocks, set_blocks in Hd; simpl in Hd;
  injection Hd as -> -> -> -> -> -> ->; simpl;
  match goal with |- context [upsert_rows ?n ?c ?r ?u ?g ?rows ?q] =>
    destruct (upsert_rows n c r u g rows q) as [[??]?] end; done.

Lemma agree_indexHeaderCID nodeID h : agree (indexHeaderCID nodeID h) (indexHeaderCID nodeID h).
Proof. apply agree_exec. blind_upsert. Qed.

Lemma agree_indexUncleCID u hid : agree (indexUncleCID u hid) (indexUncleCID u hid).
Proof. apply agree_exec. blind_upsert. Qed.

Lemma agree_indexTransactionCID t hid : agree (indexTransactionCID t hid) (indexTransactionCID t hid).
Proof. apply agree_exec. blind_upsert. Qed.

Lemma agree_indexReceiptCID r tid : agree (indexReceiptCID r tid) (indexReceiptCID r tid).
Proof. apply agree_exec. blind_upsert. Qed.

Lemma agree_indexStateCID m hid : agree (indexStateCID m hid) (indexStateCID m hid).
Proof. apply agree_exec. blind_upsert. Qed.

Lemma agree_indexStateAccount a sid : agree (indexStateAccount a sid) (indexStateAccount a sid).
Proof. apply agree_exec. blind_upsert. Qed.

Lemma agree_indexStorageCID m sid : agree (indexStorageCID m sid) (indexStorageCID m sid).
Proof. apply agree_exec. blind_upsert. Qed.

(** The account and the storage rows of a state node are in different tables
    with different sequences, so their order does not matter. *)
Lemma account_storage_commute a m sid s : aborted s = false →
  (indexStateAccount a sid ;;; indexStorageCID m sid)%db no_faults s =
  (indexStorageCID m sid ;;; indexStateAccount a sid)%db no_faults s.
Proof.
  intros Hs. unfold indexStateAccount, indexStorageCID, db_bind, exec. rewrite Hs. simpl.
  unfold upsert_rows, nextval.
  destruct (list_find _ (state_accounts (tables s))) as [[i ra]|] eqn:Ea,
    (list_find (λ r, bool_decide (storage_row_key r = (sid, st_Path m))) (storage_cids (tables s)))
      as [[j rs]|] eqn:Es; simpl; rewrite ?Hs; simpl; rewrite ?Ea, ?Es; simpl;
    rewrite !lookup_insert_ne by done; by rewrite insert_insert_ne.
Qed.

Lemma account_storages_agree a sid ms :
  agree (indexStateAccount a sid ;;; db_for (λ m, indexStorageCID m sid) ms)
        (db_for (λ m, indexStorageCID m sid) ms ;;; indexStateAccount a sid).
Proof.
  induction ms as [|m ms IH]; simpl.
  - intros s1 s2 Hr. destruct (agree_indexStateAccount a sid s1 s2 Hr) as ([] & s1' & s2' & E1 & E2 & R).
    exists tt, s1', s2'. unfold db_bind, db_ret. by rewrite E1, E2.
  - eapply (agree_eq _ (indexStorageCID m sid ;;; (indexStateAccount a sid ;;;
      db_for (λ m, indexStorageCID m sid) ms))).
    { intros s Hs. rewrite <- !(bind_assoc (indexStorageCID m sid)), <- (bind_assoc (indexStateAccount a sid)).
      unfold db_bind at 1 3. by rewrite account_storage_commute. }
    apply (agree_trans _ (indexStorageCID m sid ;;;
      (db_for (λ m, indexStorageCID m sid) ms ;;; indexStateAccount a sid))).
    { apply agree_bind; [apply agree_indexStorageCID|by intros []]. }
    intros s1 s2 Hr. rewrite bind_assoc.
    apply (agree_bind (indexStorageCID m sid) (indexStorageCID m sid)); [apply agree_indexStorageCID| |done].
    intros _. apply agree_bind; [|intros _; apply agree_indexStateAccount].
    apply agree_for, Forall_Forall2_diag, Forall_true. intros x. apply agree_indexStorageCID.
Qed.

(** ** Lemmas: maps built by a loop *)

Lemma foldl_insert_notin {K V} `{Countable K} (l : list (K * V)) : ∀ (m : gmap K V) k,
  k ∉ l.*1 → foldl (λ m p, <[p.1 := p.2]> m) m l !! k = m !! k.
Proof.
  induction l as [|[k' v] l IH]; intros m k Hk; simpl in *; [done|].
  rewrite IH by set_solver. apply lookup_insert_ne. set_solver.
Qed.

Lemma foldl_insert_lookup {K V} `{Countable K} (l : list (K * V)) : ∀ (m : gmap K V) k v,
  NoDup l.*1 → (k, v) ∈ l → foldl (λ m p, <[p.1 := p.2]> m) m l !! k = Some v.
Proof.
  induction l as [|[k' v'] l IH]; intros m k v Hnd Hin; simpl in *; [by apply elem_of_nil in Hin|].
  apply NoDup_cons in Hnd as [Hk Hnd]. apply elem_of_cons in Hin as [[= -> ->]|Hin]; [|by apply IH].
  rewrite foldl_insert_notin by done. apply lookup_insert_eq.
Qed.

Lemma foldl_option_insert {A K V} `{Countable K} (l : list (A * option (K * V))) : ∀ (m : gmap K V),
  foldl (λ m p, match p.2 with Some (k, v) => <[k := v]> m | None => m end) m l =
  foldl (λ m p, <[p.1 := p.2]> m) m (omap snd l).
Proof. induction l as [|[a [[k v]|]] l IH]; intros m; simpl; [done|apply IH|apply IH]. Qed.

(** ** What a successful publication returns *)

Definition same_tx (m t : TxModel) (cid : string) : Prop :=
  t = {| tx_ID := 0; tx_HeaderID := 0; tx_Index := tx_Index m; tx_TxHash := tx_TxHash m;
         tx_CID := cid; tx_Dst := tx_Dst m; tx_Src := tx_Src m |}.

Definition same_rct (m r : ReceiptModel) (cid : string) : Prop :=
  r = {| r_ID := 0; r_TxID := 0; r_CID := cid; r_Contract := r_Contract m;
         r_ContractHash := r_ContractHash m; r_LogContracts := r_LogContracts m;
         r_Topic0s := r_Topic0s m; r_Topic1s := r_Topic1s m; r_Topic2s := r_Topic2s m;
         r_Topic3s := r_Topic3s m |}.

Definition storage_published (sn : TrieNode) (m : StorageNodeModel) : Prop :=
  ∃ c, RawdataToCid MEthStorageTrie (n_Value sn) KECCAK_256 = Ok c ∧ m = storage_model sn c.

Definition state_published (cids : CIDPayload) (sn : TrieNode) (m : StateNodeModel) : Prop :=
  ∃ c, RawdataToCid MEthStateTrie (n_Value sn) KECCAK_256 = Ok c ∧ m = state_model sn c ∧
    (n_Type sn = Leaf → ∃ a, decode_account (n_Value sn) = Ok a ∧
       c_StateAccounts cids !! Bytes2Hex (n_Path sn) = Some a).

Record published (p : ConvertedPayload) (ns : BlockNodes) (reward : Z) (cids : CIDPayload) : Prop := {
  pb_header : c_HeaderCID cids = header_model p (Cid (headerNode ns)) reward;
  pb_uncles : Forall2 (λ un u, u = uncle_model p un.1 un.2)
    (zip (block_Uncles (p_Block p)) (uncleNodes ns)) (c_UncleCIDs cids);
  pb_txs : length (c_TransactionCIDs cids) = length (txNodes ns) ∧
    ∀ i n, txNodes ns !! i = Some n → ∃ m t, p_TxMetaData p !! i = Some m ∧
      c_TransactionCIDs cids !! i = Some t ∧ same_tx m t (Cid n);
  pb_rcts : NoDup (map rct_TxHash (p_Receipts p)) → ∀ i r n,
    p_Receipts p !! i = Some r → rctNodes ns !! i = Some n →
    ∃ m rm, p_ReceiptMetaData p !! i = Some m ∧
      c_ReceiptCIDs cids !! rct_TxHash r = Some rm ∧ same_rct m rm (Cid n);
  pb_states : NoDup (map (λ sn, Bytes2Hex (n_Path sn)) (p_StateNodes p)) →
    Forall2 (state_published cids) (p_StateNodes p) (c_StateNodeCIDs cids);
  pb_storages : ∀ path, Forall2 storage_published
    (default [] (p_StorageNodes p !! path)) (default [] (c_StorageNodeCIDs cids !! path))
}.

Lemma publishTransactions_Ok ts trie meta d cs d' :
  publishTransactions ts trie meta d = (Ok cs, d') →
  length cs = length ts ∧ ∀ i n, ts !! i = Some n → ∃ m t, meta !! i = Some m ∧
    cs !! i = Some t ∧ same_tx m t (Cid n).
Proof.
  intros (cs' & d1 & Hc & (? & d2 & _ & [= <- _])%pub_bind_Ok)%pub_bind_Ok.
  eapply (pub_collect_Ok _ (λ i n t, ∃ m, meta !! i = Some m ∧ same_tx m t (Cid n))) in Hc as [Hl Hj].
  - split; [done|]. intros i n Hn. destruct (Hj i n Hn) as (t & Ht & m & Hm & Hs). by exists m, t.
  - intros i n d0 t d3 (c & d4 & ->%DagPut_Ok & (m & d5 & Hm%index_of_Ok & [= <- _])%pub_bind_Ok)%pub_bind_Ok.
    by exists m.
Qed.

Lemma publishReceipts_Ok rs ns trie meta d cs d' :
  publishReceipts (zip rs ns) trie meta d = (Ok cs, d') → NoDup (map rct_TxHash rs) →
  ∀ i r n, rs !! i = Some r → ns !! i = Some n →
    ∃ m rm, meta !! i = Some m ∧ cs !! rct_TxHash r = Some rm ∧ same_rct m rm (Cid n).
Proof.
  intros (cs' & d1 & Hc & (? & d2 & _ & [= <- _])%pub_bind_Ok)%pub_bind_Ok Hnd i r n Hr Hn.
  eapply (pub_collect_Ok _ (λ i rn p, ∃ m, meta !! i = Some m ∧ p.1 = rct_TxHash rn.1 ∧ same_rct m p.2 (Cid rn.2)))
    in Hc as [Hl Hj].
  2: { intros j rn d0 t d3 (c & d4 & ->%DagPut_Ok & (m & d5 & Hm%index_of_Ok & [= <- _])%pub_bind_Ok)%pub_bind_Ok.
       by exists m. }
  destruct (Hj i (r, n)) as ([k rm] & Hp & m & Hm & Hk & Hs); [by rewrite lookup_zip_with, Hr, Hn|].
  simpl in *. subst k. exists m, rm. split_and!; [done| |done].
  apply foldl_insert_lookup; [|by eapply list_elem_of_lookup_2].
  assert (Hkeys : cs'.*1 `prefix_of` map rct_TxHash rs).
  { exists (drop (length cs') (map rct_TxHash rs)). apply list_eq. intros j.
    rewrite lookup_app, length_map, !list_lookup_fmap.
    destruct (cs' !! j) as [q|] eqn:Eq; simpl.
    - assert (Hz : is_Some (zip rs ns !! j)) by (apply lookup_lt_is_Some; rewrite <- Hl; by eapply lookup_lt_Some).
      destruct Hz as [[r' n'] Hz]. destruct (Hj j (r', n') Hz) as (q' & Hq' & m' & _ & Hk' & _).
      simplify_eq. rewrite lookup_zip_with in Hz.
      destruct (rs !! j) eqn:Er; simpl in Hz; [|done]. destruct (ns !! j); simpl in Hz; [|done].
      simpl. simplify_eq. by f_equal.
    - apply lookup_ge_None in Eq. rewrite lookup_drop, list_lookup_fmap. do 2 f_equal. lia. }
  destruct Hkeys as [l Hkeys]. rewrite Hkeys in Hnd. by apply NoDup_app in Hnd as [? _].
Qed.

Lemma FromStateTrieRLP_cid raw t : FromStateTrieRLP raw = Ok t →
  RawdataToCid MEthStateTrie raw KECCAK_256 = Ok (tn_cid t).
Proof. by intros (c & Hc & [-> _]%decodeTrieNode_cid)%rbind_Ok_inv. Qed.

Lemma FromStorageTrieRLP_cid raw t : FromStorageTrieRLP raw = Ok t →
  RawdataToCid MEthStorageTrie raw KECCAK_256 = Ok (tn_cid t).
Proof. by intros (c & Hc & [-> _]%decodeTrieNode_cid)%rbind_Ok_inv. Qed.

Definition state_result (sn : TrieNode) (r : StateNodeModel * option (string * StateAccountModel)) : Prop :=
  ∃ c, RawdataToCid MEthStateTrie (n_Value sn) KECCAK_256 = Ok c ∧ r.1 = state_model sn c ∧
    if bool_decide (n_Type sn = Leaf)
    then ∃ a, decode_account (n_Value sn) = Ok a ∧ r.2 = Some (Bytes2Hex (n_Path sn), a)
    else r.2 = None.

Lemma publish_state_node_Ok sn d r d' : publish_state_node sn d = (Ok r, d') → state_result sn r.
Proof.
  unfold publish_state_node.
  intros (t & d1 & Ht & (c & d2 & ->%DagPut_Ok & Hr)%pub_bind_Ok)%pub_bind_Ok.
  unfold pub_lift in Ht. injection Ht as Ht <-. exists (tn_cid t).
  split; [by apply FromStateTrieRLP_cid|].
  destruct (bool_decide (n_Type sn = Leaf)).
  - apply pub_bind_Ok in Hr as (a & d3 & Ha & [= <- _]). split; [done|].
    unfold pub_lift in Ha. injection Ha as Ha _. by exists a.
  - by injection Hr as <- _.
Qed.

Lemma publishStateNodes_Ok sns d ms accts d' cids :
  publishStateNodes sns d = (Ok (ms, accts), d') → c_StateAccounts cids = accts →
  NoDup (map (λ sn, Bytes2Hex (n_Path sn)) sns) → Forall2 (state_published cids) sns ms.
Proof.
  intros (rs & d1 & Hrs & [= <- <- _])%pub_bind_Ok Ha Hnd.
  apply (pub_collect_Forall2 _ state_result) in Hrs; [|intros; by eapply publish_state_node_Ok].
  rewrite foldl_option_insert in Ha.
  assert (Hkeys : (omap snd rs).*1 `sublist_of` map (λ sn, Bytes2Hex (n_Path sn)) sns).
  { clear -Hrs. induction Hrs as [|sn r sns rs (c & _ & _ & Hr) _ IH]; simpl; [done|].
    destruct (bool_decide (n_Type sn = Leaf)).
    - destruct Hr as (a & _ & ->). simpl. by apply sublist_skip.
    - rewrite Hr. by apply sublist_cons. }
  assert (Hnd' : NoDup (omap snd rs).*1) by (by eapply sublist_NoDup).
  apply Forall2_fmap_r. apply Forall2_same_length_lookup_2; [by eapply Forall2_length|].
  intros j sn r Hsn Hr. eapply Forall2_lookup_lr in Hrs as (c & Hc & Hm & Hres); [|done..].
  exists c. split_and!; [done|done|]. intros Hleaf. rewrite bool_decide_eq_true_2 in Hres by done.
  destruct Hres as (a & Hla & Hr2). exists a. split; [done|]. rewrite Ha.
  apply foldl_insert_lookup; [done|]. apply list_elem_of_omap. exists r. split; [|done].
  by eapply list_elem_of_lookup_2.
Qed.

Lemma publish_storage_node_Ok sn d m d' : publish_storage_node sn d = (Ok m, d') → storage_published sn m.
Proof.
  intros (t & d1 & Ht & (c & d2 & ->%DagPut_Ok & [= <- _])%pub_bind_Ok)%pub_bind_Ok.
  unfold pub_lift in Ht. injection Ht as Ht <-. exists (tn_cid t).
  split; [by apply FromStorageTrieRLP_cid|done].
Qed.

Lemma publishStorageNodes_Ok nodes d cs d' path :
  range_storage nodes ≡ₚ map_to_list nodes → publishStorageNodes nodes d = (Ok cs, d') →
  Forall2 storage_published (default [] (nodes !! path)) (default [] (cs !! path)).
Proof.
  intros Hperm (ps & d1 & Hps & [= <- _])%pub_bind_Ok.
  apply (pub_collect_Forall2 _ (λ p q, q.1 = p.1 ∧ Forall2 storage_published p.2 q.2)) in Hps.
  2: { intros j q d0 r d2 (ms & d3 & Hms & [= <- _])%pub_bind_Ok. split; [done|]. simpl.
       by eapply pub_collect_Forall2, Hms; intros; eapply publish_storage_node_Ok. }
  assert (Hkeys : ps.*1 = (range_storage nodes).*1).
  { clear -Hps. induction Hps as [|p q l l' [Hk _] _ IH]; simpl; [done|]. by f_equal. }
  assert (Hnd : NoDup ps.*1) by (rewrite Hkeys, Hperm; apply NoDup_fst_map_to_list).
  destruct (nodes !! path) as [l|] eqn:El.
  - assert (Hin : (path, l) ∈ range_storage nodes) by (rewrite Hperm; by apply elem_of_map_to_list).
    apply list_elem_of_lookup in Hin as [j Hj].
    destruct (Forall2_lookup_l _ _ _ _ _ Hps Hj) as ([k ms] & Hq & Hk & Hms). simpl in *. subst k.
    rewrite (foldl_insert_lookup ps ∅ path ms); [done|done|by eapply list_elem_of_lookup_2].
  - rewrite foldl_insert_notin; [by rewrite lookup_empty|].
    rewrite Hkeys, Hperm. intros ([k l] & -> & Hin)%list_elem_of_fmap.
    apply elem_of_map_to_list in Hin. simpl in *. congruence.
Qed.

Lemma Publish_Ok p d cids d' :
  (∀ m, range_storage m ≡ₚ map_to_list m) → Publish p d = (Ok cids, d') →
  ∃ ns reward, FromBlockAndReceipts (p_Block p) (p_Receipts p) = Ok ns ∧
    CalcEthBlockReward (block_Header (p_Block p)) (block_Uncles (p_Block p))
      (block_Transactions (p_Block p)) (p_Receipts p) = Ok reward ∧
    published p ns reward cids.
Proof.
  intros Hperm (ns & d1 & Hns & (hc & d2 & ->%DagPut_Ok & (rw & d3 & Hrw & (us & d4 & Hus &
    (ts & d5 & Hts & (rs & d6 & Hrs & ([ss accts] & d7 & Hss & (sts & d8 & Hsts & [= <- _])
    %pub_bind_Ok)%pub_bind_Ok)%pub_bind_Ok)%pub_bind_Ok)%pub_bind_Ok)%pub_bind_Ok)%pub_bind_Ok)%pub_bind_Ok.
  unfold pub_lift in Hns, Hrw. injection Hns as Hns _. injection Hrw as Hrw _.
  exists ns, rw. split_and!; [done|done|]. split; simpl.
  - done.
  - eapply pub_collect_Forall2, Hus. by intros j un d0 u d9 (c & d10 & ->%DagPut_Ok & [= <- _])%pub_bind_Ok.
  - by eapply publishTransactions_Ok.
  - intros Hnd. by eapply publishReceipts_Ok.
  - intros Hnd. by eapply publishStateNodes_Ok.
  - intros path. by eapply publishStorageNodes_Ok.
Qed.

(** ** Lemmas: the two publishers, statement by statement *)

Lemma decode_account_leaf v a : decode_account v = Ok a → leaf_account v = Ok a.
Proof.
  unfold decode_account, leaf_account. destruct (rlp_items v) as [i|e|w]; simpl; [|done..].
  by destruct i as [|? [|[b|] [|]]].
Qed.

(** What the converter guarantees of a payload: receipts pair with the
    transactions, and neither hashes nor state paths repeat. *)
Record publishable (p : ConvertedPayload) : Prop := {
  pa_length : length (p_Receipts p) = length (block_Transactions (p_Block p));
  pa_hash : ∀ i m r, p_TxMetaData p !! i = Some m → p_Receipts p !! i = Some r →
    HexToHash (tx_TxHash m) = rct_TxHash r;
  pa_rcts : NoDup (map rct_TxHash (p_Receipts p));
  pa_paths : NoDup (map (λ sn, Bytes2Hex (n_Path sn)) (p_StateNodes p))
}.

Section Agree.
Context (nodeID : Z) (p : ConvertedPayload) (ns : BlockNodes) (reward : Z) (cids : CIDPayload).
Hypothesis Hp : publishable p.
Hypothesis Hns : FromBlockAndReceipts (p_Block p) (p_Receipts p) = Ok ns.
Hypothesis Hpub : published p ns reward cids.

(** The transaction, receipt and models at an index. *)
Lemma published_at i n : txNodes ns !! i = Some n → ∃ rn m t rm r,
  rctNodes ns !! i = Some rn ∧ p_TxMetaData p !! i = Some m ∧
  c_TransactionCIDs cids !! i = Some t ∧ same_tx m t (Cid n) ∧
  p_ReceiptMetaData p !! i = Some rm ∧
  c_ReceiptCIDs cids !! HexToHash (tx_TxHash t) = Some r ∧ same_rct rm r (Cid rn).
Proof.
  intros Hn. destruct (FromBlockAndReceipts_lengths _ _ _ Hns) as (L1 & L2 & _).
  pose proof (pa_length _ Hp) as L3. pose proof (lookup_lt_Some _ _ _ Hn) as Hi.
  destruct (proj2 (pb_txs _ _ _ _ Hpub) i n Hn) as (m & t & Hm & Ht & Hs).
  destruct (lookup_lt_is_Some_2 (rctNodes ns) i) as [rn Hrn]; [lia|].
  destruct (lookup_lt_is_Some_2 (p_Receipts p) i) as [r Hr]; [lia|].
  destruct (pb_rcts _ _ _ _ Hpub (pa_rcts _ Hp) i r rn Hr Hrn) as (rm & rc & Hrm & Hrc & Hsr).
  exists rn, m, t, rm, rc. split_and!; try done. rewrite Hs. simpl.
  by rewrite (pa_hash _ Hp i m r Hm Hr).
Qed.

Lemma agree_txs hid ts : ∀ i, ts = drop i (txNodes ns) →
  agree (publish_txs i p (rctNodes ns) hid ts)
    (db_for (λ trxCidMeta,
      txID <-- indexTransactionCID trxCidMeta hid ;;
      match c_ReceiptCIDs cids !! HexToHash (tx_TxHash trxCidMeta) with
      | Some receiptCidMeta => indexReceiptCID receiptCidMeta txID
      | None => db_ret tt
      end) (drop i (c_TransactionCIDs cids))).
Proof.
  induction ts as [|n ts IH]; intros i Hts.
  - rewrite drop_ge; [apply agree_ret|]. rewrite (proj1 (pb_txs _ _ _ _ Hpub)).
    symmetry in Hts. by apply drop_nil_inv in Hts.
  - assert (Hn : txNodes ns !! i = Some n).
    { rewrite <- (Nat.add_0_r i), <- lookup_drop, <- Hts. done. }
    destruct (published_at i n Hn) as (rn & m & t & rm & r & Hrn & Hm & Ht & -> & Hrm & Hr & ->).
    rewrite (drop_S _ _ _ Hn) in Hts. injection Hts as Hts.
    rewrite (drop_S _ _ _ Ht). cbn [db_for publish_txs].
    eapply agree_skip; [apply skips_shadow, skips_PublishIPLD|].
    eapply agree_skip; [by apply skips_index|].
    eapply agree_skip; [apply skips_shadow, skips_PublishIPLD|].
    eapply agree_skip; [by apply skips_index|].
    intros s1 s2 Hs. rewrite bind_assoc. revert s1 s2 Hs.
    eapply (agree_bind (A := Z)); [apply agree_shadow, (agree_indexTransactionCID (with_tx_CID m (Cid n)))|].
    intros txID. rewrite Hr.
    eapply agree_skip; [by apply skips_index|].
    apply agree_bind; [apply agree_shadow, (agree_indexReceiptCID (with_rct_CID rm (Cid rn)))|].
    intros _. by apply IH.
Qed.

Lemma agree_storages sid path :
  agree (db_for (λ storageNode,
      storageCIDStr <-- PublishRaw MEthStorageTrie KECCAK_256 (n_Value storageNode) ;;
      indexStorageCID (storage_model storageNode storageCIDStr) sid) (default [] (p_StorageNodes p !! path)))
    (db_for (λ m, indexStorageCID m sid) (default [] (c_StorageNodeCIDs cids !! path))).
Proof.
  apply agree_for. eapply Forall2_impl; [apply (pb_storages _ _ _ _ Hpub)|].
  intros sn m (c & Hc & ->). eapply agree_skip; [by apply skips_PublishRaw|].
  apply agree_indexStorageCID.
Qed.

Lemma agree_states hid :
  agree (publishAndIndexStateAndStorage p hid) (indexStateAndStorageCIDs cids hid).
Proof.
  apply agree_for. eapply Forall2_impl; [apply (pb_states _ _ _ _ Hpub), (pa_paths _ Hp)|].
  intros sn m (c & Hc & -> & Hleaf). eapply agree_skip; [by apply skips_PublishRaw|].
  apply agree_bind; [apply agree_indexStateCID|]. intros sid.
  cbn [s_NodeType s_Path state_model]. rewrite ResolveFromNodeType_leaf.
  case_bool_decide as Hl; [|apply agree_ret].
  destruct (Hleaf Hl) as (a & Ha & Hacc). rewrite Hacc.
  eapply agree_skip; [by apply skips_lift, decode_account_leaf|].
  eapply agree_trans; [|apply account_storages_agree].
  apply agree_bind; [apply agree_indexStateAccount|]. intros _. apply agree_storages.
Qed.

Lemma agree_bodies :
  CalcEthBlockReward (block_Header (p_Block p)) (block_Uncles (p_Block p))
    (block_Transactions (p_Block p)) (p_Receipts p) = Ok reward →
  agree (Publish_body nodeID p ns) (Index_body nodeID cids).
Proof.
  intros Hrw. unfold Publish_body, Index_body.
  eapply agree_skip; [apply skips_for; intros n; apply skips_shadow, skips_PublishIPLD|].
  eapply agree_skip; [apply skips_for; intros n; apply skips_shadow, skips_PublishIPLD|].
  eapply agree_skip; [apply skips_shadow, skips_PublishIPLD|].
  eapply agree_skip; [by apply skips_lift|].
  rewrite (pb_header _ _ _ _ Hpub).
  apply agree_bind; [apply agree_indexHeaderCID|]. intros hid.
  apply agree_bind.
  { apply agree_for. eapply Forall2_impl; [apply (pb_uncles _ _ _ _ Hpub)|]. intros un u ->.
    eapply agree_skip; [apply skips_shadow, skips_PublishIPLD|].
    apply agree_shadow, agree_shadow_r, agree_indexUncleCID. }
  intros _. apply agree_bind; [|intros _; apply agree_states].
  apply agree_shadow_r. apply (agree_txs hid (txNodes ns) 0). by rewrite drop_0.
Qed.

End Agree.

(** ** Properties *)

(** C5: publishing a converted block through the IPFS node and indexing the
    returned CIDs stores exactly the rows (ids and sequences included) that
    the single-transaction publisher stores, whatever the order in which the
    storage map is ranged over: outside public.blocks the two publishers are
    interchangeable. *)
Theorem publishers_agree nodeID p d cids d' s :
  (∀ m, range_storage m ≡ₚ map_to_list m) → publishable p →
  Publish p d = (Ok cids, d') →
  let '(r1, s1) := EthPublisher.Publish nodeID p no_faults s in
  let '(r2, s2) := EthDB.Index nodeID cids no_faults s in
  r1 = DOk tt ∧ r2 = DOk tt ∧ seqs s1 = seqs s2 ∧ no_blocks (tables s1) = no_blocks (tables s2).
Proof.
  intros Hperm Hp Hpub. destruct (Publish_Ok p d cids d' Hperm Hpub) as (ns & rw & Hns & Hrw & Hpd).
  unfold EthPublisher.Publish, db_bind, db_lift. rewrite Hns.
  apply agree_transact. by eapply agree_bodies.
Qed.

End Ipfs.

(** ** Witnesses

    A block with a transaction, its receipt, an uncle and a state leaf that
    owns two storage leaves; a DAG service that counts its nodes and reports
    the second one as a duplicate. *)

Section Witnesses.
#[local] Existing Instance Concrete.geth.
#[local] Existing Instance Concrete.cidlib.
#[local] Existing Instance EthPublisher.ex_trielib.
#[local] Existing Instance EthPublisher.ex_staterlp.

#[local] Instance ex_leaf_codec : NodeCodec := {|
  mh_Encode := λ h _, Ok h;
  NewCidV1 := λ codec h, Concrete.of_bits (encode (codec, h));
  Cid_Type := λ _, MEthStateTrie;
  EncodeBig := pretty;
  header_rlp := λ _, Err (Driver "rlp");
  tx_rlp := λ _, Err (Driver "rlp");
  receipt_rlp := λ _, Err (Driver "rlp");
  node_items := λ b, Ok [Some (hp_encode true [10; 11]); Some b];
  account_rlp := λ b, Ok (mkAccount 1 100 [5] [6])
|}.

#[local] Instance ex_dag : DagService := {|
  Dag := nat;
  dag_Add := λ _ n, (if (n =? 1)%nat then Err (Driver duplicateKeyErrorString) else Ok tt, S n)
|}.

Definition ex_leaf (path v : Z) : TrieNode :=
  {| n_Path := [path]; n_LeafKey := [2]; n_Value := [v]; n_Type := Leaf |}.

Definition ex_publishable : ConvertedPayload := {|
  p_TotalDifficulty := 11; p_Block := ex_block;
  p_TxMetaData := [{| tx_ID := 0; tx_HeaderID := 0; tx_Index := 0; tx_TxHash := Hash_String [7];
    tx_CID := ""; tx_Dst := ""; tx_Src := "a" |}];
  p_Receipts := [ex_rct];
  p_ReceiptMetaData := [{| r_ID := 0; r_TxID := 0; r_CID := ""; r_Contract := "";
    r_ContractHash := ""; r_LogContracts := []; r_Topic0s := []; r_Topic1s := [];
    r_Topic2s := []; r_Topic3s := [] |}];
  p_StateNodes := [ex_leaf 1 3];
  p_StorageNodes := {[ Bytes2Hex [1] := [ex_leaf 4 5; ex_leaf 6 7] ]} |}.

Lemma ex_publishable_ok : publishable ex_publishable.
Proof.
  split; [reflexivity| |simpl; apply NoDup_singleton..].
  intros [|[|i]] m r; [|done..]. intros [= <-] [= <-]. apply Concrete.dec_enc.
Qed.

Definition ex_dag0 : @Dag ex_dag := 0%nat.

Definition ex_cids : result CIDPayload := (Publish map_to_list ex_publishable ex_dag0).1.

Lemma publishers_agree_witness :
  ∃ cids, ex_cids = Ok cids ∧ c_StorageNodeCIDs cids ≠ ∅ ∧
  let '(r1, s1) := EthPublisher.Publish 1 ex_publishable no_faults ex_session in
  let '(r2, s2) := EthDB.Index 1 cids no_faults ex_session in
  r1 = DOk tt ∧ r2 = DOk tt ∧ seqs s1 = seqs s2 ∧ no_blocks (tables s1) = no_blocks (tables s2).
Proof.
  destruct ex_cids as [cids|e|w] eqn:E; [|vm_compute in E; discriminate E..].
  exists cids. split; [reflexivity|]. split; [intros Hc; vm_compute in E; injection E as <-; vm_compute in Hc; discriminate Hc|].
  apply (publishers_agree map_to_list 1 ex_publishable ex_dag0 cids
    (Publish map_to_list ex_publishable ex_dag0).2 ex_session (λ m, reflexivity _) ex_publishable_ok).
  rewrite <- E. unfold ex_cids. destruct (Publish _ _ _); reflexivity.
Defined.

End Witnesses.
