(* ===== verification/StorageDecode.v ===== *)
(** * Storage diffs and their decoding (libraries/shared/storage/utils)

    Types of storage values and their metadata (value.go), decoding of a
    32-byte slot (decoder.go), storage keys (keys_loader.go, keys_lookup.go)
    and storage diffs (diff.go, errors.go).  A slot may pack several values,
    the first at its right end. *)

From S2P Require Import Prelude GoInt Decimal Geth.

(** ** value.go *)

Inductive ValueType : Type :=
| Uint256 | Uint48 | Uint128 | Bytes32 | Address | PackedSlot
| OtherType (n : Z).

#[export] Instance ValueType_eq_dec : EqDecision ValueType.
Proof. solve_decision. Defined.

Record StorageValueMetadata : Type := mkMetadata {
  sv_Name : string;
  sv_Keys : gmap string string;
  sv_Type : ValueType;
  sv_PackedNames : option (gmap Z string);
  sv_PackedTypes : option (gmap Z ValueType)
}.

(** A nil map is [None]. *)
Definition assertPackedSlotArgs (valueType : ValueType) (packedNames : option (gmap Z string))
    (packedTypes : option (gmap Z ValueType)) : result unit :=
  let isnil {A} (m : option A) := bool_decide (is_Some m → False) in
  if bool_decide (valueType = PackedSlot) && (isnil packedTypes || isnil packedNames)
  then Panic "ValueType is PackedSlot. Expected PackedNames and PackedTypes to not be nil"
  else if negb (isnil packedNames) && negb (isnil packedTypes) && negb (bool_decide (valueType = PackedSlot))
  then Panic "PackedNames and PackedTypes passed in. Expected ValueType to equal PackedSlot"
  else Ok tt.

Definition getMetadata (name : string) (keys : gmap string string) (valueType : ValueType)
    (packedNames : option (gmap Z string)) (packedTypes : option (gmap Z ValueType))
    : result StorageValueMetadata :=
  _ <-! assertPackedSlotArgs valueType packedNames packedTypes ;;
  Ok (mkMetadata name keys valueType packedNames packedTypes).

Definition GetStorageValueMetadata (name : string) (keys : gmap string string)
    (valueType : ValueType) : result StorageValueMetadata :=
  getMetadata name keys valueType None None.

Definition GetStorageValueMetadataForPackedSlot (name : string) (keys : gmap string string)
    (valueType : ValueType) (packedNames : option (gmap Z string))
    (packedTypes : option (gmap Z ValueType)) : result StorageValueMetadata :=
  getMetadata name keys valueType packedNames packedTypes.

(** ** diff.go *)

Record StorageDiffInput : Type := mkDiffInput {
  HashedAddress : bytes;
  d_BlockHash : bytes;
  d_BlockHeight : Z;
  StorageKey : bytes;
  StorageValue : bytes
}.

#[export] Instance StorageDiffInput_eq_dec : EqDecision StorageDiffInput.
Proof. solve_decision. Defined.

Record PersistedStorageDiff : Type := mkPersisted {
  pd_Input : StorageDiffInput;
  pd_ID : Z
}.

#[export] Instance PersistedStorageDiff_eq_dec : EqDecision PersistedStorageDiff.
Proof. solve_decision. Defined.

Definition ToPersistedDiff (raw : StorageDiffInput) (id : Z) : PersistedStorageDiff :=
  mkPersisted raw id.

(** ** errors.go: typed errors, by the text of their [Error] method *)

Definition ErrRowMalformed (length : nat) : error :=
  Errorf ("storage row malformed: length " +:+ pretty length +:+ ", expected 5").
Definition ErrStorageKeyNotFound (key : string) : error :=
  Errorf ("unknown storage key: " +:+ key).

(** Parameters: the rest of go-ethereum that storage diffs go through.  A state
    diff decodes to a block hash, a block number and its accounts, an account
    to its leaf key and the leaf keys and RLP values of its storage nodes. *)
Record StateNode_ : Type := mkStateNode {
  sn_LeafKey : bytes;
  sn_StorageNodes : list (bytes * bytes)
}.

Record StateObject : Type := mkStateObject {
  so_BlockNumber : option Z;                (* nil when decoding stopped before it *)
  so_BlockHash : bytes;
  so_Nodes : list StateNode_
}.

Class StateDiffLib := {
  BytesToAddress : bytes → bytes;           (* common.BytesToAddress(b).Bytes() *)
  rlp_bytes : bytes → result bytes;         (* rlp.DecodeBytes into []byte *)
  rlp_StateObject : bytes → StateObject * option error  (* what was decoded before an error *)
}.

(** [common.BytesToHash] and [BytesToAddress]: the last [n] bytes, left-padded. *)
Definition SetBytes (n : nat) (b : bytes) : bytes :=
  replicate (n - length b) 0 ++ drop (length b - n) b.

Class StateDiffLaws `{GethCommon} `{StateDiffLib} := {
  BytesToHash_SetBytes : ∀ b, BytesToHash b = SetBytes 32 b;
  BytesToAddress_SetBytes : ∀ b, BytesToAddress b = SetBytes 20 b
}.

(** ** Byte strings as big-endian numbers: big.Int.SetBytes and Bytes *)

Definition be_combine (b : bytes) : Z := foldl (λ n x, n * 256 + x) 0 b.

Fixpoint be_split (n : nat) (z : Z) : bytes :=
  match n with
  | O => []
  | S n => be_split n (z / 256) ++ [z mod 256]
  end.

(** The number of bytes of a non-negative number, without leading zeros. *)
Definition be_length (z : Z) : nat :=
  if z =? 0 then 0%nat else Z.to_nat (Z.log2 z / 8 + 1).

(** [big.Int.Bytes]: the absolute value. *)
Definition big_Bytes (z : Z) : bytes := be_split (be_length (Z.abs z)) (Z.abs z).

Section Decoder.
Context `{GethCommon} `{StateDiffLib}.

(** ** decoder.go *)

Definition decodeInteger (raw : bytes) : string := pretty (be_combine raw).

Definition decodeAddress (raw : bytes) : string := Address_Hex (BytesToAddress raw).

Definition getNumberOfBytes (valueType : ValueType) : result Z :=
  match valueType with
  | Uint48 => Ok (48 / 8)
  | Uint128 => Ok (128 / 8)
  | Address => Ok 20
  | _ => Panic "ValueType not recognized"
  end.

Definition decodeIndividualItem (itemBytes : bytes) (valueType : ValueType) : result string :=
  match valueType with
  | Uint48 | Uint128 => Ok (decodeInteger itemBytes)
  | Address => Ok (decodeAddress itemBytes)
  | _ => Panic "can't decode unknown type"
  end.

(** The loop from [position] with [n] types to go; a missing type is the zero
    value of [ValueType]. *)
Fixpoint packed_loop (n : nat) (position : Z) (packedTypes : gmap Z ValueType)
    (storageSlotData : bytes) (items : gmap Z string) : result (gmap Z string) :=
  match n with
  | O => Ok items
  | S n =>
      let itemType := default Uint256 (packedTypes !! position) in
      lengthOfItem <-! getNumberOfBytes itemType ;;
      let itemStartingIndex := Z.of_nat (length storageSlotData) - lengthOfItem in
      if itemStartingIndex <? 0 then Panic "slice bounds out of range"
      else
        let k := Z.to_nat itemStartingIndex in
        decodedValue <-! decodeIndividualItem (drop k storageSlotData) itemType ;;
        packed_loop n (position + 1) packedTypes (take k storageSlotData)
          (<[position := decodedValue]> items)
  end.

Definition decodePackedSlot (raw : bytes) (packedTypes : gmap Z ValueType)
    : result (gmap Z string) :=
  packed_loop (size packedTypes) 0 packedTypes raw ∅.

(** The dynamic types of a decoded value. *)
Inductive decoded : Type :=
| VString (s : string)
| VPacked (m : gmap Z string).

Definition Decode (diff : PersistedStorageDiff) (metadata : StorageValueMetadata)
    : result decoded :=
  let value := StorageValue (pd_Input diff) in
  match sv_Type metadata with
  | Uint256 | Uint48 | Uint128 => Ok (VString (decodeInteger value))
  | Address => Ok (VString (decodeAddress value))
  | Bytes32 => Ok (VString (Hash_String value))
  | PackedSlot =>
      m <-! decodePackedSlot value (default ∅ (sv_PackedTypes metadata)) ;; Ok (VPacked m)
  | OtherType _ => Panic "can't decode unknown type"
  end.

(** ** keys_loader.go *)

Definition GetStorageKeyForMapping (indexOnContract key : string) : bytes :=
  Keccak256Hash (FromHex (key +:+ indexOnContract)).

Definition GetStorageKeyForNestedMapping (indexOnContract primaryKey secondaryKey : string) : bytes :=
  let primaryMappingIndex := Keccak256Hash (FromHex (primaryKey +:+ indexOnContract)) in
  Keccak256Hash (FromHex secondaryKey ++ primaryMappingIndex).

Definition GetIncrementedStorageKey (original : bytes) (incrementBy : Z) : bytes :=
  BytesToHash (big_Bytes (be_combine original + incrementBy)).

(** ** keys_lookup.go *)

Definition hashKey (key : bytes) : bytes := Keccak256Hash key.

(** [range_map] is the order in which Go ranges over the copied map. *)
Definition AddHashedKeys (range_map : gmap bytes StorageValueMetadata → list (bytes * StorageValueMetadata))
    (currentMappings : gmap bytes StorageValueMetadata) : gmap bytes StorageValueMetadata :=
  foldl (λ m kv, <[hashKey kv.1 := kv.2]> m) currentMappings (range_map currentMappings).

(** ** diff.go, continued *)

Definition HexToKeccak256Hash (hex : string) : bytes := Keccak256Hash (FromHex hex).

Definition FromGethStateDiff (account : StateNode_) (stateDiff : StateObject)
    (storage : bytes * bytes) : result StorageDiffInput :=
  decodedValue <-! rlp_bytes storage.2 ;;
  match so_BlockNumber stateDiff with
  | Some number =>
      Ok (mkDiffInput (BytesToHash (sn_LeafKey account)) (so_BlockHash stateDiff)
            (i64 number) (BytesToHash storage.1) (BytesToHash decodedValue))
  | None => Panic "invalid memory address or nil pointer dereference"
  end.

Definition GetAccountsFromDiff (stateDiff : StateObject) : list StateNode_ := so_Nodes stateDiff.

Definition FromParityCsvRow (csvRow : list string) : result StorageDiffInput :=
  match csvRow with
  | [a; bh; h; k; v] =>
      height <-! Atoi h ;;
      Ok (mkDiffInput (HexToKeccak256Hash a) (HexToHash bh) height (HexToHash k) (HexToHash v))
  | _ => Err (ErrRowMalformed (length csvRow))
  end.

#[local] Coercion Z.of_nat : nat >-> Z.

(** ** The layout a packed slot has

    Item [0] ends at the right end of the slot, each further item where the
    previous one begins. *)

Definition packed_width (ty : ValueType) : nat :=
  match ty with Uint48 => 6 | Uint128 => 16 | Address => 20 | _ => 0 end.

Definition packable (ty : ValueType) : bool :=
  match ty with Uint48 | Uint128 | Address => true | _ => false end.

Definition encode_item (item : ValueType * Z) : bytes := be_split (packed_width item.1) item.2.

Definition encode_items (items : list (ValueType * Z)) : bytes :=
  concat (rev (map encode_item items)).

Definition total_width (types : list ValueType) : nat := sum_list (map packed_width types).

(** Positions [0 .. n-1]. *)
Definition positions (types : list ValueType) : gmap Z ValueType :=
  list_to_map (zip (seqZ 0 (length types)) types).

(** What is shown of an item. *)
Definition show_item (item : ValueType * Z) : string :=
  match item.1 with
  | Address => Address_Hex (be_split 20 item.2)
  | _ => pretty item.2
  end.

Definition fits (item : ValueType * Z) : Prop :=
  packable item.1 = true ∧ 0 ≤ item.2 < 256 ^ packed_width item.1.

(** ** Lemmas: big-endian numbers *)

Lemma be_foldl b : ∀ n, foldl (λ n x, n * 256 + x) n b = n * 256 ^ length b + be_combine b.
Proof.
  unfold be_combine. induction b as [|x b IH]; intros n; cbn [foldl length]; [lia|].
  rewrite (IH (n * 256 + x)), (IH (0 * 256 + x)). rewrite Nat2Z.inj_succ, Z.pow_succ_r by lia. ring.
Qed.

Lemma be_combine_app a b : be_combine (a ++ b) = be_combine a * 256 ^ length b + be_combine b.
Proof. unfold be_combine at 1. by rewrite foldl_app, be_foldl. Qed.

Lemma be_split_length n : ∀ z, length (be_split n z) = n.
Proof. induction n as [|n IH]; intros z; simpl; [done|]. rewrite length_app, IH. simpl. lia. Qed.

Lemma be_combine_split (n : nat) : ∀ z, be_combine (be_split n z) = z mod 256 ^ n.
Proof.
  induction n as [|n IH]; intros z; [by rewrite Z.mod_1_r|].
  cbn [be_split]. rewrite be_combine_app, IH. unfold be_combine. cbn [foldl length].
  rewrite (Nat2Z.inj_succ n), Z.pow_succ_r, Z.rem_mul_r by lia. lia.
Qed.

Lemma be_combine_zeros n b : be_combine (replicate n 0 ++ b) = be_combine b.
Proof.
  rewrite be_combine_app. assert (Hz : be_combine (replicate n 0) = 0); [|by rewrite Hz].
  induction n as [|n IH]; [done|]. unfold be_combine in *. simpl. exact IH.
Qed.

(** Two splits of one number agree on their common low bytes. *)
Lemma be_split_drop n k : ∀ z, drop k (be_split (k + n) z) = be_split n z.
Proof.
  induction n as [|n IH]; intros z.
  - rewrite Nat.add_0_r. apply drop_ge. by rewrite be_split_length.
  - rewrite Nat.add_succ_r. cbn [be_split].
    rewrite drop_app_le by (rewrite be_split_length; lia). by rewrite IH.
Qed.

Lemma be_split_small (n : nat) : ∀ z, 0 ≤ z → z < 256 ^ n → ∀ k, be_split (k + n) z = replicate k 0 ++ be_split n z.
Proof.
  induction n as [|n IH]; intros z Hz Hlt k.
  - assert (z = 0) as -> by (change (256 ^ 0%nat) with 1 in Hlt; lia).
    rewrite Nat.add_0_r, app_nil_r. induction k as [|k IHk]; [done|]. cbn [be_split].
    rewrite Z.div_0_l, Z.mod_0_l, IHk by lia. by rewrite <- replicate_cons_app.
  - rewrite Nat.add_succ_r. cbn [be_split]. rewrite IH; [by rewrite app_assoc|by apply Z.div_pos|].
    apply Z.div_lt_upper_bound; [lia|]. by rewrite <- Z.pow_succ_r, <- Nat2Z.inj_succ by lia.
Qed.

Lemma be_length_bound z : 0 ≤ z → z < 256 ^ be_length z.
Proof.
  intros Hz. unfold be_length. destruct (Z.eqb_spec z 0) as [->|Hnz]; [done|].
  assert (Hl : 0 ≤ Z.log2 z) by apply Z.log2_nonneg.
  rewrite Z2Nat.id by (apply Z.add_nonneg_nonneg; [apply Z.div_pos|]; lia).
  change 256 with (2 ^ 8). rewrite <- Z.pow_mul_r by (try apply Z.add_nonneg_nonneg; try apply Z.div_pos; lia).
  apply Z.log2_lt_pow2; [lia|]. pose proof (Z.mod_pos_bound (Z.log2 z) 8). pose proof (Z.div_mod (Z.log2 z) 8). lia.
Qed.

(** Setting a fixed number of bytes from a number's minimal bytes wraps it. *)
Lemma SetBytes_big_Bytes n z : SetBytes n (big_Bytes z) = be_split n (Z.abs z).
Proof.
  unfold SetBytes, big_Bytes. rewrite be_split_length. set (k := be_length (Z.abs z)).
  destruct (Nat.le_gt_cases n k) as [Hle|Hgt].
  - replace (n - k)%nat with 0%nat by lia. simpl.
    replace k with ((k - n) + n)%nat at 2 by lia. apply be_split_drop.
  - rewrite (proj2 (Nat.sub_0_le k n)) by lia. rewrite drop_0.
    replace n with ((n - k) + k)%nat at 2 by lia. symmetry. apply be_split_small; [lia|].
    apply be_length_bound. lia.
Qed.

(** ** Lemmas: packed slots *)

Lemma encode_items_cons it items : encode_items (it :: items) = encode_items items ++ encode_item it.
Proof. unfold encode_items. simpl. rewrite concat_app. simpl. by rewrite app_nil_r. Qed.

Lemma positions_lookup types (i : nat) : positions types !! Z.of_nat i = types !! i.
Proof.
  unfold positions. apply option_eq. intros ty.
  rewrite <- elem_of_list_to_map by (rewrite fst_zip by (by rewrite length_seqZ, Nat2Z.id); apply NoDup_seqZ).
  rewrite list_elem_of_lookup. split.
  - intros (j & (x & y & [= <- <-] & Hx & Hy)%lookup_zip_with_Some).
    apply lookup_seqZ in Hx as [Hx _]. assert (i = j) as -> by lia. exact Hy.
  - intros Hi. exists i. apply lookup_zip_with_Some. exists (Z.of_nat i), ty. split_and!; [done| |done].
    apply lookup_seqZ. apply lookup_lt_Some in Hi. lia.
Qed.

Lemma positions_size types : size (positions types) = length types.
Proof.
  unfold positions. rewrite map_size_list_to_map.
  - rewrite length_zip_with, length_seqZ, Nat2Z.id. lia.
  - rewrite fst_zip by (by rewrite length_seqZ, Nat2Z.id). apply NoDup_seqZ.
Qed.

(** The type at a position of a contiguous map, in the rest of the list. *)
Lemma positions_drop types pos ty l :
  drop pos types = ty :: l → positions types !! Z.of_nat pos = Some ty ∧ drop (S pos) types = l.
Proof.
  intros Hd. rewrite positions_lookup. split.
  - by rewrite <- (Nat.add_0_r pos), <- lookup_drop, Hd.
  - by rewrite <- (drop_drop types 1 pos), Nat.add_comm, Hd || (rewrite (Nat.add_comm 1), <- drop_drop, Hd).
Qed.

Lemma getNumberOfBytes_packable ty :
  getNumberOfBytes ty = if packable ty then Ok (Z.of_nat (packed_width ty)) else Panic "ValueType not recognized".
Proof. by destruct ty. Qed.

Lemma decodeIndividualItem_packable raw ty : packable ty = true → is_ok (decodeIndividualItem raw ty) = true.
Proof. by destruct ty. Qed.

(** The loop succeeds exactly when the remaining types are packable and fit. *)
Lemma packed_loop_defined types l : ∀ pos raw acc, drop pos types = l →
  match packed_loop (length l) (Z.of_nat pos) (positions types) raw acc with
  | Ok m => forallb packable l = true ∧ (total_width l ≤ length raw)%nat ∧
            dom m = dom acc ∪ list_to_set (seqZ pos (length l))
  | Err _ => False
  | Panic _ => ¬ (forallb packable l = true ∧ (total_width l ≤ length raw)%nat)
  end.
Proof.
  induction l as [|ty l IH]; intros pos raw acc Hd.
  - simpl. split_and!; [done|unfold total_width; simpl; lia|set_solver].
  - apply positions_drop in Hd as [Hty Hd]. cbn [length packed_loop]. rewrite Hty. change (default Uint256 (Some ty)) with ty.
    rewrite getNumberOfBytes_packable. cbn [forallb]. unfold total_width in *. cbn [map sum_list id].
    destruct (packable ty) eqn:Hp; cbn [rbind];
      [|by intros [? _]].
    destruct (Z.ltb_spec (length raw - packed_width ty) 0) as [Hlt|Hge]; [simpl; lia|].
    assert (Hok := decodeIndividualItem_packable (drop (Z.to_nat (length raw - packed_width ty)) raw) ty Hp).
    destruct (decodeIndividualItem _ ty) as [v| |]; [|done..]. cbn [rbind]. clear Hok.
    specialize (IH (S pos) (take (Z.to_nat (length raw - packed_width ty)) raw) (<[pos : Z:=v]> acc) Hd).
    rewrite Nat2Z.inj_succ in IH. unfold Z.succ in IH.
    rewrite length_take in IH.
    destruct (packed_loop _ _ _ _ _) as [m| |]; [|done|simpl; intros [? ?]; apply IH; split; [done|lia]].
    destruct IH as (H1 & H2 & H3). split_and!; [done|simpl; lia|].
    rewrite H3, dom_insert_L, (seqZ_cons pos (S (length l))) by lia. simpl.
    replace (Z.succ pos) with (pos + 1) by lia. replace (Z.pred (S (length l))) with (Z.of_nat (length l)) by lia.
    set_solver.
Qed.

(** Decoding the encoded items returns what is shown of them. *)
Lemma packed_loop_encoded types (items : list (ValueType * Z)) : ∀ pos pre acc,
  (∀ b, length b = 20%nat → BytesToAddress b = b) →
  Forall fits items → drop pos types = items.*1 →
  ∃ m, packed_loop (length items) (Z.of_nat pos) (positions types) (pre ++ encode_items items) acc = Ok m ∧
    (∀ i : nat, (i < pos)%nat → m !! Z.of_nat i = acc !! Z.of_nat i) ∧
    ∀ (i : nat) it, items !! i = Some it → m !! Z.of_nat (pos + i) = Some (show_item it).
Proof.
  induction items as [|[ty v] items IH]; intros pos pre acc Haddr Hfits Hd.
  - exists acc. split_and!; [done|done|]. intros i it. by rewrite lookup_nil.
  - apply Forall_cons in Hfits as [[Hp Hv] Hfits]. simpl in Hp, Hv.
    change (((ty, v) :: items).*1) with (ty :: items.*1) in Hd.
    apply positions_drop in Hd as [Hty Hd]. cbn [length packed_loop]. rewrite Hty. change (default Uint256 (Some ty)) with ty.
    rewrite getNumberOfBytes_packable, Hp. cbn [rbind].
    rewrite encode_items_cons, app_assoc, length_app.
    rewrite (be_split_length (packed_width ty) v : length (encode_item (ty, v)) = packed_width ty).
    destruct (Z.ltb_spec ((length (pre ++ encode_items items) + packed_width ty)%nat - packed_width ty) 0); [lia|].
    replace (Z.to_nat _) with (length (pre ++ encode_items items)) by (simpl; lia).
    rewrite drop_app_length, take_app_length.
    assert (Hshow : decodeIndividualItem (encode_item (ty, v)) ty = Ok (show_item (ty, v))).
    { unfold encode_item, show_item.
      destruct ty; try done; cbn [decodeIndividualItem fst snd]; unfold decodeInteger, decodeAddress; f_equal.
      - by rewrite be_combine_split, Z.mod_small.
      - by rewrite be_combine_split, Z.mod_small.
      - by rewrite Haddr by apply (be_split_length 20). }
    rewrite Hshow. cbn [rbind].
    destruct (IH (S pos) pre (<[pos : Z:=show_item (ty, v)]> acc) Haddr Hfits Hd) as (m & Hm & Hold & Hnew).
    exists m. rewrite Nat2Z.inj_succ in Hm. split_and!; [exact Hm| |].
    + intros i Hi. rewrite Hold by lia. apply lookup_insert_ne. lia.
    + intros [|i] it Hit; simpl in Hit.
      * injection Hit as <-. rewrite Nat.add_0_r, Hold by lia. apply lookup_insert_eq.
      * rewrite <- Nat.add_succ_comm. by apply Hnew.
Qed.

Lemma SetBytes_exact n b : length b = n → SetBytes n b = b.
Proof. intros <-. unfold SetBytes. by rewrite Nat.sub_diag, drop_0. Qed.

(** ** Lemmas: maps of hashed keys *)

Lemma foldl_hashed_notin (l : list (bytes * StorageValueMetadata)) : ∀ (m : gmap bytes StorageValueMetadata) k,
  (∀ kv, kv ∈ l → hashKey kv.1 ≠ k) →
  foldl (λ m kv, <[hashKey kv.1 := kv.2]> m) m l !! k = m !! k.
Proof.
  induction l as [|kv l IH]; intros m k Hk; simpl; [done|].
  rewrite IH by (intros; apply Hk; by right). apply lookup_insert_ne, Hk. by left.
Qed.

Lemma foldl_hashed_in (l : list (bytes * StorageValueMetadata)) : ∀ (m : gmap bytes StorageValueMetadata) kv,
  NoDup (map (λ kv, hashKey kv.1) l) → kv ∈ l →
  foldl (λ m kv, <[hashKey kv.1 := kv.2]> m) m l !! hashKey kv.1 = Some kv.2.
Proof.
  induction l as [|x l IH]; intros m kv Hnd Hin; simpl in *; [by apply elem_of_nil in Hin|].
  apply NoDup_cons in Hnd as [Hx Hnd]. apply elem_of_cons in Hin as [->|Hin]; [|by apply IH].
  rewrite foldl_hashed_notin; [apply lookup_insert_eq|].
  intros y Hy Heq. apply Hx. rewrite <- Heq. apply list_elem_of_In, in_map_iff. exists y.
  by split; [|apply list_elem_of_In].
Qed.

(** No two keys of [m] have the same Keccak hash. *)
Definition no_collision (m : gmap bytes StorageValueMetadata) : Prop :=
  ∀ k1 k2, is_Some (m !! k1) → is_Some (m !! k2) → hashKey k1 = hashKey k2 → k1 = k2.

(** The key and its hash are both found, hashes first. *)
Lemma AddHashedKeys_lookup range_map m :
  range_map m ≡ₚ map_to_list m → no_collision m →
  (∀ k v, m !! k = Some v → AddHashedKeys range_map m !! hashKey k = Some v) ∧
  (∀ k, (∀ k', is_Some (m !! k') → hashKey k' ≠ k) → AddHashedKeys range_map m !! k = m !! k).
Proof.
  intros Hp Hc. unfold AddHashedKeys. split.
  - intros k v Hk. apply (foldl_hashed_in _ _ (k, v)).
    + rewrite Hp.
      assert (Hnd : NoDup (map_to_list m).*1) by apply NoDup_fst_map_to_list.
      assert (Hmem : ∀ kv, kv ∈ map_to_list m → is_Some (m !! kv.1)).
      { intros [k' v'] Hin%elem_of_map_to_list. by eexists. }
      clear Hp. induction (map_to_list m) as [|kv l IH]; simpl; [constructor|].
      apply NoDup_cons in Hnd as [Hn Hnd]. constructor; [|apply IH; [done|set_solver]].
      intros (kv' & Heq & Hin)%list_elem_of_fmap. apply Hn. apply list_elem_of_fmap. exists kv'.
      split; [|done]. apply Hc; [apply Hmem; by left|apply Hmem; by right|done].
    + rewrite Hp. by apply elem_of_map_to_list.
  - intros k Hk. apply foldl_hashed_notin. intros [k' v'] Hin. simpl. apply Hk.
    rewrite Hp in Hin. apply elem_of_map_to_list in Hin. by eexists.
Qed.

(** ** Properties *)

(** C23: items that fit their types, packed from the right end of a 32-byte
    slot, decode to themselves: integers to their decimal numerals, addresses
    to their hexadecimal form, at every position and nowhere else. *)
Theorem packed_slot_roundtrip `{!StateDiffLaws} (items : list (ValueType * Z)) :
  Forall fits items → (total_width items.*1 ≤ 32)%nat →
  let slot := replicate (32 - total_width items.*1) 0 ++ encode_items items in
  length slot = 32%nat ∧
  ∃ m, decodePackedSlot slot (positions items.*1) = Ok m ∧
    ∀ i : nat, m !! Z.of_nat i = show_item <$> items !! i.
Proof.
  intros Hfits Hw slot.
  assert (Hlen : ∀ l : list (ValueType * Z), length (encode_items l) = total_width l.*1).
  { induction l as [|it l IH]; [done|]. rewrite encode_items_cons, length_app, IH.
    unfold encode_item. rewrite be_split_length.
    change (total_width (it :: l).*1) with (packed_width it.1 + total_width l.*1)%nat. lia. }
  split; [unfold slot; rewrite length_app, length_replicate, Hlen; lia|].
  destruct (packed_loop_encoded items.*1 items 0 (replicate (32 - total_width items.*1) 0) ∅)
    as (m & Hm & _ & Hnew); [|done|by rewrite drop_0|].
  { intros b Hb. rewrite BytesToAddress_SetBytes. by apply SetBytes_exact. }
  pose proof (packed_loop_defined items.*1 items.*1 0 slot ∅ (drop_0 _)) as Hdef.
  rewrite length_fmap in Hdef. unfold slot in Hdef. rewrite Hm in Hdef. destruct Hdef as (_ & _ & Hdom).
  exists m. split; [unfold decodePackedSlot; by rewrite positions_size, length_fmap|].
  intros i. destruct (items !! i) as [it|] eqn:Hi; [exact (Hnew i it Hi)|].
  apply lookup_ge_None in Hi. simpl. apply not_elem_of_dom. rewrite Hdom, dom_empty_L.
  intros [[]%elem_of_empty|Hin]%elem_of_union. apply elem_of_list_to_set, elem_of_seqZ in Hin. lia.
Qed.

(** A packed slot decodes, to one value per type, exactly when every type
    is an address or an integer narrower than the slot and the types fit the
    slot together; otherwise decoding panics.  It never returns an error. *)
Theorem decodePackedSlot_defined raw types :
  match decodePackedSlot raw (positions types) with
  | Ok m => forallb packable types = true ∧ (total_width types ≤ length raw)%nat ∧
            dom m = list_to_set (seqZ 0 (length types))
  | Err _ => False
  | Panic _ => ¬ (forallb packable types = true ∧ (total_width types ≤ length raw)%nat)
  end.
Proof.
  pose proof (packed_loop_defined types types 0 raw ∅ (drop_0 _)) as Hd.
  unfold decodePackedSlot. rewrite positions_size. change (Z.of_nat 0) with 0 in Hd.
  destruct (packed_loop _ _ _ _ _); [|done|done]. by rewrite dom_empty_L, union_empty_l_L in Hd.
Qed.

(** A storage key incremented by [n] is the key plus [n] modulo 2^256 in 32
    bytes, so increments add up; a sum below zero, which needs a negative
    increment, loses its sign instead of wrapping. *)
Theorem GetIncrementedStorageKey_wraps `{!StateDiffLaws} original a b :
  length (GetIncrementedStorageKey original a) = 32%nat ∧
  be_combine (GetIncrementedStorageKey original a) = Z.abs (be_combine original + a) mod 2 ^ 256 ∧
  (0 ≤ be_combine original → 0 ≤ a → 0 ≤ b →
   GetIncrementedStorageKey (GetIncrementedStorageKey original a) b =
   GetIncrementedStorageKey original (a + b)).
Proof.
  unfold GetIncrementedStorageKey. rewrite !BytesToHash_SetBytes, !SetBytes_big_Bytes.
  assert (Hmod : ∀ z, be_split 32 (z mod 2 ^ 256) = be_split 32 z).
  { intros z. rewrite <- (Z.mod_small (z mod 2 ^ 256) (2 ^ 256)) at 1 by (apply Z.mod_pos_bound; lia).
    enough (Hgen : ∀ (n : nat) z, be_split n (z mod 256 ^ n) = be_split n z).
    { change (2 ^ 256) with (256 ^ 32%nat). by rewrite !Hgen. }
    clear. induction n as [|n IH]; intros z; [done|]. cbn [be_split].
    rewrite Nat2Z.inj_succ, Z.pow_succ_r, Z.rem_mul_r by lia.
    rewrite (Z.mul_comm 256 ((z / 256) mod 256 ^ n)), Z_div_plus by lia.
    rewrite (Z.div_small (z mod 256)), Z.add_0_l, IH by (apply Z.mod_pos_bound; lia).
    by rewrite Z_mod_plus_full, Z.mod_mod by lia. }
  split_and!; [apply be_split_length|by rewrite be_combine_split|].
  intros Ho Ha Hb. rewrite be_combine_split. change (256 ^ 32%nat) with (2 ^ 256).
  assert (0 ≤ Z.abs (be_combine original + a) mod 2 ^ 256) by (apply Z.mod_pos_bound; lia).
  rewrite !Z.abs_eq by lia. rewrite <- Hmod, Zplus_mod_idemp_l, Hmod. f_equal. lia.
Qed.

End Decoder.

(** ** Witnesses *)

Section Witnesses.
#[local] Existing Instance Concrete.geth.

(** go-ethereum's fixed-width conversions, the rest as in [Concrete]. *)
#[local] Instance ex_geth : GethCommon := {|
  Keccak256Hash := Keccak256Hash; HexToAddress := HexToAddress; HexToHash := HexToHash;
  FromHex := FromHex; BytesToHash := SetBytes 32; Hash_String := Hash_String;
  Address_Hex := Address_Hex; Bytes2Hex := Bytes2Hex |}.

#[local] Instance ex_statediff : StateDiffLib := {|
  BytesToAddress := SetBytes 20; rlp_bytes := Ok;
  rlp_StateObject := λ _, (mkStateObject None [] [], Some (Driver "rlp")) |}.

#[local] Instance ex_laws : @StateDiffLaws ex_geth ex_statediff.
Proof. by split. Qed.

Definition ex_items : list (ValueType * Z) := [(Uint48, 2 ^ 48 - 1); (Address, 7); (Uint48, 5)].

Lemma ex_items_fit : Forall fits ex_items.
Proof. repeat constructor; simpl; lia. Qed.

Lemma packed_slot_roundtrip_witness :
  (total_width ex_items.*1 ≤ 32)%nat ∧
  ∃ m, decodePackedSlot (replicate (32 - total_width ex_items.*1) 0 ++ encode_items ex_items)
      (positions ex_items.*1) = Ok m ∧ m !! 0 = Some "281474976710655" ∧ m !! 2 = Some "5".
Proof.
  split; [vm_compute; lia|].
  destruct (packed_slot_roundtrip ex_items ex_items_fit ltac:(vm_compute; lia)) as (_ & m & Hm & Hl).
  exists m. split; [exact Hm|]. split; [exact (Hl 0%nat)|exact (Hl 2%nat)].
Defined.

Lemma GetIncrementedStorageKey_wraps_witness :
  GetIncrementedStorageKey (GetIncrementedStorageKey [1; 255] 3) 4 = GetIncrementedStorageKey [1; 255] (3 + 4).
Proof.
  apply (GetIncrementedStorageKey_wraps [1; 255] 3 4); vm_compute; discriminate.
Defined.

End Witnesses.
