(* ===== verification/StorageSync.v ===== *)
(** * Watching storage diffs (libraries/shared/watcher/storage_watcher.go,
    storage/storage_queue.go, factories/storage,
    pkg/eth/datastore/postgres/repositories/storage_diff_repository.go)

    The watcher persists each diff, hands it to the transformer of its
    contract, and queues it when the transformer fails; the queue is retried
    periodically.  Transformers are an interface; the one of factories/storage
    looks the key's metadata up, decodes the value and hands both to a
    repository. *)

From S2P Require Import Prelude GoInt Geth Sql StorageDecode.

(** ** Tables public.storage_diff and public.queued_storage *)

Record StorageDB : Type := mkStorageDB {
  storage_diff : list PersistedStorageDiff;
  queued_storage : list (Z * Z)               (* id, diff_id *)
}.

Definition ErrDuplicateDiff : error := ErrNoRows.

Definition CreateStorageDiff (input : StorageDiffInput) : DB StorageDB Z :=
  scan_one (exec_auto (λ d q,
    let '(ids, rows, q) := insert_ignore "public.storage_diff"
      (λ r, bool_decide (pd_Input r = input)) (mkPersisted input) (storage_diff d) q in
    (ids, mkStorageDB rows (queued_storage d), q))).

Definition err_foreign_key : error := Driver "pq: insert violates foreign key constraint".

(** storage_queue.go *)

Definition Add (diff : PersistedStorageDiff) : DB StorageDB unit :=
  exec_auto_check (λ d q,
    let '(_, rows, q') := insert_ignore "public.queued_storage"
      (λ r, bool_decide (r.2 = pd_ID diff)) (λ id, (id, pd_ID diff)) (queued_storage d) q in
    if existsb (λ r, bool_decide (r.2 = pd_ID diff)) (queued_storage d)
       || existsb (λ r, bool_decide (pd_ID r = pd_ID diff)) (storage_diff d)
    then (Ok (tt, mkStorageDB (storage_diff d) rows), q')
    else (Err err_foreign_key, q')).

Definition Delete (diffID : Z) : DB StorageDB unit :=
  modify_auto (λ d, mkStorageDB (storage_diff d)
    (filter (λ r, r.2 ≠ diffID) (queued_storage d))).

(** The rows of the LEFT JOIN; a queued id without a diff has NULL columns,
    which do not scan, so the rows before it are returned with an error. *)
Fixpoint scan_joined (diffs : list PersistedStorageDiff) (queue : list (Z * Z))
    : list PersistedStorageDiff * option error :=
  match queue with
  | [] => ([], None)
  | r :: queue =>
      match filter (λ d, pd_ID d = r.2) diffs with
      | [] => ([], Some (Driver "sql: Scan error: converting NULL to int64"))
      | ds => let '(rest, err) := scan_joined diffs queue in (ds ++ rest, err)
      end
  end.

Definition GetAll : DB StorageDB (list PersistedStorageDiff * option error) :=
  select_auto (λ d, scan_joined (storage_diff d) (queued_storage d)).

(** ** The watcher *)

Section Watcher.
Context {St : Type}.

(** transformer.StorageTransformer, on the state [St] of the transformers. *)
Record StorageTransformer : Type := {
  KeccakContractAddress : bytes;
  Execute : PersistedStorageDiff → St → result unit * St
}.

(** The watcher's database session and the transformers' state. *)
Record watcher : Type := mkWatcher {
  w_db : session StorageDB;
  w_ext : St
}.

Definition AddTransformers (ts : list StorageTransformer)
    (m : gmap bytes StorageTransformer) : gmap bytes StorageTransformer :=
  foldl (λ m t, <[KeccakContractAddress t := t]> m) m ts.

Section Process.
Context (KeccakAddressTransformers : gmap bytes StorageTransformer).

Definition getTransformer (diff : PersistedStorageDiff) : option StorageTransformer :=
  KeccakAddressTransformers !! HashedAddress (pd_Input diff).

(** Errors are logged. *)
Definition processRow (o : oracle) (diffInput : StorageDiffInput) (w : watcher)
    : result unit * watcher :=
  let '(r, s) := CreateStorageDiff diffInput o (w_db w) in
  if match r with DErr _ e => bool_decide (e = ErrDuplicateDiff) | _ => false end then (Ok tt, mkWatcher s (w_ext w))
  else
    let diffID := match r with DOk id => id | _ => 0 end in
    let persistedDiff := ToPersistedDiff diffInput diffID in
    match getTransformer persistedDiff with
    | None => (Ok tt, mkWatcher s (w_ext w))
    | Some storageTransformer =>
        match Execute storageTransformer persistedDiff (w_ext w) with
        | (Ok _, e) => (Ok tt, mkWatcher s e)
        | (Err _, e) => (Ok tt, mkWatcher (Add persistedDiff o s).2 e)
        | (Panic p, e) => (Panic p, mkWatcher s e)
        end
    end.

Definition deleteRow (o : oracle) (diffID : Z) (s : session StorageDB) : session StorageDB :=
  (Delete diffID o s).2.

Fixpoint process_diffs (o : oracle) (diffs : list PersistedStorageDiff) (w : watcher)
    : result unit * watcher :=
  match diffs with
  | [] => (Ok tt, w)
  | diff :: diffs =>
      match getTransformer diff with
      | None => process_diffs o diffs (mkWatcher (deleteRow o (pd_ID diff) (w_db w)) (w_ext w))
      | Some storageTransformer =>
          match Execute storageTransformer diff (w_ext w) with
          | (Ok _, e) => process_diffs o diffs (mkWatcher (deleteRow o (pd_ID diff) (w_db w)) e)
          | (Err _, e) => process_diffs o diffs (mkWatcher (w_db w) e)
          | (Panic p, e) => (Panic p, mkWatcher (w_db w) e)
          end
      end
  end.

Definition processQueue (o : oracle) (w : watcher) : result unit * watcher :=
  let '(r, s) := GetAll o (w_db w) in
  let diffs := match r with DOk (diffs, _) => diffs | _ => [] end in
  process_diffs o diffs (mkWatcher s (w_ext w)).

(** The cases of the select loop of [Execute] that touch the state. *)
Inductive event : Type :=
| DiffReceived (diff : StorageDiffInput)
| Tick.

Definition handle (e : event) (o : oracle) (w : watcher) : result unit * watcher :=
  match e with
  | DiffReceived diff => processRow o diff w
  | Tick => processQueue o w
  end.

(** A run of the loop whose steps satisfy [allowed]; a panic ends the process. *)
Inductive runs (allowed : event → oracle → watcher → Prop) : watcher → watcher → Prop :=
| runs_refl w : runs allowed w w
| runs_step w1 w2 w3 e o : runs allowed w1 w2 → allowed e o w2 → handle e o w2 = (Ok tt, w3) →
    runs allowed w1 w3.

End Process.
End Watcher.

Arguments StorageTransformer : clear implicits.
Arguments watcher : clear implicits.

(** ** factories/storage: keysLookup and Transformer *)

Section Factory.
Context `{GethCommon} `{StateDiffLib}.

(** The loader and the repository are interfaces. *)
Context {L R : Type}.
Context (LoadMappings : L → (gmap bytes StorageValueMetadata * option error) * L).
Context (Create : Z → StorageValueMetadata → decoded → R → result unit * R).
Context (range_map : gmap bytes StorageValueMetadata → list (bytes * StorageValueMetadata)).

Record keysLookup : Type := mkLookup {
  loader : L;
  mappings : gmap bytes StorageValueMetadata
}.

(** On an error the mappings are what the loader returned with it. *)
Definition refreshMappings (k : keysLookup) : result unit * keysLookup :=
  let '((m, err), l) := LoadMappings (loader k) in
  match err with
  | Some e => (Err e, mkLookup l m)
  | None => (Ok tt, mkLookup l (AddHashedKeys range_map m))
  end.

Definition Lookup (key : bytes) (k : keysLookup) : result StorageValueMetadata * keysLookup :=
  match mappings k !! key with
  | Some metadata => (Ok metadata, k)
  | None =>
      match refreshMappings k with
      | (Ok _, k) =>
          match mappings k !! key with
          | Some metadata => (Ok metadata, k)
          | None => (Err (ErrStorageKeyNotFound (Hash_String key)), k)
          end
      | (Err e, k) => (Err e, k)
      | (Panic w, k) => (Panic w, k)
      end
  end.

Definition Transformer_Execute (diff : PersistedStorageDiff) (st : keysLookup * R)
    : result unit * (keysLookup * R) :=
  let '(metadata, k) := Lookup (StorageKey (pd_Input diff)) st.1 in
  match metadata with
  | Ok metadata =>
      match Decode diff metadata with
      | Ok value => let '(r, repo) := Create (pd_ID diff) metadata value st.2 in (r, (k, repo))
      | Err e => (Err e, (k, st.2))
      | Panic w => (Panic w, (k, st.2))
      end
  | Err e => (Err e, (k, st.2))
  | Panic w => (Panic w, (k, st.2))
  end.

Definition Transformer (hashedAddress : bytes) : StorageTransformer (keysLookup * R) := {|
  KeccakContractAddress := hashedAddress; Execute := Transformer_Execute |}.

End Factory.

(** ** Well-formed tables *)

Record swf (d : StorageDB) (q : gmap string Z) : Prop := {
  swf_diffs : table_ok "public.storage_diff" pd_ID pd_Input (storage_diff d) q;
  swf_queue : table_ok "public.queued_storage" fst snd (queued_storage d) q;
  swf_fk : Forall (λ r, r.2 ∈ map pd_ID (storage_diff d)) (queued_storage d)
}.

Lemma swf_empty : swf (mkStorageDB [] []) ∅.
Proof. repeat split; constructor. Qed.

Lemma StorageDB_eta d : mkStorageDB (storage_diff d) (queued_storage d) = d.
Proof. by destruct d. Qed.

(** The three ways a diff is persisted or not. *)
Inductive created (input : StorageDiffInput) (o : oracle) (s : session StorageDB)
    : outcome Z → StorageDB → Prop :=
| created_rejected e : o (clock s) = Some e → created input o s (DErr true e) (tables s)
| created_duplicate : o (clock s) = None → input ∈ map pd_Input (storage_diff (tables s)) →
    created input o s (DErr true ErrNoRows) (tables s)
| created_new n : o (clock s) = None → input ∉ map pd_Input (storage_diff (tables s)) →
    n ∉ map pd_ID (storage_diff (tables s)) →
    created input o s (DOk n) (mkStorageDB (storage_diff (tables s) ++ [mkPersisted input n])
      (queued_storage (tables s))).

Lemma CreateStorageDiff_created input o s : swf (tables s) (seqs s) →
  let '(r, s') := CreateStorageDiff input o s in
  created input o s r (tables s') ∧ swf (tables s') (seqs s') ∧ clock s' = S (clock s).
Proof.
  intros [H1 H2 H3]. unfold CreateStorageDiff, scan_one, db_bind, exec_auto.
  destruct (o (clock s)) as [e|] eqn:Eo; [split; [exact (created_rejected _ _ _ _ Eo)|by split]|].
  pose proof (insert_ignore_facts "public.storage_diff" pd_ID pd_Input input (mkPersisted input) _ _
    (λ _, eq_refl) (λ _, eq_refl) H1) as Hf.
  destruct (insert_ignore _ _ _ _ _) as [[ids rows] q]. destruct Hf as (Hq & Hok & [(-> & -> & Hin)|(n & -> & -> & Hnin & Hid & _)]).
  - simpl. rewrite StorageDB_eta. split; [by apply created_duplicate|]. split; [|done].
    split; [done|by eapply table_ok_seq|done].
  - simpl. split; [by apply created_new|]. split; [|done]. split; [done|by eapply table_ok_seq|].
    eapply Forall_elem_mono; [|done]. intros x Hx. simpl. rewrite map_app. apply elem_of_app. by left.
Qed.

Lemma Add_facts diff o s : swf (tables s) (seqs s) →
  let s' := (Add diff o s).2 in
  swf (tables s') (seqs s') ∧ storage_diff (tables s') = storage_diff (tables s) ∧
  (∀ x, x ∈ map snd (queued_storage (tables s)) → x ∈ map snd (queued_storage (tables s'))) ∧
  (o (clock s) = None → pd_ID diff ∈ map pd_ID (storage_diff (tables s)) →
   pd_ID diff ∈ map snd (queued_storage (tables s'))).
Proof.
  intros [H1 H2 H3]. unfold Add, exec_auto_check.
  destruct (o (clock s)) as [e|]; [by split_and!|].
  pose proof (insert_ignore_facts "public.queued_storage" fst snd (pd_ID diff) (λ id, (id, pd_ID diff)) _ _
    (λ _, eq_refl) (λ _, eq_refl) H2) as Hf.
  destruct (insert_ignore _ _ _ _ _) as [[ids rows] q]. destruct Hf as (Hq & Hok & Hrows).
  assert (Hold : ∀ x, x ∈ map snd (queued_storage (tables s)) → x ∈ map snd rows).
  { intros x Hx. destruct Hrows as [(_ & -> & _)|(n & _ & -> & _)]; [done|].
    rewrite map_app. apply elem_of_app. by left. }
  assert (Hnew : pd_ID diff ∈ map snd rows).
  { destruct Hrows as [(_ & -> & Hin)|(n & _ & -> & _)]; [done|].
    rewrite map_app. apply elem_of_app. right. by left. }
  destruct (_ || _) eqn:Ec; simpl.
  - split_and!; [|done|done|done]. split; simpl; [by eapply table_ok_seq|done|].
    destruct Hrows as [(_ & -> & _)|(n & _ & -> & Hn & _)]; [done|].
    apply Forall_app. split; [done|]. repeat constructor. simpl.
    apply orb_true_iff in Ec as [Ec|Ec]; apply existsb_exists in Ec as (r & Hr%list_elem_of_In & Hb%bool_decide_eq_true).
    + destruct Hn. rewrite <- Hb. by apply list_elem_of_fmap_2.
    + rewrite <- Hb. by apply list_elem_of_fmap_2.
  - split_and!; [|done|done|].
    + split; simpl; [by eapply table_ok_seq|by eapply table_ok_seq|done].
    + intros _ (r & Hr & Hin)%list_elem_of_fmap. apply orb_false_iff in Ec as [_ Ec].
      apply not_true_iff_false in Ec. destruct Ec. apply existsb_exists. exists r.
      split; [by apply list_elem_of_In|by apply bool_decide_eq_true].
Qed.

Lemma Delete_facts id o s : swf (tables s) (seqs s) →
  let s' := (Delete id o s).2 in
  swf (tables s') (seqs s') ∧ storage_diff (tables s') = storage_diff (tables s) ∧
  (∀ x, x ≠ id → x ∈ map snd (queued_storage (tables s)) → x ∈ map snd (queued_storage (tables s'))).
Proof.
  intros [H1 H2 H3]. unfold Delete, modify_auto, exec_auto.
  destruct (o (clock s)); simpl; [by split_and!|]. split_and!; [|done|].
  - split; simpl; [done|by apply table_ok_filter|]. rewrite Forall_forall in H3 |- *.
    intros r [_ Hr]%list_elem_of_filter. by apply H3.
  - intros x Hx (r & -> & Hr)%list_elem_of_fmap. apply list_elem_of_fmap_2. by apply list_elem_of_filter.
Qed.

Lemma scan_joined_subset diffs queue : ∀ d, d ∈ (scan_joined diffs queue).1 → d ∈ diffs.
Proof.
  induction queue as [|r queue IH]; intros d; simpl; [by intros ?%elem_of_nil|].
  destruct (filter _ diffs) as [|d0 ds] eqn:E; [by intros ?%elem_of_nil|].
  destruct (scan_joined diffs queue) as [rest err]. simpl in *.
  rewrite app_comm_cons, <- E. intros [Hd|Hd]%elem_of_app; [by apply list_elem_of_filter in Hd as [_ ?]|auto].
Qed.

(** ** Lemmas: no diff is lost *)

Section Lost.
Context {St : Type} (ts : gmap bytes (StorageTransformer St)).

(** The transformer that also records the diffs it executed without error. *)
Definition logged (t : StorageTransformer St) : StorageTransformer (St * list PersistedStorageDiff) := {|
  KeccakContractAddress := KeccakContractAddress t;
  Execute := λ d st, let '(r, s) := Execute t d st.1 in
    (r, (s, match r with Ok _ => d :: st.2 | _ => st.2 end)) |}.

Definition watched (d : PersistedStorageDiff) : Prop := is_Some (ts !! HashedAddress (pd_Input d)).

(** Every persisted diff of a watched contract was executed or is queued. *)
Definition none_lost (w : watcher (St * list PersistedStorageDiff)) : Prop :=
  swf (tables (w_db w)) (seqs (w_db w)) ∧
  ∀ d, d ∈ storage_diff (tables (w_db w)) → watched d →
    d ∈ (w_ext w).2 ∨ pd_ID d ∈ map snd (queued_storage (tables (w_db w))).

Lemma getTransformer_logged d :
  getTransformer (logged <$> ts) d = logged <$> (ts !! HashedAddress (pd_Input d)).
Proof. apply lookup_fmap. Qed.

Lemma processRow_none_lost d o w w' :
  o (S (clock (w_db w))) = None → none_lost w →
  processRow (logged <$> ts) o d w = (Ok tt, w') → none_lost w'.
Proof.
  intros Ho [Hwf Hl]. unfold processRow.
  pose proof (CreateStorageDiff_created d o (w_db w) Hwf) as Hc.
  destruct (CreateStorageDiff d o (w_db w)) as [r s]. destruct Hc as (Hc & Hwf' & Hclk).
  rewrite getTransformer_logged. simpl.
  assert (Hsame : tables s = tables (w_db w) → none_lost (mkWatcher s (w_ext w))).
  { intros Ht. split; simpl; [done|]. rewrite Ht. exact Hl. }
  set (n := match r with DOk id => id | _ => 0 end).
  assert (Hrest : (∀ x, x ∈ storage_diff (tables s) → x ∈ storage_diff (tables (w_db w)) ∨ x = mkPersisted d n ∧ n ∈ map pd_ID (storage_diff (tables s))) ∧
    (∀ x, x ∈ map snd (queued_storage (tables (w_db w))) → x ∈ map snd (queued_storage (tables s)))).
  { inversion Hc; subst; simpl; [split; auto..|]. unfold n. split; [|done].
    intros x [Hx|Hx%list_elem_of_singleton]%elem_of_app; [by left|right]. split; [done|].
    rewrite map_app. apply elem_of_app. right. by left. }
  destruct (match r with DErr _ e => _ | _ => false end) eqn:Edup.
  { intros [= <-]. apply Hsame. by inversion Hc; subst. }
  destruct (ts !! HashedAddress d) as [t|] eqn:Et; simpl.
  - destruct (Execute t (ToPersistedDiff d n) (w_ext w).1) as [[[]|e|p] st] eqn:Ex; [| |done]; intros [= <-].
    + split; simpl; [done|]. intros x Hx Hwx. destruct Hrest as [Hr Hq].
      destruct (Hr x Hx) as [Hold|[-> _]]; [|by left; left].
      destruct (Hl x Hold Hwx) as [?|?]; [left; by right|right; by apply Hq].
    + destruct (Add_facts (ToPersistedDiff d n) o s Hwf') as (A1 & A2 & A3 & A4).
      split; simpl; [done|]. rewrite A2. intros x Hx Hwx.
      destruct Hrest as [Hr Hq].
      destruct (Hr x Hx) as [Hold|[-> Hn]].
      * destruct (Hl x Hold Hwx) as [?|?]; [by left|right; by apply A3, Hq].
      * right. apply A4; [by rewrite Hclk|done].
  - intros [= <-]. split; simpl; [done|]. intros x Hx Hwx.
    destruct Hrest as [Hr Hq]. destruct (Hr x Hx) as [Hold|[-> Hn]].
    + destruct (Hl x Hold Hwx) as [?|?]; [by left|right; by apply Hq].
    + destruct Hwx as [? Hwx]. simpl in Hwx. congruence.
Qed.

Lemma process_diffs_none_lost o diffs : ∀ w w',
  (∀ d, d ∈ diffs → d ∈ storage_diff (tables (w_db w))) → none_lost w →
  process_diffs (logged <$> ts) o diffs w = (Ok tt, w') → none_lost w'.
Proof.
  induction diffs as [|d diffs IH]; intros w w' Hd [Hwf Hl]; simpl; [by intros [= <-]|].
  rewrite getTransformer_logged.
  destruct (Delete_facts (pd_ID d) o (w_db w) Hwf) as (D1 & D2 & D3).
  assert (Hsame : ∀ x, x ∈ storage_diff (tables (w_db w)) → x ≠ d → pd_ID x ≠ pd_ID d).
  { intros x Hx Hne Heq. apply Hne. eapply (NoDup_map_inj pd_ID); [apply (swf_diffs _ _ Hwf)|done|apply Hd; by left|exact Heq]. }
  destruct (ts !! HashedAddress (pd_Input d)) as [t|] eqn:Et; simpl.
  - destruct (Execute t d (w_ext w).1) as [[[]|e|p] st]; [| |done]; apply IH; simpl.
    + unfold deleteRow. rewrite D2. intros x Hx. apply Hd. by right.
    + split; simpl; [done|]. unfold deleteRow. rewrite D2. intros x Hx Hwx.
      destruct (decide (x = d)) as [->|Hne]; [left; by left|].
      destruct (Hl x Hx Hwx) as [?|?]; [left; by right|right; apply D3; [by apply Hsame|done]].
    + intros x Hx. apply Hd. by right.
    + by split.
  - apply IH; simpl; unfold deleteRow; rewrite ?D2.
    + intros x Hx. apply Hd. by right.
    + split; simpl; [done|]. rewrite D2. intros x Hx Hwx.
      destruct (decide (x = d)) as [->|Hne]; [destruct Hwx as [? Hwx]; congruence|].
      destruct (Hl x Hx Hwx) as [?|?]; [by left|right; apply D3; [by apply Hsame|done]].
Qed.

End Lost.

(** ** Lemmas: retrying the queue *)

Section Retry.
Context {St : Type} (ts : gmap bytes (StorageTransformer St)).

(** The diffs the queue refers to, in the order of the queue. *)
Definition queued_diffs (d : StorageDB) : list PersistedStorageDiff :=
  flat_map (λ r, filter (λ x, pd_ID x = r.2) (storage_diff d)) (queued_storage d).

(** Each watched diff is executed once; those that fail stay. *)
Fixpoint retry (diffs : list PersistedStorageDiff) (e : St) : result (list PersistedStorageDiff * St) :=
  match diffs with
  | [] => Ok ([], e)
  | diff :: diffs =>
      match ts !! HashedAddress (pd_Input diff) with
      | None => retry diffs e
      | Some t =>
          match Execute t diff e with
          | (Ok _, e) => retry diffs e
          | (Err _, e) => r <-! retry diffs e ;; Ok (diff :: r.1, r.2)
          | (Panic p, e) => Panic p
          end
      end
  end.

Lemma filter_id_singleton x (l : list PersistedStorageDiff) :
  NoDup (map pd_ID l) → x ∈ l → filter (λ y, pd_ID y = pd_ID x) l = [x].
Proof.
  intros Hnd Hx. induction l as [|y l IH]; [by apply elem_of_nil in Hx|]. simpl in Hnd.
  apply NoDup_cons in Hnd as [Hy Hnd]. rewrite filter_cons.
  apply elem_of_cons in Hx as [->|Hx].
  - rewrite decide_True by done. f_equal.
    destruct (filter _ l) as [|z zs] eqn:E; [done|]. destruct Hy.
    assert (Hz : z ∈ filter (λ z, pd_ID z = pd_ID y) l) by (rewrite E; by left).
    apply list_elem_of_filter in Hz as [<- Hz]. by apply list_elem_of_fmap_2.
  - rewrite decide_False; [by apply IH|]. intros Heq. apply Hy. rewrite Heq. by apply list_elem_of_fmap_2.
Qed.

(** On well-formed tables the join neither fails nor repeats. *)
Lemma scan_joined_wf d q : swf d q →
  scan_joined (storage_diff d) (queued_storage d) = (queued_diffs d, None) ∧
  map pd_ID (queued_diffs d) = map snd (queued_storage d).
Proof.
  intros [(Hnd & _) _ Hfk]. unfold queued_diffs.
  induction Hfk as [|r queue (x & Hx & Hin)%list_elem_of_fmap _ IH]; simpl; [done|].
  rewrite !Hx, (filter_id_singleton x) by done. destruct IH as [-> IH]. simpl. by rewrite IH.
Qed.

Definition live (w : watcher St) : Prop := aborted (w_db w) = false.

Lemma process_diffs_retry diffs : ∀ w, NoDup (map pd_ID diffs) →
  match retry diffs (w_ext w) with
  | Ok (kept, e) => ∃ w', process_diffs ts no_faults diffs w = (Ok tt, w') ∧ w_ext w' = e ∧
      storage_diff (tables (w_db w')) = storage_diff (tables (w_db w)) ∧
      queued_storage (tables (w_db w')) =
        filter (λ r, r.2 ∈ map pd_ID diffs → r.2 ∈ map pd_ID kept) (queued_storage (tables (w_db w)))
  | Err _ => False
  | Panic p => (process_diffs ts no_faults diffs w).1 = Panic p
  end ∧ (∀ kept e, retry diffs (w_ext w) = Ok (kept, e) → kept `sublist_of` diffs).
Proof.
  induction diffs as [|d diffs IH]; intros w Hnd; simpl.
  - split; [|by intros ?? [= <- <-]]. exists w. split_and!; [done..|].
    symmetry. apply filter_all. intros r _ Hr. by apply elem_of_nil in Hr.
  - simpl in Hnd. apply NoDup_cons in Hnd as [Hd Hnd]. unfold getTransformer.
    (* the queue after deleting [d] and keeping [kept] of the rest *)
    assert (Hdel : ∀ kept, kept `sublist_of` diffs → ∀ queue : list (Z * Z),
      filter (λ r, r.2 ∈ map pd_ID diffs → r.2 ∈ map pd_ID kept) (filter (λ r, r.2 ≠ pd_ID d) queue) =
      filter (λ r, r.2 ∈ map pd_ID (d :: diffs) → r.2 ∈ map pd_ID kept) queue).
    { intros kept Hsub queue. rewrite list_filter_filter. apply list_filter_iff. intros r. simpl.
      assert (Hnk : pd_ID d ∉ map pd_ID kept).
      { intros Hk. apply Hd. eapply elem_of_submseteq; [exact Hk|]. apply sublist_submseteq.
        by apply fmap_sublist. }
      rewrite elem_of_cons. split; [naive_solver|]. intros Hr.
      destruct (decide (r.2 = pd_ID d)) as [Heq|Hne]; [|naive_solver].
      exfalso. apply Hnk. rewrite <- Heq. apply Hr. by left. }
    destruct (ts !! HashedAddress (pd_Input d)) as [t|].
    + destruct (Execute t d (w_ext w)) as [[[]|e|p] e']; simpl.
      * destruct (IH (mkWatcher (deleteRow no_faults (pd_ID d) (w_db w)) e') Hnd) as [IH1 IH2]. simpl in *.
        destruct (retry diffs e') as [[kept e2]| |]; [|done..].
        destruct IH1 as (w' & H1 & H2 & H3 & H4). split; [|intros ?? [= <- <-]; by apply sublist_cons, (IH2 _ _ eq_refl)].
        exists w'. split_and!; [done..|]. rewrite H4. by apply Hdel, (IH2 _ _ eq_refl).
      * destruct (IH (mkWatcher (w_db w) e') Hnd) as [IH1 IH2]. simpl in *.
        destruct (retry diffs e') as [[kept e2]| |]; simpl; [|done..].
        destruct IH1 as (w' & H1 & H2 & H3 & H4).
        split; [|intros ?? [= <- <-]; by apply sublist_skip, (IH2 _ _ eq_refl)].
        exists w'. split_and!; [done..|]. rewrite H4. apply list_filter_iff. intros r.
        rewrite !elem_of_cons. destruct (decide (r.2 = pd_ID d)) as [Heq|Hne]; [|naive_solver].
        rewrite Heq. naive_solver.
      * by split.
    + destruct (IH (mkWatcher (deleteRow no_faults (pd_ID d) (w_db w)) (w_ext w)) Hnd) as [IH1 IH2]. simpl in *.
      destruct (retry diffs (w_ext w)) as [[kept e2]| |]; [|done..].
      destruct IH1 as (w' & H1 & H2 & H3 & H4). split; [|intros ?? [= <- <-]; by apply sublist_cons, (IH2 _ _ eq_refl)].
      exists w'. split_and!; [done..|]. rewrite H4. by apply Hdel, (IH2 _ _ eq_refl).
Qed.

End Retry.

(** ** Properties *)

Section Properties.
Context {St : Type} (ts : gmap bytes (StorageTransformer St)).

(** Steps in which the server accepts the insertion into the queue, the
    second statement of [processRow]; any other statement may fail. *)
Definition queue_accepts (e : event) (o : oracle) (w : watcher (St * list PersistedStorageDiff)) : Prop :=
  match e with DiffReceived _ => o (S (clock (w_db w))) = None | Tick => True end.

(** C18: as long as the server accepts insertions into the queue and no
    transformer panics, no diff is lost: in every state the watcher reaches,
    each persisted diff of a watched contract has been executed without error
    or is queued, whatever other statements fail; keys and foreign keys hold. *)
Theorem no_diff_lost e w w' :
  w_db w = mkSession (mkStorageDB [] []) ∅ false 0 → w_ext w = (e, []) →
  runs (logged <$> ts) queue_accepts w w' →
  swf (tables (w_db w')) (seqs (w_db w')) ∧
  ∀ d, d ∈ storage_diff (tables (w_db w')) → watched ts d →
    d ∈ (w_ext w').2 ∨ pd_ID d ∈ map snd (queued_storage (tables (w_db w'))).
Proof.
  intros Hdb Hext Hr. assert (Hinit : none_lost ts w).
  { unfold none_lost. rewrite Hdb. simpl. split; [apply swf_empty|]. intros d Hd. by apply elem_of_nil in Hd. }
  change (none_lost ts w'). clear Hdb Hext.
  induction Hr as [w|w w2 w3 ev o _ IH Ha Hh]; [done|]. specialize (IH Hinit).
  destruct ev as [d|]; simpl in Hh.
  - by eapply processRow_none_lost.
  - unfold processQueue in Hh. destruct IH as [Hwf Hl].
    assert (Hg : tables (GetAll o (w_db w2)).2 = tables (w_db w2) ∧ seqs (GetAll o (w_db w2)).2 = seqs (w_db w2) ∧
      ∀ ds err, (GetAll o (w_db w2)).1 = DOk (ds, err) → ∀ d, d ∈ ds → d ∈ storage_diff (tables (w_db w2))).
    { unfold GetAll, select_auto, exec_auto. destruct (o (clock (w_db w2))); simpl; [done|].
      split_and!; [done|done|]. intros ds err [= Heq] d Hd. eapply scan_joined_subset. by rewrite Heq. }
    destruct (GetAll o (w_db w2)) as [r s]. simpl in Hg. destruct Hg as (G1 & G2 & G3).
    eapply process_diffs_none_lost; [| |exact Hh]; simpl.
    + rewrite G1. destruct r as [[ds err]| |]; [by apply (G3 ds err)| |]; intros d Hd; by apply elem_of_nil in Hd.
    + unfold none_lost. simpl. by rewrite G1, G2.
Qed.

(** When the server accepts every statement, a pass over the queue executes
    every queued diff of a watched contract once, in the order of the queue,
    and leaves exactly those whose execution failed; diffs of contracts no
    longer watched leave the queue unexecuted. *)
Theorem processQueue_exact w :
  swf (tables (w_db w)) (seqs (w_db w)) →
  match retry ts (queued_diffs (tables (w_db w))) (w_ext w) with
  | Ok (kept, e) => ∃ w', processQueue ts no_faults w = (Ok tt, w') ∧ w_ext w' = e ∧
      storage_diff (tables (w_db w')) = storage_diff (tables (w_db w)) ∧
      map snd (queued_storage (tables (w_db w'))) = map pd_ID kept
  | Err _ => False
  | Panic p => (processQueue ts no_faults w).1 = Panic p
  end.
Proof.
  intros Hwf. destruct (scan_joined_wf _ _ Hwf) as [Hscan Hids].
  unfold processQueue, GetAll, select_auto, exec_auto. simpl. rewrite Hscan.
  set (w1 := mkWatcher _ (w_ext w)).
  assert (Hnd : NoDup (map pd_ID (queued_diffs (tables (w_db w))))).
  { rewrite Hids. apply (swf_queue _ _ Hwf). }
  destruct (process_diffs_retry ts (queued_diffs (tables (w_db w))) w1 Hnd) as [Hp Hsub].
  change (w_ext w1) with (w_ext w) in *.
  destruct (retry ts _ (w_ext w)) as [[kept e]|?|p]; [|done|done].
  destruct Hp as (w' & H1 & H2 & H3 & H4). exists w'. split_and!; [done..|].
  specialize (Hsub kept e eq_refl). rewrite H4. simpl.
  rewrite (filter_ext_in _ (λ r : Z * Z, r.2 ∈ map pd_ID kept)).
  - etransitivity; [exact (map_filter snd (λ x, x ∈ map pd_ID kept) _)|]. rewrite <- Hids.
    apply filter_sublist; [done|by apply fmap_sublist].
  - intros r Hr. split; [|done]. intros Hin. apply Hin. rewrite Hids. by apply list_elem_of_fmap_2.
Qed.

(** A diff whose transformer panics is lost: it was persisted before the
    process died but not queued, so after a restart the watcher ignores it as
    a duplicate when it is received again and does not find it in the queue. *)
Theorem crash_loses_diff diff t w e' p :
  swf (tables (w_db w)) (seqs (w_db w)) → diff ∉ map pd_Input (storage_diff (tables (w_db w))) →
  ts !! HashedAddress diff = Some t →
  (∀ n, Execute t (ToPersistedDiff diff n) (w_ext w) = (Panic p, e')) →
  ∃ w', processRow ts no_faults diff w = (Panic p, w') ∧
    diff ∈ map pd_Input (storage_diff (tables (w_db w'))) ∧
    diff ∉ map pd_Input (queued_diffs (tables (w_db w'))) ∧
    ∀ restarted, tables (w_db restarted) = tables (w_db w') → swf (tables (w_db restarted)) (seqs (w_db restarted)) →
      ∃ w'', processRow ts no_faults diff restarted = (Ok tt, w'') ∧
        tables (w_db w'') = tables (w_db w') ∧ w_ext w'' = w_ext restarted.
Proof.
  intros Hwf Hnew Ht Hex. unfold processRow at 1.
  pose proof (CreateStorageDiff_created diff no_faults (w_db w) Hwf) as Hc.
  destruct (CreateStorageDiff diff no_faults (w_db w)) as [r s]. destruct Hc as (Hc & Hwf' & _).
  inversion Hc as [e He|_ Hin|n _ _ Hn Hr Hs]; subst; [done|done|].
  unfold getTransformer. simpl. rewrite Ht, Hex. eexists. split; [done|]. simpl. rewrite <- Hs. simpl.
  assert (Hin : diff ∈ map pd_Input (storage_diff (tables (w_db w)) ++ [mkPersisted diff n])).
  { rewrite map_app. apply elem_of_app. right. by left. }
  split_and!; [done| |].
  - intros (x & Hx & Hq)%list_elem_of_fmap. unfold queued_diffs in Hq. simpl in Hq.
    apply list_elem_of_In, in_flat_map in Hq as (row & Hrow%list_elem_of_In & Hq%list_elem_of_In).
    apply list_elem_of_filter in Hq as [Hid Hq].
    destruct Hwf as [_ _ Hfk]. rewrite Forall_forall in Hfk. specialize (Hfk row Hrow).
    apply elem_of_app in Hq as [Hq|Hq%list_elem_of_singleton].
    + apply Hnew. rewrite Hx. by apply list_elem_of_fmap_2.
    + subst x. simpl in Hid. apply Hn. by rewrite Hid.
  - intros restarted Htab Hwfr. unfold processRow.
    pose proof (CreateStorageDiff_created diff no_faults (w_db restarted) Hwfr) as Hd.
    destruct (CreateStorageDiff diff no_faults (w_db restarted)) as [r2 s2]. destruct Hd as (Hd & _ & _).
    inversion Hd as [e He|_ _ Hr2 Hs2|n2 _ Hnin]; subst; [done| |].
    + rewrite bool_decide_eq_true_2 by done. eexists. split; [done|]. simpl. by rewrite <- Hs2, Htab.
    + destruct Hnin. by rewrite Htab.
Qed.

End Properties.

Section LookupProperties.
Context `{GethCommon} `{StateDiffLib} {L : Type}.
Context (LoadMappings : L → (gmap bytes StorageValueMetadata * option error) * L).
Context (range_map : gmap bytes StorageValueMetadata → list (bytes * StorageValueMetadata)).

(** A lookup answers from the cached mappings without calling the loader;
    otherwise it reloads them once and finds exactly the loaded keys and their
    hashes, a hash taking precedence; a failing loader replaces the cache. *)
Theorem Lookup_exact key k :
  (∀ m, range_map m ≡ₚ map_to_list m) →
  let '(r, k') := Lookup LoadMappings range_map key k in
  match mappings k !! key with
  | Some metadata => r = Ok metadata ∧ k' = k
  | None =>
      let '((m, err), l) := LoadMappings (loader k) in
      loader k' = l ∧
      match err with
      | Some e => r = Err e ∧ mappings k' = m
      | None => no_collision m →
          (∀ metadata, r = Ok metadata ↔
             (∃ k0, m !! k0 = Some metadata ∧ hashKey k0 = key) ∨
             (∀ k0, is_Some (m !! k0) → hashKey k0 ≠ key) ∧ m !! key = Some metadata) ∧
          (is_ok r = false → r = Err (ErrStorageKeyNotFound (Hash_String key)))
      end
  end.
Proof.
  intros Hp. unfold Lookup, refreshMappings.
  destruct (mappings k !! key) as [md|] eqn:Ek; [done|].
  destruct (LoadMappings (loader k)) as [[m [e|]] l]; simpl; [done|].
  set (fresh := AddHashedKeys range_map m).
  assert (Hfresh : no_collision m → ∀ md, fresh !! key = Some md ↔
    (∃ k0, m !! k0 = Some md ∧ hashKey k0 = key) ∨
    (∀ k0, is_Some (m !! k0) → hashKey k0 ≠ key) ∧ m !! key = Some md).
  { intros Hc md. destruct (AddHashedKeys_lookup range_map m (Hp m) Hc) as [A1 A2]. split.
    - intros Hf. destruct (decide (Exists (λ kv, hashKey kv.1 = key) (map_to_list m))) as [Hex|Hex].
      + apply Exists_exists in Hex as ([k0 v] & Hin%elem_of_map_to_list & Hk). simpl in Hk.
        left. exists k0. split; [|done]. specialize (A1 k0 v Hin). rewrite Hk in A1. unfold fresh in Hf. congruence.
      + right. assert (Hno : ∀ k0, is_Some (m !! k0) → hashKey k0 ≠ key).
        { intros k0 [v Hv] Hk. apply Hex, Exists_exists. exists (k0, v). by split; [apply elem_of_map_to_list|]. }
        split; [done|]. by rewrite <- (A2 key Hno).
    - intros [(k0 & Hk0 & <-)|[Hno Hm]]; [by apply A1|]. unfold fresh. by rewrite (A2 key Hno). }
  destruct (fresh !! key) as [md|] eqn:Ef; simpl; (split; [done|]); intros Hc.
  - split; [|done]. intros md'. rewrite <- (Hfresh Hc). split; [by intros [= <-]|by intros [= ->]].
  - split; [|done]. intros md'. rewrite <- (Hfresh Hc). by split.
Qed.

End LookupProperties.

(** ** Witnesses

    A transformer that fails while its counter is positive, and one that
    panics, for two contracts. *)

Definition ex_flaky : StorageTransformer nat := {|
  KeccakContractAddress := [1];
  Execute := λ _ n, match n with O => (Ok tt, O) | S n => (Err (Errorf "not yet"), n) end |}.

Definition ex_crashing : StorageTransformer nat := {|
  KeccakContractAddress := [2]; Execute := λ _ n, (Panic "can't decode unknown type", n) |}.

Definition ex_transformers : gmap bytes (StorageTransformer nat) :=
  AddTransformers [ex_flaky; ex_crashing] ∅.

Definition ex_diff (a : Z) : StorageDiffInput := mkDiffInput [a] [0] 7 [3] [4].

Definition ex_fresh_db : session StorageDB := mkSession (mkStorageDB [] []) ∅ false 0%nat.

Definition ex_w0 : watcher (nat * list PersistedStorageDiff) := mkWatcher ex_fresh_db (1%nat, []).
Definition ex_w1 := (handle (logged <$> ex_transformers) (DiffReceived (ex_diff 1)) no_faults ex_w0).2.

(** The first execution fails, so the diff is queued. *)
Lemma no_diff_lost_witness :
  map snd (queued_storage (tables (w_db ex_w1))) = [1] ∧
  swf (tables (w_db ex_w1)) (seqs (w_db ex_w1)) ∧
  ∀ d, d ∈ storage_diff (tables (w_db ex_w1)) → watched ex_transformers d →
    d ∈ (w_ext ex_w1).2 ∨ pd_ID d ∈ map snd (queued_storage (tables (w_db ex_w1))).
Proof.
  split; [vm_compute; reflexivity|].
  apply (no_diff_lost ex_transformers 1%nat ex_w0 ex_w1 eq_refl eq_refl).
  apply (runs_step _ _ ex_w0 ex_w0 ex_w1 (DiffReceived (ex_diff 1)) no_faults).
  - apply runs_refl.
  - reflexivity.
  - unfold ex_w1. vm_compute. reflexivity.
Defined.

(** The retry succeeds and empties the queue. *)
Lemma processQueue_exact_witness :
  let w := mkWatcher (w_db ex_w1) 0%nat in
  ∃ w', processQueue ex_transformers no_faults w = (Ok tt, w') ∧
    map snd (queued_storage (tables (w_db w'))) = [].
Proof.
  intros w. assert (Hwf : swf (tables (w_db w)) (seqs (w_db w))).
  { split; unfold table_ok; vm_compute.
    - split_and!; [apply NoDup_singleton|apply NoDup_singleton|repeat constructor; discriminate].
    - split_and!; [apply NoDup_singleton|apply NoDup_singleton|repeat constructor; discriminate].
    - repeat constructor. }
  pose proof (processQueue_exact ex_transformers w Hwf) as Hq.
  destruct (retry ex_transformers (queued_diffs (tables (w_db w))) (w_ext w)) as [[kept e]|e|p] eqn:E;
    vm_compute in E; [|discriminate..]. injection E as <- <-.
  destruct Hq as (w' & H1 & _ & _ & H4). exists w'. split; [exact H1|exact H4].
Defined.

Lemma crash_loses_diff_witness :
  ∃ w', processRow ex_transformers no_faults (ex_diff 2) (mkWatcher ex_fresh_db 0%nat) =
      (Panic "can't decode unknown type", w') ∧
    ex_diff 2 ∈ map pd_Input (storage_diff (tables (w_db w'))) ∧
    ex_diff 2 ∉ map pd_Input (queued_diffs (tables (w_db w'))).
Proof.
  destruct (crash_loses_diff ex_transformers (ex_diff 2) ex_crashing (mkWatcher ex_fresh_db 0%nat) 0%nat
    "can't decode unknown type") as (w' & H1 & H2 & H3 & _).
  - apply swf_empty.
  - intros Hin. inversion Hin.
  - vm_compute. reflexivity.
  - intros n. reflexivity.
  - exists w'. split; [exact H1|]. split; [exact H2|exact H3].
Defined.

Section LookupWitness.
#[local] Existing Instance Concrete.geth.

Lemma Lookup_exact_witness :
  let md := mkMetadata "x" ∅ Uint48 None None in
  let load := λ n : nat, (({[ [1] := md ]}, None), S n) in
  (Lookup load map_to_list (hashKey [1]) (mkLookup 0%nat ∅)).1 = Ok md.
Proof.
  intros md load.
  pose proof (Lookup_exact load map_to_list (hashKey [1]) (mkLookup 0%nat ∅) (λ m, reflexivity _)) as Hl.
  destruct (Lookup load map_to_list (hashKey [1]) (mkLookup 0%nat ∅)) as [r k].
  simpl in Hl. rewrite lookup_empty in Hl. destruct Hl as [_ Hl]. apply Hl.
  - intros k1 k2 [v1 H1] [v2 H2] _. apply lookup_singleton_Some in H1 as [<- _], H2 as [<- _]. reflexivity.
  - left. exists [1]. split; [apply lookup_singleton_eq|reflexivity].
Defined.

End LookupWitness.
