(* ===== verification/StorageBackFill.v ===== *)
(** * Fetching and back-filling storage diffs (libraries/shared/storage/backfiller.go,
    fetcher/state_diff_fetcher.go, fetcher/geth_rpc_storage_fetcher.go,
    fetcher/csv_tail_storage_fetcher.go)

    The back-filler splits a range of blocks into bins and handles each in a
    goroutine of its own, at most ten at a time.  The dispatching goroutine,
    the workers and the listening goroutine that counts finished workers are
    interleaved as a step relation. *)

From S2P Require Import Prelude GoInt Heights Geth Sql StorageDecode.

(** ** What is sent for a payload *)

Section Sends.
Context `{GethCommon} `{StateDiffLib}.

(** A send on the channel of diffs or on the channel of errors. *)
Definition send : Type := StorageDiffInput + error.

Definition storage_send (stateDiff : StateObject) (account : StateNode_) (storage : bytes * bytes)
    : result send :=
  match FromGethStateDiff account stateDiff storage with
  | Ok diff => Ok (inl diff)
  | Err formatErr => Ok (inr formatErr)
  | Panic w => Panic w
  end.

Definition account_sends (stateDiff : StateObject) (account : StateNode_) : result (list send) :=
  range_collect (storage_send stateDiff account) (sn_StorageNodes account).

Definition statediff_sends (stateDiff : StateObject) : result (list send) :=
  sends <-! range_collect (account_sends stateDiff) (GetAccountsFromDiff stateDiff) ;;
  Ok (concat sends).

(** The body of the loop of [backFillRange]: an undecodable payload is skipped. *)
Definition payload_sends (StateObjectRlp : bytes) : result (list send) :=
  let '(stateDiff, stateDiffDecodeErr) := rlp_StateObject StateObjectRlp in
  match stateDiffDecodeErr with
  | Some e => Ok [inr e]
  | None => statediff_sends stateDiff
  end.

(** The loop of [GethRPCStorageFetcher.FetchStorageDiffs]: after a decoding
    error what was decoded is processed. *)
Definition streamed_sends (StateObjectRlp : bytes) : result (list send) :=
  let '(stateDiff, decodeErr) := rlp_StateObject StateObjectRlp in
  sends <-! statediff_sends stateDiff ;;
  Ok (match decodeErr with Some e => inr e :: sends | None => sends end).

(** The loop of [CsvTailStorageFetcher.FetchStorageDiffs], on a line split at
    its commas. *)
Fixpoint split_commas (s : string) (field : string) : list string :=
  match s with
  | EmptyString => [field]
  | String "," s => field :: split_commas s ""
  | String c s => split_commas s (field +:+ String c "")
  end.

Definition csv_send (line : string) : result send :=
  match FromParityCsvRow (split_commas line "") with
  | Ok diff => Ok (inl diff)
  | Err parseErr => Ok (inr parseErr)
  | Panic w => Panic w
  end.

(** state_diff_fetcher.go: [BatchCall] fills in, for each height, an error or
    the RLP of a state diff. *)
Context (BatchCall : list Z → result (list (option error * bytes))).

Fixpoint batch_results (batch : list (option error * bytes)) : result (list bytes) :=
  match batch with
  | [] => Ok []
  | (Some e, _) :: _ => Err (Errorf "stateDiffFetcher err")
  | (None, payload) :: batch => rest <-! batch_results batch ;; Ok (payload :: rest)
  end.

Definition FetchStateDiffsAt (blockHeights : list Z) : result (list bytes) :=
  match BatchCall blockHeights with
  | Ok batch => batch_results batch
  | Err _ => Err (Errorf "stateDiffFetcher err")
  | Panic w => Panic w
  end.

(** [backFillRange]: everything a worker sends before it signals that it is done. *)
Definition backFillRange (blockHeights : list Z) : result (list send) :=
  let '(fetchErr, payloads) :=
    match FetchStateDiffsAt blockHeights with
    | Ok payloads => ([], payloads)
    | Err e => ([inr e], [])
    | Panic _ => ([], [])
    end in
  sends <-! range_collect payload_sends payloads ;;
  Ok (fetchErr ++ concat sends).

End Sends.

(** ** The processes of [BackFill] *)

Definition defaultMaxBatchNumber : Z := 10.
Definition DefaultMaxBatchSize : Z := 100.

Section Processes.
Context {bin : Type}.

(** The dispatcher: about to count the next bin, past the limit but not yet
    receiving, or receiving from [forwardDone]. *)
Inductive phase : Type :=
| Loop (rest : list bin)
| OverLimit (b : bin) (rest : list bin)
| Receiving (b : bin) (rest : list bin).

(** The listener: receiving from [processingDone], about to offer a signal on
    [forwardDone], or returned after sending on [done]. *)
Inductive listening : Type := Listen | Signal | Returned.

Record bf : Type := mkBf {
  dispatcher : phase;
  activeCount : Z;
  running : list bin;
  listener : listening;
  goroutinesFinished : nat;
  processed : list bin
}.

(** [AddInt64] and the comparison, then [go backFillRange] within the limit. *)
Definition dispatch (st : bf) : option bf :=
  match dispatcher st with
  | Loop (b :: rest) =>
      let n := activeCount st + 1 in
      if defaultMaxBatchNumber <? n
      then Some (mkBf (OverLimit b rest) n (running st) (listener st) (goroutinesFinished st) (processed st))
      else Some (mkBf (Loop rest) n (running st ++ [b]) (listener st) (goroutinesFinished st) (processed st))
  | OverLimit b rest =>
      Some (mkBf (Receiving b rest) (activeCount st) (running st) (listener st)
        (goroutinesFinished st) (processed st))
  | _ => None
  end.

(** Worker [i] signals on [processingDone]. *)
Definition finish (i : nat) (st : bf) : option bf :=
  match listener st, running st !! i with
  | Listen, Some b =>
      Some (mkBf (dispatcher st) (activeCount st - 1) (delete i (running st)) Signal
        (goroutinesFinished st) (processed st ++ [b]))
  | _, _ => None
  end.

(** The offer on [forwardDone] is taken only by a dispatcher that is receiving;
    the last finished worker ends the listener. *)
Definition signal (total : nat) (st : bf) : option bf :=
  match listener st with
  | Signal =>
      let n := S (goroutinesFinished st) in
      let l := if (total <=? n)%nat then Returned else Listen in
      match dispatcher st with
      | Receiving b rest =>
          Some (mkBf (Loop rest) (activeCount st) (running st ++ [b]) l n (processed st))
      | p => Some (mkBf p (activeCount st) (running st) l n (processed st))
      end
  | _ => None
  end.

Inductive bf_step (total : nat) : bf → bf → Prop :=
| step_dispatch st st' : dispatch st = Some st' → bf_step total st st'
| step_finish i st st' : finish i st = Some st' → bf_step total st st'
| step_signal st st' : signal total st = Some st' → bf_step total st st'.

Definition bf_start (bins : list bin) : bf := mkBf (Loop bins) 0 [] Listen 0 [].

Definition stuck (total : nat) (st : bf) : Prop := ∀ st', ¬ bf_step total st st'.

(** ** Lemmas *)

Definition undispatched (p : phase) : list bin :=
  match p with Loop rest => rest | OverLimit b rest | Receiving b rest => b :: rest end.

Definition waiting (p : phase) : nat := match p with Loop _ => 0 | _ => 1 end.

Record bf_ok (bins : list bin) (st : bf) : Prop := {
  ok_bins : undispatched (dispatcher st) ++ running st ++ processed st ≡ₚ bins;
  ok_active : activeCount st = Z.of_nat (length (running st) + waiting (dispatcher st));
  ok_listener : match listener st with
    | Listen => (goroutinesFinished st = length (processed st) ∧ goroutinesFinished st < length bins)%nat
    | Signal => (S (goroutinesFinished st) = length (processed st))%nat
    | Returned => (length bins ≤ length (processed st))%nat
    end;
  ok_small : (length bins ≤ 10)%nat → waiting (dispatcher st) = 0%nat
}.

Lemma bf_start_ok bins : bins ≠ [] → bf_ok bins (bf_start bins).
Proof.
  intros Hb. split; simpl; [by rewrite app_nil_r|done| |done]. split; [done|].
  destruct bins; [done|simpl; lia].
Qed.

Lemma delete_snoc_perm (l : list bin) i b : l !! i = Some b → delete i l ++ [b] ≡ₚ l.
Proof. intros Hi. rewrite (delete_Permutation l i b Hi) at 2. symmetry. apply Permutation_cons_append. Qed.

Lemma bf_step_ok bins st st' : bf_ok bins st → bf_step (length bins) st st' → bf_ok bins st'.
Proof.
  intros [H1 H2 H3 H4] Hs. pose proof (Permutation_length H1) as Hlen. rewrite !length_app in Hlen.
  destruct Hs as [st st' Hs|i st st' Hs|st st' Hs].
  - unfold dispatch in Hs. destruct (dispatcher st) as [[|b rest]|b rest|b rest] eqn:Ed; [done| | |done]; simpl in *.
    + destruct (Z.ltb_spec defaultMaxBatchNumber (activeCount st + 1)) as [Hlt|Hge]; injection Hs as <-; split; simpl; try done; try lia.
      * intros Hsmall. unfold defaultMaxBatchNumber in Hlt. lia.
      * rewrite <- H1. by rewrite <- app_assoc, (Permutation_middle rest), Permutation_middle.
      * rewrite length_app. simpl. lia.
    + injection Hs as <-. by split.
  - unfold finish in Hs. destruct (listener st) eqn:El; [|done..]. destruct (running st !! i) as [b|] eqn:Ei; [|done].
    injection Hs as <-. split; simpl; [| | |done].
    + rewrite <- H1. apply Permutation_app_head.
      by rewrite (Permutation_app_comm (processed st)), app_assoc, (delete_snoc_perm _ _ _ Ei).
    + rewrite length_delete by done. apply lookup_lt_Some in Ei. lia.
    + rewrite length_app. simpl. lia.
  - unfold signal in Hs. destruct (listener st) eqn:El; [done| |done].
    assert (Hl : match (if (length bins <=? S (goroutinesFinished st))%nat then Returned else Listen) with
      | Listen => (S (goroutinesFinished st) = length (processed st) ∧ S (goroutinesFinished st) < length bins)%nat
      | Signal => (S (S (goroutinesFinished st)) = length (processed st))%nat
      | Returned => (length bins ≤ length (processed st))%nat end).
    { destruct (Nat.leb_spec (length bins) (S (goroutinesFinished st))); lia. }
    destruct (dispatcher st) as [rest|b rest|b rest] eqn:Ed; injection Hs as <-; split; simpl in *; try done.
    + rewrite <- H1. by rewrite <- app_assoc, (Permutation_middle rest), Permutation_middle.
    + rewrite length_app. simpl. lia.
Qed.

Lemma bf_reachable_ok bins st : bins ≠ [] → rtc (bf_step (length bins)) (bf_start bins) st → bf_ok bins st.
Proof.
  intros Hb Hr. assert (Hs := bf_start_ok bins Hb). induction Hr as [|st1 st2 st3 Hstep _ IH]; [done|].
  apply IH. by eapply bf_step_ok.
Qed.

(** Each step lowers this measure. *)
Definition bf_cost (st : bf) : nat :=
  match dispatcher st with
  | Loop rest => 5 * length rest
  | OverLimit _ rest => 5 * length rest + 4
  | Receiving _ rest => 5 * length rest + 3
  end + 2 * length (running st) + match listener st with Signal => 1 | _ => 0 end.

Lemma bf_step_cost total st st' : bf_step total st st' → (bf_cost st' < bf_cost st)%nat.
Proof.
  intros Hs. unfold bf_cost. destruct Hs as [st st' Hs|i st st' Hs|st st' Hs].
  - unfold dispatch in Hs. destruct (dispatcher st) as [[|b rest]|b rest|b rest]; [done| | |done].
    + destruct (defaultMaxBatchNumber <? _); injection Hs as <-; simpl; rewrite ?length_app; simpl; lia.
    + injection Hs as <-. simpl. lia.
  - unfold finish in Hs. destruct (listener st); [|done..]. destruct (running st !! i) as [b|] eqn:Ei; [|done].
    injection Hs as <-. simpl. rewrite length_delete by done. apply lookup_lt_Some in Ei. lia.
  - unfold signal in Hs. destruct (listener st); [done| |done].
    assert (Hz : ∀ c : bool, match (if c then Returned else Listen) with Signal => 1 | _ => 0 end%nat = 0%nat) by (by intros []).
    destruct (dispatcher st) as [rest|b rest|b rest]; injection Hs as <-; simpl; rewrite Hz, ?length_app; simpl; lia.
Qed.

Lemma stuck_cases total st : stuck total st →
  (dispatcher st = Loop [] ∨ ∃ b rest, dispatcher st = Receiving b rest) ∧
  (listener st = Returned ∨ listener st = Listen ∧ running st = []).
Proof.
  intros Hst. split.
  - destruct (dispatcher st) as [[|b rest]|b rest|b rest] eqn:Ed; [by left| | |by right; eauto].
    + exfalso. destruct (dispatch st) eqn:E; [by eapply Hst, step_dispatch|].
      unfold dispatch in E. rewrite Ed in E. by destruct (_ <? _).
    + exfalso. eapply Hst, step_dispatch. unfold dispatch. by rewrite Ed.
  - destruct (listener st) eqn:El; [|exfalso|by left].
    + right. split; [done|]. destruct (running st) as [|b l] eqn:Er; [done|]. exfalso.
      eapply Hst, (step_finish _ 0). unfold finish. by rewrite El, Er.
    + destruct (signal total st) eqn:E; [by eapply Hst, step_signal|].
      unfold signal in E. rewrite El in E. by destruct (dispatcher st).
Qed.

(** ** Lemmas: a schedule that stalls *)

(** The dispatcher hands out [l] within the limit. *)
Lemma dispatch_many total l : ∀ rest run k,
  (Z.of_nat (length run + length l) ≤ 10) →
  rtc (bf_step total) (mkBf (Loop (l ++ rest)) (Z.of_nat (length run)) run Listen k [])
    (mkBf (Loop rest) (Z.of_nat (length run + length l)) (run ++ l) Listen k []).
Proof.
  induction l as [|b l IH]; intros rest run k Hle; simpl in *.
  - rewrite app_nil_r, Nat.add_0_r. done.
  - eapply rtc_l.
    + apply step_dispatch. unfold dispatch. simpl.
      destruct (Z.ltb_spec defaultMaxBatchNumber (Z.of_nat (length run) + 1)) as [Hlt|_]; [unfold defaultMaxBatchNumber in Hlt; lia|].
      reflexivity.
    + specialize (IH rest (run ++ [b]) k). rewrite length_app in IH. simpl in IH.
      replace (Z.of_nat (length run) + 1) with (Z.of_nat (length run + 1)) by lia.
      rewrite <- app_assoc in IH. simpl in IH.
      replace (length run + S (length l))%nat with (length run + 1 + length l)%nat by lia. apply IH. lia.
Qed.

(** Workers finish one after the other while the dispatcher is between its
    comparison and its receive: every signal is dropped. *)
Lemma finish_many total b rest l : ∀ n done_,
  (n + length l < total)%nat → length done_ = n →
  rtc (bf_step total) (mkBf (OverLimit b rest) (Z.of_nat (length l) + 1) l Listen n done_)
    (mkBf (OverLimit b rest) 1 [] Listen (n + length l) (done_ ++ l)).
Proof.
  induction l as [|x l IH]; intros n done_ Hlt Hn; simpl in *.
  - by rewrite app_nil_r, Nat.add_0_r.
  - eapply rtc_l; [by apply (step_finish _ 0)|]. eapply rtc_l; [by apply step_signal|]. simpl.
    rewrite (proj2 (Nat.leb_gt total (S n))) by lia.
    replace (Z.of_nat (S (length l)) + 1 - 1) with (Z.of_nat (length l) + 1) by lia.
    specialize (IH (S n) (done_ ++ [x])). rewrite <- app_assoc in IH. simpl in IH.
    replace (n + S (length l))%nat with (S (n + length l)) by lia. apply IH; [lia|].
    rewrite length_app. simpl. lia.
Qed.

(** ** Properties *)

(** C24: every run of [BackFill]'s processes is finite, no bin is handled twice
    and [done] is sent only when all bins were; with at most ten bins a run
    can only end with [done] sent. *)
Theorem BackFill_terminates bins st :
  bins ≠ [] → rtc (bf_step (length bins)) (bf_start bins) st →
  Acc (flip (bf_step (length bins))) st ∧
  (∃ rest, processed st ++ rest ≡ₚ bins) ∧
  (listener st = Returned → processed st ≡ₚ bins) ∧
  ((length bins ≤ 10)%nat → stuck (length bins) st → listener st = Returned).
Proof.
  intros Hb Hr. destruct (bf_reachable_ok bins st Hb Hr) as [H1 H2 H3 H4].
  pose proof (Permutation_length H1) as Hlen. rewrite !length_app in Hlen. split_and!.
  - clear.
    remember (bf_cost st) as n eqn:Hn. revert st Hn. induction n as [n IH] using lt_wf_ind. intros st ->.
    constructor. intros st' Hs. eapply IH; [|reflexivity]. by eapply bf_step_cost.
  - exists (undispatched (dispatcher st) ++ running st). by rewrite Permutation_app_comm, <- app_assoc.
  - intros Hl. rewrite Hl in H3. assert (undispatched (dispatcher st) = [] ∧ running st = []) as [Hu Hru].
    { split; apply nil_length_inv; lia. }
    by rewrite <- H1, Hu, Hru.
  - intros Hsmall Hst. destruct (stuck_cases _ _ Hst) as [[Hd|(b & rest & Hd)] [?|[Hl Hru]]]; try done.
    + rewrite Hl in H3. rewrite Hd, Hru in Hlen. simpl in Hlen. lia.
    + specialize (H4 Hsmall). by rewrite Hd in H4.
Qed.

(** With more than ten bins [BackFill] can stall: if the ten running workers
    finish after the dispatcher has found the limit exceeded and before it
    waits for a signal, all signals are dropped; the eleventh bin is never
    handled and [done] is never sent. *)
Theorem BackFill_can_stall bins : (10 < length bins)%nat →
  ∃ st b rest, rtc (bf_step (length bins)) (bf_start bins) st ∧ stuck (length bins) st ∧
    listener st ≠ Returned ∧ processed st = take 10 bins ∧
    dispatcher st = Receiving b rest ∧ drop 10 bins = b :: rest.
Proof.
  intros Hlen. destruct (drop 10 bins) as [|b rest] eqn:Ed.
  { assert (Hz : length (drop 10 bins) = 0%nat) by (by rewrite Ed). rewrite length_drop in Hz. lia. }
  exists (mkBf (Receiving b rest) 1 [] Listen 10 (take 10 bins)), b, rest.
  assert (Htake : length (take 10 bins) = 10%nat) by (rewrite length_take; lia).
  split_and!; [|intros st' Hs; by inversion Hs|done..].
  unfold bf_start. rewrite <- (take_drop 10 bins) at 2. rewrite Ed.
  etransitivity; [apply (dispatch_many _ (take 10 bins) (b :: rest) [] 0); simpl; lia|]. simpl. rewrite Htake.
  eapply rtc_l; [by apply step_dispatch|]. simpl.
  etransitivity.
  { pose proof (finish_many (length bins) b rest (take 10 bins) 0 []) as Hf. rewrite Htake in Hf.
    apply Hf; [lia|done]. }
  simpl. apply rtc_once. by apply step_dispatch.
Qed.

End Processes.

Arguments bf : clear implicits.

(** [BackFill] splits the range and starts the processes on its bins. *)
Definition BackFill (batchSize startingBlock endingBlock : Z) : result (bf (list Z)) :=
  let batchSize := if batchSize =? 0 then DefaultMaxBatchSize else batchSize in
  blockRangeBins <-! GetBlockHeightBins startingBlock endingBlock batchSize ;;
  Ok (bf_start blockRangeBins).

(** ** Witnesses *)

Lemma BackFill_terminates_witness :
  let bins := [[1; 2]; [3]] in
  let st := mkBf (Loop []) 0 [] Returned 2 bins in
  rtc (bf_step 2) (bf_start bins) st ∧ processed st ≡ₚ bins.
Proof.
  intros bins st. assert (Hr : rtc (bf_step 2) (bf_start bins) st).
  { eapply rtc_l; [apply step_dispatch; reflexivity|]. eapply rtc_l; [apply (step_finish _ 0); reflexivity|].
    eapply rtc_l; [apply step_signal; reflexivity|]. eapply rtc_l; [apply step_dispatch; reflexivity|].
    eapply rtc_l; [apply (step_finish _ 0); reflexivity|]. eapply rtc_l; [apply step_signal; reflexivity|].
    apply rtc_refl. }
  split; [exact Hr|]. by apply (BackFill_terminates bins st ltac:(discriminate) Hr).
Defined.

Lemma BackFill_can_stall_witness :
  let bins := map (λ n, [n]) (seqZ 1 11) in
  ∃ st b rest, rtc (bf_step (length bins)) (bf_start bins) st ∧ stuck (length bins) st ∧
    listener st ≠ Returned ∧ processed st = take 10 bins ∧
    dispatcher st = Receiving b rest ∧ drop 10 bins = b :: rest.
Proof. intros bins. apply (BackFill_can_stall bins). vm_compute. lia. Defined.
