(* ===== verification/BlockChain.v ===== *)
(** * The chain client of header sync (pkg/eth/blockchain.go,
    pkg/eth/converters)

    Requests to the node and their conversion into the types of pkg/eth/core.
    The RPC client of go-ethereum is a parameter: a batch call answers each
    request with what was decoded into its result, a zero value for a block or
    transaction the node does not have, whose error the code does not read. *)

From S2P Require Import Prelude GoInt Geth.

(** ** pkg/eth/core *)

Record Header : Type := mkHeader {
  hd_ID : Z;
  hd_BlockNumber : Z;
  hd_Hash : string;
  hd_Raw : bytes;
  hd_Timestamp : string
}.

Record TransactionModel : Type := mkTransactionModel {
  tm_Data : bytes;
  tm_From : string;
  tm_GasLimit : Z;
  tm_GasPrice : Z;
  tm_Hash : string;
  tm_Nonce : Z;
  tm_Raw : bytes;
  tm_To : string;
  tm_TxIndex : Z;
  tm_Value : string
}.

Record Receipt : Type := mkReceipt {
  rc_ContractAddress : string;
  rc_CumulativeGasUsed : Z;
  rc_GasUsed : Z;
  rc_StateRoot : string;
  rc_Status : Z;
  rc_TxHash : string;
  rc_Rlp : bytes
}.

Record RPCTransaction : Type := mkRPCTransaction {
  rt_Nonce : string;
  rt_GasPrice : string;
  rt_GasLimit : string;
  rt_Recipient : string;
  rt_Amount : string;
  rt_Payload : string;
  rt_V : string;
  rt_R : string;
  rt_S : string;
  rt_Hash : string;
  rt_From : string;
  rt_TransactionIndex : string
}.

Definition zero_RPCTransaction : RPCTransaction :=
  mkRPCTransaction "" "" "" "" "" "" "" "" "" "" "" "".

(** core.Node; [NetworkID] is what node.MakeNode prints with "%f". *)
Record Node : Type := mkNode {
  GenesisBlock : string; NetworkID : string; ID : string; ClientName : string }.

(** [string(core.KOVAN_NETWORK_ID)] converts the number 42 to a character. *)
Definition string_KOVAN_NETWORK_ID : string := String (ascii_of_nat 42) EmptyString.

(** ** go-ethereum *)

(** types.Header *)
Record types_Header : Type := mkTypesHeader {
  th_ParentHash : bytes; th_UncleHash : bytes; th_Coinbase : bytes; th_Root : bytes;
  th_TxHash : bytes; th_ReceiptHash : bytes; th_Bloom : bytes;
  th_Difficulty : option Z; th_Number : option Z;
  th_GasLimit : Z; th_GasUsed : Z; th_Time : Z; th_Extra : bytes;
  th_MixDigest : bytes; th_Nonce : bytes
}.

Definition zero_Header : types_Header :=
  mkTypesHeader [] [] [] [] [] [] [] None None 0 0 0 [] [] [].

(** core.POAHeader *)
Record POAHeader : Type := mkPOAHeader {
  poa_ParentHash : bytes; poa_UncleHash : bytes; poa_Coinbase : bytes; poa_Root : bytes;
  poa_TxHash : bytes; poa_ReceiptHash : bytes; poa_Bloom : bytes;
  poa_Difficulty : option Z; poa_Number : option Z;
  poa_GasLimit : Z; poa_GasUsed : Z; poa_Time : Z; poa_Extra : bytes; poa_Hash : bytes
}.

Definition zero_POAHeader : POAHeader :=
  mkPOAHeader [] [] [] [] [] [] [] None None 0 0 0 [] [].

(** types.Log *)
Record types_Log : Type := mkTypesLog {
  tl_Address : bytes; tl_Topics : list bytes; tl_Data : bytes; tl_BlockNumber : Z;
  tl_TxHash : bytes; tl_TxIndex : Z; tl_BlockHash : bytes; tl_Index : Z; tl_Removed : bool
}.

#[global] Instance types_Log_eq_dec : EqDecision types_Log.
Proof. solve_decision. Defined.

(** ethereum.FilterQuery, by block hash *)
Record FilterQuery : Type := mkFilterQuery {
  fq_BlockHash : bytes; fq_Addresses : list bytes; fq_Topics : list (list bytes) }.

(** transactionData of converters/rpc; a nil recipient is a contract creation. *)
Record transactionData : Type := mkTransactionData {
  td_AccountNonce : Z; td_Price : Z; td_GasLimit : Z; td_Recipient : option bytes;
  td_Amount : Z; td_Payload : bytes; td_V : Z; td_R : Z; td_S : Z }.

(** The batches answer element by element. *)
Class EthClient := {
  Header_Hash : types_Header → bytes;
  json_Header : types_Header → result bytes;
  rlp_transactionData : transactionData → result bytes;
  hexutil_Decode : string → result bytes;
  HeaderByNumber : option Z → result types_Header;
  FilterLogs : FilterQuery → result (list types_Log);
  call_POAHeader : Z → result POAHeader;
  batch_headers : list Z → result (list types_Header);
  batch_POA_headers : list Z → result (list POAHeader);
  batch_transactions : list bytes → result (list RPCTransaction)
}.

(** ** fmt.Sscan into a big.Int, as of Go 1.12 (go.mod): a base prefix 0x, 0b
    or 0, and the longest run of digits; what follows is not read. *)

Definition digit_value (c : ascii) : option Z :=
  let n := Z.of_nat (nat_of_ascii c) in
  if (48 <=? n) && (n <=? 57) then Some (n - 48)
  else if (97 <=? n) && (n <=? 122) then Some (n - 97 + 10)
  else if (65 <=? n) && (n <=? 90) then Some (n - 65 + 10)
  else None.

(** Digits up to the first character that is none; [count] of them. *)
Fixpoint scan_digits (base : Z) (s : string) (z : Z) (count : nat) : Z * nat :=
  match s with
  | EmptyString => (z, count)
  | String c s' =>
      match digit_value c with
      | Some d => if d <? base then scan_digits base s' (z * base + d) (S count) else (z, count)
      | None => (z, count)
      end
  end.

Definition err_scan : error := Driver "fmt: scan error".

Definition scan_number (base : Z) (s : string) : result Z :=
  let '(z, count) := scan_digits base s 0 0 in
  if (count =? 0)%nat then Err err_scan else Ok z.

Definition scan_unsigned (s : string) : result Z :=
  match s with
  | String "0" (String "x" s') | String "0" (String "X" s') => scan_number 16 s'
  | String "0" (String "b" s') | String "0" (String "B" s') => scan_number 2 s'
  | String "0" (String _ _) => scan_number 8 s
  | _ => scan_number 10 s
  end.

Definition is_space (c : ascii) : bool :=
  let n := nat_of_ascii c in (n =? 32)%nat || ((9 <=? n)%nat && (n <=? 13)%nat).

Fixpoint skip_space (s : string) : string :=
  match s with
  | String c s' => if is_space c then skip_space s' else s
  | EmptyString => s
  end.

Definition hexToBigInt (hex : string) : result Z :=
  match skip_space hex with
  | String "-" s => z <-! scan_unsigned s ;; Ok (- z)
  | String "+" s => scan_unsigned s
  | s => scan_unsigned s
  end.

(** ** converters/rpc/transaction_converter.go *)

Section Client.
Context `{GethCommon} `{EthClient}.

Definition getTransactionData (transaction : RPCTransaction) : result transactionData :=
  nonce <-! hexToBigInt (rt_Nonce transaction) ;;
  gasPrice <-! hexToBigInt (rt_GasPrice transaction) ;;
  gasLimit <-! hexToBigInt (rt_GasLimit transaction) ;;
  let recipient := HexToAddress (rt_Recipient transaction) in
  amount <-! hexToBigInt (rt_Amount transaction) ;;
  v <-! hexToBigInt (rt_V transaction) ;;
  r <-! hexToBigInt (rt_R transaction) ;;
  s <-! hexToBigInt (rt_S transaction) ;;
  match hexutil_Decode (rt_Payload transaction) with
  | Ok payload =>
      Ok (mkTransactionData (u64 (Z.abs nonce)) gasPrice (u64 (Z.abs gasLimit)) (Some recipient)
            amount payload v r s)
  | Err _ | Panic _ => Panic "hexutil.MustDecode"
  end.

Definition getTransactionRLP (txData : transactionData) : result bytes := rlp_transactionData txData.

Definition ConvertRPCTransactionsToModels (transactions : list RPCTransaction)
    : result (list TransactionModel) :=
  range_collect (λ transaction,
    txData <-! getTransactionData transaction ;;
    txRLP <-! getTransactionRLP txData ;;
    txIndex <-! hexToBigInt (rt_TransactionIndex transaction) ;;
    Ok (mkTransactionModel (td_Payload txData) (rt_From transaction) (td_GasLimit txData)
          (i64 (td_Price txData)) (rt_Hash transaction) (td_AccountNonce txData) txRLP
          (rt_Recipient transaction) (i64 txIndex) (pretty (td_Amount txData)))) transactions.

(** ** converters/common/header_converter.go *)

(** [gethHeader.Number.Int64()] is only reached with a number. *)
Definition HeaderConverter_Convert (gethHeader : types_Header) (blockHash : string) : result Header :=
  match json_Header gethHeader with
  | Ok rawHeader =>
      match th_Number gethHeader with
      | Some number => Ok (mkHeader 0 (i64 number) blockHash rawHeader (pretty (th_Time gethHeader)))
      | None => Panic "nil pointer dereference"
      end
  | Err _ | Panic _ => Panic "json.Marshal"
  end.

(** ** blockchain.go *)

Definition ErrEmptyHeader : error := Sentinel "empty header returned over RPC".
Definition MAX_BATCH_SIZE : nat := 100.

(** [batch_headers] and the other batches are answers to this list of
    arguments; the array they fill has [MAX_BATCH_SIZE] zero elements. *)
Definition batch_array {H} (zero : H) (call : list Z → result (list H)) (blockNumbers : list Z)
    : result (list H) :=
  let batch := take MAX_BATCH_SIZE blockNumbers in
  results <-! call batch ;;
  Ok (take (length batch) (results ++ replicate (length batch) zero)
      ++ replicate (MAX_BATCH_SIZE - length batch) zero).

Definition getPOWHeaders (blockNumbers : list Z) : result (list Header) :=
  POWHeaders <-! batch_array zero_Header batch_headers blockNumbers ;;
  range_collect (λ POWHeader, HeaderConverter_Convert POWHeader (Hash_String (Header_Hash POWHeader)))
    (filter (λ POWHeader, is_Some (th_Number POWHeader)) POWHeaders).

Definition POA_to_header (h : POAHeader) : types_Header :=
  mkTypesHeader (poa_ParentHash h) (poa_UncleHash h) (poa_Coinbase h) (poa_Root h) (poa_TxHash h)
    (poa_ReceiptHash h) (poa_Bloom h) (poa_Difficulty h) (poa_Number h) (poa_GasLimit h)
    (poa_GasUsed h) (poa_Time h) (poa_Extra h) [] [].

(** [strconv.ParseUint(n.String(), 16, 64)]: the decimal digits of the number
    read as hexadecimal digits. *)
Fixpoint dec_as_hex (fuel : nat) (n : Z) : Z :=
  match fuel with
  | O => 0
  | S fuel => if n <? 10 then n else 16 * dec_as_hex fuel (n / 10) + n mod 10
  end.

Definition parses_as_hex (number : option Z) : bool :=
  match number with
  | Some n => (0 <=? n) && (n <? 10 ^ 40) && (dec_as_hex 40 n <? two64)
  | None => false
  end.

Definition getPOAHeaders (blockNumbers : list Z) : result (list Header) :=
  POAHeaders <-! batch_array zero_POAHeader batch_POA_headers blockNumbers ;;
  range_collect (λ h, HeaderConverter_Convert (POA_to_header h) (Hash_String (poa_Hash h)))
    (filter (λ h, parses_as_hex (poa_Number h)) POAHeaders).

Definition getPOWHeader (blockNumber : Z) : result Header :=
  gethHeader <-! HeaderByNumber (Some blockNumber) ;;
  HeaderConverter_Convert gethHeader (Hash_String (Header_Hash gethHeader)).

Definition getPOAHeader (blockNumber : Z) : result Header :=
  h <-! call_POAHeader blockNumber ;;
  match poa_Number h with
  | None => Err ErrEmptyHeader
  | Some _ => HeaderConverter_Convert (POA_to_header h) (Hash_String (poa_Hash h))
  end.

Definition is_kovan (node : Node) : bool := bool_decide (NetworkID node = string_KOVAN_NETWORK_ID).

Definition GetHeadersByNumbers (node : Node) (blockNumbers : list Z) : result (list Header) :=
  if is_kovan node then getPOAHeaders blockNumbers else getPOWHeaders blockNumbers.

Definition GetHeaderByNumber (node : Node) (blockNumber : Z) : result Header :=
  if is_kovan node then getPOAHeader blockNumber else getPOWHeader blockNumber.

Definition GetEthLogsWithCustomQuery (query : FilterQuery) : result (list types_Log) := FilterLogs query.

(** The batch has no size limit here. *)
Definition GetTransactions (transactionHashes : list bytes) : result (list TransactionModel) :=
  let numTransactions := length transactionHashes in
  results <-! batch_transactions transactionHashes ;;
  ConvertRPCTransactionsToModels
    (take numTransactions (results ++ replicate numTransactions zero_RPCTransaction)).

(** The node's headers have a number. *)
Definition LastBlock : result Z :=
  block <-! HeaderByNumber None ;;
  match th_Number block with
  | Some number => Ok number
  | None => Panic "nil pointer dereference"
  end.

End Client.

(** ** The interface to header sync

    A chain with the header [chain n] at height [n] answers a request for
    several heights with the headers of the first [MAX_BATCH_SIZE] of them. *)

Definition answers (chain : Z → Header) (GetHeadersByNumbers : list Z → result (list Header)) : Prop :=
  (∀ n, hd_BlockNumber (chain n) = n) ∧
  (∀ ns, Forall is_i64 ns → GetHeadersByNumbers ns = Ok (map chain (take MAX_BATCH_SIZE ns))).

(** ** Lemmas *)

Section Lemmas.
Context `{GethCommon} `{EthClient}.

Lemma batch_array_full {A} (zero : A) (block : Z → A) call ns :
  (∀ ns, call ns = Ok (map block ns)) →
  batch_array zero call ns =
  Ok (map block (take MAX_BATCH_SIZE ns) ++ replicate (MAX_BATCH_SIZE - length (take MAX_BATCH_SIZE ns)) zero).
Proof.
  intros Hc. unfold batch_array. rewrite Hc. simpl. do 2 f_equal.
  apply take_app_length'. by rewrite length_map.
Qed.

(** Filled elements are kept, the rest of the array is not. *)
Lemma filter_filled {A} (P : A → Prop) `{!∀ x, Decision (P x)} l zero n :
  Forall P l → ¬ P zero → filter P (l ++ replicate n zero) = l.
Proof.
  intros Hl Hz. rewrite filter_app. rewrite filter_all by (by apply Forall_forall).
  assert (Hr : filter P (replicate n zero) = []).
  { induction n as [|n IH]; [done|]. simpl. by rewrite filter_cons, decide_False. }
  by rewrite Hr, app_nil_r.
Qed.

Lemma range_collect_map {A B C} (f : B → result C) (g : A → B) (h : A → C) l :
  (∀ x, x ∈ l → f (g x) = Ok (h x)) → range_collect f (map g l) = Ok (map h l).
Proof.
  intros Hf. rewrite range_collect_fmap. apply range_collect_Ok.
  induction l as [|x l IH]; constructor; [apply Hf; by left|]. apply IH. intros y Hy. apply Hf. by right.
Qed.

Lemma scan_digits_step base c s z n d :
  digit_value c = Some d → d < base →
  scan_digits base (String c s) z n = scan_digits base s (z * base + d) (S n).
Proof. intros Hc Hd. simpl. rewrite Hc. by destruct (d <? base) eqn:E; [|lia]. Qed.

End Lemmas.

(** ** Quantities of JSON-RPC: "0x" and hexadecimal digits *)

Definition hex_char (d : Z) : ascii :=
  ascii_of_nat (Z.to_nat (if d <? 10 then 48 + d else 87 + d)).

Fixpoint hex_digits (fuel : nat) (n : Z) (acc : string) : string :=
  match fuel with
  | O => acc
  | S fuel =>
      let acc := String (hex_char (n mod 16)) acc in
      if n <? 16 then acc else hex_digits fuel (n / 16) acc
  end.

Definition hex_fuel (n : Z) : nat := S (Z.to_nat n).
Definition quantity (n : Z) : string := "0x" +:+ hex_digits (hex_fuel n) n "".

Lemma digit_value_hex_char d : 0 ≤ d < 16 → digit_value (hex_char d) = Some d.
Proof.
  intros Hd. assert (Hall : Forall (λ d, digit_value (hex_char d) = Some d) (seqZ 0 16)) by (by repeat constructor).
  rewrite Forall_forall in Hall. apply Hall, elem_of_seqZ. lia.
Qed.

Lemma scan_hex_digits fuel : ∀ n acc, 0 ≤ n → (Z.to_nat n < fuel)%nat →
  ∃ k : nat, (0 < k)%nat ∧ ∀ z c,
    scan_digits 16 (hex_digits fuel n acc) z c = scan_digits 16 acc (z * 16 ^ Z.of_nat k + n) (c + k).
Proof.
  induction fuel as [|fuel IH]; intros n acc Hn Hf; [lia|]. simpl.
  assert (Hm : 0 ≤ n mod 16 < 16) by (apply Z.mod_pos_bound; lia).
  destruct (n <? 16) eqn:E; zbool.
  - exists 1%nat. split; [lia|]. intros z c. rewrite (scan_digits_step _ _ _ _ _ (n mod 16)); [|by apply digit_value_hex_char|lia].
    rewrite Z.mod_small by lia. f_equal; lia.
  - destruct (IH (n / 16) (String (hex_char (n mod 16)) acc)) as (k & Hk & Hs).
    + apply Z.div_pos; lia.
    + assert (n / 16 < n) by (apply Z.div_lt; lia). assert (0 ≤ n / 16) by (apply Z.div_pos; lia). lia.
    + exists (S k). split; [lia|]. intros z c. rewrite Hs.
      rewrite (scan_digits_step _ _ _ _ _ (n mod 16)); [|by apply digit_value_hex_char|lia].
      f_equal; [|lia]. rewrite Nat2Z.inj_succ, Z.pow_succ_r by lia.
      pose proof (Z.div_mod n 16 ltac:(lia)). nia.
Qed.

(** ** Properties *)

Section Properties.
Context `{GethCommon} `{EthClient}.

(** On a node whose batches are answered, the client returns the headers
    of the heights asked for in order, but only of the first
    [MAX_BATCH_SIZE] of them: it is a chain as header sync expects it. *)
Theorem GetHeadersByNumbers_answers node (block : Z → types_Header) (raw : Z → bytes) :
  is_kovan node = false → (∀ ns, batch_headers ns = Ok (map block ns)) →
  (∀ n, th_Number (block n) = Some n) → (∀ n, json_Header (block n) = Ok (raw n)) →
  answers (λ n, mkHeader 0 n (Hash_String (Header_Hash (block n))) (raw n) (pretty (th_Time (block n))))
    (GetHeadersByNumbers node).
Proof.
  intros Hk Hb Hn Hj. split; [done|]. intros ns Hns. unfold GetHeadersByNumbers, getPOWHeaders.
  rewrite Hk, (batch_array_full _ block) by done. simpl.
  rewrite filter_filled.
  - apply range_collect_map. intros n Hin. unfold HeaderConverter_Convert. rewrite Hj, Hn, i64_id; [done|].
    rewrite Forall_forall in Hns. apply Hns. eapply elem_of_submseteq; [exact Hin|].
    apply sublist_submseteq, sublist_take.
  - apply Forall_fmap, Forall_true. intros n. simpl. rewrite Hn. by eexists.
  - intros [x Hx]. done.
Qed.

(** The recipient written into a transaction's RLP is never nil: a
    contract creation, whose recipient the node reports as null, is encoded
    as a call of the address zero. *)
Theorem getTransactionData_recipient transaction data :
  getTransactionData transaction = Ok data → td_Recipient data = Some (HexToAddress (rt_Recipient transaction)).
Proof.
  unfold getTransactionData.
  repeat (intros (? & _ & E)%rbind_Ok_inv; revert E).
  by destruct (hexutil_Decode _); intros [= <-].
Qed.

(** The transactions of a block are all converted, in the order of the
    hashes, or the call fails: one transaction the node does not know fails
    it for all. *)
Theorem GetTransactions_all_or_nothing hashes (answer : list RPCTransaction) :
  batch_transactions hashes = Ok answer → length answer = length hashes →
  (zero_RPCTransaction ∈ answer → is_ok (GetTransactions hashes) = false) ∧
  ∀ models, GetTransactions hashes = Ok models →
    Forall2 (λ t m, tm_Hash m = rt_Hash t ∧ tm_From m = rt_From t ∧ tm_To m = rt_Recipient t) answer models.
Proof.
  intros Hb Hlen.
  assert (Htake : take (length hashes) (answer ++ replicate (length hashes) zero_RPCTransaction) = answer).
  { by apply take_app_length'. }
  unfold GetTransactions. rewrite Hb. simpl. rewrite Htake. split.
  - intros Hz. unfold ConvertRPCTransactionsToModels. rewrite range_collect_is_ok.
    apply not_true_iff_false. intros Hall. rewrite forallb_forall in Hall.
    apply list_elem_of_In, Hall in Hz. discriminate Hz.
  - intros models Hm%range_collect_Ok. eapply Forall2_impl; [exact Hm|]. intros t m.
    intros (d & _ & (r & _ & (i & _ & [= <-])%rbind_Ok_inv)%rbind_Ok_inv)%rbind_Ok_inv. by simpl; auto.
Qed.

(** A JSON-RPC quantity -- "0x" and hexadecimal digits -- is read back as
    the number it encodes. *)
Theorem hexToBigInt_quantity n : 0 ≤ n → hexToBigInt (quantity n) = Ok n.
Proof.
  intros Hn. unfold hexToBigInt, quantity. simpl. unfold scan_number.
  destruct (scan_hex_digits (hex_fuel n) n "" Hn) as (k & Hk & E); [unfold hex_fuel; lia|].
  rewrite E. simpl. destruct (k =? 0)%nat eqn:E0; [apply Nat.eqb_eq in E0; lia|]. done.
Qed.

End Properties.

(** ** Witnesses

    A node whose block [n] has number [n], and which knows one transaction. *)

Section Witnesses.
#[local] Existing Instance Concrete.geth.

Definition ex_block (n : Z) : types_Header :=
  mkTypesHeader [] [] [] [] [] [] [] (Some 1) (Some n) 0 0 (n * 15) [] [] [].

Definition ex_transaction : RPCTransaction :=
  mkRPCTransaction "0x1" "0x4a817c800" "0x5208" "" "0x0" "0x" "0x1b" "0x1" "0x2" "hash" "from" "0x3".

#[local] Instance ex_client : EthClient := {|
  Header_Hash := λ h, [default 0 (th_Number h)];
  json_Header := λ h, Ok [th_Time h];
  rlp_transactionData := λ d, Ok (default [] (td_Recipient d));
  hexutil_Decode := λ s, Ok [];
  HeaderByNumber := λ n, Ok (ex_block (default 7 n));
  FilterLogs := λ q, Ok [];
  call_POAHeader := λ n, Ok zero_POAHeader;
  batch_headers := λ ns, Ok (map ex_block ns);
  batch_POA_headers := λ ns, Ok [];
  batch_transactions := λ hs, Ok (map (λ h, if decide (h = [1]) then ex_transaction else zero_RPCTransaction) hs)
|}.

Definition ex_node : Node := mkNode "genesis" "1.000000" "id" "geth".

Lemma GetHeadersByNumbers_answers_witness :
  ∃ chain, answers chain (GetHeadersByNumbers ex_node) ∧ hd_Timestamp (chain 2) = "30".
Proof.
  eexists. split; [apply (GetHeadersByNumbers_answers ex_node ex_block (λ n, [n * 15]))|].
  - reflexivity.
  - reflexivity.
  - reflexivity.
  - reflexivity.
  - vm_compute. reflexivity.
Defined.

Lemma getTransactionData_recipient_witness :
  ∃ data, getTransactionData ex_transaction = Ok data ∧ td_Recipient data = Some (HexToAddress "").
Proof.
  destruct (getTransactionData ex_transaction) as [data|e|w] eqn:E.
  - exists data. split; [reflexivity|]. exact (getTransactionData_recipient ex_transaction data E).
  - vm_compute in E. discriminate.
  - vm_compute in E. discriminate.
Defined.

Lemma GetTransactions_all_or_nothing_witness :
  is_ok (GetTransactions [[1]]) = true ∧ is_ok (GetTransactions [[1]; [2]]) = false.
Proof.
  split; [vm_compute; reflexivity|].
  apply (GetTransactions_all_or_nothing [[1]; [2]] [ex_transaction; zero_RPCTransaction]).
  - vm_compute. reflexivity.
  - reflexivity.
  - right. left.
Defined.

Lemma hexToBigInt_quantity_witness : hexToBigInt "0x4a817c800" = Ok 20000000000 ∧ hexToBigInt (quantity 300) = Ok 300.
Proof.
  split; [vm_compute; reflexivity|]. apply (hexToBigInt_quantity 300). lia.
Defined.

End Witnesses.
