(* ===== verification/HeaderSync.v ===== *)
(** * Header synchronisation (pkg/eth/history,
    pkg/eth/datastore/postgres/repositories/header_repository.go)

    The tables of the public schema that hang off a header, the header
    repository, and the two processes of header sync: filling in missing
    headers and re-validating a window of recent ones. *)

From S2P Require Import Prelude GoInt Geth Sql BlockChain.

(** ** Tables *)

Record header_row : Type := mkHeaderRow {
  hr_ID : Z;
  hr_BlockNumber : Z;
  hr_Hash : string;
  hr_Raw : bytes;
  hr_Timestamp : string;
  hr_CheckCount : Z;
  hr_NodeID : Z;
  hr_Fingerprint : string
}.

Record tx_sync_row : Type := mkTxSync { ts_ID : Z; ts_HeaderID : Z; ts_Tx : TransactionModel }.
Record rct_sync_row : Type := mkRctSync {
  rs_ID : Z; rs_HeaderID : Z; rs_TxID : Z; rs_AddressID : Z; rs_Rct : Receipt }.
Record address_row : Type := mkAddressRow { ad_ID : Z; ad_Address : string; ad_Hashed : string }.

(** header_sync_logs; addresses by id, hashes in text, topics in bytes. *)
Record log_row : Type := mkLogRow {
  lg_ID : Z;
  lg_HeaderID : Z;
  lg_Address : Z;
  lg_Topics : list bytes;
  lg_Data : bytes;
  lg_BlockNumber : Z;
  lg_BlockHash : string;
  lg_TxHash : string;
  lg_TxIndex : Z;
  lg_LogIndex : Z;
  lg_Raw : bytes;
  lg_Transformed : bool
}.

Record HeaderDB : Type := mkHeaderDB {
  headers : list header_row;
  sync_transactions : list tx_sync_row;
  sync_receipts : list rct_sync_row;
  sync_logs : list log_row;
  addresses : list address_row
}.

Definition set_headers (l : list header_row) (d : HeaderDB) : HeaderDB :=
  mkHeaderDB l (sync_transactions d) (sync_receipts d) (sync_logs d) (addresses d).
Definition set_txs (l : list tx_sync_row) (d : HeaderDB) : HeaderDB :=
  mkHeaderDB (headers d) l (sync_receipts d) (sync_logs d) (addresses d).
Definition set_rcts (l : list rct_sync_row) (d : HeaderDB) : HeaderDB :=
  mkHeaderDB (headers d) (sync_transactions d) l (sync_logs d) (addresses d).
Definition set_logs (l : list log_row) (d : HeaderDB) : HeaderDB :=
  mkHeaderDB (headers d) (sync_transactions d) (sync_receipts d) l (addresses d).
Definition set_addresses (l : list address_row) (d : HeaderDB) : HeaderDB :=
  mkHeaderDB (headers d) (sync_transactions d) (sync_receipts d) (sync_logs d) l.

Definition HeaderDB_empty : HeaderDB := mkHeaderDB [] [] [] [] [].

(** ** header_repository.go *)

Definition ErrValidHeaderExists : error := Sentinel "valid header already exists".

Section Repository.
(** repository.database.NodeID and Node.ID *)
Context (NodeID : Z) (Node_ID : string).

Definition at_block (n : Z) (r : header_row) : bool :=
  bool_decide (hr_BlockNumber r = n ∧ hr_Fingerprint r = Node_ID).

Definition header_key (r : header_row) : Z * string * string :=
  (hr_BlockNumber r, hr_Hash r, hr_Fingerprint r).

Definition getHeaderHash (header : Header) : DB HeaderDB string :=
  scan_one (select_auto (λ d, map hr_Hash (filter (λ r, at_block (hd_BlockNumber header) r) (headers d)))).

Definition header_insertion (header : Header) (id : Z) : header_row :=
  mkHeaderRow id (hd_BlockNumber header) (hd_Hash header) (hd_Raw header) (hd_Timestamp header)
    0 NodeID Node_ID.

(** [err == sql.ErrNoRows] turned into another error. *)
Definition no_rows_as {A} (e : error) (m : DB HeaderDB A) : DB HeaderDB A := λ o s,
  match m o s with
  | (DErr b e', s) => (DErr b (if decide (e' = ErrNoRows) then e else e'), s)
  | r => r
  end.

Definition InternalInsertHeader (header : Header) : DB HeaderDB Z :=
  no_rows_as ErrValidHeaderExists (scan_one (exec_auto (λ d q,
    let '(ids, rows, q) := insert_ignore "public.headers"
      (λ r, bool_decide (header_key r = (hd_BlockNumber header, hd_Hash header, Node_ID)))
      (header_insertion header) (headers d) q in
    (ids, set_headers rows d, q)))).

(** DELETE of the headers satisfying [gone], with ON DELETE CASCADE. *)
Definition delete_headers (gone : header_row → bool) (d : HeaderDB) : HeaderDB :=
  let ids := map hr_ID (filter (λ r, gone r) (headers d)) in
  let txs := map ts_ID (filter (λ t, ts_HeaderID t ∈ ids) (sync_transactions d)) in
  mkHeaderDB (filter (λ r, ¬ gone r) (headers d))
    (filter (λ t, ts_HeaderID t ∉ ids) (sync_transactions d))
    (filter (λ r, rs_HeaderID r ∉ ids ∧ rs_TxID r ∉ txs) (sync_receipts d))
    (filter (λ l, lg_HeaderID l ∉ ids) (sync_logs d))
    (addresses d).

(** Two statements, not in a transaction. *)
Definition replaceHeader (header : Header) : DB HeaderDB Z :=
  modify_auto (delete_headers (at_block (hd_BlockNumber header))) ;;;
  InternalInsertHeader header.

Definition headerMustBeReplaced (hash : string) (header : Header) : bool :=
  negb (bool_decide (hash = hd_Hash header)).

Definition headerDoesNotExist (err : error) : bool := bool_decide (err = ErrNoRows).

Definition CreateOrUpdateHeader (header : Header) : DB HeaderDB Z := λ o s,
  match getHeaderHash header o s with
  | (DOk hash, s) =>
      if headerMustBeReplaced hash header then replaceHeader header o s
      else (DErr true ErrValidHeaderExists, s)
  | (DErr b err, s) =>
      if headerDoesNotExist err then InternalInsertHeader header o s else (DErr b err, s)
  | (DPanic w, s) => (DPanic w, s)
  end.

Definition GetHeader (blockNumber : Z) : DB HeaderDB Header :=
  scan_one (select_auto (λ d, map (λ r,
    mkHeader (hr_ID r) (hr_BlockNumber r) (hr_Hash r) (hr_Raw r) (hr_Timestamp r))
    (filter (λ r, at_block blockNumber r) (headers d)))).

(** The arguments are cast to 32-bit integers by the statement. *)
Definition MissingBlockNumbers (startingBlockNumber endingBlockNumber : Z) (nodeID : string)
    : DB HeaderDB (list Z) :=
  let int32 n := (- 2 ^ 31 <=? n) && (n <? 2 ^ 31) in
  if int32 startingBlockNumber && int32 endingBlockNumber then
    select_auto (λ d,
      filter (λ n, n ∉ map hr_BlockNumber (filter (λ r, hr_Fingerprint r = nodeID) (headers d)))
        (seqZ startingBlockNumber (endingBlockNumber - startingBlockNumber + 1)))
  else λ o s, (DErr true (Driver "pq: integer out of range"), tick s).

Definition insert_transaction (headerID : Z) (transaction : TransactionModel) (d : HeaderDB)
    (q : gmap string Z) : list Z * list tx_sync_row * gmap string Z :=
  insert_ignore "public.header_sync_transactions"
    (λ r, bool_decide ((ts_HeaderID r, tm_Hash (ts_Tx r)) = (headerID, tm_Hash transaction)))
    (λ id, mkTxSync id headerID transaction) (sync_transactions d) q.

Definition CreateTransactions (headerID : Z) (transactions : list TransactionModel) : DB HeaderDB unit :=
  db_for (λ transaction, exec_auto_check (λ d q,
    let '(_, rows, q) := insert_transaction headerID transaction d q in
    if existsb (λ r, bool_decide (hr_ID r = headerID)) (headers d)
    then (Ok (tt, set_txs rows d), q)
    else (Err (Driver "pq: insert violates foreign key constraint"), q))) transactions.

Definition CreateTransactionInTx (headerID : Z) (transaction : TransactionModel) : DB HeaderDB Z :=
  exec (λ d q,
    let '(id, rows, q) := upsert_rows "public.header_sync_transactions"
      (λ r, bool_decide ((ts_HeaderID r, tm_Hash (ts_Tx r)) = (headerID, tm_Hash transaction)))
      (λ id, mkTxSync id headerID transaction)
      (λ r, mkTxSync (ts_ID r) (ts_HeaderID r) transaction) ts_ID (sync_transactions d) q in
    (id, set_txs rows d, q)).

End Repository.

(** ** history: the processes of header sync *)

Section History.
Context (NodeID : Z) (Node_ID : string).

(** core.BlockChain; [chain_Node_ID] is blockChain.Node().ID. *)
Context (chain_Node_ID : string) (LastBlock : result Z).
Context (GetHeadersByNumbers : list Z → result (list Header)).

(** The loop: a header that exists is skipped, another error ends it. *)
Fixpoint update_headers (hs : list Header) : DB HeaderDB unit :=
  match hs with
  | [] => db_ret tt
  | header :: hs => λ o s,
      match CreateOrUpdateHeader NodeID Node_ID header o s with
      | (DErr b err, s) =>
          if decide (err = ErrValidHeaderExists) then update_headers hs o s else (DErr b err, s)
      | (DPanic w, s) => (DPanic w, s)
      | (DOk _, s) => update_headers hs o s
      end
  end.

(** The error of [GetHeadersByNumbers], which comes with a nil slice, is
    ignored. *)
Definition RetrieveAndUpdateHeaders (blockNumbers : list Z) : DB HeaderDB nat :=
  headers <-- db_lift (match GetHeadersByNumbers blockNumbers with
                       | Ok headers => Ok headers
                       | Err _ => Ok []
                       | Panic w => Panic w
                       end) ;;
  update_headers headers ;;;
  db_ret (length blockNumbers).

Definition PopulateMissingHeaders (startingBlockNumber : Z) : DB HeaderDB nat :=
  lastBlock <-- db_lift LastBlock ;;
  blockNumbers <-- MissingBlockNumbers startingBlockNumber (i64 lastBlock) chain_Node_ID ;;
  if (length blockNumbers =? 0)%nat then db_ret 0%nat
  else
    _ <-- RetrieveAndUpdateHeaders blockNumbers ;;
    db_ret (length blockNumbers).

Record ValidationWindow : Type := mkWindow { LowerBound : Z; UpperBound : Z }.

Definition Size (window : ValidationWindow) : Z := i64_sub (UpperBound window) (LowerBound window).

Definition MakeValidationWindow (windowSize : Z) : result ValidationWindow :=
  upperBound <-! LastBlock ;;
  Ok (mkWindow (i64_sub (i64 upperBound) windowSize) (i64 upperBound)).

Definition MakeRange (min max : Z) : result (list Z) :=
  let n := i64_add (i64_sub max min) 1 in
  if n <? 0 then Panic "makeslice: len out of range"
  else Ok (map (λ i, i64_add min i) (seqZ 0 n)).

Definition ValidateHeaders (windowSize : Z) : DB HeaderDB ValidationWindow :=
  window <-- db_lift (MakeValidationWindow windowSize) ;;
  blockNumbers <-- db_lift (MakeRange (LowerBound window) (UpperBound window)) ;;
  _ <-- RetrieveAndUpdateHeaders blockNumbers ;;
  db_ret window.

(** cmd/headerSync.go: the loop of [headerSync] starts [backFillAllHeaders]
    again whenever it has reported; [k] rounds without an error. *)
Fixpoint backFillAllHeaders (startingBlockNumber : Z) (k : nat) : DB HeaderDB unit :=
  match k with
  | O => db_ret tt
  | S k => PopulateMissingHeaders startingBlockNumber ;;; backFillAllHeaders startingBlockNumber k
  end.

End History.

(** ** Well-formed tables *)

Definition tx_key (t : tx_sync_row) : Z * string := (ts_HeaderID t, tm_Hash (ts_Tx t)).
Definition log_key (l : log_row) : Z * Z * Z := (lg_HeaderID l, lg_TxIndex l, lg_LogIndex l).
Definition height_key (r : header_row) : Z * string := (hr_BlockNumber r, hr_Fingerprint r).

(** Serial ids, unique keys and foreign keys; and, of the source's making, at
    most one header per height and node. *)
Record hwf (d : HeaderDB) (q : gmap string Z) : Prop := {
  hwf_headers : table_ok "public.headers" hr_ID header_key (headers d) q;
  hwf_heights : NoDup (map height_key (headers d));
  hwf_txs : table_ok "public.header_sync_transactions" ts_ID tx_key (sync_transactions d) q;
  hwf_tx_fk : Forall (λ t, ts_HeaderID t ∈ map hr_ID (headers d)) (sync_transactions d);
  hwf_rct_fk : Forall (λ r, rs_HeaderID r ∈ map hr_ID (headers d) ∧
    rs_TxID r ∈ map ts_ID (sync_transactions d) ∧ rs_AddressID r ∈ map ad_ID (addresses d))
    (sync_receipts d);
  hwf_logs : table_ok "public.header_sync_logs" lg_ID log_key (sync_logs d) q;
  hwf_log_fk : Forall (λ l, lg_HeaderID l ∈ map hr_ID (headers d) ∧
    lg_Address l ∈ map ad_ID (addresses d)) (sync_logs d);
  hwf_addresses : table_ok "public.addresses" ad_ID ad_Address (addresses d) q
}.

Lemma hwf_empty : hwf HeaderDB_empty ∅.
Proof. split; repeat split; constructor. Qed.

Lemma hwf_seq d q q' : seq_le q q' → hwf d q → hwf d q'.
Proof. intros Hq []. split; try done; by eapply table_ok_seq. Qed.

(** ** Lemmas: deleting headers *)

Lemma elem_of_map_filter {A B} `{EqDecision B} (f : A → B) (P : A → Prop) `{!∀ x, Decision (P x)} l x :
  x ∈ map f (filter P l) ↔ ∃ r, x = f r ∧ P r ∧ r ∈ l.
Proof.
  rewrite list_elem_of_fmap. apply exist_proper. intros r. by rewrite list_elem_of_filter.
Qed.

Lemma delete_headers_hwf gone d q : hwf d q → hwf (delete_headers gone d) q.
Proof.
  intros [H1 H2 H3 H4 H5 H6 H7 H8]. unfold delete_headers.
  set (ids := map hr_ID (filter (λ r, gone r) (headers d))).
  set (txs := map ts_ID (filter (λ t, ts_HeaderID t ∈ ids) (sync_transactions d))).
  assert (Hkeep : ∀ x, x ∈ map hr_ID (headers d) → x ∉ ids →
    x ∈ map hr_ID (filter (λ r, ¬ gone r) (headers d))).
  { intros x (r & -> & Hr)%list_elem_of_fmap Hx. apply elem_of_map_filter. exists r.
    split_and!; [done| |done]. intros Hg. apply Hx, elem_of_map_filter. by exists r. }
  assert (Hkeept : ∀ x, x ∈ map ts_ID (sync_transactions d) → x ∉ txs →
    x ∈ map ts_ID (filter (λ t, ts_HeaderID t ∉ ids) (sync_transactions d))).
  { intros x (r & -> & Hr)%list_elem_of_fmap Hx. apply elem_of_map_filter. exists r.
    split_and!; [done| |done]. intros Hg. apply Hx, elem_of_map_filter. by exists r. }
  split; simpl; try done; try by apply table_ok_filter.
  - eapply sublist_NoDup; [exact H2|]. apply fmap_sublist, sublist_filter.
  - rewrite Forall_forall in H4 |- *. intros t [? Ht]%list_elem_of_filter. auto.
  - rewrite Forall_forall in H5 |- *. intros t [[??] Ht]%list_elem_of_filter.
    destruct (H5 t Ht) as (? & ? & ?). auto.
  - rewrite Forall_forall in H7 |- *. intros t [? Ht]%list_elem_of_filter.
    destruct (H7 t Ht). auto.
Qed.

Section RepositoryLemmas.
Context (NodeID : Z) (Node_ID : string).
Implicit Types (d : HeaderDB) (h : Header).

Abbreviation atb := (at_block Node_ID).

Lemma at_block_true n r : atb n r ↔ height_key r = (n, Node_ID).
Proof.
  unfold at_block, height_key. rewrite bool_decide_spec. split; [by intros [-> ->]|by intros [= -> ->]].
Qed.

(** At most one header per height and node. *)
Lemma heights_unique d q r r' : hwf d q → r ∈ headers d → r' ∈ headers d →
  height_key r = height_key r' → r = r'.
Proof.
  intros Hwf. apply NoDup_map_inj, (hwf_heights _ _ Hwf).
Qed.

(** The hash stored for a height. *)
Definition stored_hash d (n : Z) : option string :=
  head (map hr_Hash (filter (λ r, atb n r) (headers d))).

Lemma stored_hash_Some d q n x : hwf d q →
  stored_hash d n = Some x ↔ ∃ r, r ∈ headers d ∧ height_key r = (n, Node_ID) ∧ hr_Hash r = x.
Proof.
  intros Hwf. unfold stored_hash.
  assert (Hin : ∀ r, r ∈ filter (λ r, atb n r) (headers d) ↔ r ∈ headers d ∧ height_key r = (n, Node_ID)).
  { intros r. rewrite list_elem_of_filter, at_block_true. tauto. }
  destruct (filter _ (headers d)) as [|r0 rs]; simpl.
  - split; [done|]. intros (r & Hr & Hk & _). assert (r ∈ @nil header_row) as Hn by (by apply Hin). by apply elem_of_nil in Hn.
  - destruct (proj1 (Hin r0)) as [Hr0 Hk0]; [by left|]. split.
    + intros [= <-]. by exists r0.
    + intros (r & Hr & Hk & <-). f_equal. f_equal. apply (heights_unique d q); [done..|congruence].
Qed.

Lemma stored_hash_None d n :
  stored_hash d n = None ↔ ∀ r, r ∈ headers d → height_key r ≠ (n, Node_ID).
Proof.
  unfold stored_hash.
  assert (Hin : ∀ r, r ∈ filter (λ r, atb n r) (headers d) ↔ r ∈ headers d ∧ height_key r = (n, Node_ID)).
  { intros r. rewrite list_elem_of_filter, at_block_true. tauto. }
  destruct (filter _ (headers d)) as [|r0 rs]; simpl.
  - split; [|done]. intros _ r Hr Hk. assert (r ∈ @nil header_row) as Hn by (by apply Hin). by apply elem_of_nil in Hn.
  - split; [done|]. intros Hno. destruct (proj1 (Hin r0)) as [Hr0 Hk0]; [by left|]. by destruct (Hno r0).
Qed.

Lemma stored_hash_delete d n m :
  stored_hash (delete_headers (atb n) d) m = if decide (m = n) then None else stored_hash d m.
Proof.
  destruct (decide (m = n)) as [->|Hm].
  - apply stored_hash_None. simpl. intros r [Hn _]%list_elem_of_filter Hk. apply Hn. by apply at_block_true.
  - unfold stored_hash. simpl. rewrite list_filter_filter. do 2 f_equal. apply list_filter_iff. intros r.
    rewrite !at_block_true. split; [by intros []|]. intros Hk. split; [done|]. by rewrite Hk; intros [= ->].
Qed.

(** ** Lemmas: inserting a header *)

(** The three ways an insertion ends. *)
Inductive inserted h (o : oracle) (s : session HeaderDB) : outcome Z → HeaderDB → Prop :=
| inserted_rejected e : o (clock s) = Some e → e ≠ ErrNoRows → inserted h o s (DErr true e) (tables s)
| inserted_refused : (o (clock s) = None ∨ o (clock s) = Some ErrNoRows) →
    (o (clock s) = None → (hd_BlockNumber h, hd_Hash h, Node_ID) ∈ map header_key (headers (tables s))) →
    inserted h o s (DErr true ErrValidHeaderExists) (tables s)
| inserted_new n : o (clock s) = None → n ∉ map hr_ID (headers (tables s)) →
    (hd_BlockNumber h, hd_Hash h, Node_ID) ∉ map header_key (headers (tables s)) →
    inserted h o s (DOk n)
      (set_headers (headers (tables s) ++ [header_insertion NodeID Node_ID h n]) (tables s)).

Lemma hwf_insert_header d q q' h n :
  hwf d q → seq_le q q' → stored_hash d (hd_BlockNumber h) = None →
  table_ok "public.headers" hr_ID header_key (headers d ++ [header_insertion NodeID Node_ID h n]) q' →
  hwf (set_headers (headers d ++ [header_insertion NodeID Node_ID h n]) d) q'.
Proof.
  intros Hwf Hq Hno Hok. destruct (hwf_seq _ _ _ Hq Hwf) as [H1 H2 H3 H4 H5 H6 H7 H8].
  assert (Hmono : ∀ x, x ∈ map hr_ID (headers d) →
    x ∈ map hr_ID (headers d ++ [header_insertion NodeID Node_ID h n])).
  { intros x Hx. rewrite map_app. apply elem_of_app. by left. }
  split; simpl; try done.
  - rewrite map_app. apply NoDup_app. split_and!; [done| |apply NoDup_singleton].
    intros x (r & -> & Hr)%list_elem_of_fmap Hx%list_elem_of_singleton.
    by apply (proj1 (stored_hash_None d (hd_BlockNumber h)) Hno r Hr).
  - eapply Forall_impl; [exact H4|]. simpl. auto.
  - eapply Forall_impl; [exact H5|]. simpl. intros r (?&?&?). auto.
  - eapply Forall_impl; [exact H7|]. simpl. intros r (?&?). auto.
Qed.

Lemma InternalInsertHeader_inserted h o s : hwf (tables s) (seqs s) →
  let '(r, s') := InternalInsertHeader NodeID Node_ID h o s in
  inserted h o s r (tables s') ∧ clock s' = S (clock s) ∧
  (stored_hash (tables s) (hd_BlockNumber h) = None → hwf (tables s') (seqs s')).
Proof.
  intros Hwf. unfold InternalInsertHeader, no_rows_as, scan_one, db_bind, exec_auto.
  destruct (o (clock s)) as [e|] eqn:Eo.
  { case_decide as He; simpl; (split; [|by split]); [|by apply inserted_rejected].
    apply inserted_refused; [right; congruence|congruence]. }
  pose proof (insert_ignore_facts "public.headers" hr_ID header_key (hd_BlockNumber h, hd_Hash h, Node_ID)
    (header_insertion NodeID Node_ID h) _ _ (λ _, eq_refl) (λ _, eq_refl) (hwf_headers _ _ Hwf)) as Hf.
  destruct (insert_ignore _ _ _ _ _) as [[ids rows] q].
  destruct Hf as (Hq & Hok & [(-> & -> & Hin)|(n & -> & -> & Hnin & Hid & _)]); simpl.
  - assert (Hs : set_headers (headers (tables s)) (tables s) = tables s) by (by destruct (tables s)).
    rewrite Hs. split; [|split; [done|]].
    + apply inserted_refused; [by left|done].
    + intros _. by eapply hwf_seq.
  - split; [by apply inserted_new|]. split; [done|]. intros Hno. by eapply hwf_insert_header.
Qed.

Lemma stored_hash_insert d h n m : stored_hash d (hd_BlockNumber h) = None →
  stored_hash (set_headers (headers d ++ [header_insertion NodeID Node_ID h n]) d) m =
  if decide (m = hd_BlockNumber h) then Some (hd_Hash h) else stored_hash d m.
Proof.
  intros Hno. unfold stored_hash in *. simpl. rewrite filter_app, map_app, filter_cons, filter_nil.
  assert (Hnew : atb m (header_insertion NodeID Node_ID h n) ↔ m = hd_BlockNumber h).
  { rewrite at_block_true. unfold height_key. simpl. split; [by intros [= ->]|by intros ->]. }
  destruct (decide (m = hd_BlockNumber h)) as [->|Hm].
  - rewrite decide_True by (by apply Hnew). by destruct (filter _ (headers d)).
  - rewrite decide_False by (by rewrite Hnew). by rewrite app_nil_r.
Qed.


(** The headers that stay when those of a height go. *)
Lemma delete_kept d q n id : hwf d q → id ∈ map hr_ID (headers d) →
  id ∉ map hr_ID (filter (λ r, atb n r) (headers d)) ↔
  ∃ r, r ∈ headers d ∧ hr_ID r = id ∧ height_key r ≠ (n, Node_ID).
Proof.
  intros Hwf (r & -> & Hr)%list_elem_of_fmap. rewrite elem_of_map_filter. split.
  - intros Hno. exists r. split_and!; [done..|]. intros Hk. apply Hno. exists r.
    by rewrite at_block_true.
  - intros (r' & Hr' & Hid & Hk) (r2 & Hid2 & Hb%at_block_true & Hr2).
    destruct (hwf_headers _ _ Hwf) as (Hnd & _).
    assert (r' = r2) as ->; [|done]. eapply NoDup_map_inj; [exact Hnd|done|done|congruence].
Qed.

(** ** Lemmas: CreateOrUpdateHeader *)

Lemma getHeaderHash_spec h o s :
  getHeaderHash Node_ID h o s =
  (match o (clock s) with
   | Some e => DErr true e
   | None => match stored_hash (tables s) (hd_BlockNumber h) with
             | Some x => DOk x
             | None => DErr true ErrNoRows
             end
   end, tick s).
Proof.
  unfold getHeaderHash, scan_one, db_bind, select_auto, exec_auto, stored_hash.
  destruct (o (clock s)); [done|]. by destruct (map hr_Hash _).
Qed.

Lemma stored_hash_free d h x :
  stored_hash d (hd_BlockNumber h) = None →
  (hd_BlockNumber h, x, Node_ID) ∉ map header_key (headers d).
Proof.
  intros Hno (r & Hk & Hr)%list_elem_of_fmap. apply (proj1 (stored_hash_None d _) Hno r Hr).
  unfold height_key, header_key in *. congruence.
Qed.

(** Inserting at a height without a header. *)
Lemma insert_at_free_height h s : hwf (tables s) (seqs s) →
  stored_hash (tables s) (hd_BlockNumber h) = None →
  ∃ n s', InternalInsertHeader NodeID Node_ID h no_faults s = (DOk n, s') ∧
    n ∉ map hr_ID (headers (tables s)) ∧ hwf (tables s') (seqs s') ∧
    tables s' = set_headers (headers (tables s) ++ [header_insertion NodeID Node_ID h n]) (tables s).
Proof.
  intros Hwf Hno. pose proof (InternalInsertHeader_inserted h no_faults s Hwf) as Hi.
  destruct (InternalInsertHeader _ _ h no_faults s) as [r s']. destruct Hi as (Hi & _ & Hk).
  inversion Hi as [e He|_ Hin|n _ Hid Hnew Hr Hs]; subst; [done| |].
  - exfalso. by apply (stored_hash_free _ _ (hd_Hash h) Hno), Hin.
  - exists n, s'. split_and!; [done|done|rewrite <- Hs; by apply Hk|done].
Qed.

Lemma delete_headers_none d q h : hwf d q → stored_hash d (hd_BlockNumber h) = None →
  delete_headers (atb (hd_BlockNumber h)) d = d.
Proof.
  intros Hwf Hno. assert (Hg : filter (λ r, atb (hd_BlockNumber h) r) (headers d) = []).
  { destruct (filter _ _) as [|r rs] eqn:E; [done|].
    assert (Hr : r ∈ filter (λ r, atb (hd_BlockNumber h) r) (headers d)) by (rewrite E; by left).
    apply list_elem_of_filter in Hr as [Hb%at_block_true Hr].
    by destruct (proj1 (stored_hash_None d _) Hno r Hr). }
  unfold delete_headers. rewrite Hg. simpl. destruct d as [hs txs rs ls ads]. simpl in *.
  assert (Ht : filter (λ t, ts_HeaderID t ∈ []) txs = []).
  { destruct (filter _ txs) as [|t ts] eqn:E; [done|].
    assert (Hr : t ∈ filter (λ t, ts_HeaderID t ∈ []) txs) by (rewrite E; by left).
    apply list_elem_of_filter in Hr as [Hb _]. by apply elem_of_nil in Hb. }
  rewrite Ht. f_equal; apply filter_all; simpl.
  - intros r Hr Hb%at_block_true. by apply (proj1 (stored_hash_None _ _) Hno r).
  - intros t _ Hb. by apply elem_of_nil in Hb.
  - intros t _. split; apply not_elem_of_nil.
  - intros t _ Hb. by apply elem_of_nil in Hb.
Qed.

(** What replacing the header of a height leaves. *)
Definition replaced h d (n : Z) : HeaderDB :=
  let d' := delete_headers (atb (hd_BlockNumber h)) d in
  set_headers (headers d' ++ [header_insertion NodeID Node_ID h n]) d'.

Lemma stored_hash_replaced h d n m :
  stored_hash (replaced h d n) m =
  if decide (m = hd_BlockNumber h) then Some (hd_Hash h) else stored_hash d m.
Proof.
  unfold replaced. rewrite stored_hash_insert by (rewrite stored_hash_delete; by rewrite decide_True).
  rewrite stored_hash_delete. by destruct (decide (m = hd_BlockNumber h)).
Qed.

Lemma CreateOrUpdateHeader_spec h s : hwf (tables s) (seqs s) →
  ∃ r s', CreateOrUpdateHeader NodeID Node_ID h no_faults s = (r, s') ∧ hwf (tables s') (seqs s') ∧
  if decide (stored_hash (tables s) (hd_BlockNumber h) = Some (hd_Hash h))
  then r = DErr true ErrValidHeaderExists ∧ tables s' = tables s
  else ∃ n, r = DOk n ∧ tables s' = replaced h (tables s) n ∧ n ∉ map hr_ID (headers (delete_headers (atb (hd_BlockNumber h)) (tables s))).
Proof.
  intros Hwf. unfold CreateOrUpdateHeader. rewrite getHeaderHash_spec. simpl.
  destruct (stored_hash (tables s) (hd_BlockNumber h)) as [x|] eqn:Ex.
  - unfold headerMustBeReplaced. destruct (decide (Some x = Some (hd_Hash h))) as [[= ->]|Hx].
    + rewrite bool_decide_eq_true_2 by done. by eexists _, _.
    + rewrite bool_decide_eq_false_2 by (by intros ->). simpl.
      unfold replaceHeader, db_bind, modify_auto, exec_auto. simpl.
      set (s1 := mkSession _ _ _ _).
      destruct (insert_at_free_height h s1) as (n & s' & E & Hn & Hk & Ht).
      * by apply delete_headers_hwf.
      * simpl. rewrite stored_hash_delete. by rewrite decide_True.
      * rewrite E. eexists _, s'. split_and!; [done|done|]. exists n. by split_and!.
  - unfold headerDoesNotExist. rewrite bool_decide_eq_true_2 by done.
    destruct (insert_at_free_height h (tick s) Hwf Ex) as (n & s' & E & Hn & Hk & Ht).
    rewrite E. eexists _, s'. split_and!; [done|done|]. exists n.
    pose proof (delete_headers_none _ _ _ Hwf Ex) as D. split; [done|]. split.
    + unfold replaced. by rewrite D.
    + apply (f_equal headers) in D. simpl in D. by rewrite D.
Qed.

Lemma CreateOrUpdateHeader_keeps h : keeps hwf (CreateOrUpdateHeader NodeID Node_ID h).
Proof.
  intros o s Ho Hwf. unfold CreateOrUpdateHeader. rewrite getHeaderHash_spec.
  destruct (o (clock s)) as [e|] eqn:Eo.
  { unfold headerDoesNotExist. rewrite bool_decide_eq_false_2; [done|]. intros ->. by eapply Ho. }
  assert (Hins : ∀ s1, hwf (tables s1) (seqs s1) → stored_hash (tables s1) (hd_BlockNumber h) = None →
    hwf (tables (InternalInsertHeader NodeID Node_ID h o s1).2) (seqs (InternalInsertHeader NodeID Node_ID h o s1).2)).
  { intros s1 Hwf1 Hno. pose proof (InternalInsertHeader_inserted h o s1 Hwf1) as Hi.
    destruct (InternalInsertHeader _ _ h o s1) as [r s']. destruct Hi as (_ & _ & Hk). by apply Hk. }
  destruct (stored_hash (tables s) (hd_BlockNumber h)) as [x|] eqn:Ex; simpl.
  - destruct (headerMustBeReplaced x h); [|done].
    unfold replaceHeader, db_bind, modify_auto, exec_auto. simpl.
    destruct (o (S (clock s))); [done|]. apply Hins; simpl; [by apply delete_headers_hwf|].
    rewrite stored_hash_delete. by rewrite decide_True.
  - by apply Hins.
Qed.

Lemma CreateTransactions_keeps headerID ts : keeps hwf (CreateTransactions headerID ts).
Proof.
  apply keeps_for. intros t o s _ Hwf. unfold exec_auto_check. destruct (o (clock s)); [done|].
  pose proof (insert_ignore_facts "public.header_sync_transactions" ts_ID tx_key (headerID, tm_Hash t)
    (λ id, mkTxSync id headerID t) _ _ (λ _, eq_refl) (λ _, eq_refl) (hwf_txs _ _ Hwf)) as Hf.
  unfold insert_transaction. change (λ r, bool_decide ((ts_HeaderID r, tm_Hash (ts_Tx r)) = (headerID, tm_Hash t)))
    with (λ r, bool_decide (tx_key r = (headerID, tm_Hash t))).
  destruct (insert_ignore _ _ _ _ _) as [[ids rows] q]. destruct Hf as (Hq & Hok & Hrows).
  destruct (existsb _ (headers (tables s))) eqn:Efk; simpl; [|by eapply hwf_seq].
  destruct (hwf_seq _ _ _ Hq Hwf) as [H1 H2 H3 H4 H5 H6 H7 H8].
  apply existsb_exists in Efk as (r & Hr%list_elem_of_In & Hid%bool_decide_eq_true).
  assert (Hin : headerID ∈ map hr_ID (headers (tables s))).
  { rewrite <- Hid. by apply list_elem_of_fmap_2. }
  destruct Hrows as [(_ & -> & _)|(n & _ & -> & _)]; split; simpl; try done.
  - apply Forall_app. split; [done|]. by repeat constructor.
  - eapply Forall_impl; [exact H5|]. simpl. intros x (?&?&?). split_and!; [done| |done].
    rewrite map_app. apply elem_of_app. by left.
Qed.

End RepositoryLemmas.

(** ** Lemmas: the loop *)

Section HistoryLemmas.
Context (NodeID : Z) (Node_ID : string).
Context (chain_Node_ID : string) (LastBlock : result Z).
Context (GetHeadersByNumbers : list Z → result (list Header)).
Implicit Types (d : HeaderDB) (h : Header).

Abbreviation stored := (stored_hash Node_ID).

(** The hash a loop over [hs] leaves at height [m]. *)
Definition final_hash (hs : list Header) (m : Z) (before : option string) : option string :=
  foldl (λ x h, if decide (m = hd_BlockNumber h) then Some (hd_Hash h) else x) before hs.

Lemma update_headers_spec hs : ∀ s, hwf (tables s) (seqs s) →
  ∃ s', update_headers NodeID Node_ID hs no_faults s = (DOk tt, s') ∧ hwf (tables s') (seqs s') ∧
    ∀ m, stored (tables s') m = final_hash hs m (stored (tables s) m).
Proof.
  induction hs as [|h hs IH]; intros s Hwf; simpl; [by exists s|].
  destruct (CreateOrUpdateHeader_spec NodeID Node_ID h s Hwf) as (r & s1 & -> & Hwf1 & Hr).
  destruct (IH s1 Hwf1) as (s' & E & Hwf' & Hst).
  destruct (decide (stored (tables s) (hd_BlockNumber h) = Some (hd_Hash h))) as [Hsame|Hdiff].
  - destruct Hr as [-> Ht]. rewrite decide_True by done. exists s'. split_and!; [done|done|].
    intros m. rewrite Hst, Ht. f_equal. case_decide as Hm; [by rewrite Hm|done].
  - destruct Hr as (n & -> & Ht & _). exists s'. split_and!; [done|done|].
    intros m. by rewrite Hst, Ht, stored_hash_replaced.
Qed.

(** A chain that answers height [n] with a header of that height. *)
Lemma final_hash_chain (chain : Z → Header) ns m x :
  (∀ n, hd_BlockNumber (chain n) = n) →
  final_hash (map chain ns) m x = if decide (m ∈ ns) then Some (hd_Hash (chain m)) else x.
Proof.
  intros Hc. revert x. induction ns as [|n ns IH]; intros x.
  { destruct (decide (m ∈ [])) as [Hm|Hm]; [by apply elem_of_nil in Hm|done]. }
  change (final_hash (map chain (n :: ns)) m x) with
    (final_hash (map chain ns) m (if decide (m = hd_BlockNumber (chain n)) then Some (hd_Hash (chain n)) else x)).
  rewrite IH, Hc. destruct (decide (m ∈ ns)) as [Hm|Hm].
  - by rewrite decide_True by (by right).
  - destruct (decide (m = n)) as [->|Hn]; [by rewrite decide_True by (by left)|].
    rewrite decide_False; [done|]. by intros [?|?]%elem_of_cons.
Qed.

Lemma update_headers_keeps hs : keeps hwf (update_headers NodeID Node_ID hs).
Proof.
  induction hs as [|h hs IH]; intros o s Ho Hwf; simpl; [done|].
  pose proof (CreateOrUpdateHeader_keeps NodeID Node_ID h o s Ho Hwf) as Hk.
  destruct (CreateOrUpdateHeader NodeID Node_ID h o s) as [[n|b e|w] s1]; simpl in *; [by apply IH| |done].
  case_decide; [by apply IH|done].
Qed.

Lemma RetrieveAndUpdateHeaders_keeps ns :
  keeps hwf (RetrieveAndUpdateHeaders NodeID Node_ID GetHeadersByNumbers ns).
Proof.
  apply keeps_bind; [apply keeps_lift|]. intros hs.
  apply keeps_bind; [apply update_headers_keeps|]. intros []. apply keeps_ret.
Qed.

(** The heights without a header. *)
Definition missing (a b : Z) d : list Z := filter (λ n, stored d n = None) (seqZ a (b - a + 1)).

Lemma MissingBlockNumbers_spec a b s :
  - 2 ^ 31 ≤ a < 2 ^ 31 → - 2 ^ 31 ≤ b < 2 ^ 31 →
  MissingBlockNumbers a b Node_ID no_faults s = (DOk (missing a b (tables s)), tick s).
Proof.
  intros Ha Hb. unfold MissingBlockNumbers.
  destruct ((- 2 ^ 31 <=? a) && (a <? 2 ^ 31) && ((- 2 ^ 31 <=? b) && (b <? 2 ^ 31))) eqn:E; [|lia].
  unfold select_auto, exec_auto. simpl. unfold tick. destruct s as [d q ab c]. simpl. do 2 f_equal.
  apply list_filter_iff. intros n. rewrite stored_hash_None.
  assert (Hin : n ∈ map hr_BlockNumber (filter (λ r, hr_Fingerprint r = Node_ID) (headers d)) ↔
    ∃ r, r ∈ headers d ∧ height_key r = (n, Node_ID)).
  { rewrite elem_of_map_filter. unfold height_key. split.
    - intros (r & -> & <- & Hr). by exists r.
    - intros (r & Hr & [= <- <-]). by exists r. }
  rewrite Hin. split.
  - intros Hno r Hr1 Hr2. apply Hno. by exists r.
  - intros Hno (r & Hr1 & Hr2). by apply (Hno r).
Qed.

Lemma missing_elem a b d n : n ∈ missing a b d ↔ a ≤ n ≤ b ∧ stored d n = None.
Proof. unfold missing. rewrite list_elem_of_filter, elem_of_seqZ. intuition lia. Qed.

(** Filling the first missing heights leaves the rest. *)
Lemma missing_fill a b d d' k :
  (∀ m, stored d' m = None ↔ stored d m = None ∧ m ∉ take k (missing a b d)) →
  missing a b d' = drop k (missing a b d).
Proof.
  intros Hd. assert (Hnd : NoDup (missing a b d)) by (apply NoDup_filter, NoDup_seqZ).
  unfold missing at 1. rewrite (list_filter_iff _ (λ n, n ∉ take k (missing a b d) ∧ stored d n = None)).
  2: { intros n. rewrite Hd. tauto. }
  rewrite <- list_filter_filter. fold (missing a b d).
  rewrite <- (take_drop k (missing a b d)) in Hnd at 1. apply NoDup_app in Hnd as (_ & Hdis & _).
  set (T := take k _) in *. transitivity (filter (λ n, n ∉ T) (T ++ drop k (missing a b d))).
  { unfold T. by rewrite take_drop. }
  rewrite filter_app.
  assert (Hnil : filter (λ n, n ∉ T) T = []).
  { destruct (filter _ _) as [|x xs] eqn:E; [done|].
    assert (Hx : x ∈ x :: xs) by (by left). rewrite <- E in Hx. by apply list_elem_of_filter in Hx as []. }
  rewrite Hnil. simpl. apply filter_all. intros n Hn Hn'. by apply (Hdis n).
Qed.

Lemma MissingBlockNumbers_keeps a b nodeID : keeps hwf (MissingBlockNumbers a b nodeID).
Proof. unfold MissingBlockNumbers. case_match; [apply keeps_select_auto|by intros o s]. Qed.

Lemma MakeRange_spec min max : is_i64 min → is_i64 max → min ≤ max + 1 → max - min + 1 < 2 ^ 63 →
  MakeRange min max = Ok (seqZ min (max - min + 1)).
Proof.
  intros Hmin Hmax Hle Hlt. unfold MakeRange, i64_add, i64_sub, is_i64 in *.
  rewrite (i64_id (max - min)) by (unfold is_i64; lia). rewrite i64_id by (unfold is_i64; lia).
  destruct (max - min + 1 <? 0) eqn:E; [lia|]. f_equal.
  assert (He : ∀ i, i ∈ seqZ 0 (max - min + 1) → i64 (min + i) = min + i).
  { intros i Hi%elem_of_seqZ. apply i64_id. unfold is_i64. lia. }
  rewrite (map_ext_in _ (λ i, min + i)); [|intros i Hi%list_elem_of_In; by apply He].
  pose proof (fmap_add_seqZ min 0 (max - min + 1)) as Hf. rewrite Z.add_0_r in Hf. exact Hf.
Qed.

Lemma elem_of_take_seqZ a n k m : m ∈ take k (seqZ a n) ↔ a ≤ m < a + n ∧ m < a + Z.of_nat k.
Proof.
  rewrite list_elem_of_lookup. split.
  - intros (i & Hi). apply lookup_take_Some in Hi as [Hi Hlt]. apply lookup_seqZ in Hi. lia.
  - intros Hm. exists (Z.to_nat (m - a)). apply lookup_take_Some. split; [|lia]. apply lookup_seqZ. lia.
Qed.

End HistoryLemmas.

(** One round of back-filling. *)
Lemma PopulateMissingHeaders_round NodeID Node_ID chain GetHeadersByNumbers start last s :
  hwf (tables s) (seqs s) → answers chain GetHeadersByNumbers →
  - 2 ^ 31 ≤ start < 2 ^ 31 → - 2 ^ 31 ≤ last < 2 ^ 31 →
  let gaps := missing Node_ID start last in
  ∃ s', PopulateMissingHeaders NodeID Node_ID Node_ID (Ok last) GetHeadersByNumbers start no_faults s =
      (DOk (length (gaps (tables s))), s') ∧ hwf (tables s') (seqs s') ∧
    gaps (tables s') = drop MAX_BATCH_SIZE (gaps (tables s)) ∧
    ∀ m, stored_hash Node_ID (tables s') m =
      if decide (m ∈ take MAX_BATCH_SIZE (gaps (tables s))) then Some (hd_Hash (chain m))
      else stored_hash Node_ID (tables s) m.
Proof.
  intros Hwf [Hnum Hget] Ha Hb gaps. unfold PopulateMissingHeaders. unfold db_bind at 1. simpl.
  rewrite (i64_id last) by (unfold is_i64; lia). unfold db_bind at 1.
  rewrite (MissingBlockNumbers_spec Node_ID start last s Ha Hb). fold gaps.
  set (ns := take MAX_BATCH_SIZE (gaps (tables s))).
  assert (Hfill : ∀ d', (∀ m, stored_hash Node_ID d' m =
      if decide (m ∈ ns) then Some (hd_Hash (chain m)) else stored_hash Node_ID (tables s) m) →
    gaps d' = drop MAX_BATCH_SIZE (gaps (tables s))).
  { intros d' Hd'. apply missing_fill. intros m. rewrite Hd'. fold gaps ns.
    case_decide as Hm; [|tauto]. split; [done|tauto]. }
  destruct (length (gaps (tables s)) =? 0)%nat eqn:El.
  - apply Nat.eqb_eq in El. exists (tick s). rewrite El. split; [done|]. split; [done|].
    assert (Hm : ∀ m, stored_hash Node_ID (tables s) m =
      if decide (m ∈ ns) then Some (hd_Hash (chain m)) else stored_hash Node_ID (tables s) m).
    { intros m. rewrite decide_False; [done|]. unfold ns. apply length_zero_iff_nil in El. rewrite El.
      apply not_elem_of_nil. }
    split; [by apply Hfill|done].
  - unfold RetrieveAndUpdateHeaders.
    rewrite Hget by (apply Forall_forall; intros n Hn%missing_elem; unfold is_i64; lia).
    fold ns. unfold db_bind, db_lift.
    destruct (update_headers_spec NodeID Node_ID (map chain ns) (tick s) Hwf) as (s' & -> & Hwf' & Hst). simpl.
    exists s'. assert (Hm : ∀ m, stored_hash Node_ID (tables s') m =
      if decide (m ∈ ns) then Some (hd_Hash (chain m)) else stored_hash Node_ID (tables s) m).
    { intros m. by rewrite Hst, final_hash_chain. }
    split_and!; [done|done|by apply Hfill|done].
Qed.


(** ** Properties *)

Section Properties.
Context (NodeID : Z) (Node_ID : string).

(** C9: from a well-formed schema -- serial ids, unique and foreign keys, one
    header per height and node -- header sync leaves a well-formed schema,
    whichever statements the server rejects and whatever the chain answers:
    [replaceHeader] removes a replaced header with everything that refers to it. *)
Theorem header_sync_keeps_schema chain_Node_ID LastBlock GetHeadersByNumbers :
  (∀ header, keeps hwf (CreateOrUpdateHeader NodeID Node_ID header)) ∧
  (∀ headerID ts, keeps hwf (CreateTransactions headerID ts)) ∧
  (∀ n, keeps hwf (PopulateMissingHeaders NodeID Node_ID chain_Node_ID LastBlock GetHeadersByNumbers n)) ∧
  (∀ w, keeps hwf (ValidateHeaders NodeID Node_ID LastBlock GetHeadersByNumbers w)).
Proof.
  split_and!; intros.
  - apply CreateOrUpdateHeader_keeps.
  - apply CreateTransactions_keeps.
  - apply keeps_bind; [apply keeps_lift|intros last].
    apply keeps_bind; [apply MissingBlockNumbers_keeps|intros ns].
    case_match; [apply keeps_ret|].
    apply keeps_bind; [apply RetrieveAndUpdateHeaders_keeps|intros k; apply keeps_ret].
  - apply keeps_bind; [apply keeps_lift|intros w']. apply keeps_bind; [apply keeps_lift|intros ns].
    apply keeps_bind; [apply RetrieveAndUpdateHeaders_keeps|intros k; apply keeps_ret].
Qed.

(** Creating or updating a header, when the server accepts every
    statement: a header stored with the same hash is reported as
    [ErrValidHeaderExists] and nothing changes; otherwise the header is the
    only one of its height and node afterwards, under a fresh id, every other
    header stays, and exactly the logs and transactions of the other headers
    stay. *)
Theorem CreateOrUpdateHeader_exact h s : hwf (tables s) (seqs s) →
  let key := (hd_BlockNumber h, Node_ID) in
  let kept id := ∃ r, r ∈ headers (tables s) ∧ hr_ID r = id ∧ height_key r ≠ key in
  ∃ r s', CreateOrUpdateHeader NodeID Node_ID h no_faults s = (r, s') ∧
  if decide (Exists (λ r, height_key r = key ∧ hr_Hash r = hd_Hash h) (headers (tables s)))
  then r = DErr true ErrValidHeaderExists ∧ tables s' = tables s
  else ∃ n, r = DOk n ∧ ¬ kept n ∧
    (∀ row, row ∈ headers (tables s') ↔
       row = header_insertion NodeID Node_ID h n ∨ row ∈ headers (tables s) ∧ height_key row ≠ key) ∧
    (∀ l, l ∈ sync_logs (tables s') ↔ l ∈ sync_logs (tables s) ∧ kept (lg_HeaderID l)) ∧
    (∀ t, t ∈ sync_transactions (tables s') ↔ t ∈ sync_transactions (tables s) ∧ kept (ts_HeaderID t)).
Proof.
  intros Hwf key kept. destruct (CreateOrUpdateHeader_spec NodeID Node_ID h s Hwf) as (r & s' & E & Hwf' & Hr).
  exists r, s'. split; [done|].
  assert (Hiff : stored_hash Node_ID (tables s) (hd_BlockNumber h) = Some (hd_Hash h) ↔
    Exists (λ r, height_key r = key ∧ hr_Hash r = hd_Hash h) (headers (tables s))).
  { rewrite (stored_hash_Some _ _ _ _ _ Hwf), Exists_exists. done. }
  case_decide as Hs; case_decide as Hx; [done|tauto|tauto|].
  destruct Hr as (n & -> & -> & Hn). exists n. split; [done|].
  assert (Hkept : ∀ id, id ∈ map hr_ID (headers (tables s)) →
    id ∉ map hr_ID (filter (λ r, at_block Node_ID (hd_BlockNumber h) r) (headers (tables s))) ↔ kept id).
  { intros id Hid. by eapply delete_kept. }
  split_and!; unfold replaced, delete_headers; simpl.
  - intros (r & Hr & Hid & Hk). apply Hn. simpl. apply elem_of_map_filter. exists r.
    split_and!; [done| |done]. by rewrite at_block_true.
  - intros row. rewrite elem_of_app, list_elem_of_filter, list_elem_of_singleton, at_block_true. tauto.
  - intros l. rewrite list_elem_of_filter. pose proof (hwf_log_fk _ _ Hwf) as Hfk.
    rewrite Forall_forall in Hfk. split; intros [H1 H2]; [|rename H1 into H2, H2 into H1];
      (split; [|]); try done; by apply Hkept; [apply Hfk|].
  - intros t. rewrite list_elem_of_filter. pose proof (hwf_tx_fk _ _ Hwf) as Hfk.
    rewrite Forall_forall in Hfk. split; intros [H1 H2]; [|rename H1 into H2, H2 into H1];
      (split; [|]); try done; by apply Hkept; [apply Hfk|].
Qed.

(** A replacement is not atomic: the DELETE takes effect at once, so when
    the server rejects the INSERT that follows, the error leaves the height
    without a header, and the logs of the header it had are gone. *)
Theorem replaceHeader_not_atomic h s o r e :
  hwf (tables s) (seqs s) → r ∈ headers (tables s) → height_key r = (hd_BlockNumber h, Node_ID) →
  hr_Hash r ≠ hd_Hash h →
  o (clock s) = None → o (S (clock s)) = None → o (S (S (clock s))) = Some e → e ≠ ErrNoRows →
  ∃ s', CreateOrUpdateHeader NodeID Node_ID h o s = (DErr true e, s') ∧
    (∀ r', r' ∈ headers (tables s') → height_key r' ≠ (hd_BlockNumber h, Node_ID)) ∧
    (∀ l, l ∈ sync_logs (tables s') → lg_HeaderID l ≠ hr_ID r).
Proof.
  intros Hwf Hr Hk Hne H1 H2 H3 He. unfold CreateOrUpdateHeader. rewrite getHeaderHash_spec, H1.
  rewrite (proj2 (stored_hash_Some Node_ID _ _ _ (hr_Hash r) Hwf)) by (by exists r).
  unfold headerMustBeReplaced. rewrite bool_decide_eq_false_2 by done. simpl.
  unfold replaceHeader, db_bind, modify_auto, exec_auto. simpl. rewrite H2.
  unfold InternalInsertHeader, no_rows_as, scan_one, db_bind, exec_auto. simpl. rewrite H3, decide_False by done.
  eexists. split; [done|]. simpl. split.
  - intros r' [Hb _]%list_elem_of_filter Hk'. apply Hb. by apply at_block_true.
  - intros l [Hb _]%list_elem_of_filter Hid. apply Hb. rewrite Hid. apply elem_of_map_filter.
    exists r. by rewrite at_block_true.
Qed.

(** C28: a validation pass leaves in every height of its window, up to
    [MAX_BATCH_SIZE] heights, the hash the chain has there now -- a
    reorganised header is replaced -- and no other height changes. *)
Theorem ValidateHeaders_follows_chain chain GetHeadersByNumbers last windowSize s :
  hwf (tables s) (seqs s) → answers chain GetHeadersByNumbers →
  is_i64 last → 0 ≤ windowSize < 2 ^ 62 → is_i64 (last - windowSize) →
  ∃ s', ValidateHeaders NodeID Node_ID (Ok last) GetHeadersByNumbers windowSize no_faults s =
      (DOk (mkWindow (last - windowSize) last), s') ∧
    ∀ m, stored_hash Node_ID (tables s') m =
      if decide (last - windowSize ≤ m ≤ last ∧ m < last - windowSize + Z.of_nat MAX_BATCH_SIZE)
      then Some (hd_Hash (chain m))
      else stored_hash Node_ID (tables s) m.
Proof.
  intros Hwf [Hnum Hget] Hl Hw Hlow.
  unfold ValidateHeaders, MakeValidationWindow. simpl. unfold db_bind at 1. simpl.
  rewrite (i64_id last), (i64_sub_id last) by done. simpl.
  rewrite MakeRange_spec by (done || lia). unfold db_bind at 1. simpl.
  unfold RetrieveAndUpdateHeaders.
  rewrite Hget by (apply Forall_seqZ; unfold is_i64 in *; lia). simpl. unfold db_bind, db_lift.
  set (ns := take MAX_BATCH_SIZE _).
  destruct (update_headers_spec NodeID Node_ID (map chain ns) s Hwf) as (s' & -> & _ & Hst). simpl.
  exists s'. split; [done|]. intros m. rewrite Hst, final_hash_chain by done.
  assert (Hns : m ∈ ns ↔ last - windowSize ≤ m ≤ last ∧ m < last - windowSize + Z.of_nat MAX_BATCH_SIZE).
  { unfold ns. rewrite elem_of_take_seqZ. lia. }
  repeat case_decide; tauto || done.
Qed.

(** C27: each round of back-filling adds the chain's header at the first
    [MAX_BATCH_SIZE] missing heights and reports the number of all that were
    missing; after as many rounds as it takes to reach all of them every
    height from the start to the head of the chain has a header, those that
    were stored before being left alone, and the next round reports none. *)
Theorem backFillAllHeaders_converges chain GetHeadersByNumbers start last s k :
  hwf (tables s) (seqs s) → answers chain GetHeadersByNumbers →
  - 2 ^ 31 ≤ start < 2 ^ 31 → - 2 ^ 31 ≤ last < 2 ^ 31 →
  let populate := PopulateMissingHeaders NodeID Node_ID Node_ID (Ok last) GetHeadersByNumbers start in
  let gaps := missing Node_ID start last in
  ∃ s', backFillAllHeaders NodeID Node_ID Node_ID (Ok last) GetHeadersByNumbers start k no_faults s = (DOk tt, s') ∧
    (populate no_faults s').1 = DOk (length (gaps (tables s) ) - MAX_BATCH_SIZE * k)%nat ∧
    gaps (tables s') = drop (MAX_BATCH_SIZE * k) (gaps (tables s)) ∧
    ((length (gaps (tables s)) ≤ MAX_BATCH_SIZE * k)%nat →
       ∀ m, start ≤ m ≤ last → stored_hash Node_ID (tables s') m ≠ None) ∧
    ∀ m, stored_hash Node_ID (tables s') m =
      if decide (m ∈ take (MAX_BATCH_SIZE * k) (gaps (tables s))) then Some (hd_Hash (chain m))
      else stored_hash Node_ID (tables s) m.
Proof.
  intros Hwf Hans Ha Hb populate gaps.
  cut (∃ s', backFillAllHeaders NodeID Node_ID Node_ID (Ok last) GetHeadersByNumbers start k no_faults s = (DOk tt, s') ∧
    (populate no_faults s').1 = DOk (length (gaps (tables s) ) - MAX_BATCH_SIZE * k)%nat ∧
    gaps (tables s') = drop (MAX_BATCH_SIZE * k) (gaps (tables s)) ∧
    ∀ m, stored_hash Node_ID (tables s') m =
      if decide (m ∈ take (MAX_BATCH_SIZE * k) (gaps (tables s))) then Some (hd_Hash (chain m))
      else stored_hash Node_ID (tables s) m).
  { intros (s' & H1 & H2 & H3 & H4). exists s'. split_and!; [done..| |done]. intros Hk m Hm Hno.
    assert (Hg : m ∈ gaps (tables s')) by (by apply missing_elem).
    rewrite H3, drop_ge in Hg by done. by apply elem_of_nil in Hg. }
  revert s Hwf. induction k as [|k IH]; intros s Hwf.
  - exists s. rewrite Nat.mul_0_r. split; [done|].
    destruct (PopulateMissingHeaders_round NodeID Node_ID chain GetHeadersByNumbers start last s Hwf Hans Ha Hb)
      as (s1 & E & _). unfold populate. rewrite E. split_and!; [simpl; by rewrite Nat.sub_0_r|done|].
    intros m. case_decide as Hm; [by apply not_elem_of_nil in Hm|done].
  - destruct (PopulateMissingHeaders_round NodeID Node_ID chain GetHeadersByNumbers start last s Hwf Hans Ha Hb)
      as (s1 & E & Hwf1 & Hg1 & Hs1). destruct (IH s1 Hwf1) as (s' & E' & Hp & Hg & Hs).
    fold gaps in Hg1, Hs1. exists s'. cbn [backFillAllHeaders]. unfold db_bind. rewrite E.
    rewrite Hg1 in Hp, Hg, Hs. rewrite drop_drop in Hg. rewrite length_drop in Hp.
    assert (Hk : (MAX_BATCH_SIZE * S k = MAX_BATCH_SIZE + MAX_BATCH_SIZE * k)%nat) by lia.
    rewrite Hk. split_and!; [done|rewrite Hp; f_equal; lia|done|].
    intros m. rewrite Hs, Hs1, <- (take_take_drop (gaps (tables s)) MAX_BATCH_SIZE (MAX_BATCH_SIZE * k)).
    repeat case_decide; rewrite elem_of_app in *; tauto || done.
Qed.

(** When the chain cannot deliver the missing headers, populating reports
    success and the number of missing headers, as if it had stored them. *)
Theorem PopulateMissingHeaders_loses_error GetHeadersByNumbers start last s e :
  (∀ ns, GetHeadersByNumbers ns = Err e) →
  - 2 ^ 31 ≤ start < 2 ^ 31 → - 2 ^ 31 ≤ last < 2 ^ 31 →
  ∃ s', PopulateMissingHeaders NodeID Node_ID Node_ID (Ok last) GetHeadersByNumbers start no_faults s =
      (DOk (length (missing Node_ID start last (tables s))), s') ∧ tables s' = tables s.
Proof.
  intros Hget Ha Hb. unfold PopulateMissingHeaders. unfold db_bind at 1. simpl.
  rewrite (i64_id last) by (unfold is_i64; lia).
  unfold db_bind at 1. rewrite (MissingBlockNumbers_spec Node_ID start last s Ha Hb). exists (tick s).
  destruct (length _ =? 0)%nat eqn:El; (split; [|done]).
  - apply Nat.eqb_eq in El. by rewrite El.
  - unfold RetrieveAndUpdateHeaders. by rewrite Hget.
Qed.

(** [CreateOrUpdateHeader] reads and writes in separate statements, so two
    processes that create headers of one height at a time -- the validator and
    the back-filler of headerSync -- can both find none and both insert: the
    height then has two headers, which no single process produces. *)
Theorem CreateOrUpdateHeader_race h1 h2 s :
  hwf (tables s) (seqs s) → stored_hash Node_ID (tables s) (hd_BlockNumber h1) = None →
  hd_BlockNumber h1 = hd_BlockNumber h2 → hd_Hash h1 ≠ hd_Hash h2 →
  let '(r1, s1) := getHeaderHash Node_ID h1 no_faults s in
  let '(r2, s2) := getHeaderHash Node_ID h2 no_faults s1 in
  r1 = DErr true ErrNoRows ∧ r2 = DErr true ErrNoRows ∧
  ∃ n1 n2 s3 s4, InternalInsertHeader NodeID Node_ID h1 no_faults s2 = (DOk n1, s3) ∧
    InternalInsertHeader NodeID Node_ID h2 no_faults s3 = (DOk n2, s4) ∧
    header_insertion NodeID Node_ID h1 n1 ∈ headers (tables s4) ∧
    header_insertion NodeID Node_ID h2 n2 ∈ headers (tables s4) ∧ ¬ hwf (tables s4) (seqs s4).
Proof.
  intros Hwf Hno Hnum Hne. rewrite !getHeaderHash_spec. simpl. rewrite <- Hnum, Hno.
  split; [done|]. split; [done|].
  destruct (insert_at_free_height NodeID Node_ID h1 (tick (tick s)) Hwf Hno) as (n1 & s3 & E1 & Hn1 & Hwf3 & Ht3).
  exists n1. pose proof (InternalInsertHeader_inserted NodeID Node_ID h2 no_faults s3 Hwf3) as Hi.
  destruct (InternalInsertHeader NodeID Node_ID h2 no_faults s3) as [r s4] eqn:E2. destruct Hi as (Hi & _).
  assert (H1 : header_insertion NodeID Node_ID h1 n1 ∈ headers (tables s3)).
  { rewrite Ht3. simpl. apply elem_of_app. right. by left. }
  inversion Hi as [e He|_ Hin|n2 _ Hid Hnew Hr Hs]; subst; [done| |].
  - exfalso. destruct (proj1 (list_elem_of_fmap _ _ _) (Hin eq_refl)) as (row & Hk & Hrow).
    assert (row = header_insertion NodeID Node_ID h1 n1) as ->.
    { eapply heights_unique; [exact Hwf3|done|done|]. unfold header_key, height_key in *. simpl. congruence. }
    unfold header_key in Hk. simpl in Hk. congruence.
  - exists n2, s3, s4. rewrite <- Hs. simpl. split_and!; [done|done| | |].
    + apply elem_of_app. by left.
    + apply elem_of_app. right. by left.
    + intros Hwf4. apply Hid.
      assert (He : header_insertion NodeID Node_ID h1 n1 = header_insertion NodeID Node_ID h2 n2).
      { eapply heights_unique; [exact Hwf4| | |].
        - simpl. apply elem_of_app. by left.
        - simpl. apply elem_of_app. right. by left.
        - unfold height_key. simpl. by rewrite Hnum. }
      injection He as -> _ Hh _ _. done.
Qed.

End Properties.

(** ** Witnesses

    Node "n" stores one header of height 2 with a log; the chain has another. *)

Definition ex_header (n : Z) (hash : string) : Header := mkHeader 0 n hash [] "0".
Definition ex_chain (n : Z) : Header := ex_header n (String "h" (pretty n)).
Definition ex_answers (ns : list Z) : result (list Header) := Ok (map ex_chain (take MAX_BATCH_SIZE ns)).

Definition ex_db : HeaderDB :=
  mkHeaderDB [header_insertion 1 "n" (ex_header 2 "old") 1] [] []
    [mkLogRow 1 1 1 [] [] 2 "old" "t" 0 0 [] false] [mkAddressRow 1 "a" "b"].
Definition ex_session : session HeaderDB :=
  mkSession ex_db {["public.headers" := 1; "public.header_sync_logs" := 1; "public.addresses" := 1]} false 0.

Lemma ex_session_hwf : hwf (tables ex_session) (seqs ex_session).
Proof.
  split; unfold table_ok; vm_compute;
    repeat first [split|apply NoDup_singleton|apply NoDup_nil_2|discriminate|constructor].
Qed.

Lemma ex_answers_ok : answers ex_chain ex_answers.
Proof. by split. Qed.

(** Replacing the header removes its log. *)
Lemma CreateOrUpdateHeader_exact_witness :
  let r := CreateOrUpdateHeader 1 "n" (ex_header 2 "new") no_faults ex_session in
  r.1 = DOk 2 ∧ ∀ l, l ∉ sync_logs (tables r.2).
Proof.
  intros p. pose proof (CreateOrUpdateHeader_exact 1 "n" (ex_header 2 "new") ex_session ex_session_hwf) as Hc.
  destruct Hc as (r & s' & E & Hc). unfold p. clear p. rewrite E.
  destruct (decide _) as [Hx|Hx] in Hc.
  { exfalso. vm_compute in Hx. inversion Hx as [? ? [_ ?]|? ? Hn]; [discriminate|inversion Hn]. }
  destruct Hc as (n & -> & _ & _ & Hl & _). split.
  - vm_compute in E. injection E as <- _. reflexivity.
  - intros l Hin. apply Hl in Hin as [_ (row & Hrow & _ & Hk)]. apply Hk.
    simpl in Hrow. apply list_elem_of_singleton in Hrow as ->. reflexivity.
Defined.

Lemma replaceHeader_not_atomic_witness :
  let o := λ n, if (n =? 2)%nat then Some (Driver "connection lost") else None in
  ∃ s', CreateOrUpdateHeader 1 "n" (ex_header 2 "new") o ex_session = (DErr true (Driver "connection lost"), s') ∧
    ∀ l, l ∈ sync_logs (tables s') → lg_HeaderID l ≠ 1.
Proof.
  intros o. destruct (replaceHeader_not_atomic 1 "n" (ex_header 2 "new") ex_session o
    (header_insertion 1 "n" (ex_header 2 "old") 1) (Driver "connection lost")) as (s' & H1 & _ & H2).
  - apply ex_session_hwf.
  - simpl. by left.
  - reflexivity.
  - discriminate.
  - reflexivity.
  - reflexivity.
  - reflexivity.
  - discriminate.
  - exists s'. split; [exact H1|exact H2].
Defined.

Lemma ValidateHeaders_follows_chain_witness :
  ∃ s', ValidateHeaders 1 "n" (Ok 3) ex_answers 2 no_faults ex_session = (DOk (mkWindow 1 3), s') ∧
    stored_hash "n" (tables s') 2 = Some "h2" ∧ stored_hash "n" (tables s') 4 = None.
Proof.
  destruct (ValidateHeaders_follows_chain 1 "n" ex_chain ex_answers 3 2 ex_session) as (s' & H1 & H2).
  - apply ex_session_hwf.
  - apply ex_answers_ok.
  - unfold is_i64. lia.
  - lia.
  - unfold is_i64. lia.
  - exists s'. split; [exact H1|]. rewrite !H2. split; reflexivity.
Defined.

(** 249 heights are missing: three rounds. *)
Lemma backFillAllHeaders_converges_witness :
  ∃ s', backFillAllHeaders 1 "n" "n" (Ok 250) ex_answers 1 3 no_faults ex_session = (DOk tt, s') ∧
    stored_hash "n" (tables s') 250 = Some "h250" ∧ stored_hash "n" (tables s') 2 = Some "old".
Proof.
  destruct (backFillAllHeaders_converges 1 "n" ex_chain ex_answers 1 250 ex_session 3) as (s' & H1 & _ & _ & _ & H2).
  - apply ex_session_hwf.
  - apply ex_answers_ok.
  - lia.
  - lia.
  - exists s'. split; [exact H1|]. rewrite !H2. split; vm_compute; reflexivity.
Defined.

Lemma PopulateMissingHeaders_loses_error_witness :
  ∃ s', PopulateMissingHeaders 1 "n" "n" (Ok 3) (λ _, Err (Driver "timeout")) 1 no_faults ex_session =
    (DOk 2%nat, s') ∧ tables s' = ex_db.
Proof.
  destruct (PopulateMissingHeaders_loses_error 1 "n" (λ _, Err (Driver "timeout")) 1 3 ex_session
    (Driver "timeout")) as (s' & H1 & H2).
  - reflexivity.
  - lia.
  - lia.
  - exists s'. split; [exact H1|exact H2].
Defined.

Lemma CreateOrUpdateHeader_race_witness :
  let s1 := (getHeaderHash "n" (ex_header 5 "a") no_faults ex_session).2 in
  let s2 := (getHeaderHash "n" (ex_header 5 "b") no_faults s1).2 in
  ∃ n1 n2 s3 s4, InternalInsertHeader 1 "n" (ex_header 5 "a") no_faults s2 = (DOk n1, s3) ∧
    InternalInsertHeader 1 "n" (ex_header 5 "b") no_faults s3 = (DOk n2, s4) ∧ ¬ hwf (tables s4) (seqs s4).
Proof.
  intros s1 s2.
  destruct (CreateOrUpdateHeader_race 1 "n" (ex_header 5 "a") (ex_header 5 "b") ex_session)
    as (_ & _ & n1 & n2 & s3 & s4 & H1 & H2 & _ & _ & H3).
  - apply ex_session_hwf.
  - reflexivity.
  - reflexivity.
  - discriminate.
  - exists n1, n2, s3, s4. split; [exact H1|]. split; [exact H2|exact H3].
Defined.
