(* ===== verification/EventLogs.v ===== *)
(** * Extracting logs (libraries/shared/logs/extractor.go,
    libraries/shared/repository, libraries/shared/transactions,
    libraries/shared/fetcher/log_fetcher.go,
    pkg/eth/datastore/postgres/repositories)

    The extractor walks over the headers not checked yet, fetches the logs of
    the watched addresses and topics, stores their transactions and the logs,
    and counts the header as checked.  Its tables are those of HeaderSync. *)

From S2P Require Import Prelude GoInt Geth Sql StorageDecode BlockChain HeaderSync.

(** ** Data *)

(** core.HeaderSyncLog *)
Record HeaderSyncLog : Type := mkHeaderSyncLog {
  hsl_ID : Z; hsl_HeaderID : Z; hsl_Log : types_Log; hsl_Transformed : bool }.

(** transformer.EventTransformerConfig *)
Record EventTransformerConfig : Type := mkConfig {
  TransformerName : string;
  ContractAddresses : list string;
  ContractAbi : string;
  Topic : string;
  StartingBlockNumber : Z;
  EndingBlockNumber : Z
}.

(** [log.MarshalJSON]; the column is not read back by the code modelled. *)
Class LogJSON := { log_MarshalJSON : types_Log → result bytes }.

Definition err_fk : error := Driver "pq: insert violates foreign key constraint".

Section Repositories.
Context `{GethCommon} `{LogJSON}.

(** ** libraries/shared/repository/address_repository.go *)

Definition getChecksumAddress (address : string) : string := Address_Hex (HexToAddress address).

(** The CTE inserts; the SELECT does not see what it inserted. *)
Definition getOrCreateAddressQuery (checksumAddress hashedAddress : string) (d : HeaderDB)
    (q : gmap string Z) : list Z * HeaderDB * gmap string Z :=
  let '(inserted, rows, q) := insert_ignore "public.addresses"
    (λ r, bool_decide (ad_Address r = checksumAddress))
    (λ id, mkAddressRow id checksumAddress hashedAddress) (addresses d) q in
  let existing := map ad_ID (filter (λ r, ad_Address r = checksumAddress) (addresses d)) in
  (existing ++ inserted, set_addresses rows d, q).

Definition GetOrCreateAddress (address : string) : DB HeaderDB Z :=
  let checksumAddress := getChecksumAddress address in
  let hashedAddress := Hash_String (HexToKeccak256Hash checksumAddress) in
  scan_one (exec_auto (getOrCreateAddressQuery checksumAddress hashedAddress)).

Definition GetOrCreateAddressInTransaction (address : string) : DB HeaderDB Z :=
  let checksumAddress := getChecksumAddress address in
  let hashedAddress := Hash_String (HexToKeccak256Hash checksumAddress) in
  scan_one (exec (getOrCreateAddressQuery checksumAddress hashedAddress)).

Definition GetAddressByID (id : Z) : DB HeaderDB string :=
  scan_one (select_auto (λ d, map ad_Address (filter (λ r, ad_ID r = id) (addresses d)))).

(** ** header_sync_log_repository.go *)

Definition buildTopics (log : types_Log) : list bytes := tl_Topics log.

Definition insertion_log (headerID addressID : Z) (topics : list bytes) (log : types_Log) (raw : bytes)
    (id : Z) : log_row :=
  mkLogRow id headerID addressID topics (tl_Data log) (tl_BlockNumber log)
    (Hash_String (tl_BlockHash log)) (Hash_String (tl_TxHash log)) (tl_TxIndex log) (tl_Index log) raw false.

Definition has_header (headerID : Z) (d : HeaderDB) : bool :=
  existsb (λ r, bool_decide (hr_ID r = headerID)) (headers d).
Definition has_address (addressID : Z) (d : HeaderDB) : bool :=
  existsb (λ r, bool_decide (ad_ID r = addressID)) (addresses d).

Definition insertHeaderSyncLogQuery (headerID addressID : Z) (topics : list bytes) (log : types_Log)
    (raw : bytes) (d : HeaderDB) (q : gmap string Z) : result (unit * HeaderDB) * gmap string Z :=
  let '(_, rows, q) := insert_ignore "public.header_sync_logs"
    (λ r, bool_decide (log_key r = (headerID, tl_TxIndex log, tl_Index log)))
    (insertion_log headerID addressID topics log raw) (sync_logs d) q in
  if has_header headerID d && has_address addressID d then (Ok (tt, set_logs rows d), q)
  else (Err err_fk, q).

(** The columns are a bigint and two integers. *)
Definition log_in_range (log : types_Log) : bool :=
  (tl_BlockNumber log <? 2 ^ 63) && (tl_TxIndex log <? 2 ^ 31) && (tl_Index log <? 2 ^ 31).

Definition insertLog (headerID : Z) (log : types_Log) : DB HeaderDB unit :=
  let topics := buildTopics log in
  raw <-- db_lift (log_MarshalJSON log) ;;
  addressID <-- GetOrCreateAddressInTransaction (Address_Hex (tl_Address log)) ;;
  if log_in_range log then exec_check (insertHeaderSyncLogQuery headerID addressID topics log raw)
  else reject (Driver "pq: integer out of range").

Definition CreateHeaderSyncLogs (headerID : Z) (logs : list types_Log) : DB HeaderDB unit :=
  transact (db_for (insertLog headerID) logs).

(** The rows are read to the end: [rows.Err] is not looked at, and a
    connection lost between two rows is not modelled.  The query has no ORDER BY. *)
Definition GetUntransformedHeaderSyncLogs `{RowOrder} : DB HeaderDB (list HeaderSyncLog) :=
  rows <-- select_rows_auto (λ d, filter (λ r, lg_Transformed r = false) (sync_logs d)) ;;
  db_collect (λ rawLog,
    let logTopics := map BytesToHash (lg_Topics rawLog) in
    address <-- GetAddressByID (lg_Address rawLog) ;;
    let reconstructedLog := mkTypesLog (HexToAddress address) logTopics (lg_Data rawLog)
      (lg_BlockNumber rawLog) (HexToHash (lg_TxHash rawLog)) (lg_TxIndex rawLog)
      (HexToHash (lg_BlockHash rawLog)) (lg_LogIndex rawLog) false in
    db_ret (mkHeaderSyncLog (lg_ID rawLog) (lg_HeaderID rawLog) reconstructedLog (lg_Transformed rawLog)))
    rows.

(** ** header_sync_receipt_repository.go *)

Definition CreateHeaderSyncReceiptInTx (headerID transactionID : Z) (receipt : Receipt) : DB HeaderDB Z :=
  addressID <-- GetOrCreateAddressInTransaction (rc_ContractAddress receipt) ;;
  exec_check (λ d q,
    let '(id, rows, q) := upsert_rows "public.header_sync_receipts"
      (λ r, bool_decide ((rs_HeaderID r, rs_TxID r) = (headerID, transactionID)))
      (λ id, mkRctSync id headerID transactionID addressID receipt)
      (λ r, mkRctSync (rs_ID r) (rs_HeaderID r) (rs_TxID r) addressID receipt)
      rs_ID (sync_receipts d) q in
    if has_header headerID d && existsb (λ t, bool_decide (ts_ID t = transactionID)) (sync_transactions d)
       && has_address addressID d
    then (Ok (id, set_rcts rows d), q) else (Err err_fk, q)).

End Repositories.

(** ** checked_headers_repository.go *)

Definition set_check_count (n : Z) (r : header_row) : header_row :=
  mkHeaderRow (hr_ID r) (hr_BlockNumber r) (hr_Hash r) (hr_Raw r) (hr_Timestamp r) n
    (hr_NodeID r) (hr_Fingerprint r).

Definition MarkHeaderChecked (headerID : Z) : DB HeaderDB unit :=
  modify_auto (λ d, set_headers (map (λ r,
    if bool_decide (hr_ID r = headerID) then set_check_count (hr_CheckCount r + 1) r else r) (headers d)) d).

Definition MarkHeadersUnchecked (startingBlockNumber : Z) : DB HeaderDB unit :=
  modify_auto (λ d, set_headers (map (λ r,
    if startingBlockNumber <=? hr_BlockNumber r then set_check_count 0 r else r) (headers d)) d).

Definition unchecked (Node_ID : string) (startingBlockNumber checkCount : Z) (r : header_row) : bool :=
  (hr_CheckCount r <? checkCount) && (startingBlockNumber <=? hr_BlockNumber r) &&
  bool_decide (hr_Fingerprint r = Node_ID).

(** The columns selected: id, block_number and hash. *)
Definition scan_header (r : header_row) : Header :=
  mkHeader (hr_ID r) (hr_BlockNumber r) (hr_Hash r) [] "".

Definition UncheckedHeaders (Node_ID : string) (startingBlockNumber endingBlockNumber checkCount : Z)
    : DB HeaderDB (list Header) :=
  if endingBlockNumber =? -1 then
    select_auto (λ d, map scan_header
      (filter (λ r, unchecked Node_ID startingBlockNumber checkCount r) (headers d)))
  else
    select_auto (λ d, map scan_header
      (filter (λ r, unchecked Node_ID startingBlockNumber checkCount r ∧ hr_BlockNumber r ≤ endingBlockNumber)
         (headers d))).

(** ** libraries/shared/transactions/syncer.go *)

Fixpoint unique_loop (seen : gset bytes) (logs : list types_Log) : list bytes :=
  match logs with
  | [] => []
  | log :: logs =>
      if decide (tl_TxHash log ∈ seen) then unique_loop seen logs
      else tl_TxHash log :: unique_loop ({[tl_TxHash log]} ∪ seen) logs
  end.

Definition getUniqueTransactionHashes (logs : list types_Log) : list bytes := unique_loop ∅ logs.

Definition RecheckHeaderCap : Z := 5.

Section Extractor.
Context `{GethCommon} `{LogJSON}.
Context (Node_ID : string).

(** core.BlockChain *)
Context (GetEthLogsWithCustomQuery : FilterQuery → result (list types_Log)).
Context (GetTransactions : list bytes → result (list TransactionModel)).

Definition SyncTransactions (headerID : Z) (logs : list types_Log) : DB HeaderDB unit :=
  let transactionHashes := getUniqueTransactionHashes logs in
  if (length transactionHashes <? 1)%nat then db_ret tt
  else
    transactions <-- db_lift (GetTransactions transactionHashes) ;;
    CreateTransactions headerID transactions.

(** ** libraries/shared/fetcher/log_fetcher.go *)

Definition FetchLogs (addresses topic0s : list bytes) (header : Header) : result (list types_Log) :=
  GetEthLogsWithCustomQuery (mkFilterQuery (HexToHash (hd_Hash header)) addresses [topic0s]).

(** ** libraries/shared/logs/extractor.go *)

(** datastore.CheckedLogsRepository; the repository has no implementation. *)
Record CheckedLogsRepository : Type := {
  AlreadyWatchingLog : list string → string → DB HeaderDB bool;
  MarkLogWatched : list string → string → DB HeaderDB unit
}.

Definition ErrNoUncheckedHeaders : error := Sentinel "no unchecked headers available for log fetching".
Definition ErrNoWatchedAddresses : error := Sentinel "no watched addresses configured in the log extractor".

(** The fields that change; the repositories are the database. *)
Record LogExtractor : Type := mkExtractor {
  Addresses : list bytes;
  checkedLogs : option CheckedLogsRepository;
  StartingBlock : option Z;
  Topics : list bytes
}.

Definition earlierStartingBlockNumber (transformerBlock watcherBlock : Z) : bool :=
  transformerBlock <? watcherBlock.

(** constants.TransformerExecution: [true] rechecks headers. *)
Definition getCheckCount (recheckHeaders : bool) : Z :=
  if recheckHeaders then RecheckHeaderCap else 1.

Definition HexStringsToAddresses (strings : list string) : list bytes := map HexToAddress strings.

(** A method call on a nil interface panics. *)
Definition updateCheckedHeaders (extractor : LogExtractor) (config : EventTransformerConfig) : DB HeaderDB unit :=
  match checkedLogs extractor with
  | None => λ o s, (DPanic "nil pointer dereference", s)
  | Some repository =>
      alreadyWatchingLog <-- AlreadyWatchingLog repository (ContractAddresses config) (Topic config) ;;
      if alreadyWatchingLog : bool then db_ret tt
      else
        MarkHeadersUnchecked (StartingBlockNumber config) ;;;
        MarkLogWatched repository (ContractAddresses config) (Topic config)
  end.

Definition AddTransformerConfig (extractor : LogExtractor) (config : EventTransformerConfig)
    : DB HeaderDB LogExtractor :=
  updateCheckedHeaders extractor config ;;;
  let start :=
    match StartingBlock extractor with
    | None => StartingBlockNumber config
    | Some b => if earlierStartingBlockNumber (StartingBlockNumber config) b
                then StartingBlockNumber config else b
    end in
  db_ret (mkExtractor (Addresses extractor ++ HexStringsToAddresses (ContractAddresses config))
            (checkedLogs extractor) (Some start) (Topics extractor ++ [HexToHash (Topic config)])).

(** The body of the loop over the unchecked headers. *)
Definition extract_header (extractor : LogExtractor) (header : Header) : DB HeaderDB unit :=
  logs <-- db_lift (FetchLogs (Addresses extractor) (Topics extractor) header) ;;
  (if (0 <? length logs)%nat then
     SyncTransactions (hd_ID header) logs ;;;
     CreateHeaderSyncLogs (hd_ID header) logs
   else db_ret tt) ;;;
  MarkHeaderChecked (hd_ID header).

Definition ExtractLogs (extractor : LogExtractor) (recheckHeaders : bool) : DB HeaderDB unit :=
  if (length (Addresses extractor) <? 1)%nat then db_fail ErrNoWatchedAddresses
  else
    match StartingBlock extractor with
    | None => λ o s, (DPanic "nil pointer dereference", s)
    | Some start =>
        uncheckedHeaders <-- UncheckedHeaders Node_ID start (-1) (getCheckCount recheckHeaders) ;;
        if (length uncheckedHeaders <? 1)%nat then db_fail ErrNoUncheckedHeaders
        else db_for (extract_header extractor) uncheckedHeaders
    end.

End Extractor.

(** ** Lemmas: addresses *)

(** Documented behaviour of go-ethereum's printing and padding. *)
Class LogLaws `{GethCommonLaws} := {
  HexToAddress_Address_Hex : ∀ a, length a = 20%nat → HexToAddress (Address_Hex a) = a;
  BytesToHash_32 : ∀ h, length h = 32%nat → BytesToHash h = h
}.

Definition address_of (d : HeaderDB) (id : Z) : option string :=
  head (map ad_Address (filter (λ r, ad_ID r = id) (addresses d))).

Lemma has_header_spec id d : has_header id d = true ↔ id ∈ map hr_ID (headers d).
Proof.
  unfold has_header. rewrite existsb_exists, list_elem_of_fmap. split.
  - intros (r & Hr%list_elem_of_In & Hid%bool_decide_eq_true). by exists r.
  - intros (r & -> & Hr). exists r. split; [by apply list_elem_of_In|by apply bool_decide_eq_true].
Qed.

Lemma has_address_spec id d : has_address id d = true ↔ id ∈ map ad_ID (addresses d).
Proof.
  unfold has_address. rewrite existsb_exists, list_elem_of_fmap. split.
  - intros (r & Hr%list_elem_of_In & Hid%bool_decide_eq_true). by exists r.
  - intros (r & -> & Hr). exists r. split; [by apply list_elem_of_In|by apply bool_decide_eq_true].
Qed.

Lemma address_of_Some d q id a : hwf d q →
  address_of d id = Some a ↔ ∃ r, r ∈ addresses d ∧ ad_ID r = id ∧ ad_Address r = a.
Proof.
  intros Hwf. unfold address_of. destruct (hwf_addresses _ _ Hwf) as (Hnd & _).
  assert (Hin : ∀ r, r ∈ filter (λ r, ad_ID r = id) (addresses d) ↔ ad_ID r = id ∧ r ∈ addresses d).
  { intros r. by rewrite list_elem_of_filter. }
  destruct (filter _ (addresses d)) as [|r0 rs]; simpl.
  - split; [done|]. intros (r & Hr & Hid & _). assert (Hn : r ∈ @nil address_row) by (by apply Hin). by apply elem_of_nil in Hn.
  - destruct (proj1 (Hin r0)) as [Hid0 Hr0]; [by left|]. split.
    + intros [= <-]. by exists r0.
    + intros (r & Hr & Hid & <-). f_equal. f_equal. eapply NoDup_map_inj; [exact Hnd|done|done|congruence].
Qed.

(** Tables that grew by addresses only. *)
Definition more_addresses (d d' : HeaderDB) : Prop :=
  ∃ rows, d' = set_addresses (addresses d ++ rows) d.

Lemma hwf_more_addresses d rows q q' : hwf d q → seq_le q q' →
  table_ok "public.addresses" ad_ID ad_Address (addresses d ++ rows) q' →
  hwf (set_addresses (addresses d ++ rows) d) q'.
Proof.
  intros Hwf Hq Hok. destruct (hwf_seq _ _ _ Hq Hwf) as [H1 H2 H3 H4 H5 H6 H7 H8].
  split; simpl; try done.
  - eapply Forall_impl; [exact H5|]. simpl. intros r (?&?&?). split_and!; [done..|].
    rewrite map_app. apply elem_of_app. by left.
  - eapply Forall_impl; [exact H7|]. simpl. intros r (?&?). split; [done|].
    rewrite map_app. apply elem_of_app. by left.
Qed.

(** The query returns the id of the address, inserting it if needed. *)
Lemma getOrCreateAddressQuery_spec a h d q : hwf d q →
  let '(ids, d', q') := getOrCreateAddressQuery a h d q in
  hwf d' q' ∧ seq_le q q' ∧ more_addresses d d' ∧
  ∃ id, head ids = Some id ∧ address_of d' id = Some a.
Proof.
  intros Hwf. unfold getOrCreateAddressQuery.
  pose proof (insert_ignore_facts "public.addresses" ad_ID ad_Address a (λ id, mkAddressRow id a h) _ _
    (λ _, eq_refl) (λ _, eq_refl) (hwf_addresses _ _ Hwf)) as Hf.
  destruct (insert_ignore _ _ _ _ _) as [[ids rows] q'].
  destruct Hf as (Hq & Hok & [(-> & -> & Hin)|(n & -> & -> & Hnin & Hid & _)]).
  - assert (Hd : set_addresses (addresses d) d = d) by (by destruct d).
    rewrite Hd. split; [by eapply hwf_seq|]. split; [done|].
    split; [exists []; by rewrite app_nil_r, Hd|].
    apply list_elem_of_fmap in Hin as (r & -> & Hr). rewrite app_nil_r.
    assert (Hr' : r ∈ filter (λ r', ad_Address r' = ad_Address r) (addresses d)) by (by apply list_elem_of_filter).
    destruct (filter _ (addresses d)) as [|r0 rs] eqn:E; [by apply elem_of_nil in Hr'|].
    exists (ad_ID r0). split; [done|]. apply (address_of_Some d q _ _ Hwf). exists r0.
    assert (H0 : r0 ∈ r0 :: rs) by (by left). rewrite <- E in H0. by apply list_elem_of_filter in H0 as [? ?].
  - assert (Hwf' : hwf (set_addresses (addresses d ++ [mkAddressRow n a h]) d) q') by (by eapply hwf_more_addresses).
    split; [done|]. split; [done|]. split; [by eexists|].
    assert (Hnil : filter (λ r, ad_Address r = a) (addresses d) = []).
    { destruct (filter _ _) as [|r0 rs] eqn:E; [done|].
      assert (H0 : r0 ∈ r0 :: rs) by (by left). rewrite <- E in H0. apply list_elem_of_filter in H0 as [<- H0].
      destruct Hnin. by apply list_elem_of_fmap_2. }
    rewrite Hnil. exists n. split; [done|]. apply (address_of_Some _ q' _ _ Hwf').
    eexists. split; [simpl; apply elem_of_app; right; by left|done].
Qed.

Lemma address_of_more d d' q' id a : hwf d' q' → more_addresses d d' →
  address_of d id = Some a → address_of d' id = Some a.
Proof.
  intros Hwf (rows & ->) Ha. apply (address_of_Some _ q' _ _ Hwf). unfold address_of in Ha.
  destruct (filter _ (addresses d)) as [|r rs] eqn:E; [done|]. injection Ha as <-. exists r.
  assert (H0 : r ∈ r :: rs) by (by left). rewrite <- E in H0. apply list_elem_of_filter in H0 as [<- H0].
  split; [simpl; apply elem_of_app; by left|done].
Qed.

(** ** Lemmas: storing logs *)

Section LogLemmas.
Context `{GethCommon} `{LogJSON}.

Definition log_id (headerID : Z) (log : types_Log) : Z * Z * Z := (headerID, tl_TxIndex log, tl_Index log).

Lemma hwf_insert_log hid aid topics log raw d q :
  hwf d q → hid ∈ map hr_ID (headers d) → aid ∈ map ad_ID (addresses d) →
  match insert_ignore "public.header_sync_logs" (λ r, bool_decide (log_key r = log_id hid log))
    (insertion_log hid aid topics log raw) (sync_logs d) q with
  | (ids, rows, q') => seq_le q q' ∧ hwf (set_logs rows d) q' ∧
      (log_id hid log ∈ map log_key rows) ∧
      ((rows = sync_logs d ∧ log_id hid log ∈ map log_key (sync_logs d)) ∨
       ∃ n, rows = sync_logs d ++ [insertion_log hid aid topics log raw n])
  end.
Proof.
  intros Hwf Hh Ha.
  pose proof (insert_ignore_facts "public.header_sync_logs" lg_ID log_key (log_id hid log)
    (insertion_log hid aid topics log raw) _ _ (λ _, eq_refl) (λ _, eq_refl) (hwf_logs _ _ Hwf)) as Hf.
  destruct (insert_ignore _ _ _ _ _) as [[ids rows] q'].
  destruct Hf as (Hq & Hok & Hrows). destruct (hwf_seq _ _ _ Hq Hwf) as [H1 H2 H3 H4 H5 H6 H7 H8].
  split; [done|]. destruct Hrows as [(_ & -> & Hin)|(n & _ & -> & _)].
  - split; [by split|]. split; [done|by left].
  - split; [|split; [|right; by eexists]].
    + split; simpl; try done. apply Forall_app. split; [done|]. by repeat constructor.
    + rewrite map_app. apply elem_of_app. right. by left.
Qed.

(** What survives the transaction of [CreateHeaderSyncLogs]: the schema, the
    headers, and the logs already there. *)
Definition storing (hs : list header_row) (K : list (Z * Z * Z)) : state_pred HeaderDB :=
  λ d q, hwf d q ∧ headers d = hs ∧ ∀ k, k ∈ K → k ∈ map log_key (sync_logs d).

Lemma storing_closed hs K : seq_closed (storing hs K).
Proof. intros d q q' Hq (H1 & H2 & H3). split_and!; [by eapply hwf_seq|done..]. Qed.

Lemma GetOrCreateAddressInTransaction_ensures a hs K :
  ensures (storing hs K) (GetOrCreateAddressInTransaction a)
    (λ id d q, storing hs K d q ∧ id ∈ map ad_ID (addresses d)).
Proof.
  apply scan_one_ensures, exec_ensures. intros d q (Hwf & Hh & HK).
  pose proof (getOrCreateAddressQuery_spec (getChecksumAddress a)
    (Hash_String (HexToKeccak256Hash (getChecksumAddress a))) d q Hwf) as Hs.
  destruct (getOrCreateAddressQuery _ _ d q) as [[ids d'] q']. simpl.
  destruct Hs as (Hwf' & Hq & (rows & ->) & id & Hid & Ha). destruct ids as [|id' ids]; [done|].
  injection Hid as <-. split; [by split_and!|].
  apply (address_of_Some _ _ _ _ Hwf') in Ha as (r & Hr & <- & _). by apply list_elem_of_fmap_2.
Qed.

Lemma insertLog_ensures hid log hs K :
  ensures (storing hs K) (insertLog hid log) (λ _, storing hs (log_id hid log :: K)).
Proof.
  eapply bind_ensures; [apply lift_ensures|intros raw]. simpl.
  eapply bind_ensures; [apply GetOrCreateAddressInTransaction_ensures|intros aid].
  case_match; [|by intros o s Hs]. apply exec_check_ensures.
  intros d q [] d' q' [(Hwf & Hh & HK) Haid]. unfold insertHeaderSyncLogQuery.
  change (λ r, bool_decide (log_key r = (hid, tl_TxIndex log, tl_Index log)))
    with (λ r, bool_decide (log_key r = log_id hid log)).
  destruct (has_header hid d && has_address aid d) eqn:Efk; [|by destruct (insert_ignore _ _ _ _ _) as [[??]?]].
  apply andb_true_iff in Efk as [Eh%has_header_spec _].
  pose proof (hwf_insert_log hid aid (buildTopics log) log raw d q Hwf Eh Haid) as Hi.
  destruct (insert_ignore _ _ _ _ _) as [[ids rows] q2].
  intros [= <- <-]. destruct Hi as (_ & Hwf' & Hin & Hrows). split_and!; [done|done|].
  intros k [->|Hk]%elem_of_cons; [done|]. simpl.
  destruct Hrows as [[-> _]|(n & ->)]; [by apply HK|]. rewrite map_app. apply elem_of_app. left. by apply HK.
Qed.

Lemma insertLog_grows hid log : grows (insertLog hid log).
Proof.
  apply grows_bind; [apply grows_lift|intros raw]. apply grows_bind.
  - apply grows_scan_one, grows_exec. intros d q. unfold getOrCreateAddressQuery.
    pose proof (insert_ignore_grows "public.addresses" (λ r, bool_decide (ad_Address r = getChecksumAddress (Address_Hex (tl_Address log))))
      (λ id, mkAddressRow id (getChecksumAddress (Address_Hex (tl_Address log)))
         (Hash_String (HexToKeccak256Hash (getChecksumAddress (Address_Hex (tl_Address log)))))) (addresses d) q) as Hg.
    by destruct (insert_ignore _ _ _ _ _) as [[??]?].
  - intros aid. case_match; [|by intros o s]. apply grows_exec_check. intros d q.
    unfold insertHeaderSyncLogQuery.
    pose proof (insert_ignore_grows "public.header_sync_logs"
      (λ r, bool_decide (log_key r = (hid, tl_TxIndex log, tl_Index log)))
      (insertion_log hid aid (buildTopics log) log raw) (sync_logs d) q) as Hg.
    destruct (insert_ignore _ _ _ _ _) as [[??]?]. by case_match.
Qed.

Lemma insert_logs_ensures hid logs : ∀ hs K,
  ensures (storing hs K) (db_for (insertLog hid) logs) (λ _, storing hs (map (log_id hid) logs ++ K)).
Proof.
  induction logs as [|log logs IH]; intros hs K; simpl; [apply ret_ensures|].
  eapply bind_ensures; [apply insertLog_ensures|intros []].
  eapply ensures_weaken; [| |apply (IH hs (log_id hid log :: K))]; [done|].
  intros _ d q (H1 & H2 & H3). split_and!; [done|done|]. intros k Hk. apply H3.
  rewrite elem_of_cons, elem_of_app in Hk. rewrite elem_of_app, elem_of_cons. tauto.
Qed.

(** A call that returns stored every log; one that fails changed nothing. *)
Lemma CreateHeaderSyncLogs_hoare hid logs hs K :
  hoare (storing hs K) (CreateHeaderSyncLogs hid logs)
    (λ _, storing hs (map (log_id hid) logs ++ K)) (storing hs K).
Proof.
  apply hoare_transact; [apply storing_closed|intros; apply storing_closed| |apply insert_logs_ensures].
  apply grows_for, insertLog_grows.
Qed.

(** Transactions leave headers and logs alone. *)
Lemma CreateTransactions_frame hid txs hs ls :
  keeps (λ d _, headers d = hs ∧ sync_logs d = ls) (CreateTransactions hid txs).
Proof.
  apply keeps_for. intros tx o s _ Hs. unfold exec_auto_check. destruct (o (clock s)); [done|].
  destruct (insert_transaction hid tx (tables s) (seqs s)) as [[ids rows] q].
  by destruct (existsb _ (headers (tables s))).
Qed.

Lemma CreateTransactions_storing hid txs hs K : keeps (storing hs K) (CreateTransactions hid txs).
Proof.
  intros o s Ho (Hwf & Hh & HK).
  destruct (CreateTransactions_frame hid txs (headers (tables s)) (sync_logs (tables s)) o s Ho) as [F1 F2]; [done|].
  split; [by apply CreateTransactions_keeps|]. by rewrite F1, F2.
Qed.

End LogLemmas.

(** ** Lemmas: checked headers have their logs

    [block_logs] gives the logs of a block; the node filters them as the
    documentation of [FilterQuery] says. *)

Definition answers_logs (block_logs : bytes → list types_Log)
    (GetEthLogsWithCustomQuery : FilterQuery → result (list types_Log)) : Prop :=
  ∀ h As Ts logs, GetEthLogsWithCustomQuery (mkFilterQuery h As [Ts]) = Ok logs →
    ∀ l, l ∈ logs ↔ l ∈ block_logs h ∧ (As = [] ∨ tl_Address l ∈ As) ∧
      (Ts = [] ∨ ∃ t, head (tl_Topics l) = Some t ∧ t ∈ Ts).

Section Complete.
Context `{GethCommon} `{LogJSON}.
Context (Node_ID : string) (block_logs : bytes → list types_Log).

(** The logs a transformer watches. *)
Definition watches (config : EventTransformerConfig) (l : types_Log) : Prop :=
  tl_Address l ∈ HexStringsToAddresses (ContractAddresses config) ∧
  head (tl_Topics l) = Some (HexToHash (Topic config)).

(** Every checked header from the configured block on has its watched logs. *)
Definition complete (config : EventTransformerConfig) (d : HeaderDB) : Prop :=
  ∀ r, r ∈ headers d → hr_Fingerprint r = Node_ID → StartingBlockNumber config ≤ hr_BlockNumber r →
    0 < hr_CheckCount r →
    ∀ l, l ∈ block_logs (HexToHash (hr_Hash r)) → watches config l →
      log_id (hr_ID r) l ∈ map log_key (sync_logs d).

Definition complete_wf (config : EventTransformerConfig) : state_pred HeaderDB :=
  λ d q, hwf d q ∧ complete config d.

(** An extractor that has been given the configuration. *)
Definition includes (extractor : LogExtractor) (config : EventTransformerConfig) : Prop :=
  (∀ a, a ∈ HexStringsToAddresses (ContractAddresses config) → a ∈ Addresses extractor) ∧
  HexToHash (Topic config) ∈ Topics extractor.

Lemma hwf_map_headers (f : header_row → header_row) d q :
  (∀ r, hr_ID (f r) = hr_ID r ∧ header_key (f r) = header_key r) →
  hwf d q → hwf (set_headers (map f (headers d)) d) q.
Proof.
  intros Hf [(H1 & H1' & H1'') H2 H3 H4 H5 H6 H7 H8].
  assert (Hid : map hr_ID (map f (headers d)) = map hr_ID (headers d)).
  { rewrite map_map. apply map_ext. apply Hf. }
  assert (Hkey : map header_key (map f (headers d)) = map header_key (headers d)).
  { rewrite map_map. apply map_ext. apply Hf. }
  assert (Hheight : map height_key (map f (headers d)) = map height_key (headers d)).
  { rewrite map_map. apply map_ext. intros r. destruct (Hf r) as [_ Hk].
    unfold header_key, height_key in *. congruence. }
  split; simpl; rewrite ?Hid, ?Hheight; try done.
  split; [by rewrite Hid|]. split; [by rewrite Hkey|].
  rewrite Forall_forall in H1'' |- *. intros r (r0 & -> & Hr)%list_elem_of_fmap.
  rewrite (proj1 (Hf r0)). by apply H1''.
Qed.

Lemma set_check_count_keys n r :
  hr_ID (set_check_count n r) = hr_ID r ∧ header_key (set_check_count n r) = header_key r.
Proof. done. Qed.

(** Counting a header whose watched logs are stored keeps completeness. *)
Lemma MarkHeaderChecked_hoare config id d0 :
  (∀ r, r ∈ headers d0 → hr_ID r = id → ∀ l, l ∈ block_logs (HexToHash (hr_Hash r)) → watches config l →
     log_id id l ∈ map log_key (sync_logs d0)) →
  hoare (λ d q, complete_wf config d q ∧ d = d0) (MarkHeaderChecked id)
    (λ _ d q, complete_wf config d q ∧ ∀ r, r ∈ headers d → ∃ r0, r0 ∈ headers d0 ∧ hr_ID r = hr_ID r0 ∧ hr_Hash r = hr_Hash r0)
    (complete_wf config).
Proof.
  intros Hl o s Ho [[Hwf Hc] Hd]. unfold MarkHeaderChecked, modify_auto, exec_auto.
  destruct (o (clock s)); simpl; [by split|]. split; [split|].
  - apply hwf_map_headers; [|done]. intros r. case_bool_decide; [apply set_check_count_keys|done].
  - intros r (r0 & -> & Hr)%list_elem_of_fmap Hf Hs Hn l Hin Hw. simpl.
    case_bool_decide as Hid; [|by apply Hc]. simpl in *. rewrite Hid. rewrite Hd in Hr |- *. by eapply Hl.
  - rewrite Hd. intros r (r0 & -> & Hr)%list_elem_of_fmap. exists r0. by case_bool_decide.
Qed.

Lemma MarkHeadersUnchecked_keeps config n : keeps (complete_wf config) (MarkHeadersUnchecked n).
Proof.
  apply keeps_modify_auto. intros d q [Hwf Hc]. split.
  - apply hwf_map_headers; [|done]. intros r. case_match; [apply set_check_count_keys|done].
  - intros r (r0 & -> & Hr)%list_elem_of_fmap. simpl.
    case_match; [simpl; lia|]. intros. by apply Hc.
Qed.

Context (GetEthLogsWithCustomQuery : FilterQuery → result (list types_Log)).
Context (GetTransactions : list bytes → result (list TransactionModel)).

(** The headers still to be extracted are those of the table. *)
Definition known (hs : list Header) (d : HeaderDB) : Prop :=
  ∀ h, h ∈ hs → ∀ r, r ∈ headers d → hr_ID r = hd_ID h → hr_Hash r = hd_Hash h.

Lemma SyncTransactions_storing hid logs hs K :
  keeps (storing hs K) (SyncTransactions GetTransactions hid logs).
Proof.
  unfold SyncTransactions. case_match; [apply keeps_ret|].
  apply keeps_bind; [apply keeps_lift|intros txs]. apply CreateTransactions_storing.
Qed.

(** The state of [complete_wf] is determined by headers and log keys. *)
Lemma complete_storing config d d' q' : complete config d →
  storing (headers d) (map log_key (sync_logs d)) d' q' → complete_wf config d' q'.
Proof.
  intros Hc (Hwf & Hh & HK). split; [done|]. intros r Hr. rewrite Hh in Hr.
  intros Hf Hs Hn l Hl Hw. apply HK. by apply Hc.
Qed.

Lemma extract_header_hoare config extractor h hs :
  answers_logs block_logs GetEthLogsWithCustomQuery → includes extractor config →
  hoare (λ d q, complete_wf config d q ∧ known (h :: hs) d)
    (extract_header GetEthLogsWithCustomQuery GetTransactions extractor h)
    (λ _ d q, complete_wf config d q ∧ known hs d) (complete_wf config).
Proof.
  intros Hans [Has Ht] o s Ho [[Hwf Hc] Hk]. unfold extract_header.
  unfold db_bind at 1. unfold FetchLogs, db_lift.
  destruct (GetEthLogsWithCustomQuery _) as [logs|e|w] eqn:Eq; simpl; [|by split..].
  set (K := map log_key (sync_logs (tables s))).
  (* storing the logs *)
  match goal with |- context [db_bind ?m _] => set (body := m) end.
  assert (Hstore : hoare (storing (headers (tables s)) K) body
    (λ _, storing (headers (tables s)) (map (log_id (hd_ID h)) logs ++ K)) (storing (headers (tables s)) K)).
  { unfold body. destruct (0 <? length logs)%nat eqn:El.
    - eapply hoare_bind; [apply keeps_hoare, SyncTransactions_storing|intros []].
      apply CreateHeaderSyncLogs_hoare.
    - destruct logs; [|done]. by intros o' s' _ Hs'. }
  specialize (Hstore o s Ho (conj Hwf (conj eq_refl (λ k Hk, Hk)))).
  unfold db_bind. destruct (body o s) as [[[]|b e|w] s1];
    [|by eapply complete_storing..].
  destruct Hstore as (Hwf1 & Hh1 & HK1).
  assert (Hc1 : complete_wf config (tables s1) (seqs s1)).
  { apply (complete_storing config (tables s)); [done|]. split_and!; [done|done|].
    intros k Hin. apply HK1, elem_of_app. by right. }
  pose proof (MarkHeaderChecked_hoare config (hd_ID h) (tables s1)) as Hm.
  specialize (Hm ltac:(intros r Hr Hid l Hl [Hw1 Hw2];
    apply HK1, elem_of_app; left; apply list_elem_of_fmap_2;
    apply (Hans _ _ _ _ Eq); rewrite Hh1 in Hr;
    rewrite <- (Hk h (list_elem_of_here h hs) r Hr Hid);
    split_and!; [done|right; by apply Has|right; by eexists]) o s1 Ho (conj Hc1 eq_refl)).
  destruct (MarkHeaderChecked (hd_ID h) o s1) as [[[]|b e|w] s2]; [|done..].
  destruct Hm as [Hc2 Hrows]. split; [done|]. intros h' Hh' r Hr Hid.
  destruct (Hrows r Hr) as (r0 & Hr0 & Hid0 & ->). rewrite Hh1 in Hr0.
  apply (Hk h'); [by right|done|congruence].
Qed.

Lemma UncheckedHeaders_known a b n o s hs s' q : hwf (tables s) q →
  UncheckedHeaders Node_ID a b n o s = (DOk hs, s') → tables s' = tables s ∧ seqs s' = seqs s ∧ known hs (tables s).
Proof.
  intros Hwf. destruct (hwf_headers _ _ Hwf) as (Hnd & _).
  assert (Hknown : ∀ (P : header_row → Prop) `{!∀ x, Decision (P x)},
    known (map scan_header (filter P (headers (tables s)))) (tables s)).
  { intros P HP h Hh r Hr Hid. apply list_elem_of_fmap in Hh as (r0 & -> & Hr0).
    apply list_elem_of_filter in Hr0 as [_ Hr0]. simpl. f_equal. by eapply (NoDup_map_inj hr_ID). }
  unfold UncheckedHeaders, select_auto, exec_auto.
  destruct (b =? -1), (o (clock s)); intros [= <- <-]; simpl; auto.
Qed.

Lemma UncheckedHeaders_keeps I a b n : keeps I (UncheckedHeaders Node_ID a b n).
Proof. unfold UncheckedHeaders. case_match; apply keeps_select_auto. Qed.

Lemma ExtractLogs_keeps config extractor recheckHeaders :
  answers_logs block_logs GetEthLogsWithCustomQuery → includes extractor config →
  keeps (complete_wf config)
    (ExtractLogs Node_ID GetEthLogsWithCustomQuery GetTransactions extractor recheckHeaders).
Proof.
  intros Hans Hinc. unfold ExtractLogs. case_match; [apply keeps_fail|].
  destruct (StartingBlock extractor) as [start|]; [|by intros o s].
  intros o s Ho [Hwf Hc]. unfold db_bind.
  pose proof (UncheckedHeaders_keeps (complete_wf config) start (-1) (getCheckCount recheckHeaders) o s Ho
    (conj Hwf Hc)) as Hsel.
  destruct (UncheckedHeaders Node_ID start (-1) _ o s) as [[hs|b e|w] s1] eqn:E.
  - destruct (UncheckedHeaders_known _ _ _ _ _ _ _ _ Hwf E) as (Ht & Hq & Hk).
    case_match; simpl; [by rewrite Ht, Hq|].
    pose proof (hoare_for (λ hs d q, complete_wf config d q ∧ known hs d)
      (extract_header GetEthLogsWithCustomQuery GetTransactions extractor) (complete_wf config) hs
      (λ h hs, extract_header_hoare config extractor h hs Hans Hinc) o s1 Ho) as Hf.
    rewrite Ht, Hq in Hf. specialize (Hf (conj (conj Hwf Hc) Hk)).
    destruct (db_for _ hs o s1) as [[[]|b e|w] s2]; simpl; [by destruct Hf|done..].
  - exact Hsel.
  - exact Hsel.
Qed.

(** A replaced header goes with its logs, and a new one is unchecked. *)
Definition complete_ids (config : EventTransformerConfig) : state_pred HeaderDB :=
  λ d q, table_ok "public.headers" hr_ID header_key (headers d) q ∧ complete config d.

Lemma delete_headers_complete config gone d q :
  complete_ids config d q → complete_ids config (delete_headers gone d) q.
Proof.
  intros [Hok Hc]. split; [by apply table_ok_filter|]. destruct Hok as (Hnd & _).
  intros r [Hg Hr]%list_elem_of_filter Hf Hs Hn l Hl Hw.
  destruct (proj1 (list_elem_of_fmap _ _ _) (Hc r Hr Hf Hs Hn l Hl Hw)) as (x & Hx & Hin).
  rewrite Hx. apply list_elem_of_fmap_2, list_elem_of_filter. split; [|done].
  intros (r' & Hid & Hg' & Hr')%elem_of_map_filter.
  assert (r = r') as ->; [|done]. eapply NoDup_map_inj; [exact Hnd|done|done|].
  unfold log_key, log_id in Hx. congruence.
Qed.

Lemma InternalInsertHeader_complete NodeID config h :
  keeps (complete_ids config) (InternalInsertHeader NodeID Node_ID h).
Proof.
  intros o s Ho [Hok Hc]. unfold InternalInsertHeader, no_rows_as, scan_one, db_bind, exec_auto.
  destruct (o (clock s)); simpl; [by split|].
  pose proof (insert_ignore_facts "public.headers" hr_ID header_key (hd_BlockNumber h, hd_Hash h, Node_ID)
    (header_insertion NodeID Node_ID h) _ _ (λ _, eq_refl) (λ _, eq_refl) Hok) as Hf.
  destruct (insert_ignore _ _ _ _ _) as [[ids rows] q].
  destruct Hf as (_ & Hok' & [(-> & -> & _)|(n & -> & -> & _)]); simpl; (split; [done|]); [done|].
  intros r [Hr|Hr%list_elem_of_singleton]%elem_of_app; simpl; [by apply Hc|]. subst r. simpl. lia.
Qed.

Lemma CreateOrUpdateHeader_complete NodeID config h :
  keeps (complete_wf config) (CreateOrUpdateHeader NodeID Node_ID h).
Proof.
  intros o s Ho [Hwf Hc].
  pose proof (CreateOrUpdateHeader_keeps NodeID Node_ID h o s Ho Hwf) as Hwf'. split; [done|].
  cut (complete_ids config (tables (CreateOrUpdateHeader NodeID Node_ID h o s).2)
    (seqs (CreateOrUpdateHeader NodeID Node_ID h o s).2)); [by intros []|].
  assert (Hi : complete_ids config (tables s) (seqs s)) by (split; [apply hwf_headers|]; done).
  assert (Hrep : keeps (complete_ids config) (replaceHeader NodeID Node_ID h)).
  { apply keeps_bind; [|intros []; apply InternalInsertHeader_complete].
    apply keeps_modify_auto. intros d q. apply delete_headers_complete. }
  unfold CreateOrUpdateHeader. rewrite getHeaderHash_spec.
  destruct (match o (clock s) with Some _ => _ | None => _ end) as [x|b e|w]; [|case_match|]; try done.
  - case_match; [by apply Hrep|done].
  - by apply InternalInsertHeader_complete.
Qed.

(** A configuration that was not watched before: no header counts as checked. *)
Lemma AddTransformerConfig_resets extractor config repository :
  checkedLogs extractor = Some repository →
  keeps hwf (AlreadyWatchingLog repository (ContractAddresses config) (Topic config)) →
  (∀ o s a s', AlreadyWatchingLog repository (ContractAddresses config) (Topic config) o s = (DOk a, s') → a = false) →
  keeps (complete_wf config) (MarkLogWatched repository (ContractAddresses config) (Topic config)) →
  hoare hwf (AddTransformerConfig extractor config)
    (λ extractor' d q, complete_wf config d q ∧ includes extractor' config) (λ _ _, True).
Proof.
  intros Hrep Hwf1 Hnot Hmark o s Ho Hwf. unfold AddTransformerConfig, updateCheckedHeaders. rewrite Hrep.
  unfold db_bind. specialize (Hwf1 o s Ho Hwf).
  destruct (AlreadyWatchingLog _ _ _ o s) as [[a|b e|w] s1] eqn:E1; [|done..]. simpl in Hwf1.
  rewrite (Hnot o s a s1 E1). unfold MarkHeadersUnchecked, modify_auto, exec_auto.
  destruct (o (clock s1)); [done|]. set (s2 := mkSession _ _ _ _).
  assert (Hc2 : complete_wf config (tables s2) (seqs s2)).
  { split; simpl.
    - apply hwf_map_headers; [|done]. intros r. case_match; [apply set_check_count_keys|done].
    - intros r (r0 & -> & Hr)%list_elem_of_fmap. destruct (StartingBlockNumber config <=? hr_BlockNumber r0) eqn:El.
      + simpl. lia.
      + intros _ Hs. zbool. simpl in *. lia. }
  specialize (Hmark o s2 Ho Hc2). destruct (MarkLogWatched _ _ _ o s2) as [[[]|b e|w] s3]; [|done..].
  split; [done|]. split; simpl.
  - intros x Hx. apply elem_of_app. by right.
  - apply elem_of_app. right. by left.
Qed.

End Complete.

(** ** Lemmas: reading logs back *)

Section Reading.
Context `{GethCommonLaws} `{LogJSON} {laws : LogLaws}.

(** What a stored row is read as. *)
Definition read_row (d : HeaderDB) (r : log_row) : result HeaderSyncLog :=
  match address_of d (lg_Address r) with
  | None => Err ErrNoRows
  | Some address =>
      Ok (mkHeaderSyncLog (lg_ID r) (lg_HeaderID r)
            (mkTypesLog (HexToAddress address) (map BytesToHash (lg_Topics r)) (lg_Data r) (lg_BlockNumber r)
               (HexToHash (lg_TxHash r)) (lg_TxIndex r) (HexToHash (lg_BlockHash r)) (lg_LogIndex r) false)
            (lg_Transformed r))
  end.

Definition untransformed (d : HeaderDB) : list log_row := filter (λ r, lg_Transformed r = false) (sync_logs d).

Lemma GetAddressByID_evaluates id :
  evaluates (GetAddressByID id) (λ d, match address_of d id with None => Err ErrNoRows | Some a => Ok a end).
Proof.
  eapply evaluates_ext; [|apply scan_one_evaluates, select_auto_evaluates].
  intros d. unfold address_of. by destruct (map ad_Address _).
Qed.

Lemma GetUntransformed_evaluates `{RowOrder} :
  evaluates GetUntransformedHeaderSyncLogs (λ d, range_collect (read_row d) (any_order (untransformed d))).
Proof.
  eapply evaluates_ext; [|eapply bind_evaluates; [apply select_rows_auto_evaluates|]].
  2: { intros rows. apply collect_evaluates. intros r.
       eapply evaluates_ext; [|eapply bind_evaluates; [apply GetAddressByID_evaluates|]].
       2: { intros a. apply ret_evaluates. }
       intros d. instantiate (1 := λ r d, read_row d r). unfold read_row. by destruct (address_of d _). }
  done.
Qed.

(** Foreign keys make every row readable. *)
Lemma read_row_ok d q r : hwf d q → r ∈ sync_logs d → is_ok (read_row d r) = true.
Proof.
  intros Hwf Hr. pose proof (hwf_log_fk _ _ Hwf) as Hfk. rewrite Forall_forall in Hfk.
  destruct (Hfk r Hr) as [_ Ha]. unfold read_row.
  apply list_elem_of_fmap in Ha as (x & Hx & Hin).
  assert (He : address_of d (lg_Address r) = Some (ad_Address x)).
  { apply (address_of_Some d q _ _ Hwf). by exists x. }
  by rewrite He.
Qed.

Lemma untransformed_ok d q : hwf d q →
  ∃ logs, range_collect (read_row d) (untransformed d) = Ok logs.
Proof.
  intros Hwf. assert (Hok : is_ok (range_collect (read_row d) (untransformed d)) = true).
  { rewrite range_collect_is_ok. apply forallb_forall. intros r Hr%list_elem_of_In.
    apply list_elem_of_filter in Hr as [_ Hr]. by eapply read_row_ok. }
  destruct (range_collect _ _) as [logs|e|w]; [by exists logs|done..].
Qed.

(** A log as the node sends it, and as it is read back. *)
Definition valid_log (log : types_Log) : Prop :=
  length (tl_Address log) = 20%nat ∧ Forall (λ t, length t = 32%nat) (tl_Topics log) ∧
  length (tl_TxHash log) = 32%nat ∧ length (tl_BlockHash log) = 32%nat ∧
  log_in_range log = true ∧ is_ok (log_MarshalJSON log) = true.

Definition unremoved (log : types_Log) : types_Log :=
  mkTypesLog (tl_Address log) (tl_Topics log) (tl_Data log) (tl_BlockNumber log) (tl_TxHash log)
    (tl_TxIndex log) (tl_BlockHash log) (tl_Index log) false.

(** One insertion, when the server accepts every statement. *)
Lemma insertLog_spec hid log s : hwf (tables s) (seqs s) → aborted s = false →
  hid ∈ map hr_ID (headers (tables s)) → valid_log log →
  ∃ s', insertLog hid log no_faults s = (DOk tt, s') ∧ aborted s' = false ∧ hwf (tables s') (seqs s') ∧
    headers (tables s') = headers (tables s) ∧
    ((log_id hid log ∈ map log_key (sync_logs (tables s)) ∧ sync_logs (tables s') = sync_logs (tables s)) ∨
     ∃ r, sync_logs (tables s') = sync_logs (tables s) ++ [r] ∧ log_key r = log_id hid log ∧
       read_row (tables s') r = Ok (mkHeaderSyncLog (lg_ID r) hid (unremoved log) false)) ∧
    (∀ r, is_ok (read_row (tables s) r) = true → read_row (tables s') r = read_row (tables s) r).
Proof.
  intros Hwf Hab Hh (Ha & Ht & Htx & Hb & Hr & Hj).
  unfold insertLog. unfold db_bind at 1. destruct (log_MarshalJSON log) as [raw|e|w]; [|done..]. simpl.
  unfold db_bind at 1. unfold GetOrCreateAddressInTransaction, scan_one, db_bind at 1, exec. rewrite Hab. simpl.
  set (address := getChecksumAddress (Address_Hex (tl_Address log))).
  pose proof (getOrCreateAddressQuery_spec address (Hash_String (HexToKeccak256Hash address)) _ _ Hwf) as Hs.
  destruct (getOrCreateAddressQuery _ _ _ _) as [[ids d1] q1].
  destruct Hs as (Hwf1 & Hq1 & Hmore & aid & Hid & Haddr). destruct ids as [|aid' ids]; [done|].
  injection Hid as ->. simpl. rewrite Hr. unfold exec_check. simpl.
  assert (Hh1 : headers d1 = headers (tables s) ∧ sync_logs d1 = sync_logs (tables s)) by (destruct Hmore as (? & ->); done).
  destruct Hh1 as [Hh1 Hl1]. assert (Haid : aid ∈ map ad_ID (addresses d1)).
  { apply (address_of_Some _ _ _ _ Hwf1) in Haddr as (x & Hx & <- & _). by apply list_elem_of_fmap_2. }
  unfold insertHeaderSyncLogQuery.
  change (λ r, bool_decide (log_key r = (hid, tl_TxIndex log, tl_Index log)))
    with (λ r, bool_decide (log_key r = log_id hid log)).
  pose proof (hwf_insert_log hid aid (buildTopics log) log raw d1 q1 Hwf1 ltac:(by rewrite Hh1) Haid) as Hi.
  destruct (insert_ignore _ _ _ _ _) as [[ids' rows] q2].
  rewrite (proj2 (has_header_spec hid d1)) by (by rewrite Hh1).
  rewrite (proj2 (has_address_spec aid d1)) by done. simpl.
  destruct Hi as (_ & Hwf2 & _ & Hrows). eexists. split; [done|]. simpl. split_and!; [done|done|done| |].
  - rewrite Hl1 in Hrows. destruct Hrows as [[-> Hin]|(n & ->)]; [by left|right].
    eexists. split_and!; [done|done|]. unfold read_row. simpl.
    change (address_of (set_logs _ d1) aid) with (address_of d1 aid). rewrite Haddr. simpl.
    unfold address, getChecksumAddress, buildTopics, unremoved.
    rewrite !HexToAddress_Address_Hex, !HexToHash_Hash_String by (done || by rewrite HexToAddress_Address_Hex).
    do 3 f_equal. clear -Ht laws. induction Ht as [|t ts Ht _ IH]; simpl; [done|]. by rewrite IH, BytesToHash_32.
  - intros r Hok. unfold read_row in *.
    change (address_of (set_logs _ d1) (lg_Address r)) with (address_of d1 (lg_Address r)).
    destruct (address_of (tables s) (lg_Address r)) as [a|] eqn:Ea; [|done].
    by rewrite (address_of_more _ _ _ _ _ Hwf1 Hmore Ea).
Qed.

(** The rows of one loop of insertions, with what they read as. *)
Definition reads_as (d : HeaderDB) (hid : Z) (r : log_row) (log : types_Log) : Prop :=
  log_key r = log_id hid log ∧ read_row d r = Ok (mkHeaderSyncLog (lg_ID r) hid (unremoved log) false).

Lemma insert_logs_spec hid logs : ∀ s, hwf (tables s) (seqs s) → aborted s = false →
  hid ∈ map hr_ID (headers (tables s)) → Forall valid_log logs →
  ∃ s', db_for (insertLog hid) logs no_faults s = (DOk tt, s') ∧ aborted s' = false ∧
    hwf (tables s') (seqs s') ∧ headers (tables s') = headers (tables s) ∧
    (∀ r, is_ok (read_row (tables s) r) = true → read_row (tables s') r = read_row (tables s) r) ∧
    (NoDup (map (log_id hid) logs) →
     (∀ k, k ∈ map (log_id hid) logs → k ∉ map log_key (sync_logs (tables s))) →
     ∃ rows, sync_logs (tables s') = sync_logs (tables s) ++ rows ∧ Forall2 (reads_as (tables s') hid) rows logs).
Proof.
  induction logs as [|log logs IH]; intros s Hwf Hab Hh Hv; simpl.
  - exists s. split_and!; [done..|]. intros _ _. exists []. rewrite app_nil_r. by split.
  - apply Forall_cons in Hv as [Hv1 Hv].
    destruct (insertLog_spec hid log s Hwf Hab Hh Hv1) as (s1 & E1 & Hab1 & Hwf1 & Hh1 & Hl1 & Hst1).
    destruct (IH s1 Hwf1 Hab1 ltac:(by rewrite Hh1) Hv) as (s2 & E2 & Hab2 & Hwf2 & Hh2 & Hst2 & Hl2).
    exists s2. unfold db_bind. rewrite E1. split_and!; [done|done|done|congruence| |].
    + intros r Hr. rewrite Hst2; [by apply Hst1|]. by rewrite Hst1.
    + intros [Hn Hnd]%NoDup_cons Hfree.
      destruct Hl1 as [[Hin _]|(r & Hr & Hk & Hread)]; [by destruct (Hfree (log_id hid log)); [left|]|].
      destruct Hl2 as (rows & Hrows & Hall); [done| |].
      { intros k Hk1. rewrite Hr, map_app, elem_of_app. intros [Hk2|Hk2%list_elem_of_singleton].
        - by apply (Hfree k); [right|].
        - rewrite Hk in Hk2. by subst k. }
      exists (r :: rows). split; [by rewrite Hrows, Hr, <- app_assoc|]. constructor; [|done].
      split; [done|]. rewrite Hst2; [done|]. by rewrite Hread.
Qed.

End Reading.

(** ** Lemmas: a pass of extraction that nothing disturbs *)

Lemma no_faults_server : server_oracle no_faults.
Proof. by intros n. Qed.

Lemma CreateTransactions_ok hid txs s : hwf (tables s) (seqs s) → hid ∈ map hr_ID (headers (tables s)) →
  ∃ s', CreateTransactions hid txs no_faults s = (DOk tt, s') ∧ hwf (tables s') (seqs s') ∧
    headers (tables s') = headers (tables s).
Proof.
  intros Hwf Hh. assert (Hr : ∃ s', CreateTransactions hid txs no_faults s = (DOk tt, s')).
  { clear Hwf. unfold CreateTransactions. revert s Hh. induction txs as [|tx txs IH]; intros s Hh; simpl; [by exists s|].
    unfold db_bind, exec_auto_check at 1. simpl.
    destruct (insert_transaction hid tx (tables s) (seqs s)) as [[ids rows] q].
    apply has_header_spec in Hh as Hb. unfold has_header in Hb. rewrite Hb. by apply IH. }
  destruct Hr as (s' & E). exists s'. split; [done|].
  pose proof (CreateTransactions_keeps hid txs no_faults s no_faults_server Hwf) as Hk.
  pose proof (CreateTransactions_frame hid txs _ _ no_faults s no_faults_server (conj eq_refl eq_refl)) as [Hf _].
  by rewrite E in Hk, Hf.
Qed.

Section Pass.
Context `{GethCommonLaws} `{LogJSON} {laws : LogLaws}.
Context (GetEthLogsWithCustomQuery : FilterQuery → result (list types_Log)).
Context (GetTransactions : list bytes → result (list TransactionModel)).
Context (Hlogs : ∀ q, ∃ logs, GetEthLogsWithCustomQuery q = Ok logs ∧ Forall valid_log logs).
Context (Htxs : ∀ hs, ∃ txs, GetTransactions hs = Ok txs).

Definition count_checked (r : header_row) : header_row := set_check_count (hr_CheckCount r + 1) r.

Lemma extract_header_ok extractor h s :
  hwf (tables s) (seqs s) → hd_ID h ∈ map hr_ID (headers (tables s)) →
  ∃ s', extract_header GetEthLogsWithCustomQuery GetTransactions extractor h no_faults s = (DOk tt, s') ∧
    hwf (tables s') (seqs s') ∧
    headers (tables s') = map (λ r, if bool_decide (hr_ID r = hd_ID h) then count_checked r else r) (headers (tables s)).
Proof.
  intros Hwf Hh. unfold extract_header, FetchLogs. unfold db_bind at 1, db_lift.
  destruct (Hlogs (mkFilterQuery (HexToHash (hd_Hash h)) (Addresses extractor) [Topics extractor])) as (logs & -> & Hv).
  match goal with |- context [db_bind ?m _] => set (body := m) end.
  assert (Hstore : ∃ s1, body no_faults s = (DOk tt, s1) ∧ hwf (tables s1) (seqs s1) ∧
    headers (tables s1) = headers (tables s)).
  { unfold body. case_match; [|by exists s].
    assert (Hsync : ∃ s1, SyncTransactions GetTransactions (hd_ID h) logs no_faults s = (DOk tt, s1) ∧
      hwf (tables s1) (seqs s1) ∧ headers (tables s1) = headers (tables s)).
    { unfold SyncTransactions. case_match; [by exists s|].
      destruct (Htxs (getUniqueTransactionHashes logs)) as (txs & ->). unfold db_bind, db_lift.
      by apply CreateTransactions_ok. }
    destruct Hsync as (s1 & E1 & Hwf1 & Hh1). unfold db_bind. rewrite E1.
    set (s0 := mkSession (tables s1) (seqs s1) false (S (clock s1))).
    destruct (insert_logs_spec (hd_ID h) logs s0 Hwf1 eq_refl ltac:(simpl; by rewrite Hh1) Hv)
      as (s2 & E2 & Hab2 & Hwf2 & Hh2 & _).
    eexists. split; [exact (transact_no_faults _ s1 tt s2 E2 Hab2)|]. simpl. split; [done|]. by rewrite Hh2. }
  destruct Hstore as (s1 & E1 & Hwf1 & Hh1). unfold db_bind. rewrite E1.
  unfold MarkHeaderChecked, modify_auto, exec_auto. simpl. eexists. split; [done|]. simpl. rewrite Hh1.
  split; [|done]. rewrite <- Hh1. apply hwf_map_headers; [|done]. intros r. by case_bool_decide.
Qed.

Lemma extract_loop_ok extractor hs : ∀ s,
  hwf (tables s) (seqs s) → NoDup (map hd_ID hs) → (∀ h, h ∈ hs → hd_ID h ∈ map hr_ID (headers (tables s))) →
  ∃ s', db_for (extract_header GetEthLogsWithCustomQuery GetTransactions extractor) hs no_faults s = (DOk tt, s') ∧
    hwf (tables s') (seqs s') ∧
    headers (tables s') = map (λ r, if bool_decide (hr_ID r ∈ map hd_ID hs) then count_checked r else r) (headers (tables s)).
Proof.
  induction hs as [|h hs IH]; intros s Hwf Hnd Hh; cbn [db_for].
  - exists s. split; [done|]. split; [done|]. by rewrite <- (map_id (headers (tables s))) at 1.
  - apply NoDup_cons in Hnd as [Hn Hnd].
    destruct (extract_header_ok extractor h s Hwf (Hh h ltac:(by left))) as (s1 & E1 & Hwf1 & Hh1).
    destruct (IH s1 Hwf1 Hnd) as (s2 & E2 & Hwf2 & Hh2).
    { intros h' Hh'. rewrite Hh1, map_map. rewrite (map_ext _ hr_ID); [apply Hh; by right|].
      intros r. by case_bool_decide. }
    exists s2. unfold db_bind. rewrite E1. split; [done|]. split; [done|]. rewrite Hh2, Hh1, map_map.
    apply map_ext. intros r. destruct (decide (hr_ID r = hd_ID h)) as [He|He].
    + rewrite (bool_decide_eq_true_2 (hr_ID r = hd_ID h)) by done.
      rewrite (bool_decide_eq_false_2 (hr_ID (count_checked r) ∈ _)) by (simpl; by rewrite He).
      rewrite bool_decide_eq_true_2; [done|]. rewrite He. by left.
    + rewrite (bool_decide_eq_false_2 (hr_ID r = hd_ID h)) by done.
      apply (f_equal (λ b : bool, if b then _ else _)). apply bool_decide_ext. cbn [map]. rewrite elem_of_cons. tauto.
Qed.

End Pass.

(** ** Properties *)

Section Properties.
Context `{GethCommonLaws} `{LogJSON} {laws : LogLaws} `{RowOrder}.

(** C22: distinct logs stored for a header that has none of them yet are read
    back for transformation, each once and unchanged but for the removed flag,
    beside those that were waiting before, in the order the server returns
    the rows, which the query leaves open; checksummed addresses, hexadecimal
    hashes and byte arrays lose nothing. *)
Theorem CreateHeaderSyncLogs_roundtrip hid logs s :
  hwf (tables s) (seqs s) → aborted s = false → hid ∈ map hr_ID (headers (tables s)) →
  Forall valid_log logs → NoDup (map (log_id hid) logs) →
  (∀ k, k ∈ map (log_id hid) logs → k ∉ map log_key (sync_logs (tables s))) →
  ∃ s' old new all,
    CreateHeaderSyncLogs hid logs no_faults s = (DOk tt, s') ∧ hwf (tables s') (seqs s') ∧
    (GetUntransformedHeaderSyncLogs no_faults s).1 = DOk old ∧
    (GetUntransformedHeaderSyncLogs no_faults s').1 = DOk all ∧ all ≡ₚ old ++ new ∧
    map hsl_Log new = map unremoved logs ∧
    Forall (λ l, hsl_HeaderID l = hid ∧ hsl_Transformed l = false) new.
Proof.
  intros Hwf Hab Hh Hv Hnd Hfree.
  set (s0 := mkSession (tables s) (seqs s) false (S (clock s))).
  destruct (insert_logs_spec hid logs s0 Hwf eq_refl Hh Hv) as (s1 & E1 & Hab1 & Hwf1 & _ & Hst & Hl).
  destruct (Hl Hnd Hfree) as (rows & Hrows & Hall). clear Hl.
  destruct (untransformed_ok _ _ Hwf) as (old & Hold).
  set (s' := mkSession (tables s1) (seqs s1) false (S (clock s1))).
  assert (Hnew : ∃ new, range_collect (read_row (tables s1)) rows = Ok new ∧
    map hsl_Log new = map unremoved logs ∧ Forall (λ l, hsl_HeaderID l = hid ∧ hsl_Transformed l = false) new ∧
    filter (λ r, lg_Transformed r = false) rows = rows).
  { clear Hrows Hfree Hnd Hv Hold E1. induction Hall as [|r log rows logs [Hk Hr] _ (new & IH1 & IH2 & IH3 & IH4)]; [by exists []|].
    simpl. rewrite Hr. simpl. rewrite IH1. simpl. eexists. split; [done|]. simpl. rewrite IH2.
    split; [done|]. split; [by constructor|]. rewrite filter_cons, decide_True, IH4; [done|].
    unfold read_row in Hr. destruct (address_of _ _); [|done]. by injection Hr. }
  destruct Hnew as (new & Hread & Hlogs & Hfld & Hfilter).
  assert (Hall' : range_collect (read_row (tables s1)) (untransformed (tables s1)) = Ok (old ++ new)).
  { unfold untransformed. rewrite Hrows, filter_app, Hfilter, range_collect_app, Hread.
    assert (Ho : range_collect (read_row (tables s1)) (untransformed (tables s)) = Ok old).
    { apply range_collect_Ok. apply range_collect_Ok in Hold. eapply Forall2_impl; [exact Hold|].
      intros r x Hx. rewrite Hst; [done|]. simpl. by rewrite Hx. }
    change (sync_logs (tables s0)) with (sync_logs (tables s)). fold (untransformed (tables s)). by rewrite Ho. }
  destruct (range_collect_perm _ _ _ _ (any_order_perm (untransformed (tables s))) Hold) as (old' & Hold' & Hp).
  destruct (range_collect_perm _ _ _ _ (any_order_perm (untransformed (tables s1))) Hall') as (all & Hall1 & Hp1).
  exists s', old', new, all. split; [exact (transact_no_faults _ s tt s1 E1 Hab1)|]. split; [done|].
  split; [|split; [|by rewrite Hp1, Hp]].
  - apply (evaluates_DOk _ _ _ _ GetUntransformed_evaluates Hab). by rewrite Hold'.
  - apply (evaluates_DOk _ _ _ _ GetUntransformed_evaluates (eq_refl : aborted s' = false)). by rewrite <- Hall1.
Qed.

(** A pass of extraction that neither the node nor the server disturbs
    counts every header of this node that is due -- from the starting block
    on, and checked fewer times than the mode asks for -- exactly once more,
    and no other. *)
Theorem ExtractLogs_exact Node_ID GetEthLogsWithCustomQuery GetTransactions extractor recheckHeaders start s :
  hwf (tables s) (seqs s) →
  (∀ q, ∃ logs, GetEthLogsWithCustomQuery q = Ok logs ∧ Forall valid_log logs) →
  (∀ hs, ∃ txs, GetTransactions hs = Ok txs) →
  Addresses extractor ≠ [] → StartingBlock extractor = Some start →
  let due r := unchecked Node_ID start (getCheckCount recheckHeaders) r in
  filter (λ r, due r) (headers (tables s)) ≠ [] →
  ∃ s', ExtractLogs Node_ID GetEthLogsWithCustomQuery GetTransactions extractor recheckHeaders no_faults s = (DOk tt, s') ∧
    hwf (tables s') (seqs s') ∧
    headers (tables s') = map (λ r, if due r then count_checked r else r) (headers (tables s)).
Proof.
  intros Hwf Hlogs Htxs Hne Hstart due Hdue. unfold ExtractLogs. rewrite Hstart.
  destruct (Addresses extractor) as [|a As] eqn:EA; [done|]. simpl.
  unfold UncheckedHeaders. simpl. unfold db_bind at 1. unfold select_auto, exec_auto. simpl.
  change (λ r, unchecked Node_ID start (getCheckCount recheckHeaders) r) with (λ r, due r).
  change (filter (λ x, unchecked Node_ID start (getCheckCount recheckHeaders) x) (headers (tables s)))
    with (filter (λ r, due r) (headers (tables s))).
  set (s1 := mkSession (tables s) (seqs s) (aborted s) (S (clock s))).
  destruct (hwf_headers _ _ Hwf) as (Hnd & _).
  destruct (extract_loop_ok GetEthLogsWithCustomQuery GetTransactions Hlogs Htxs extractor
    (map scan_header (filter (λ r, due r) (headers (tables s)))) s1) as (s' & E & Hwf' & Hh).
  - done.
  - rewrite map_map. simpl. eapply sublist_NoDup; [exact Hnd|]. apply fmap_sublist, sublist_filter.
  - intros h Hh. apply list_elem_of_fmap in Hh as (r & -> & Hr). apply list_elem_of_filter in Hr as [_ Hr].
    simpl. by apply list_elem_of_fmap_2.
  - exists s'. destruct (filter (λ r, due r) (headers (tables s))) as [|r0 rs] eqn:Ef; [done|]. simpl.
    split; [exact E|]. split; [done|]. rewrite Hh. rewrite <- Ef, map_map. simpl.
    apply map_ext_in. intros r Hr%list_elem_of_In.
    assert (Hiff : hr_ID r ∈ map hr_ID (filter (λ r, due r) (headers (tables s))) ↔ due r = true).
    { rewrite elem_of_map_filter. split.
      - intros (r' & Hid & Hd & Hr'). assert (r = r') as -> by (by eapply (NoDup_map_inj hr_ID)). by apply Is_true_true.
      - intros Hd. exists r. split; [done|]. split; [by apply Is_true_true|done]. }
    rewrite (bool_decide_ext _ _ Hiff). by destruct (due r).
Qed.

End Properties.

Section Completeness.
Context `{GethCommon} `{LogJSON} (Node_ID : string) (block_logs : bytes → list types_Log).
Context (GetEthLogsWithCustomQuery : FilterQuery → result (list types_Log)).
Context (GetTransactions : list bytes → result (list TransactionModel)).

(** C10: whatever the server rejects and the node fails to answer, a header is
    counted as checked only when the logs watched by the configuration are
    stored for it: adding a configuration that was not watched before
    establishes this from its starting block on, and extraction by any
    extractor that includes it, un-checking headers and header sync keep it. *)
Theorem checked_headers_complete config :
  answers_logs block_logs GetEthLogsWithCustomQuery →
  (∀ extractor repository, checkedLogs extractor = Some repository →
     (∀ As t I, keeps I (AlreadyWatchingLog repository As t) ∧ keeps I (MarkLogWatched repository As t)) →
     (∀ o s a s', AlreadyWatchingLog repository (ContractAddresses config) (Topic config) o s = (DOk a, s') → a = false) →
     hoare hwf (AddTransformerConfig extractor config)
       (λ extractor' d q, complete_wf Node_ID block_logs config d q ∧ includes extractor' config) (λ _ _, True)) ∧
  (∀ extractor recheckHeaders, includes extractor config →
     keeps (complete_wf Node_ID block_logs config)
       (ExtractLogs Node_ID GetEthLogsWithCustomQuery GetTransactions extractor recheckHeaders)) ∧
  (∀ n, keeps (complete_wf Node_ID block_logs config) (MarkHeadersUnchecked n)) ∧
  (∀ NodeID header, keeps (complete_wf Node_ID block_logs config) (CreateOrUpdateHeader NodeID Node_ID header)).
Proof.
  intros Hans. split_and!; intros.
  - eapply AddTransformerConfig_resets; [done| | |]; naive_solver.
  - by apply ExtractLogs_keeps.
  - apply MarkHeadersUnchecked_keeps.
  - apply CreateOrUpdateHeader_complete.
Qed.

End Completeness.

(** ** Witnesses

    The tables of HeaderSync's witnesses; a node whose blocks have one log. *)

Section Witnesses.
#[local] Existing Instance Concrete.geth.
#[local] Existing Instance newest_first.
#[local] Existing Instance Concrete.geth_laws.
#[local] Instance ex_json : LogJSON := {| log_MarshalJSON := λ _, Ok [] |}.

#[local] Instance ex_log_laws : LogLaws.
Proof. split; [intros a _; apply Concrete.dec_enc|reflexivity]. Defined.

Definition ex_addr (n : Z) : bytes := replicate 20 n.
Definition ex_hash (n : Z) : bytes := replicate 32 n.
Definition ex_log : types_Log :=
  mkTypesLog (ex_addr 1) [ex_hash 2] [3] 2 (ex_hash 4) 1 (ex_hash 5) 0 true.

(** The documented filter. *)
Definition ex_matches (As Ts : list bytes) (l : types_Log) : Prop :=
  (As = [] ∨ tl_Address l ∈ As) ∧ (Ts = [] ∨ Exists (λ t, head (tl_Topics l) = Some t) Ts).

#[local] Instance ex_matches_dec As Ts l : Decision (ex_matches As Ts l).
Proof. unfold ex_matches. solve_decision. Defined.

Definition ex_block_logs (h : bytes) : list types_Log := [ex_log].
Definition ex_GetLogs (q : FilterQuery) : result (list types_Log) :=
  Ok (filter (ex_matches (fq_Addresses q) (default [] (head (fq_Topics q)))) (ex_block_logs (fq_BlockHash q))).

Lemma ex_answers_logs : answers_logs ex_block_logs ex_GetLogs.
Proof.
  intros h As Ts logs [= <-] l. simpl default. rewrite list_elem_of_filter. unfold ex_matches.
  rewrite Exists_exists. split.
  - intros [[H1 H2] H3]. split; [done|]. split; [done|]. destruct H2 as [?|(t & Ht & He)]; [by left|right; eauto].
  - intros (H1 & H2 & H3). split; [|done]. split; [done|]. destruct H3 as [?|(t & He & Ht)]; [by left|right; eauto].
Qed.

Definition ex_config : EventTransformerConfig :=
  mkConfig "t" [Address_Hex (ex_addr 1)] "" (Hash_String (ex_hash 2)) 0 (-1).

Definition ex_extractor : LogExtractor := mkExtractor [ex_addr 1] None (Some 0) [ex_hash 2].

Lemma ex_log_valid : valid_log ex_log.
Proof. repeat split. repeat constructor. Qed.

Lemma CreateHeaderSyncLogs_roundtrip_witness :
  ∃ s' old new all, CreateHeaderSyncLogs 1 [ex_log] no_faults ex_session = (DOk tt, s') ∧
    (GetUntransformedHeaderSyncLogs no_faults s').1 = DOk all ∧ all ≡ₚ old ++ new ∧
    map hsl_Log new = [unremoved ex_log].
Proof.
  destruct (CreateHeaderSyncLogs_roundtrip 1 [ex_log] ex_session) as (s' & old & new & all & H1 & _ & _ & H2 & H3 & H4 & _).
  - apply ex_session_hwf.
  - reflexivity.
  - simpl. by left.
  - constructor; [apply ex_log_valid|constructor].
  - apply NoDup_singleton.
  - intros k Hk Hin. simpl in Hk, Hin.
    apply list_elem_of_singleton in Hk. apply list_elem_of_singleton in Hin. rewrite Hk in Hin. discriminate Hin.
  - exists s', old, new, all. split; [exact H1|]. split; [exact H2|]. split; [exact H3|exact H4].
Defined.

Lemma ExtractLogs_exact_witness :
  ∃ s', ExtractLogs "n" ex_GetLogs (λ _, Ok []) ex_extractor false no_faults ex_session = (DOk tt, s') ∧
    map hr_CheckCount (headers (tables s')) = [1].
Proof.
  destruct (ExtractLogs_exact "n" ex_GetLogs (λ _, Ok []) ex_extractor false 0 ex_session) as (s' & H1 & _ & H2).
  - apply ex_session_hwf.
  - intros q. eexists. split; [reflexivity|]. apply Forall_forall. intros l [_ Hl]%list_elem_of_filter.
    apply list_elem_of_singleton in Hl as ->. apply ex_log_valid.
  - intros hs. by eexists.
  - discriminate.
  - reflexivity.
  - discriminate.
  - exists s'. split; [exact H1|]. rewrite H2. reflexivity.
Defined.

Lemma checked_headers_complete_witness :
  includes ex_extractor ex_config ∧
  keeps (complete_wf "n" ex_block_logs ex_config)
    (ExtractLogs "n" ex_GetLogs (λ _, Ok []) ex_extractor false).
Proof.
  assert (Hi : includes ex_extractor ex_config).
  { split; [|vm_compute; by left]. intros a Ha. exact Ha. }
  split; [exact Hi|].
  destruct (checked_headers_complete "n" ex_block_logs ex_GetLogs (λ _, Ok []) ex_config ex_answers_logs)
    as (_ & H2 & _). exact (H2 ex_extractor false Hi).
Defined.

End Witnesses.
