(* ===== verification/EventTransform.v ===== *)
(** * Transforming logs (libraries/shared/chunker/log_chunker.go,
    libraries/shared/logs/delegator.go, libraries/shared/factories/event,
    libraries/shared/watcher/event_watcher.go)

    The delegator reads the logs not transformed yet, sorts them into chunks by
    address and first topic, and hands each transformer its chunk; the
    transformer of factories/event converts it into rows for its own tables,
    which its repository stores together with the mark that the log is
    transformed.  The watcher runs extraction and delegation side by side. *)

From S2P Require Import Prelude GoInt ChainTypes Geth Sql StorageDecode BlockChain HeaderSync EventLogs.

(** ** log_chunker.go *)

Record LogChunker : Type := mkChunker {
  AddressToNames : gmap string (list string);
  NameToTopic0 : gmap string bytes
}.

Definition NewLogChunker : LogChunker := mkChunker ∅ ∅.

(** The zero value of common.Hash. *)
Definition zero_Hash : bytes := replicate 32 0.

Abbreviation chunks_t := (gmap string (list HeaderSyncLog)).

Section Chunker.
Context `{GethCommon}.

Definition AddConfig_address (transformerConfig : EventTransformerConfig) (chunker : LogChunker)
    (address : string) : LogChunker :=
  let lowerCaseAddress := ToLower address in
  mkChunker
    (<[lowerCaseAddress := default [] (AddressToNames chunker !! lowerCaseAddress)
                           ++ [TransformerName transformerConfig]]> (AddressToNames chunker))
    (<[TransformerName transformerConfig := HexToHash (Topic transformerConfig)]> (NameToTopic0 chunker)).

Definition AddConfig (chunker : LogChunker) (transformerConfig : EventTransformerConfig) : LogChunker :=
  foldl (AddConfig_address transformerConfig) chunker (ContractAddresses transformerConfig).

(** The loop over the transformers of one log; [Topics[0]] may be out of range. *)
Fixpoint chunk_log (chunker : LogChunker) (log : HeaderSyncLog) (relevantTransformers : list string)
    (chunks : chunks_t) : result chunks_t :=
  match relevantTransformers with
  | [] => Ok chunks
  | t :: relevantTransformers =>
      match tl_Topics (hsl_Log log) with
      | [] => Panic "index out of range"
      | topic0 :: _ =>
          chunk_log chunker log relevantTransformers
            (if decide (default zero_Hash (NameToTopic0 chunker !! t) = topic0)
             then <[t := default [] (chunks !! t) ++ [log]]> chunks else chunks)
      end
  end.

Definition relevant (chunker : LogChunker) (log : HeaderSyncLog) : list string :=
  default [] (AddressToNames chunker !! ToLower (Address_Hex (tl_Address (hsl_Log log)))).

Fixpoint chunk_loop (chunker : LogChunker) (logs : list HeaderSyncLog) (chunks : chunks_t) : result chunks_t :=
  match logs with
  | [] => Ok chunks
  | log :: logs =>
      chunks <-! chunk_log chunker log (relevant chunker log) chunks ;;
      chunk_loop chunker logs chunks
  end.

Definition ChunkLogs (chunker : LogChunker) (logs : list HeaderSyncLog) : result chunks_t :=
  chunk_loop chunker logs ∅.

End Chunker.

(** ** factories/event/repository.go *)

(** An interface value; [VOther] is of a type the driver does not take. *)
Inductive value : Type :=
| VNil
| VInt (n : Z)
| VFloat (bits : Z)
| VBool (b : bool)
| VBytes (b : bytes)
| VString (s : string)
| VTime (ns : Z)
| VOther (type : string).

#[global] Instance value_eq_dec : EqDecision value.
Proof. solve_decision. Defined.

Definition LogFK : string := "log_id".
Definition HeaderFK : string := "header_id".

Record InsertionModel : Type := mkModel {
  SchemaName : string;
  TableName : string;
  OrderedColumns : list string;
  ColumnValues : gmap string value
}.

(** [driver.IsValue], which a nil interface satisfies. *)
Definition IsValue (v : value) : bool := match v with VOther _ => false | _ => true end.

Definition ErrUnsupportedValue (v : value) : error := Errorf "unsupported type of value supplied in model".

(** An insertion query is represented by what its text names;
    [query_text] is the text. *)
Record query_t : Type := mkQuery { q_schema : string; q_table : string; q_columns : list string }.

#[global] Instance query_eq_dec : EqDecision query_t.
Proof. solve_decision. Defined.

Definition joinOrderedColumns (columns : list string) : string := String.concat ", " columns.

Definition placeholders (n : nat) : list string := map (λ i : nat, String "$" (pretty (1 + Z.of_nat i))) (seq 0 n).

Definition query_text (q : query_t) : string :=
  let valuePlaceholders := placeholders (length (q_columns q)) in
  let updateOnConflict := zip_with (λ c p, c +:+ " = " +:+ p) (q_columns q) valuePlaceholders in
  "INSERT INTO " +:+ q_schema q +:+ "." +:+ q_table q +:+ " (" +:+ joinOrderedColumns (q_columns q)
  +:+ ") VALUES(" +:+ String.concat ", " valuePlaceholders
  +:+ ") ON CONFLICT (header_id, log_id) DO UPDATE SET " +:+ String.concat ", " updateOnConflict +:+ ";".

Definition GenerateInsertionQuery (model : InsertionModel) : query_t :=
  mkQuery (SchemaName model) (TableName model) (OrderedColumns model).

(** The global map [ModelToQuery], keyed by the concatenated names. *)
Abbreviation memo_t := (gmap string query_t).

Definition GetMemoizedQuery (model : InsertionModel) (ModelToQuery : memo_t) : query_t * memo_t :=
  let queryKey := SchemaName model +:+ TableName model in
  match ModelToQuery !! queryKey with
  | Some query => (query, ModelToQuery)
  | None =>
      let query := GenerateInsertionQuery model in
      (query, <[queryKey := query]> ModelToQuery)
  end.

(** ** The database with the tables of the transformers *)

Abbreviation row_t := (gmap string value).

Record EventDB : Type := mkEventDB {
  ev_headers : HeaderDB;
  ev_tables : gmap (string * string) (list row_t)
}.

(** What the process holds besides: the memoised queries, and the number of
    transactions it began and never ended. *)
Record process : Type := mkProcess { ModelToQuery : memo_t; held : nat }.

(** Functions of the process and the database. *)
Definition EV (A : Type) : Type := process → oracle → session EventDB → outcome A * session EventDB * process.

(** A function on the tables of header sync. *)
Definition on_headers {A} (m : DB HeaderDB A) : EV A := λ p o s,
  let '(r, s') := m o (mkSession (ev_headers (tables s)) (seqs s) (aborted s) (clock s)) in
  (r, mkSession (mkEventDB (tables s') (ev_tables (tables s))) (seqs s') (aborted s') (clock s'), p).

(** The server's reading of an integer parameter sent as text. *)
Class ServerText := { text_int : string → option Z }.

Section Repository.
Context `{ServerText}.

(** The unique key of every table of a transformer. *)
Definition same_event (row r : row_t) : bool :=
  match row !! HeaderFK, row !! LogFK, r !! HeaderFK, r !! LogFK with
  | Some h, Some l, Some h', Some l' =>
      bool_decide (h ≠ VNil ∧ l ≠ VNil ∧ h = h' ∧ l = l')
  | _, _, _, _ => false
  end.

(** Executing an insertion query with arguments; what else a table constrains
    is up to the oracle. *)
Definition insert_event (query : query_t) (args : list value) (d : EventDB) : result (unit * EventDB) :=
  match ev_tables d !! (q_schema query, q_table query) with
  | None => Err (Driver "pq: relation does not exist")
  | Some rows =>
      if negb (length args =? length (q_columns query))%nat then Err (Driver "pq: wrong number of parameters")
      else if decide (NoDup (q_columns query)) then
        let row := list_to_map (zip (q_columns query) args) in
        let rows' := if existsb (same_event row) rows
                     then map (λ r, if same_event row r then row ∪ r else r) rows
                     else rows ++ [row] in
        Ok (tt, mkEventDB (ev_headers d) (<[(q_schema query, q_table query) := rows']> (ev_tables d)))
      else Err (Driver "pq: column specified more than once")
  end.

Definition set_transformed (id : Z) (d : EventDB) : EventDB :=
  mkEventDB (set_logs (map (λ l,
    if bool_decide (lg_ID l = id)
    then mkLogRow (lg_ID l) (lg_HeaderID l) (lg_Address l) (lg_Topics l) (lg_Data l) (lg_BlockNumber l)
           (lg_BlockHash l) (lg_TxHash l) (lg_TxIndex l) (lg_LogIndex l) (lg_Raw l) true
    else l) (sync_logs (ev_headers d))) (ev_headers d)) (ev_tables d).

(** [SetLogTransformedQuery]: a NULL id matches no row. *)
Definition SetLogTransformedQuery (id : value) (d : EventDB) : result (unit * EventDB) :=
  match id with
  | VInt n => Ok (tt, set_transformed n d)
  | VString s =>
      match text_int s with
      | Some n => Ok (tt, set_transformed n d)
      | None => Err (Driver "pq: invalid input syntax for integer")
      end
  | VNil => Ok (tt, d)
  | _ => Err (Driver "pq: invalid input syntax for integer")
  end.

(** A missing key of a Go map reads as nil. *)
Definition column_value (model : InsertionModel) (col : string) : value :=
  default VNil (ColumnValues model !! col).

Definition collect_args (model : InsertionModel) : result (list value) :=
  range_collect (λ col,
    let v := column_value model col in
    if IsValue v then Ok v else Err (ErrUnsupportedValue v)) (OrderedColumns model).

(** How the loop of [Create] ends: an unsupported value returns without a
    rollback. *)
Inductive loop_end : Type :=
| Finished
| RolledBack (e : error)
| Returned (e : error).

Fixpoint create_loop (models : list InsertionModel) (memo : memo_t) (o : oracle) (s : session EventDB)
    : loop_end * session EventDB * memo_t :=
  match models with
  | [] => (Finished, s, memo)
  | model :: models =>
      match collect_args model with
      | Err e => (Returned e, s, memo)
      | Panic w => (Returned (Errorf w), s, memo)
      | Ok args =>
          let '(insertionQuery, memo) := GetMemoizedQuery model memo in
          match exec_check (λ d q, (insert_event insertionQuery args d, q)) o s with
          | (DOk _, s) =>
              match exec_check (λ d q, (SetLogTransformedQuery (column_value model LogFK) d, q)) o s with
              | (DOk _, s) => create_loop models memo o s
              | (DErr _ logErr, s) => (RolledBack logErr, s, memo)
              | (DPanic w, s) => (RolledBack (Errorf w), s, memo)
              end
          | (DErr _ execErr, s) => (RolledBack execErr, s, memo)
          | (DPanic w, s) => (RolledBack (Errorf w), s, memo)
          end
      end
  end.

(** A transaction that is neither committed nor rolled back changes nothing
    that others see. *)
Definition Create (models : list InsertionModel) : EV unit := λ p o s,
  if (length models =? 0)%nat then (DErr true (Errorf "repository got empty model slice"), s, p)
  else
    match begin_ o s with
    | (DOk _, s1) =>
        match create_loop models (ModelToQuery p) o s1 with
        | (Finished, s2, memo) =>
            match commit (tables s) o s2 with
            | (None, s3) => (DOk tt, s3, mkProcess memo (held p))
            | (Some e, s3) => (DErr true e, s3, mkProcess memo (held p))
            end
        | (RolledBack e, s2, memo) => (DErr true e, rolled_back (tables s) s2, mkProcess memo (held p))
        | (Returned e, s2, memo) =>
            (DErr true e, mkSession (tables s) (seqs s2) false (clock s2), mkProcess memo (S (held p)))
        end
    | (DErr b e, s1) => (DErr b e, s1, p)
    | (DPanic w, s1) => (DPanic w, s1, p)
    end.

End Repository.

(** ** transformer.EventTransformer and factories/event/transformer.go *)

(** The interface; its methods act on the process and the database. *)
Record EventTransformer : Type := mkTransformer {
  GetConfig : EventTransformerConfig;
  Execute : list HeaderSyncLog → EV unit
}.

Section Transform.
Context `{GethCommon} `{LogJSON} `{ServerText} `{RowOrder}.

Section Transformer.
Context (config : EventTransformerConfig).
Context (ToModels : string → list HeaderSyncLog → result (list InsertionModel)).

Definition Transformer_Execute (logs : list HeaderSyncLog) : EV unit := λ p o s,
  if (length logs <? 1)%nat then (DOk tt, s, p)
  else
    match ToModels (ContractAbi config) logs with
    | Ok models => Create models p o s
    | Err e => (DErr true e, s, p)
    | Panic w => (DPanic w, s, p)
    end.

Definition Transformer : EventTransformer := mkTransformer config Transformer_Execute.
End Transformer.

(** ** logs/delegator.go *)

Definition ErrNoLogs : error := Sentinel "no logs available for transforming".
Definition ErrNoTransformers : error := Sentinel "no event transformers configured in the log delegator".

Record LogDelegator : Type := mkDelegator {
  Chunker : LogChunker;
  Transformers : list EventTransformer
}.

Definition AddTransformer (delegator : LogDelegator) (t : EventTransformer) : LogDelegator :=
  mkDelegator (AddConfig (Chunker delegator) (GetConfig t)) (Transformers delegator ++ [t]).

Fixpoint delegate_loop (chunkedLogs : chunks_t) (ts : list EventTransformer) : EV unit := λ p o s,
  match ts with
  | [] => (DOk tt, s, p)
  | t :: ts =>
      let logChunk := default [] (chunkedLogs !! TransformerName (GetConfig t)) in
      match Execute t logChunk p o s with
      | (DOk _, s, p) => delegate_loop chunkedLogs ts p o s
      | r => r
      end
  end.

Definition delegateLogs (delegator : LogDelegator) (logs : list HeaderSyncLog) : EV unit := λ p o s,
  match ChunkLogs (Chunker delegator) logs with
  | Ok chunkedLogs => delegate_loop chunkedLogs (Transformers delegator) p o s
  | Err e => (DErr true e, s, p)
  | Panic w => (DPanic w, s, p)
  end.

Definition DelegateLogs (delegator : LogDelegator) : EV unit := λ p o s,
  if (length (Transformers delegator) <? 1)%nat then (DErr true ErrNoTransformers, s, p)
  else
    match on_headers GetUntransformedHeaderSyncLogs p o s with
    | (DOk persistedLogs, s, p) =>
        if (length persistedLogs <? 1)%nat then (DErr true ErrNoLogs, s, p)
        else delegateLogs delegator persistedLogs p o s
    | (DErr b e, s, p) => (DErr b e, s, p)
    | (DPanic w, s, p) => (DPanic w, s, p)
    end.

(** ** watcher/event_watcher.go *)

Record EventWatcher : Type := mkWatcher {
  w_LogDelegator : LogDelegator;
  w_LogExtractor : LogExtractor
}.

Definition NewEventWatcher : EventWatcher :=
  mkWatcher (mkDelegator NewLogChunker []) (mkExtractor [] None None []).

(** Each transformer is added to the delegator before the extractor. *)
Fixpoint AddTransformers (watcher : EventWatcher) (initializers : list EventTransformer) : EV EventWatcher :=
  λ p o s,
  match initializers with
  | [] => (DOk watcher, s, p)
  | t :: initializers =>
      let delegator := AddTransformer (w_LogDelegator watcher) t in
      match on_headers (AddTransformerConfig (w_LogExtractor watcher) (GetConfig t)) p o s with
      | (DOk extractor, s, p) => AddTransformers (mkWatcher delegator extractor) initializers p o s
      | (DErr b e, s, p) => (DErr b e, s, p)
      | (DPanic w, s, p) => (DPanic w, s, p)
      end
  end.

End Transform.

(** ** The goroutines of [EventWatcher.Execute]

    Extraction and delegation run in goroutines of their own, each calling
    itself again after a pass, until a pass fails; then it sends the error.
    [Execute] returns the first error it receives, which closes both channels. *)

Inductive goroutine : Type :=
| Running                (* in a pass, or sleeping *)
| Sending (e : error)
| Ended
| Panicked.

Inductive waiter : Type :=
| Waiting
| Returns (e : error).

Record execution : Type := mkExecution { main : waiter; extractLogs_g : goroutine; delegateLogs_g : goroutine }.

Definition Execute_start : execution := mkExecution Waiting Running Running.

(** A pass: [idle] is the error that only means there is nothing to do. *)
Definition pass (idle : error) (err : option error) : goroutine :=
  match err with
  | None => Running
  | Some e => if decide (e = idle) then Running else Sending e
  end.

Inductive execute_step : execution → execution → Prop :=
| step_extract m d err :
    execute_step (mkExecution m Running d) (mkExecution m (pass ErrNoUncheckedHeaders err) d)
| step_delegate m x err :
    execute_step (mkExecution m x Running) (mkExecution m x (pass ErrNoLogs err))
| step_receive_extract e d :
    execute_step (mkExecution Waiting (Sending e) d) (mkExecution (Returns e) Ended d)
| step_receive_delegate e x :
    execute_step (mkExecution Waiting x (Sending e)) (mkExecution (Returns e) x Ended)
| step_closed_extract r e d :
    execute_step (mkExecution (Returns r) (Sending e) d) (mkExecution (Returns r) Panicked d)
| step_closed_delegate r e x :
    execute_step (mkExecution (Returns r) x (Sending e)) (mkExecution (Returns r) x Panicked).

(** ** Lemmas: the chunker *)

Section ChunkerLemmas.
Context `{GethCommon}.
Implicit Types (c : EventTransformerConfig).

Definition lower_addresses c : list string := map ToLower (ContractAddresses c).

(** The names registered for an address: the configurations that have it. *)
Lemma AddConfig_names c chunker a : NoDup (lower_addresses c) →
  default [] (AddressToNames (AddConfig chunker c) !! a) =
  default [] (AddressToNames chunker !! a) ++ (if decide (a ∈ lower_addresses c) then [TransformerName c] else []).
Proof.
  unfold AddConfig, lower_addresses. revert chunker.
  induction (ContractAddresses c) as [|x xs IH]; intros chunker Hnd; simpl.
  - by rewrite app_nil_r.
  - simpl in Hnd. apply NoDup_cons in Hnd as [Hx Hnd]. rewrite (IH _ Hnd). simpl.
    destruct (decide (a = ToLower x)) as [->|Ha].
    + rewrite lookup_insert_eq, (decide_False (P := ToLower x ∈ map ToLower xs)) by done. simpl.
      rewrite decide_True by (by left). by rewrite app_nil_r.
    + rewrite lookup_insert_ne by done. f_equal.
      destruct (decide (a ∈ map ToLower xs)); [by rewrite decide_True by (by right)|].
      rewrite decide_False; [done|]. by intros [?|?]%elem_of_cons.
Qed.

Lemma AddConfig_topics c chunker name :
  NameToTopic0 (AddConfig chunker c) !! name =
  if decide (name = TransformerName c ∧ ContractAddresses c ≠ []) then Some (HexToHash (Topic c))
  else NameToTopic0 chunker !! name.
Proof.
  unfold AddConfig. revert chunker. induction (ContractAddresses c) as [|x xs IH]; intros chunker; simpl.
  - rewrite decide_False; [done|]. by intros [_ []].
  - rewrite IH. simpl. destruct (decide (name = TransformerName c)) as [->|Hn].
    + rewrite lookup_insert_eq. rewrite (decide_True (P := TransformerName c = TransformerName c ∧ x :: xs ≠ [])) by done.
      by case_decide.
    + rewrite lookup_insert_ne by done. rewrite !decide_False; [done|tauto..].
Qed.

Lemma AddConfigs_names cs a : ∀ chunker, Forall (λ c, NoDup (lower_addresses c)) cs →
  default [] (AddressToNames (foldl AddConfig chunker cs) !! a) =
  default [] (AddressToNames chunker !! a) ++ map TransformerName (filter (λ c, a ∈ lower_addresses c) cs).
Proof.
  induction cs as [|c cs IH]; intros chunker Hnd; simpl; [by rewrite app_nil_r|].
  apply Forall_cons in Hnd as [Hc Hnd]. rewrite (IH _ Hnd), (AddConfig_names _ _ _ Hc), <- app_assoc, filter_cons.
  f_equal. by destruct (decide (a ∈ lower_addresses c)).
Qed.

Lemma AddConfigs_topics cs c : NoDup (map TransformerName cs) → c ∈ cs → ContractAddresses c ≠ [] →
  ∀ chunker, NameToTopic0 (foldl AddConfig chunker cs) !! TransformerName c = Some (HexToHash (Topic c)).
Proof.
  intros Hnd Hin Hne. assert (Hkeep : ∀ cs chunker, TransformerName c ∉ map TransformerName cs →
    NameToTopic0 (foldl AddConfig chunker cs) !! TransformerName c = NameToTopic0 chunker !! TransformerName c).
  { clear. induction cs as [|c' cs IH]; intros chunker Hn; simpl; [done|]. simpl in Hn.
    rewrite IH, AddConfig_topics by (intros ?; apply Hn; by right).
    rewrite decide_False; [done|]. intros [He _]. apply Hn. rewrite He. by left. }
  induction cs as [|c' cs IH]; intros chunker; [by apply elem_of_nil in Hin|]. simpl in *.
  apply NoDup_cons in Hnd as [Hn Hnd]. apply elem_of_cons in Hin as [<-|Hin]; [|by apply IH].
  rewrite (Hkeep _ _ Hn), AddConfig_topics. by rewrite decide_True.
Qed.

(** How often a log is added to the chunk of a name. *)
Definition times (chunker : LogChunker) (topic0 : bytes) (names : list string) (name : string) : nat :=
  if decide (default zero_Hash (NameToTopic0 chunker !! name) = topic0)
  then length (filter (λ n, n = name) names) else 0%nat.

Lemma chunk_log_spec chunker log topic0 topics names : tl_Topics (hsl_Log log) = topic0 :: topics →
  ∀ chunks, ∃ chunks', chunk_log chunker log names chunks = Ok chunks' ∧
    ∀ name, default [] (chunks' !! name) = default [] (chunks !! name) ++ replicate (times chunker topic0 names name) log.
Proof.
  intros Ht. induction names as [|t names IH]; intros chunks; simpl.
  - exists chunks. split; [done|]. intros name. unfold times. rewrite filter_nil. simpl.
    by case_decide; rewrite app_nil_r.
  - rewrite Ht. set (chunks1 := if decide _ then _ else _). destruct (IH chunks1) as (chunks' & E & Hc).
    exists chunks'. split; [done|]. intros name. rewrite Hc. unfold times. rewrite filter_cons. unfold chunks1.
    destruct (decide (t = name)) as [<-|Hne].
    + destruct (decide (default zero_Hash (NameToTopic0 chunker !! t) = topic0)); [|done].
      rewrite lookup_insert_eq. simpl. by rewrite <- app_assoc.
    + f_equal. destruct (decide (default zero_Hash (NameToTopic0 chunker !! t) = topic0)); [|done].
      by rewrite lookup_insert_ne.
Qed.

Lemma filter_name_unique cs c (P : EventTransformerConfig → Prop) `{!∀ x, Decision (P x)} :
  NoDup (map TransformerName cs) → c ∈ cs →
  filter (λ n, n = TransformerName c) (map TransformerName (filter P cs)) =
  if decide (P c) then [TransformerName c] else [].
Proof.
  intros Hnd Hc. assert (Hno : ∀ cs, TransformerName c ∉ map TransformerName cs →
    filter (λ n, n = TransformerName c) (map TransformerName (filter P cs)) = []).
  { clear. induction cs as [|c' cs IH]; intros Hn; [done|]. simpl in Hn. rewrite filter_cons.
    assert (TransformerName c' ≠ TransformerName c) by (intros He; apply Hn; rewrite <- He; by left).
    case_decide; simpl; rewrite ?filter_cons, ?decide_False by done; apply IH; intros ?; apply Hn; by right. }
  induction cs as [|c' cs IH]; [by apply elem_of_nil in Hc|]. simpl in Hnd. apply NoDup_cons in Hnd as [Hn Hnd].
  rewrite filter_cons. apply elem_of_cons in Hc as [<-|Hc].
  - case_decide; simpl; rewrite ?filter_cons, ?decide_True, (Hno _ Hn) by done; done.
  - assert (TransformerName c' ≠ TransformerName c).
    { intros He. apply Hn. rewrite He. by apply list_elem_of_fmap_2. }
    rewrite <- (IH Hnd Hc). destruct (decide (P c')); simpl; [|done]. by rewrite filter_cons, decide_False.
Qed.

End ChunkerLemmas.

(** ** Properties: chunks *)

Section ChunkerProperties.
Context `{GethCommon}.

(** The logs a configuration asks for, by address and first topic. *)
Definition asks_for (c : EventTransformerConfig) (log : HeaderSyncLog) : Prop :=
  ToLower (Address_Hex (tl_Address (hsl_Log log))) ∈ lower_addresses c ∧
  head (tl_Topics (hsl_Log log)) = Some (HexToHash (Topic c)).

#[global] Instance asks_for_dec c log : Decision (asks_for c log).
Proof. unfold asks_for. solve_decision. Defined.

Lemma times_asks_for cs c log topic0 topics :
  NoDup (map TransformerName cs) → Forall (λ c, NoDup (lower_addresses c)) cs → c ∈ cs →
  tl_Topics (hsl_Log log) = topic0 :: topics →
  let chunker := foldl AddConfig NewLogChunker cs in
  replicate (times chunker topic0 (relevant chunker log) (TransformerName c)) log =
  if decide (asks_for c log) then [log] else [].
Proof.
  intros Hnd Haddr Hc Ht chunker. unfold times, relevant, chunker.
  rewrite (AddConfigs_names _ _ _ Haddr). simpl. rewrite lookup_empty. simpl.
  rewrite (filter_name_unique cs c _ Hnd Hc).
  assert (Hasks : asks_for c log ↔ ToLower (Address_Hex (tl_Address (hsl_Log log))) ∈ lower_addresses c ∧
    topic0 = HexToHash (Topic c)).
  { unfold asks_for. rewrite Ht. simpl. naive_solver. }
  destruct (decide (ToLower (Address_Hex (tl_Address (hsl_Log log))) ∈ lower_addresses c)) as [Ha|Ha].
  - assert (Hne : ContractAddresses c ≠ []).
    { intros Hn. unfold lower_addresses in Ha. rewrite Hn in Ha. by apply elem_of_nil in Ha. }
    rewrite (AddConfigs_topics cs c Hnd Hc Hne). simpl.
    destruct (decide (HexToHash (Topic c) = topic0)), (decide (asks_for c log)); simpl; try done; exfalso.
    + apply n, Hasks. by split.
    + apply n. by destruct (proj1 Hasks a) as [_ ->].
  - rewrite (decide_False (P := asks_for c log)) by tauto. by case_decide.
Qed.

(** For transformers with different names, none of which names an address
    twice, the chunk of each transformer is exactly the logs it asks for, once
    each and in order; a log without topics from an address that some
    transformer names crashes the process. *)
Theorem ChunkLogs_exact cs logs :
  NoDup (map TransformerName cs) → Forall (λ c, NoDup (lower_addresses c)) cs →
  let chunker := foldl AddConfig NewLogChunker cs in
  (Forall (λ log, relevant chunker log ≠ [] → tl_Topics (hsl_Log log) ≠ []) logs →
     ∃ chunks, ChunkLogs chunker logs = Ok chunks ∧
       ∀ c, c ∈ cs → default [] (chunks !! TransformerName c) = filter (asks_for c) logs) ∧
  (Exists (λ log, relevant chunker log ≠ [] ∧ tl_Topics (hsl_Log log) = []) logs →
     ∃ w, ChunkLogs chunker logs = Panic w).
Proof.
  intros Hnd Haddr chunker.
  assert (Hrel : ∀ log, relevant chunker log =
    map TransformerName (filter (λ c, ToLower (Address_Hex (tl_Address (hsl_Log log))) ∈ lower_addresses c) cs)).
  { intros log. unfold relevant, chunker. rewrite (AddConfigs_names _ _ _ Haddr). simpl. by rewrite lookup_empty. }
  unfold ChunkLogs. split.
  - intros Htop. cut (∀ chunks, ∃ chunks', chunk_loop chunker logs chunks = Ok chunks' ∧
      ∀ c, c ∈ cs → default [] (chunks' !! TransformerName c) =
        default [] (chunks !! TransformerName c) ++ filter (asks_for c) logs).
    { intros Hcut. destruct (Hcut ∅) as (chunks & E & Hc). exists chunks. split; [done|].
      intros c Hin. rewrite (Hc c Hin), lookup_empty. done. }
    induction logs as [|log logs IH]; intros chunks; simpl.
    + exists chunks. split; [done|]. intros c _. by rewrite app_nil_r.
    + apply Forall_cons in Htop as [Ht Htop].
      assert (Hstep : ∃ chunks1, chunk_log chunker log (relevant chunker log) chunks = Ok chunks1 ∧
        ∀ c, c ∈ cs → default [] (chunks1 !! TransformerName c) =
          default [] (chunks !! TransformerName c) ++ (if decide (asks_for c log) then [log] else [])).
      { destruct (tl_Topics (hsl_Log log)) as [|topic0 topics] eqn:Etop.
        - destruct (relevant chunker log) as [|n ns] eqn:Er; [|by destruct Ht].
          exists chunks. split; [done|]. intros c Hc. rewrite decide_False; [by rewrite app_nil_r|].
          unfold asks_for. rewrite Etop. by intros [_ ?].
        - destruct (chunk_log_spec chunker log topic0 topics (relevant chunker log) Etop chunks) as (chunks1 & E & Hc).
          exists chunks1. split; [done|]. intros c Hin. rewrite Hc. f_equal. by eapply times_asks_for. }
      destruct Hstep as (chunks1 & -> & Hc1). destruct (IH Htop chunks1) as (chunks' & E & Hc'). simpl.
      exists chunks'. split; [done|]. intros c Hin. rewrite (Hc' c Hin), (Hc1 c Hin), <- app_assoc, filter_cons.
      f_equal. by case_decide.
  - cut (Exists (λ log, relevant chunker log ≠ [] ∧ tl_Topics (hsl_Log log) = []) logs →
      ∀ chunks, ∃ w, chunk_loop chunker logs chunks = Panic w); [auto|].
    induction 1 as [log logs [Hr Ht]|log logs _ IH]; intros chunks; simpl.
    + destruct (relevant chunker log) as [|n ns]; [done|]. simpl. rewrite Ht. by eexists.
    + destruct (chunk_log chunker log _ chunks) as [chunks1|e|w] eqn:E; simpl; [apply IH| |by eexists].
      exfalso. revert E. generalize (relevant chunker log). clear. intros names. revert chunks.
      induction names as [|n names IH]; intros chunks; simpl; [done|]. destruct (tl_Topics _); [done|]. apply IH.
Qed.

End ChunkerProperties.

(** ** Lemmas: Create *)

Section CreateLemmas.
Context `{ServerText}.

(** What storing a model does, without memoised queries and transactions. *)
Definition store_model (model : InsertionModel) (d : EventDB) : result EventDB :=
  args <-! collect_args model ;;
  r <-! insert_event (GenerateInsertionQuery model) args d ;;
  r <-! SetLogTransformedQuery (column_value model LogFK) r.2 ;;
  Ok r.2.

Fixpoint store_models (models : list InsertionModel) (d : EventDB) : result EventDB :=
  match models with
  | [] => Ok d
  | model :: models => d <-! store_model model d ;; store_models models d
  end.

(** The memoised queries are right for the models: the concatenated names
    determine the query, as the source assumes. *)
Definition memo_right (query_of : string → query_t) (memo : memo_t) (models : list InsertionModel) : Prop :=
  (∀ k q, memo !! k = Some q → q = query_of k) ∧
  Forall (λ m, GenerateInsertionQuery m = query_of (SchemaName m +:+ TableName m)) models.

Lemma GetMemoizedQuery_right query_of memo m models : memo_right query_of memo (m :: models) →
  ∃ memo', GetMemoizedQuery m memo = (GenerateInsertionQuery m, memo') ∧ memo_right query_of memo' models.
Proof.
  intros [Hmemo Hall]. apply Forall_cons in Hall as [Hm Hall]. unfold GetMemoizedQuery.
  destruct (memo !! (SchemaName m +:+ TableName m)) as [q|] eqn:E.
  - exists memo. rewrite (Hmemo _ _ E), <- Hm. by split.
  - eexists. split; [done|]. split; [|done]. intros k q [[<- <-]|[_ Hk]]%lookup_insert_Some; [done|auto].
Qed.

Lemma exec_check_result {A} (f : EventDB → result (A * EventDB)) o s :
  match exec_check (λ d q, (f d, q)) o s with
  | (DOk a, s') => f (tables s) = Ok (a, tables s') ∧ aborted s' = false ∧ seqs s' = seqs s
  | (DErr _ _, s') => tables s' = tables s
  | (DPanic w, _) => f (tables s) = Panic w
  end.
Proof.
  unfold exec_check. destruct (aborted s) eqn:Ha; [done|]. destruct (o (clock s)); [done|].
  by destruct (f (tables s)) as [[a t]|e|w].
Qed.

Lemma exec_check_no_faults {A} (f : EventDB → result (A * EventDB)) s a t :
  aborted s = false → f (tables s) = Ok (a, t) →
  exec_check (λ d q, (f d, q)) no_faults s = (DOk a, mkSession t (seqs s) false (S (clock s))).
Proof. intros Ha Hf. unfold exec_check. by rewrite Ha, Hf. Qed.

(** A loop that finishes stored the models. *)
Lemma create_loop_finished query_of models : ∀ memo o s s' memo', memo_right query_of memo models →
  create_loop models memo o s = (Finished, s', memo') → store_models models (tables s) = Ok (tables s').
Proof.
  induction models as [|m models IH]; intros memo o s s' memo' Hm; simpl; [by intros [= -> _]|].
  unfold store_model. destruct (collect_args m) as [args|e|w]; [|done..]. simpl.
  destruct (GetMemoizedQuery_right _ _ _ _ Hm) as (memo1 & -> & Hm1).
  pose proof (exec_check_result (insert_event (GenerateInsertionQuery m) args) o s) as H1.
  destruct (exec_check _ o s) as [[[]|b e|w] s1]; [|done..]. destruct H1 as (-> & _). simpl.
  pose proof (exec_check_result (SetLogTransformedQuery (column_value m LogFK)) o s1) as H2.
  destruct (exec_check _ o s1) as [[[]|b e|w] s2]; [|done..]. destruct H2 as (-> & _). simpl.
  intros E. by eapply IH.
Qed.

Lemma create_loop_no_faults query_of models : ∀ memo s d, memo_right query_of memo models →
  aborted s = false → store_models models (tables s) = Ok d →
  ∃ s' memo', create_loop models memo no_faults s = (Finished, s', memo') ∧ tables s' = d ∧ aborted s' = false.
Proof.
  induction models as [|m models IH]; intros memo s d Hm Ha; simpl; [intros [= <-]; by eexists _, _|].
  unfold store_model. destruct (collect_args m) as [args|e|w]; [|done..]. simpl.
  destruct (GetMemoizedQuery_right _ _ _ _ Hm) as (memo1 & -> & Hm1).
  destruct (insert_event (GenerateInsertionQuery m) args (tables s)) as [[[] d1]|e|w] eqn:E1; [|done..]. simpl.
  destruct (SetLogTransformedQuery (column_value m LogFK) d1) as [[[] d2]|e|w] eqn:E2; [|done..]. simpl.
  rewrite (exec_check_no_faults _ _ _ _ Ha E1).
  rewrite (exec_check_no_faults _ (mkSession d1 (seqs s) false (S (clock s))) _ _ eq_refl E2).
  intros E. destruct (IH memo1 (mkSession d2 (seqs s) false (S (S (clock s)))) d Hm1 eq_refl E) as (s' & memo' & E' & Hd & Ha').
  by exists s', memo'.
Qed.

Lemma Create_ok query_of models p o s s' p' : memo_right query_of (ModelToQuery p) models →
  Create models p o s = (DOk tt, s', p') → store_models models (tables s) = Ok (tables s') ∧ held p' = held p.
Proof.
  intros Hm. unfold Create. destruct (length models =? 0)%nat; [done|].
  pose proof (begin_tables o s) as Hb. destruct (begin_ o s) as [[[]|b e|w] s1]; [|done..]. simpl in Hb.
  destruct (create_loop models (ModelToQuery p) o s1) as [[[|e|e] s2] memo] eqn:El; [|done..].
  pose proof (create_loop_finished _ _ _ _ _ _ _ Hm El) as Hs. rewrite Hb in Hs.
  pose proof (commit_tables (tables s) o s2) as Hc.
  destruct (commit (tables s) o s2) as [[e|] s3] eqn:Ec; [done|]. intros [= <- <-].
  split; [|done]. unfold commit in Ec. destruct (aborted s2); [done|]. destruct (o (clock s2)); [done|].
  by injection Ec as <-.
Qed.

Lemma Create_ok_not_aborted models p o s s' p' :
  Create models p o s = (DOk tt, s', p') → aborted s' = false.
Proof.
  unfold Create. destruct (length models =? 0)%nat; [done|].
  destruct (begin_ o s) as [[[]|b e|w] s1]; [|done..].
  destruct (create_loop models (ModelToQuery p) o s1) as [[[|e|e] s2] memo]; [|done..].
  unfold commit. destruct (aborted s2); [done|]. destruct (o (clock s2)); [done|]. by intros [= <- _].
Qed.

Lemma Create_fails models p o s r s' p' :
  Create models p o s = (r, s', p') → is_DOk r = false → tables s' = tables s.
Proof.
  unfold Create. destruct (length models =? 0)%nat; [by intros [= <- <- <-]|].
  pose proof (begin_tables o s) as Hb. destruct (begin_ o s) as [[[]|b e|w] s1]; [|by intros [= <- <- <-]..].
  destruct (create_loop models (ModelToQuery p) o s1) as [[[|e|e] s2] memo]; [|by intros [= <- <- <-]..].
  pose proof (commit_tables (tables s) o s2) as Hc.
  destruct (commit (tables s) o s2) as [[e|] s3]; intros [= <- <- <-]; [|done].
  intros _. by destruct Hc as [?|[? _]].
Qed.

(** ** Lemmas: what [store_models] leaves *)

(** The names and values of a model that the tables accept. *)
Definition well_formed_model (m : InsertionModel) : Prop :=
  NoDup (OrderedColumns m) ∧ LogFK ∈ OrderedColumns m ∧ ∃ id, column_value m LogFK = VInt id.

Definition model_row (m : InsertionModel) : row_t :=
  list_to_map (zip (OrderedColumns m) (map (column_value m) (OrderedColumns m))).

Lemma collect_args_ok m args : collect_args m = Ok args → args = map (column_value m) (OrderedColumns m).
Proof.
  unfold collect_args. intros Hc%range_collect_Ok.
  induction Hc as [|c a cs args Ha _ IH]; [done|]. simpl. rewrite <- IH.
  destruct (IsValue _); [|done]. by injection Ha as <-.
Qed.

Lemma model_row_lookup m c : NoDup (OrderedColumns m) → c ∈ OrderedColumns m →
  model_row m !! c = Some (column_value m c).
Proof.
  intros Hnd Hc. unfold model_row. apply elem_of_list_to_map_1.
  - rewrite fst_zip; [done|]. by rewrite length_map.
  - apply list_elem_of_lookup in Hc as (i & Hi). apply list_elem_of_lookup. exists i.
    rewrite lookup_zip_with, Hi. simpl. by rewrite list_lookup_fmap, Hi.
Qed.

(** Every transformed log has an event. *)
Definition has_event (d : EventDB) (id : Z) : Prop :=
  ∃ table rows row, ev_tables d !! table = Some rows ∧ row ∈ rows ∧ row !! LogFK = Some (VInt id).

Definition transformed_ok (d : EventDB) : Prop :=
  ∀ l, l ∈ sync_logs (ev_headers d) → lg_Transformed l = true → has_event d (lg_ID l).

Lemma insert_event_facts m d d' : well_formed_model m →
  insert_event (GenerateInsertionQuery m) (map (column_value m) (OrderedColumns m)) d = Ok (tt, d') →
  ev_headers d' = ev_headers d ∧ (∀ id, has_event d id → has_event d' id) ∧
  ∀ id, column_value m LogFK = VInt id → has_event d' id.
Proof.
  intros (Hnd & Hin & (id0 & Hid0)). unfold insert_event. simpl.
  destruct (ev_tables d !! (SchemaName m, TableName m)) as [rows|] eqn:Er; [|done].
  rewrite length_map, Nat.eqb_refl. simpl. rewrite decide_True by done. fold (model_row m).
  pose proof (model_row_lookup m LogFK Hnd Hin) as Hlog. rewrite Hid0 in Hlog.
  set (row := model_row m) in *. intros [= <-]. split; [done|].
  set (rows' := if existsb (same_event row) rows then _ else _).
  assert (Hnew : ∃ r, r ∈ rows' ∧ r !! LogFK = Some (VInt id0)).
  { unfold rows'. destruct (existsb (same_event row) rows) eqn:Ex.
    - apply existsb_exists in Ex as (r & Hr%list_elem_of_In & Hs). exists (row ∪ r). split.
      + apply list_elem_of_fmap. exists r. by rewrite Hs.
      + by rewrite (lookup_union_Some_l _ _ _ _ Hlog).
    - exists row. split; [|done]. apply elem_of_app. right. by left. }
  assert (Hold : ∀ r id, r ∈ rows → r !! LogFK = Some (VInt id) → ∃ r', r' ∈ rows' ∧ r' !! LogFK = Some (VInt id)).
  { intros r id Hr Hid. unfold rows'. destruct (existsb (same_event row) rows) eqn:Ex.
    - exists (if same_event row r then row ∪ r else r). split; [apply list_elem_of_fmap; by exists r|].
      destruct (same_event row r) eqn:Es; [|done].
      rewrite (lookup_union_Some_l _ _ _ _ Hlog). rewrite <- Hid. unfold same_event in Es. rewrite Hlog in Es.
      destruct (row !! HeaderFK), (r !! HeaderFK), (r !! LogFK); try done.
      apply bool_decide_eq_true in Es as (_ & _ & _ & <-). done.
    - exists r. split; [|done]. apply elem_of_app. by left. }
  split.
  - intros id (table & rows0 & r & Ht & Hr & Hid). destruct (decide (table = (SchemaName m, TableName m))) as [->|Hne].
    + rewrite Er in Ht. injection Ht as <-. destruct (Hold r id Hr Hid) as (r' & Hr' & Hid').
      eexists _, rows', r'. split; [apply lookup_insert_eq|done].
    + exists table, rows0, r. split; [|done]. simpl. by rewrite lookup_insert_ne.
  - intros id Hid. assert (id = id0) as -> by congruence. destruct Hnew as (r & Hr & Hid').
    eexists _, rows', r. split; [apply lookup_insert_eq|done].
Qed.

Lemma store_models_transformed models : ∀ d d', Forall well_formed_model models →
  store_models models d = Ok d' → transformed_ok d → transformed_ok d'.
Proof.
  induction models as [|m models IH]; intros d d' Hwf; simpl; [by intros [= <-]|].
  apply Forall_cons in Hwf as [Hm Hwf]. intros (d1 & E1 & E2)%rbind_Ok_inv Hok. apply (IH _ _ Hwf E2).
  unfold store_model in E1. apply rbind_Ok_inv in E1 as (args & Ha & E1). rewrite (collect_args_ok _ _ Ha) in E1.
  apply rbind_Ok_inv in E1 as ([[] d2] & Hi & E1). apply rbind_Ok_inv in E1 as ([[] d3] & Hs & [= <-]).
  destruct (insert_event_facts m d d2 Hm Hi) as (Hh & Hold & Hnew). simpl in *.
  destruct Hm as (_ & _ & (id & Hid)). rewrite Hid in Hs. injection Hs as <-.
  intros l Hl Ht. unfold has_event. simpl in *. rewrite Hh in Hl.
  apply list_elem_of_fmap in Hl as (l0 & -> & Hl0).
  destruct (decide (lg_ID l0 = id)) as [He|Hne].
  - rewrite bool_decide_eq_true_2 by done. simpl. rewrite He. exact (Hnew id Hid).
  - rewrite bool_decide_eq_false_2 in Ht |- * by done. exact (Hold _ (Hok l0 Hl0 Ht)).
Qed.

(** A model all of whose values the driver takes, for a table that exists. *)
Definition storable (d : EventDB) (m : InsertionModel) : Prop :=
  well_formed_model m ∧ Forall (λ c, IsValue (column_value m c) = true) (OrderedColumns m) ∧
  is_Some (ev_tables d !! (SchemaName m, TableName m)).

(** The table has a row with the values of the model. *)
Definition stored_model (d : EventDB) (m : InsertionModel) : Prop :=
  ∃ rows row, ev_tables d !! (SchemaName m, TableName m) = Some rows ∧ row ∈ rows ∧
    ∀ c, c ∈ OrderedColumns m → row !! c = Some (column_value m c).

Lemma insert_event_stores m d : storable d m →
  ∃ d', insert_event (GenerateInsertionQuery m) (map (column_value m) (OrderedColumns m)) d = Ok (tt, d') ∧
    ev_headers d' = ev_headers d ∧ stored_model d' m ∧
    (∀ t, is_Some (ev_tables d !! t) → is_Some (ev_tables d' !! t)) ∧
    ∀ m', LogFK ∈ OrderedColumns m' → column_value m' LogFK ≠ column_value m LogFK →
      stored_model d m' → stored_model d' m'.
Proof.
  intros ((Hnd & Hin & (id0 & Hid0)) & _ & (rows & Er)). unfold insert_event. simpl. rewrite Er.
  rewrite length_map, Nat.eqb_refl. simpl. rewrite decide_True by done. fold (model_row m).
  pose proof (model_row_lookup m) as Hrow. set (row := model_row m) in *.
  set (rows' := if existsb (same_event row) rows then _ else _). eexists. split; [done|]. split; [done|]. split_and!.
  - assert (Hr : ∃ r, r ∈ rows' ∧ ∀ c, c ∈ OrderedColumns m → r !! c = Some (column_value m c)).
    { unfold rows'. destruct (existsb (same_event row) rows) eqn:Ex.
      - apply existsb_exists in Ex as (r & Hr%list_elem_of_In & Hs). exists (row ∪ r). split.
        + apply list_elem_of_fmap. exists r. by rewrite Hs.
        + intros c Hc. apply lookup_union_Some_l. by apply Hrow.
      - exists row. split; [apply elem_of_app; right; by left|]. intros c Hc. by apply Hrow. }
    destruct Hr as (r & Hr1 & Hr2). exists rows', r. split; [apply lookup_insert_eq|done].
  - intros t Ht. simpl. destruct (decide (t = (SchemaName m, TableName m))) as [->|Hne].
    + rewrite lookup_insert_eq. by eexists.
    + by rewrite lookup_insert_ne.
  - intros m' Hin' Hne (rows0 & r & Ht & Hr & Hv). unfold stored_model. simpl.
    destruct (decide ((SchemaName m', TableName m') = (SchemaName m, TableName m))) as [He|Hne'].
    + rewrite He in Ht |- *. rewrite Er in Ht. injection Ht as <-. exists rows', r.
      split; [apply lookup_insert_eq|]. split; [|done]. unfold rows'.
      destruct (existsb (same_event row) rows); [|apply elem_of_app; by left].
      apply list_elem_of_fmap. exists r. split; [|done].
      assert (Hs : same_event row r = false); [|by rewrite Hs].
      unfold same_event. rewrite (Hrow LogFK Hnd Hin), (Hv LogFK Hin').
      destruct (row !! HeaderFK); [|done]. destruct (r !! HeaderFK); [|done]. apply bool_decide_eq_false.
      intros (_ & _ & _ & He2). by apply Hne.
    + exists rows0, r. by rewrite lookup_insert_ne.
Qed.

(** The marks left on the logs. *)
Definition mark_log (l : log_row) : log_row :=
  mkLogRow (lg_ID l) (lg_HeaderID l) (lg_Address l) (lg_Topics l) (lg_Data l) (lg_BlockNumber l)
    (lg_BlockHash l) (lg_TxHash l) (lg_TxIndex l) (lg_LogIndex l) (lg_Raw l) true.

Definition marks (models : list InsertionModel) (l : log_row) : log_row :=
  if decide (VInt (lg_ID l) ∈ map (λ m, column_value m LogFK) models) then mark_log l else l.

Lemma store_models_exact models : ∀ d,
  Forall (storable d) models → NoDup (map (λ m, column_value m LogFK) models) →
  ∃ d', store_models models d = Ok d' ∧
    ev_headers d' = set_logs (map (marks models) (sync_logs (ev_headers d))) (ev_headers d) ∧
    Forall (stored_model d') models ∧
    (∀ m', LogFK ∈ OrderedColumns m' → column_value m' LogFK ∉ map (λ m, column_value m LogFK) models →
       stored_model d m' → stored_model d' m').
Proof.
  induction models as [|m models IH]; intros d Hs Hnd.
  - exists d. split; [done|]. split_and!; [|done|by auto]. unfold marks. rewrite map_id.
    by destruct (ev_headers d).
  - simpl in Hnd. apply NoDup_cons in Hnd as [Hn Hnd]. apply Forall_cons in Hs as [Hm Hs].
    destruct (insert_event_stores m d Hm) as (d1 & E1 & Hh1 & Hst1 & Hdom1 & Hkeep1).
    pose proof Hm as ((_ & Hin & (id & Hid)) & Hv & _).
    set (d2 := set_transformed id d1).
    assert (Es : store_model m d = Ok d2).
    { unfold store_model. assert (Ha : collect_args m = Ok (map (column_value m) (OrderedColumns m))).
      { unfold collect_args. rewrite <- (map_id (OrderedColumns m)) at 1. apply range_collect_map.
        rewrite Forall_forall in Hv. intros c Hc. by rewrite (Hv c Hc). }
      rewrite Ha. simpl. rewrite E1. simpl. by rewrite Hid. }
    destruct (IH d2) as (d' & E' & Hh' & Hst' & Hkeep'); [|done|].
    { eapply Forall_impl; [exact Hs|]. intros m' (H1 & H2 & H3). split_and!; [done|done|]. by apply Hdom1. }
    exists d'. simpl. rewrite Es. simpl. split; [done|]. split_and!.
    + rewrite Hh'. simpl. rewrite Hh1. unfold set_logs. simpl. f_equal. rewrite map_map.
      apply map_ext. intros l. unfold marks. cbn [map]. destruct (decide (lg_ID l = id)) as [He|Hne].
      * rewrite bool_decide_eq_true_2 by done. rewrite (decide_True (P := VInt (lg_ID l) ∈ _ :: _)) by (rewrite He, Hid; by left).
        by case_decide.
      * rewrite bool_decide_eq_false_2 by done. rewrite Hid.
        apply decide_ext. rewrite elem_of_cons. split; [by right|]. by intros [[= ?]|?].
    + constructor; [|done]. apply Hkeep'; [done|done|exact Hst1].
    + intros m' Hin' Hn' Hst. rewrite not_elem_of_cons in Hn'. destruct Hn' as [Hne Hn'].
      apply Hkeep'; [done|done|]. by apply Hkeep1.
Qed.

End CreateLemmas.

(** ** Lemmas: reading the logs to delegate *)

Lemma on_headers_read {A} (m : DB HeaderDB A) f p s : evaluates m f → aborted s = false →
  ∃ r s', on_headers m p no_faults s = (r, s', p) ∧ out_result r = f (ev_headers (tables s)) ∧
    tables s' = tables s ∧ (is_ok (f (ev_headers (tables s))) = true → aborted s' = false).
Proof.
  intros Hm Ha. unfold on_headers.
  destruct (Hm (mkSession (ev_headers (tables s)) (seqs s) (aborted s) (clock s)) Ha) as (H1 & H2 & _ & H4).
  destruct (m no_faults _) as [r s']. simpl in *. eexists _, _. split; [done|]. split; [done|]. split; [|done].
  simpl. rewrite H2. by destruct (tables s).
Qed.

(** Marking the only untransformed log leaves none. *)
Lemma untransformed_marked h r m : untransformed h = [r] → column_value m LogFK = VInt (lg_ID r) →
  untransformed (set_logs (map (marks [m]) (sync_logs h)) h) = [].
Proof.
  intros Hu Hid. unfold untransformed in *. simpl.
  destruct (filter _ (map _ _)) as [|x xs] eqn:E; [done|].
  assert (Hx : x ∈ x :: xs) by (by left). rewrite <- E in Hx. apply list_elem_of_filter in Hx as [Hf Hx].
  apply list_elem_of_fmap in Hx as (l & -> & Hl). unfold marks in Hf. simpl in Hf.
  destruct (decide (VInt (lg_ID l) ∈ [column_value m LogFK])) as [Hm|Hm]; [done|].
  assert (Hin : l ∈ filter (λ r, lg_Transformed r = false) (sync_logs h)) by (by apply list_elem_of_filter).
  rewrite Hu in Hin. apply list_elem_of_singleton in Hin as ->. destruct Hm. rewrite Hid. by left.
Qed.

(** ** Properties: storing and delegating *)

Section Properties.
Context `{GethCommon} `{LogJSON} `{ServerText} `{RowOrder}.

(** [Create] is one transaction, whatever the server rejects: when it
    reports success the tables are those that storing the models one after
    the other gives -- where concatenated names determine the query, as the
    memoisation assumes, memoised queries make no difference -- and otherwise
    neither an event nor a transformed mark is stored. *)
Theorem Create_atomic query_of models p o s r s' p' :
  memo_right query_of (ModelToQuery p) models → Create models p o s = (r, s', p') →
  if is_DOk r then store_models models (tables s) = Ok (tables s') else tables s' = tables s.
Proof.
  intros Hm E. destruct (is_DOk r) eqn:Er; [|by eapply Create_fails].
  destruct r as [[]|b e|w]; [|done..]. by eapply Create_ok.
Qed.

(** C29: under these conditions: the server accepts every statement, the models
    are well formed and of different logs, their values are supported, their
    tables exist, and the concatenation of schema and table name, under which
    queries are memoised, determines the query for these models and those
    memoised before.  Then a non-empty list of models is stored with all its
    values, and exactly its logs are marked as transformed. *)
Theorem Create_exact query_of models p s :
  memo_right query_of (ModelToQuery p) models → models ≠ [] →
  Forall (storable (tables s)) models → NoDup (map (λ m, column_value m LogFK) models) →
  ∃ s' p', Create models p no_faults s = (DOk tt, s', p') ∧ held p' = held p ∧
    Forall (stored_model (tables s')) models ∧
    ev_headers (tables s') =
      set_logs (map (marks models) (sync_logs (ev_headers (tables s)))) (ev_headers (tables s)).
Proof.
  intros Hm Hne Hs Hnd. destruct (store_models_exact models (tables s) Hs Hnd) as (d' & E & Hh & Hst & _).
  set (s1 := mkSession (tables s) (seqs s) false (S (clock s))).
  destruct (create_loop_no_faults query_of models (ModelToQuery p) s1 d' Hm eq_refl E) as (s2 & memo & El & Ht & Ha).
  unfold Create, begin_. simpl. fold s1. rewrite El.
  destruct (length models =? 0)%nat eqn:E0; [by apply Nat.eqb_eq, length_zero_iff_nil in E0|].
  rewrite (commit_no_faults _ _ Ha). eexists _, _. split; [done|]. simpl. rewrite Ht. by split_and!.
Qed.

(** The transformed mark is safe: if every transformed log has an event in
    some table, this still holds after [Create], whatever the server rejects. *)
Theorem Create_transformed_ok query_of models p o s r s' p' :
  memo_right query_of (ModelToQuery p) models → Forall well_formed_model models →
  Create models p o s = (r, s', p') → transformed_ok (tables s) → transformed_ok (tables s').
Proof.
  intros Hm Hwf E Hok. destruct (is_DOk r) eqn:Er.
  - destruct r as [[]|b e|w]; [|done..]. destruct (Create_ok _ _ _ _ _ _ _ Hm E) as [Hs _].
    by eapply store_models_transformed.
  - by rewrite (Create_fails _ _ _ _ _ _ _ E Er).
Qed.

(** A value of an unsupported type makes [Create] return from inside its
    transaction: nothing is stored, and the transaction stays open. *)
Theorem Create_holds_transaction m models p o s s1 :
  begin_ o s = (DOk tt, s1) → is_ok (collect_args m) = false →
  ∃ e s' p', Create (m :: models) p o s = (DErr true e, s', p') ∧ tables s' = tables s ∧ held p' = S (held p).
Proof.
  intros Hb Ha. unfold Create. simpl. rewrite Hb.
  destruct (collect_args m) as [args|e|w]; [done|by eexists _, _, _..].
Qed.

(** The key of the memoised query concatenates schema and table without a
    separator, and keeps the columns of the first model seen: a model of
    another schema and table whose names concatenate to the same key is
    inserted into the first one's table. *)
Theorem GetMemoizedQuery_collision m1 m2 memo :
  SchemaName m1 +:+ TableName m1 = SchemaName m2 +:+ TableName m2 → memo !! (SchemaName m1 +:+ TableName m1) = None →
  (GetMemoizedQuery m2 (GetMemoizedQuery m1 memo).2).1 = GenerateInsertionQuery m1.
Proof.
  intros Hk Hno. unfold GetMemoizedQuery. rewrite Hno. simpl. by rewrite <- Hk, lookup_insert_eq.
Qed.

(** An event watcher made by [NewEventWatcher] cannot be given a
    transformer: its extractor has no repository of checked logs, and adding
    the configuration dereferences it. *)
Theorem NewEventWatcher_unusable t initializers p o s :
  ∃ w s', AddTransformers NewEventWatcher (t :: initializers) p o s = (DPanic w, s', p) ∧ tables s' = tables s.
Proof.
  simpl. unfold on_headers, AddTransformerConfig, updateCheckedHeaders, db_bind. simpl.
  eexists _, _. split; [done|]. simpl. by destruct (tables s).
Qed.

(** The transformed mark belongs to the log, not to a transformer: when two
    transformers watch a log and the second fails after the first has stored
    its event, the pass fails, and no later pass gives the log to the second
    transformer, whatever is repaired in between. *)
Theorem DelegateLogs_loses_log c1 c2 f1 f2 chunker chunks query_of m r log e p s :
  let delegator := mkDelegator chunker [Transformer c1 f1; Transformer c2 f2] in
  aborted s = false → untransformed (ev_headers (tables s)) = [r] → read_row (ev_headers (tables s)) r = Ok log →
  ChunkLogs chunker [log] = Ok chunks →
  chunks !! TransformerName c1 = Some [log] → chunks !! TransformerName c2 = Some [log] →
  f1 (ContractAbi c1) [log] = Ok [m] → f2 (ContractAbi c2) [log] = Err e →
  memo_right query_of (ModelToQuery p) [m] → storable (tables s) m → column_value m LogFK = VInt (lg_ID r) →
  ∃ s' p', DelegateLogs delegator p no_faults s = (DErr true e, s', p') ∧
    stored_model (tables s') m ∧
    ∀ delegator', Transformers delegator' ≠ [] → (DelegateLogs delegator' p' no_faults s').1.1 = DErr true ErrNoLogs.
Proof.
  intros delegator Ha Hu Hread Hch Hc1 Hc2 Hf1 Hf2 Hm Hst Hid. unfold DelegateLogs. simpl.
  destruct (on_headers_read _ _ p s GetUntransformed_evaluates Ha) as (rr & s1 & E1 & Hr & Ht1 & Ha1).
  rewrite Hu, any_order_one in Hr. simpl in Hr. rewrite Hread in Hr. simpl in Hr.
  rewrite E1. destruct rr as [logs|b e1|w]; [|done..]. injection Hr as ->. simpl.
  unfold delegateLogs. simpl. rewrite Hch. simpl. rewrite Hc1. simpl. unfold Transformer_Execute. simpl. rewrite Hf1.
  destruct (Create_exact query_of [m] p s1 Hm) as (s2 & p2 & E2 & _ & Hst2 & Hh2); [done| | |].
  { rewrite Ht1. constructor; [exact Hst|constructor]. }
  { apply NoDup_singleton. }
  rewrite E2, Hc2. simpl. rewrite Hf2. exists s2, p2. split; [done|].
  split; [by inversion Hst2|].
  intros delegator' Hne. destruct (Transformers delegator') as [|t ts]; [done|]. simpl.
  pose proof (Create_ok_not_aborted _ _ _ _ _ _ E2) as Ha2.
  destruct (on_headers_read _ _ p2 s2 GetUntransformed_evaluates Ha2) as (r3 & s3 & E3 & Hr3 & _).
  rewrite Hh2, Ht1 in Hr3. rewrite (untransformed_marked _ r m Hu Hid), any_order_nil in Hr3. simpl in Hr3.
  rewrite E3. destruct r3 as [logs|b e1|w]; [|done..]. by injection Hr3 as ->.
Qed.

End Properties.

(** ** Properties: the goroutines of [Execute] *)

(** A goroutine sends on a closed channel, which crashes the process, only
    after [Execute] has returned an error; and whenever extraction and
    delegation both fail, such a run exists. *)
Theorem Execute_send_on_closed :
  (∀ x, rtc execute_step Execute_start x → extractLogs_g x = Panicked ∨ delegateLogs_g x = Panicked →
     ∃ e, main x = Returns e) ∧
  (∀ e1 e2, e1 ≠ ErrNoUncheckedHeaders → e2 ≠ ErrNoLogs →
     rtc execute_step Execute_start (mkExecution (Returns e1) Ended Panicked) ∧
     rtc execute_step Execute_start (mkExecution (Returns e2) Panicked Ended)).
Proof.
  split.
  - intros x Hr. revert x Hr. apply (rtc_ind_r (λ x, extractLogs_g x = Panicked ∨ delegateLogs_g x = Panicked →
      ∃ e, main x = Returns e)).
    + simpl. by intros [?|?].
    + intros y z _ Hs IH. inversion Hs; subst; simpl in *; try (intros; by eexists); intros [Hp|Hp];
        first [by apply IH; auto|unfold pass in Hp; by repeat case_match|done].
  - intros e1 e2 H1 H2.
    assert (Hboth : rtc execute_step Execute_start (mkExecution Waiting (Sending e1) (Sending e2))).
    { eapply rtc_l; [apply (step_extract Waiting Running (Some e1))|]. unfold pass. rewrite decide_False by done.
      eapply rtc_l; [apply (step_delegate Waiting (Sending e1) (Some e2))|]. unfold pass. by rewrite decide_False by done. }
    split; (etransitivity; [exact Hboth|]).
    + eapply rtc_l; [apply step_receive_extract|]. eapply rtc_l; [apply step_closed_delegate|]. done.
    + eapply rtc_l; [apply step_receive_delegate|]. eapply rtc_l; [apply step_closed_extract|]. done.
Qed.

(** ** Witnesses

    A log of HeaderSync's witness tables and two transformers that watch it. *)

Section Witnesses.
#[local] Existing Instance Concrete.geth.
#[local] Existing Instance newest_first.
#[local] Existing Instance ex_json.
#[local] Instance ex_text : ServerText := {| text_int := λ _, None |}.

Definition ex_topic : bytes := replicate 32 2.

Definition ex_logrow : log_row :=
  mkLogRow 1 1 1 [ex_topic] [] 2 (Hash_String (replicate 32 5)) (Hash_String (replicate 32 4)) 0 0 [] false.

Definition ex_headers : HeaderDB :=
  mkHeaderDB [header_insertion 1 "n" (ex_header 2 "old") 1] [] [] [ex_logrow]
    [mkAddressRow 1 (Address_Hex (replicate 20 1)) ""].

Definition ex_model : InsertionModel :=
  mkModel "maker" "bite" ["header_id"; "log_id"; "amount"]
    {["header_id" := VInt 1; "log_id" := VInt 1; "amount" := VString "5"]}.

Definition ex_events : session EventDB :=
  mkSession (mkEventDB ex_headers {[("maker", "bite") := []]}) ∅ false 0.

Definition ex_process : process := mkProcess ∅ 0.

Definition ex_cfg (name : string) : EventTransformerConfig :=
  mkConfig name [Address_Hex (replicate 20 1)] "" (Hash_String ex_topic) 0 (-1).

Definition ex_query_of (_ : string) : query_t := GenerateInsertionQuery ex_model.

Lemma ex_memo_right : memo_right ex_query_of (ModelToQuery ex_process) [ex_model].
Proof. split; [intros k q Hk; simpl in Hk; by apply lookup_empty_Some in Hk|by repeat constructor]. Qed.

Lemma ex_storable : storable (tables ex_events) ex_model.
Proof.
  split_and!.
  - split_and!; [|by right; left|exists 1; reflexivity].
    repeat (apply NoDup_cons; split; [rewrite ?not_elem_of_cons; repeat split; try discriminate; apply not_elem_of_nil|]).
    apply NoDup_nil_2.
  - by repeat constructor.
  - exists []. reflexivity.
Qed.

Lemma ex_read : is_ok (read_row ex_headers ex_logrow) = true.
Proof. reflexivity. Qed.

Definition ex_hsl : HeaderSyncLog :=
  match read_row ex_headers ex_logrow with
  | Ok l => l
  | _ => mkHeaderSyncLog 0 0 (mkTypesLog [] [] [] 0 [] 0 [] 0 false) false
  end.

Definition ex_chunker : LogChunker := foldl AddConfig NewLogChunker [ex_cfg "a"; ex_cfg "b"].

Lemma ChunkLogs_exact_witness :
  ∃ chunks, ChunkLogs ex_chunker [ex_hsl] = Ok chunks ∧
    default [] (chunks !! "a") = [ex_hsl] ∧ default [] (chunks !! "b") = [ex_hsl].
Proof.
  destruct (ChunkLogs_exact [ex_cfg "a"; ex_cfg "b"] [ex_hsl]) as [H1 _].
  - apply NoDup_cons. split; [|apply NoDup_singleton]. intros Hin. apply list_elem_of_singleton in Hin. discriminate.
  - constructor; [apply NoDup_singleton|constructor; [apply NoDup_singleton|constructor]].
  - destruct H1 as (chunks & E & Hc).
    + constructor; [discriminate|constructor].
    + exists chunks. split; [exact E|].
      pose proof (Hc (ex_cfg "a") (list_elem_of_here _ _)) as Ha.
      pose proof (Hc (ex_cfg "b") (list_elem_of_further _ _ _ (list_elem_of_here _ _))) as Hb.
      simpl TransformerName in Ha, Hb. rewrite Ha, Hb. split; vm_compute; reflexivity.
Defined.

Lemma Create_atomic_witness :
  let '(r, s', p') := Create [ex_model] ex_process (λ n, if (n =? 2)%nat then Some (Driver "lost") else None) ex_events in
  r = DErr true (Driver "lost") ∧ tables s' = tables ex_events.
Proof.
  destruct (Create [ex_model] ex_process _ ex_events) as [[r s'] p'] eqn:E.
  pose proof (Create_atomic ex_query_of [ex_model] ex_process _ ex_events r s' p' ex_memo_right E) as Ha.
  assert (r = DErr true (Driver "lost")) as Hr.
  { vm_compute in E. injection E as <- _ _. reflexivity. }
  rewrite Hr in Ha. split; [exact Hr|exact Ha].
Defined.

Lemma Create_exact_witness :
  ∃ s' p', Create [ex_model] ex_process no_faults ex_events = (DOk tt, s', p') ∧
    Forall (stored_model (tables s')) [ex_model] ∧
    map lg_Transformed (sync_logs (ev_headers (tables s'))) = [true].
Proof.
  destruct (Create_exact ex_query_of [ex_model] ex_process ex_events ex_memo_right) as (s' & p' & H1 & _ & H2 & H3).
  - discriminate.
  - constructor; [exact ex_storable|constructor].
  - apply NoDup_singleton.
  - exists s', p'. split; [exact H1|]. split; [exact H2|]. rewrite H3. reflexivity.
Defined.

Lemma Create_transformed_ok_witness :
  let '(r, s', p') := Create [ex_model] ex_process no_faults ex_events in
  r = DOk tt ∧ transformed_ok (tables s').
Proof.
  destruct (Create [ex_model] ex_process no_faults ex_events) as [[r s'] p'] eqn:E. split.
  - vm_compute in E. injection E as <- _ _. reflexivity.
  - apply (Create_transformed_ok ex_query_of [ex_model] ex_process no_faults ex_events r s' p' ex_memo_right).
    + constructor; [apply ex_storable|constructor].
    + exact E.
    + intros l Hl Ht. simpl in Hl. apply list_elem_of_singleton in Hl as ->. discriminate Ht.
Defined.

Lemma Create_holds_transaction_witness :
  let m := mkModel "maker" "bite" ["amount"] {["amount" := VOther "*big.Int"]} in
  ∃ e s' p', Create [m] ex_process no_faults ex_events = (DErr true e, s', p') ∧ held p' = 1%nat.
Proof.
  intros m. destruct (Create_holds_transaction m [] ex_process no_faults ex_events
    (mkSession (tables ex_events) ∅ false 1)) as (e & s' & p' & H1 & _ & H2).
  - reflexivity.
  - reflexivity.
  - exists e, s', p'. split; [exact H1|exact H2].
Defined.

Lemma GetMemoizedQuery_collision_witness :
  let m1 := mkModel "maker" "_bite" ["a"] ∅ in
  let m2 := mkModel "maker_" "bite" ["b"] ∅ in
  (GetMemoizedQuery m2 (GetMemoizedQuery m1 ∅).2).1 = mkQuery "maker" "_bite" ["a"].
Proof.
  intros m1 m2. apply (GetMemoizedQuery_collision m1 m2 ∅).
  - reflexivity.
  - apply lookup_empty.
Defined.

(** The second converter fails once; the log never comes back. *)
Lemma DelegateLogs_loses_log_witness :
  let f1 := λ (_ : string) (_ : list HeaderSyncLog), Ok [ex_model] in
  let f2 := λ (_ : string) (_ : list HeaderSyncLog), Err (Errorf "rpc timeout") in
  let f2' := λ (_ : string) (_ : list HeaderSyncLog), Ok [ex_model] in
  ∃ s' p', DelegateLogs (mkDelegator ex_chunker [Transformer (ex_cfg "a") f1; Transformer (ex_cfg "b") f2])
      ex_process no_faults ex_events = (DErr true (Errorf "rpc timeout"), s', p') ∧
    (DelegateLogs (mkDelegator ex_chunker [Transformer (ex_cfg "a") f1; Transformer (ex_cfg "b") f2'])
       p' no_faults s').1.1 = DErr true ErrNoLogs.
Proof.
  intros f1 f2 f2'.
  destruct (ChunkLogs ex_chunker [ex_hsl]) as [chunks|e|w] eqn:Ech; [|vm_compute in Ech; discriminate..].
  destruct (DelegateLogs_loses_log (ex_cfg "a") (ex_cfg "b") f1 f2 ex_chunker chunks ex_query_of ex_model ex_logrow
    ex_hsl (Errorf "rpc timeout") ex_process ex_events) as (s' & p' & H1 & _ & H2).
  - reflexivity.
  - reflexivity.
  - reflexivity.
  - exact Ech.
  - vm_compute in Ech. injection Ech as <-. vm_compute. reflexivity.
  - vm_compute in Ech. injection Ech as <-. vm_compute. reflexivity.
  - reflexivity.
  - reflexivity.
  - exact ex_memo_right.
  - exact ex_storable.
  - reflexivity.
  - exists s', p'. split; [exact H1|]. apply H2. discriminate.
Defined.

End Witnesses.
