(* ===== verification/Memory.v ===== *)
(** * Database functions with memory

    Some parts of the program keep state of their own beside the database:
    caches, counters, collected values.  A rollback does not restore it and an
    error does not undo it, so these functions thread the memory separately
    from the session, and return it with every outcome. *)

From S2P Require Import Prelude Sql.

Definition MDB (M T A : Type) : Type := oracle → M → session T → outcome A * M * session T.

Section Monad.
Context {M T : Type}.

Definition m_ret {A} (a : A) : MDB M T A := λ o m s, (DOk a, m, s).

Definition m_bind {A B} (f : MDB M T A) (k : A → MDB M T B) : MDB M T B := λ o m s,
  match f o m s with
  | (DOk a, m, s) => k a o m s
  | (DErr b e, m, s) => (DErr b e, m, s)
  | (DPanic w, m, s) => (DPanic w, m, s)
  end.

Definition m_fail {A} (e : error) : MDB M T A := λ o m s, (DErr true e, m, s).
Definition m_panic {A} (w : string) : MDB M T A := λ o m s, (DPanic w, m, s).

(** A database function, a pure call, the memory. *)
Definition m_db {A} (f : DB T A) : MDB M T A := λ o m s, let '(r, s') := f o s in (r, m, s').
Definition m_lift {A} (r : result A) : MDB M T A := m_db (db_lift r).
Definition m_get {A} (f : M → A) : MDB M T A := λ o m s, (DOk (f m), m, s).
Definition m_modify (f : M → M) : MDB M T unit := λ o m s, (DOk tt, f m, s).
Definition m_run {A} (f : M → result A * M) : MDB M T A := λ o m s,
  let '(r, m') := f m in m_lift r o m' s.

(** [fmt.Errorf] around the error of a call. *)
Definition m_wrap {A} (msg : string) (f : MDB M T A) : MDB M T A := λ o m s,
  match f o m s with
  | (DErr b e, m, s) => (DErr b (Errorf msg), m, s)
  | r => r
  end.

Fixpoint m_for {A} (f : A → MDB M T unit) (l : list A) : MDB M T unit :=
  match l with
  | [] => m_ret tt
  | x :: l => m_bind (f x) (λ _, m_for f l)
  end.

Fixpoint m_collect {A B} (f : A → MDB M T B) (l : list A) : MDB M T (list B) :=
  match l with
  | [] => m_ret []
  | x :: l => m_bind (f x) (λ y, m_bind (m_collect f l) (λ ys, m_ret (y :: ys)))
  end.

End Monad.

Declare Scope mdb_scope.
Delimit Scope mdb_scope with mdb.
Notation "x <== f ;; k" := (m_bind f (λ x, k))
  (at level 100, f at next level, k at level 100, right associativity) : mdb_scope.
Notation "f ;==; k" := (m_bind f (λ _, k))
  (at level 100, k at level 100, right associativity) : mdb_scope.
Open Scope mdb_scope.

(** ** What a function guarantees whatever the server rejects

    [mhoare P f Q E]: from [P], [f] returns in [Q] or fails, or panics, in [E]. *)

Definition mem_pred (M T : Type) : Type := M → T → gmap string Z → Prop.

Definition mhoare {M T A} (P : mem_pred M T) (f : MDB M T A) (Q : A → mem_pred M T) (E : mem_pred M T) : Prop :=
  ∀ o m s, server_oracle o → P m (tables s) (seqs s) →
    match f o m s with
    | (DOk a, m', s') => Q a m' (tables s') (seqs s')
    | (_, m', s') => E m' (tables s') (seqs s')
    end.

(** [f] restores [I] whatever its outcome. *)
Definition mkeeps {M T A} (I : mem_pred M T) (f : MDB M T A) : Prop := mhoare I f (λ _, I) I.

Section Hoare.
Context {M T : Type}.
Implicit Types (P I E : mem_pred M T).

Lemma mhoare_weaken {A} P P' (f : MDB M T A) (Q Q' : A → mem_pred M T) E E' :
  mhoare P f Q E → (∀ m t q, P' m t q → P m t q) → (∀ a m t q, Q a m t q → Q' a m t q) →
  (∀ m t q, E m t q → E' m t q) → mhoare P' f Q' E'.
Proof.
  intros Hf HP HQ HE o m s Ho Hs. specialize (Hf o m s Ho (HP _ _ _ Hs)).
  destruct (f o m s) as [[[a|b e|w] m'] s']; auto.
Qed.

Lemma mhoare_ret {A} (a : A) P (Q : A → mem_pred M T) E :
  (∀ m t q, P m t q → Q a m t q) → mhoare P (m_ret a) Q E.
Proof. intros HPQ o m s _ Hs. by apply HPQ. Qed.

Lemma mhoare_bind {A B} P (f : MDB M T A) (k : A → MDB M T B) Q R E :
  mhoare P f Q E → (∀ a, mhoare (Q a) (k a) R E) → mhoare P (m_bind f k) R E.
Proof.
  intros Hf Hk o m s Ho Hs. specialize (Hf o m s Ho Hs). unfold m_bind.
  destruct (f o m s) as [[[a|b e|w] m'] s']; [by apply Hk|done..].
Qed.

Lemma mhoare_fail {A} e P (Q : A → mem_pred M T) E :
  (∀ m t q, P m t q → E m t q) → mhoare P (m_fail e) Q E.
Proof. intros HPE o m s _ Hs. by apply HPE. Qed.

Lemma mhoare_panic {A} w P (Q : A → mem_pred M T) E :
  (∀ m t q, P m t q → E m t q) → mhoare P (m_panic w) Q E.
Proof. intros HPE o m s _ Hs. by apply HPE. Qed.

Lemma mhoare_wrap {A} msg P (f : MDB M T A) Q E : mhoare P f Q E → mhoare P (m_wrap msg f) Q E.
Proof.
  intros Hf o m s Ho Hs. specialize (Hf o m s Ho Hs). unfold m_wrap.
  by destruct (f o m s) as [[[a|b e|w] m'] s'].
Qed.

(** A database function, for every value of the memory. *)
Lemma mhoare_db {A} P (f : DB T A) (Q : A → mem_pred M T) E :
  (∀ m, hoare (P m) f (λ a, Q a m) (E m)) → mhoare P (m_db f) Q E.
Proof.
  intros Hf o m s Ho Hs. specialize (Hf m o s Ho Hs). unfold m_db.
  by destruct (f o s) as [[a|b e|w] s'].
Qed.

Lemma mhoare_lift {A} P (r : result A) (Q : A → mem_pred M T) E :
  (∀ m t q, P m t q → match r with Ok a => Q a m t q | _ => E m t q end) → mhoare P (m_lift r) Q E.
Proof. intros HP o m s _ Hs. specialize (HP _ _ _ Hs). by destruct r. Qed.

Lemma mhoare_get {A} P (g : M → A) (Q : A → mem_pred M T) E :
  (∀ m t q, P m t q → Q (g m) m t q) → mhoare P (m_get g) Q E.
Proof. intros HP o m s _ Hs. by apply HP. Qed.

Lemma mhoare_modify P (g : M → M) (Q : unit → mem_pred M T) E :
  (∀ m t q, P m t q → Q tt (g m) t q) → mhoare P (m_modify g) Q E.
Proof. intros HP o m s _ Hs. by apply HP. Qed.

Lemma mhoare_run {A} P (g : M → result A * M) (Q : A → mem_pred M T) E :
  (∀ m t q, P m t q → match g m with (Ok a, m') => Q a m' t q | (_, m') => E m' t q end) →
  mhoare P (m_run g) Q E.
Proof.
  intros HP o m s _ Hs. specialize (HP _ _ _ Hs). unfold m_run.
  by destruct (g m) as [[a|e|w] m'].
Qed.

(** A loop whose invariant mentions what is left to do. *)
Lemma mhoare_for {A} (I : list A → mem_pred M T) (f : A → MDB M T unit) E l :
  (∀ x l, mhoare (I (x :: l)) (f x) (λ _, I l) E) → mhoare (I l) (m_for f l) (λ _, I []) E.
Proof.
  intros Hf. induction l as [|x l IH]; simpl; [by apply mhoare_ret|].
  eapply mhoare_bind; [apply Hf|]. by intros [].
Qed.

(** The members of the list are known to the body. *)
Lemma mhoare_for_in {A} I (f : A → MDB M T unit) E l :
  (∀ x, x ∈ l → mhoare I (f x) (λ _, I) E) → mhoare I (m_for f l) (λ _, I) E.
Proof.
  induction l as [|x l IH]; intros Hf; simpl; [by apply mhoare_ret|].
  eapply mhoare_bind; [apply Hf; set_solver|]. intros []. apply IH. intros y Hy. apply Hf. set_solver.
Qed.

Lemma mkeeps_bind {A B} I (f : MDB M T A) (k : A → MDB M T B) :
  mkeeps I f → (∀ a, mkeeps I (k a)) → mkeeps I (m_bind f k).
Proof. intros Hf Hk. by eapply mhoare_bind. Qed.

Lemma mkeeps_for {A} I (f : A → MDB M T unit) l :
  (∀ x, mkeeps I (f x)) → mkeeps I (m_for f l).
Proof. intros Hf. apply mhoare_for_in. intros x _. apply Hf. Qed.

Lemma mkeeps_collect {A B} I (f : A → MDB M T B) l :
  (∀ x, mkeeps I (f x)) → mkeeps I (m_collect f l).
Proof.
  intros Hf. induction l as [|x l IH]; simpl; [by apply mhoare_ret|].
  apply mkeeps_bind; [done|]. intros y. apply mkeeps_bind; [done|]. intros ys. by apply mhoare_ret.
Qed.

Lemma mkeeps_db {A} I (f : DB T A) : (∀ m, keeps (I m) f) → mkeeps I (m_db f).
Proof. intros Hf. apply mhoare_db. intros m. by apply keeps_hoare. Qed.

Lemma mkeeps_ret {A} I (a : A) : mkeeps I (m_ret a).
Proof. by apply mhoare_ret. Qed.

Lemma mkeeps_fail {A} I e : mkeeps I (@m_fail M T A e).
Proof. by apply mhoare_fail. Qed.

Lemma mkeeps_panic {A} I w : mkeeps I (@m_panic M T A w).
Proof. by apply mhoare_panic. Qed.

Lemma mkeeps_lift {A} I (r : result A) : mkeeps I (m_lift r).
Proof. apply mhoare_lift. by destruct r. Qed.

Lemma mkeeps_get {A} I (g : M → A) : mkeeps I (m_get g).
Proof. by apply mhoare_get. Qed.

Lemma mkeeps_modify I (g : M → M) : (∀ m t q, I m t q → I (g m) t q) → mkeeps I (m_modify g).
Proof. intros HI. by apply mhoare_modify. Qed.

Lemma mkeeps_wrap {A} I msg (f : MDB M T A) : mkeeps I f → mkeeps I (m_wrap msg f).
Proof. apply mhoare_wrap. Qed.

End Hoare.

#[export] Hint Resolve mkeeps_ret mkeeps_fail mkeeps_panic mkeeps_lift mkeeps_get mkeeps_wrap
  mkeeps_for mkeeps_collect : go.

(** ** What a function may do to the state, whatever happens

    [moves R f]: the tables before and after every run of [f] are related;
    [m_moves] the same with the memory.  A property that [R] preserves then
    survives every outcome. *)

Definition moves {T A} (R : T → T → Prop) (f : DB T A) : Prop :=
  ∀ o s, R (tables s) (tables (f o s).2).

Definition m_moves {M T A} (R : M * T → M * T → Prop) (f : MDB M T A) : Prop :=
  ∀ o m s, R (m, tables s) ((f o m s).1.2, tables (f o m s).2).

Section Moves.
Context {T : Type} (R : T → T → Prop) `{!PreOrder R}.

Lemma moves_ret {A} (a : A) : moves R (db_ret a).
Proof. by intros o s. Qed.

Lemma moves_fail {A} e : moves R (@db_fail T A e).
Proof. by intros o s. Qed.

Lemma moves_panic {A} w : moves R (λ o s, (@DPanic A w, s)).
Proof. by intros o s. Qed.

Lemma moves_lift {A} (r : result A) : moves R (db_lift r).
Proof. intros o s. by destruct r. Qed.

Lemma moves_bind {A B} (f : DB T A) (k : A → DB T B) :
  moves R f → (∀ a, moves R (k a)) → moves R (db_bind f k).
Proof.
  intros Hf Hk o s. specialize (Hf o s). unfold db_bind.
  destruct (f o s) as [[a|b e|w] s']; simpl in *; [|done..]. by etransitivity; [|apply Hk].
Qed.

Lemma moves_for {A} (f : A → DB T unit) l : (∀ x, moves R (f x)) → moves R (db_for f l).
Proof. intros Hf. induction l as [|x l IH]; simpl; [apply moves_ret|by apply moves_bind]. Qed.

Lemma moves_collect {A B} (f : A → DB T B) l : (∀ x, moves R (f x)) → moves R (db_collect f l).
Proof.
  intros Hf. induction l as [|x l IH]; simpl; [apply moves_ret|].
  apply moves_bind; [done|]. intros y. apply moves_bind; [done|]. intros ys. apply moves_ret.
Qed.

Lemma moves_exec_check {A} (f : T → gmap string Z → result (A * T) * gmap string Z) :
  (∀ t q a t', (f t q).1 = Ok (a, t') → R t t') → moves R (exec_check f).
Proof.
  intros Hf o s. unfold exec_check. destruct (aborted s); [done|]. destruct (o (clock s)); [done|].
  specialize (Hf (tables s) (seqs s)).
  destruct (f (tables s) (seqs s)) as [[[a t]|e|w] q]; simpl in *; [by eapply Hf|done..].
Qed.

Lemma moves_exec_auto_check {A} (f : T → gmap string Z → result (A * T) * gmap string Z) :
  (∀ t q a t', (f t q).1 = Ok (a, t') → R t t') → moves R (exec_auto_check f).
Proof.
  intros Hf o s. unfold exec_auto_check. destruct (o (clock s)); [done|].
  specialize (Hf (tables s) (seqs s)).
  destruct (f (tables s) (seqs s)) as [[[a t]|e|w] q]; simpl in *; [by eapply Hf|done..].
Qed.

Lemma moves_modify_auto (f : T → T) : (∀ t, R t (f t)) → moves R (modify_auto f).
Proof. intros Hf o s. unfold modify_auto, exec_auto. by destruct (o (clock s)). Qed.

Lemma moves_select_auto {A} (f : T → A) : moves R (select_auto f).
Proof. intros o s. unfold select_auto, exec_auto. by destruct (o (clock s)). Qed.

Lemma moves_scan_one {A} (f : DB T (list A)) : moves R f → moves R (scan_one f).
Proof. intros Hf. apply moves_bind; [done|]. intros [|r rows]; [apply moves_fail|apply moves_ret]. Qed.

(** A transaction commits what its body did or nothing. *)
Lemma moves_transact {A} (f : DB T A) : moves R f → moves R (transact f).
Proof.
  intros Hf o s. unfold transact. pose proof (begin_tables o s) as Hb.
  destruct (begin_ o s) as [[u|b0 e0|w0] s1]; simpl in *; [|by rewrite Hb..].
  specialize (Hf o s1). rewrite Hb in Hf.
  destruct (f o s1) as [[a|b e|w] s2]; simpl in *; [|done..].
  pose proof (commit_tables (tables s) o s2) as Hc.
  by destruct (commit (tables s) o s2) as [[e|] s3]; simpl in *; destruct Hc as [->|(_ & _ & ->)].
Qed.

End Moves.

Section MMoves.
Context {M T : Type} (R : M * T → M * T → Prop) `{!PreOrder R}.

Lemma m_moves_ret {A} (a : A) : m_moves R (m_ret a).
Proof. by intros o m s. Qed.

Lemma m_moves_fail {A} e : m_moves R (@m_fail M T A e).
Proof. by intros o m s. Qed.

Lemma m_moves_panic {A} w : m_moves R (@m_panic M T A w).
Proof. by intros o m s. Qed.

Lemma m_moves_get {A} (g : M → A) : m_moves R (m_get g).
Proof. by intros o m s. Qed.

Lemma m_moves_bind {A B} (f : MDB M T A) (k : A → MDB M T B) :
  m_moves R f → (∀ a, m_moves R (k a)) → m_moves R (m_bind f k).
Proof.
  intros Hf Hk o m s. specialize (Hf o m s). unfold m_bind.
  destruct (f o m s) as [[[a|b e|w] m'] s']; simpl in *; [|done..]. by etransitivity; [|apply Hk].
Qed.

Lemma m_moves_for {A} (f : A → MDB M T unit) l : (∀ x, m_moves R (f x)) → m_moves R (m_for f l).
Proof. intros Hf. induction l as [|x l IH]; simpl; [apply m_moves_ret|by apply m_moves_bind]. Qed.

Lemma m_moves_collect {A B} (f : A → MDB M T B) l : (∀ x, m_moves R (f x)) → m_moves R (m_collect f l).
Proof.
  intros Hf. induction l as [|x l IH]; simpl; [apply m_moves_ret|].
  apply m_moves_bind; [done|]. intros y. apply m_moves_bind; [done|]. intros ys. apply m_moves_ret.
Qed.

Lemma m_moves_wrap {A} msg (f : MDB M T A) : m_moves R f → m_moves R (m_wrap msg f).
Proof.
  intros Hf o m s. specialize (Hf o m s). unfold m_wrap.
  by destruct (f o m s) as [[[a|b e|w] m'] s'].
Qed.

Lemma m_moves_db {A} (f : DB T A) : (∀ m, moves (λ t t', R (m, t) (m, t')) f) → m_moves R (m_db f).
Proof.
  intros Hf o m s. specialize (Hf m o s). unfold m_db. by destruct (f o s) as [r s'].
Qed.

Lemma m_moves_lift {A} (r : result A) : m_moves R (m_lift r).
Proof. apply m_moves_db. intros m o s. by destruct r. Qed.

Lemma m_moves_modify (g : M → M) : (∀ m t, R (m, t) (g m, t)) → m_moves R (m_modify g).
Proof. by intros Hg o m s. Qed.

Lemma m_moves_run {A} (g : M → result A * M) : (∀ m t, R (m, t) ((g m).2, t)) → m_moves R (m_run g).
Proof.
  intros Hg o m s. specialize (Hg m (tables s)). unfold m_run.
  destruct (g m) as [[a|e|w] m']; simpl in *; done.
Qed.

(** A property that [R] preserves. *)
Definition stable (φ : M → T → Prop) : Prop := ∀ p p', R p p' → φ p.1 p.2 → φ p'.1 p'.2.

Definition pure_pred (φ : M → T → Prop) : mem_pred M T := λ m t _, φ m t.

Lemma stable_mhoare {A} (f : MDB M T A) φ : m_moves R f → stable φ →
  mhoare (pure_pred φ) f (λ _, pure_pred φ) (pure_pred φ).
Proof.
  intros Hf Hφ o m s _ Hs. specialize (Hφ _ _ (Hf o m s)). unfold pure_pred in *.
  destruct (f o m s) as [[[a|b e|w] m'] s']; simpl in *; by apply Hφ.
Qed.

(** [f] establishes [φ] when it returns. *)
Definition achieves {A} (P : M → T → Prop) (f : MDB M T A) (φ : A → M → T → Prop) : Prop :=
  ∀ o m s a m' s', P m (tables s) → f o m s = (DOk a, m', s') → φ a m' (tables s').

Lemma achieves_bind {A B} P (f : MDB M T A) (k : A → MDB M T B) Q φ :
  achieves P f Q → (∀ a, achieves (Q a) (k a) φ) → achieves P (m_bind f k) φ.
Proof.
  intros Hf Hk o m s b m' s' HP. unfold m_bind.
  destruct (f o m s) as [[[a|e1 e2|w] m1] s1] eqn:E; [|done..]. apply Hk. by eapply Hf.
Qed.

Lemma achieves_wrap {A} msg P (f : MDB M T A) φ : achieves P f φ → achieves P (m_wrap msg f) φ.
Proof.
  intros Hf o m s a m' s' HP. unfold m_wrap.
  destruct (f o m s) as [[[b|e1 e2|w] m1] s1] eqn:E; [|done..]. intros [= -> -> ->]. by eapply Hf.
Qed.

Lemma achieves_ret {A} (a : A) (P : M → T → Prop) (φ : A → M → T → Prop) :
  (∀ m t, P m t → φ a m t) → achieves P (m_ret a) φ.
Proof. intros HP o m s b m' s' Hs [= <- <- <-]. by apply HP. Qed.

Lemma achieves_get {A} (g : M → A) (P : M → T → Prop) (φ : A → M → T → Prop) :
  (∀ m t, P m t → φ (g m) m t) → achieves P (m_get g) φ.
Proof. intros HP o m s b m' s' Hs [= <- <- <-]. by apply HP. Qed.

(** What held before still holds. *)
Lemma achieves_stable {A} (f : MDB M T A) P : m_moves R f → stable P → achieves P f (λ _, P).
Proof.
  intros Hf HP o m s a m' s' Hs E. specialize (HP _ _ (Hf o m s)). rewrite E in HP. by apply HP.
Qed.

Lemma achieves_conj {A} P P' (f : MDB M T A) φ φ' : achieves P f φ → achieves P' f φ' →
  achieves (λ m t, P m t ∧ P' m t) f (λ a m t, φ a m t ∧ φ' a m t).
Proof. intros H1 H2 o m s a m' s' [Hs Hs'] E. split; [by eapply H1|by eapply H2]. Qed.

Lemma achieves_weaken {A} (P P' : M → T → Prop) (f : MDB M T A) (φ φ' : A → M → T → Prop) :
  achieves P f φ → (∀ m t, P' m t → P m t) → (∀ a m t, φ a m t → φ' a m t) → achieves P' f φ'.
Proof. intros Hf HP Hφ o m s a m' s' Hs E. eapply Hφ, Hf; [by apply HP|done]. Qed.

(** A loop that returns has done its work for every element. *)
Lemma achieves_for {A} P (f : A → MDB M T unit) (φ : A → M → T → Prop) l :
  (∀ x, m_moves R (f x)) → stable P → (∀ x, x ∈ l → stable (φ x)) →
  (∀ x, x ∈ l → achieves P (f x) (λ _, φ x)) →
  achieves P (m_for f l) (λ _ m t, ∀ x, x ∈ l → φ x m t).
Proof.
  intros Hmv HP Hst. induction l as [|x l IH]; intros Hf; simpl.
  - apply achieves_ret. intros m t _ y Hy. by apply elem_of_nil in Hy.
  - apply achieves_bind with (Q := λ _ m t, φ x m t ∧ P m t).
    + intros o m s u m' s' Hs E. split; [eapply Hf; [by left|exact Hs|exact E]|].
      by eapply (achieves_stable (f x) P).
    + intros [] o m s u m' s' [Hx Hs] E y [->|Hy]%elem_of_cons.
      * eapply (achieves_stable (m_for f l) (φ x)); [by apply m_moves_for|apply Hst; by left|exact Hx|exact E].
      * eapply IH; [intros z Hz; apply Hst; by right|intros z Hz; apply Hf; by right|exact Hs|exact E|exact Hy].
Qed.

Lemma mhoare_achieves {A} (f : MDB M T A) P φ : m_moves R f → stable P → achieves P f φ →
  mhoare (pure_pred P) f (λ a, pure_pred (λ m t, P m t ∧ φ a m t)) (pure_pred P).
Proof.
  intros Hmv Hst Hf o m s _ Hs. specialize (Hst _ _ (Hmv o m s)). specialize (Hf o m s). unfold pure_pred in *.
  destruct (f o m s) as [[[a|b e|w] m'] s']; simpl in *; [|by apply Hst..].
  split; [by apply Hst|]. by apply Hf.
Qed.

End MMoves.

#[export] Hint Resolve moves_ret moves_fail moves_panic moves_lift moves_bind moves_for moves_collect
  moves_select_auto moves_scan_one moves_transact m_moves_ret m_moves_fail m_moves_panic m_moves_get
  m_moves_bind m_moves_for m_moves_collect m_moves_wrap m_moves_lift : go.

(** ** Runs that return *)

Lemma m_bind_ok {M T A B} (f : MDB M T A) (k : A → MDB M T B) o m s b m' s' :
  m_bind f k o m s = (DOk b, m', s') ↔
  ∃ a m1 s1, f o m s = (DOk a, m1, s1) ∧ k a o m1 s1 = (DOk b, m', s').
Proof.
  unfold m_bind. destruct (f o m s) as [[[a|e1 e2|w] m1] s1]; split; intros Hx.
  - by exists a, m1, s1.
  - by destruct Hx as (? & ? & ? & [= <- <- <-] & Hx).
  - done.
  - by destruct Hx as (? & ? & ? & ? & _).
  - done.
  - by destruct Hx as (? & ? & ? & ? & _).
Qed.

Lemma m_wrap_ok {M T A} msg (f : MDB M T A) o m s a m' s' :
  m_wrap msg f o m s = (DOk a, m', s') ↔ f o m s = (DOk a, m', s').
Proof. unfold m_wrap. by destruct (f o m s) as [[[x|e1 e2|w] m1] s1]. Qed.

Lemma m_db_ok {M T A} (f : DB T A) o (m : M) s a m' s' :
  m_db f o m s = (DOk a, m', s') ↔ f o s = (DOk a, s') ∧ m' = m.
Proof.
  unfold m_db. destruct (f o s) as [r s1]. split; [by intros [= -> -> ->]|]. by intros [[= -> ->] ->].
Qed.

Lemma m_for_ok {M T A} (f : A → MDB M T unit) l : ∀ o m s m' s',
  m_for f l o m s = (DOk tt, m', s') → ∀ x, x ∈ l → ∃ m1 s1 m2 s2, f x o m1 s1 = (DOk tt, m2, s2).
Proof.
  induction l as [|x l IH]; intros o m s m' s' E y Hy; [by apply elem_of_nil in Hy|].
  apply m_bind_ok in E as ([] & m1 & s1 & E1 & E2). apply elem_of_cons in Hy as [->|Hy]; [|by eapply IH].
  by exists m, s, m1, s1.
Qed.

Lemma m_bind_err {M T A B} (f : MDB M T A) (k : A → MDB M T B) o m s b e m' s' :
  m_bind f k o m s = (DErr b e, m', s') →
  f o m s = (DErr b e, m', s') ∨ ∃ a m1 s1, f o m s = (DOk a, m1, s1) ∧ k a o m1 s1 = (DErr b e, m', s').
Proof.
  unfold m_bind. destruct (f o m s) as [[[a|b1 e1|w] m1] s1]; intros Hx; [right|left|done]; [by exists a, m1, s1|].
  by injection Hx as -> -> -> ->.
Qed.

(** The errors [f] can fail with. *)
Definition fails_with {M T A} (f : MDB M T A) (φ : error → Prop) : Prop :=
  ∀ o m s b e m' s', f o m s = (DErr b e, m', s') → φ e.

Section Fails.
Context {M T : Type}.

Lemma fails_bind {A B} (f : MDB M T A) (k : A → MDB M T B) φ :
  fails_with f φ → (∀ a, fails_with (k a) φ) → fails_with (m_bind f k) φ.
Proof.
  intros Hf Hk o m s b e m' s'. unfold m_bind. destruct (f o m s) as [[[a|b' e'|w] m1] s1] eqn:E; [by apply Hk| |done].
  intros [= <- <- <- <-]. by eapply Hf.
Qed.

Lemma fails_for {A} (f : A → MDB M T unit) φ l : (∀ x, fails_with (f x) φ) → fails_with (m_for f l) φ.
Proof.
  intros Hf. induction l as [|x l IH]; simpl; [by intros o m s b e m' s'|]. by apply fails_bind.
Qed.

Lemma fails_wrap {A} msg (f : MDB M T A) (φ : error → Prop) : φ (Errorf msg) → fails_with (m_wrap msg f) φ.
Proof.
  intros Hφ o m s b e m' s'. unfold m_wrap. destruct (f o m s) as [[[a|b' e'|w] m1] s1]; [done| |done].
  by intros [= _ <- _ _].
Qed.

Lemma fails_ret {A} (a : A) φ : fails_with (M := M) (T := T) (m_ret a) φ.
Proof. by intros o m s b e m' s'. Qed.

Lemma fails_get {A} (g : M → A) φ : fails_with (T := T) (m_get g) φ.
Proof. by intros o m s b e m' s'. Qed.

Lemma fails_lift {A} (r : result A) (φ : error → Prop) :
  match r with Err e => φ e | _ => True end → fails_with (M := M) (T := T) (m_lift r) φ.
Proof. intros Hr o m s b e m' s'. unfold m_lift, m_db. destruct r; simpl; [done| |done]. by intros [= _ <- _ _]. Qed.

Lemma fails_modify (g : M → M) φ : fails_with (T := T) (m_modify g) φ.
Proof. by intros o m s b e m' s'. Qed.

End Fails.

Lemma m_moves_mono {M T A} (R R' : M * T → M * T → Prop) (f : MDB M T A) :
  (∀ p p', R p p' → R' p p') → m_moves R f → m_moves R' f.
Proof. intros HR Hf o m s. apply HR, Hf. Qed.

(** Takes the first statement of a run apart. *)
Ltac m_step H x m s :=
  let E := fresh "E" in
  apply m_bind_ok in H as (x & m & s & E & H); rewrite ?m_wrap_ok in E.

(** Closes the goals about moves that the combinators decide. *)
Ltac solve_moves := by auto 12 with go typeclass_instances.
