(* ===== verification/ContractTypes.v ===== *)
(** * Contracts, events and methods (pkg/eth/contract_watcher/shared: types,
    contract, parser)

    What the contract watcher knows about a contract: the events and methods
    its configuration selects from the ABI, the values it filters for, and the
    values collected as arguments for polling. *)

From S2P Require Import Prelude GoInt Decimal ChainTypes Geth BlockChain.

(** ** github.com/ethereum/go-ethereum/accounts/abi *)

Inductive abi_T : Type :=
| IntTy | UintTy | BoolTy | StringTy | SliceTy | ArrayTy | TupleTy | AddressTy
| FixedBytesTy | BytesTy | HashTy | FixedPointTy | FunctionTy.

#[global] Instance abi_T_eq_dec : EqDecision abi_T.
Proof. solve_decision. Defined.

Record abi_Type : Type := mkType { ty_T : abi_T; ty_Size : Z; ty_String : string }.
Record Argument : Type := mkArgument { arg_Name : string; arg_Type : abi_Type; arg_Indexed : bool }.
Record abi_Method : Type := mkAbiMethod {
  am_Name : string; am_Const : bool; am_Inputs : list Argument; am_Outputs : list Argument }.
Record abi_Event : Type := mkAbiEvent {
  ae_Name : string; ae_Anonymous : bool; ae_Inputs : list Argument }.
Record ABI : Type := mkABI { abi_Methods : gmap string abi_Method; abi_Events : gmap string abi_Event }.

Definition ABI_zero : ABI := mkABI ∅ ∅.

(** The dynamic types the code distinguishes in an [interface{}]. *)
Inductive value : Type :=
| VNil | VBigInt (n : Z) | VAddress (a : bytes) | VHash (h : bytes) | VString (s : string)
| VBool (b : bool) | VBytes (b : bytes) | VUint8 (u : Z) | VBytes32 (b : bytes) | VBytes4 (b : bytes)
| VOther (typ : string).

(** ** types/mode.go *)

Inductive Mode : Type := HeaderSyncMode | FullSyncMode | OtherMode (n : Z).

#[global] Instance Mode_eq_dec : EqDecision Mode.
Proof. solve_decision. Defined.

Definition Mode_IsValid (mode : Mode) : bool :=
  match mode with OtherMode _ => false | _ => true end.

Definition Mode_String (mode : Mode) : string :=
  match mode with
  | HeaderSyncMode => "header"
  | FullSyncMode => "full"
  | OtherMode _ => "unknown"
  end.

(** ** types/event.go and types/method.go *)

Record Field : Type := mkField {
  f_Name : string; f_Type : abi_Type; f_Indexed : bool; f_PgType : string }.

Record Event : Type := mkEvent { ev_Name : string; ev_Anonymous : bool; ev_Fields : list Field }.

Record Log : Type := mkLog {
  l_ID : Z;
  l_Values : gmap string string;
  l_Block : Z;
  l_Tx : string;
  l_LogIndex : Z;
  l_TransactionIndex : Z;
  l_Raw : bytes
}.

Record Method : Type := mkMethod {
  met_Name : string; met_Const : bool; met_Args : list Field; met_Return : list Field }.

Definition Method_zero : Method := mkMethod "" false [] [].

(** types.Result; the inputs are the strings of [StringifyArg]. *)
Record MethodResult : Type := mkMethodResult {
  res_Method : Method;
  res_Inputs : list string;
  res_Output : string;
  res_PgType : string;
  res_Block : Z
}.

(** The switch on the type of an input. *)
Definition PgType_of (t : abi_T) : string :=
  match t with
  | HashTy | AddressTy => "CHARACTER VARYING(66)"
  | IntTy | UintTy => "NUMERIC"
  | BoolTy => "BOOLEAN"
  | BytesTy | FixedBytesTy => "BYTEA"
  | ArrayTy => "TEXT[]"
  | FixedPointTy => "MONEY"
  | _ => "TEXT"
  end.

Definition NewField (input : Argument) : Field :=
  mkField (arg_Name input) (arg_Type input) (arg_Indexed input) (PgType_of (ty_T (arg_Type input))).

Definition NewEvent (e : abi_Event) : Event :=
  mkEvent (ae_Name e) (ae_Anonymous e) (map NewField (ae_Inputs e)).

Definition NewMethod (m : abi_Method) : Method :=
  mkMethod (am_Name m) (am_Const m) (map NewField (am_Inputs m)) (map NewField (am_Outputs m)).

(** [[]byte(s)] *)
Definition bytes_of_string (s : string) : bytes :=
  map (λ c, Z.of_nat (nat_of_ascii c)) (String.list_ascii_of_string s).

Definition signature (name : string) (fields : list Field) : string :=
  name +:+ "(" +:+ String.concat "," (map (λ f, ty_String (f_Type f)) fields) +:+ ")".

Definition Event_Sig `{GethCommon} (e : Event) : bytes :=
  Keccak256Hash (bytes_of_string (signature (ev_Name e) (ev_Fields e))).

Definition Method_Sig `{GethCommon} (m : Method) : bytes :=
  Keccak256Hash (bytes_of_string (signature (met_Name m) (met_Args m))).

(** ** contract/contract.go *)

(** filters.LogFilter; the topics are an array of four strings. *)
Record LogFilter : Type := mkLogFilter {
  lf_Name : string; lf_FromBlock : Z; lf_ToBlock : Z; lf_Address : string; lf_Topics : list string }.

(** Nil slices and maps are [None] where the code tells them apart.  The keys
    of [EmittedAddrs] are addresses, those of [EmittedHashes] hashes. *)
Record Contract : Type := mkContract {
  con_Name : string;
  con_Address : string;
  con_Network : string;
  con_StartingBlock : Z;
  con_Abi : string;
  con_ParsedAbi : ABI;
  con_Events : gmap string Event;
  con_Methods : option (list Method);
  con_Filters : gmap string LogFilter;
  con_FilterArgs : option (gmap string bool);
  con_MethodArgs : option (gmap string bool);
  EmittedAddrs : option (gset bytes);
  EmittedHashes : option (gset bytes);
  con_Piping : bool
}.

Definition set_emitted (addrs hashes : option (gset bytes)) (c : Contract) : Contract :=
  mkContract (con_Name c) (con_Address c) (con_Network c) (con_StartingBlock c) (con_Abi c)
    (con_ParsedAbi c) (con_Events c) (con_Methods c) (con_Filters c) (con_FilterArgs c)
    (con_MethodArgs c) addrs hashes (con_Piping c).

Definition set_filters (fs : gmap string LogFilter) (c : Contract) : Contract :=
  mkContract (con_Name c) (con_Address c) (con_Network c) (con_StartingBlock c) (con_Abi c)
    (con_ParsedAbi c) (con_Events c) (con_Methods c) fs (con_FilterArgs c)
    (con_MethodArgs c) (EmittedAddrs c) (EmittedHashes c) (con_Piping c).

Definition methods_of (c : Contract) : list Method := default [] (con_Methods c).

(** The switch on the type of an argument. *)
Definition init_arg (c : Contract) (t : abi_T) : Contract :=
  match t with
  | AddressTy => set_emitted (Some ∅) (EmittedHashes c) c
  | HashTy | BytesTy | FixedBytesTy => set_emitted (EmittedAddrs c) (Some ∅) c
  | _ => c
  end.

Definition Contract_Init (c : Contract) : Contract :=
  fold_left (λ c m, fold_left (λ c arg, init_arg c (ty_T (f_Type arg))) (met_Args m) c) (methods_of c) c.

Section Contract.
Context `{GethCommon}.

Definition StringifyArg (arg : value) : string :=
  match arg with
  | VString s => s
  | VAddress a => Address_Hex a
  | VHash h => Hash_String h
  | VBytes b => hexutil_Encode b
  | _ => ""
  end.

Definition GenerateFilters (c : Contract) : Contract * option error :=
  let filters := (λ event, {|
    lf_Name := con_Address c +:+ "_" +:+ ev_Name event;
    lf_FromBlock := con_StartingBlock c;
    lf_ToBlock := -1;
    lf_Address := Address_Hex (HexToAddress (con_Address c));
    lf_Topics := [Hash_String (Event_Sig event); ""; ""; ""] |}) <$> con_Events c in
  (set_filters filters c,
   if (size filters =? 0)%nat then Some (Errorf "error: no filters created") else None).

(** A look-up in one of the maps of wanted arguments. *)
Definition wanted_in (args : option (gmap string bool)) (arg : string) : bool :=
  match args with
  | None => false
  | Some m => if (size m =? 0)%nat then true else default false (m !! arg)
  end.

Definition WantedEventArg (c : Contract) (arg : string) : bool := wanted_in (con_FilterArgs c) arg.
Definition WantedMethodArg (c : Contract) (arg : value) : bool := wanted_in (con_MethodArgs c) (StringifyArg arg).

Definition PassesEventFilter (c : Contract) (args : gmap string string) : bool :=
  existsb (λ kv, WantedEventArg c kv.2) (map_to_list args).

(** Writing to a nil map panics. *)
Definition add_key (k : bytes) (m : option (gset bytes)) : result (option (gset bytes)) :=
  match m with
  | Some m => Ok (Some ({[k]} ∪ m))
  | None => Panic "assignment to entry in nil map"
  end.

Fixpoint AddEmittedAddr (addresses : list bytes) (c : Contract) : result Contract :=
  match addresses with
  | [] => Ok c
  | addr :: addresses =>
      if WantedMethodArg c (VAddress addr) && bool_decide (is_Some (con_Methods c)) then
        m <-! add_key addr (EmittedAddrs c) ;;
        AddEmittedAddr addresses (set_emitted m (EmittedHashes c) c)
      else AddEmittedAddr addresses c
  end.

Fixpoint AddEmittedHash (hashes : list bytes) (c : Contract) : result Contract :=
  match hashes with
  | [] => Ok c
  | hash :: hashes =>
      if WantedMethodArg c (VHash hash) && bool_decide (is_Some (con_Methods c)) then
        m <-! add_key hash (EmittedHashes c) ;;
        AddEmittedHash hashes (set_emitted (EmittedAddrs c) m c)
      else AddEmittedHash hashes c
  end.

End Contract.

(** ** parser/parser.go *)

Definition okReturnType (arg : Argument) : bool :=
  bool_decide (ty_T (arg_Type arg) ∈
    [UintTy; IntTy; BoolTy; StringTy; AddressTy; HashTy; BytesTy; FixedBytesTy; FixedPointTy]).

(** [stringInSlice] *)
Definition stringInSlice (l : list string) (s : string) : bool := ListContainsString l s.

Definition okInput (input : Argument) : bool :=
  match ty_T (arg_Type input) with
  | AddressTy | HashTy => true
  | FixedBytesTy => ty_Size (arg_Type input) =? 32
  | _ => false
  end.

Definition okTypes (m : abi_Method) (wanted : list string) : bool :=
  match am_Outputs m with
  | [output] =>
      if (length (am_Inputs m) <? 3)%nat &&
         ((length wanted =? 0)%nat || stringInSlice wanted (am_Name m))
      then okReturnType output && forallb okInput (am_Inputs m)
      else false
  | _ => false
  end.

(** [for _, m := range p.parsedAbi.Methods]; [ms] are the methods in the order
    in which the map yields them. *)
Definition select_step (wanted : list string) (methods : list Method) (m : abi_Method) : list Method :=
  zip_with (λ name old, if bool_decide (name = am_Name m) && okTypes m wanted then NewMethod m else old)
    wanted methods.

Definition GetSelectMethods (ms : list abi_Method) (wanted : list string) : option (list Method) :=
  if (length wanted =? 0)%nat then None
  else Some (fold_left (select_step wanted) ms (replicate (length wanted) Method_zero)).

(** A nil slice is [None]. *)
Definition GetMethods (ms : list abi_Method) (wanted : option (list string)) : option (list Method) :=
  match wanted with
  | None => None
  | Some wanted =>
      Some (map NewMethod (filter (λ m, (length wanted =? 0)%nat || stringInSlice wanted (am_Name m)) ms))
  end.

Definition GetEvents (es : list abi_Event) (wanted : option (list string)) : gmap string Event :=
  match wanted with
  | None => ∅
  | Some wanted =>
      fold_left (λ events e,
        if (length wanted =? 0)%nat || stringInSlice wanted (ae_Name e)
        then <[ae_Name e := NewEvent e]> events else events) es ∅
  end.

Record parser : Type := mkParser { p_abi : string; p_parsedAbi : ABI }.

Section Parser.
Context `{GethCommon}.

(** eth.ParseAbi, Etherscan's answer for an address, and the table
    constants.ABIs. *)
Context (ParseAbi : string → result ABI) (GetAbi : string → result string) (ABIs : gmap bytes string).

Definition lookUp (contractAddr : string) : result string :=
  match ABIs !! HexToAddress contractAddr with
  | Some v => Ok v
  | None => Err (Errorf "ABI not present in lookup table")
  end.

(** The parser is changed also when the ABI does not parse. *)
Definition ParseAbiStr (abiStr : string) : parser * result unit :=
  match ParseAbi abiStr with
  | Ok a => (mkParser abiStr a, Ok tt)
  | Err e => (mkParser abiStr ABI_zero, Err e)
  | Panic w => (mkParser abiStr ABI_zero, Panic w)
  end.

Definition Parse (contractAddr : string) (p : parser) : parser * result unit :=
  match lookUp contractAddr with
  | Ok knownAbi => ParseAbiStr knownAbi
  | _ =>
      match GetAbi contractAddr with
      | Ok abiStr => ParseAbiStr abiStr
      | Err e => (p, Err e)
      | Panic w => (p, Panic w)
      end
  end.

End Parser.

(** ** Lemmas: contracts *)

Section ContractLemmas.
Context `{GethCommon}.
Implicit Types (c : Contract).

Lemma wanted_in_spec args arg :
  wanted_in args arg = true ↔ ∃ m, args = Some m ∧ (m = ∅ ∨ m !! arg = Some true).
Proof.
  unfold wanted_in. destruct args as [m|]; [|naive_solver].
  destruct (Nat.eqb_spec (size m) 0) as [Hs|Hs].
  - apply map_size_empty_inv in Hs as ->. naive_solver.
  - split.
    + intros Hd. exists m. split; [done|right]. by destruct (m !! arg) as [[]|].
    + intros (m' & [= <-] & [->|Hm]); [by rewrite map_size_empty in Hs|]. by rewrite Hm.
Qed.

(** A log passes when one of its values is wanted; without values none is. *)
Lemma PassesEventFilter_spec c args :
  PassesEventFilter c args = true ↔ ∃ name v, args !! name = Some v ∧ WantedEventArg c v = true.
Proof.
  unfold PassesEventFilter. rewrite existsb_exists. split.
  - intros ([k v] & Hin%list_elem_of_In & Hw). apply elem_of_map_to_list in Hin. eauto.
  - intros (k & v & Hkv & Hw). exists (k, v). split; [|done].
    by apply list_elem_of_In, elem_of_map_to_list.
Qed.

(** What polling and conversion never change in a contract. *)
Definition same_contract c c' : Prop := ∃ a h, c' = set_emitted a h c.

#[export] Instance same_contract_preorder : PreOrder same_contract.
Proof.
  split.
  - intros c. exists (EmittedAddrs c), (EmittedHashes c). by destruct c.
  - intros c1 c2 c3 (a & h & ->) (a' & h' & ->). by exists a', h'.
Qed.

Lemma AddEmittedAddr_same l : ∀ c c', AddEmittedAddr l c = Ok c' → same_contract c c'.
Proof.
  induction l as [|a l IH]; intros c c' E; simpl in E; [by simplify_eq|].
  case_match; [|by apply IH].
  apply rbind_Ok_inv in E as (m & _ & E). etransitivity; [|by apply IH]. by exists m, (EmittedHashes c).
Qed.

Lemma AddEmittedHash_same l : ∀ c c', AddEmittedHash l c = Ok c' → same_contract c c'.
Proof.
  induction l as [|a l IH]; intros c c' E; simpl in E; [by simplify_eq|].
  case_match; [|by apply IH].
  apply rbind_Ok_inv in E as (m & _ & E). etransitivity; [|by apply IH]. by exists (EmittedAddrs c), m.
Qed.

(** Addresses are added exactly when wanted and methods are polled. *)
Lemma AddEmittedAddr_exact l : ∀ c s, EmittedAddrs c = Some s →
  ∃ s', AddEmittedAddr l c = Ok (set_emitted (Some s') (EmittedHashes c) c) ∧
    ∀ a, a ∈ s' ↔ a ∈ s ∨ (a ∈ l ∧ WantedMethodArg c (VAddress a) = true ∧ is_Some (con_Methods c)).
Proof.
  induction l as [|x l IH]; intros c s Hs; simpl.
  - exists s. rewrite <- Hs. split; [by destruct c|]. set_solver.
  - destruct (WantedMethodArg c (VAddress x) && bool_decide (is_Some (con_Methods c))) eqn:E.
    + apply andb_true_iff in E as [Hw Hm%bool_decide_eq_true]. rewrite Hs. simpl.
      destruct (IH (set_emitted (Some ({[x]} ∪ s)) (EmittedHashes c) c) ({[x]} ∪ s) eq_refl) as (s' & E & Hs').
      exists s'. split; [exact E|]. intros a. rewrite Hs'. simpl. set_solver.
    + destruct (IH c s Hs) as (s' & E' & Hs'). exists s'. split; [exact E'|].
      intros a. rewrite Hs', elem_of_cons. split; [naive_solver|].
      intros [?|([->|?] & Hw & Hm)]; [by left| |by right]. exfalso.
      by rewrite Hw, bool_decide_eq_true_2 in E by done.
Qed.

End ContractLemmas.

(** The collections a contract starts with. *)
Definition takes (t : abi_T → Prop) (c : Contract) : Prop :=
  ∃ m arg, m ∈ methods_of c ∧ arg ∈ met_Args m ∧ t (ty_T (f_Type arg)).

Definition hash_like (t : abi_T) : Prop := t = HashTy ∨ t = BytesTy ∨ t = FixedBytesTy.

Lemma init_arg_spec c t :
  same_contract c (init_arg c t) ∧
  (is_Some (EmittedAddrs (init_arg c t)) ↔ is_Some (EmittedAddrs c) ∨ t = AddressTy) ∧
  (is_Some (EmittedHashes (init_arg c t)) ↔ is_Some (EmittedHashes c) ∨ hash_like t).
Proof.
  unfold hash_like. split.
  - exists (EmittedAddrs (init_arg c t)), (EmittedHashes (init_arg c t)). by destruct c, t.
  - destruct t; simpl; split; split; intros Hx; eauto; destruct_or?; try discriminate; eauto.
Qed.

Lemma exists_cons {A} (P : A → Prop) x l : (∃ a, a ∈ x :: l ∧ P a) ↔ P x ∨ ∃ a, a ∈ l ∧ P a.
Proof. setoid_rewrite elem_of_cons. naive_solver. Qed.

Lemma init_args_spec (args : list Field) : ∀ c,
  let c' := fold_left (λ c arg, init_arg c (ty_T (f_Type arg))) args c in
  same_contract c c' ∧
  (is_Some (EmittedAddrs c') ↔ is_Some (EmittedAddrs c) ∨ ∃ a, a ∈ args ∧ ty_T (f_Type a) = AddressTy) ∧
  (is_Some (EmittedHashes c') ↔ is_Some (EmittedHashes c) ∨ ∃ a, a ∈ args ∧ hash_like (ty_T (f_Type a))).
Proof.
  induction args as [|x args IH]; intros c; simpl.
  - split_and!; [done|set_solver|set_solver].
  - destruct (IH (init_arg c (ty_T (f_Type x)))) as (H1 & H2 & H3).
    destruct (init_arg_spec c (ty_T (f_Type x))) as (K1 & K2 & K3). split_and!.
    + by etransitivity.
    + rewrite H2, K2, exists_cons. tauto.
    + rewrite H3, K3, exists_cons. tauto.
Qed.

Lemma init_methods_spec (ms : list Method) : ∀ c,
  let c' := fold_left (λ c m, fold_left (λ c arg, init_arg c (ty_T (f_Type arg))) (met_Args m) c) ms c in
  same_contract c c' ∧
  (is_Some (EmittedAddrs c') ↔ is_Some (EmittedAddrs c) ∨
     ∃ m, m ∈ ms ∧ ∃ a, a ∈ met_Args m ∧ ty_T (f_Type a) = AddressTy) ∧
  (is_Some (EmittedHashes c') ↔ is_Some (EmittedHashes c) ∨
     ∃ m, m ∈ ms ∧ ∃ a, a ∈ met_Args m ∧ hash_like (ty_T (f_Type a))).
Proof.
  induction ms as [|m ms IH]; intros c; simpl.
  - split_and!; [done|set_solver|set_solver].
  - destruct (init_args_spec (met_Args m) c) as (K1 & K2 & K3).
    specialize (IH (fold_left (λ c arg, init_arg c (ty_T (f_Type arg))) (met_Args m) c)) as (H1 & H2 & H3).
    split_and!.
    + by etransitivity.
    + rewrite H2, K2, exists_cons. tauto.
    + rewrite H3, K3, exists_cons. tauto.
Qed.

(** [Init] prepares a collection exactly when a polled method takes its values. *)
Lemma Contract_Init_spec c :
  same_contract c (Contract_Init c) ∧
  (is_Some (EmittedAddrs (Contract_Init c)) ↔ is_Some (EmittedAddrs c) ∨ takes (eq AddressTy) c) ∧
  (is_Some (EmittedHashes (Contract_Init c)) ↔ is_Some (EmittedHashes c) ∨ takes hash_like c).
Proof.
  destruct (init_methods_spec (methods_of c) c) as (H1 & H2 & H3). split_and!; [done| |].
  - etransitivity; [exact H2|]. unfold takes. naive_solver.
  - etransitivity; [exact H3|]. unfold takes. naive_solver.
Qed.

(** ** Lemmas: the parser *)

(** The criteria for methods that can be polled. *)
Definition pollable (m : abi_Method) : Prop :=
  (length (am_Inputs m) ≤ 2)%nat ∧ (∃ output, am_Outputs m = [output] ∧ okReturnType output = true) ∧
  ∀ input, input ∈ am_Inputs m → ty_T (arg_Type input) ∈ [AddressTy; HashTy] ∨
    (ty_T (arg_Type input) = FixedBytesTy ∧ ty_Size (arg_Type input) = 32).

Lemma okInput_spec input : okInput input = true ↔
  ty_T (arg_Type input) ∈ [AddressTy; HashTy] ∨
  (ty_T (arg_Type input) = FixedBytesTy ∧ ty_Size (arg_Type input) = 32).
Proof.
  unfold okInput. rewrite !elem_of_cons, elem_of_nil.
  destruct (ty_T (arg_Type input)); rewrite ?Z.eqb_eq; split; intros Hx;
    destruct_or?; destruct_and?; try discriminate; try done; auto.
Qed.

Lemma okTypes_spec m wanted : am_Name m ∈ wanted → okTypes m wanted = true ↔ pollable m.
Proof.
  intros Hw. assert (Hs : stringInSlice wanted (am_Name m) = true) by by apply ListContainsString_spec.
  unfold okTypes, pollable. rewrite Hs, orb_true_r, andb_true_r.
  destruct (am_Outputs m) as [|o [|]]; [naive_solver| |naive_solver].
  destruct (Nat.ltb_spec (length (am_Inputs m)) 3) as [Hl|Hl]; [|split; [done|lia]].
  rewrite andb_true_iff, forallb_forall. setoid_rewrite <- list_elem_of_In. setoid_rewrite okInput_spec.
  split; [intros [Ho Hi]; split_and!; [lia|by exists o|done]|].
  intros (_ & (o' & [= <-] & Ho) & Hi). done.
Qed.

Lemma select_step_lookup wanted methods m i name : length methods = length wanted →
  wanted !! i = Some name →
  select_step wanted methods m !! i =
  if bool_decide (name = am_Name m) && okTypes m wanted then Some (NewMethod m) else methods !! i.
Proof.
  intros Hl Hi. unfold select_step. rewrite lookup_zip_with, Hi. simpl.
  destruct (lookup_lt_is_Some_2 methods i) as [old Ho].
  { rewrite Hl. by eapply lookup_lt_Some. }
  rewrite Ho. simpl. by case_match.
Qed.

Lemma select_step_length wanted methods m :
  length methods = length wanted → length (select_step wanted methods m) = length wanted.
Proof. intros Hl. unfold select_step. rewrite length_zip_with. lia. Qed.

Lemma select_loop_lookup wanted i name ms : wanted !! i = Some name → ∀ methods,
  length methods = length wanted → NoDup (map am_Name ms) →
  length (fold_left (select_step wanted) ms methods) = length wanted ∧
  fold_left (select_step wanted) ms methods !! i =
  match list_find (λ m, name = am_Name m ∧ okTypes m wanted = true) ms with
  | Some (_, m) => Some (NewMethod m)
  | None => methods !! i
  end.
Proof.
  intros Hi. induction ms as [|m ms IH]; intros methods Hl Hnd; [done|]. simpl in *.
  apply NoDup_cons in Hnd as [Hm Hnd].
  destruct (IH (select_step wanted methods m)) as [H1 H2]; [by apply select_step_length|done|].
  split; [exact H1|]. rewrite H2, (select_step_lookup _ _ _ _ name) by done.
  destruct (bool_decide (name = am_Name m) && okTypes m wanted) eqn:E.
  - apply andb_true_iff in E as [->%bool_decide_eq_true Hok]. rewrite decide_True by done.
    destruct (list_find _ ms) as [[j m']|] eqn:Ef; [|done]. exfalso.
    apply list_find_Some in Ef as (Hj & [He _] & _). apply Hm. rewrite He.
    apply list_elem_of_fmap_2. by eapply list_elem_of_lookup_2.
  - rewrite decide_False; [by destruct (list_find _ ms) as [[]|]|].
    intros [-> Hok]. by rewrite bool_decide_eq_true_2, Hok in E by done.
Qed.

(** Every wanted name gets its method when it can be polled, and the zero
    method otherwise, whatever the order of the map. *)
Lemma GetSelectMethods_exact ms wanted : NoDup (map am_Name ms) →
  match GetSelectMethods ms wanted with
  | None => wanted = []
  | Some methods => wanted ≠ [] ∧ length methods = length wanted ∧
      ∀ i name, wanted !! i = Some name →
        (∃ m, m ∈ ms ∧ am_Name m = name ∧ pollable m ∧ methods !! i = Some (NewMethod m)) ∨
        ((∀ m, m ∈ ms → am_Name m = name → ¬ pollable m) ∧ methods !! i = Some Method_zero)
  end.
Proof.
  intros Hnd. unfold GetSelectMethods. destruct (Nat.eqb_spec (length wanted) 0) as [Hw|Hw].
  { by destruct wanted. }
  split; [by destruct wanted|].
  assert (Hr : length (replicate (length wanted) Method_zero) = length wanted) by apply length_replicate.
  split.
  { destruct wanted as [|name wanted]; [done|].
    by apply (select_loop_lookup (name :: wanted) 0 name ms eq_refl). }
  intros i name Hi. destruct (select_loop_lookup wanted i name ms Hi _ Hr Hnd) as [_ ->].
  assert (Hin : name ∈ wanted) by by eapply list_elem_of_lookup_2.
  destruct (list_find _ ms) as [[j m]|] eqn:Ef; [left|right].
  - apply list_find_Some in Ef as (Hj & [-> Hok] & _). exists m.
    split_and!; [by eapply list_elem_of_lookup_2|done| |done]. by apply (okTypes_spec _ wanted).
  - split.
    + intros m Hm <- Hp. apply list_find_None in Ef. rewrite Forall_forall in Ef.
      apply (Ef m Hm). split; [done|]. by apply okTypes_spec.
    + apply lookup_replicate_2. by eapply lookup_lt_Some.
Qed.

(** ** Lemmas: the collected values *)

Section Emitted.
Context `{GethCommon}.

Lemma AddEmittedHash_exact l : ∀ c s, EmittedHashes c = Some s →
  ∃ s', AddEmittedHash l c = Ok (set_emitted (EmittedAddrs c) (Some s') c) ∧
    ∀ a, a ∈ s' ↔ a ∈ s ∨ (a ∈ l ∧ WantedMethodArg c (VHash a) = true ∧ is_Some (con_Methods c)).
Proof.
  induction l as [|x l IH]; intros c s Hs; simpl.
  - exists s. rewrite <- Hs. split; [by destruct c|]. set_solver.
  - destruct (WantedMethodArg c (VHash x) && bool_decide (is_Some (con_Methods c))) eqn:E.
    + apply andb_true_iff in E as [Hw Hm%bool_decide_eq_true]. rewrite Hs. simpl.
      destruct (IH (set_emitted (EmittedAddrs c) (Some ({[x]} ∪ s)) c) ({[x]} ∪ s) eq_refl) as (s' & E & Hs').
      exists s'. split; [exact E|]. intros a. rewrite Hs'. simpl. set_solver.
    + destruct (IH c s Hs) as (s' & E' & Hs'). exists s'. split; [exact E'|].
      intros a. rewrite Hs', elem_of_cons. split; [naive_solver|].
      intros [?|([->|?] & Hw & Hm)]; [by left| |by right]. exfalso.
      by rewrite Hw, bool_decide_eq_true_2 in E by done.
Qed.

(** Only arguments the configuration wants are ever collected. *)
Definition emitted_wanted (c : Contract) : Prop :=
  (∀ s a, EmittedAddrs c = Some s → a ∈ s → WantedMethodArg c (VAddress a) = true) ∧
  (∀ s h, EmittedHashes c = Some s → h ∈ s → WantedMethodArg c (VHash h) = true).

Lemma same_contract_args c c' : same_contract c c' → con_MethodArgs c' = con_MethodArgs c.
Proof. by intros (a & h & ->). Qed.

Lemma AddEmittedAddr_wanted l c c' : emitted_wanted c → is_Some (EmittedAddrs c) →
  AddEmittedAddr l c = Ok c' → emitted_wanted c' ∧ EmittedHashes c' = EmittedHashes c ∧ is_Some (EmittedAddrs c').
Proof.
  intros [Ha Hh] [s Hs] E. destruct (AddEmittedAddr_exact l c s Hs) as (s' & E' & Hs').
  rewrite E' in E. simplify_eq. split; [|by split]. split; simpl; [|done].
  intros ? a [= <-] [Hin|(_ & Hw & _)]%Hs'; [by eapply Ha|done].
Qed.

Lemma AddEmittedHash_wanted l c c' : emitted_wanted c → is_Some (EmittedHashes c) →
  AddEmittedHash l c = Ok c' → emitted_wanted c' ∧ EmittedAddrs c' = EmittedAddrs c ∧ is_Some (EmittedHashes c').
Proof.
  intros [Ha Hh] [s Hs] E. destruct (AddEmittedHash_exact l c s Hs) as (s' & E' & Hs').
  rewrite E' in E. simplify_eq. split; [|by split]. split; simpl; [done|].
  intros ? a [= <-] [Hin|(_ & Hw & _)]%Hs'; [by eapply Hh|done].
Qed.

End Emitted.
