(* ===== verification/ContractDB.v ===== *)
(** * The repositories of the contract watcher
    (pkg/eth/contract_watcher/header/repository, shared/repository,
    header/retriever, shared/retriever)

    The watcher adds to the schema at run time: a column of checked_headers for
    every event and method it watches, a schema for every contract, and a table
    for every event and method.  The names of what it has added are cached. *)

From S2P Require Import Prelude GoInt ChainTypes Geth Sql Queries BlockChain HeaderSync EventLogs Memory ContractTypes.

(** ** github.com/hashicorp/golang-lru: a cache of keys *)

Class LRU := {
  lru : Type;
  lru_New : nat → lru;
  lru_Get : string → lru → bool * lru;      (* found, and the cache with the key used most recently *)
  lru_Add : string → lru → lru
}.

(** Documented behaviour: the cache may forget keys but never makes them up. *)
Class LRULaws `{LRU} := {
  lru_New_empty : ∀ n k, (lru_Get k (lru_New n)).1 = false;
  lru_Get_only : ∀ k k' c, (lru_Get k' (lru_Get k c).2).1 = true → (lru_Get k' c).1 = true;
  lru_Add_only : ∀ k k' c, (lru_Get k' (lru_Add k c)).1 = true → k' = k ∨ (lru_Get k' c).1 = true
}.

(** ** Tables *)

(** A row of checked_headers; the columns added at run time hold counts. *)
Record check_row : Type := mkCheck { ck_ID : Z; ck_HeaderID : Z; ck_Counts : gmap string Z }.

(** A row of the table of an event: [er_LogID] is header_id in header mode and
    vulcanize_log_id in full mode; block and tx are columns of full mode. *)
Record event_row : Type := mkEventRow {
  er_ID : Z;
  er_LogID : Z;
  er_TokenName : string;
  er_Raw : bytes;
  er_LogIdx : Z;
  er_TxIdx : Z;
  er_Block : Z;
  er_Tx : string;
  er_Values : gmap string string
}.

Record event_table : Type := mkEventTable { et_Columns : list (string * string); et_Rows : list event_row }.

Record method_row : Type := mkMethodRow {
  mr_ID : Z; mr_TokenName : string; mr_Block : Z; mr_Args : gmap string string; mr_Returned : string }.

Record method_table : Type := mkMethodTable { mt_Columns : list (string * string); mt_Rows : list method_row }.

(** Tables are named by schema and table; no migration creates full_sync_logs. *)
Record ContractDB : Type := mkContractDB {
  c_headers : list header_row;
  check_columns : gset string;
  checked_headers : list check_row;
  c_schemas : gset string;
  event_tables : gmap (string * string) event_table;
  method_tables : gmap (string * string) method_table;
  full_sync_logs : option (gset Z)
}.

Definition set_columns (cs : gset string) (d : ContractDB) : ContractDB :=
  mkContractDB (c_headers d) cs (checked_headers d) (c_schemas d) (event_tables d) (method_tables d) (full_sync_logs d).
Definition set_checked (l : list check_row) (d : ContractDB) : ContractDB :=
  mkContractDB (c_headers d) (check_columns d) l (c_schemas d) (event_tables d) (method_tables d) (full_sync_logs d).
Definition set_schemas (s : gset string) (d : ContractDB) : ContractDB :=
  mkContractDB (c_headers d) (check_columns d) (checked_headers d) s (event_tables d) (method_tables d) (full_sync_logs d).
Definition set_event_tables (ts : gmap (string * string) event_table) (d : ContractDB) : ContractDB :=
  mkContractDB (c_headers d) (check_columns d) (checked_headers d) (c_schemas d) ts (method_tables d) (full_sync_logs d).
Definition set_method_tables (ts : gmap (string * string) method_table) (d : ContractDB) : ContractDB :=
  mkContractDB (c_headers d) (check_columns d) (checked_headers d) (c_schemas d) (event_tables d) ts (full_sync_logs d).

(** ** Memory of the watcher: caches, contracts and settings of the transformer

    The contracts are shared by the transformer, the converter and the poller;
    [iterations] counts the iterations over maps so far, whose order differs
    from one to the next. *)
Record Watcher `{LRU} : Type := mkWatcher {
  columns : lru;                            (* headerRepository *)
  ev_schemas : lru;                         (* eventRepository *)
  ev_tables : lru;
  met_schemas : lru;                        (* methodRepository *)
  met_tables : lru;
  Contracts : gmap string Contract;         (* Transformer *)
  contractAddresses : list string;
  sortedEventIds : gmap string (list string);
  sortedMethodIds : gmap string (list string);
  eventIds : list string;
  eventFilters : list bytes;
  Start : Z;
  tr_Parser : parser;
  iterations : nat
}.

Section Repositories.
Context `{LRU}.
Context (Node_ID : string).

Definition set_header_cache (c : lru) (w : Watcher) : Watcher :=
  mkWatcher _ c (ev_schemas w) (ev_tables w) (met_schemas w) (met_tables w) (Contracts w) (contractAddresses w)
    (sortedEventIds w) (sortedMethodIds w) (eventIds w) (eventFilters w) (Start w) (tr_Parser w) (iterations w).
Definition set_event_caches (cs ct : lru) (w : Watcher) : Watcher :=
  mkWatcher _ (columns w) cs ct (met_schemas w) (met_tables w) (Contracts w) (contractAddresses w)
    (sortedEventIds w) (sortedMethodIds w) (eventIds w) (eventFilters w) (Start w) (tr_Parser w) (iterations w).
Definition set_method_caches (cs ct : lru) (w : Watcher) : Watcher :=
  mkWatcher _ (columns w) (ev_schemas w) (ev_tables w) cs ct (Contracts w) (contractAddresses w)
    (sortedEventIds w) (sortedMethodIds w) (eventIds w) (eventFilters w) (Start w) (tr_Parser w) (iterations w).

Abbreviation M := (MDB Watcher ContractDB).

(** ** header_repository.go *)

(** An identifier that is not quoted is folded to lower case. *)
Definition ident (id : string) : string := ToLower id.

Definition err_column : error := Driver "pq: column does not exist".
Definition err_twice : error := Driver "pq: column specified more than once".
Definition err_syntax : error := Driver "pq: syntax error".
Definition err_relation : error := Driver "pq: relation does not exist".
Definition err_schema : error := Driver "pq: schema does not exist".
Definition err_not_null : error := Driver "pq: null value violates not-null constraint".

Definition CheckCache (key : string) : M bool :=
  m_run (λ w, let '(ok, c) := lru_Get key (columns w) in (Ok ok, set_header_cache c w)).

Definition AddCheckColumn (id : string) : M unit :=
  ok <== CheckCache id ;;
  if ok : bool then m_ret tt
  else
    m_db (modify_auto (λ d, set_columns ({[ident id]} ∪ check_columns d) d)) ;==;
    m_modify (λ w, set_header_cache (lru_Add id (columns w)) w).

(** One ALTER TABLE for the identifiers that are not cached. *)
Definition AddCheckColumns (ids : list string) : M unit :=
  found <== m_collect CheckCache ids ;;
  let input := map fst (filter (λ p, p.2 = false) (zip ids found)) in
  if (0 <? length input)%nat then
    m_db (modify_auto (λ d, set_columns (list_to_set (map ident input) ∪ check_columns d) d)) ;==;
    m_for (λ id, m_modify (λ w, set_header_cache (lru_Add id (columns w)) w)) input
  else m_ret tt.

(** [id = checked_headers.id + 1] for all of the columns. *)
Definition count_up (ids : list string) (counts : gmap string Z) : gmap string Z :=
  foldr (λ id m, <[id := default 0 (counts !! id) + 1]> m) counts ids.

Definition c_has_header (headerID : Z) (d : ContractDB) : bool :=
  existsb (λ r, bool_decide (hr_ID r = headerID)) (c_headers d).

(** [INSERT INTO checked_headers (header_id, ids...) VALUES ($1, 1...) ON
    CONFLICT (header_id) DO UPDATE ...]; the list of columns may not repeat one.
    A header_id that conflicts exists, so the foreign key is only checked for
    a new row. *)
Definition mark_query (headerID : Z) (ids : list string) (d : ContractDB) (q : gmap string Z)
    : result (unit * ContractDB) * gmap string Z :=
  let cols := map ident ids in
  if negb (bool_decide (NoDup cols)) then (Err err_twice, q)
  else if negb (forallb (λ c, bool_decide (c ∈ check_columns d)) cols) then (Err err_column, q)
  else
    let '(_, rows, q) := upsert_rows "public.checked_headers"
      (λ r, bool_decide (ck_HeaderID r = headerID))
      (λ id, mkCheck id headerID (count_up cols ∅))
      (λ r, mkCheck (ck_ID r) (ck_HeaderID r) (count_up cols (ck_Counts r)))
      ck_ID (checked_headers d) q in
    if existsb (λ r, bool_decide (ck_HeaderID r = headerID)) (checked_headers d) || c_has_header headerID d
    then (Ok (tt, set_checked rows d), q) else (Err err_fk, q).

Definition MarkHeaderChecked (headerID : Z) (id : string) : DB ContractDB unit :=
  exec_auto_check (mark_query headerID [id]).

(** Without identifiers the texts are cut in the wrong places. *)
Definition mark_all (headerID : Z) (ids : list string) (d : ContractDB) (q : gmap string Z)
    : result (unit * ContractDB) * gmap string Z :=
  if (length ids =? 0)%nat then (Err err_syntax, q) else mark_query headerID ids d q.

Definition MarkHeaderCheckedForAll (headerID : Z) (ids : list string) : DB ContractDB unit :=
  exec_auto_check (mark_all headerID ids).

Definition MarkHeadersCheckedForAll (headers : list Header) (ids : list string) : DB ContractDB unit :=
  transact (db_for (λ header, exec_check (mark_all (hd_ID header) ids)) headers).

(** [headers LEFT JOIN checked_headers ON headers.id = header_id] *)
Definition left_join (d : ContractDB) : list (header_row * option check_row) :=
  h ← c_headers d;
  match filter (λ c, ck_HeaderID c = hr_ID h) (checked_headers d) with
  | [] => [(h, None)]
  | cs => map (λ c, (h, Some c)) cs
  end.

Definition count_of (id : string) (c : check_row) : Z := default 0 (ck_Counts c !! ident id).

(** The range and the node, as all three queries end. *)
Definition in_range (startingBlockNumber endingBlockNumber : Z) (h : header_row) : bool :=
  (startingBlockNumber <=? hr_BlockNumber h) &&
  ((endingBlockNumber =? -1) || (hr_BlockNumber h <=? endingBlockNumber)) &&
  bool_decide (hr_Fingerprint h = Node_ID).

(** The query over the join; a column that does not exist is an error. *)
Definition join_query (cols : list string) (cond : option check_row → bool) (startingBlockNumber endingBlockNumber : Z)
    : DB ContractDB (list Header) :=
  exec_auto_check (λ d q,
    if forallb (λ c, bool_decide (ident c ∈ check_columns d)) cols then
      (Ok (map scan_header (order_by hr_BlockNumber
         (map fst (filter (λ p, cond p.2 && in_range startingBlockNumber endingBlockNumber p.1) (left_join d)))), d), q)
    else (Err err_column, q)).

(** The consecutive headers a list begins with. *)
Fixpoint continuous_from (previousHeader : Z) (headers : list Header) : list Header :=
  match headers with
  | [] => []
  | header :: headers =>
      if hd_BlockNumber header =? i64_add previousHeader 1
      then header :: continuous_from (i64_add previousHeader 1) headers else []
  end.

Definition continuousHeaders (headers : list Header) : list Header :=
  match headers with
  | [] => []
  | header :: headers => header :: continuous_from (hd_BlockNumber header) headers
  end.

Definition unchecked_in (ids : list string) (c : option check_row) : bool :=
  match c with
  | None => true
  | Some c => existsb (λ id, count_of id c =? 0) ids
  end.

Definition MissingHeaders (startingBlockNumber endingBlockNumber : Z) (id : string) : DB ContractDB (list Header) :=
  headers <-- join_query [id] (unchecked_in [id]) startingBlockNumber endingBlockNumber ;;
  db_ret (continuousHeaders headers).

Definition MissingHeadersForAll (startingBlockNumber endingBlockNumber : Z) (ids : list string)
    : DB ContractDB (list Header) :=
  headers <-- join_query ids (unchecked_in ids) startingBlockNumber endingBlockNumber ;;
  db_ret (continuousHeaders headers).

(** Without method identifiers the text is cut in the wrong place. *)
Definition MissingMethodsCheckedEventsIntersection (startingBlockNumber endingBlockNumber : Z)
    (methodIds eventIds : list string) : DB ContractDB (list Header) :=
  headers <-- (if (length methodIds =? 0)%nat then exec_auto_check (λ d q, (Err err_syntax, q))
               else join_query (eventIds ++ methodIds) (λ c,
                 match c with
                 | None => false
                 | Some c => forallb (λ id, negb (count_of id c =? 0)) eventIds &&
                             forallb (λ id, count_of id c =? 0) methodIds
                 end) startingBlockNumber endingBlockNumber) ;;
  db_ret (continuousHeaders headers).

End Repositories.

(** ** event_repository.go and method_repository.go: schemas and tables *)

Section Tables.
Context `{LRU} `{LogJSON}.
Context (Node_ID : string).

Abbreviation M := (MDB Watcher ContractDB).

Definition schema_name (mode : Mode) (contractAddr : string) : string :=
  Mode_String mode +:+ "_" +:+ ToLower contractAddr.
Definition event_table_name (name : string) : string := ToLower name +:+ "_event".
Definition method_table_name (name : string) : string := ToLower name +:+ "_method".
Definition column_name (name : string) : string := ToLower name +:+ "_".

(** information_schema *)
Definition has_table (id : string * string) (d : ContractDB) : bool :=
  bool_decide (is_Some (event_tables d !! id) ∨ is_Some (method_tables d !! id)).

Definition checkForSchema (mode : Mode) (contractAddr : string) : DB ContractDB bool :=
  select_auto (λ d, bool_decide (schema_name mode contractAddr ∈ c_schemas d)).

Definition newContractSchema (mode : Mode) (contractAddr : string) : DB ContractDB unit :=
  modify_auto (λ d, set_schemas ({[schema_name mode contractAddr]} ∪ c_schemas d) d).

Definition checkForTable (mode : Mode) (contractAddr table : string) : DB ContractDB bool :=
  select_auto (has_table (schema_name mode contractAddr, table)).

(** The caches of one of the two repositories. *)
Record caches : Type := mkCaches {
  get_schemas : Watcher → lru; get_tables : Watcher → lru; set_caches : lru → lru → Watcher → Watcher }.
Definition event_caches : caches := mkCaches ev_schemas ev_tables set_event_caches.
Definition method_caches : caches := mkCaches met_schemas met_tables set_method_caches.

Definition get_schema_cache (cs : caches) (key : string) : M bool :=
  m_run (λ w, let '(ok, c) := lru_Get key (get_schemas cs w) in (Ok ok, set_caches cs c (get_tables cs w) w)).
Definition get_table_cache (cs : caches) (key : string) : M bool :=
  m_run (λ w, let '(ok, c) := lru_Get key (get_tables cs w) in (Ok ok, set_caches cs (get_schemas cs w) c w)).
Definition add_schema_cache (cs : caches) (key : string) : M unit :=
  m_modify (λ w, set_caches cs (lru_Add key (get_schemas cs w)) (get_tables cs w) w).
Definition add_table_cache (cs : caches) (key : string) : M unit :=
  m_modify (λ w, set_caches cs (get_schemas cs w) (lru_Add key (get_tables cs w)) w).

(** Both repositories check the cache, then the database, then create; the
    method repository returns the errors as they are, and nothing reads them. *)
Definition create_schema (cs : caches) (mode : Mode) (contractAddr : string) : M bool :=
  if bool_decide (contractAddr = "") then m_fail (Errorf "error: no contract address specified")
  else
    ok <== get_schema_cache cs contractAddr ;;
    if ok : bool then m_ret false
    else
      schemaExists <== m_wrap "error checking for schema" (m_db (checkForSchema mode contractAddr)) ;;
      (if schemaExists : bool then m_ret tt
       else m_wrap "error creating schema" (m_db (newContractSchema mode contractAddr))) ;==;
      add_schema_cache cs contractAddr ;==;
      m_ret (negb schemaExists).

Definition create_table (cs : caches) (mode : Mode) (contractAddr table : string) (new : DB ContractDB unit) : M bool :=
  let tableID := schema_name mode contractAddr +:+ "." +:+ table in
  ok <== get_table_cache cs tableID ;;
  if ok : bool then m_ret false
  else
    tableExists <== m_wrap "error checking for table" (m_db (checkForTable mode contractAddr table)) ;;
    (if tableExists : bool then m_ret tt else m_wrap "error creating table" (m_db new)) ;==;
    add_table_cache cs tableID ;==;
    m_ret (negb tableExists).

Definition field_columns (fields : list Field) : list (string * string) :=
  map (λ f, (column_name (f_Name f), f_PgType f)) fields.

(** CREATE TABLE IF NOT EXISTS: the columns of the fields end with an
    underscore, the others do not. *)
Definition create_query (id : string * string) (cols : list (string * string)) (references_ok : ContractDB → bool)
    (add : ContractDB → ContractDB) (d : ContractDB) (q : gmap string Z)
    : result (unit * ContractDB) * gmap string Z :=
  if negb (bool_decide (id.1 ∈ c_schemas d)) then (Err err_schema, q)
  else if has_table id d then (Ok (tt, d), q)
  else if negb (bool_decide (NoDup (map fst cols))) then (Err err_twice, q)
  else if negb (references_ok d) then (Err err_relation, q)
  else (Ok (tt, add d), q).

Definition add_event_table (id : string * string) (cols : list (string * string)) (d : ContractDB) : ContractDB :=
  set_event_tables (<[id := mkEventTable cols []]> (event_tables d)) d.
Definition add_method_table (id : string * string) (cols : list (string * string)) (d : ContractDB) : ContractDB :=
  set_method_tables (<[id := mkMethodTable cols []]> (method_tables d)) d.

Definition newEventTable (mode : Mode) (id : string * string) (event : Event) : DB ContractDB unit :=
  let cols := field_columns (ev_Fields event) in
  match mode with
  | FullSyncMode => exec_auto_check (create_query id cols (λ d, bool_decide (is_Some (full_sync_logs d)))
                      (add_event_table id cols))
  | HeaderSyncMode => exec_auto_check (create_query id cols (λ _, true) (add_event_table id cols))
  | OtherMode _ => db_fail (Errorf "unhandled repository mode")
  end.

(** [method.Return[0]] *)
Definition newMethodTable (id : string * string) (method : Method) : DB ContractDB unit :=
  match met_Return method with
  | [] => λ o s, (DPanic "index out of range [0] with length 0", s)
  | ret :: _ =>
      let cols := field_columns (met_Args method) ++ [("returned", f_PgType ret)] in
      exec_auto_check (create_query id cols (λ _, true) (add_method_table id cols))
  end.

Definition CreateContractSchema (mode : Mode) (contractAddr : string) : M bool :=
  create_schema event_caches mode contractAddr.

Definition CreateEventTable (mode : Mode) (contractAddr : string) (event : Event) : M bool :=
  create_table event_caches mode contractAddr (event_table_name (ev_Name event))
    (newEventTable mode (schema_name mode contractAddr, event_table_name (ev_Name event)) event).

(** The same in methodRepository. *)
Definition method_CreateContractSchema (mode : Mode) (contractAddr : string) : M bool :=
  create_schema method_caches mode contractAddr.

Definition CreateMethodTable (mode : Mode) (contractAddr : string) (method : Method) : M bool :=
  create_table method_caches mode contractAddr (method_table_name (met_Name method))
    (newMethodTable (schema_name mode contractAddr, method_table_name (met_Name method)) method).

(** ** Insertions *)

(** A statement names the columns it sets: each once, each one of the table,
    and all of those that are not null. *)
Definition columns_error (names : list string) (cols : list (string * string)) : option error :=
  if negb (forallb (λ n, bool_decide (n ∈ map fst cols)) names) then Some err_column
  else if negb (bool_decide (NoDup names)) then Some err_twice
  else if negb (forallb (λ n, bool_decide (n ∈ names)) (map fst cols)) then Some err_not_null
  else None.

Definition row_of (mode : Mode) (event : Log) (contractName : string) (id : Z) : event_row :=
  let values := list_to_map (map (λ kv, (column_name kv.1, kv.2)) (map_to_list (l_Values event))) in
  match mode with
  | FullSyncMode => mkEventRow id (l_ID event) contractName [] 0 0 (l_Block event) (l_Tx event) values
  | _ => mkEventRow id (l_ID event) contractName (l_Raw event) (l_LogIndex event) (l_TransactionIndex event) 0 "" values
  end.

(** The unique key of the tables of a mode. *)
Definition event_key (mode : Mode) (r : event_row) : Z * Z * Z :=
  match mode with
  | FullSyncMode => (er_LogID r, 0, 0)
  | _ => (er_LogID r, er_TxIdx r, er_LogIdx r)
  end.

Definition referenced (mode : Mode) (logID : Z) (d : ContractDB) : bool :=
  match mode with
  | FullSyncMode => match full_sync_logs d with Some ids => bool_decide (logID ∈ ids) | None => false end
  | _ => c_has_header logID d
  end.

(** INSERT ... ON CONFLICT DO NOTHING; a row that conflicts is dropped before
    its foreign key is checked. *)
Definition insert_log (mode : Mode) (tid : string * string) (contractName : string) (event : Log)
    (d : ContractDB) (q : gmap string Z) : result (unit * ContractDB) * gmap string Z :=
  match event_tables d !! tid with
  | None => (Err err_relation, q)
  | Some t =>
      match columns_error (map (λ kv, column_name kv.1) (map_to_list (l_Values event))) (et_Columns t) with
      | Some e => (Err e, q)
      | None =>
          let key := event_key mode (row_of mode event contractName 0) in
          let '(ids, rows, q) := insert_ignore (tid.1 +:+ "." +:+ tid.2)
            (λ r, bool_decide (event_key mode r = key)) (row_of mode event contractName) (et_Rows t) q in
          if (length ids =? 0)%nat || referenced mode (l_ID event) d
          then (Ok (tt, set_event_tables (<[tid := mkEventTable (et_Columns t) rows]> (event_tables d)) d), q)
          else (Err err_fk, q)
      end
  end.

Definition event_table_id (mode : Mode) (contractAddr name : string) : string * string :=
  (schema_name mode contractAddr, event_table_name name).

Definition persistHeaderSyncLogs (logs : list Log) (eventInfo : Event) (contractAddr contractName : string)
    : DB ContractDB unit :=
  transact (db_for (λ event, exec_check
    (insert_log HeaderSyncMode (event_table_id HeaderSyncMode contractAddr (ev_Name eventInfo)) contractName event)) logs).

Definition persistFullSyncLogs (logs : list Log) (eventInfo : Event) (contractAddr contractName : string)
    : DB ContractDB unit :=
  transact (db_for (λ event, exec_check
    (insert_log FullSyncMode (event_table_id FullSyncMode contractAddr (ev_Name eventInfo)) contractName event)) logs).

Definition persistLogs (mode : Mode) (logs : list Log) (eventInfo : Event) (contractAddr contractName : string)
    : DB ContractDB unit :=
  match mode with
  | HeaderSyncMode => persistHeaderSyncLogs logs eventInfo contractAddr contractName
  | FullSyncMode => persistFullSyncLogs logs eventInfo contractAddr contractName
  | OtherMode _ => db_fail (Errorf "event repository error: unhandled mode")
  end.

Definition PersistLogs (mode : Mode) (logs : list Log) (eventInfo : Event) (contractAddr contractName : string)
    : M unit :=
  if (length logs =? 0)%nat then m_fail (Errorf "event repository error: passed empty logs slice")
  else
    m_wrap "error creating schema for contract" (CreateContractSchema mode contractAddr) ;==;
    m_wrap "error creating table for event" (CreateEventTable mode contractAddr eventInfo) ;==;
    m_db (persistLogs mode logs eventInfo contractAddr contractName).

(** [data = append(data, result.Inputs[i])] for every argument. *)
Definition method_data (result : MethodResult) : option (list (string * string)) :=
  if (length (met_Args (res_Method result)) <=? length (res_Inputs result))%nat
  then Some (zip_with (λ arg input, (column_name (f_Name arg), input)) (met_Args (res_Method result)) (res_Inputs result))
  else None.

Definition insert_result (tid : string * string) (contractName : string) (result : MethodResult)
    (data : list (string * string)) (d : ContractDB) (q : gmap string Z)
    : Prelude.result (unit * ContractDB) * gmap string Z :=
  match method_tables d !! tid with
  | None => (Err err_relation, q)
  | Some t =>
      match columns_error (map fst data ++ ["returned"]) (mt_Columns t) with
      | Some e => (Err e, q)
      | None =>
          let '(id, q) := nextval (tid.1 +:+ "." +:+ tid.2) q in
          let row := mkMethodRow id contractName (res_Block result) (list_to_map data) (res_Output result) in
          (Ok (tt, set_method_tables (<[tid := mkMethodTable (mt_Columns t) (mt_Rows t ++ [row])]> (method_tables d)) d), q)
      end
  end.

(** The table is the one of the result's own method. *)
Definition persist_result (mode : Mode) (contractAddr contractName : string) (result : MethodResult)
    : DB ContractDB unit :=
  match method_data result with
  | None => λ o s, (DPanic "index out of range", s)
  | Some data =>
      exec_check (insert_result (schema_name mode contractAddr, method_table_name (met_Name (res_Method result)))
        contractName result data)
  end.

Definition persistResults (mode : Mode) (results : list MethodResult) (contractAddr contractName : string)
    : DB ContractDB unit :=
  transact (db_for (persist_result mode contractAddr contractName) results).

Definition PersistResults (mode : Mode) (results : list MethodResult) (methodInfo : Method)
    (contractAddr contractName : string) : M unit :=
  if (length results =? 0)%nat then m_fail (Errorf "method repository error: passed empty results slice")
  else
    method_CreateContractSchema mode contractAddr ;==;
    CreateMethodTable mode contractAddr methodInfo ;==;
    m_db (persistResults mode results contractAddr contractName).

(** ** header/retriever/block_retriever.go *)

(** The columns are scanned into an int. *)
Definition RetrieveFirstBlock : DB ContractDB Z :=
  scan_one (select_auto (λ d, map hr_BlockNumber (order_by hr_BlockNumber (c_headers d)))).

Definition RetrieveMostRecentBlock : DB ContractDB Z :=
  scan_one (select_auto (λ d, map hr_BlockNumber (order_by (λ h, - hr_BlockNumber h) (c_headers d)))).

(** ** shared/retriever/address_retriever.go *)

(** The values of a column; a column or table that does not exist is an error. *)
Definition select_column (tid : string * string) (col : string) : DB ContractDB (list string) :=
  exec_auto_check (λ d q,
    match event_tables d !! tid with
    | Some t =>
        if bool_decide (col ∈ map fst (et_Columns t))
        then (Ok (map (λ r, default "" (er_Values r !! col)) (et_Rows t), d), q)
        else (Err err_column, q)
    | None => (Err err_relation, q)
    end).

(** A contract without the event gives the zero event. *)
Definition event_of (con : Contract) (name : string) : Event :=
  default (mkEvent "" false []) (con_Events con !! name).

Definition retrieve_addresses (mode : Mode) (con : Contract) (event : Event) : DB ContractDB (list string) :=
  lists <-- db_collect (λ field, select_column (event_table_id mode (con_Address con) (ev_Name event))
                          (column_name (f_Name field)))
              (filter (λ field, ty_T (f_Type field) = AddressTy) (ev_Fields event)) ;;
  db_ret (concat lists).

Definition retrieveTransferAddresses (mode : Mode) (con : Contract) : DB ContractDB (list string) :=
  retrieve_addresses mode con (event_of con "Transfer").

Definition retrieveTokenMintees (mode : Mode) (con : Contract) : DB ContractDB (list string) :=
  retrieve_addresses mode con (event_of con "Mint").

Definition RetrieveTokenHolderAddresses `{GethCommon} (mode : Mode) (info : Contract) : DB ContractDB (gset bytes) :=
  transfers <-- (if bool_decide (is_Some (con_Filters info !! "Transfer"))
                 then retrieveTransferAddresses mode info else db_ret []) ;;
  mints <-- (if bool_decide (is_Some (con_Filters info !! "Mint"))
             then retrieveTokenMintees mode info else db_ret []) ;;
  db_ret (list_to_set (map HexToAddress (transfers ++ mints))).

End Tables.

(** ** Lemmas: what the repositories never undo

    [evolves]: settings and headers stay, the contracts keep what they are
    filtered by, schemas, columns and the rows of event tables are only added,
    and the counts of checked headers stay.  Everything but the marking of
    headers evolves the state, whatever the outcome. *)

Definition contract_ext `{GethCommon} (c c' : Contract) : Prop :=
  same_contract c c' ∧ (emitted_wanted c → emitted_wanted c').

#[export] Instance contract_ext_preorder `{GethCommon} : PreOrder contract_ext.
Proof.
  split; [intros c; by split|]. intros c1 c2 c3 [H1 H2] [H3 H4]. split; [by etransitivity|auto].
Qed.

Definition event_tables_ext (ts ts' : gmap (string * string) event_table) : Prop :=
  ∀ tid t, ts !! tid = Some t → ∃ t', ts' !! tid = Some t' ∧ et_Columns t' = et_Columns t ∧
    ∀ r, r ∈ et_Rows t → r ∈ et_Rows t'.

#[export] Instance event_tables_ext_preorder : PreOrder event_tables_ext.
Proof.
  split.
  - intros ts tid t Ht. eauto.
  - intros t1 t2 t3 H12 H23 tid t Ht. destruct (H12 _ _ Ht) as (t' & Ht' & Hc & Hr).
    destruct (H23 _ _ Ht') as (t'' & Ht'' & Hc' & Hr'). exists t''. split_and!; [done|congruence|auto].
Qed.

Definition ext (d d' : ContractDB) : Prop :=
  c_headers d' = c_headers d ∧ checked_headers d' = checked_headers d ∧
  check_columns d ⊆ check_columns d' ∧ c_schemas d ⊆ c_schemas d' ∧
  event_tables_ext (event_tables d) (event_tables d').

#[export] Instance ext_preorder : PreOrder ext.
Proof.
  split.
  - intros d. by split_and!.
  - intros d1 d2 d3 (H1 & H2 & H3 & H4 & H5) (K1 & K2 & K3 & K4 & K5).
    split_and!; [congruence|congruence|by etransitivity..].
Qed.

Definition same_watch `{GethCommon} `{LRU} (w w' : Watcher) : Prop :=
  contractAddresses w' = contractAddresses w ∧ eventFilters w' = eventFilters w ∧ eventIds w' = eventIds w ∧
  sortedMethodIds w' = sortedMethodIds w ∧
  ∀ a, match Contracts w !! a, Contracts w' !! a with
       | Some c, Some c' => contract_ext c c'
       | None, None => True
       | _, _ => False
       end.

#[export] Instance same_watch_preorder `{GethCommon} `{LRU} : PreOrder same_watch.
Proof.
  split.
  - intros w. split_and!; [done..|]. intros a. by destruct (Contracts w !! a).
  - intros w1 w2 w3 (H1 & H2 & H3 & H4 & H5) (K1 & K2 & K3 & K4 & K5).
    split_and!; [congruence..|]. intros a. specialize (H5 a). specialize (K5 a).
    destruct (Contracts w1 !! a), (Contracts w2 !! a), (Contracts w3 !! a); try done. by etransitivity.
Qed.

Definition evolves `{GethCommon} `{LRU} (p p' : Watcher * ContractDB) : Prop :=
  same_watch p.1 p'.1 ∧ ext p.2 p'.2.

#[export] Instance evolves_preorder `{GethCommon} `{LRU} : PreOrder evolves.
Proof.
  split; [intros p; by split|]. intros p1 p2 p3 [H1 H2] [H3 H4]. split; by etransitivity.
Qed.

Section Evolves.
Context `{GethCommon} `{LRU}.

(** Watchers that agree on what [same_watch] compares. *)
Lemma same_watch_eq w w' :
  contractAddresses w' = contractAddresses w → eventFilters w' = eventFilters w → eventIds w' = eventIds w →
  sortedMethodIds w' = sortedMethodIds w → Contracts w' = Contracts w → same_watch w w'.
Proof.
  intros H1 H2 H3 H4 H5. split_and!; [done..|]. intros a. rewrite H5. by destruct (Contracts w !! a).
Qed.

Lemma evolves_db {A} (f : DB ContractDB A) : moves ext f → m_moves evolves (m_db f).
Proof. intros Hf. apply m_moves_db. intros m o s. split; [done|apply Hf]. Qed.

Lemma ext_columns d cs : check_columns d ⊆ cs → ext d (set_columns cs d).
Proof. intros; unfold ext; by split_and!. Qed.

Lemma ext_schemas d ss : c_schemas d ⊆ ss → ext d (set_schemas ss d).
Proof. intros; unfold ext; by split_and!. Qed.

Lemma ext_methods d ts : ext d (set_method_tables ts d).
Proof. intros; unfold ext; by split_and!. Qed.

Lemma ext_event_table d tid t :
  (∀ t0, event_tables d !! tid = Some t0 → et_Columns t = et_Columns t0 ∧ ∀ r, r ∈ et_Rows t0 → r ∈ et_Rows t) →
  ext d (set_event_tables (<[tid := t]> (event_tables d)) d).
Proof.
  intros Ht. split_and!; try done. intros tid' t' Ht'. simpl. destruct (decide (tid' = tid)) as [->|Hne].
  - rewrite lookup_insert_eq. exists t. by destruct (Ht _ Ht').
  - rewrite lookup_insert_ne by done. eauto.
Qed.

Lemma insert_ignore_rows {R} name (c : R → bool) row rows q ids rows' q' :
  insert_ignore name c row rows q = (ids, rows', q') →
  (∀ r, r ∈ rows → r ∈ rows') ∧ ((∃ r, r ∈ rows ∧ c r = true) ∨ row (default 0 (q !! name) + 1) ∈ rows').
Proof.
  unfold insert_ignore, nextval. simpl. destruct (existsb c rows) eqn:E; intros [= <- <- <-].
  - split; [done|left]. apply existsb_exists in E as (r & Hr%list_elem_of_In & Hc). eauto.
  - split; set_solver.
Qed.

Lemma insert_log_moves mode tid name event d q a d' :
  (insert_log mode tid name event d q).1 = Ok (a, d') → ext d d'.
Proof.
  unfold insert_log. destruct (event_tables d !! tid) as [t|] eqn:Et; [|done].
  destruct (columns_error _ _); [done|].
  destruct (insert_ignore _ _ _ _ _) as [[ids rows] q'] eqn:E. apply insert_ignore_rows in E as [Hr _].
  case_match; intros [= _ <-]. apply ext_event_table. intros t0 Ht0. simplify_eq. by split.
Qed.

Lemma create_query_moves id cols ok add d q a d' :
  (∀ d, has_table id d = false → ext d (add d)) →
  (create_query id cols ok add d q).1 = Ok (a, d') → ext d d'.
Proof.
  intros Hadd. unfold create_query. destruct (negb (bool_decide (id.1 ∈ c_schemas d))); [done|].
  destruct (has_table id d) eqn:Eh; [by intros [= _ <-]|].
  destruct (negb _); [done|]. destruct (negb _); [done|]. intros [= _ <-]. by apply Hadd.
Qed.

Lemma has_table_false id d : has_table id d = false →
  event_tables d !! id = None ∧ method_tables d !! id = None.
Proof.
  unfold has_table. rewrite bool_decide_eq_false. intros Hn.
  split; apply eq_None_not_Some; intros Hs; apply Hn; auto.
Qed.

Lemma add_event_table_moves id cols d : has_table id d = false → ext d (add_event_table id cols d).
Proof. intros [He _]%has_table_false. apply ext_event_table. intros t0. by rewrite He. Qed.

Lemma newEventTable_moves mode id event : moves ext (newEventTable mode id event).
Proof.
  unfold newEventTable. destruct mode; [| |by apply moves_fail; apply _].
  all: apply moves_exec_auto_check; [apply _|]; intros t q a t' E.
  all: eapply create_query_moves; [|exact E]; intros d; apply add_event_table_moves.
Qed.

Lemma newMethodTable_moves id m : moves ext (newMethodTable id m).
Proof.
  unfold newMethodTable. case_match; [by intros o s|].
  apply moves_exec_auto_check; [apply _|]. intros t q a t' E.
  eapply create_query_moves; [|exact E]. intros d _. apply ext_methods.
Qed.

(** The settings of a pair of caches leave the watch alone. *)
Definition caches_ok (cs : caches) : Prop := ∀ c1 c2 w, same_watch w (set_caches cs c1 c2 w).

Lemma event_caches_ok : caches_ok event_caches.
Proof. intros c1 c2 w. by apply same_watch_eq. Qed.
Lemma method_caches_ok : caches_ok method_caches.
Proof. intros c1 c2 w. by apply same_watch_eq. Qed.

Lemma create_schema_moves cs mode addr : caches_ok cs → m_moves evolves (create_schema cs mode addr).
Proof.
  intros Hcs. unfold create_schema. case_bool_decide; [solve_moves|].
  apply m_moves_bind; [apply _| |intros []; [solve_moves|]].
  { apply m_moves_run. intros w t. destruct (lru_Get _ _). split; [apply Hcs|done]. }
  apply m_moves_bind; [apply _| |intros ex].
  { apply m_moves_wrap, evolves_db, moves_select_auto; apply _. }
  apply m_moves_bind; [apply _| |intros _].
  - destruct ex; [solve_moves|]. apply m_moves_wrap, evolves_db, moves_modify_auto; [apply _|].
    intros d. apply ext_schemas. set_solver.
  - apply m_moves_bind; [apply _| |intros _; solve_moves].
    apply m_moves_modify. intros w t. split; [apply Hcs|done].
Qed.

Lemma create_table_moves cs mode addr table new : caches_ok cs → moves ext new →
  m_moves evolves (create_table cs mode addr table new).
Proof.
  intros Hcs Hnew. unfold create_table.
  apply m_moves_bind; [apply _| |intros []; [solve_moves|]].
  { apply m_moves_run. intros w t. destruct (lru_Get _ _). split; [apply Hcs|done]. }
  apply m_moves_bind; [apply _| |intros ex].
  { apply m_moves_wrap, evolves_db, moves_select_auto; apply _. }
  apply m_moves_bind; [apply _| |intros _].
  - destruct ex; [solve_moves|]. by apply m_moves_wrap, evolves_db.
  - apply m_moves_bind; [apply _| |intros _; solve_moves].
    apply m_moves_modify. intros w t. split; [apply Hcs|done].
Qed.

End Evolves.

(** ** Lemmas: persisting logs *)

Section Persist.
Context `{GethCommon} `{LRU}.

(** The table has the row of a log: of its header, transaction and position. *)
Definition log_stored (tid : string * string) (l : Log) (d : ContractDB) : Prop :=
  ∃ t r, event_tables d !! tid = Some t ∧ r ∈ et_Rows t ∧
    event_key HeaderSyncMode r = (l_ID l, l_TransactionIndex l, l_LogIndex l).

Lemma log_stored_ext tid l d d' : ext d d' → log_stored tid l d → log_stored tid l d'.
Proof.
  intros (_ & _ & _ & _ & Ht) (t & r & Et & Hr & Hk).
  destruct (Ht _ _ Et) as (t' & Et' & _ & Hin). exists t', r. auto.
Qed.

Lemma persist_loop_moves mode tid name logs :
  moves ext (db_for (λ event, exec_check (insert_log mode tid name event)) logs).
Proof.
  apply moves_for; [apply _|]. intros l. apply moves_exec_check; [apply _|].
  intros d q [] d'. apply insert_log_moves.
Qed.

Lemma insert_log_stored tid name l d q d' q' :
  insert_log HeaderSyncMode tid name l d q = (Ok (tt, d'), q') → log_stored tid l d'.
Proof.
  unfold insert_log. destruct (event_tables d !! tid) as [t|] eqn:Et; [|done].
  destruct (columns_error _ _); [done|].
  destruct (insert_ignore _ _ _ _ _) as [[ids rows] q0] eqn:E. apply insert_ignore_rows in E as [Hold Hr].
  case_match; [|done]. intros [= <- _].
  assert (∃ r, r ∈ rows ∧ event_key HeaderSyncMode r = (l_ID l, l_TransactionIndex l, l_LogIndex l))
    as (r & Hin & Hk).
  { destruct Hr as [(r & Hr & Hk%bool_decide_eq_true)|Hr]; eauto. }
  exists (mkEventTable (et_Columns t) rows), r. simpl. by rewrite lookup_insert_eq.
Qed.

Lemma persist_loop_stored tid name logs : ∀ o s s',
  db_for (λ event, exec_check (insert_log HeaderSyncMode tid name event)) logs o s = (DOk tt, s') →
  ∀ l, l ∈ logs → log_stored tid l (tables s').
Proof.
  induction logs as [|l logs IH]; intros o s s' E l' Hl'; [by apply elem_of_nil in Hl'|].
  simpl in E. unfold db_bind in E.
  destruct (exec_check (insert_log HeaderSyncMode tid name l) o s) as [[[]|? ?|?] s1] eqn:E1; [|done..].
  apply elem_of_cons in Hl' as [->|Hl']; [|by eapply IH].
  eapply log_stored_ext.
  - pose proof (persist_loop_moves HeaderSyncMode tid name logs o s1) as Hm. by rewrite E in Hm.
  - unfold exec_check in E1. destruct (aborted s); [done|]. destruct (o (clock s)); [done|].
    destruct (insert_log _ _ _ _ _ _) as [[[[] d]|e|w] q] eqn:Ei; simplify_eq. by eapply insert_log_stored.
Qed.

Lemma PersistLogs_moves mode logs event addr name : m_moves evolves (PersistLogs mode logs event addr name).
Proof.
  unfold PersistLogs. case_match; [solve_moves|].
  apply m_moves_bind; [apply _| |intros _].
  { apply m_moves_wrap, create_schema_moves, event_caches_ok. }
  apply m_moves_bind; [apply _| |intros _].
  { apply m_moves_wrap, create_table_moves; [apply event_caches_ok|apply newEventTable_moves]. }
  apply evolves_db. unfold persistLogs. destruct mode.
  - apply moves_transact, persist_loop_moves; apply _.
  - apply moves_transact, persist_loop_moves; apply _.
  - apply moves_fail; apply _.
Qed.

(** Logs that were persisted are in the table of the event. *)
Lemma PersistLogs_stored logs event addr name :
  achieves (λ _ _, True) (PersistLogs HeaderSyncMode logs event addr name)
    (λ _ _ d, ∀ l, l ∈ logs → log_stored (event_table_id HeaderSyncMode addr (ev_Name event)) l d).
Proof.
  unfold PersistLogs. case_match; [by intros o m s a m' s' _|].
  apply achieves_bind with (Q := λ _ _ _, True); [by intros o m s a m' s' _ _|intros _].
  apply achieves_bind with (Q := λ _ _ _, True); [by intros o m s a m' s' _ _|intros _].
  intros o m s [] m' s' _. unfold m_db, persistLogs, persistHeaderSyncLogs.
  destruct (transact _ o s) as [r s1] eqn:E. intros [= -> -> ->].
  apply transact_ok in E as (s2 & s3 & _ & _ & E & ->). by eapply persist_loop_stored.
Qed.

Lemma insert_result_moves tid name r data d q a d' :
  (insert_result tid name r data d q).1 = Ok (a, d') → ext d d'.
Proof.
  unfold insert_result. destruct (method_tables d !! tid); [|done].
  destruct (columns_error _ _); [done|]. destruct (nextval _ q). intros [= _ <-]. apply ext_methods.
Qed.

Lemma PersistResults_moves mode results m addr name : m_moves evolves (PersistResults mode results m addr name).
Proof.
  unfold PersistResults. case_match; [solve_moves|].
  apply m_moves_bind; [apply _| |intros _].
  { apply create_schema_moves, method_caches_ok. }
  apply m_moves_bind; [apply _| |intros _].
  { apply create_table_moves; [apply method_caches_ok|apply newMethodTable_moves]. }
  apply evolves_db. apply moves_transact; [apply _|]. apply moves_for; [apply _|]. intros r.
  unfold persist_result. destruct (method_data r); [|by intros o s].
  apply moves_exec_check; [apply _|]. intros d q a d'. apply insert_result_moves.
Qed.

Lemma AddCheckColumn_moves id : m_moves evolves (AddCheckColumn id).
Proof.
  unfold AddCheckColumn, CheckCache. apply m_moves_bind; [apply _| |intros []; [solve_moves|]].
  { apply m_moves_run. intros w t. destruct (lru_Get _ _). split; [by apply same_watch_eq|done]. }
  apply m_moves_bind; [apply _| |intros _].
  - apply evolves_db, moves_modify_auto; [apply _|]. intros d. apply ext_columns. set_solver.
  - apply m_moves_modify. intros w t. split; [by apply same_watch_eq|done].
Qed.

End Persist.

(** ** Lemmas: marking headers *)

Definition count (c : string) (r : check_row) : Z := default 0 (ck_Counts r !! c).

Lemma count_up_lookup cols counts c : NoDup cols →
  count_up cols counts !! c = if decide (c ∈ cols) then Some (default 0 (counts !! c) + 1) else counts !! c.
Proof.
  unfold count_up. intros Hnd.
  assert (Hg : ∀ m : gmap string Z, foldr (λ id m, <[id:=default 0 (counts !! id) + 1]> m) m cols !! c =
    if decide (c ∈ cols) then Some (default 0 (counts !! c) + 1) else m !! c).
  { intros m. induction cols as [|x cols IH]; [done|]. simpl foldr.
    apply NoDup_cons in Hnd as [Hx Hnd]. destruct (decide (c = x)) as [->|Hne].
    - rewrite lookup_insert_eq, decide_True by set_solver. done.
    - rewrite lookup_insert_ne, IH by done.
      destruct (decide (c ∈ cols)), (decide (c ∈ x :: cols)); set_solver. }
  apply Hg.
Qed.

(** The rows after a header was marked: others are as before, the header's
    have their counts raised, and there is one. *)
Lemma mark_all_spec hid ids d q d' q' : mark_all hid ids d q = (Ok (tt, d'), q') →
  ids ≠ [] ∧ NoDup (map ident ids) ∧ (∀ id, id ∈ ids → ident id ∈ check_columns d) ∧
  ∃ rows, d' = set_checked rows d ∧
    (∀ r, r ∈ rows → (r ∈ checked_headers d ∧ ck_HeaderID r ≠ hid) ∨
       (ck_HeaderID r = hid ∧ ∃ old, ck_Counts r = count_up (map ident ids) old ∧
          (old = ∅ ∧ hid ∉ map ck_HeaderID (checked_headers d) ∨
           ∃ r0, r0 ∈ checked_headers d ∧ ck_HeaderID r0 = hid ∧ old = ck_Counts r0))) ∧
    (∀ x, x = hid ∨ x ∈ map ck_HeaderID (checked_headers d) → x ∈ map ck_HeaderID rows).
Proof.
  unfold mark_all, mark_query. destruct (Nat.eqb_spec (length ids) 0) as [|Hl]; [done|].
  destruct (negb (bool_decide (NoDup _))) eqn:En; [done|]. apply negb_false_iff, bool_decide_eq_true in En.
  destruct (negb (forallb _ _)) eqn:Ec; [done|]. apply negb_false_iff in Ec. rewrite forallb_forall in Ec.
  destruct (upsert_rows _ _ _ _ _ _ _) as [[i rows] q0] eqn:Eu. case_match; [|done]. intros [= <- _].
  split; [by destruct ids|]. split; [done|]. split.
  { intros id Hid. apply (bool_decide_eq_true (ident id ∈ check_columns d)), Ec, list_elem_of_In.
    by apply list_elem_of_fmap_2. }
  exists rows. split; [done|]. unfold upsert_rows in Eu. destruct (nextval _ q) as [n q1].
  destruct (list_find _ _) as [[j r0]|] eqn:Ef; simplify_eq.
  - apply list_find_Some in Ef as (Hj & Hc%Is_true_true & _). apply bool_decide_eq_true in Hc.
    apply list_elem_of_lookup_2 in Hj. split.
    + intros r (x & -> & Hx)%list_elem_of_fmap. case_bool_decide as Hh; [right|by left].
      split; [done|]. exists (ck_Counts x). split; [done|right]. by exists x.
    + intros x Hx. rewrite map_map. assert (Hin : x ∈ map ck_HeaderID (checked_headers d)).
      { destruct Hx as [->|]; [|done]. rewrite <- Hc. by apply list_elem_of_fmap_2. }
      apply list_elem_of_fmap in Hin as (y & -> & Hy). apply list_elem_of_fmap. exists y. split; [|done].
      by case_bool_decide.
  - apply list_find_None in Ef. rewrite Forall_forall in Ef. split.
    + intros r [Hr|Hr%list_elem_of_singleton]%elem_of_app.
      * left. split; [done|]. intros He. apply (Ef r Hr). by rewrite bool_decide_eq_true_2.
      * subst r. right. split; [done|]. exists ∅. split; [done|left]. split; [done|].
        intros (x & Hx & Hin)%list_elem_of_fmap. apply (Ef x Hin). by rewrite bool_decide_eq_true_2.
    + intros x Hx. rewrite map_app, elem_of_app. simpl. set_solver.
Qed.

(** Checked for all of the columns, in every row of the header. *)
Definition checked_all (hid : Z) (cols : list string) (d : ContractDB) : Prop :=
  hid ∈ map ck_HeaderID (checked_headers d) ∧
  ∀ r, r ∈ checked_headers d → ck_HeaderID r = hid → ∀ c, c ∈ cols → 1 ≤ count c r.

Definition counts_ok (d : ContractDB) : Prop :=
  ∀ r c, r ∈ checked_headers d → 0 ≤ count c r.

(** No header is unchecked again. *)
Definition checked_le (d d' : ContractDB) : Prop :=
  (counts_ok d → counts_ok d') ∧ ∀ hid cols, counts_ok d → checked_all hid cols d → checked_all hid cols d'.

#[export] Instance checked_le_preorder : PreOrder checked_le.
Proof.
  split; [by split|]. intros d1 d2 d3 [H1 H2] [H3 H4]. split; [auto|]. intros hid cols Hc Ha. auto.
Qed.

Lemma ext_checked_le d d' : ext d d' → checked_le d d'.
Proof.
  intros (_ & Hc & _). split.
  - intros Ho r c. rewrite Hc. apply Ho.
  - intros hid cols _ [H1 H2]. unfold checked_all. rewrite Hc. by split.
Qed.

Lemma count_up_count cols old r c : NoDup cols → ck_Counts r = count_up cols old →
  count c r = default 0 (old !! c) + (if decide (c ∈ cols) then 1 else 0).
Proof.
  intros Hnd Hr. unfold count. rewrite Hr, count_up_lookup by done. case_decide; simpl; lia.
Qed.

(** The old counts of a marked row are those of a row, or absent. *)
Lemma old_count_nonneg d hid old c : counts_ok d →
  (old = ∅ ∧ hid ∉ map ck_HeaderID (checked_headers d) ∨
           ∃ r0, r0 ∈ checked_headers d ∧ ck_HeaderID r0 = hid ∧ old = ck_Counts r0) →
  0 ≤ default 0 (old !! c).
Proof.
  intros Hc [[-> _]|(r0 & Hr0 & _ & ->)]; [by rewrite lookup_empty|]. by apply (Hc r0 c).
Qed.

Lemma mark_all_checked_le hid ids d q d' q' : mark_all hid ids d q = (Ok (tt, d'), q') →
  checked_le d d' ∧ (counts_ok d → checked_all hid (map ident ids) d').
Proof.
  intros (Hne & Hnd & _ & rows & -> & Hrows & Hids)%mark_all_spec.
  assert (Hok : counts_ok d → counts_ok (set_checked rows d)).
  { intros Hc r c Hr. simpl in Hr.
    destruct (Hrows r Hr) as [[Hr0 _]|(_ & old & Hold & Ho)]; [by apply Hc|].
    rewrite (count_up_count _ _ _ _ Hnd Hold). pose proof (old_count_nonneg d hid old c Hc Ho).
    case_decide; lia. }
  split; [split; [done|]|].
  - intros x cols Hc [Hin Hall]. split; [apply Hids; by right|]. intros r Hr Hx c Hcol. simpl in Hr.
    destruct (Hrows r Hr) as [[Hr0 _]|(Hh & old & Hold & Ho)]; [by eapply Hall|].
    rewrite (count_up_count _ _ _ _ Hnd Hold).
    assert (x = hid) as -> by congruence.
    destruct Ho as [[_ Hn]|(r0 & Hr0 & Hh0 & ->)]; [done|].
    pose proof (Hall r0 Hr0 Hh0 c Hcol) as Hge. unfold count in Hge. case_decide; lia.
  - intros Hc. split; [apply Hids; by left|]. intros r Hr Hx c Hcol. simpl in Hr.
    destruct (Hrows r Hr) as [[_ Hn]|(_ & old & Hold & Ho)]; [done|].
    rewrite (count_up_count _ _ _ _ Hnd Hold), decide_True by done.
    pose proof (old_count_nonneg d hid old c Hc Ho). lia.
Qed.

(** ** Lemmas: missing headers *)

Section Missing.
Context (Node_ID : string).

Lemma elem_of_left_join d h c : (h, c) ∈ left_join d ↔
  h ∈ c_headers d ∧
  match c with
  | None => hr_ID h ∉ map ck_HeaderID (checked_headers d)
  | Some r => r ∈ checked_headers d ∧ ck_HeaderID r = hr_ID h
  end.
Proof.
  unfold left_join. rewrite list_elem_of_bind.
  assert (Hf : ∀ x r, r ∈ filter (λ c, ck_HeaderID c = hr_ID x) (checked_headers d) ↔
    ck_HeaderID r = hr_ID x ∧ r ∈ checked_headers d) by (intros x r; by rewrite list_elem_of_filter).
  split.
  - intros (x & Hin & Hx). destruct (filter _ _) as [|c0 cs] eqn:Ef.
    + apply list_elem_of_singleton in Hin as [= -> ->]. split; [done|].
      intros (r & Hr & Hrin)%list_elem_of_fmap.
      assert (Hn : r ∈ @nil check_row) by (rewrite <- Ef; by apply Hf). by apply elem_of_nil in Hn.
    + apply list_elem_of_fmap in Hin as (r & [= -> ->] & Hr). rewrite <- Ef, Hf in Hr. naive_solver.
  - intros [Hh Hc]. exists h. split; [|done]. destruct c as [r|].
    + destruct Hc as [Hr He]. assert (Hin : r ∈ filter (λ c, ck_HeaderID c = hr_ID h) (checked_headers d)) by by apply Hf.
      destruct (filter _ _) as [|c0 cs] eqn:Ef; [by apply elem_of_nil in Hin|].
      by apply (list_elem_of_fmap_2 (λ c, (h, Some c))).
    + destruct (filter _ _) as [|c0 cs] eqn:Ef; [by left|]. exfalso. apply Hc.
      assert (Hin : c0 ∈ filter (λ c, ck_HeaderID c = hr_ID h) (checked_headers d)) by (rewrite Ef; by left).
      apply Hf in Hin as [He Hin]. rewrite <- He. by apply list_elem_of_fmap_2.
Qed.

(** The candidates of a query, in ascending order of their numbers. *)
Definition candidates (cond : option check_row → bool) (a b : Z) (d : ContractDB) : list header_row :=
  order_by hr_BlockNumber (map fst (filter (λ p, cond p.2 && in_range Node_ID a b p.1) (left_join d))).

Lemma elem_of_candidates cond a b d h : h ∈ candidates cond a b d ↔
  ∃ c, (h, c) ∈ left_join d ∧ cond c = true ∧ in_range Node_ID a b h = true.
Proof.
  unfold candidates. rewrite elem_of_order_by, list_elem_of_fmap. setoid_rewrite list_elem_of_filter. split.
  - intros ([h' c] & -> & Hc & Hin). simpl in *. apply Is_true_true, andb_true_iff in Hc as [H1 H2]. eauto.
  - intros (c & Hin & H1 & H2). exists (h, c). split; [done|]. simpl. by rewrite H1, H2.
Qed.

Lemma join_query_ok cols cond a b o s hs s' :
  join_query Node_ID cols cond a b o s = (DOk hs, s') →
  hs = map scan_header (candidates cond a b (tables s)).
Proof.
  unfold join_query, exec_auto_check. destruct (o (clock s)); [done|].
  destruct (forallb _ cols); [|done]. by intros [= <- _].
Qed.

Lemma join_query_moves cols cond a b : moves ext (join_query Node_ID cols cond a b).
Proof.
  apply moves_exec_auto_check; [apply _|]. intros d q hs d'. destruct (forallb _ cols); [|done].
  by intros [= _ <-].
Qed.

(** The longest run of consecutive numbers a list begins with. *)
Definition consecutive (n : Z) (hs : list Header) : Prop :=
  ∀ i h, hs !! i = Some h → hd_BlockNumber h = n + Z.of_nat i.

Lemma continuous_from_spec l : ∀ n, Forall (λ h, hd_BlockNumber h < 2 ^ 63 - 1) l → - 2 ^ 63 ≤ n < 2 ^ 63 - 1 →
  ∃ rest, l = continuous_from n l ++ rest ∧ consecutive (n + 1) (continuous_from n l) ∧
    (∀ h rest', rest = h :: rest' → hd_BlockNumber h ≠ n + 1 + Z.of_nat (length (continuous_from n l))).
Proof.
  induction l as [|h l IH]; intros n Hl Hn; simpl.
  - exists []. split_and!; [done| |done]. intros i h' Hh'. by rewrite lookup_nil in Hh'.
  - apply Forall_cons in Hl as [Hh Hl]. rewrite (i64_add_id n 1) by (unfold is_i64; lia).
    destruct (Z.eqb_spec (hd_BlockNumber h) (n + 1)) as [He|He].
    + assert (Hrun : ∃ rest, l = continuous_from (n + 1) l ++ rest ∧
        consecutive (n + 1 + 1) (continuous_from (n + 1) l) ∧
        (∀ h rest', rest = h :: rest' → hd_BlockNumber h ≠ n + 1 + 1 + Z.of_nat (length (continuous_from (n + 1) l)))).
      { apply IH; [done|]. lia. }
      destruct Hrun as (rest & H1 & H2 & H3). exists rest. split_and!.
      * simpl. by rewrite <- H1.
      * intros [|i] h' Hi; simpl in Hi; [simplify_eq; lia|]. rewrite (H2 i h' Hi). lia.
      * intros h' rest' Hr. simpl. specialize (H3 h' rest' Hr). lia.
    + exists (h :: l). split_and!; [done| |].
      * intros i h' Hh'. by rewrite lookup_nil in Hh'.
      * intros h' rest' [= <- <-]. simpl. lia.
Qed.

Lemma elem_of_unchecked ids a b d h : h ∈ candidates (unchecked_in ids) a b d ↔
  h ∈ c_headers d ∧ in_range Node_ID a b h = true ∧
  (hr_ID h ∉ map ck_HeaderID (checked_headers d) ∨
   ∃ r id, r ∈ checked_headers d ∧ ck_HeaderID r = hr_ID h ∧ id ∈ ids ∧ count_of id r = 0).
Proof.
  rewrite elem_of_candidates. split.
  - intros (c & [Hh Hc]%elem_of_left_join & Hu & Hr). split_and!; [done..|].
    destruct c as [r|]; [right|by left]. destruct Hc as [Hr1 Hr2]. unfold unchecked_in in Hu.
    apply existsb_exists in Hu as (id & Hid%list_elem_of_In & Hz%Z.eqb_eq). exists r, id. by split_and!.
  - intros (Hh & Hr & [Hn|(r & id & Hr1 & Hr2 & Hid & Hz)]).
    + exists None. rewrite elem_of_left_join. by split_and!.
    + exists (Some r). rewrite elem_of_left_join. split_and!; [done..| |done]. simpl.
      apply existsb_exists. exists id. split; [by apply list_elem_of_In|by apply Z.eqb_eq].
Qed.

(** A query that is answered answers with the run of consecutive heights its
    candidates begin with: nothing is skipped, and the height after the run is
    no candidate. *)
Lemma MissingHeadersForAll_exact a b ids o s s' hs :
  Forall (λ h, - 2 ^ 63 ≤ hr_BlockNumber h < 2 ^ 63 - 1) (c_headers (tables s)) →
  MissingHeadersForAll Node_ID a b ids o s = (DOk hs, s') →
  tables s' = tables s ∧
  let unchecked := candidates (unchecked_in ids) a b (tables s) in
  StronglySorted (by_key hr_BlockNumber) unchecked ∧
  (∀ h, h ∈ unchecked ↔ h ∈ c_headers (tables s) ∧ in_range Node_ID a b h = true ∧
     (hr_ID h ∉ map ck_HeaderID (checked_headers (tables s)) ∨
      ∃ r id, r ∈ checked_headers (tables s) ∧ ck_HeaderID r = hr_ID h ∧ id ∈ ids ∧ count_of id r = 0)) ∧
  ∃ rest, map scan_header unchecked = hs ++ rest ∧
    (hs = [] → rest = []) ∧
    (∀ n l, hs = n :: l → consecutive (hd_BlockNumber n) hs) ∧
    (∀ n l h rest', hs = n :: l → rest = h :: rest' →
       hd_BlockNumber h ≠ hd_BlockNumber n + Z.of_nat (length hs)).
Proof.
  intros Hb. unfold MissingHeadersForAll, db_bind.
  destruct (join_query Node_ID ids (unchecked_in ids) a b o s) as [[l|? ?|?] s1] eqn:E; [|done..].
  intros [= <- <-]. split.
  { unfold join_query, exec_auto_check in E. destruct (o (clock s)); [done|]. destruct (forallb _ ids); by simplify_eq. }
  apply join_query_ok in E as ->. simpl. split; [apply order_by_sorted|].
  split; [intros h; apply elem_of_unchecked|]. set (l := candidates _ a b _).
  assert (Hl : Forall (λ h, - 2 ^ 63 ≤ hd_BlockNumber h < 2 ^ 63 - 1) (map scan_header l)).
  { apply Forall_fmap, Forall_forall. intros h (c & Hin & _)%elem_of_candidates. simpl.
    rewrite Forall_forall in Hb. apply Hb. by apply elem_of_left_join in Hin as [Hin _]. }
  destruct (map scan_header l) as [|h0 t]; simpl.
  - exists []. by split_and!.
  - apply Forall_cons in Hl as [H0 Ht].
    destruct (continuous_from_spec t (hd_BlockNumber h0)) as (rest & H1 & H2 & H3); [|done|].
    { eapply Forall_impl; [exact Ht|]. intros h Hh. simpl in *. lia. }
    exists rest. split_and!; [by rewrite <- H1|done| |].
    + intros n l' [= <- <-] [|i] h Hi; simpl in Hi; [simplify_eq; lia|]. rewrite (H2 i h Hi). lia.
    + intros n l' h rest' [= <- <-] Hr. simpl. specialize (H3 h rest' Hr). lia.
Qed.

Lemma continuousHeaders_sub l h : h ∈ continuousHeaders l → h ∈ l.
Proof.
  destruct l as [|h0 t]; simpl; [done|]. intros [->|Hh]%elem_of_cons; [by left|right].
  revert Hh. generalize (hd_BlockNumber h0). induction t as [|y t IH]; intros n; simpl; [done|].
  destruct (_ =? _); [|by intros ?%elem_of_nil]. intros [->|Hh]%elem_of_cons; [by left|right]. by eapply IH.
Qed.

(** A header that is checked in all of the columns is not returned. *)
Lemma checked_not_missing a b ids o s hs s' hid :
  checked_all hid (map ident ids) (tables s) →
  MissingHeadersForAll Node_ID a b ids o s = (DOk hs, s') → hid ∉ map hd_ID hs.
Proof.
  intros [Hin Hall]. unfold MissingHeadersForAll, db_bind.
  destruct (join_query Node_ID ids (unchecked_in ids) a b o s) as [[l|? ?|?] s1] eqn:E; [|done..].
  intros [= <- <-]. apply join_query_ok in E as ->. intros (x & -> & Hx)%list_elem_of_fmap.
  apply continuousHeaders_sub, list_elem_of_fmap in Hx as (h & -> & (c & Hj & Hc & _)%elem_of_candidates).
  apply elem_of_left_join in Hj as [_ Hj]. simpl in *. destruct c as [r|]; [|by apply Hj].
  destruct Hj as [Hr He]. unfold unchecked_in in Hc. apply existsb_exists in Hc as (id & Hid%list_elem_of_In & Hz).
  apply Z.eqb_eq in Hz. specialize (Hall r Hr He (ident id)).
  unfold count_of in Hz. unfold count in Hall. rewrite Hz in Hall.
  specialize (Hall ltac:(by apply list_elem_of_fmap_2)). lia.
Qed.

End Missing.
