(* ===== verification/ContractConverter.v ===== *)
(** * Converting logs (pkg/eth/contract_watcher/header/converter/converter.go)

    The converter unpacks the logs of a contract into maps of strings, keeps
    those that pass the contract's filter, and collects the addresses and
    hashes they emit in the contract.  The contract is shared with the rest of
    the watcher, so what was collected before an error stays collected. *)

From S2P Require Import Prelude GoInt Decimal ChainTypes Geth BlockChain StorageDecode Sql HeaderSync EventLogs ContractTypes.

Section Converter.
Context `{GethCommon} `{LogJSON}.

(** [BoundContract.UnpackLogIntoMap] for an ABI: writes the values of a log of
    the named event into a map. *)
Context (UnpackLogIntoMap : ABI → gmap string value → string → types_Log → result (gmap string value)).

Definition FormatBool (b : bool) : string := if b then "true" else "false".

Definition convertUintSliceToHash (raw : bytes) : bytes := BytesToHash raw.

(** One case of the type switch: the text, and the addresses and hashes seen.
    [hash_of] is how a byte array of 32 bytes becomes a hash. *)
Definition resolve (hash_of : bytes → bytes) (input : value) : result (string * list bytes * list bytes) :=
  match input with
  | VBigInt b => Ok (pretty b, [], [])
  | VAddress a => Ok (Address_Hex a, [a], [])
  | VHash h => Ok (Hash_String h, [], [h])
  | VString s => Ok (s, [], [])
  | VBool b => Ok (FormatBool b, [], [])
  | VBytes b => Ok (hexutil_Encode b, [], if (length b =? 32)%nat then [hash_of b] else [])
  | VUint8 u => Ok (pretty u, [], [])
  | VBytes32 raw => let converted := convertUintSliceToHash raw in Ok (Hash_String converted, [], [converted])
  | VNil | VBytes4 _ | VOther _ => Err (Errorf "error: unhandled abi type")
  end.

(** The loop over the values of a log. *)
Definition resolve_values (hash_of : bytes → bytes) (values : gmap string value)
    : result (gmap string string * list bytes * list bytes) :=
  l <-! range_collect (λ kv, r <-! resolve hash_of kv.2 ;; Ok (kv.1, r)) (map_to_list values) ;;
  Ok (list_to_map (map (λ kr, (kr.1, kr.2.1.1)) l), flat_map (λ kr, kr.2.1.2) l, flat_map (λ kr, kr.2.2) l).

(** What is collected from a log that passes. *)
Definition collect_seen (seenAddrs seenHashes : list bytes) (c : Contract) : result Contract :=
  c <-! (match EmittedAddrs c with Some _ => AddEmittedAddr seenAddrs c | None => Ok c end) ;;
  match EmittedHashes c with Some _ => AddEmittedHash seenHashes c | None => Ok c end.

Definition new_log (headerID : Z) (strValues : gmap string string) (raw : bytes) (log : types_Log) : Log := {|
  l_ID := headerID; l_Values := strValues; l_Block := 0; l_Tx := "";
  l_LogIndex := tl_Index log; l_TransactionIndex := tl_TxIndex log; l_Raw := raw |}.

(** The body of the loop over the logs: the converted log, if it passes. *)
Definition convert_log (hash_of : bytes → bytes) (init : gmap string value) (event : Event) (headerID : Z)
    (log : types_Log) (c : Contract) : result (option Log * Contract) :=
  values <-! UnpackLogIntoMap (con_ParsedAbi c) init (ev_Name event) log ;;
  r <-! resolve_values hash_of values ;;
  let '(strValues, seenAddrs, seenHashes) := r in
  if PassesEventFilter c strValues then
    raw <-! log_MarshalJSON log ;;
    c <-! collect_seen seenAddrs seenHashes c ;;
    Ok (Some (new_log headerID strValues raw log), c)
  else Ok (None, c).

(** A loop over logs that changes the contract. *)
Fixpoint convert_loop (f : types_Log → Contract → result (option Log * Contract))
    (logs : list types_Log) (c : Contract) : result (list Log) * Contract :=
  match logs with
  | [] => (Ok [], c)
  | log :: logs =>
      match f log c with
      | Ok (l, c) =>
          let '(r, c) := convert_loop f logs c in
          (ls <-! r ;; Ok (option_list l ++ ls), c)
      | Err e => (Err e, c)
      | Panic w => (Panic w, c)
      end
  end.

Definition nil_values (event : Event) : gmap string value :=
  list_to_map (map (λ field, (f_Name field, VNil)) (ev_Fields event)).

Definition Convert (logs : list types_Log) (event : Event) (headerID : Z) (c : Contract)
    : result (list Log) * Contract :=
  convert_loop (convert_log (λ b, HexToHash (hexutil_Encode b)) (nil_values event) event headerID) logs c.

(** Logs of other events are passed over; [log.Topics[0]] panics without topics. *)
Definition batch_log (event : Event) (headerID : Z) (log : types_Log) (c : Contract)
    : result (option Log * Contract) :=
  match tl_Topics log with
  | [] => Panic "index out of range [0] with length 0"
  | topic0 :: _ =>
      if bool_decide (Event_Sig event = topic0)
      then convert_log BytesToHash ∅ event headerID log c
      else Ok (None, c)
  end.

(** The events in the order in which the map yields them. *)
Fixpoint ConvertBatch (logs : list types_Log) (events : list Event) (headerID : Z) (c : Contract)
    : result (gmap string (list Log)) * Contract :=
  match events with
  | [] => (Ok ∅, c)
  | event :: events =>
      match convert_loop (batch_log event headerID) logs c with
      | (Ok ls, c) =>
          let '(r, c) := ConvertBatch logs events headerID c in
          (m <-! r ;; Ok (partial_alter (λ old, Some (default ls old)) (ev_Name event) m), c)
      | (Err e, c) => (Err e, c)
      | (Panic w, c) => (Panic w, c)
      end
  end.

End Converter.

(** ** Lemmas: conversion as a function of the log *)

Section Lemmas.
Context `{GethCommon} `{LogJSON}.
Context (UnpackLogIntoMap : ABI → gmap string value → string → types_Log → result (gmap string value)).

(** Collecting fails for no contract and changes only the collections. *)
Lemma collect_seen_total sa sh c : ∃ c', collect_seen sa sh c = Ok c' ∧ same_contract c c' ∧
  (emitted_wanted c → emitted_wanted c').
Proof.
  assert (Ha : ∃ c1, (match EmittedAddrs c with Some _ => AddEmittedAddr sa c | None => Ok c end) = Ok c1 ∧
    same_contract c c1 ∧ (emitted_wanted c → emitted_wanted c1)).
  { destruct (EmittedAddrs c) as [s|] eqn:Es; [|by exists c].
    destruct (AddEmittedAddr_exact sa c s Es) as (s' & E & _). eexists. split; [exact E|]. split.
    - by eapply AddEmittedAddr_same.
    - intros Hw. eapply AddEmittedAddr_wanted; [exact Hw|by rewrite Es|exact E]. }
  destruct Ha as (c1 & E1 & Hs1 & Hw1). unfold collect_seen. rewrite E1. simpl.
  destruct (EmittedHashes c1) as [s|] eqn:Es; [|by exists c1].
  destruct (AddEmittedHash_exact sh c1 s Es) as (s' & E & _). eexists. split; [exact E|]. split.
  - etransitivity; [exact Hs1|]. by eapply AddEmittedHash_same.
  - intros Hw. eapply AddEmittedHash_wanted; [by apply Hw1|by rewrite Es|exact E].
Qed.

(** The conversion of a log without what it collects. *)
Definition pure_log hash_of init event headerID log c : result (option Log) :=
  values <-! UnpackLogIntoMap (con_ParsedAbi c) init (ev_Name event) log ;;
  r <-! resolve_values hash_of values ;;
  if PassesEventFilter c r.1.1 then
    raw <-! log_MarshalJSON log ;; Ok (Some (new_log headerID r.1.1 raw log))
  else Ok None.

Definition pure_batch event headerID log c : result (option Log) :=
  match tl_Topics log with
  | [] => Panic "index out of range [0] with length 0"
  | topic0 :: _ =>
      if bool_decide (Event_Sig event = topic0) then pure_log BytesToHash ∅ event headerID log c else Ok None
  end.

(** [f] converts as [g] says and only collects. *)
Definition converts (f : types_Log → Contract → result (option Log * Contract))
    (g : types_Log → Contract → result (option Log)) : Prop := ∀ log c,
  match f log c with
  | Ok (l, c') => g log c = Ok l ∧ same_contract c c' ∧ (emitted_wanted c → emitted_wanted c')
  | Err e => g log c = Err e
  | Panic w => g log c = Panic w
  end.

Lemma convert_log_converts hash_of init event headerID :
  converts (convert_log UnpackLogIntoMap hash_of init event headerID) (pure_log hash_of init event headerID).
Proof.
  intros log c. unfold convert_log, pure_log.
  destruct (UnpackLogIntoMap _ _ _ _) as [values| |]; simpl; [|done..].
  destruct (resolve_values hash_of values) as [[[sv sa] sh]| |]; simpl; [|done..].
  destruct (PassesEventFilter c sv); [|by split_and!].
  destruct (log_MarshalJSON log) as [raw| |]; simpl; [|done..].
  destruct (collect_seen_total sa sh c) as (c' & -> & Hs & Hw). simpl. by split_and!.
Qed.

Lemma batch_log_converts event headerID :
  converts (batch_log UnpackLogIntoMap event headerID) (pure_batch event headerID).
Proof.
  intros log c. unfold batch_log, pure_batch. destruct (tl_Topics log) as [|t ts]; [done|].
  case_bool_decide; [apply convert_log_converts|by split_and!].
Qed.

(** What a contract is filtered by does not change. *)
Definition by_contract {A} (g : types_Log → Contract → A) : Prop :=
  ∀ log c c', same_contract c c' → g log c' = g log c.

Lemma pure_log_same hash_of init event headerID : by_contract (pure_log hash_of init event headerID).
Proof. intros log c c' (a & h & ->). done. Qed.

Lemma pure_batch_same event headerID : by_contract (pure_batch event headerID).
Proof. intros log c c' Hs. unfold pure_batch. repeat case_match; try done. by apply pure_log_same. Qed.

Lemma convert_loop_spec f g : converts f g → by_contract g → ∀ logs c,
  (convert_loop f logs c).1 = (ls <-! range_collect (λ log, g log c) logs ;; Ok (omap id ls)) ∧
  same_contract c (convert_loop f logs c).2 ∧ (emitted_wanted c → emitted_wanted (convert_loop f logs c).2).
Proof.
  intros Hf Hg. induction logs as [|log logs IH]; intros c; simpl; [by split_and!|].
  specialize (Hf log c). destruct (f log c) as [[l c']|e|w].
  - destruct Hf as (-> & Hs & Hw). destruct (IH c') as (H1 & H2 & H3).
    destruct (convert_loop f logs c') as [r c2]. simpl in *. subst r. split_and!.
    + assert (E : range_collect (λ log, g log c') logs = range_collect (λ log, g log c) logs).
      { clear -Hg Hs. induction logs as [|x logs IH]; simpl; [done|]. by rewrite IH, (Hg x c c' Hs). }
      rewrite E. clear E. destruct (range_collect (λ log, g log c) logs); simpl; [|done..]. by destruct l.
    + by etransitivity.
    + auto.
  - by rewrite Hf.
  - by rewrite Hf.
Qed.

(** The logs a batch keeps for an event. *)
Definition event_logs (event : Event) (headerID : Z) (c : Contract) (logs : list types_Log) : list Log :=
  omap (λ log, match pure_batch event headerID log c with Ok l => l | _ => None end) logs.

Lemma range_collect_omap {A B} (g : A → result (option B)) l ls :
  range_collect g l = Ok ls → omap id ls = omap (λ x, match g x with Ok y => y | _ => None end) l.
Proof.
  rewrite range_collect_Ok. induction 1 as [|x y l ls Hx _ IH]; [done|]. simpl. rewrite Hx. unfold id at 1.
  destruct y; [f_equal|]; exact IH.
Qed.

Lemma event_logs_same event headerID c c' logs :
  same_contract c c' → event_logs event headerID c' logs = event_logs event headerID c logs.
Proof.
  intros Hs. unfold event_logs. induction logs as [|x logs IH]; [done|].
  cbn. rewrite (pure_batch_same event headerID x c c' Hs).
  destruct (pure_batch event headerID x c) as [[l|]| |]; [f_equal| | |]; exact IH.
Qed.

Lemma forallb_same {A} (f g : A → bool) l : (∀ x, f x = g x) → forallb f l = forallb g l.
Proof. intros Hfg. induction l as [|x l IH]; simpl; [done|]. by rewrite Hfg, IH. Qed.

(** A batch fails exactly when one of its logs does, and keeps for each event
    the logs with its signature that pass the filter, in their order. *)
Lemma ConvertBatch_spec logs headerID events : ∀ c,
  NoDup (map ev_Name events) →
  let '(r, c') := ConvertBatch UnpackLogIntoMap logs events headerID c in
  same_contract c c' ∧ (emitted_wanted c → emitted_wanted c') ∧
  is_ok r = forallb (λ event, forallb (λ log, is_ok (pure_batch event headerID log c)) logs) events ∧
  ∀ m, r = Ok m → (∀ name, is_Some (m !! name) → name ∈ map ev_Name events) ∧
    ∀ event, event ∈ events → m !! ev_Name event = Some (event_logs event headerID c logs).
Proof.
  induction events as [|event events IH]; intros c Hnd; simpl.
  - split_and!; [done..|]. intros m [= <-]. split; [|set_solver]. intros name. rewrite lookup_empty. by intros [].
  - apply NoDup_cons in Hnd as [Hn Hnd].
    destruct (convert_loop_spec _ _ (batch_log_converts event headerID) (pure_batch_same event headerID) logs c)
      as (H1 & H2 & H3).
    pose proof (range_collect_is_ok (λ log, pure_batch event headerID log c) logs) as Hok.
    pose proof (range_collect_omap (λ log, pure_batch event headerID log c) logs) as Hom.
    destruct (convert_loop _ logs c) as [r1 c1]. simpl in *.
    destruct (range_collect (λ log, pure_batch event headerID log c) logs) as [ls|e|w]; simpl in *; subst r1;
      rewrite <- Hok; simpl; [|by split_and!..].
    specialize (IH c1 Hnd). destruct (ConvertBatch UnpackLogIntoMap logs events headerID c1) as [r c2].
    destruct IH as (K1 & K2 & K3 & K4). split_and!; [by etransitivity|by auto| |].
    + transitivity (is_ok r); [by destruct r|]. rewrite K3. apply forallb_same. intros ev.
      apply forallb_same. intros log. by rewrite (pure_batch_same ev headerID log c c1 H2).
    + intros m (m' & -> & [= <-])%rbind_Ok_inv. destruct (K4 m' eq_refl) as [L1 L2]. split.
      * intros name. destruct (decide (name = ev_Name event)) as [->|Hne]; [by left|].
        rewrite lookup_partial_alter_ne by done. intros Hs. right. by apply L1.
      * intros ev [->|Hev]%elem_of_cons.
        -- rewrite lookup_partial_alter_eq. destruct (m' !! ev_Name event) eqn:E.
           { exfalso. apply Hn, L1. by rewrite E. }
           simpl. f_equal. by apply Hom.
        -- rewrite lookup_partial_alter_ne.
           ++ rewrite L2 by done. by rewrite (event_logs_same ev headerID c c1 logs H2).
           ++ intros He. apply Hn. rewrite He. by apply list_elem_of_fmap_2.
Qed.

End Lemmas.
