(* ===== verification/ContractWatcher.v ===== *)
(** * The contract watcher (pkg/eth/contract_watcher: header/transformer,
    shared/poller, header/fetcher; libraries/shared/watcher/contract_watcher.go)

    For every header that is not checked for all watched events, the
    transformer fetches the logs of the contracts, converts and persists them,
    counts the header as checked, and polls the methods of the contracts with
    the arguments collected from logs. *)

From S2P Require Import Prelude GoInt Decimal ChainTypes Geth Sql Queries BlockChain HeaderSync EventLogs Memory ContractTypes ContractDB ContractConverter.

(** config.ContractConfig *)
Record ContractConfig : Type := mkConfig {
  cfg_Name : string;
  cfg_Network : string;
  cfg_Addresses : gmap string bool;
  cfg_Abis : gmap string string;
  cfg_Events : gmap string (list string);
  cfg_Methods : gmap string (list string);
  cfg_EventArgs : gmap string (list string);
  cfg_MethodArgs : gmap string (list string);
  cfg_StartingBlocks : gmap string Z;
  cfg_Piping : gmap string bool
}.

(** What the watcher calls outside: the chain client, ABI parsing and
    unpacking, Etherscan, and the table of known ABIs. *)
Class ContractLib := {
  ParseAbi : string → result ABI;
  GetAbi : string → result string;
  ABIs : gmap bytes string;
  UnpackLogIntoMap : ABI → gmap string value → string → types_Log → result (gmap string value);
  GetEthLogsWithCustomQuery : FilterQuery → result (list types_Log);
  FetchContractData : string → string → string → list value → Z → result value
}.

(** The order of the [n]-th iteration over a map, and of the [n]-th iteration
    over a set of collected values, which may grow while it is iterated over:
    a key added during the iteration is visited or not. *)
Class MapOrder := {
  order : ∀ {A}, nat → gmap string A → list (string * A);
  visit : nat → gset bytes → list bytes
}.

Class MapOrderLaws `{MapOrder} := {
  order_perm : ∀ A n (m : gmap string A), order n m ≡ₚ map_to_list m;
  visit_NoDup : ∀ n s, NoDup (visit n s);
  visit_all : ∀ n s k, k ∈ s → k ∈ visit n s
}.

Section Watcher.
Context `{GethCommon} `{LogJSON} `{LRU} `{ContractLib} `{MapOrder}.
Context (Node_ID : string).

Abbreviation M := (MDB Watcher ContractDB).

(** ** Memory *)

Definition set_contracts (cs : gmap string Contract) (w : Watcher) : Watcher :=
  mkWatcher _ (columns w) (ev_schemas w) (ev_tables w) (met_schemas w) (met_tables w) cs (contractAddresses w)
    (sortedEventIds w) (sortedMethodIds w) (eventIds w) (eventFilters w) (Start w) (tr_Parser w) (iterations w).
Definition set_start (n : Z) (w : Watcher) : Watcher :=
  mkWatcher _ (columns w) (ev_schemas w) (ev_tables w) (met_schemas w) (met_tables w) (Contracts w) (contractAddresses w)
    (sortedEventIds w) (sortedMethodIds w) (eventIds w) (eventFilters w) n (tr_Parser w) (iterations w).
Definition set_parser (p : parser) (w : Watcher) : Watcher :=
  mkWatcher _ (columns w) (ev_schemas w) (ev_tables w) (met_schemas w) (met_tables w) (Contracts w) (contractAddresses w)
    (sortedEventIds w) (sortedMethodIds w) (eventIds w) (eventFilters w) (Start w) p (iterations w).
Definition set_ids (addrs : list string) (evs mets : gmap string (list string)) (ids : list string) (fs : list bytes)
    (w : Watcher) : Watcher :=
  mkWatcher _ (columns w) (ev_schemas w) (ev_tables w) (met_schemas w) (met_tables w) (Contracts w) addrs
    evs mets ids fs (Start w) (tr_Parser w) (iterations w).
Definition next_iteration (w : Watcher) : Watcher :=
  mkWatcher _ (columns w) (ev_schemas w) (ev_tables w) (met_schemas w) (met_tables w) (Contracts w) (contractAddresses w)
    (sortedEventIds w) (sortedMethodIds w) (eventIds w) (eventFilters w) (Start w) (tr_Parser w) (S (iterations w)).

(** [for k, v := range m] *)
Definition range_map {A} (m : gmap string A) : M (list (string * A)) :=
  m_run (λ w, (Ok (order (iterations w) m), next_iteration w)).
Definition range_set (s : gset bytes) : M (list bytes) :=
  m_run (λ w, (Ok (visit (iterations w) s), next_iteration w)).

(** Through the pointer stored under an address. *)
Definition get_contract (addr : string) : M Contract := λ o w s,
  match Contracts w !! addr with
  | Some c => (DOk c, w, s)
  | None => (DPanic "nil pointer dereference", w, s)
  end.
Definition with_contract {A} (addr : string) (f : Contract → result A * Contract) : M A :=
  c <== get_contract addr ;;
  let '(r, c) := f c in
  m_modify (λ w, set_contracts (<[addr := c]> (Contracts w)) w) ;==;
  m_lift r.

(** ** header/fetcher/fetcher.go *)

Definition hexStringsToAddresses (hexStrings : list string) : list bytes := map HexToAddress hexStrings.

Definition FetchLogs (contractAddresses : list string) (topic0s : list bytes) (header : Header)
    : result (list types_Log) :=
  GetEthLogsWithCustomQuery (mkFilterQuery (HexToHash (hd_Hash header)) (hexStringsToAddresses contractAddresses) [topic0s]).

(** ** shared/poller/poller.go *)

(** [string(b)]: the UTF-8 encoding of a code point below 256. *)
Definition rune_string (b : Z) : string :=
  let chr n := ascii_of_nat (Z.to_nat n) in
  if b <? 128 then String (chr b) "" else String (chr (192 + b / 64)) (String (chr (128 + b mod 64)) "").

Definition stringify (input : value) : result string :=
  match input with
  | VBigInt b => Ok (pretty b)
  | VAddress a => Ok (Address_Hex a)
  | VHash h => Ok (Hash_String h)
  | VString s => Ok s
  | VBytes b => Ok (hexutil_Encode b)
  | VUint8 b => Ok (rune_string b)
  | VBool b => Ok (FormatBool b)
  | VBytes32 _ | VBytes4 _ | VNil | VOther _ => Err (Errorf "error: unhandled return type")
  end.

(** [cache]: the value joins the arguments when piping is on. *)
Definition cache_value (out : value) (c : Contract) : result Contract :=
  if con_Piping c then
    match out with
    | VHash h => match EmittedHashes c with Some _ => AddEmittedHash [h] c | None => Ok c end
    | VBytes b =>
        if (length b =? 32)%nat then
          match EmittedHashes c with Some _ => AddEmittedHash [BytesToHash b] c | None => Ok c end
        else Ok c
    | VAddress a => match EmittedAddrs c with Some _ => AddEmittedAddr [a] c | None => Ok c end
    | _ => Ok c
    end
  else Ok c.

Definition cache (addr : string) (out : value) : M unit :=
  with_contract addr (λ c, match cache_value out c with Ok c => (Ok tt, c) | Err e => (Err e, c) | Panic w => (Panic w, c) end).

(** [m.Return[0].PgType] *)
Definition return_type (m : Method) : result string :=
  match met_Return m with
  | [] => Panic "index out of range [0] with length 0"
  | ret :: _ => Ok (f_PgType ret)
  end.

(** One call of a method and its result. *)
Definition poll_call (addr : string) (m : Method) (pgType : string) (bn : Z) (args : list value) : M MethodResult :=
  c <== get_contract addr ;;
  out <== m_wrap "poller error calling method" (m_lift (FetchContractData (con_Abi c) (con_Address c) (met_Name m) args bn)) ;;
  strOut <== m_lift (stringify out) ;;
  cache addr out ;==;
  m_ret (mkMethodResult m (map StringifyArg args) strOut pgType bn).

Definition persist_polled (addr : string) (m : Method) (results : list MethodResult) : M unit :=
  c <== get_contract addr ;;
  m_wrap "poller error persisting results" (PersistResults HeaderSyncMode results m (con_Address c) (con_Name c)).

Definition pollNoArgAt (addr : string) (m : Method) (bn : Z) : M unit :=
  pgType <== m_lift (return_type m) ;;
  result <== poll_call addr m pgType bn [] ;;
  persist_polled addr m [result].

(** The values collected for an argument, and how they are passed. *)
Definition args_for (t : abi_T) (c : Contract) : option (gset bytes) :=
  match t with
  | HashTy | FixedBytesTy => EmittedHashes c
  | AddressTy => EmittedAddrs c
  | _ => None
  end.
Definition arg_value (t : abi_T) (k : bytes) : value :=
  match t with AddressTy => VAddress k | _ => VHash k end.

(** The loop over the arguments: keys that are in the set when their turn comes. *)
Fixpoint poll_args (addr : string) (t : abi_T) (call : value → M (list MethodResult)) (keys : list bytes)
    : M (list MethodResult) :=
  match keys with
  | [] => m_ret []
  | k :: keys =>
      c <== get_contract addr ;;
      if bool_decide (k ∈ default ∅ (args_for t c)) then
        rs <== call (arg_value t k) ;;
        rest <== poll_args addr t call keys ;;
        m_ret (rs ++ rest)
      else poll_args addr t call keys
  end.

Definition arg_type (args : list Field) (i : nat) : abi_T :=
  match args !! i with Some f => ty_T (f_Type f) | None => TupleTy end.

Definition pollSingleArgAt (addr : string) (m : Method) (bn : Z) : M unit :=
  pgType <== m_lift (return_type m) ;;
  let t := arg_type (met_Args m) 0 in
  c <== get_contract addr ;;
  let args := default ∅ (args_for t c) in
  if (size args =? 0)%nat then m_ret tt
  else
    keys <== range_set args ;;
    results <== poll_args addr t (λ arg, r <== poll_call addr m pgType bn [arg] ;; m_ret [r]) keys ;;
    persist_polled addr m results.

Definition pollDoubleArgAt (addr : string) (m : Method) (bn : Z) : M unit :=
  pgType <== m_lift (return_type m) ;;
  let t1 := arg_type (met_Args m) 0 in
  let t2 := arg_type (met_Args m) 1 in
  c <== get_contract addr ;;
  let firstArgs := default ∅ (args_for t1 c) in
  let secondArgs := default ∅ (args_for t2 c) in
  if (size firstArgs =? 0)%nat then m_ret tt
  else if (size secondArgs =? 0)%nat then m_ret tt
  else
    keys <== range_set firstArgs ;;
    results <== poll_args addr t1 (λ arg1,
      c <== get_contract addr ;;
      keys2 <== range_set (default ∅ (args_for t2 c)) ;;
      poll_args addr t2 (λ arg2, r <== poll_call addr m pgType bn [arg1; arg2] ;; m_ret [r]) keys2) keys ;;
    persist_polled addr m results.

Definition poll_method (addr : string) (blockNumber : Z) (m : Method) : M unit :=
  match length (met_Args m) with
  | 0%nat => pollNoArgAt addr m blockNumber
  | 1%nat => pollSingleArgAt addr m blockNumber
  | 2%nat => pollDoubleArgAt addr m blockNumber
  | _ => m_fail (Errorf "poller error: too many arguments to handle")
  end.

(** The poller's copy of the contract shares its collections with the original. *)
Definition PollContractAt (addr : string) (blockNumber : Z) : M unit :=
  con <== get_contract addr ;;
  m_for (poll_method addr blockNumber) (methods_of con).

(** [for i := con.StartingBlock; i <= lastBlock; i++], for a last block below the
    largest int64, where the counter would wrap around. *)
Definition PollContract (addr : string) (lastBlock : Z) : M unit :=
  con <== get_contract addr ;;
  m_for (PollContractAt addr) (seqZ (con_StartingBlock con) (lastBlock - con_StartingBlock con + 1)).

(** ** header/transformer/transformer.go: Init *)

Definition dedupe (args : list string) : gmap string bool := list_to_map (map (λ a, (a, true)) args).

(** The first block of the headers, and the configured one if that is higher. *)
Definition first_block (start : Z) : M Z := λ o w s,
  match RetrieveFirstBlock o s with
  | (DOk firstBlock, s) => (DOk (if firstBlock <? start then start else firstBlock), w, s)
  | (DErr b e, s) =>
      if bool_decide (e = ErrNoRows) then (DOk (if 0 <? start then start else 0), w, s)
      else (DErr b (Errorf "error retrieving first block"), w, s)
  | (DPanic m, s) => (DPanic m, w, s)
  end.

(** A contract without a method "name", or whose call fails, has no name. *)
Definition contract_name (abi addr : string) : string :=
  match FetchContractData abi addr "name" [] (-1) with
  | Ok (VString name) => name
  | _ => ""
  end.

Definition event_id (name addr : string) : string := ToLower (name +:+ "_" +:+ addr).

Definition parse_contract (cfg : ContractConfig) (contractAddr : string) : M unit :=
  let abi := default "" (cfg_Abis cfg !! contractAddr) in
  m_wrap "error parsing contract"
    (m_run (λ w,
      let '(p, r) := if bool_decide (abi = "") then Parse ParseAbi GetAbi ABIs contractAddr (tr_Parser w)
                     else ParseAbiStr ParseAbi abi in
      (r, set_parser p w))).

Definition new_contract (cfg : ContractConfig) (contractAddr : string) (firstBlock : Z) (p : parser)
    (es : list abi_Event) (ms : list abi_Method) : Contract :=
  Contract_Init {|
    con_Name := contract_name (p_abi p) contractAddr;
    con_Address := contractAddr;
    con_Network := cfg_Network cfg;
    con_StartingBlock := firstBlock;
    con_Abi := p_abi p;
    con_ParsedAbi := p_parsedAbi p;
    con_Events := GetEvents es (cfg_Events cfg !! contractAddr);
    con_Methods := GetSelectMethods ms (default [] (cfg_Methods cfg !! contractAddr));
    con_Filters := ∅;
    con_FilterArgs := Some (dedupe (default [] (cfg_EventArgs cfg !! contractAddr)));
    con_MethodArgs := Some (dedupe (default [] (cfg_MethodArgs cfg !! contractAddr)));
    EmittedAddrs := None;
    EmittedHashes := None;
    con_Piping := default false (cfg_Piping cfg !! contractAddr) |}.

(** A column for an event, and what is kept track of. *)
Definition add_event (addr : string) (event : Event) : M unit :=
  let eventID := event_id (ev_Name event) addr in
  m_wrap "error adding check column" (AddCheckColumn eventID) ;==;
  m_modify (λ w, set_ids (contractAddresses w)
    (<[addr := default [] (sortedEventIds w !! addr) ++ [eventID]]> (sortedEventIds w)) (sortedMethodIds w)
    (eventIds w ++ [eventID]) (eventFilters w ++ [Event_Sig event]) w).

Definition add_method (addr : string) (m : Method) : M unit :=
  let methodID := event_id (met_Name m) addr in
  m_wrap "error adding check column" (AddCheckColumn methodID) ;==;
  m_modify (λ w, set_ids (contractAddresses w) (sortedEventIds w)
    (<[addr := default [] (sortedMethodIds w !! addr) ++ [methodID]]> (sortedMethodIds w))
    (eventIds w) (eventFilters w) w).

Definition init_contract (cfg : ContractConfig) (contractAddr : string) : M unit :=
  parse_contract cfg contractAddr ;==;
  firstBlock <== first_block (default 0 (cfg_StartingBlocks cfg !! contractAddr)) ;;
  p <== m_get tr_Parser ;;
  es <== range_map (abi_Events (p_parsedAbi p)) ;;
  ms <== range_map (abi_Methods (p_parsedAbi p)) ;;
  let con := new_contract cfg contractAddr firstBlock p (map snd es) (map snd ms) in
  m_modify (λ w, set_contracts (<[contractAddr := con]> (Contracts w)) w) ;==;
  m_modify (λ w, set_ids (contractAddresses w ++ [contractAddr]) (<[contractAddr := []]> (sortedEventIds w))
    (sortedMethodIds w) (eventIds w) (eventFilters w) w) ;==;
  events <== range_map (con_Events con) ;;
  m_for (λ ev, add_event contractAddr ev.2) events ;==;
  m_modify (λ w, set_ids (contractAddresses w) (sortedEventIds w) (<[contractAddr := []]> (sortedMethodIds w))
    (eventIds w) (eventFilters w) w) ;==;
  m_for (add_method contractAddr) (methods_of con) ;==;
  m_modify (λ w, if con_StartingBlock con <? Start w then set_start (con_StartingBlock con) w else w).

Definition Init (cfg : ContractConfig) : M unit :=
  m_modify (set_ids [] ∅ ∅ [] []) ;==;
  m_modify (set_start (2 ^ 63 - 1)) ;==;
  addrs <== range_map (cfg_Addresses cfg) ;;
  m_for (λ p, init_contract cfg p.1) addrs.

(** ** Execute *)

(** [methodPolling] *)
Definition poll_contract (header : Header) (p : string * Contract) : M unit :=
  con <== get_contract p.1 ;;
  if (length (methods_of con) =? 0)%nat || (hd_BlockNumber header <? con_StartingBlock con) then m_ret tt
  else
    m_wrap "error polling contract" (PollContractAt p.1 (hd_BlockNumber header)) ;==;
    ids <== m_get (λ w, default [] (sortedMethodIds w !! con_Address con)) ;;
    m_wrap "error marking header checked" (m_db (MarkHeaderCheckedForAll (hd_ID header) ids)).

Definition methodPolling (header : Header) : M unit :=
  cs <== m_get Contracts ;;
  contracts <== range_map cs ;;
  m_for (poll_contract header) contracts.

(** The logs of a header by the address of their contract. *)
Definition sort_logs (allLogs : list types_Log) : gmap string (list types_Log) :=
  fold_left (λ m log,
    let addr := ToLower (Address_Hex (tl_Address log)) in
    <[addr := default [] (m !! addr) ++ [log]]> m) allLogs ∅.

Definition persist_event (con : Contract) (p : string * list Log) : M unit :=
  if (length p.2 <? 1)%nat then m_ret tt
  else m_wrap "error persisting logs"
         (PersistLogs HeaderSyncMode p.2 (event_of con p.1) (con_Address con) (con_Name con)).

(** The logs of one contract. *)
Definition process_contract (header : Header) (p : string * list types_Log) : M unit :=
  con <== get_contract p.1 ;;
  events <== range_map (con_Events con) ;;
  convertedLogs <== m_wrap "error converting logs"
    (with_contract p.1 (ConvertBatch UnpackLogIntoMap p.2 (map snd events) (hd_ID header))) ;;
  ls <== range_map convertedLogs ;;
  m_for (persist_event con) ls.

(** The events of the header are checked. *)
Definition mark_events (header : Header) : M unit :=
  ids <== m_get eventIds ;;
  m_wrap "error marking header checked" (m_db (MarkHeaderCheckedForAll (hd_ID header) ids)).

Definition execute_header (header : Header) : M unit :=
  m_modify (set_start (hd_BlockNumber header)) ;==;
  addrs <== m_get contractAddresses ;;
  filters <== m_get eventFilters ;;
  allLogs <== m_wrap "error fetching logs" (m_lift (FetchLogs addrs filters header)) ;;
  (if (length allLogs <? 1)%nat then m_ret tt
   else
     sortedLogs <== range_map (sort_logs allLogs) ;;
     m_for (process_contract header) sortedLogs) ;==;
  mark_events header ;==;
  m_wrap "error polling methods" (methodPolling header) ;==;
  m_modify (set_start (i64_add (hd_BlockNumber header) 1)).

Definition Execute : M unit :=
  cs <== m_get Contracts ;;
  if (size cs =? 0)%nat then m_fail (Errorf "error: transformer has no initialized contracts")
  else
    start <== m_get Start ;;
    ids <== m_get eventIds ;;
    missingHeaders <== m_wrap "error getting missing headers" (m_db (MissingHeadersForAll Node_ID start (-1) ids)) ;;
    m_for execute_header missingHeaders.

End Watcher.

(** ** Lemmas: what evolves the state *)

Section Evolution.
Context `{GethCommon} `{LogJSON} `{LRU} `{ContractLib} `{MapOrder}.
Context (Node_ID : string).

Lemma range_map_moves {A} (m : gmap string A) : m_moves evolves (range_map m).
Proof. apply m_moves_run. intros w d. split; [by apply same_watch_eq|done]. Qed.

Lemma range_set_moves s : m_moves evolves (range_set s).
Proof. apply m_moves_run. intros w d. split; [by apply same_watch_eq|done]. Qed.

Lemma get_contract_moves addr : m_moves evolves (get_contract addr).
Proof. intros o w s. unfold get_contract. by destruct (Contracts w !! addr). Qed.

(** Updating a contract in place. *)
Lemma same_watch_update w addr c c' : Contracts w !! addr = Some c → contract_ext c c' →
  same_watch w (set_contracts (<[addr := c']> (Contracts w)) w).
Proof.
  intros Hc Hext. split_and!; [done..|]. intros a. simpl. destruct (decide (a = addr)) as [->|Hne].
  - by rewrite Hc, lookup_insert_eq.
  - rewrite lookup_insert_ne by done. by destruct (Contracts w !! a).
Qed.

Lemma with_contract_moves {A} addr (f : Contract → result A * Contract) :
  (∀ c, contract_ext c (f c).2) → m_moves evolves (with_contract addr f).
Proof.
  intros Hf o w s. unfold with_contract, get_contract, m_bind, m_modify.
  destruct (Contracts w !! addr) as [c|] eqn:Ec; [|done]. specialize (Hf c).
  destruct (f c) as [r c']. simpl in *. split; simpl.
  - destruct r; simpl; by eapply same_watch_update.
  - by destruct r.
Qed.

Lemma cache_value_ext out c :
  contract_ext c (match cache_value out c with Ok c' => c' | _ => c end).
Proof.
  unfold cache_value. destruct (con_Piping c); [|done].
  assert (Ha : ∀ l, contract_ext c (match match EmittedAddrs c with Some _ => AddEmittedAddr l c | None => Ok c end
    with Ok c' => c' | _ => c end)).
  { intros l. destruct (EmittedAddrs c) as [s|] eqn:Es; [|done].
    destruct (AddEmittedAddr l c) as [c'| |] eqn:E; [|done..]. split; [by eapply AddEmittedAddr_same|].
    intros Hw. eapply AddEmittedAddr_wanted; [exact Hw|by rewrite Es|exact E]. }
  assert (Hh : ∀ l, contract_ext c (match match EmittedHashes c with Some _ => AddEmittedHash l c | None => Ok c end
    with Ok c' => c' | _ => c end)).
  { intros l. destruct (EmittedHashes c) as [s|] eqn:Es; [|done].
    destruct (AddEmittedHash l c) as [c'| |] eqn:E; [|done..]. split; [by eapply AddEmittedHash_same|].
    intros Hw. eapply AddEmittedHash_wanted; [exact Hw|by rewrite Es|exact E]. }
  destruct out; try reflexivity; [apply Ha|apply Hh|].
  destruct (_ =? _)%nat; [apply Hh|reflexivity].
Qed.

Lemma cache_moves addr out : m_moves evolves (cache addr out).
Proof.
  apply with_contract_moves. intros c. pose proof (cache_value_ext out c) as He.
  by destruct (cache_value out c).
Qed.

Lemma poll_call_moves addr m pgType bn args : m_moves evolves (poll_call addr m pgType bn args).
Proof.
  unfold poll_call. apply m_moves_bind; [apply _|apply get_contract_moves|intros c].
  apply m_moves_bind; [apply _|solve_moves|intros out].
  apply m_moves_bind; [apply _|solve_moves|intros str].
  apply m_moves_bind; [apply _|apply cache_moves|intros _; solve_moves].
Qed.

Lemma persist_polled_moves addr m rs : m_moves evolves (persist_polled addr m rs).
Proof.
  unfold persist_polled. apply m_moves_bind; [apply _|apply get_contract_moves|intros c].
  apply m_moves_wrap, PersistResults_moves.
Qed.

Lemma poll_args_moves addr t call keys : (∀ v, m_moves evolves (call v)) →
  m_moves evolves (poll_args addr t call keys).
Proof.
  intros Hcall. induction keys as [|k keys IH]; simpl; [solve_moves|].
  apply m_moves_bind; [apply _|apply get_contract_moves|intros c].
  case_bool_decide; [|done]. apply m_moves_bind; [apply _|done|intros rs].
  apply m_moves_bind; [apply _|done|intros rest; solve_moves].
Qed.

Lemma poll_one_moves addr m pgType bn args :
  m_moves evolves (r <== poll_call addr m pgType bn args ;; m_ret [r]).
Proof. apply m_moves_bind; [apply _|apply poll_call_moves|intros r; solve_moves]. Qed.

Lemma poll_method_moves addr bn m : m_moves evolves (poll_method addr bn m).
Proof.
  unfold poll_method. destruct (length (met_Args m)) as [|[|[|n]]]; [| | |solve_moves].
  - unfold pollNoArgAt. apply m_moves_bind; [apply _|solve_moves|intros pg].
    apply m_moves_bind; [apply _|apply poll_call_moves|intros r; apply persist_polled_moves].
  - unfold pollSingleArgAt. apply m_moves_bind; [apply _|solve_moves|intros pg].
    apply m_moves_bind; [apply _|apply get_contract_moves|intros c].
    case_match; [solve_moves|].
    apply m_moves_bind; [apply _|apply range_set_moves|intros keys].
    apply m_moves_bind; [apply _| |intros rs; apply persist_polled_moves].
    apply poll_args_moves. intros v. apply poll_one_moves.
  - unfold pollDoubleArgAt. apply m_moves_bind; [apply _|solve_moves|intros pg].
    apply m_moves_bind; [apply _|apply get_contract_moves|intros c].
    case_match; [solve_moves|]. case_match; [solve_moves|].
    apply m_moves_bind; [apply _|apply range_set_moves|intros keys].
    apply m_moves_bind; [apply _| |intros rs; apply persist_polled_moves].
    apply poll_args_moves. intros v. apply m_moves_bind; [apply _|apply get_contract_moves|intros c'].
    apply m_moves_bind; [apply _|apply range_set_moves|intros keys2].
    apply poll_args_moves. intros v2. apply poll_one_moves.
Qed.

Lemma PollContractAt_moves addr bn : m_moves evolves (PollContractAt addr bn).
Proof.
  unfold PollContractAt. apply m_moves_bind; [apply _|apply get_contract_moves|intros c].
  apply m_moves_for; [apply _|]. intros m. apply poll_method_moves.
Qed.

Lemma ConvertBatch_ext logs hid events : ∀ c,
  contract_ext c (ConvertBatch UnpackLogIntoMap logs events hid c).2.
Proof.
  induction events as [|event events IH]; intros c; simpl; [done|].
  destruct (convert_loop_spec _ _ (batch_log_converts UnpackLogIntoMap event hid)
    (pure_batch_same UnpackLogIntoMap event hid) logs c) as (_ & H5 & H6).
  destruct (convert_loop _ logs c) as [[ls|e|w] c1]; simpl in *; [|by split..].
  specialize (IH c1). destruct (ConvertBatch _ logs events hid c1) as [r c2]. simpl in *.
  etransitivity; [|exact IH]. by split.
Qed.

Lemma persist_event_moves con p : m_moves evolves (persist_event con p).
Proof. unfold persist_event. case_match; [solve_moves|]. apply m_moves_wrap, PersistLogs_moves. Qed.

Lemma process_contract_moves header p : m_moves evolves (process_contract header p).
Proof.
  unfold process_contract. apply m_moves_bind; [apply _|apply get_contract_moves|intros con].
  apply m_moves_bind; [apply _|apply range_map_moves|intros events].
  apply m_moves_bind; [apply _| |intros ls].
  { apply m_moves_wrap, with_contract_moves. intros c. apply ConvertBatch_ext. }
  apply m_moves_bind; [apply _|apply range_map_moves|intros l].
  apply m_moves_for; [apply _|]. intros q. apply persist_event_moves.
Qed.

Lemma set_start_moves n : m_moves evolves (m_modify (set_start n)).
Proof. apply m_moves_modify. intros w d. split; [by apply same_watch_eq|done]. Qed.

End Evolution.

(** ** Lemmas: checked headers have their logs *)

Section Checked.
Context `{GethCommon} `{LogJSON} `{LRU} `{ContractLib} `{MapOrder} `{!MapOrderLaws}.
Context (Node_ID : string).

(** Contracts are stored under their addresses, events under their names. *)
Definition events_ok (c : Contract) : Prop := ∀ k e, con_Events c !! k = Some e → ev_Name e = k.
Definition watch_ok (w : Watcher) : Prop :=
  ∀ a c, Contracts w !! a = Some c → con_Address c = a ∧ events_ok c.

(** The logs of a header that a contract keeps are in the tables of its events. *)
Definition contract_stored (hid : Z) (lgs : list types_Log) (c : Contract) (d : ContractDB) : Prop :=
  ∀ k e l, con_Events c !! k = Some e → l ∈ event_logs UnpackLogIntoMap e hid c lgs →
    log_stored (event_table_id HeaderSyncMode (con_Address c) k) l d.

Definition address_stored (hid : Z) (p : string * list types_Log) (w : Watcher) (d : ContractDB) : Prop :=
  ∃ c, Contracts w !! p.1 = Some c ∧ contract_stored hid p.2 c d.

(** All the logs the node has for a header are of watched contracts, and stored. *)
Definition header_stored (h : Header) (w : Watcher) (d : ContractDB) : Prop :=
  ∀ logs, FetchLogs (contractAddresses w) (eventFilters w) h = Ok logs →
    ∀ p, p ∈ map_to_list (sort_logs logs) → address_stored (hd_ID h) p w d.

Definition checked_stored (w : Watcher) (d : ContractDB) : Prop :=
  NoDup (map hr_ID (c_headers d)) ∧ watch_ok w ∧
  ∀ r id h, r ∈ checked_headers d → id ∈ eventIds w → count_of id r ≠ 0 →
    h ∈ c_headers d → hr_ID h = ck_HeaderID r → header_stored (scan_header h) w d.

Lemma same_watch_lookup w w' a c : same_watch w w' → Contracts w !! a = Some c →
  ∃ c', Contracts w' !! a = Some c' ∧ contract_ext c c'.
Proof.
  intros (_ & _ & _ & _ & Hc) Ha. specialize (Hc a). rewrite Ha in Hc.
  destruct (Contracts w' !! a) as [c'|]; [|done]. by exists c'.
Qed.

Lemma watch_ok_stable : stable evolves (λ w _, watch_ok w).
Proof.
  intros p p' [(_ & _ & _ & _ & Hc) _] Hw a c' Ha. specialize (Hc a). rewrite Ha in Hc.
  destruct (Contracts p.1 !! a) as [c|] eqn:Ec; [|done]. destruct Hc as [(x & y & ->) _].
  by destruct (Hw a c Ec).
Qed.

Lemma contract_stored_ext hid lgs c c' d d' : contract_ext c c' → ext d d' →
  contract_stored hid lgs c d → contract_stored hid lgs c' d'.
Proof.
  intros [Hs _] Hd Hst k e l He Hl. rewrite (event_logs_same _ e hid c c' lgs Hs) in Hl.
  destruct Hs as (x & y & ->). eapply log_stored_ext; [exact Hd|]. by eapply Hst.
Qed.

Lemma address_stored_stable hid p : stable evolves (address_stored hid p).
Proof.
  intros q q' [Hw Hd] (c & Hc & Hst). destruct (same_watch_lookup _ _ _ _ Hw Hc) as (c' & Hc' & He).
  exists c'. split; [done|]. by eapply contract_stored_ext.
Qed.

Lemma header_stored_stable h : stable evolves (header_stored h).
Proof.
  intros q q' Hev Hst logs. pose proof Hev as [(Ha & Hf & _) _]. rewrite Ha, Hf. intros Hlogs p Hp.
  eapply address_stored_stable; [exact Hev|]. by eapply Hst.
Qed.

Lemma checked_stored_stable : stable evolves checked_stored.
Proof.
  intros q q' Hev (Hnd & Hw & Hst). pose proof Hev as [(_ & _ & Hids & _) (Hh & Hc & _)].
  split; [by rewrite Hh|]. split; [by eapply watch_ok_stable|].
  intros r id h. rewrite Hc, Hids, Hh. intros Hr Hid Hn Hin He.
  eapply header_stored_stable; [exact Hev|]. by eapply Hst.
Qed.

(** *** Processing the logs of a contract *)

Lemma range_map_ok {A} (m : gmap string A) o w (s : session ContractDB) l w' s' :
  range_map m o w s = (DOk l, w', s') → l ≡ₚ map_to_list m ∧ Contracts w' = Contracts w ∧ s' = s.
Proof. unfold range_map, m_run, m_lift, m_db. intros [= <- <- <-]. split; [apply order_perm|done]. Qed.

Lemma get_contract_ok addr o w (s : session ContractDB) c w' s' :
  get_contract addr o w s = (DOk c, w', s') → Contracts w !! addr = Some c ∧ w' = w ∧ s' = s.
Proof. unfold get_contract. destruct (Contracts w !! addr); [|done]. by intros [= -> -> ->]. Qed.

Lemma with_contract_ok {A} addr (f : Contract → result A * Contract) o w (s : session ContractDB) a w' s' :
  with_contract addr f o w s = (DOk a, w', s') →
  ∃ c, Contracts w !! addr = Some c ∧ (f c).1 = Ok a ∧ Contracts w' = <[addr := (f c).2]> (Contracts w) ∧ s' = s.
Proof.
  unfold with_contract. intros E. m_step E c w1 s1. apply get_contract_ok in E0 as (Hc & -> & ->).
  exists c. split; [done|]. destruct (f c) as [r c'] eqn:Ef. simpl.
  m_step E u w2 s2. unfold m_modify in E0. simplify_eq. unfold m_lift in E. rewrite m_db_ok in E.
  destruct E as [E ->]. unfold db_lift in E. destruct r; simplify_eq. done.
Qed.

(** The names of the events of a contract, in any order. *)
Lemma event_names c (l : list (string * Event)) : events_ok c → l ≡ₚ map_to_list (con_Events c) →
  NoDup (map ev_Name (map snd l)).
Proof.
  intros Hok Hl. assert (He : map ev_Name (map snd l) ≡ₚ (map_to_list (con_Events c)).*1).
  { rewrite Hl, map_map. change (map_to_list (con_Events c)).*1 with (map fst (map_to_list (con_Events c))).
    erewrite map_ext_in; [reflexivity|]. intros [k e] Hi%list_elem_of_In%elem_of_map_to_list. by apply Hok. }
  rewrite He. apply NoDup_fst_map_to_list.
Qed.

Lemma process_contract_stored header p :
  achieves (λ w _, watch_ok w) (process_contract header p) (λ _, address_stored (hd_ID header) p).
Proof.
  intros o w s [] w' s' Hw E. unfold process_contract in E.
  m_step E con w1 s1. apply get_contract_ok in E0 as (Hcon & -> & ->). destruct (Hw _ _ Hcon) as [Haddr Hok].
  m_step E events w2 s2. apply range_map_ok in E0 as (Hev & Hc2 & ->).
  m_step E cl w3 s3. apply with_contract_ok in E0 as (c & Hc & Hr & Hc3 & ->).
  rewrite Hc2, Hcon in Hc. simplify_eq.
  pose proof (ConvertBatch_spec UnpackLogIntoMap p.2 (hd_ID header) (map snd events) c
    (event_names c events Hok Hev)) as Hspec.
  destruct (ConvertBatch _ _ _ _ _) as [r c3] eqn:Eb. simpl in Hr. subst r.
  destruct Hspec as (Hs & Hwanted & _ & Hm). destruct (Hm cl eq_refl) as [Hdom Hlook].
  m_step E ls w4 s4. apply range_map_ok in E0 as (Hls & Hc4 & ->).
  assert (Hst : ∀ q, q ∈ ls → ∀ l, l ∈ q.2 →
    log_stored (event_table_id HeaderSyncMode (con_Address c) (ev_Name (event_of c q.1))) l (tables s')).
  { refine (achieves_for evolves (λ _ _, True) (persist_event c)
      (λ q _ d, ∀ l, l ∈ q.2 → log_stored (event_table_id HeaderSyncMode (con_Address c) (ev_Name (event_of c q.1))) l d)
      ls _ _ _ _ o w4 s tt w' s' I E).
    - intros q. apply persist_event_moves.
    - by intros q q' _ _.
    - intros q _ a a' [_ Hd] Hq l Hl. eapply log_stored_ext; [exact Hd|by apply Hq].
    - intros q _. unfold persist_event. case_match eqn:El.
      + apply achieves_ret. intros _ d _ l Hl. apply Nat.ltb_lt in El. destruct q.2; [by apply elem_of_nil in Hl|simpl in El; lia].
      + apply achieves_wrap, PersistLogs_stored. }
  pose proof (m_moves_for evolves (persist_event c) ls (persist_event_moves c) o w4 s) as [Hcs _].
  rewrite E in Hcs. simpl in Hcs.
  destruct (same_watch_lookup _ _ p.1 c3 Hcs) as (c' & Hc' & Hext).
  { by rewrite Hc4, Hc3, lookup_insert_eq. }
  exists c'. split; [done|]. eapply contract_stored_ext; [|reflexivity|].
  { etransitivity; [|exact Hext]. by split. }
  intros k e l He Hl.
  assert (Hin : (k, event_logs UnpackLogIntoMap e (hd_ID header) c p.2) ∈ ls).
  { rewrite Hls. apply elem_of_map_to_list. rewrite <- (Hok k e He) at 1. apply Hlook.
    apply list_elem_of_fmap. exists (k, e). split; [done|]. rewrite Hev. by apply elem_of_map_to_list. }
  specialize (Hst _ Hin l Hl). unfold event_of in Hst. simpl in Hst. rewrite He in Hst. simpl in Hst.
  by rewrite (Hok k e He) in Hst.
Qed.

(** *** A header *)

Lemma process_logs_stored header allLogs :
  achieves (λ w _, watch_ok w)
    (if (length allLogs <? 1)%nat then m_ret tt
     else sortedLogs <== range_map (sort_logs allLogs) ;; m_for (process_contract header) sortedLogs)
    (λ _ w d, ∀ p, p ∈ map_to_list (sort_logs allLogs) → address_stored (hd_ID header) p w d).
Proof.
  destruct (Nat.ltb_spec (length allLogs) 1) as [Hl|Hl].
  - destruct allLogs; [|simpl in Hl; lia]. apply achieves_ret. intros w d _ p. unfold sort_logs. simpl.
    rewrite map_to_list_empty. by intros ?%elem_of_nil.
  - intros o w s [] w' s' Hw E. m_step E l w1 s1. apply range_map_ok in E0 as (Hperm & Hc & ->).
    intros p Hp. rewrite <- Hperm in Hp. revert p Hp.
    refine (achieves_for evolves (λ w _, watch_ok w) (process_contract header) (λ p, address_stored (hd_ID header) p)
      l _ _ _ _ o w1 s tt w' s' _ E).
    + intros p. apply process_contract_moves.
    + apply watch_ok_stable.
    + intros p _. apply address_stored_stable.
    + intros p _. apply process_contract_stored.
    + intros a c. rewrite Hc. apply Hw.
Qed.

Lemma process_logs_moves header allLogs :
  m_moves evolves (if (length allLogs <? 1)%nat then m_ret tt
     else sortedLogs <== range_map (sort_logs allLogs) ;; m_for (process_contract header) sortedLogs).
Proof.
  case_match; [solve_moves|]. apply m_moves_bind; [apply _|apply range_map_moves|intros l].
  apply m_moves_for; [apply _|]. intros p. apply process_contract_moves.
Qed.

(** Headers of the database. *)
Definition known (hs : list Header) (d : ContractDB) : Prop := ∀ x, x ∈ hs → x ∈ map scan_header (c_headers d).

Definition safe (hs : list Header) (w : Watcher) (d : ContractDB) : Prop := checked_stored w d ∧ known hs d.

Lemma safe_stable hs : stable evolves (safe hs).
Proof.
  intros q q' Hev [Hst Hk]. split; [by eapply checked_stored_stable|].
  destruct Hev as [_ (Hh & _)]. intros x Hx. rewrite Hh. by apply Hk.
Qed.

Definition safe_at (hs : list Header) (header : Header) (w : Watcher) (d : ContractDB) : Prop :=
  safe hs w d ∧ header_stored header w d.

Lemma safe_at_stable hs header : stable evolves (safe_at hs header).
Proof.
  intros q q' Hev [Hs Hh]. split; [by eapply safe_stable|by eapply header_stored_stable].
Qed.

Lemma ext_set_checked_tables rows d : event_tables (set_checked rows d) = event_tables d.
Proof. done. Qed.

(** A header whose logs are stored may be marked in any columns. *)
Lemma mark_safe hs header ids : header ∈ hs →
  mhoare (pure_pred (safe_at hs header)) (m_db (MarkHeaderCheckedForAll (hd_ID header) ids))
    (λ _, pure_pred (safe_at hs header)) (pure_pred (safe_at hs header)).
Proof.
  intros Hin o w s _ Hs. unfold pure_pred in *. unfold m_db, MarkHeaderCheckedForAll, exec_auto_check.
  destruct (o (clock s)); [done|].
  destruct (mark_all (hd_ID header) ids (tables s) (seqs s)) as [[[[] d]|e|m] q] eqn:E; [|done..]. simpl.
  apply mark_all_spec in E as (_ & _ & _ & rows & -> & Hrows & _).
  destruct Hs as [[(Hnd & Hw & Hst) Hk] Hh].
  assert (Hkeep : ∀ x, header_stored x w (tables s) → header_stored x w (set_checked rows (tables s))).
  { intros x Hx logs Hl p Hp. exact (Hx logs Hl p Hp). }
  split; [split; [|done]|by apply Hkeep]. split; [done|]. split; [done|].
  intros r id h Hr Hid Hn Hhd He. apply Hkeep. simpl in *.
  destruct (Hrows r Hr) as [[Hr0 _]|[Hr0 _]]; [by eapply Hst|].
  assert (Hsc : scan_header h = header); [|by rewrite Hsc].
  destruct (proj1 (list_elem_of_fmap _ _ _) (Hk _ Hin)) as (h0 & -> & Hh0).
  f_equal. eapply NoDup_map_inj; [exact Hnd|done|done|]. by rewrite He, Hr0.
Qed.

Lemma poll_safe hs header : header ∈ hs →
  mhoare (pure_pred (safe_at hs header)) (methodPolling header)
    (λ _, pure_pred (safe_at hs header)) (pure_pred (safe_at hs header)).
Proof.
  intros Hin. unfold methodPolling.
  eapply mhoare_bind; [apply stable_mhoare with (R := evolves); [solve_moves|apply safe_at_stable]|intros cs].
  eapply mhoare_bind; [apply stable_mhoare with (R := evolves); [apply range_map_moves|apply safe_at_stable]|intros l].
  apply mhoare_for_in. intros p _. unfold poll_contract.
  eapply mhoare_bind; [apply stable_mhoare with (R := evolves); [apply get_contract_moves|apply safe_at_stable]|intros con].
  case_match; [by apply mhoare_ret|].
  eapply mhoare_bind; [apply stable_mhoare with (R := evolves);
    [apply m_moves_wrap, PollContractAt_moves|apply safe_at_stable]|intros ?].
  eapply mhoare_bind; [apply stable_mhoare with (R := evolves); [solve_moves|apply safe_at_stable]|intros ids].
  apply mhoare_wrap. by apply mark_safe.
Qed.

(** The rest of the iteration, once the logs are stored. *)
Lemma rest_safe hs header : header ∈ hs →
  mhoare (pure_pred (safe_at hs header))
    (mark_events header ;==; m_wrap "error polling methods" (methodPolling header) ;==;
     m_modify (set_start (i64_add (hd_BlockNumber header) 1)))
    (λ _, pure_pred (safe hs)) (pure_pred (safe hs)).
Proof.
  intros Hin.
  eapply mhoare_weaken with (P := pure_pred (safe_at hs header)) (Q := λ _, pure_pred (safe_at hs header))
    (E := pure_pred (safe_at hs header)); [|done|by intros _ m t q []|by intros m t q []].
  unfold mark_events. eapply mhoare_bind; [|intros ?].
  { eapply mhoare_bind; [apply stable_mhoare with (R := evolves); [solve_moves|apply safe_at_stable]|intros ids].
    apply mhoare_wrap. by apply mark_safe. }
  eapply mhoare_bind; [apply mhoare_wrap; by apply poll_safe|intros ?].
  apply stable_mhoare with (R := evolves); [apply set_start_moves|apply safe_at_stable].
Qed.

(** What the node answers for a header does not depend on what evolves. *)
Definition fetched (header : Header) (logs : list types_Log) (w : Watcher) : Prop :=
  FetchLogs (contractAddresses w) (eventFilters w) header = Ok logs.

Lemma fetched_stable hs header logs : stable evolves (λ w d, safe hs w d ∧ fetched header logs w).
Proof.
  intros q q' Hev [Hs Hf]. split; [by eapply safe_stable|].
  destruct Hev as [(Ha & He & _) _]. unfold fetched in *. by rewrite Ha, He.
Qed.

Lemma execute_header_safe hs header : header ∈ hs →
  mhoare (pure_pred (safe hs)) (execute_header header) (λ _, pure_pred (safe hs)) (pure_pred (safe hs)).
Proof.
  intros Hin. unfold execute_header.
  eapply mhoare_bind; [apply stable_mhoare with (R := evolves); [apply set_start_moves|apply safe_stable]|intros ?].
  eapply mhoare_bind with (Q := λ addrs, pure_pred (λ w d, safe hs w d ∧ addrs = contractAddresses w));
    [by apply mhoare_get|intros addrs].
  eapply mhoare_bind with (Q := λ filters, pure_pred (λ w d, safe hs w d ∧
    FetchLogs addrs filters header = FetchLogs (contractAddresses w) (eventFilters w) header));
    [by apply mhoare_get; intros w d q [Hs ->]|intros filters].
  eapply mhoare_bind with (Q := λ logs, pure_pred (λ w d, safe hs w d ∧ fetched header logs w)); [|intros logs].
  { apply mhoare_wrap, mhoare_lift. intros w d q [Hs Hf]. unfold pure_pred, fetched. rewrite <- Hf.
    by destruct (FetchLogs addrs filters header). }
  eapply mhoare_bind with (Q := λ _, pure_pred (safe_at hs header)).
  - eapply mhoare_weaken; [apply mhoare_achieves with (R := evolves)
      (P := λ w d, safe hs w d ∧ fetched header logs w); [apply process_logs_moves|apply fetched_stable|]|done| |].
    + eapply achieves_weaken; [apply process_logs_stored| |intros u w d Hφ; exact Hφ].
      by intros w d [[(_ & Hw & _) _] _].
    + intros u w d q [[Hs Hf] Hst]. split; [done|]. intros logs' El. unfold fetched in Hf. rewrite Hf in El.
      by simplify_eq.
    + by intros w d q [Hs _].
  - intros ?. by apply rest_safe.
Qed.

(** C31: whatever the server rejects, the node answers and the order of the maps:
    a header that is counted for a watched event has the logs of all watched
    events in their tables. *)
Theorem contract_checked_complete : mkeeps (pure_pred checked_stored) (Execute Node_ID).
Proof.
  unfold Execute, mkeeps.
  eapply mhoare_bind; [apply stable_mhoare with (R := evolves); [solve_moves|apply checked_stored_stable]|intros cs].
  case_match; [by apply mhoare_fail|].
  eapply mhoare_bind; [apply stable_mhoare with (R := evolves); [solve_moves|apply checked_stored_stable]|intros start].
  eapply mhoare_bind; [apply stable_mhoare with (R := evolves); [solve_moves|apply checked_stored_stable]|intros ids].
  intros o w s Ho Hs. unfold m_bind, m_wrap, m_db.
  assert (Hmv : moves ext (MissingHeadersForAll Node_ID start (-1) ids)).
  { apply moves_bind; [apply _|apply join_query_moves|intros l; apply moves_ret; apply _]. }
  specialize (Hmv o s). destruct (MissingHeadersForAll Node_ID start (-1) ids o s) as [[hs|b e|m] s1] eqn:E; simpl in *.
  2,3: by apply (checked_stored_stable (w, tables s) (w, tables s1)).
  assert (Hk : known hs (tables s1)).
  { destruct Hmv as (Hh & _). intros x Hx. rewrite Hh. revert Hx. unfold MissingHeadersForAll, db_bind in E.
    destruct (join_query _ _ _ _ _ o s) as [[l|? ?|?] s2] eqn:Ej; unfold db_ret in E; simplify_eq. apply join_query_ok in Ej as ->.
    intros Hx%continuousHeaders_sub. apply list_elem_of_fmap in Hx as (h & -> & (c & [Hh' _]%elem_of_left_join & _)%elem_of_candidates).
    by apply list_elem_of_fmap_2. }
  assert (Hsafe : mhoare (pure_pred (safe hs)) (m_for execute_header hs) (λ _, pure_pred (safe hs)) (pure_pred (safe hs))).
  { apply mhoare_for_in. intros h Hh. by apply execute_header_safe. }
  specialize (Hsafe o w s1 Ho). unfold pure_pred in *.
  assert (Hs1 : safe hs w (tables s1)).
  { split; [|done]. by apply (checked_stored_stable (w, tables s) (w, tables s1)). }
  specialize (Hsafe Hs1). destruct (m_for execute_header hs o w s1) as [[[a|b e|m] w2] s2]; by destruct Hsafe.
Qed.

End Checked.

(** ** Lemmas: progress *)

(** The state moves on: settings stay, and no header is unchecked again. *)
Definition proceeds `{GethCommon} `{LRU} (p p' : Watcher * ContractDB) : Prop :=
  same_watch p.1 p'.1 ∧ checked_le p.2 p'.2.

#[export] Instance proceeds_preorder `{GethCommon} `{LRU} : PreOrder proceeds.
Proof. split; [intros p; by split|]. intros p1 p2 p3 [Ha Hb] [Hc Hd]. split; by etransitivity. Qed.

(** What evolving the state and marking headers do, [Execute] does. *)
Section Marks.
Context `{GethCommon} `{LogJSON} `{LRU} `{ContractLib} `{MapOrder} `{!MapOrderLaws}.
Context (Node_ID : string).
Context (R : Watcher * ContractDB → Watcher * ContractDB → Prop) `{!PreOrder R}.
Context (evolves_R : ∀ p p', evolves p p' → R p p')
  (mark_R : ∀ hid ids, m_moves R (m_db (MarkHeaderCheckedForAll hid ids))).

Lemma evolves_marks {A} (f : MDB Watcher ContractDB A) : m_moves evolves f → m_moves R f.
Proof. by apply m_moves_mono. Qed.

Lemma poll_contract_marks header p : m_moves R (poll_contract header p).
Proof.
  unfold poll_contract. apply m_moves_bind; [apply _|apply evolves_marks, get_contract_moves|intros con].
  case_match; [solve_moves|].
  apply m_moves_bind; [apply _|apply m_moves_wrap, evolves_marks, PollContractAt_moves|intros _].
  apply m_moves_bind; [apply _|solve_moves|intros ids]. apply m_moves_wrap, mark_R.
Qed.

Lemma methodPolling_marks header : m_moves R (methodPolling header).
Proof.
  unfold methodPolling. apply m_moves_bind; [apply _|solve_moves|intros cs].
  apply m_moves_bind; [apply _|apply evolves_marks, range_map_moves|intros l].
  apply m_moves_for; [apply _|]. intros p. apply poll_contract_marks.
Qed.

Lemma mark_events_marks header : m_moves R (mark_events header).
Proof.
  unfold mark_events. apply m_moves_bind; [apply _|solve_moves|intros ids].
  apply m_moves_wrap, mark_R.
Qed.

Lemma execute_header_marks header : m_moves R (execute_header header).
Proof.
  unfold execute_header. apply m_moves_bind; [apply _|apply evolves_marks, set_start_moves|intros _].
  apply m_moves_bind; [apply _|solve_moves|intros addrs].
  apply m_moves_bind; [apply _|solve_moves|intros filters].
  apply m_moves_bind; [apply _|solve_moves|intros logs].
  apply m_moves_bind; [apply _|apply evolves_marks, process_logs_moves|intros _].
  apply m_moves_bind; [apply _|apply mark_events_marks|intros _].
  apply m_moves_bind; [apply _|apply m_moves_wrap, methodPolling_marks|intros _].
  apply evolves_marks, set_start_moves.
Qed.

Lemma Execute_marks : m_moves R (Execute Node_ID).
Proof.
  unfold Execute. apply m_moves_bind; [apply _|solve_moves|intros cs]. case_match; [solve_moves|].
  apply m_moves_bind; [apply _|solve_moves|intros start].
  apply m_moves_bind; [apply _|solve_moves|intros ids].
  apply m_moves_bind; [apply _| |intros hs; apply m_moves_for; [apply _|apply execute_header_marks]].
  apply m_moves_wrap, evolves_marks, evolves_db.
  apply moves_bind; [apply _|apply join_query_moves|intros l; apply moves_ret; apply _].
Qed.

End Marks.

Section Progress.
Context `{GethCommon} `{LogJSON} `{LRU} `{ContractLib} `{MapOrder}.
Context (Node_ID : string).

Lemma evolves_proceeds p p' : evolves p p' → proceeds p p'.
Proof. intros [Hw Hd]. split; [done|by apply ext_checked_le]. Qed.

Lemma proceeds_of {A} (f : MDB Watcher ContractDB A) : m_moves evolves f → m_moves proceeds f.
Proof. apply m_moves_mono, evolves_proceeds. Qed.

Lemma mark_proceeds hid ids : m_moves proceeds (m_db (MarkHeaderCheckedForAll hid ids)).
Proof.
  apply m_moves_db. intros w. unfold MarkHeaderCheckedForAll.
  assert (Hpre : PreOrder (λ d d', proceeds (w, d) (w, d'))).
  { split; [intros d; by split|]. intros d1 d2 d3 [Ha Hb] [Hc Hd]. split; [done|by etransitivity]. }
  apply moves_exec_auto_check; [exact Hpre|]. intros d q [] d' E. split; [done|].
  destruct (mark_all hid ids d q) as [r q'] eqn:Em. simpl in E. subst r. by apply mark_all_checked_le in Em as [? _].
Qed.

Lemma methodPolling_proceeds header : m_moves proceeds (methodPolling header).
Proof. apply methodPolling_marks; [apply _|apply evolves_proceeds|apply mark_proceeds]. Qed.

Lemma mark_events_proceeds header : m_moves proceeds (mark_events header).
Proof. apply mark_events_marks; [apply _|apply mark_proceeds]. Qed.

(** Checked for all events that are watched. *)
Definition events_checked (header : Header) (w : Watcher) (d : ContractDB) : Prop :=
  counts_ok d ∧ checked_all (hd_ID header) (map ident (eventIds w)) d.

Lemma events_checked_stable header : stable proceeds (events_checked header).
Proof.
  intros p p' [(_ & _ & Hids & _) [Ho Hc]] [Hk Ha]. split; [auto|]. rewrite Hids. by apply Hc.
Qed.

Lemma counts_ok_stable : stable proceeds (λ _ d, counts_ok d).
Proof. intros p p' [_ [Ho _]]. exact Ho. Qed.

Lemma mark_events_checked header :
  achieves (λ _ d, counts_ok d) (mark_events header) (λ _, events_checked header).
Proof.
  intros o w s [] w' s' Hc E. unfold mark_events in E. m_step E ids w1 s1. unfold m_get in E0. simplify_eq.
  rewrite m_wrap_ok, m_db_ok in E. destruct E as [E ->].
  unfold MarkHeaderCheckedForAll, exec_auto_check in E. destruct (o (clock s1)); [done|].
  destruct (mark_all (hd_ID header) (eventIds w1) (tables s1) (seqs s1)) as [[[[] d]|e|m] q] eqn:Em; simplify_eq.
  apply mark_all_checked_le in Em as [[Ho _] Hall]. split; auto.
Qed.

(** The parts of an iteration. *)
Lemma execute_header_proceeds header : m_moves proceeds (execute_header header).
Proof. apply execute_header_marks; [apply _|apply evolves_proceeds|apply mark_proceeds]. Qed.

Lemma execute_header_checked header :
  achieves (λ _ d, counts_ok d) (execute_header header) (λ _, events_checked header).
Proof.
  unfold execute_header.
  eapply achieves_bind; [apply achieves_stable with (R := proceeds); [apply proceeds_of, set_start_moves|apply counts_ok_stable]|intros ?].
  eapply achieves_bind; [apply achieves_stable with (R := proceeds); [solve_moves|apply counts_ok_stable]|intros addrs].
  eapply achieves_bind; [apply achieves_stable with (R := proceeds); [solve_moves|apply counts_ok_stable]|intros filters].
  eapply achieves_bind; [apply achieves_stable with (R := proceeds); [solve_moves|apply counts_ok_stable]|intros logs].
  eapply achieves_bind; [apply achieves_stable with (R := proceeds); [apply proceeds_of, process_logs_moves|apply counts_ok_stable]|intros ?].
  eapply achieves_bind; [apply mark_events_checked|intros ?].
  eapply achieves_bind; [apply achieves_stable with (R := proceeds);
    [apply m_moves_wrap, methodPolling_proceeds|apply events_checked_stable]|intros ?].
  apply achieves_stable with (R := proceeds); [apply proceeds_of, set_start_moves|apply events_checked_stable].
Qed.

Lemma execute_header_start header o w s w' s' :
  execute_header header o w s = (DOk tt, w', s') → Start w' = i64_add (hd_BlockNumber header) 1.
Proof.
  unfold execute_header. intros E. do 7 apply m_bind_ok in E as (? & ? & ? & _ & E). unfold m_modify in E. by simplify_eq.
Qed.

Lemma execute_loop_start hs : ∀ o w s w' s', m_for execute_header hs o w s = (DOk tt, w', s') →
  match last hs with
  | Some h => Start w' = i64_add (hd_BlockNumber h) 1
  | None => w' = w
  end.
Proof.
  induction hs as [|h hs IH]; intros o w s w' s' E; [cbn in E; unfold m_ret in E; by simplify_eq|].
  apply m_bind_ok in E as ([] & w1 & s1 & E1 & E2). specialize (IH _ _ _ _ _ E2).
  destruct hs as [|h' hs]; [simpl in *; subst w'; by eapply execute_header_start|].
  rewrite last_cons in IH |- *. rewrite last_cons. by destruct (last hs).
Qed.

(** The headers missing from block [a] on: those of this node's that are not
    checked for all of the events [ids], by height. *)
Definition missing_from (a : Z) (ids : list string) (d : ContractDB) (missing : list header_row) : Prop :=
  StronglySorted (by_key hr_BlockNumber) missing ∧
  ∀ h, h ∈ missing ↔ h ∈ c_headers d ∧ a ≤ hr_BlockNumber h ∧ hr_Fingerprint h = Node_ID ∧
    (hr_ID h ∉ map ck_HeaderID (checked_headers d) ∨
     ∃ r id, r ∈ checked_headers d ∧ ck_HeaderID r = hr_ID h ∧ id ∈ ids ∧ count_of id r = 0).

(** [hs] is the longest run of consecutive heights the headers begin with. *)
Definition first_run (missing : list header_row) (hs : list Header) : Prop :=
  ∃ rest, map scan_header missing = hs ++ rest ∧ (hs = [] → rest = []) ∧
    (∀ n l, hs = n :: l → consecutive (hd_BlockNumber n) hs) ∧
    (∀ n l h rest', hs = n :: l → rest = h :: rest' →
       hd_BlockNumber h ≠ hd_BlockNumber n + Z.of_nat (length hs)).

(** C34: an [Execute] that returns took the headers missing for the watched
    events from the watcher's start on, up to the first gap in their heights,
    and each of these is checked for all watched events; the next time it
    starts after the last of them, and where it was if none was missing.  The
    missing headers after a gap are left for later. *)
Theorem Execute_checks_missing o w s w' s' : counts_ok (tables s) →
  Forall (λ h, - 2 ^ 63 ≤ hr_BlockNumber h < 2 ^ 63 - 1) (c_headers (tables s)) →
  Execute Node_ID o w s = (DOk tt, w', s') →
  ∃ missing hs, missing_from (Start w) (eventIds w) (tables s) missing ∧ first_run missing hs ∧
    (∀ h, h ∈ hs → checked_all (hd_ID h) (map ident (eventIds w)) (tables s')) ∧
    Start w' = match last hs with Some h => i64_add (hd_BlockNumber h) 1 | None => Start w end.
Proof.
  intros Hc Hb E. unfold Execute in E. m_step E cs w1 s1. unfold m_get in E0. simplify_eq.
  case_match; [done|]. m_step E start w2 s2. unfold m_get in E0. simplify_eq.
  m_step E ids w3 s3. unfold m_get in E0. simplify_eq. m_step E hs w4 s4. rewrite m_db_ok in E0. destruct E0 as [Em ->].
  destruct (MissingHeadersForAll_exact Node_ID _ _ _ _ _ _ _ Hb Em) as (_ & Hsort & Hmiss & Hrun).
  eexists _, hs. split; [split; [exact Hsort|]|split; [exact Hrun|]].
  { intros h. rewrite Hmiss. unfold in_range. rewrite !andb_true_iff, Z.leb_le, bool_decide_eq_true. simpl. naive_solver. }
  assert (Hs4 : counts_ok (tables s4)).
  { assert (Hmv : moves ext (MissingHeadersForAll Node_ID (Start w3) (-1) (eventIds w3))).
    { apply moves_bind; [apply _|apply join_query_moves|intros l; apply moves_ret; apply _]. }
    specialize (Hmv o s3). rewrite Em in Hmv. by apply ext_checked_le in Hmv as [Ho _]; apply Ho. }
  split.
  - intros h Hh. pose proof (m_moves_for proceeds execute_header hs execute_header_proceeds o w3 s4) as [(_ & _ & Hids & _) _].
    rewrite E in Hids. simpl in Hids. rewrite <- Hids.
    enough (events_checked h w' (tables s')) as [_ ?] by done. revert h Hh.
    refine (achieves_for proceeds (λ _ d, counts_ok d) execute_header events_checked hs _ _ _ _ o w3 s4 tt w' s' Hs4 E).
    + apply execute_header_proceeds.
    + apply counts_ok_stable.
    + intros h _. apply events_checked_stable.
    + intros h _. apply execute_header_checked.
  - pose proof (execute_loop_start hs _ _ _ _ _ E) as Hst. destruct (last hs); [done|by subst].
Qed.

(** Nothing before the polling fails with the polling's error. *)
Lemma process_contract_fails header p :
  fails_with (process_contract header p) (λ e, e ≠ Errorf "error polling methods").
Proof.
  unfold process_contract. apply fails_bind.
  { intros o m s b e m' s'. unfold get_contract. by destruct (Contracts m !! p.1). }
  intros con. apply fails_bind; [by intros o m s b e m' s'|intros events].
  apply fails_bind; [by apply fails_wrap|intros cl]. apply fails_bind; [by intros o m s b e m' s'|intros ls].
  apply fails_for. intros q. unfold persist_event. case_match; [apply fails_ret|by apply fails_wrap].
Qed.

Lemma process_logs_fails header (logs : list types_Log) :
  fails_with (if (length logs <? 1)%nat then m_ret tt
     else sortedLogs <== range_map (sort_logs logs) ;; m_for (process_contract header) sortedLogs)
    (λ e, e ≠ Errorf "error polling methods").
Proof.
  case_match; [apply fails_ret|]. apply fails_bind; [by intros o1 m s1 b1 e m' s1'|intros l].
  apply fails_for, process_contract_fails.
Qed.

(** When polling fails at a header, the header is already checked for the
    events, so no later query for missing headers returns it: its methods are
    never polled. *)
Theorem failed_poll_is_skipped header o w s b w' s' : counts_ok (tables s) →
  execute_header header o w s = (DErr b (Errorf "error polling methods"), w', s') →
  ∀ start stop o' hs s'', MissingHeadersForAll Node_ID start stop (eventIds w') o' s' = (DOk hs, s'') →
    hd_ID header ∉ map hd_ID hs.
Proof.
  intros Hc E start stop o' hs s'' Em.
  enough (events_checked header w' (tables s')) as [_ Ha] by by eapply checked_not_missing.
  unfold execute_header in E.
  apply m_bind_err in E as [E|([] & w1 & s1 & E1 & E)]; [done|].
  assert (Hc1 : counts_ok (tables s1)) by (unfold m_modify in E1; by simplify_eq).
  apply m_bind_err in E as [E|(addrs & w2 & s2 & E2 & E)]; [done|]. unfold m_get in E2. simplify_eq.
  apply m_bind_err in E as [E|(filters & w3 & s3 & E3 & E)]; [done|]. unfold m_get in E3. simplify_eq.
  apply m_bind_err in E as [E|(logs & w4 & s4 & E4 & E)].
  { by apply (fails_wrap _ _ (λ e, e ≠ Errorf "error polling methods")) in E. }
  rewrite m_wrap_ok in E4. unfold m_lift in E4. rewrite m_db_ok in E4. destruct E4 as [E4 ->].
  assert (s4 = s3) as -> by (unfold db_lift in E4; destruct (FetchLogs _ _ _); by simplify_eq).
  apply m_bind_err in E as [E|([] & w5 & s5 & E5 & E)]; [by apply process_logs_fails in E|].
  pose proof (process_logs_moves header logs o w3 s3) as Hmv. rewrite E5 in Hmv.
  assert (Hc5 : counts_ok (tables s5)) by exact (counts_ok_stable _ _ (evolves_proceeds _ _ Hmv) Hc1).
  apply m_bind_err in E as [E|([] & w6 & s6 & E6 & E)].
  { apply (fails_bind _ _ (λ e, e ≠ Errorf "error polling methods")) in E; [done|apply fails_get|].
    intros ids. by apply fails_wrap. }
  apply mark_events_checked in E6; [|exact Hc5].
  apply m_bind_err in E as [E|([] & w7 & s7 & _ & E)]; [|done].
  pose proof (methodPolling_proceeds header o w6 s6) as Hp. unfold m_wrap in E.
  destruct (methodPolling header o w6 s6) as [[[[]|b3 e|m] w8] s8]; simplify_eq.
  by apply (events_checked_stable header _ _ Hp).
Qed.

End Progress.
