(* ===== verification/ContractPolling.v ===== *)
(** * What polling the methods of a contract achieves, and when it cannot

    A poll that returns has stored, for every method and every combination of
    the values collected before, what the node answered; a method that cannot
    be polled, or a set of contracts without events, stops the whole watcher. *)

From S2P Require Import Prelude GoInt Decimal ChainTypes Geth Sql Queries BlockChain HeaderSync EventLogs Memory ContractTypes ContractDB ContractConverter ContractWatcher.

(** ** What polling does to the state *)

(** The values collected for a contract are only added to. *)
Definition collects (c c' : Contract) : Prop :=
  same_contract c c' ∧ ∀ t, default ∅ (args_for t c) ⊆ default ∅ (args_for t c').

#[export] Instance collects_preorder : PreOrder collects.
Proof. split; [intros c; by split|]. intros c1 c2 c3 [H1 H2] [H3 H4]. split; [by etransitivity|set_solver]. Qed.

(** Rows are only added to the tables of methods. *)
Definition method_tables_ext (ts ts' : gmap (string * string) method_table) : Prop :=
  ∀ tid t, ts !! tid = Some t → ∃ t', ts' !! tid = Some t' ∧ mt_Columns t' = mt_Columns t ∧ mt_Rows t ⊆ mt_Rows t'.

#[export] Instance method_tables_ext_preorder : PreOrder method_tables_ext.
Proof.
  split.
  - intros ts tid t Ht. exists t. by split_and!.
  - intros t1 t2 t3 H12 H23 tid t Ht. destruct (H12 _ _ Ht) as (t' & Ht' & Hc & Hr).
    destruct (H23 _ _ Ht') as (t'' & Ht'' & Hc' & Hr'). exists t''. split_and!; [done|congruence|set_solver].
Qed.

Section Polling.
Context `{GethCommon} `{LogJSON} `{LRU} `{ContractLib} `{MapOrder} `{!MapOrderLaws}.
Context (Node_ID : string).

Definition polls (p p' : Watcher * ContractDB) : Prop :=
  (∀ a c, Contracts p.1 !! a = Some c → ∃ c', Contracts p'.1 !! a = Some c' ∧ collects c c') ∧
  method_tables_ext (method_tables p.2) (method_tables p'.2).

#[local] Instance polls_preorder : PreOrder polls.
Proof.
  split; [intros p; split; [intros a c Ha; by exists c|done]|].
  intros p1 p2 p3 [Hc12 Ht12] [Hc23 Ht23]. split; [|by etransitivity].
  intros a c Ha. destruct (Hc12 a c Ha) as (c' & Ha' & Hc). destruct (Hc23 a c' Ha') as (c'' & Ha'' & Hc').
  exists c''. split; [done|by etransitivity].
Qed.

Lemma polls_memory w w' d : Contracts w' = Contracts w → polls (w, d) (w', d).
Proof. intros E. split; simpl; [|done]. rewrite E. intros a c Ha. by exists c. Qed.

Lemma polls_db {A} (f : DB ContractDB A) :
  moves (λ d d', method_tables_ext (method_tables d) (method_tables d')) f → m_moves polls (m_db f).
Proof. intros Hf. apply m_moves_db. intros w o s. split; simpl; [intros a c Ha; by exists c|apply Hf]. Qed.

#[local] Instance tables_preorder : PreOrder (λ d d', method_tables_ext (method_tables d) (method_tables d')).
Proof. split; [by intros d|]. intros d1 d2 d3 H12 H23. by etransitivity. Qed.

Lemma run_polls {A} (g : Watcher → result A * Watcher) :
  (∀ w, Contracts (g w).2 = Contracts w) → m_moves polls (m_run g).
Proof. intros Hg. apply m_moves_run. intros w d. by apply polls_memory. Qed.

Lemma get_contract_polls addr : m_moves polls (get_contract addr).
Proof. intros o w s. unfold get_contract. by destruct (Contracts w !! addr). Qed.

(** The caches of the methods have nothing to do with the contracts. *)
Lemma create_schema_polls addr : m_moves polls (create_schema method_caches HeaderSyncMode addr).
Proof.
  unfold create_schema. case_bool_decide; [solve_moves|].
  apply m_moves_bind; [apply _| |intros []; [solve_moves|]].
  { apply run_polls. intros w. by destruct (lru_Get _ _). }
  apply m_moves_bind; [apply _| |intros ex].
  { apply m_moves_wrap, polls_db, moves_select_auto; apply _. }
  apply m_moves_bind; [apply _| |intros _].
  - destruct ex; [solve_moves|]. by apply m_moves_wrap, polls_db, moves_modify_auto; [apply _|].
  - apply m_moves_bind; [apply _| |intros _; solve_moves].
    apply m_moves_modify. intros w d. by apply polls_memory.
Qed.

Lemma method_table_added tid t d :
  (∀ t0, method_tables d !! tid = Some t0 → mt_Columns t = mt_Columns t0 ∧ mt_Rows t0 ⊆ mt_Rows t) →
  method_tables_ext (method_tables d) (<[tid := t]> (method_tables d)).
Proof.
  intros Ht tid' t' Ht'. destruct (decide (tid' = tid)) as [->|Hne].
  - rewrite lookup_insert_eq. exists t. by destruct (Ht _ Ht').
  - rewrite lookup_insert_ne by done. exists t'. by split_and!.
Qed.

Lemma newMethodTable_polls id m :
  moves (λ d d', method_tables_ext (method_tables d) (method_tables d')) (newMethodTable id m).
Proof.
  unfold newMethodTable. case_match; [by intros o s|].
  apply moves_exec_auto_check; [apply _|]. intros d q a d'. unfold create_query.
  destruct (negb _); [done|]. destruct (has_table id d) eqn:Eh; [by intros [= _ <-]|].
  destruct (negb _); [done|]. destruct (negb _); [done|]. intros [= _ <-].
  apply has_table_false in Eh as [_ Hn]. apply method_table_added. intros t0. by rewrite Hn.
Qed.

Lemma create_table_polls table m id :
  m_moves polls (create_table method_caches HeaderSyncMode id table (newMethodTable (schema_name HeaderSyncMode id, table) m)).
Proof.
  unfold create_table. apply m_moves_bind; [apply _| |intros []; [solve_moves|]].
  { apply run_polls. intros w. by destruct (lru_Get _ _). }
  apply m_moves_bind; [apply _| |intros ex].
  { apply m_moves_wrap, polls_db, moves_select_auto; apply _. }
  apply m_moves_bind; [apply _| |intros _].
  - destruct ex; [solve_moves|]. by apply m_moves_wrap, polls_db, newMethodTable_polls.
  - apply m_moves_bind; [apply _| |intros _; solve_moves].
    apply m_moves_modify. intros w d. by apply polls_memory.
Qed.

Lemma insert_result_polls tid name r data d q a d' :
  (insert_result tid name r data d q).1 = Ok (a, d') → method_tables_ext (method_tables d) (method_tables d').
Proof.
  unfold insert_result. destruct (method_tables d !! tid) as [t|] eqn:Et; [|done].
  destruct (columns_error _ _); [done|]. destruct (nextval _ q). intros [= _ <-].
  apply method_table_added. intros t0 Ht0. simplify_eq. split; [done|set_solver].
Qed.

Lemma persist_results_polls name addr results :
  moves (λ d d', method_tables_ext (method_tables d) (method_tables d'))
    (db_for (persist_result HeaderSyncMode addr name) results).
Proof.
  apply moves_for; [apply _|]. intros r. unfold persist_result. destruct (method_data r); [|by intros o s].
  apply moves_exec_check; [apply _|]. intros d q a d'. apply insert_result_polls.
Qed.

Lemma PersistResults_polls results m addr name : m_moves polls (PersistResults HeaderSyncMode results m addr name).
Proof.
  unfold PersistResults. case_match; [solve_moves|].
  apply m_moves_bind; [apply _|apply create_schema_polls|intros _].
  apply m_moves_bind; [apply _|apply create_table_polls|intros _].
  apply polls_db, moves_transact, persist_results_polls; apply _.
Qed.

Lemma same_contract_fields c c' : same_contract c c' →
  con_Abi c' = con_Abi c ∧ con_Address c' = con_Address c ∧ con_Name c' = con_Name c ∧ con_Methods c' = con_Methods c.
Proof. by intros (a & h & ->). Qed.

Lemma args_for_emitted t a h c : args_for t (set_emitted a h c) =
  match t with HashTy | FixedBytesTy => h | AddressTy => a | _ => None end.
Proof. by destruct t. Qed.

Lemma add_addrs_collects l c c' s : EmittedAddrs c = Some s → AddEmittedAddr l c = Ok c' → collects c c'.
Proof.
  intros Hs E. destruct (AddEmittedAddr_exact l c s Hs) as (s' & E' & Hs'). rewrite E' in E. simplify_eq.
  split; [by exists (Some s'), (EmittedHashes c)|]. intros t. rewrite args_for_emitted.
  destruct t; simpl; rewrite ?Hs; set_solver.
Qed.

Lemma add_hashes_collects l c c' s : EmittedHashes c = Some s → AddEmittedHash l c = Ok c' → collects c c'.
Proof.
  intros Hs E. destruct (AddEmittedHash_exact l c s Hs) as (s' & E' & Hs'). rewrite E' in E. simplify_eq.
  split; [by exists (EmittedAddrs c), (Some s')|]. intros t. rewrite args_for_emitted.
  destruct t; simpl; rewrite ?Hs; set_solver.
Qed.

Lemma cache_value_collects out c c' : cache_value out c = Ok c' → collects c c'.
Proof.
  unfold cache_value. destruct (con_Piping c); [|by intros [= <-]].
  assert (Hh : ∀ l, match EmittedHashes c with Some _ => AddEmittedHash l c | None => Ok c end = Ok c' → collects c c').
  { intros l. destruct (EmittedHashes c) as [s|] eqn:Es; [by eapply add_hashes_collects|by intros [= <-]]. }
  destruct out; try (by intros [= <-]).
  - destruct (EmittedAddrs c) as [s|] eqn:Es; [by eapply add_addrs_collects|by intros [= <-]].
  - apply Hh.
  - destruct (_ =? _)%nat; [apply Hh|by intros [= <-]].
Qed.

Lemma cache_polls addr out : m_moves polls (cache addr out).
Proof.
  intros o w s. unfold cache, with_contract, get_contract, m_bind, m_modify.
  destruct (Contracts w !! addr) as [c|] eqn:Ec; [|done].
  assert (Hu : ∀ c', collects c c' → polls (w, tables s) (set_contracts (<[addr := c']> (Contracts w)) w, tables s)).
  { intros c' Hc'. split; simpl; [|done]. intros a c0 Ha. destruct (decide (a = addr)) as [->|Hne].
    - simplify_eq. exists c'. by rewrite lookup_insert_eq.
    - rewrite lookup_insert_ne by done. by exists c0. }
  destruct (cache_value out c) as [c'|e|m] eqn:E; simpl; apply Hu; [|done..]. by eapply cache_value_collects.
Qed.

Lemma poll_call_polls addr m pgType bn args : m_moves polls (poll_call addr m pgType bn args).
Proof.
  unfold poll_call. apply m_moves_bind; [apply _|apply get_contract_polls|intros c].
  apply m_moves_bind; [apply _|solve_moves|intros out].
  apply m_moves_bind; [apply _|solve_moves|intros str].
  apply m_moves_bind; [apply _|apply cache_polls|intros _; solve_moves].
Qed.

Lemma persist_polled_polls addr m rs : m_moves polls (persist_polled addr m rs).
Proof.
  unfold persist_polled. apply m_moves_bind; [apply _|apply get_contract_polls|intros c].
  apply m_moves_wrap, PersistResults_polls.
Qed.

Lemma poll_args_polls addr t call keys : (∀ v, m_moves polls (call v)) → m_moves polls (poll_args addr t call keys).
Proof.
  intros Hcall. induction keys as [|k keys IH]; simpl; [solve_moves|].
  apply m_moves_bind; [apply _|apply get_contract_polls|intros c].
  case_bool_decide; [|done]. apply m_moves_bind; [apply _|done|intros rs].
  apply m_moves_bind; [apply _|done|intros rest; solve_moves].
Qed.

Lemma range_set_polls s : m_moves polls (range_set s).
Proof. by apply run_polls. Qed.

Lemma poll_one_polls addr m pgType bn args :
  m_moves polls (r <== poll_call addr m pgType bn args ;; m_ret [r]).
Proof. apply m_moves_bind; [apply _|apply poll_call_polls|intros r; solve_moves]. Qed.

Lemma poll_pairs_polls addr m pgType bn t2 v :
  m_moves polls (c <== get_contract addr ;;
    keys2 <== range_set (default ∅ (args_for t2 c)) ;;
    poll_args addr t2 (λ arg2, r <== poll_call addr m pgType bn [v; arg2] ;; m_ret [r]) keys2).
Proof.
  apply m_moves_bind; [apply _|apply get_contract_polls|intros c'].
  apply m_moves_bind; [apply _|apply range_set_polls|intros keys2].
  apply poll_args_polls. intros v2. apply poll_one_polls.
Qed.

Lemma poll_method_polls addr bn m : m_moves polls (poll_method addr bn m).
Proof.
  unfold poll_method. destruct (length (met_Args m)) as [|[|[|n]]]; [| | |solve_moves].
  - unfold pollNoArgAt. apply m_moves_bind; [apply _|solve_moves|intros pg].
    apply m_moves_bind; [apply _|apply poll_call_polls|intros r; apply persist_polled_polls].
  - unfold pollSingleArgAt. apply m_moves_bind; [apply _|solve_moves|intros pg].
    apply m_moves_bind; [apply _|apply get_contract_polls|intros c].
    case_match; [solve_moves|].
    apply m_moves_bind; [apply _|apply range_set_polls|intros keys].
    apply m_moves_bind; [apply _| |intros rs; apply persist_polled_polls].
    apply poll_args_polls. intros v. apply poll_one_polls.
  - unfold pollDoubleArgAt. apply m_moves_bind; [apply _|solve_moves|intros pg].
    apply m_moves_bind; [apply _|apply get_contract_polls|intros c].
    case_match; [solve_moves|]. case_match; [solve_moves|].
    apply m_moves_bind; [apply _|apply range_set_polls|intros keys].
    apply m_moves_bind; [apply _| |intros rs; apply persist_polled_polls].
    apply poll_args_polls. intros v. apply poll_pairs_polls.
Qed.

(** ** What a poll asks for and stores *)

(** The arguments a method is called with: every combination of the values
    collected for its parameters. *)
Definition call_args (m : Method) (c : Contract) (args : list value) : Prop :=
  let collected t k := k ∈ default ∅ (args_for t c) in
  match met_Args m with
  | [] => args = []
  | [f] => ∃ k, collected (ty_T (f_Type f)) k ∧ args = [arg_value (ty_T (f_Type f)) k]
  | [f; g] => ∃ k l, collected (ty_T (f_Type f)) k ∧ collected (ty_T (f_Type g)) l ∧
      args = [arg_value (ty_T (f_Type f)) k; arg_value (ty_T (f_Type g)) l]
  | _ => False
  end.

(** What the node answers at a block, as it is stored. *)
Definition answers (c : Contract) (m : Method) (args : list value) (bn : Z) (s : string) : Prop :=
  ∃ out, FetchContractData (con_Abi c) (con_Address c) (met_Name m) args bn = Ok out ∧ stringify out = Ok s.

Definition result_stored (addr : string) (r : MethodResult) (d : ContractDB) : Prop :=
  ∃ t row data, method_tables d !! (schema_name HeaderSyncMode addr, method_table_name (met_Name (res_Method r))) = Some t ∧
    row ∈ mt_Rows t ∧ method_data r = Some data ∧
    mr_Block row = res_Block r ∧ mr_Args row = list_to_map data ∧ mr_Returned row = res_Output r.

(** The answer for some arguments is in the table of the method. *)
Definition answer_stored (c : Contract) (m : Method) (bn : Z) (args : list value) (d : ContractDB) : Prop :=
  ∃ s pg, answers c m args bn s ∧
    result_stored (con_Address c) (mkMethodResult m (map StringifyArg args) s pg bn) d.

Lemma result_stored_polls addr r d d' : method_tables_ext (method_tables d) (method_tables d') →
  result_stored addr r d → result_stored addr r d'.
Proof.
  intros Hext (t & row & data & Ht & Hrow & Hd). destruct (Hext _ _ Ht) as (t' & Ht' & _ & Hrows).
  exists t', row, data. split_and!; [done|by apply Hrows|apply Hd..].
Qed.

Lemma persist_result_stored addr name r o s s' :
  persist_result HeaderSyncMode addr name r o s = (DOk tt, s') → result_stored addr r (tables s').
Proof.
  unfold persist_result. destruct (method_data r) as [data|] eqn:Ed; [|done]. unfold exec_check.
  destruct (aborted s); [done|]. destruct (o (clock s)); [done|]. unfold insert_result.
  destruct (method_tables (tables s) !! _) as [t|] eqn:Et; [|done]. destruct (columns_error _ _); [done|].
  destruct (nextval _ _) as [id q]. intros [= <-].
  exists (mkMethodTable (mt_Columns t) (mt_Rows t ++ [mkMethodRow id name (res_Block r) (list_to_map data) (res_Output r)])).
  eexists _, data. simpl. rewrite lookup_insert_eq. split_and!; [done|by apply elem_of_app; right; left|done..].
Qed.

Lemma persist_results_stored addr name results : ∀ o s s',
  db_for (persist_result HeaderSyncMode addr name) results o s = (DOk tt, s') →
  ∀ r, r ∈ results → result_stored addr r (tables s').
Proof.
  induction results as [|x results IH]; intros o s s' E r Hr; [by apply elem_of_nil in Hr|].
  simpl in E. unfold db_bind in E.
  destruct (persist_result HeaderSyncMode addr name x o s) as [[[]|? ?|?] s1] eqn:E1; [|done..].
  apply elem_of_cons in Hr as [->|Hr]; [|by eapply IH].
  eapply result_stored_polls; [|by eapply persist_result_stored].
  pose proof (persist_results_polls name addr results o s1) as Hm. by rewrite E in Hm.
Qed.

Lemma PersistResults_stored results m addr name :
  achieves (λ _ _, True) (PersistResults HeaderSyncMode results m addr name)
    (λ _ _ d, ∀ r, r ∈ results → result_stored addr r d).
Proof.
  unfold PersistResults. case_match; [by intros o w s a w' s' _|].
  apply achieves_bind with (Q := λ _ _ _, True); [by intros o w s a w' s' _ _|intros _].
  apply achieves_bind with (Q := λ _ _ _, True); [by intros o w s a w' s' _ _|intros _].
  intros o w s [] w' s' _. unfold m_db, persistResults.
  destruct (transact _ o s) as [r s1] eqn:E. intros [= -> -> ->].
  apply transact_ok in E as (s2 & s3 & _ & _ & E & ->). by eapply persist_results_stored.
Qed.

(** The contract is still there, with at least the values it had. *)
Definition has_contract (addr : string) (c : Contract) (w : Watcher) (_ : ContractDB) : Prop :=
  ∃ c', Contracts w !! addr = Some c' ∧ collects c c'.

Lemma has_contract_stable addr c : stable polls (has_contract addr c).
Proof.
  intros p p' [Hc _] (c' & Ha & Hcc). destruct (Hc _ _ Ha) as (c'' & Ha' & Hcc'').
  exists c''. split; [done|by etransitivity].
Qed.

Lemma answers_same c c' m args bn s : same_contract c c' → answers c' m args bn s ↔ answers c m args bn s.
Proof. intros (Ha & Hd & _)%same_contract_fields. unfold answers. by rewrite Ha, Hd. Qed.

(** A call of a method returns the answer for its arguments. *)
Lemma poll_call_answers addr c m pg bn args :
  achieves (has_contract addr c) (poll_call addr m pg bn args)
    (λ r _ _, ∃ s, answers c m args bn s ∧ r = mkMethodResult m (map StringifyArg args) s pg bn).
Proof.
  intros o w s r w' s' (c' & Hc' & Hcc) E. unfold poll_call in E.
  m_step E c1 w1 s1. apply get_contract_ok in E0 as (Hc1 & -> & ->). assert (c1 = c') as -> by congruence.
  m_step E out w2 s2. unfold m_lift in E0. rewrite m_db_ok in E0. destruct E0 as [E0 ->].
  assert (FetchContractData (con_Abi c') (con_Address c') (met_Name m) args bn = Ok out ∧ s2 = s) as [Hout ->].
  { unfold db_lift in E0. by destruct (FetchContractData _ _ _ _ _); simplify_eq. }
  m_step E str w3 s3. unfold m_lift in E1. rewrite m_db_ok in E1. destruct E1 as [E1 ->].
  assert (stringify out = Ok str) as Hstr.
  { unfold db_lift in E1. by destruct (stringify out); simplify_eq. }
  m_step E u w4 s4. unfold m_ret in E. simplify_eq. exists str. split; [|done].
  apply (answers_same c c'); [apply Hcc|]. by exists out.
Qed.

(** The loop calls for every key that was collected before; [Φ] is what a call
    contributes to the results. *)
Lemma poll_args_results addr c t (call : value → MDB Watcher ContractDB (list MethodResult))
    (Φ : value → list MethodResult → Prop) keys :
  (∀ v, m_moves polls (call v)) →
  (∀ v, achieves (has_contract addr c) (call v) (λ rs _ _, Φ v rs)) →
  (∀ v l rs l', Φ v rs → Φ v (l ++ rs ++ l')) →
  achieves (has_contract addr c) (poll_args addr t call keys)
    (λ rs _ _, ∀ k, k ∈ keys → k ∈ default ∅ (args_for t c) → Φ (arg_value t k) rs).
Proof.
  intros Hmv Hcall Hmono. induction keys as [|k keys IH]; simpl.
  { apply achieves_ret. intros w d _ k Hk. by apply elem_of_nil in Hk. }
  intros o w s rs w' s' Hc E. m_step E c1 w1 s1. apply get_contract_ok in E0 as (Hc1 & -> & ->).
  destruct Hc as (c' & Hc' & Hcc). assert (c1 = c') as -> by congruence.
  assert (Hc : has_contract addr c w (tables s)) by by exists c'.
  case_bool_decide as Hin.
  - m_step E r1 w2 s2. m_step E rest w3 s3. unfold m_ret in E. simplify_eq.
    assert (has_contract addr c w2 (tables s2)) as Hc2.
    { eapply (achieves_stable polls (call (arg_value t k))); [apply Hmv|apply has_contract_stable|exact Hc|exact E0]. }
    intros k' [->|Hk]%elem_of_cons Hk'.
    + apply (Hmono _ [] r1 rest). eapply Hcall; [exact Hc|exact E0].
    + rewrite <- (app_nil_r rest). apply Hmono. eapply IH; [exact Hc2|exact E1|done..].
  - intros k' [->|Hk]%elem_of_cons Hk'; [|eapply IH; [exact Hc|exact E|done..]]. destruct Hin. by apply Hcc.
Qed.

Definition has_answer (c : Contract) (m : Method) (bn : Z) (args : list value) (rs : list MethodResult) : Prop :=
  ∃ s pg, answers c m args bn s ∧ mkMethodResult m (map StringifyArg args) s pg bn ∈ rs.

Lemma has_answer_mono c m bn args l rs l' : has_answer c m bn args rs → has_answer c m bn args (l ++ rs ++ l').
Proof. intros (s & pg & Ha & Hin). exists s, pg. split; [done|set_solver]. Qed.

Lemma poll_one_answers addr c m pg bn args :
  achieves (has_contract addr c) (r <== poll_call addr m pg bn args ;; m_ret [r])
    (λ rs _ _, has_answer c m bn args rs).
Proof.
  eapply achieves_bind; [apply poll_call_answers|intros r]. apply achieves_ret.
  intros w d (s & Ha & ->). exists s, pg. split; [done|by left].
Qed.

Lemma persist_polled_stored addr c m bn rs : con_Address c = addr →
  achieves (has_contract addr c) (persist_polled addr m rs)
    (λ _ _ d, ∀ args, has_answer c m bn args rs → answer_stored c m bn args d).
Proof.
  intros <- o w s [] w' s' (c' & Hc' & Hcc) E. unfold persist_polled in E. m_step E c1 w1 s1.
  apply get_contract_ok in E0 as (Hc1 & -> & ->). assert (c1 = c') as -> by congruence. apply m_wrap_ok in E.
  intros args (str & pg & Ha & Hin). exists str, pg. split; [done|].
  destruct (same_contract_fields _ _ (proj1 Hcc)) as (_ & Had & _). rewrite <- Had.
  eapply PersistResults_stored in E; [|done]. by apply E.
Qed.

(** Iterating over a set visits all of it. *)
Lemma range_set_ok S o w (s : session ContractDB) keys w' s' :
  range_set S o w s = (DOk keys, w', s') → ∀ k, k ∈ S → k ∈ keys.
Proof. unfold range_set, m_run, m_lift, m_db. intros [= <- _ _] k. apply visit_all. Qed.

Lemma size_0_empty (X : gset bytes) : (size X =? 0)%nat = true → X = ∅.
Proof. intros E%Nat.eqb_eq. by apply leibniz_equiv, size_empty_inv. Qed.

Lemma arg_type_head f l : arg_type (f :: l) 0 = ty_T (f_Type f).
Proof. done. Qed.

Lemma stable_has {A} (f : MDB Watcher ContractDB A) addr c o w s a w' s' : m_moves polls f →
  has_contract addr c w (tables s) → f o w s = (DOk a, w', s') → has_contract addr c w' (tables s').
Proof. intros Hf. apply (achieves_stable polls f); [done|apply has_contract_stable]. Qed.

Lemma lift_ok {A} (r : result A) o w (s : session ContractDB) a w' s' :
  m_lift (M := Watcher) r o w s = (DOk a, w', s') → r = Ok a ∧ w' = w ∧ s' = s.
Proof. unfold m_lift. rewrite m_db_ok. unfold db_lift. intros [E ->]. by destruct r; simplify_eq. Qed.

Lemma pollNoArgAt_stored c bn m : met_Args m = [] →
  achieves (has_contract (con_Address c) c) (pollNoArgAt (con_Address c) m bn) (λ _ _ d, answer_stored c m bn [] d).
Proof.
  intros Hargs o w s [] w' s' Hc E. unfold pollNoArgAt in E.
  m_step E pg w1 s1. apply lift_ok in E0 as (_ & -> & ->). m_step E r w2 s2.
  eapply persist_polled_stored; [done| |exact E|].
  - eapply stable_has; [|exact Hc|exact E0]. apply poll_call_polls.
  - eapply poll_call_answers in E0 as (str & Ha & ->); [|exact Hc]. exists str, pg. split; [done|by left].
Qed.

Lemma pollSingleArgAt_stored c bn m f : met_Args m = [f] →
  achieves (has_contract (con_Address c) c) (pollSingleArgAt (con_Address c) m bn)
    (λ _ _ d, ∀ args, call_args m c args → answer_stored c m bn args d).
Proof.
  intros Hargs o w s [] w' s' Hc E args. unfold pollSingleArgAt in E. unfold call_args. rewrite Hargs in E |- *.
  change (arg_type [f] 0) with (ty_T (f_Type f)) in E. set (t := ty_T (f_Type f)) in *.
  intros (k & Hk & ->). m_step E pg w1 s1. apply lift_ok in E0 as (_ & -> & ->).
  m_step E c1 w2 s2. apply get_contract_ok in E0 as (Hc1 & -> & ->).
  pose proof Hc as (c' & Hc' & _ & Hcc). assert (c1 = c') as -> by congruence. apply Hcc in Hk as Hk'.
  destruct (size _ =? 0)%nat eqn:Es; [by rewrite (size_0_empty _ Es) in Hk'; set_solver|].
  m_step E keys w3 s3. m_step E rs w4 s4.
  assert (Hc3 : has_contract (con_Address c) c w3 (tables s3)).
  { eapply stable_has; [|exact Hc|exact E0]. apply range_set_polls. }
  eapply persist_polled_stored; [done| |exact E|].
  - eapply stable_has; [|exact Hc3|exact E1]. apply poll_args_polls. intros v. apply poll_one_polls.
  - eapply (poll_args_results _ c t _ (λ v, has_answer c m bn [v])) in E1; [by apply E1; [eapply range_set_ok|]| | | |exact Hc3].
    + intros v. apply poll_one_polls.
    + intros v. apply poll_one_answers.
    + intros v l rs' l'. apply has_answer_mono.
Qed.

(** The inner loop asks for every second argument. *)
Lemma poll_pairs_answers c m pg bn t2 v :
  achieves (has_contract (con_Address c) c)
    (c' <== get_contract (con_Address c) ;;
     keys2 <== range_set (default ∅ (args_for t2 c')) ;;
     poll_args (con_Address c) t2 (λ arg2, r <== poll_call (con_Address c) m pg bn [v; arg2] ;; m_ret [r]) keys2)
    (λ rs _ _, ∀ l, l ∈ default ∅ (args_for t2 c) → has_answer c m bn [v; arg_value t2 l] rs).
Proof.
  intros o w s rs w' s' Hc E l Hl. m_step E c1 w2 s2. apply get_contract_ok in E0 as (Hc1 & -> & ->).
  pose proof Hc as (c' & Hc' & _ & Hcc). assert (c1 = c') as -> by congruence. m_step E keys2 w3 s3.
  assert (Hc3 : has_contract (con_Address c) c w3 (tables s3)).
  { eapply stable_has; [|exact Hc|exact E0]. apply range_set_polls. }
  eapply (poll_args_results _ c t2 _ (λ a, has_answer c m bn [v; a])) in E; [| | | |exact Hc3].
  - apply E; [|done]. eapply range_set_ok; [exact E0|]. by apply Hcc.
  - intros a. apply poll_one_polls.
  - intros a. apply poll_one_answers.
  - intros a l' rs' l''. apply has_answer_mono.
Qed.

Lemma pollDoubleArgAt_stored c bn m f g : met_Args m = [f; g] →
  achieves (has_contract (con_Address c) c) (pollDoubleArgAt (con_Address c) m bn)
    (λ _ _ d, ∀ args, call_args m c args → answer_stored c m bn args d).
Proof.
  intros Hargs o w s [] w' s' Hc E args. unfold pollDoubleArgAt in E. unfold call_args. rewrite Hargs in E |- *.
  change (arg_type [f; g] 0) with (ty_T (f_Type f)) in E. change (arg_type [f; g] 1) with (ty_T (f_Type g)) in E.
  set (t1 := ty_T (f_Type f)) in *. set (t2 := ty_T (f_Type g)) in *.
  intros (k & l & Hk & Hl & ->). m_step E pg w1 s1. apply lift_ok in E0 as (_ & -> & ->).
  m_step E c1 w2 s2. apply get_contract_ok in E0 as (Hc1 & -> & ->).
  pose proof Hc as (c' & Hc' & _ & Hcc). assert (c1 = c') as -> by congruence.
  apply Hcc in Hk as Hk', Hl as Hl'.
  destruct (size (default ∅ (args_for t1 c')) =? 0)%nat eqn:Es; [by rewrite (size_0_empty _ Es) in Hk'; set_solver|].
  destruct (size (default ∅ (args_for t2 c')) =? 0)%nat eqn:Es2; [by rewrite (size_0_empty _ Es2) in Hl'; set_solver|].
  m_step E keys w3 s3. m_step E rs w4 s4.
  assert (Hc3 : has_contract (con_Address c) c w3 (tables s3)).
  { eapply stable_has; [|exact Hc|exact E0]. apply range_set_polls. }
  eapply persist_polled_stored; [done| |exact E|].
  - eapply stable_has; [|exact Hc3|exact E1]. apply poll_args_polls. intros v. apply poll_pairs_polls.
  - eapply (poll_args_results _ c t1 _ (λ v rs, ∀ l, l ∈ default ∅ (args_for t2 c) →
      has_answer c m bn [v; arg_value t2 l] rs)) in E1; [by eapply E1; [eapply range_set_ok|..]| | | |exact Hc3].
    + intros v. apply poll_pairs_polls.
    + intros v. apply poll_pairs_answers.
    + intros v l1 rs' l2 Hrs l' Hl2. by apply has_answer_mono, Hrs.
Qed.

Lemma poll_method_stored c bn m :
  achieves (has_contract (con_Address c) c) (poll_method (con_Address c) bn m)
    (λ _ _ d, ∀ args, call_args m c args → answer_stored c m bn args d).
Proof.
  unfold poll_method. destruct (met_Args m) as [|f [|g [|h l]]] eqn:Ea; simpl.
  - eapply achieves_weaken; [by apply pollNoArgAt_stored|done|]. intros ? w d Hst args.
    unfold call_args. rewrite Ea. by intros ->.
  - by eapply pollSingleArgAt_stored.
  - by eapply pollDoubleArgAt_stored.
  - by intros o w s a w' s'.
Qed.

Lemma answer_stored_stable c m bn args : stable polls (λ _, answer_stored c m bn args).
Proof.
  intros p p' [_ Ht] (s & pg & Ha & Hst). exists s, pg. split; [done|]. by eapply result_stored_polls.
Qed.

(** C32: polling a contract at a block, when it returns, has stored for every
    method and every combination of the values collected before the poll the
    answer of the node at that block, as it prints, in the method's table. *)
Theorem PollContractAt_stores c bn o w s w' s' :
  Contracts w !! con_Address c = Some c →
  PollContractAt (con_Address c) bn o w s = (DOk tt, w', s') →
  ∀ m args, m ∈ methods_of c → call_args m c args → answer_stored c m bn args (tables s').
Proof.
  intros Hc E m args Hm Hargs. unfold PollContractAt in E. m_step E c1 w1 s1.
  apply get_contract_ok in E0 as (Hc1 & -> & ->). assert (c1 = c) as -> by congruence.
  revert m Hm args Hargs.
  refine (achieves_for polls (has_contract (con_Address c) c) (poll_method (con_Address c) bn)
    (λ m _ d, ∀ args, call_args m c args → answer_stored c m bn args d) (methods_of c) _ _ _ _ o w s tt w' s' _ E).
  - intros m. apply poll_method_polls.
  - apply has_contract_stable.
  - intros m _ p p' Hp Hst args Hargs. eapply answer_stored_stable; [exact Hp|]. by apply Hst.
  - intros m _. apply poll_method_stored.
  - by exists c.
Qed.

(** ** When polling cannot succeed *)

(** A method without outputs cannot be polled. *)
Lemma poll_no_return c bn m o w s w' s' : met_Return m = [] → poll_method c bn m o w s ≠ (DOk tt, w', s').
Proof.
  intros Hr E. unfold poll_method in E. destruct (length (met_Args m)) as [|[|[|n]]]; [| | |done].
  - unfold pollNoArgAt, return_type in E. rewrite Hr in E. by m_step E pg w1 s1.
  - unfold pollSingleArgAt, return_type in E. rewrite Hr in E. by m_step E pg w1 s1.
  - unfold pollDoubleArgAt, return_type in E. rewrite Hr in E. by m_step E pg w1 s1.
Qed.

(** A contract that is configured with a method the ABI does not have, or has
    but not in a form that can be polled, is never polled successfully at any
    block. *)
Theorem unpollable_blocks_polling c ms wanted name bn o w s w' s' :
  NoDup (map am_Name ms) → con_Methods c = GetSelectMethods ms wanted →
  name ∈ wanted → (∀ m, m ∈ ms → am_Name m = name → ¬ pollable m) →
  Contracts w !! con_Address c = Some c →
  PollContractAt (con_Address c) bn o w s ≠ (DOk tt, w', s').
Proof.
  intros Hnd Hms Hname Hno Hc E. unfold PollContractAt in E. m_step E c1 w1 s1.
  apply get_contract_ok in E0 as (Hc1 & -> & ->). assert (c1 = c) as -> by congruence.
  pose proof (GetSelectMethods_exact ms wanted Hnd) as Hsel. rewrite <- Hms in Hsel.
  unfold methods_of in E. destruct (con_Methods c) as [methods|]; [|by subst; apply elem_of_nil in Hname].
  destruct Hsel as (_ & _ & Hsel). apply list_elem_of_lookup in Hname as [i Hi].
  destruct (Hsel i name Hi) as [(m & Hm & Hn & Hp & _)|[_ Hz]]; [by destruct (Hno m)|].
  apply list_elem_of_lookup_2 in Hz. simpl in E.
  destruct (m_for_ok _ _ _ _ _ _ _ E _ Hz) as (w3 & s3 & w4 & s4 & E3). by eapply poll_no_return in E3.
Qed.

(** ** Without events *)

(** The statement that marks a header has a syntax error. *)
Lemma mark_without_events header o w s w' s' : eventIds w = [] →
  mark_events header o w s ≠ (DOk tt, w', s').
Proof.
  intros Hids E. unfold mark_events in E. m_step E ids w1 s1. unfold m_get in E0. simplify_eq.
  apply m_wrap_ok, m_db_ok in E as [E _]. rewrite Hids in E.
  unfold MarkHeaderCheckedForAll, exec_auto_check in E. by destruct (o (clock s1)).
Qed.

Lemma execute_header_without_events header o w s w' s' : eventIds w = [] →
  execute_header header o w s ≠ (DOk tt, w', s').
Proof.
  intros Hids E. unfold execute_header in E.
  apply m_bind_ok in E as ([] & w1 & s1 & E1 & E). unfold m_modify in E1. simplify_eq.
  apply m_bind_ok in E as (addrs & w2 & s2 & E2 & E). unfold m_get in E2. simplify_eq.
  apply m_bind_ok in E as (fs & w3 & s3 & E3 & E). unfold m_get in E3. simplify_eq.
  apply m_bind_ok in E as (logs & w4 & s4 & E4 & E).
  rewrite m_wrap_ok in E4. apply lift_ok in E4 as (_ & -> & ->).
  apply m_bind_ok in E as ([] & w5 & s5 & E5 & E).
  pose proof (process_logs_moves header logs o (set_start (hd_BlockNumber header) w) s3) as [(_ & _ & Hi & _) _].
  rewrite E5 in Hi. simpl in Hi.
  apply m_bind_ok in E as ([] & w6 & s6 & E6 & E). eapply mark_without_events in E6; [done|]. by rewrite Hi.
Qed.

(** Contracts that are configured with methods alone are never polled:
    [Execute] returns only when no header is missing, and then it has done
    nothing. *)
Lemma eventless_Execute o w s w' s' : eventIds w = [] →
  Execute Node_ID o w s = (DOk tt, w', s') →
  MissingHeadersForAll Node_ID (Start w) (-1) [] o s = (DOk [], s') ∧ w' = w ∧ tables s' = tables s.
Proof.
  intros Hids E. unfold Execute in E. m_step E cs w1 s1. unfold m_get in E0. simplify_eq.
  case_match; [done|]. m_step E start w2 s2. unfold m_get in E0. simplify_eq.
  m_step E ids w3 s3. unfold m_get in E0. simplify_eq. m_step E hs w4 s4. rewrite m_db_ok in E0.
  destruct E0 as [Em ->]. destruct hs as [|h hs].
  - unfold m_for, m_ret in E. simplify_eq. rewrite Hids in Em. split_and!; [done..|].
    unfold MissingHeadersForAll, join_query, exec_auto_check, db_bind, db_ret in Em.
    destruct (o (clock s3)); [done|]. simpl in Em. by simplify_eq.
  - simpl in E. apply m_bind_ok in E as ([] & w5 & s5 & E5 & _). by apply execute_header_without_events in E5.
Qed.

(** ** What is collected *)

(** Every value collected for any contract is one its configuration wants. *)
Definition collected_wanted (w : Watcher) (_ : ContractDB) : Prop :=
  ∀ a c, Contracts w !! a = Some c → emitted_wanted c.

End Polling.
