(* ===== verification/ContractInit.v ===== *)
(** * Setting up the contract watcher
    (header/transformer/transformer.go: Init; libraries/shared/watcher/contract_watcher.go)

    [Init] leaves a watcher whose parts agree: contracts, events, methods and
    identifiers with each other and with the columns of checked_headers.
    [Execute] keeps that. *)

From S2P Require Import Prelude GoInt Decimal ChainTypes Geth Sql Queries BlockChain HeaderSync EventLogs Memory ContractTypes ContractDB ContractConverter ContractWatcher ContractPolling.

Section Init.
Context `{GethCommon} `{LogJSON} `{LRU} `{!LRULaws} `{ContractLib} `{MapOrder} `{!MapOrderLaws}.
Context (Node_ID : string).

(** ** Columns *)

(** What is cached as a column is one. *)
Definition cached_columns (w : Watcher) (d : ContractDB) : Prop :=
  ∀ k, (lru_Get k (columns w)).1 = true → ident k ∈ check_columns d.

(** A watcher that differs in the cache of columns alone. *)
Definition same_setup (w w' : Watcher) : Prop := ∃ c, w' = set_header_cache c w.

#[local] Instance same_setup_preorder : PreOrder same_setup.
Proof.
  split; [intros w; exists (columns w); by destruct w|].
  intros w1 w2 w3 [c ->] [c' ->]. by exists c'.
Qed.

(** [f] adds columns: those of [ids], whatever is cached. *)
Definition adds_columns (f : MDB Watcher ContractDB unit) (ids : list string) : Prop :=
  ∀ o w s w' s', f o w s = (DOk tt, w', s') → cached_columns w (tables s) →
    same_setup w w' ∧ cached_columns w' (tables s') ∧ check_columns (tables s) ⊆ check_columns (tables s') ∧
    ∀ id, id ∈ ids → ident id ∈ check_columns (tables s').

Lemma AddCheckColumn_adds id : adds_columns (AddCheckColumn id) [id].
Proof.
  intros o w s w' s' E Hc. unfold AddCheckColumn, CheckCache in E. m_step E ok w1 s1. unfold m_run in E0.
  destruct (lru_Get id (columns w)) as [ok' c1] eqn:Eg. apply lift_ok in E0 as (Hok & -> & ->). simplify_eq.
  assert (Hc1 : ∀ k, (lru_Get k c1).1 = true → ident k ∈ check_columns (tables s)).
  { intros k Hk. apply Hc. pose proof (lru_Get_only id k (columns w)) as Hl. rewrite Eg in Hl. by apply Hl. }
  destruct ok.
  - unfold m_ret in E. simplify_eq. split_and!; [by eexists|exact Hc1|done|].
    intros ? ->%list_elem_of_singleton. apply Hc. by rewrite Eg.
  - m_step E u w2 s2. rewrite m_db_ok in E0. destruct E0 as [E0 ->]. unfold modify_auto, exec_auto in E0.
    destruct (o (clock s)); [done|]. simplify_eq. unfold m_modify in E. simplify_eq. simpl.
    split_and!; [by eexists| |set_solver|].
    + intros k Hk. simpl in *. apply lru_Add_only in Hk as [->|Hk]; [set_solver|].
      apply elem_of_union. right. by apply Hc1.
    + intros ? ->%list_elem_of_singleton. set_solver.
Qed.

(** ** The contract that is made of the configuration *)

Lemma GetEvents_ok es wanted k e : GetEvents es wanted !! k = Some e → ev_Name e = k.
Proof.
  unfold GetEvents. destruct wanted as [wanted|]; [|by rewrite lookup_empty].
  assert (Hloop : ∀ (m : gmap string Event), (∀ k e, m !! k = Some e → ev_Name e = k) →
    ∀ k e, fold_left (λ events e, if (length wanted =? 0)%nat || stringInSlice wanted (ae_Name e)
        then <[ae_Name e := NewEvent e]> events else events) es m !! k = Some e → ev_Name e = k).
  { induction es as [|e0 es IH]; intros m Hm k0 e1; simpl; [by apply Hm|]. apply IH.
    intros k1 e2. case_match; [|by apply Hm].
    rewrite lookup_insert_Some. intros [[<- <-]|[_ Hk]]; [done|by apply Hm]. }
  apply Hloop. intros k0 e0. by rewrite lookup_empty.
Qed.

Definition no_values (c : Contract) : Prop :=
  default ∅ (EmittedAddrs c) = ∅ ∧ default ∅ (EmittedHashes c) = ∅.

Lemma no_values_wanted c : no_values c → emitted_wanted c.
Proof. intros [Ha Hh]. split; intros s a Hs; rewrite Hs in *; simpl in *; set_solver. Qed.

Lemma Contract_Init_no_values c : no_values c → no_values (Contract_Init c).
Proof.
  assert (Hf : ∀ {A} (f : Contract → A → Contract) l c, (∀ c x, no_values c → no_values (f c x)) →
    no_values c → no_values (fold_left f l c)).
  { intros A f l. induction l as [|x l IH]; intros c0 Hstep Hc0; simpl; auto. }
  intros Hc. unfold Contract_Init. apply Hf; [|done]. intros c0 m Hc0. apply Hf; [|done].
  intros c1 arg [Ha Hh]. unfold init_arg. by destruct (ty_T (f_Type arg)).
Qed.

(** ** What the configuration says of a contract *)

(** The ABI the contract is made with: the configured one, the known one of its
    address, or Etherscan's. *)
Definition abi_source (cfg : ContractConfig) (a abi : string) : Prop :=
  let configured := default "" (cfg_Abis cfg !! a) in
  if bool_decide (configured = "") then
    match ABIs !! HexToAddress a with Some known => abi = known | None => GetAbi a = Ok abi end
  else abi = configured.

(** No list of events wants none, the empty list wants all. *)
Definition event_wanted (cfg : ContractConfig) (a name : string) : Prop :=
  ∃ wanted, cfg_Events cfg !! a = Some wanted ∧ (wanted = [] ∨ name ∈ wanted).

(** The arguments filtered for; the empty list filters nothing. *)
Definition arg_wanted (args : option (list string)) (arg : string) : Prop :=
  default [] args = [] ∨ arg ∈ default [] args.

(** The method that stands at the place of a wanted name. *)
Definition selected (a : ABI) (name : string) (m : Method) : Prop :=
  (∃ key am, abi_Methods a !! key = Some am ∧ am_Name am = name ∧ pollable am ∧ m = NewMethod am) ∨
  ((∀ key am, abi_Methods a !! key = Some am → am_Name am = name → ¬ pollable am) ∧ m = Method_zero).

(** The contract watched at [a] is the one the configuration describes. *)
Record follows_config (cfg : ContractConfig) (a : string) (c : Contract) : Prop := {
  fc_abi : abi_source cfg a (con_Abi c) ∧ ParseAbi (con_Abi c) = Ok (con_ParsedAbi c);
  fc_name : con_Name c = contract_name (con_Abi c) a;
  fc_network : con_Network c = cfg_Network cfg;
  fc_events name ev : con_Events c !! name = Some ev →
    event_wanted cfg a name ∧
    ∃ key e, abi_Events (con_ParsedAbi c) !! key = Some e ∧ ae_Name e = name ∧ ev = NewEvent e;
  fc_all_events key e : abi_Events (con_ParsedAbi c) !! key = Some e → event_wanted cfg a (ae_Name e) →
    is_Some (con_Events c !! ae_Name e);
  fc_methods : length (methods_of c) = length (default [] (cfg_Methods cfg !! a)) ∧
    ∀ i name m, default [] (cfg_Methods cfg !! a) !! i = Some name → methods_of c !! i = Some m →
      selected (con_ParsedAbi c) name m;
  fc_event_args arg : WantedEventArg c arg = true ↔ arg_wanted (cfg_EventArgs cfg !! a) arg;
  fc_method_args v : WantedMethodArg c v = true ↔ arg_wanted (cfg_MethodArgs cfg !! a) (StringifyArg v);
  fc_piping : con_Piping c = default false (cfg_Piping cfg !! a)
}.

Lemma follows_same_contract cfg a c c' : same_contract c c' → follows_config cfg a c → follows_config cfg a c'.
Proof. intros (x & y & ->) []. by split. Qed.

Lemma dedupe_wanted args arg :
  wanted_in (Some (dedupe (default [] args))) arg = true ↔ arg_wanted args arg.
Proof.
  rewrite wanted_in_spec. unfold arg_wanted. generalize (default [] args). intros l. clear args.
  assert (Hin : dedupe l !! arg = Some true ↔ arg ∈ l).
  { unfold dedupe. induction l as [|x l IH]; simpl; [rewrite lookup_empty, elem_of_nil; by split|].
    rewrite lookup_insert_Some, IH, elem_of_cons. destruct (decide (x = arg)) as [->|]; naive_solver. }
  split.
  - intros (m & [= <-] & [Hm|Hm]); [left|right; by apply Hin].
    destruct l as [|x l]; [done|]. exfalso.
    assert (Hx : dedupe (x :: l) !! x = Some true) by (unfold dedupe; simpl; by rewrite lookup_insert_eq).
    by rewrite Hm, lookup_empty in Hx.
  - intros [->|Hl]; eexists; (split; [done|]); [by left|right; by apply Hin].
Qed.

Lemma GetEvents_wanted es wanted : ∀ name ev, GetEvents es wanted !! name = Some ev →
  (∃ l, wanted = Some l ∧ (l = [] ∨ name ∈ l)) ∧ ∃ e, e ∈ es ∧ ae_Name e = name ∧ ev = NewEvent e.
Proof.
  unfold GetEvents. destruct wanted as [l|]; [|intros name ev; by rewrite lookup_empty].
  induction es as [|e es IH] using rev_ind; intros name ev; [simpl; by rewrite lookup_empty|].
  rewrite fold_left_app. simpl. destruct (_ || _) eqn:E; simpl.
  - rewrite lookup_insert_Some. intros [[<- <-]|[_ Hx]].
    + split; [|exists e; set_solver]. exists l. split; [done|]. apply orb_true_iff in E as [E|E].
      * left. by apply Nat.eqb_eq, nil_length_inv in E.
      * right. by apply ListContainsString_spec.
    + destruct (IH _ _ Hx) as [? (e' & ? & ? & ?)]. split; [done|]. exists e'. set_solver.
  - intros Hx. destruct (IH _ _ Hx) as [? (e' & ? & ? & ?)]. split; [done|]. exists e'. set_solver.
Qed.

Lemma GetEvents_all es l e : e ∈ es → l = [] ∨ ae_Name e ∈ l →
  is_Some (GetEvents es (Some l) !! ae_Name e).
Proof.
  intros He Hw. unfold GetEvents. induction es as [|e' es IH] using rev_ind; [by apply elem_of_nil in He|].
  rewrite fold_left_app. simpl. destruct (decide (ae_Name e' = ae_Name e)) as [Hn|Hn].
  - assert (E : ((length l =? 0)%nat || stringInSlice l (ae_Name e'))%bool = true).
    { apply orb_true_iff. destruct Hw as [->|Hw]; [by left|right]. rewrite Hn. by apply ListContainsString_spec. }
    rewrite E, Hn, lookup_insert_eq. by eexists.
  - apply elem_of_app in He as [He|He%list_elem_of_singleton]; [|by subst].
    destruct (_ || _); [rewrite lookup_insert_ne by done|]; by apply IH.
Qed.

(** The methods are selected whatever the order of the map. *)
Lemma GetSelectMethods_selects ms wanted i name m : wanted !! i = Some name →
  default [] (GetSelectMethods ms wanted) !! i = Some m →
  (∃ am, am ∈ ms ∧ am_Name am = name ∧ pollable am ∧ m = NewMethod am) ∨
  ((∀ am, am ∈ ms → am_Name am = name → ¬ pollable am) ∧ m = Method_zero).
Proof.
  intros Hi. assert (Hne : (length wanted =? 0)%nat = false).
  { destruct wanted; [done|]. by apply Nat.eqb_neq. }
  unfold GetSelectMethods. rewrite Hne. simpl.
  assert (Hlen : ∀ l, length (fold_left (select_step wanted) l (replicate (length wanted) Method_zero)) = length wanted).
  { intros l. induction l as [|x l IH] using rev_ind; [apply length_replicate|].
    rewrite fold_left_app. simpl. by apply select_step_length. }
  revert m. induction ms as [|am ms IH] using rev_ind; intros m.
  - simpl. intros [-> _]%lookup_replicate. right. split; [|done]. intros am Ham. by apply elem_of_nil in Ham.
  - rewrite fold_left_app. simpl. rewrite (select_step_lookup _ _ _ _ name) by done.
    destruct (bool_decide (name = am_Name am) && okTypes am wanted) eqn:E.
    + intros [= <-]. apply andb_true_iff in E as [->%bool_decide_eq_true Hok]. left. exists am.
      split_and!; [set_solver|done| |done]. apply (okTypes_spec _ wanted); [|done]. by eapply list_elem_of_lookup_2.
    + intros Hm. destruct (IH m Hm) as [(am' & ? & ? & ? & ?)|[Hno ->]]; [left; exists am'; set_solver|].
      right. split; [|done]. intros am' [Ham|Ham%list_elem_of_singleton]%elem_of_app Hname; [by apply Hno|subst am'].
      intros Hp. apply andb_false_iff in E as [E|E]; [by rewrite bool_decide_eq_true_2 in E|].
      apply (okTypes_spec _ wanted) in Hp; [congruence|]. rewrite Hname. by eapply list_elem_of_lookup_2.
Qed.

Lemma GetSelectMethods_length ms wanted : length (default [] (GetSelectMethods ms wanted)) = length wanted.
Proof.
  unfold GetSelectMethods. destruct (Nat.eqb_spec (length wanted) 0) as [Hw|Hw]; simpl; [done|].
  induction ms as [|x l IH] using rev_ind; [apply length_replicate|].
  rewrite fold_left_app. simpl. by apply select_step_length.
Qed.

Section Config.
Context (cfg : ContractConfig).

Abbreviation the_contract a fb p es ms := (new_contract cfg a fb p es ms).

Lemma new_contract_spec a fb p es ms :
  con_Address (the_contract a fb p es ms) = a ∧ con_StartingBlock (the_contract a fb p es ms) = fb ∧
  events_ok (the_contract a fb p es ms) ∧ emitted_wanted (the_contract a fb p es ms) ∧
  con_Methods (the_contract a fb p es ms) = GetSelectMethods ms (default [] (cfg_Methods cfg !! a)) ∧
  con_Events (the_contract a fb p es ms) = GetEvents es (cfg_Events cfg !! a).
Proof.
  unfold new_contract. match goal with |- context [Contract_Init ?c] => set (c0 := c) end.
  destruct (Contract_Init_spec c0) as [(x & y & E) _].
  assert (Hv : no_values (Contract_Init c0)) by by apply Contract_Init_no_values.
  split; [by rewrite E|]. split; [by rewrite E|]. split; [|split; [by apply no_values_wanted|]]; [|rewrite E; by split].
  intros k e. rewrite E. simpl. apply GetEvents_ok.
Qed.

(** The contract made with the parser after it parsed the ABI of [a]. *)
Lemma new_contract_follows a fb p es ms :
  abi_source cfg a (p_abi p) → ParseAbi (p_abi p) = Ok (p_parsedAbi p) →
  es ≡ₚ map_to_list (abi_Events (p_parsedAbi p)) → ms ≡ₚ map_to_list (abi_Methods (p_parsedAbi p)) →
  follows_config cfg a (the_contract a fb p (map snd es) (map snd ms)).
Proof.
  intros Hsrc Hparse Hes Hms.
  assert (Hin : ∀ {A} (l : list (string * A)) (m : gmap string A) x, l ≡ₚ map_to_list m →
    x ∈ map snd l ↔ ∃ key, m !! key = Some x).
  { intros A l m x Hl. rewrite Hl, list_elem_of_fmap. split.
    - intros ([k y] & -> & Hk%elem_of_map_to_list). by exists k.
    - intros [k Hk]. exists (k, x). split; [done|]. by apply elem_of_map_to_list. }
  unfold new_contract. match goal with |- context [Contract_Init ?c] => set (c0 := c) end.
  destruct (Contract_Init_spec c0) as [Hsame _]. apply (follows_same_contract _ _ c0 _ Hsame).
  split; simpl; try done.
  - intros name ev Hev. destruct (GetEvents_wanted _ _ _ _ Hev) as [Hw (e & He & Hn & ->)].
    split; [done|]. apply (Hin _ _ _ e Hes) in He as [key Hk]. by exists key, e.
  - intros key e Hk (wanted & -> & Hw). apply GetEvents_all; [|done]. apply (Hin _ _ _ e Hes). by exists key.
  - split; [apply GetSelectMethods_length|]. intros i name m Hi Hm.
    destruct (GetSelectMethods_selects _ _ _ _ _ Hi Hm) as [(am & Ham & Hn & Hp & ->)|[Hno ->]].
    + left. apply (Hin _ _ _ am Hms) in Ham as [key Hk]. by exists key, am.
    + right. split; [|done]. intros key am Hk. apply Hno. apply (Hin _ _ _ am Hms). by exists key.
  - intros arg. apply dedupe_wanted.
  - intros v. apply dedupe_wanted.
Qed.

(** ** The loops over events and methods *)

(** The memory after the events and methods of a contract were added. *)
Definition with_events (addr : string) (evs : list Event) (w w' : Watcher) : Prop :=
  Contracts w' = Contracts w ∧ contractAddresses w' = contractAddresses w ∧
  sortedMethodIds w' = sortedMethodIds w ∧ Start w' = Start w ∧
  eventIds w' = eventIds w ++ map (λ e, event_id (ev_Name e) addr) evs ∧
  eventFilters w' = eventFilters w ++ map Event_Sig evs.

Lemma add_event_ok addr e o w s w' s' :
  add_event addr e o w s = (DOk tt, w', s') → cached_columns w (tables s) →
  with_events addr [e] w w' ∧ cached_columns w' (tables s') ∧ check_columns (tables s) ⊆ check_columns (tables s') ∧
  ident (event_id (ev_Name e) addr) ∈ check_columns (tables s').
Proof.
  intros E Hc. unfold add_event in E. m_step E u w1 s1. destruct u.
  destruct (AddCheckColumn_adds _ _ _ _ _ _ E0 Hc) as ((c & ->) & Hc1 & Hsub & Hid).
  unfold m_modify in E. simplify_eq.
  split; [by unfold with_events; split_and!|]. split_and!; [exact Hc1|done|]. apply Hid. by left.
Qed.

Lemma add_events_ok addr evs : ∀ o w s w' s',
  m_for (λ p : string * Event, add_event addr p.2) evs o w s = (DOk tt, w', s') → cached_columns w (tables s) →
  with_events addr (map snd evs) w w' ∧ cached_columns w' (tables s') ∧
  check_columns (tables s) ⊆ check_columns (tables s') ∧
  ∀ e, e ∈ map snd evs → ident (event_id (ev_Name e) addr) ∈ check_columns (tables s').
Proof.
  induction evs as [|e evs IH]; intros o w s w' s' E Hc; simpl in E.
  - unfold m_ret in E. simplify_eq. split_and!; [|done..|].
    + unfold with_events. simpl. rewrite !app_nil_r. by split_and!.
    + intros e He. by apply elem_of_nil in He.
  - m_step E u w1 s1. destruct u.
    apply add_event_ok in E0 as ((F1 & F2 & F3 & F4 & F5 & F6) & Hc1 & Hs1 & Hid); [|done].
    apply IH in E as ((G1 & G2 & G3 & G4 & G5 & G6) & Hc2 & Hs2 & Hids); [|done].
    split_and!; [|done|by etransitivity|].
    + unfold with_events. simpl. rewrite G5, F5, G6, F6, <- !app_assoc. split_and!; [congruence..|done|done].
    + intros e' [->|He]%elem_of_cons; [by apply Hs2|by apply Hids].
Qed.

Definition with_methods (addr : string) (ms : list Method) (w w' : Watcher) : Prop :=
  Contracts w' = Contracts w ∧ contractAddresses w' = contractAddresses w ∧ Start w' = Start w ∧
  eventIds w' = eventIds w ∧ eventFilters w' = eventFilters w ∧
  (∀ a, a ≠ addr → sortedMethodIds w' !! a = sortedMethodIds w !! a) ∧
  default [] (sortedMethodIds w' !! addr) =
    default [] (sortedMethodIds w !! addr) ++ map (λ m, event_id (met_Name m) addr) ms.

Lemma add_method_ok addr m o w s w' s' :
  add_method addr m o w s = (DOk tt, w', s') → cached_columns w (tables s) →
  with_methods addr [m] w w' ∧ cached_columns w' (tables s') ∧ check_columns (tables s) ⊆ check_columns (tables s') ∧
  ident (event_id (met_Name m) addr) ∈ check_columns (tables s').
Proof.
  intros E Hc. unfold add_method in E. m_step E u w1 s1. destruct u.
  destruct (AddCheckColumn_adds _ _ _ _ _ _ E0 Hc) as ((c & ->) & Hc1 & Hsub & Hid).
  unfold m_modify in E. simplify_eq.
  split; [|split_and!; [exact Hc1|done|apply Hid; by left]].
  unfold with_methods. simpl. split_and!; [done..| |by rewrite lookup_insert_eq].
  intros a Ha. by rewrite lookup_insert_ne.
Qed.

Lemma add_methods_ok addr ms : ∀ o w s w' s',
  m_for (add_method addr) ms o w s = (DOk tt, w', s') → cached_columns w (tables s) →
  with_methods addr ms w w' ∧ cached_columns w' (tables s') ∧
  check_columns (tables s) ⊆ check_columns (tables s') ∧
  ∀ m, m ∈ ms → ident (event_id (met_Name m) addr) ∈ check_columns (tables s').
Proof.
  induction ms as [|m ms IH]; intros o w s w' s' E Hc; simpl in E.
  - unfold m_ret in E. simplify_eq. split_and!; [|done..|].
    + unfold with_methods. simpl. rewrite app_nil_r. by split_and!.
    + intros m Hm. by apply elem_of_nil in Hm.
  - m_step E u w1 s1. destruct u.
    apply add_method_ok in E0 as ((F1 & F2 & F3 & F4 & F5 & F6 & F7) & Hc1 & Hs1 & Hid); [|done].
    apply IH in E as ((G1 & G2 & G3 & G4 & G5 & G6 & G7) & Hc2 & Hs2 & Hids); [|done].
    split_and!; [|done|by etransitivity|].
    + unfold with_methods. simpl. split_and!; [congruence..| |].
      * intros a Ha. by rewrite G6, F6.
      * by rewrite G7, F7, <- app_assoc.
    + intros m' [->|Hm]%elem_of_cons; [by apply Hs2|by apply Hids].
Qed.

(** ** A contract *)

(** The parser and the cache of columns play no part in the set-up. *)
Definition watches (w : Watcher) : gmap string Contract * list string * gmap string (list string) * list string * list bytes * Z :=
  (Contracts w, contractAddresses w, sortedMethodIds w, eventIds w, eventFilters w, Start w).

Lemma parse_contract_ok addr o w (s : session ContractDB) w' s' :
  parse_contract cfg addr o w s = (DOk tt, w', s') →
  (watches w' = watches w ∧ columns w' = columns w ∧ s' = s) ∧
  abi_source cfg addr (p_abi (tr_Parser w')) ∧
  ParseAbi (p_abi (tr_Parser w')) = Ok (p_parsedAbi (tr_Parser w')).
Proof.
  unfold parse_contract. rewrite m_wrap_ok. unfold m_run. intros E.
  match type of E with context [if ?b then ?x else ?y] => destruct (if b then x else y) as [p r] eqn:Ep end.
  apply lift_ok in E as (-> & -> & ->). split; [done|]. simpl.
  assert (Hstr : ∀ abi, ParseAbiStr ParseAbi abi = (p, Ok tt) → p_abi p = abi ∧ ParseAbi abi = Ok (p_parsedAbi p)).
  { intros abi. unfold ParseAbiStr. by destruct (ParseAbi abi); intros [= <-]. }
  unfold abi_source. case_bool_decide as Hb.
  - unfold Parse, lookUp in Ep. destruct (ABIs !! HexToAddress addr) as [known|] eqn:Hk.
    + apply Hstr in Ep as [-> ->]. done.
    + destruct (GetAbi addr) as [abi|e|w0]; [|done..]. apply Hstr in Ep as [-> ->]. done.
  - apply Hstr in Ep as [-> ->]. done.
Qed.

Lemma first_block_ok start o w (s : session ContractDB) fb w' s' :
  first_block start o w s = (DOk fb, w', s') → w' = w ∧ tables s' = tables s ∧ start ≤ fb.
Proof.
  unfold first_block. assert (Hm : moves eq RetrieveFirstBlock).
  { apply moves_scan_one, moves_select_auto; apply _. }
  specialize (Hm o s). destruct (RetrieveFirstBlock o s) as [[b|? ?|?] s1]; simpl in *; [| |done].
  - intros [= <- <- <-]. split_and!; [done..|]. destruct (Z.ltb_spec b start); lia.
  - case_bool_decide; [|done]. intros [= <- <- <-]. split_and!; [done..|]. destruct (Z.ltb_spec 0 start); lia.
Qed.

Lemma range_map_ok' {A} (m : gmap string A) o w (s : session ContractDB) l w' s' :
  range_map m o w s = (DOk l, w', s') →
  l ≡ₚ map_to_list m ∧ watches w' = watches w ∧ columns w' = columns w ∧ s' = s.
Proof. unfold range_map, m_run, m_lift, m_db. intros [= <- <- <-]. split_and!; [apply order_perm|done..]. Qed.

(** [addr] was set up as the contract [c], whose events come in the order [evs]. *)
Record init_result (addr : string) (c : Contract) (evs : list Event) (w w' : Watcher) (d d' : ContractDB) : Prop := {
  ir_made : con_Address c = addr ∧ events_ok c ∧ emitted_wanted c;
  ir_follows : follows_config cfg addr c;
  ir_start : default 0 (cfg_StartingBlocks cfg !! addr) ≤ con_StartingBlock c;
  ir_perm : evs ≡ₚ map snd (map_to_list (con_Events c));
  ir_Contracts : Contracts w' = <[addr := c]> (Contracts w);
  ir_addresses : contractAddresses w' = contractAddresses w ++ [addr];
  ir_eventIds : eventIds w' = eventIds w ++ map (λ e, event_id (ev_Name e) addr) evs;
  ir_filters : eventFilters w' = eventFilters w ++ map Event_Sig evs;
  ir_other : ∀ a, a ≠ addr → sortedMethodIds w' !! a = sortedMethodIds w !! a;
  ir_methods : default [] (sortedMethodIds w' !! addr) = map (λ m, event_id (met_Name m) addr) (methods_of c);
  ir_Start : Start w' = Z.min (con_StartingBlock c) (Start w);
  ir_cached : cached_columns w' d';
  ir_columns : check_columns d ⊆ check_columns d';
  ir_event_columns : ∀ e, e ∈ evs → ident (event_id (ev_Name e) addr) ∈ check_columns d';
  ir_method_columns : ∀ m, m ∈ methods_of c → ident (event_id (met_Name m) addr) ∈ check_columns d'
}.

Lemma watches_inv w w' : watches w' = watches w →
  Contracts w' = Contracts w ∧ contractAddresses w' = contractAddresses w ∧ sortedMethodIds w' = sortedMethodIds w ∧
  eventIds w' = eventIds w ∧ eventFilters w' = eventFilters w ∧ Start w' = Start w.
Proof. unfold watches. by intros [= ? ? ? ? ? ?]. Qed.

Lemma init_contract_ok addr o w s w' s' :
  init_contract cfg addr o w s = (DOk tt, w', s') → cached_columns w (tables s) →
  ∃ c evs, init_result addr c evs w w' (tables s) (tables s').
Proof.
  unfold init_contract. intros E Hc.
  apply m_bind_ok in E as ([] & w1 & s1 & ((W1 & L1 & ->) & Hsrc & Hparse)%parse_contract_ok & E).
  apply m_bind_ok in E as (fb & w2 & s2 & (-> & T2 & Hfb)%first_block_ok & E).
  apply m_bind_ok in E as (p & w3 & s3 & E3 & E). unfold m_get in E3. injection E3 as <- <- <-.
  apply m_bind_ok in E as (es & w4 & s4 & (Pes & W4 & L4 & ->)%range_map_ok' & E).
  apply m_bind_ok in E as (ms & w5 & s5 & (Pms & W5 & L5 & ->)%range_map_ok' & E).
  set (c := new_contract _ _ _ _ _ _) in E.
  apply m_bind_ok in E as ([] & w6 & s6 & E6 & E). unfold m_modify in E6. injection E6 as <- <-.
  apply m_bind_ok in E as ([] & w7 & s7 & E7 & E). unfold m_modify in E7. injection E7 as <- <-.
  apply m_bind_ok in E as (evs & w8 & s8 & (Hp & W8 & L8 & ->)%range_map_ok' & E).
  apply m_bind_ok in E as ([] & w9 & s9 & E9 & E).
  apply m_bind_ok in E as ([] & w10 & s10 & E10 & E). unfold m_modify in E10. injection E10 as <- <-.
  apply m_bind_ok in E as ([] & w11 & s11 & E11 & E). unfold m_modify in E. injection E as <- <-.
  assert (Hc8 : cached_columns w8 (tables s2)).
  { intros k. rewrite L8. simpl. rewrite L5, L4, L1, T2. apply Hc. }
  apply add_events_ok in E9 as ((F1 & F2 & F3 & F4 & F5 & F6) & Hc9 & Hs9 & Hids); [|exact Hc8].
  apply add_methods_ok in E11 as ((G1 & G2 & G3 & G4 & G5 & G6 & G7) & Hc11 & Hs11 & Hmids); [|exact Hc9].
  simpl in G1, G2, G3, G4, G5, G6, G7.
  apply watches_inv in W8 as (A1 & A2 & A3 & A4 & A5 & A6). simpl in A1, A2, A3, A4, A5, A6.
  rewrite W4 in W5. rewrite W1 in W5. apply watches_inv in W5 as (B1 & B2 & B3 & B4 & B5 & B6).
  destruct (new_contract_spec addr fb (tr_Parser w1) (map snd es) (map snd ms)) as (N1 & N2 & N3 & N4 & _).
  fold c in N1, N2, N3, N4.
  exists c, (map snd evs).
  assert (Hx : ∀ (b : bool) v, watches (if b then set_start v w11 else w11) =
     (Contracts w11, contractAddresses w11, sortedMethodIds w11, eventIds w11, eventFilters w11,
      if b then v else Start w11) ∧ columns (if b then set_start v w11 else w11) = columns w11) by by intros [].
  destruct (Hx (con_StartingBlock c <? Start w11) (con_StartingBlock c)) as [Hw Hl]. unfold watches in Hw.
  injection Hw as V1 V2 V3 V4 V5 V6.
  split.
  - by split_and!.
  - by apply new_contract_follows.
  - by rewrite N2.
  - by rewrite Hp.
  - rewrite V1, G1, F1, A1, B1. done.
  - by rewrite V2, G2, F2, A2, B2.
  - by rewrite V4, G4, F5, A4, B4.
  - by rewrite V5, G5, F6, A5, B5.
  - intros a Ha. rewrite V3, G6 by done. rewrite lookup_insert_ne by done. by rewrite F3, A3, B3.
  - rewrite V3, G7, lookup_insert_eq. done.
  - rewrite V6, G3, F4, A6, B6. destruct (Z.ltb_spec (con_StartingBlock c) (Start w)); lia.
  - intros k. rewrite Hl. apply Hc11.
  - rewrite <- T2. by etransitivity.
  - intros e He. by apply Hs11, Hids.
  - exact Hmids.
Qed.

End Config.

(** ** Watchers whose parts agree *)

Record well_formed (w : Watcher) (d : ContractDB) : Prop := {
  wf_contracts : watch_ok w;
  wf_wanted : collected_wanted w d;
  wf_addresses : ∀ a, a ∈ contractAddresses w ↔ is_Some (Contracts w !! a);
  wf_eventIds : ∀ id, id ∈ eventIds w ↔
    ∃ a c k e, Contracts w !! a = Some c ∧ con_Events c !! k = Some e ∧ id = event_id k a;
  wf_filters : ∀ f, f ∈ eventFilters w ↔
    ∃ a c k e, Contracts w !! a = Some c ∧ con_Events c !! k = Some e ∧ f = Event_Sig e;
  wf_methods : ∀ a c, Contracts w !! a = Some c →
    default [] (sortedMethodIds w !! a) = map (λ m, event_id (met_Name m) a) (methods_of c);
  wf_event_columns : ∀ id, id ∈ eventIds w → ident id ∈ check_columns d;
  wf_method_columns : ∀ a c m, Contracts w !! a = Some c → m ∈ methods_of c →
    ident (event_id (met_Name m) a) ∈ check_columns d
}.

(** What is kept for the events of all contracts, with one more contract. *)
Lemma elem_of_with_contract {X} (f : string → Event → X) (w w' : Watcher) addr c evs (xs : list X) x :
  Contracts w !! addr = None → Contracts w' = <[addr := c]> (Contracts w) →
  evs ≡ₚ map snd (map_to_list (con_Events c)) →
  (x ∈ xs ↔ ∃ a c k e, Contracts w !! a = Some c ∧ con_Events c !! k = Some e ∧ x = f a e) →
  x ∈ xs ++ map (f addr) evs ↔ ∃ a c k e, Contracts w' !! a = Some c ∧ con_Events c !! k = Some e ∧ x = f a e.
Proof.
  intros Hn Hw Hp Hx. rewrite elem_of_app, Hx, Hw, (list_elem_of_fmap (f addr)). split.
  - intros [(a & c0 & k & e & Ha & He & ->)|(e & -> & He)].
    + exists a, c0, k, e. split_and!; [|done..]. by rewrite lookup_insert_ne by congruence.
    + rewrite Hp in He. apply list_elem_of_fmap in He as ([k e'] & -> & He).
      apply elem_of_map_to_list in He. exists addr, c, k, e'. by rewrite lookup_insert_eq.
  - intros (a & c0 & k & e & Ha & He & ->). destruct (decide (a = addr)) as [->|Hne].
    + rewrite lookup_insert_eq in Ha. simplify_eq. right. exists e. split; [done|]. rewrite Hp.
      apply list_elem_of_fmap. exists (k, e). split; [done|]. by apply elem_of_map_to_list.
    + rewrite lookup_insert_ne in Ha by done. left. by exists a, c0, k, e.
Qed.

(** The identifier of an event of a contract by its name. *)
Lemma event_key_name {X} (g : string → string → X) (w : Watcher) : watch_ok w → ∀ x,
  (∃ a c k e, Contracts w !! a = Some c ∧ con_Events c !! k = Some e ∧ x = g k a) ↔
  (∃ a c k e, Contracts w !! a = Some c ∧ con_Events c !! k = Some e ∧ x = g (ev_Name e) a).
Proof.
  intros Hok x. split; intros (a & c & k & e & Ha & He & ->); exists a, c, k, e;
    destruct (Hok a c Ha) as [_ Hev]; by rewrite (Hev k e He).
Qed.

Lemma init_result_well_formed cfg addr c evs w w' d d' : init_result cfg addr c evs w w' d d' →
  Contracts w !! addr = None → well_formed w d → well_formed w' d'.
Proof.
  intros [] Hn []. destruct ir_made0 as (Ha & Hev & Hw). 
  assert (Hok : watch_ok w').
  { intros a c'. rewrite ir_Contracts0, lookup_insert_Some. intros [[<- <-]|[_ Hc]]; [done|by apply wf_contracts0]. }
  split; [done|..].
  - intros a c'. rewrite ir_Contracts0, lookup_insert_Some. intros [[_ <-]|[_ Hc]]; [done|by eapply wf_wanted0].
  - intros a. rewrite ir_addresses0, elem_of_app, wf_addresses0, list_elem_of_singleton, ir_Contracts0.
    destruct (decide (a = addr)) as [->|Hne]; [rewrite lookup_insert_eq; naive_solver|].
    rewrite lookup_insert_ne by done. naive_solver.
  - intros id. rewrite (event_key_name event_id) by done. rewrite ir_eventIds0.
    apply (elem_of_with_contract (λ a e, event_id (ev_Name e) a) w w' addr c); [done..|].
    by rewrite wf_eventIds0, (event_key_name event_id).
  - intros f. rewrite ir_filters0.
    by apply (elem_of_with_contract (λ _ e, Event_Sig e) w w' addr c).
  - intros a c'. rewrite ir_Contracts0, lookup_insert_Some. intros [[<- <-]|[Hne Hc]]; [done|].
    rewrite ir_other0 by done. by apply wf_methods0.
  - intros id. rewrite ir_eventIds0, elem_of_app, list_elem_of_fmap. intros [Hid|(e & -> & He)].
    + by apply ir_columns0, wf_event_columns0.
    + by apply ir_event_columns0.
  - intros a c' m. rewrite ir_Contracts0, lookup_insert_Some. intros [[<- <-]|[_ Hc]] Hm.
    + by apply ir_method_columns0.
    + apply ir_columns0. by eapply wf_method_columns0.
Qed.

(** A watcher as NewTransformer makes it. *)
Definition unused (w : Watcher) (d : ContractDB) : Prop := Contracts w = ∅ ∧ cached_columns w d.

(** What the contracts set up so far have in common. *)
Definition set_up (cfg : ContractConfig) (done : list string) (w : Watcher) (d : ContractDB) : Prop :=
  well_formed w d ∧ cached_columns w d ∧ (∀ a, is_Some (Contracts w !! a) ↔ a ∈ done) ∧
  (∀ a c, Contracts w !! a = Some c →
     follows_config cfg a c ∧
     default 0 (cfg_StartingBlocks cfg !! a) ≤ con_StartingBlock c ∧ Start w ≤ con_StartingBlock c).

Lemma init_result_set_up cfg addr c evs w w' d d' done : init_result cfg addr c evs w w' d d' → addr ∉ done →
  set_up cfg done w d → set_up cfg (done ++ [addr]) w' d'.
Proof.
  intros Hr Hnew (Hwf & Hcc & Hdom & Hst).
  assert (Hn : Contracts w !! addr = None).
  { apply eq_None_not_Some. intros Hs. by apply Hnew, Hdom. }
  split; [by eapply init_result_well_formed|]. destruct Hr. split_and!; [done|..].
  - intros a. rewrite ir_Contracts0, elem_of_app, list_elem_of_singleton, <- Hdom.
    destruct (decide (a = addr)) as [->|Hne]; [rewrite lookup_insert_eq; naive_solver|].
    rewrite lookup_insert_ne by done. naive_solver.
  - intros a c'. rewrite ir_Contracts0, ir_Start0, lookup_insert_Some. intros [[<- <-]|[_ Hc]]; [split_and!; [done..|lia]|].
    destruct (Hst a c' Hc) as (? & ? & ?). split_and!; [done..|lia].
Qed.

Lemma init_loop_ok cfg l : ∀ done o w s w' s',
  m_for (λ p : string * bool, init_contract cfg p.1) l o w s = (DOk tt, w', s') →
  NoDup (done ++ map fst l) → set_up cfg done w (tables s) → set_up cfg (done ++ map fst l) w' (tables s').
Proof.
  induction l as [|p l IH]; intros done o w s w' s' E Hnd Hs; simpl in *.
  - unfold m_ret in E. simplify_eq. by rewrite app_nil_r.
  - m_step E u w1 s1. destruct u. pose proof Hs as (_ & Hc & _).
    destruct (init_contract_ok cfg p.1 o w s w1 s1 E0 Hc) as (c & evs & Hr).
    change (p.1 :: map fst l) with ([p.1] ++ map fst l) in Hnd |- *. rewrite app_assoc in Hnd |- *.
    eapply IH; [exact E|done|]. eapply init_result_set_up; [exact Hr| |done].
    rewrite <- app_assoc in Hnd. apply NoDup_app in Hnd as (_ & Hd & _). intros Hin. apply (Hd _ Hin). set_solver.
Qed.

(** An [Init] that returns has set up the contracts of the configuration and
    no others, each from its configured block on at the earliest; the parts of
    the watcher agree, every identifier has its column, and the watcher starts
    no later than any contract. *)
Lemma Init_sets_up cfg o w s w' s' : unused w (tables s) →
  Init cfg o w s = (DOk tt, w', s') →
  well_formed w' (tables s') ∧
  (∀ a, is_Some (Contracts w' !! a) ↔ is_Some (cfg_Addresses cfg !! a)) ∧
  (∀ a c, Contracts w' !! a = Some c → follows_config cfg a c ∧
     default 0 (cfg_StartingBlocks cfg !! a) ≤ con_StartingBlock c ∧ Start w' ≤ con_StartingBlock c).
Proof.
  intros [He Hc] E. unfold Init in E.
  m_step E u1 w1 s1. unfold m_modify in E0. injection E0 as <- <- <-.
  m_step E u2 w2 s2. unfold m_modify in E0. injection E0 as <- <- <-.
  m_step E addrs w3 s3. apply range_map_ok' in E0 as (Hp & Hw3 & Hl3 & ->).
  apply watches_inv in Hw3 as (A1 & A2 & A3 & A4 & A5 & A6). simpl in *. rewrite He in A1.
  assert (Hkeys : map fst addrs ≡ₚ (map_to_list (cfg_Addresses cfg)).*1) by by rewrite Hp.
  assert (Hs0 : set_up cfg [] w3 (tables s)).
  { split_and!.
    - split; try (intros a c; by rewrite A1).
      + intros a. rewrite A2, A1. split; [by intros ?%elem_of_nil|by intros [? ?]].
      + intros id. rewrite A4, A1. split; [by intros ?%elem_of_nil|by intros (? & ? & ? & ? & ? & _)].
      + intros f. rewrite A5, A1. split; [by intros ?%elem_of_nil|by intros (? & ? & ? & ? & ? & _)].
      + intros id. rewrite A4. by intros ?%elem_of_nil.
    - intros k. rewrite Hl3. apply Hc.
    - intros a. rewrite A1. split; [by intros [? ?]|by intros ?%elem_of_nil].
    - intros a c. by rewrite A1. }
  apply init_loop_ok with (done := []) in E as (Hwf & _ & Hdom & Hst); [|by rewrite Hkeys; apply NoDup_fst_map_to_list|done].
  split_and!; [done| |done]. intros a. rewrite Hdom. simpl. rewrite Hkeys, list_elem_of_fmap. split.
  - intros ([k b] & -> & Hin%elem_of_map_to_list). by exists b.
  - intros [b Hb]. exists (a, b). split; [done|by apply elem_of_map_to_list].
Qed.

(** ** [Execute] *)

Definition settles (p p' : Watcher * ContractDB) : Prop :=
  same_watch p.1 p'.1 ∧ check_columns p.2 ⊆ check_columns p'.2.

#[local] Instance settles_preorder : PreOrder settles.
Proof. split; [intros p; by split|]. intros p1 p2 p3 [Ha Hb] [Hc Hd]. split; by etransitivity. Qed.

Lemma evolves_settles p p' : evolves p p' → settles p p'.
Proof. by intros [Hw (_ & _ & Hc & _)]. Qed.

Lemma mark_settles hid ids : m_moves settles (m_db (MarkHeaderCheckedForAll hid ids)).
Proof.
  apply m_moves_db. intros w. unfold MarkHeaderCheckedForAll.
  assert (Hpre : PreOrder (λ d d', settles (w, d) (w, d'))).
  { split; [intros d; by split|]. intros d1 d2 d3 [Ha Hb] [Hc Hd]. split; [done|by etransitivity]. }
  apply moves_exec_auto_check; [exact Hpre|]. intros d q [] d' E. split; [done|].
  destruct (mark_all hid ids d q) as [r q'] eqn:Em. simpl in E. subst r.
  by apply mark_all_spec in Em as (_ & _ & _ & rows & -> & _).
Qed.

(** A contract before is one after, but for what was collected. *)
Lemma same_watch_back w w' a c' : same_watch w w' → Contracts w' !! a = Some c' →
  ∃ c, Contracts w !! a = Some c ∧ contract_ext c c'.
Proof.
  intros (_ & _ & _ & _ & Hc) Ha. specialize (Hc a). rewrite Ha in Hc.
  destruct (Contracts w !! a) as [c|]; [|done]. by exists c.
Qed.

Lemma same_contract_events c c' : same_contract c c' → con_Events c' = con_Events c ∧ methods_of c' = methods_of c.
Proof. by intros (a & h & ->). Qed.

Lemma same_watch_events {X} (f : string → string → Event → X) w w' x : same_watch w w' →
  (∃ a c k e, Contracts w' !! a = Some c ∧ con_Events c !! k = Some e ∧ x = f a k e) ↔
  (∃ a c k e, Contracts w !! a = Some c ∧ con_Events c !! k = Some e ∧ x = f a k e).
Proof.
  intros Hw. split; intros (a & c & k & e & Ha & He & ->).
  - destruct (same_watch_back _ _ _ _ Hw Ha) as (c0 & Hc0 & [Hs _]).
    destruct (same_contract_events _ _ Hs) as [Hev _]. rewrite Hev in He. by exists a, c0, k, e.
  - destruct (same_watch_lookup _ _ _ _ Hw Ha) as (c0 & Hc0 & [Hs _]).
    destruct (same_contract_events _ _ Hs) as [Hev _]. rewrite <- Hev in He. by exists a, c0, k, e.
Qed.

Lemma well_formed_stable : stable settles well_formed.
Proof.
  intros p p' [Hw Hcol] []. pose proof Hw as (Ha & Hf & Hids & Hms & Hc). split.
  - intros a c' Hc'. destruct (same_watch_back _ _ _ _ Hw Hc') as (c & Hc0 & [(x & y & ->) _]).
    by destruct (wf_contracts0 a c Hc0).
  - intros a c' Hc'. destruct (same_watch_back _ _ _ _ Hw Hc') as (c & Hc0 & [_ He]). apply He. by eapply wf_wanted0.
  - intros a. rewrite Ha, wf_addresses0. split; intros [c Hc0].
    + destruct (same_watch_lookup _ _ _ _ Hw Hc0) as (c' & -> & _). by eexists.
    + destruct (same_watch_back _ _ _ _ Hw Hc0) as (c' & -> & _). by eexists.
  - intros id. rewrite Hids, wf_eventIds0. symmetry. apply (same_watch_events (λ a k _, event_id k a)), Hw.
  - intros f. rewrite Hf, wf_filters0. symmetry. apply (same_watch_events (λ _ _ e, Event_Sig e)), Hw.
  - intros a c' Hc'. destruct (same_watch_back _ _ _ _ Hw Hc') as (c & Hc0 & [Hs _]).
    rewrite Hms, (wf_methods0 a c) by done. by destruct (same_contract_events _ _ Hs) as [_ ->].
  - intros id. rewrite Hids. intros Hid. by apply Hcol, wf_event_columns0.
  - intros a c' m Hc' Hm. destruct (same_watch_back _ _ _ _ Hw Hc') as (c & Hc0 & [Hs _]).
    apply Hcol. eapply wf_method_columns0; [exact Hc0|]. by destruct (same_contract_events _ _ Hs) as [_ <-].
Qed.

(** The watcher watches the contracts of the configuration and no others, each
    as it is configured. *)
Definition configured (cfg : ContractConfig) (w : Watcher) (d : ContractDB) : Prop :=
  well_formed w d ∧
  (∀ a, is_Some (Contracts w !! a) ↔ is_Some (cfg_Addresses cfg !! a)) ∧
  (∀ a c, Contracts w !! a = Some c → follows_config cfg a c ∧
     default 0 (cfg_StartingBlocks cfg !! a) ≤ con_StartingBlock c).

Lemma configured_stable cfg : stable settles (configured cfg).
Proof.
  intros p p' Hp (Hwf & Hdom & Hc). split; [by apply (well_formed_stable p p')|]. destruct Hp as [Hw _]. split.
  - intros a. rewrite <- Hdom. split; intros [c Ha].
    + destruct (same_watch_back _ _ _ _ Hw Ha) as (c' & -> & _). by eexists.
    + destruct (same_watch_lookup _ _ _ _ Hw Ha) as (c' & -> & _). by eexists.
  - intros a c' Ha. destruct (same_watch_back _ _ _ _ Hw Ha) as (c & Hc0 & [Hs _]).
    destruct (Hc a c Hc0) as [Hf Hb]. split; [by eapply follows_same_contract|]. by destruct Hs as (x & y & ->).
Qed.

Lemma Execute_keeps_configured cfg : mkeeps (pure_pred (configured cfg)) (Execute Node_ID).
Proof.
  apply (stable_mhoare settles); [|apply configured_stable].
  apply Execute_marks; [apply _|apply evolves_settles|apply mark_settles].
Qed.

(** C33: the parts of a watcher agree with the configuration and with each
    other.  An [Init] that returns has set up the contracts of the
    configuration and no others: each with the configured, known or fetched
    ABI, exactly the events of that ABI its list of events wants (all for an
    empty list, none without one), for each name of its list of methods the
    method of that name if it can be polled (else a method without a name), the
    listed values filtered for, and a starting block not below the configured
    one.  The watcher holds the identifiers, columns and topics of those events
    and no others, the identifiers and columns of the methods in order, and a
    start no later than any contract's.  However [Execute] ends, all but the
    start is still so, and no value is collected that the configuration does
    not want. *)
Theorem watcher_well_formed cfg :
  (∀ o w s w' s', unused w (tables s) → Init cfg o w s = (DOk tt, w', s') →
     configured cfg w' (tables s') ∧
     ∀ a c, Contracts w' !! a = Some c → Start w' ≤ con_StartingBlock c) ∧
  mkeeps (pure_pred (configured cfg)) (Execute Node_ID).
Proof.
  split; [|apply Execute_keeps_configured]. intros o w s w' s' Hu Hi.
  destruct (Init_sets_up cfg o w s w' s' Hu Hi) as (Hwf & Hdom & Hc).
  split; [split_and!; [done..|]|]; intros a c Ha; by destruct (Hc a c Ha) as (? & ? & ?).
Qed.

End Init.

(** ** libraries/shared/watcher/contract_watcher.go *)

(** transformer.ContractTransformer: its two methods over a state that all
    transformers share, the database and the logs aside. *)
Record ContractTransformer (S : Type) : Type := mkTransformer {
  ct_Init : S → result unit * S;
  ct_Execute : S → result unit * S
}.
Arguments ct_Init {S} _ _.
Arguments ct_Execute {S} _ _.

Section ContractWatcher.
Context {S : Type}.

(** The transformers in turn, up to the first error. *)
Fixpoint each_transformer (f : ContractTransformer S → S → result unit * S) (ts : list (ContractTransformer S)) (s : S)
    : result unit * S :=
  match ts with
  | [] => (Ok tt, s)
  | t :: ts =>
      match f t s with
      | (Ok _, s) => each_transformer f ts s
      | (Err e, s) => (Err e, s)
      | (Panic w, s) => (Panic w, s)
      end
  end.

(** [inits] is [None] when the argument is not a list of initializers.  All
    transformers are initialized, those added before as well. *)
Definition AddTransformers (inits : option (list (ContractTransformer S))) (transformers : list (ContractTransformer S))
    (s : S) : result unit * list (ContractTransformer S) * S :=
  match inits with
  | None => (Err (Errorf "initializers of wrong type"), transformers, s)
  | Some ts => let '(r, s) := each_transformer ct_Init (transformers ++ ts) s in (r, transformers ++ ts, s)
  end.

Definition Watcher_Execute (transformers : list (ContractTransformer S)) (s : S) : result unit * S :=
  each_transformer ct_Execute transformers s.

End ContractWatcher.
