(* ===== verification/ContractGetter.v ===== *)
(** * Contract calls with a known type, and ABIs built from interfaces
    (pkg/eth/contract_watcher/shared: fetcher, getter, helpers, constants/interface.go)

    The getter asks a resolver which interfaces it supports and puts an ABI
    together from the texts of their events. *)

From S2P Require Import Prelude GoInt ChainTypes Geth BlockChain ContractTypes ContractDB ContractWatcher.

(** ** constants/interface.go *)

(** JSON texts are written with single quotes here. *)
Definition quote (a : ascii) : ascii := if bool_decide (a = "'"%char) then "034"%char else a.
Definition json (s : string) : string := String.string_of_list_ascii (map quote (String.list_ascii_of_string s)).

Definition SupportsInterfaceABI : string := json
  "[{'constant':true,'inputs':[{'name':'interfaceID','type':'bytes4'}],'name':'supportsInterface','outputs':[{'name':'','type':'bool'}],'payable':false,'type':'function'}]".

Definition AddrChangeInterface : string := json
  "{'anonymous':false,'inputs':[{'indexed':true,'name':'node','type':'bytes32'},{'indexed':false,'name':'a','type':'address'}],'name':'AddrChanged','type':'event'}".

Definition ContentChangeInterface : string := json
  "{'anonymous':false,'inputs':[{'indexed':true,'name':'node','type':'bytes32'},{'indexed':false,'name':'hash','type':'bytes32'}],'name':'ContentChanged','type':'event'}".

Definition NameChangeInterface : string := json
  "{'anonymous':false,'inputs':[{'indexed':true,'name':'node','type':'bytes32'},{'indexed':false,'name':'name','type':'string'}],'name':'NameChanged','type':'event'}".

Definition AbiChangeInterface : string := json
  "{'anonymous':false,'inputs':[{'indexed':true,'name':'node','type':'bytes32'},{'indexed':true,'name':'contentType','type':'uint256'}],'name':'ABIChanged','type':'event'}".

Definition PubkeyChangeInterface : string := json
  "{'anonymous':false,'inputs':[{'indexed':true,'name':'node','type':'bytes32'},{'indexed':false,'name':'x','type':'bytes32'},{'indexed':false,'name':'y','type':'bytes32'}],'name':'PubkeyChanged','type':'event'}".

Definition TextChangeInterface : string := json
  "{'anonymous':false,'inputs':[{'indexed':true,'name':'node','type':'bytes32'},{'indexed':false,'name':'indexedKey','type':'string'},{'indexed':false,'name':'key','type':'string'}],'name':'TextChanged','type':'event'}".

Definition MultihashChangeInterface : string := json
  "{'anonymous':false,'inputs':[{'indexed':true,'name':'node','type':'bytes32'},{'indexed':false,'name':'hash','type':'bytes'}],'name':'MultihashChanged','type':'event'}".

Definition ContenthashChangeInterface : string := json
  "{'anonymous':false,'inputs':[{'indexed':true,'name':'node','type':'bytes32'},{'indexed':false,'name':'hash','type':'bytes'}],'name':'ContenthashChanged','type':'event'}".

Inductive Interface : Type :=
| MetaSig | AddrChangeSig | ContentChangeSig | NameChangeSig | AbiChangeSig
| PubkeyChangeSig | TextChangeSig | MultihashChangeSig | ContentHashChangeSig
| OtherSig (n : Z).

#[global] Instance Interface_eq_dec : EqDecision Interface.
Proof. solve_decision. Defined.

Definition Interface_Hex (e : Interface) : string :=
  match e with
  | MetaSig => "0x01ffc9a7"
  | AddrChangeSig => "0x3b3b57de"
  | ContentChangeSig => "0xd8389dc5"
  | NameChangeSig => "0x691f3431"
  | AbiChangeSig => "0x2203ab56"
  | PubkeyChangeSig => "0xc8690233"
  | TextChangeSig => "0x59d1d43c"
  | MultihashChangeSig => "0xe89401a1"
  | ContentHashChangeSig => "0xbc1c58d1"
  | OtherSig _ => "Unknown"
  end.

Definition EventSig (e : Interface) : string :=
  match e with
  | MetaSig => ""
  | AddrChangeSig => "AddrChanged(bytes32,address)"
  | ContentChangeSig => "ContentChanged(bytes32,bytes32)"
  | NameChangeSig => "NameChanged(bytes32,string)"
  | AbiChangeSig => "ABIChanged(bytes32,uint256)"
  | PubkeyChangeSig => "PubkeyChanged(bytes32,bytes32,bytes32)"
  | TextChangeSig => "TextChanged(bytes32,string,string)"
  | MultihashChangeSig => "MultihashChanged(bytes32,bytes)"
  | ContentHashChangeSig => "ContenthashChanged(bytes32,bytes)"
  | OtherSig _ => "Unknown"
  end.

Definition MethodSig (e : Interface) : string :=
  match e with
  | MetaSig => "supportsInterface(bytes4)"
  | AddrChangeSig => "addr(bytes32)"
  | ContentChangeSig => "content(bytes32)"
  | NameChangeSig => "name(bytes32)"
  | AbiChangeSig => "ABI(bytes32,uint256)"
  | PubkeyChangeSig => "pubkey(bytes32)"
  | TextChangeSig => "text(bytes32,string)"
  | MultihashChangeSig => "multihash(bytes32)"
  | ContentHashChangeSig => "setContenthash(bytes32,bytes)"
  | OtherSig _ => "Unknown"
  end.

(** [hexutil.Decode], and how the values of an ABI are assigned to a Go
    variable of a type: a value of another type is an error. *)
Class AbiLib := {
  hexutil_Decode : string → result bytes;
  assign_BigInt : value → option Z;
  assign_bool : value → option bool;
  assign_address : value → option bytes;
  assign_string : value → option string;
  assign_hash : value → option bytes
}.

Section Getter.
Context `{GethCommon} `{ContractLib} `{AbiLib}.

(** The error of the decoder is ignored; a short answer panics. *)
Definition Interface_Bytes (e : Interface) : result bytes :=
  match e with
  | OtherSig _ => Ok [0; 0; 0; 0]
  | _ =>
      match hexutil_Decode (Interface_Hex e) with
      | Ok by_ => if (4 <=? length by_)%nat then Ok (take 4 by_) else Panic "index out of range"
      | Err _ => Panic "index out of range"
      | Panic w => Panic w
      end
  end.

(** ** constants/constants.go and helpers/helpers.go *)

Inductive EventName : Type := TransferEvent | ApprovalEvent | BurnEvent | MintEvent | NewOwnerEvent | OtherEvent (n : Z).

Definition EventName_String (e : EventName) : string :=
  match e with
  | TransferEvent => "Transfer"
  | ApprovalEvent => "Approval"
  | BurnEvent => "Burn"
  | MintEvent => "Mint"
  | NewOwnerEvent => "NewOwner"
  | OtherEvent _ => "Unknown"
  end.

Definition GenerateSignature (s : string) : string := Hash_String (Keccak256Hash (bytes_of_string s)).

Definition Signature (e : EventName) : string :=
  match e with
  | TransferEvent => GenerateSignature "Transfer(address,address,uint256)"
  | ApprovalEvent => GenerateSignature "Approval(address,address,uint256)"
  | BurnEvent => GenerateSignature "Burn(address,uint256)"
  | MintEvent => GenerateSignature "Mint(address,uint256)"
  | NewOwnerEvent => GenerateSignature "NewOwner(bytes32,bytes32,address)"
  | OtherEvent _ => "Unknown"
  end.

Definition TusdContractAddress : string := "0x8dd5fbCe2F6a956C3022bA3663759011Dd51e73E".

Definition TusdGenericFilters : list LogFilter :=
  map (λ e, mkLogFilter (EventName_String e) 5197514 (-1) TusdContractAddress [Signature e; ""; ""; ""])
    [BurnEvent; MintEvent].

(** core.WatchedEvent *)
Record WatchedEvent : Type := mkWatchedEvent {
  we_LogID : Z; we_Name : string; we_BlockNumber : Z; we_Address : string; we_TxHash : string; we_Index : Z;
  we_Topic0 : string; we_Topic1 : string; we_Topic2 : string; we_Topic3 : string; we_Data : string }.

Definition createTopics (topics : list string) : list bytes := map HexToHash topics.

(** [hexutil.MustDecode] panics. *)
Definition ConvertToLog (watchedEvent : WatchedEvent) : result types_Log :=
  let allTopics := [we_Topic0 watchedEvent; we_Topic1 watchedEvent; we_Topic2 watchedEvent; we_Topic3 watchedEvent] in
  let nonNilTopics := filter (λ topic, topic ≠ "") allTopics in
  match hexutil_Decode (we_Data watchedEvent) with
  | Ok data => Ok {|
      tl_Address := HexToAddress (we_Address watchedEvent);
      tl_Topics := createTopics nonNilTopics;
      tl_Data := data;
      tl_BlockNumber := u64 (we_BlockNumber watchedEvent);
      tl_TxHash := HexToHash (we_TxHash watchedEvent);
      tl_TxIndex := 0;
      tl_BlockHash := HexToHash "0x0";
      tl_Index := u64 (we_Index watchedEvent);
      tl_Removed := false |}
  | Err e => Panic "hexutil: invalid hex string"
  | Panic w => Panic w
  end.

(** ** fetcher/fetcher.go *)

(** A call whose answer goes to a variable of one type: the value of the
    variable, and the error. *)
Definition fetch_as {A} (assign : value → option A) (zero : A) (method contractAbi contractAddress : string)
    (blockNumber : Z) (methodArgs : list value) : result (A * option error) :=
  match FetchContractData contractAbi contractAddress method methodArgs blockNumber with
  | Ok v =>
      match assign v with
      | Some a => Ok (a, None)
      | None => Ok (zero, Some (Errorf "Error fetching: abi: cannot unmarshal"))
      end
  | Err e => Ok (zero, Some (Errorf "Error fetching"))
  | Panic w => Panic w
  end.

Definition FetchBigInt := fetch_as assign_BigInt 0.
Definition FetchBool := fetch_as assign_bool false.
Definition FetchAddress := fetch_as assign_address (replicate 20 0).
Definition FetchString := fetch_as assign_string "".
Definition FetchHash := fetch_as assign_hash (replicate 32 0).

(** ** getter/interface_getter.go *)

Definition getSupportsInterface (contractAbi contractAddress : string) (blockNumber : Z) (methodArgs : list value)
    : result (bool * option error) :=
  FetchBool "supportsInterface" contractAbi contractAddress blockNumber methodArgs.

Definition supports (resolverAddr : string) (blockNumber : Z) (sig : Interface) : result (bool * option error) :=
  by_ <-! Interface_Bytes sig ;;
  getSupportsInterface SupportsInterfaceABI resolverAddr blockNumber [VBytes4 by_].

(** The interfaces that are asked for, in order, and their texts. *)
Definition event_interfaces : list (Interface * string) :=
  [(AddrChangeSig, AddrChangeInterface); (NameChangeSig, NameChangeInterface);
   (ContentChangeSig, ContentChangeInterface); (AbiChangeSig, AbiChangeInterface);
   (PubkeyChangeSig, PubkeyChangeInterface); (ContentHashChangeSig, ContenthashChangeInterface);
   (MultihashChangeSig, MultihashChangeInterface); (TextChangeSig, TextChangeInterface)].

(** An error counts as no support. *)
Fixpoint add_interfaces (resolverAddr : string) (blockNumber : Z) (l : list (Interface * string)) (abiStr : string)
    : result string :=
  match l with
  | [] => Ok abiStr
  | (sig, text) :: l =>
      r <-! supports resolverAddr blockNumber sig ;;
      let '(ok, err) := r in
      add_interfaces resolverAddr blockNumber l
        (if bool_decide (err = None) && ok then abiStr +:+ text +:+ "," else abiStr)
  end.

Definition cut_last (s : string) : string := String.substring 0 (String.length s - 1) s.

Definition GetABI (resolverAddr : string) (blockNumber : Z) : result string :=
  r <-! supports resolverAddr blockNumber MetaSig ;;
  let '(ok, err) := r in
  match err with
  | Some _ => Err (Errorf "call to getSupportsInterface failed")
  | None =>
      if negb ok then Err (Errorf "contract does not support interface")
      else
        abiStr <-! add_interfaces resolverAddr blockNumber event_interfaces "[" ;;
        Ok (cut_last abiStr +:+ "]")
  end.

(** ** Lemmas *)

(** What a resolver says it supports. *)
Definition supported (resolverAddr : string) (blockNumber : Z) (sig : Interface) : bool :=
  match supports resolverAddr blockNumber sig with
  | Ok (ok, None) => ok
  | _ => false
  end.

Lemma append_assoc (a b c : string) : (a +:+ b) +:+ c = a +:+ (b +:+ c).
Proof.
  induction a as [|x a IH]; [reflexivity|].
  change (String x ((a +:+ b) +:+ c) = String x (a +:+ (b +:+ c))). by rewrite IH.
Qed.

Lemma length_append (a b : string) : String.length (a +:+ b) = (String.length a + String.length b)%nat.
Proof.
  induction a as [|x a IH]; [reflexivity|].
  change (S (String.length (a +:+ b)) = S (String.length a + String.length b)). by rewrite IH.
Qed.

Lemma substring_append (a b : string) : String.substring 0 (String.length a) (a +:+ b) = a.
Proof.
  induction a as [|x a IH]; [by destruct b|].
  change (String x (String.substring 0 (String.length a) (a +:+ b)) = String x a). by rewrite IH.
Qed.

Lemma cut_last_app a c : cut_last (a +:+ String c "") = a.
Proof.
  unfold cut_last. rewrite length_append. simpl. rewrite Nat.add_sub. apply substring_append.
Qed.

(** Text by text, each with its comma. *)
Lemma add_interfaces_exact resolverAddr bn l : ∀ abiStr,
  Forall (λ p, is_ok (supports resolverAddr bn p.1) = true) l →
  add_interfaces resolverAddr bn l abiStr =
  Ok (foldl (λ s text, s +:+ text +:+ ",") abiStr (map snd (filter (λ p, supported resolverAddr bn p.1 = true) l))).
Proof.
  induction l as [|[sig text] l IH]; intros abiStr Hok; [done|].
  apply Forall_cons in Hok as [Hs Hl]. simpl in Hs |- *.
  destruct (supports resolverAddr bn sig) as [[ok err]|e|w] eqn:E; [|done..]. simpl. rewrite IH by done.
  assert (Hs' : supported resolverAddr bn sig = bool_decide (err = None) && ok).
  { unfold supported. rewrite E. by destruct err. }
  rewrite filter_cons. simpl. rewrite Hs'. by destruct (bool_decide (err = None) && ok).
Qed.

Lemma commas_concat texts : ∀ s t,
  foldl (λ s text, s +:+ text +:+ ",") s (t :: texts) = (s +:+ String.concat "," (t :: texts)) +:+ ",".
Proof.
  induction texts as [|u texts IH]; intros s t.
  - change (s +:+ t +:+ "," = (s +:+ t) +:+ ","). by rewrite append_assoc.
  - change (foldl (λ s text, s +:+ text +:+ ",") s (t :: u :: texts))
      with (foldl (λ s text, s +:+ text +:+ ",") (s +:+ t +:+ ",") (u :: texts)).
    rewrite IH. f_equal. change (String.concat "," (t :: u :: texts)) with (t +:+ "," +:+ String.concat "," (u :: texts)).
    by rewrite !append_assoc.
Qed.

(** When the resolver supports the check itself, the ABI is the list of the
    texts of the supported interfaces in the fixed order; without any, it is a
    closing bracket, which is no ABI. *)
Theorem GetABI_exact resolverAddr bn :
  is_ok (supports resolverAddr bn MetaSig) = true → Forall (λ p, is_ok (supports resolverAddr bn p.1) = true) event_interfaces →
  let texts := map snd (filter (λ p, supported resolverAddr bn p.1 = true) event_interfaces) in
  GetABI resolverAddr bn =
    if negb (supported resolverAddr bn MetaSig)
    then Err (match supports resolverAddr bn MetaSig with
              | Ok (_, Some _) => Errorf "call to getSupportsInterface failed"
              | _ => Errorf "contract does not support interface" end)
    else if (length texts =? 0)%nat then Ok "]"
    else Ok ("[" +:+ String.concat "," texts +:+ "]").
Proof.
  intros Hm Hl texts. unfold GetABI. rewrite add_interfaces_exact by done. fold texts. clearbody texts. unfold supported.
  destruct (supports resolverAddr bn MetaSig) as [[ok err]|e|w]; [|done..].
  destruct err as [err|]; [done|]. destruct ok; [|done]. simpl. destruct texts as [|t texts]; [done|].
  by rewrite commas_concat, cut_last_app, append_assoc.
Qed.

End Getter.
