(* ===== verification/ContractSettings.v ===== *)
(** * Reading the configuration of the contract watcher
    (pkg/config/contract.go)

    The settings of every contract are looked up under its address as it is
    written, checked for their types, and stored under the address in lower
    case.  The contracts of such a configuration are found again under the
    addresses of their logs. *)

From S2P Require Import Prelude GoInt ChainTypes Geth Sql BlockChain HeaderSync EventLogs Memory ContractTypes ContractDB ContractConverter ContractWatcher ContractPolling ContractInit.

(** A value viper read from a file: an [interface{}]. *)
#[warnings="-register-all"]
Inductive setting : Type :=
| SString (s : string) | SSlice (l : list setting) | SInt (n : Z) | SBool (b : bool) | SOther.

(** github.com/spf13/viper: the lists and tables of the loaded configuration. *)
Class Viper := {
  GetStringSlice : string → list string;
  GetString : string → string;
  GetStringMap : string → gmap string setting
}.

Section Config.
Context `{ContractLib} `{Viper}.

(** [log.Fatal] ends the process: an error of these functions is its end. *)
Definition fatal {A} (msg : string) : result A := Err (Errorf msg).

(** A setting that is a list of strings; empty when it is missing. *)
Definition string_list (transformer : gmap string setting) (key : string) : result (list string) :=
  match transformer !! key with
  | None => Ok []
  | Some (SSlice l) =>
      range_collect (λ strI, match strI with SString str => Ok str | _ => fatal "not of type []string" end) l
  | Some _ => fatal "not of type []string"
  end.

Definition get_abi (transformer : gmap string setting) : result string :=
  abi <-! (match transformer !! "abi" with
           | None => Ok ""
           | Some (SString abi) => Ok abi
           | Some _ => fatal "`abi` not of type []string"
           end) ;;
  if bool_decide (abi = "") then Ok abi
  else match ParseAbi abi with
       | Err _ => fatal "`abi` not valid JSON"
       | Panic w => Panic w
       | Ok _ => Ok abi
       end.

Definition get_start (transformer : gmap string setting) : result Z :=
  match transformer !! "startingblock" with
  | None => fatal "missing `startingBlock` value"
  | Some (SInt start) => Ok start
  | Some _ => fatal "`startingBlock` not of type int"
  end.

Definition get_piping (transformer : gmap string setting) : result bool :=
  match transformer !! "piping" with
  | None => Ok false
  | Some (SBool piping) => Ok piping
  | Some _ => fatal "`piping` not of type bool"
  end.

(** The body of the loop over the addresses. *)
Definition prep_contract (cfg : ContractConfig) (addr : string) : result ContractConfig :=
  let transformer := GetStringMap ("contract." +:+ addr) in
  let key := ToLower addr in
  abi <-! get_abi transformer ;;
  events <-! string_list transformer "events" ;;
  methods <-! string_list transformer "methods" ;;
  eventArgs <-! string_list transformer "eventArgs" ;;
  methodArgs <-! string_list transformer "methodArgs" ;;
  start <-! get_start transformer ;;
  piping <-! get_piping transformer ;;
  Ok (mkConfig (cfg_Name cfg) (cfg_Network cfg) (cfg_Addresses cfg)
    (<[key := abi]> (cfg_Abis cfg)) (<[key := events]> (cfg_Events cfg)) (<[key := methods]> (cfg_Methods cfg))
    (<[key := eventArgs]> (cfg_EventArgs cfg)) (<[key := methodArgs]> (cfg_MethodArgs cfg))
    (<[key := start]> (cfg_StartingBlocks cfg)) (<[key := piping]> (cfg_Piping cfg))).

Fixpoint prep_contracts (cfg : ContractConfig) (addrs : list string) : result ContractConfig :=
  match addrs with
  | [] => Ok cfg
  | addr :: addrs => cfg <-! prep_contract cfg addr ;; prep_contracts cfg addrs
  end.

Definition PrepConfig (contractConfig : ContractConfig) : result ContractConfig :=
  let addrs := GetStringSlice "contract.addresses" in
  prep_contracts (mkConfig (cfg_Name contractConfig) (GetString "contract.network")
    (list_to_map (map (λ addr, (ToLower addr, true)) addrs)) ∅ ∅ ∅ ∅ ∅ ∅ ∅) addrs.

(** ** Lemmas *)

(** Every map of a configuration has an entry for exactly these addresses. *)
Definition configured (cfg : ContractConfig) (keys : string → Prop) : Prop := ∀ a,
  (is_Some (cfg_Abis cfg !! a) ↔ keys a) ∧ (is_Some (cfg_Events cfg !! a) ↔ keys a) ∧
  (is_Some (cfg_Methods cfg !! a) ↔ keys a) ∧ (is_Some (cfg_EventArgs cfg !! a) ↔ keys a) ∧
  (is_Some (cfg_MethodArgs cfg !! a) ↔ keys a) ∧ (is_Some (cfg_StartingBlocks cfg !! a) ↔ keys a) ∧
  (is_Some (cfg_Piping cfg !! a) ↔ keys a).

Lemma insert_keys {A} (m : gmap string A) k v (keys : string → Prop) a :
  (is_Some (m !! a) ↔ keys a) → (is_Some (<[k := v]> m !! a) ↔ keys a ∨ a = k).
Proof.
  intros Hk. destruct (decide (a = k)) as [->|Hne].
  - rewrite lookup_insert_eq. split; [by right|by eexists].
  - rewrite lookup_insert_ne by done. rewrite Hk. naive_solver.
Qed.

Lemma prep_contract_ok cfg addr cfg' keys : prep_contract cfg addr = Ok cfg' → configured cfg keys →
  cfg_Addresses cfg' = cfg_Addresses cfg ∧ cfg_Name cfg' = cfg_Name cfg ∧ cfg_Network cfg' = cfg_Network cfg ∧
  configured cfg' (λ a, keys a ∨ a = ToLower addr).
Proof.
  intros E Hk. unfold prep_contract in E.
  repeat (apply rbind_Ok_inv in E as (? & _ & E)). injection E as <-. simpl. split_and!; [done..|].
  intros a. destruct (Hk a) as (H1 & H2 & H3 & H4 & H5 & H6 & H7). simpl.
  split_and!; by apply insert_keys.
Qed.

Lemma prep_contracts_ok addrs : ∀ cfg cfg' keys, prep_contracts cfg addrs = Ok cfg' → configured cfg keys →
  cfg_Addresses cfg' = cfg_Addresses cfg ∧ cfg_Name cfg' = cfg_Name cfg ∧ cfg_Network cfg' = cfg_Network cfg ∧
  configured cfg' (λ a, keys a ∨ a ∈ map ToLower addrs).
Proof.
  induction addrs as [|addr addrs IH]; intros cfg cfg' keys E Hk; simpl in *.
  - injection E as <-. split_and!; [done..|]. intros a. destruct (Hk a) as (H1 & H2 & H3 & H4 & H5 & H6 & H7).
    assert (Hn : keys a ∨ a ∈ [] ↔ keys a) by (clear; rewrite elem_of_nil; tauto).
    by rewrite Hn.
  - apply rbind_Ok_inv in E as (cfg1 & E1 & E).
    destruct (prep_contract_ok _ _ _ _ E1 Hk) as (A1 & A2 & A3 & Hk1).
    destruct (IH _ _ _ E Hk1) as (B1 & B2 & B3 & Hk2). split_and!; [congruence..|].
    intros a. destruct (Hk2 a) as (K1 & K2 & K3 & K4 & K5 & K6 & K7).
    assert (Hn : (keys a ∨ a = ToLower addr) ∨ a ∈ map ToLower addrs ↔ keys a ∨ a ∈ ToLower addr :: map ToLower addrs)
      by (clear; rewrite elem_of_cons; tauto).
    by rewrite <- Hn.
Qed.

Lemma PrepConfig_ok cfg0 cfg : PrepConfig cfg0 = Ok cfg →
  (∀ a, is_Some (cfg_Addresses cfg !! a) ↔ a ∈ map ToLower (GetStringSlice "contract.addresses")) ∧
  configured cfg (λ a, is_Some (cfg_Addresses cfg !! a)) ∧
  ∀ a, is_Some (cfg_Addresses cfg !! a) → ToLower a = a.
Proof.
  unfold PrepConfig. set (addrs := GetStringSlice "contract.addresses"). intros E.
  assert (Haddrs : ∀ a, is_Some ((list_to_map (map (λ addr, (ToLower addr, true)) addrs) : gmap string bool) !! a) ↔
    a ∈ map ToLower addrs).
  { intros a. rewrite <- elem_of_dom, dom_list_to_map_L, elem_of_list_to_set.
    change (map (λ addr, (ToLower addr, true)) addrs).*1 with (map fst (map (λ addr, (ToLower addr, true)) addrs)).
    rewrite map_map. reflexivity. }
  apply prep_contracts_ok with (keys := λ _, False) in E as (A1 & _ & _ & Hk).
  - simpl in A1. rewrite A1. split_and!; [exact Haddrs| |].
    + intros a. rewrite Haddrs. destruct (Hk a) as (K1 & K2 & K3 & K4 & K5 & K6 & K7).
      assert (Hn : False ∨ a ∈ map ToLower addrs ↔ a ∈ map ToLower addrs) by (clear; tauto).
      by rewrite <- Hn.
    + intros a. rewrite Haddrs. intros (x & -> & _)%list_elem_of_fmap. apply ToLower_idem.
  - intros a. simpl. rewrite !lookup_empty. split_and!; by split; [intros [? ?]|].
Qed.

(** Documented behaviour of viper: keys are case insensitive, and the keys of
    the tables it returns are in lower case. *)
Definition lower_keys : Prop := ∀ table key v, GetStringMap table !! key = Some v → ToLower key = key.

Lemma prep_contract_args cfg addr cfg' : lower_keys → prep_contract cfg addr = Ok cfg' →
  cfg_EventArgs cfg' = <[ToLower addr := []]> (cfg_EventArgs cfg) ∧
  cfg_MethodArgs cfg' = <[ToLower addr := []]> (cfg_MethodArgs cfg).
Proof.
  intros Hlow E. unfold prep_contract in E.
  apply rbind_Ok_inv in E as (abi & _ & E). apply rbind_Ok_inv in E as (events & _ & E).
  apply rbind_Ok_inv in E as (methods & _ & E). apply rbind_Ok_inv in E as (eventArgs & E1 & E).
  apply rbind_Ok_inv in E as (methodArgs & E2 & E). apply rbind_Ok_inv in E as (start & _ & E).
  apply rbind_Ok_inv in E as (piping & _ & E). injection E as <-. simpl.
  assert (Hno : ∀ key l, ToLower key ≠ key → string_list (GetStringMap ("contract." +:+ addr)) key = Ok l → l = []).
  { intros key l Hkey. unfold string_list. destruct (_ !! key) as [v|] eqn:Ev; [by destruct (Hkey (Hlow _ _ _ Ev))|].
    by intros [= <-]. }
  by rewrite (Hno "eventArgs" eventArgs), (Hno "methodArgs" methodArgs).
Qed.

(** A configuration that is accepted has settings of every kind for exactly
    the listed addresses, in lower case; but since viper's keys are in lower
    case, "eventArgs" and "methodArgs" are never found: no contract filters its
    events or limits the arguments of its methods. *)
Theorem PrepConfig_ignores_arguments cfg0 cfg : lower_keys → PrepConfig cfg0 = Ok cfg →
  (∀ a, is_Some (cfg_Addresses cfg !! a) ↔ a ∈ map ToLower (GetStringSlice "contract.addresses")) ∧
  configured cfg (λ a, is_Some (cfg_Addresses cfg !! a)) ∧
  (∀ a, is_Some (cfg_Addresses cfg !! a) → ToLower a = a) ∧
  ∀ a, default [] (cfg_EventArgs cfg !! a) = [] ∧ default [] (cfg_MethodArgs cfg !! a) = [].
Proof.
  intros Hlow E. destruct (PrepConfig_ok cfg0 cfg E) as (Ha & Hc & Hl). split_and!; [done..|].
  unfold PrepConfig in E. revert E. generalize (GetStringSlice "contract.addresses") at 2. intros addrs.
  match goal with |- prep_contracts ?c _ = _ → _ => generalize c as c0, (λ a, conj (lookup_empty a) (lookup_empty a) :
    cfg_EventArgs c !! a = None ∧ cfg_MethodArgs c !! a = None) end.
  intros c0 Hc0.
  assert (Hd : ∀ a, default [] (cfg_EventArgs c0 !! a) = [] ∧ default [] (cfg_MethodArgs c0 !! a) = []).
  { intros a. by destruct (Hc0 a) as [-> ->]. }
  clear Hc0. revert c0 Hd. induction addrs as [|addr addrs IH]; intros c0 Hd E; simpl in E; [by injection E as <-|].
  apply rbind_Ok_inv in E as (c1 & E1 & E). apply (IH c1); [|done].
  destruct (prep_contract_args _ _ _ Hlow E1) as [-> ->]. intros a.
  destruct (decide (a = ToLower addr)) as [->|Hne]; [by rewrite !lookup_insert_eq|].
  rewrite !lookup_insert_ne by done. apply Hd.
Qed.

End Config.

(** ** The contracts of the logs *)

Section Found.
Context `{GethCommon} `{LogJSON} `{LRU} `{ContractLib} `{MapOrder}.

(** Documented behaviour: printing an address loses nothing but the case. *)
Definition prints_back (a : string) : Prop := ToLower (Address_Hex (HexToAddress a)) = ToLower a.

Lemma sort_logs_addresses allLogs a : is_Some (sort_logs allLogs !! a) ↔
  ∃ l, l ∈ allLogs ∧ a = ToLower (Address_Hex (tl_Address l)).
Proof.
  unfold sort_logs. assert (Hloop : ∀ m : gmap string (list types_Log),
    is_Some (fold_left (λ m log, let addr := ToLower (Address_Hex (tl_Address log)) in
      <[addr := default [] (m !! addr) ++ [log]]> m) allLogs m !! a) ↔
    is_Some (m !! a) ∨ ∃ l, l ∈ allLogs ∧ a = ToLower (Address_Hex (tl_Address l))).
  { induction allLogs as [|x logs IH]; intros m; simpl; [set_solver|]. rewrite IH.
    destruct (decide (a = ToLower (Address_Hex (tl_Address x)))) as [->|Hne].
    - rewrite lookup_insert_eq. split; [intros _; right; exists x; set_solver|by left; eexists].
    - rewrite lookup_insert_ne by done. set_solver. }
  rewrite Hloop, lookup_empty. split; [by intros [[? ?]|?]|by right].
Qed.

(** With a configuration in lower case and a node that only answers with logs
    of the contracts it was asked for, every log finds its contract. *)
Lemma contract_found w d header logs p :
  well_formed w d → (∀ a, a ∈ contractAddresses w → ToLower a = a ∧ prints_back a) →
  FetchLogs (contractAddresses w) (eventFilters w) header = Ok logs →
  (∀ l, l ∈ logs → tl_Address l ∈ hexStringsToAddresses (contractAddresses w)) →
  p ∈ map_to_list (sort_logs logs) → is_Some (Contracts w !! p.1).
Proof.
  intros Hwf Hlow _ Hlogs Hp. destruct p as [a ls]. apply elem_of_map_to_list in Hp. simpl.
  assert (is_Some (sort_logs logs !! a)) as (l & Hl & ->)%sort_logs_addresses by by eexists.
  apply Hlogs, list_elem_of_fmap in Hl as (x & -> & Hx). destruct (Hlow x Hx) as [Hx1 Hx2].
  rewrite Hx2, Hx1. by apply (wf_addresses _ _ Hwf).
Qed.

End Found.

(** ** Witness: a configuration with arguments *)

Section Witness.
#[local] Instance file_lib : ContractLib := {|
  ParseAbi := λ _, Ok ABI_zero; GetAbi := λ _, Err (Errorf ""); ABIs := ∅;
  UnpackLogIntoMap := λ _ _ _ _, Ok ∅; GetEthLogsWithCustomQuery := λ _, Ok []; FetchContractData := λ _ _ _ _ _, Ok VNil |}.

#[local] Instance file_viper : Viper := {|
  GetStringSlice := λ _, ["0xAb"];
  GetString := λ _, "";
  GetStringMap := λ _, <["startingblock" := SInt 5]> {["eventargs" := SSlice [SString "0x01"]]} |}.

Definition no_config : ContractConfig := mkConfig "" "" ∅ ∅ ∅ ∅ ∅ ∅ ∅ ∅.

Lemma PrepConfig_ignores_arguments_witness : ∃ cfg,
  PrepConfig no_config = Ok cfg ∧ cfg_StartingBlocks cfg !! "0xab" = Some 5 ∧
  default [] (cfg_EventArgs cfg !! "0xab") = [].
Proof.
  eexists. split; [vm_compute; reflexivity|]. split; [reflexivity|].
  eapply (PrepConfig_ignores_arguments no_config).
  - intros table key v. simpl. intros Hl. apply lookup_insert_Some in Hl as [[<- _]|[_ Hl]]; [reflexivity|].
    apply lookup_singleton_Some in Hl as [<- _]. reflexivity.
  - vm_compute. reflexivity.
Defined.
End Witness.
