(* ===== verification/ContractExample.v ===== *)
(** * A token watched by the contract watcher

    Concrete libraries, configuration and database, in which a token's
    transfers are collected and the balances of their senders polled; the
    theorems about the contract watcher are applied to it. *)

From S2P Require Import Prelude GoInt Decimal ChainTypes Geth Sql Queries BlockChain HeaderSync EventLogs Memory ContractTypes ContractDB ContractConverter ContractWatcher ContractPolling ContractInit.

#[local] Existing Instance Concrete.geth.

(** A cache that forgets nothing. *)
#[local] Instance token_lru : LRU := {|
  lru := list string;
  lru_New := λ _, [];
  lru_Get := λ k c, (existsb (String.eqb k) c, c);
  lru_Add := λ k c, k :: c
|}.

#[local] Instance token_lru_laws : LRULaws.
Proof.
  split; [done|by intros k k' c|]. intros k k' c. simpl. intros [->%String.eqb_eq|Hk]%orb_true_iff; auto.
Qed.

#[local] Instance token_json : LogJSON := {| log_MarshalJSON := λ _, Ok [] |}.

Definition uint256 : abi_Type := mkType UintTy 256 "uint256".
Definition address : abi_Type := mkType AddressTy 20 "address".

Definition token_abi : ABI := mkABI
  {["balanceOf" := mkAbiMethod "balanceOf" true [mkArgument "owner" address false] [mkArgument "" uint256 false]]}
  {["Transfer" := mkAbiEvent "Transfer" false [mkArgument "from" address true; mkArgument "value" uint256 false]]}.

Definition Transfer : Event := NewEvent (mkAbiEvent "Transfer" false
  [mkArgument "from" address true; mkArgument "value" uint256 false]).

Definition token : bytes := [1].
Definition token_address : string := Address_Hex token.
Definition alice : bytes := [7].
Definition transfer_log : types_Log := mkTypesLog token [Event_Sig Transfer] [] 5 [9] 0 [10] 0 false.

(** The node answers every query for logs with a transfer of Alice's, and
    every balance with 100. *)
#[local] Instance token_lib : ContractLib := {|
  ParseAbi := λ _, Ok token_abi;
  GetAbi := λ _, Err (Errorf "no answer");
  ABIs := ∅;
  UnpackLogIntoMap := λ _ _ _ _, Ok (<["from" := VAddress alice]> {["value" := VBigInt 3]});
  GetEthLogsWithCustomQuery := λ _, Ok [transfer_log];
  FetchContractData := λ _ _ name _ _, if bool_decide (name = "balanceOf") then Ok (VBigInt 100) else Err (Errorf "no such method")
|}.

#[local] Instance token_order : MapOrder := {| order := λ A _ m, map_to_list m; visit := λ _ s, elements s |}.

#[local] Instance token_order_laws : MapOrderLaws.
Proof.
  split.
  - by intros A n m.
  - intros n s. apply NoDup_elements.
  - intros n s k. simpl. by rewrite elem_of_elements.
Qed.

Definition token_config (methods : list string) : ContractConfig := mkConfig
  "token" "" {[token_address := true]} {[token_address := "abi"]} {[token_address := []]}
  {[token_address := methods]} ∅ ∅ {[token_address := 5]} ∅.

Definition token_headers : list header_row :=
  [mkHeaderRow 1 5 "h5" [] "" 0 1 "n"; mkHeaderRow 2 6 "h6" [] "" 0 1 "n"].
Definition token_db : ContractDB := mkContractDB token_headers ∅ [] ∅ ∅ ∅ None.
Definition token_session : session ContractDB := mkSession token_db ∅ false 0.

Definition new_watcher : Watcher :=
  mkWatcher _ [] [] [] [] [] ∅ [] ∅ ∅ [] [] 0 (mkParser "" ABI_zero) 0.

(** The watcher and the session after [Init], and after [Execute]. *)
Definition after {A} (r : outcome A * Watcher * session ContractDB) : Watcher * session ContractDB := (r.1.2, r.2).
Definition initialized : Watcher * session ContractDB :=
  Eval vm_compute in after (Init (token_config ["balanceOf"]) no_faults new_watcher token_session).
Definition executed : Watcher * session ContractDB :=
  Eval vm_compute in after (Execute "n" no_faults initialized.1 initialized.2).

Lemma token_Init : Init (token_config ["balanceOf"]) no_faults new_watcher token_session =
  (DOk tt, initialized.1, initialized.2).
Proof. vm_compute. reflexivity. Qed.

Lemma token_Execute : Execute "n" no_faults initialized.1 initialized.2 = (DOk tt, executed.1, executed.2).
Proof. vm_compute. reflexivity. Qed.

(** No header is checked yet. *)
Lemma token_unchecked : checked_headers (tables initialized.2) = [].
Proof. vm_compute. reflexivity. Qed.

Lemma token_counts : counts_ok (tables initialized.2).
Proof. intros r c. rewrite token_unchecked. by intros Hr%elem_of_nil. Qed.

(** ** The queue of headers *)

Lemma MissingHeadersForAll_exact_witness : ∃ hs s',
  MissingHeadersForAll "n" 5 (-1) (eventIds initialized.1) no_faults initialized.2 = (DOk hs, s') ∧
  map hd_BlockNumber hs = [5; 6] ∧ tables s' = tables initialized.2.
Proof.
  eexists _, _. split; [vm_compute; reflexivity|]. split; [reflexivity|].
  eapply (MissingHeadersForAll_exact "n" 5 (-1) (eventIds initialized.1) no_faults initialized.2); [|vm_compute; reflexivity].
  repeat constructor; discriminate.
Defined.

Lemma contract_checked_complete_witness : checked_stored executed.1 (tables executed.2).
Proof.
  pose proof (contract_checked_complete "n" no_faults initialized.1 initialized.2) as Hk.
  rewrite token_Execute in Hk. apply Hk; [discriminate|]. split_and!.
  - apply (bool_decide_unpack _). vm_compute. exact I.
  - apply map_Forall_lookup. apply (bool_decide_unpack _). vm_compute. exact I.
  - intros r id h Hr. rewrite token_unchecked in Hr. by apply elem_of_nil in Hr.
Defined.

Lemma Execute_checks_missing_witness :
  ∃ missing hs, missing_from "n" 5 (eventIds initialized.1) (tables initialized.2) missing ∧ first_run missing hs ∧
    Start executed.1 = match last hs with Some h => i64_add (hd_BlockNumber h) 1 | None => 5 end.
Proof.
  destruct (Execute_checks_missing "n" no_faults initialized.1 initialized.2 executed.1 executed.2)
    as (missing & hs & Hm & Hr & _ & Hs).
  - exact token_counts.
  - repeat constructor; discriminate.
  - exact token_Execute.
  - exists missing, hs. split_and!; [exact Hm|exact Hr|exact Hs].
Defined.

(** ** Polling *)

(** The connection is lost at the [n]-th statement. *)
Definition lost_at (n : nat) : oracle := λ k, if (k =? n)%nat then Some (Driver "connection lost") else None.

Definition unpolled : Watcher * session ContractDB :=
  Eval vm_compute in after (execute_header (mkHeader 1 5 "h5" [] "") (lost_at 12) initialized.1 initialized.2).

Lemma failed_poll_is_skipped_witness :
  execute_header (mkHeader 1 5 "h5" [] "") (lost_at 12) initialized.1 initialized.2 =
    (DErr true (Errorf "error polling methods"), unpolled.1, unpolled.2) ∧
  ∃ hs s', MissingHeadersForAll "n" 5 (-1) (eventIds unpolled.1) no_faults unpolled.2 = (DOk hs, s') ∧ 1 ∉ map hd_ID hs.
Proof.
  assert (E : execute_header (mkHeader 1 5 "h5" [] "") (lost_at 12) initialized.1 initialized.2 =
    (DErr true (Errorf "error polling methods"), unpolled.1, unpolled.2)) by (vm_compute; reflexivity).
  split; [exact E|].
  destruct (MissingHeadersForAll "n" 5 (-1) (eventIds unpolled.1) no_faults unpolled.2) as [r s'] eqn:Em.
  assert (Hr : ∃ hs, r = DOk hs) by (vm_compute in Em; injection Em as <- _; eexists; reflexivity).
  destruct Hr as [hs ->]. exists hs, s'. split; [reflexivity|].
  refine (failed_poll_is_skipped "n" (mkHeader 1 5 "h5" [] "") (lost_at 12) initialized.1 initialized.2
    true unpolled.1 unpolled.2 token_counts E 5 (-1) no_faults hs s' Em).
Defined.

(** The contract of the token once Alice has been seen. *)
Definition watched_token : Contract := Eval vm_compute in default (Contract_Init (mkContract "" "" "" 0 "" ABI_zero ∅ None ∅ None None None None false))
  (Contracts executed.1 !! token_address).

Lemma PollContractAt_stores_witness : ∃ w s,
  PollContractAt token_address 7 no_faults executed.1 executed.2 = (DOk tt, w, s) ∧
  ∃ m, m ∈ methods_of watched_token ∧ answer_stored watched_token m 7 [VAddress alice] (tables s).
Proof.
  eexists _, _. split; [vm_compute; reflexivity|].
  eexists (default Method_zero (head (methods_of watched_token))). split; [vm_compute; left|].
  eapply (PollContractAt_stores watched_token 7 no_faults executed.1 executed.2).
  - vm_compute. reflexivity.
  - vm_compute. reflexivity.
  - vm_compute. left.
  - unfold call_args. exists alice. split; [|reflexivity].
    apply (bool_decide_unpack _). vm_compute. exact I.
Defined.

(** A method the ABI does not have. *)
Definition misconfigured : Watcher * session ContractDB :=
  Eval vm_compute in after (Init (token_config ["symbol"]) no_faults new_watcher token_session).
Definition misconfigured_token : Contract := Eval vm_compute in default watched_token (Contracts misconfigured.1 !! token_address).

Lemma unpollable_blocks_polling_witness :
  con_Methods misconfigured_token =
    GetSelectMethods (map snd (map_to_list (abi_Methods token_abi))) ["symbol"] ∧
  (PollContractAt token_address 5 no_faults misconfigured.1 misconfigured.2).1.1 ≠ DOk tt.
Proof.
  assert (Hm : con_Methods misconfigured_token =
    GetSelectMethods (map snd (map_to_list (abi_Methods token_abi))) ["symbol"]) by (vm_compute; reflexivity).
  split; [exact Hm|]. intros E.
  destruct (PollContractAt token_address 5 no_faults misconfigured.1 misconfigured.2) as [[r w'] s'] eqn:Ep.
  simpl in E. subst r. revert Ep.
  apply (unpollable_blocks_polling misconfigured_token (map snd (map_to_list (abi_Methods token_abi))) ["symbol"] "symbol").
  - apply (bool_decide_unpack _). vm_compute. exact I.
  - exact Hm.
  - by left.
  - intros m Hm'. vm_compute in Hm'. apply list_elem_of_singleton in Hm' as ->. discriminate.
  - vm_compute. reflexivity.
Defined.

(** ** Well-formedness *)

Lemma watcher_well_formed_witness :
  configured (token_config ["balanceOf"]) initialized.1 (tables initialized.2) ∧
  configured (token_config ["balanceOf"]) executed.1 (tables executed.2).
Proof.
  destruct (watcher_well_formed "n" (token_config ["balanceOf"])) as [Hinit Hexec].
  assert (Hwf : configured (token_config ["balanceOf"]) initialized.1 (tables initialized.2)).
  { apply (Hinit no_faults new_watcher token_session); [|exact token_Init].
    split; [reflexivity|]. by intros k. }
  split; [exact Hwf|].
  specialize (Hexec no_faults initialized.1 initialized.2). rewrite token_Execute in Hexec.
  apply Hexec; [discriminate|exact Hwf].
Defined.
