(* ===== verification/BtcModel.v ===== *)
(** * Bitcoin data and the payload converter (pkg/super_node/btc: types.go,
    models.go, subscription_config.go, converter.go, payload_fetcher.go)

    The blocks of btcd are records of the fields the code reads; hashing,
    serialization and the analysis of output scripts are operations of a class. *)

From S2P Require Import Prelude GoInt Decimal ChainTypes Geth.

(** ** github.com/btcsuite/btcd/wire and btcutil *)

Record OutPoint : Type := mkOutPoint { op_Hash : bytes; op_Index : Z }.

Record TxIn : Type := mkTxIn {
  in_PreviousOutPoint : OutPoint;
  in_SignatureScript : bytes;
  in_Witness : list bytes;
  in_Sequence : Z
}.

Record TxOut : Type := mkTxOut { out_Value : Z; out_PkScript : bytes }.

Record MsgTx : Type := mkMsgTx {
  msg_Version : Z;
  msg_TxIn : list TxIn;
  msg_TxOut : list TxOut;
  msg_LockTime : Z
}.

(** btcutil.Tx *)
Record Tx : Type := mkTx { tx_MsgTx : MsgTx; tx_Index : Z }.

(** The time stamp is a count of nanoseconds. *)
Record BlockHeader : Type := mkBlockHeader {
  bh_Version : Z;
  bh_PrevBlock : bytes;
  bh_MerkleRoot : bytes;
  bh_Timestamp : Z;
  bh_Bits : Z;
  bh_Nonce : Z
}.

Class BtcLib := {
  BlockHash : BlockHeader → bytes;
  header_Serialize : BlockHeader → result bytes;
  tx_Serialize : MsgTx → result bytes;
  tx_Hash : MsgTx → bytes;                       (* btcutil.Tx.Hash *)
  tx_WitnessHash : MsgTx → bytes;
  tx_HasWitness : MsgTx → bool;
  chainhash_String : bytes → string;
  (** txscript.ExtractPkScriptAddrs under the chain's parameters, its
      addresses printed by EncodeAddress: the class of the script, the
      addresses, the number of required signatures and the error. *)
  ExtractPkScriptAddrs : bytes → Z * list string * Z * option error
}.

(** txscript.NonStandardTy *)
Definition NonStandardTy : Z := 0.

(** ** models.go *)

Record HeaderModel : Type := mkHeaderModel {
  h_ID : Z;
  h_BlockNumber : Z;
  h_BlockHash : string;
  h_ParentHash : string;
  h_CID : string;
  h_Timestamp : Z;
  h_Bits : Z;
  h_NodeID : Z;
  h_TimesValidated : Z
}.

Definition HeaderModel_zero : HeaderModel := mkHeaderModel 0 0 "" "" "" 0 0 0 0.

Record TxModel : Type := mkTxModel {
  t_ID : Z;
  t_HeaderID : Z;
  t_Index : Z;
  t_TxHash : string;
  t_CID : string;
  t_SegWit : bool;
  t_WitnessHash : string
}.

Record TxInput : Type := mkTxInput {
  i_ID : Z;
  i_TxID : Z;
  i_Index : Z;
  i_TxWitness : list string;
  i_SignatureScript : bytes;
  i_PreviousOutPointIndex : Z;
  i_PreviousOutPointHash : string
}.

Record TxOutput : Type := mkTxOutput {
  o_ID : Z;
  o_TxID : Z;
  o_Index : Z;
  o_Value : Z;
  o_PkScript : bytes;
  o_ScriptClass : Z;
  o_RequiredSigs : Z;
  o_Addresses : list string
}.

(** The transaction's own columns and its inputs and outputs. *)
Record TxModelWithInsAndOuts : Type := mkTxMeta {
  m_Tx : TxModel;
  m_TxInputs : list TxInput;
  m_TxOutputs : list TxOutput
}.

(** ** types.go *)

Record BlockPayload : Type := mkBlockPayload {
  BlockHeight : Z;
  Header : BlockHeader;
  Txs : list Tx
}.

Record ConvertedPayload : Type := mkConverted {
  p_BlockPayload : BlockPayload;
  p_TxMetaData : list TxModelWithInsAndOuts
}.

Definition ConvertedPayload_Height (cp : ConvertedPayload) : Z := BlockHeight (p_BlockPayload cp).

Record CIDPayload : Type := mkCIDPayload {
  HeaderCID : HeaderModel;
  TransactionCIDs : list TxModelWithInsAndOuts
}.

Record CIDWrapper : Type := mkCIDWrapper {
  w_BlockNumber : Z;
  w_Header : HeaderModel;
  w_Transactions : list TxModel
}.

Record IPLDs : Type := mkIPLDs {
  ipld_BlockNumber : option Z;
  ipld_Header : BlockModel;
  ipld_Transactions : list BlockModel
}.

Definition IPLDs_zero : IPLDs := mkIPLDs None (mkBlock "" []) [].

(** [i.BlockNumber.Int64()] *)
Definition IPLDs_Height (i : IPLDs) : result Z :=
  match ipld_BlockNumber i with
  | Some n => Ok (i64 n)
  | None => Panic "nil pointer dereference"
  end.

(** ** subscription_config.go *)

Record HeaderFilter : Type := mkHeaderFilter { hf_Off : bool }.

Record TxFilter : Type := mkTxFilter {
  tf_Off : bool;
  tf_Segwit : bool;
  tf_WitnessHashes : list string;
  tf_Indexes : list Z;
  tf_PkScriptClasses : list Z;
  tf_MultiSig : bool;
  tf_Addresses : list string
}.

Record SubscriptionSettings : Type := mkSettings {
  BackFill : bool;
  BackFillOnly : bool;
  Start : Z;
  End_ : Z;
  HeaderFilter_ : HeaderFilter;
  TxFilter_ : TxFilter
}.

Definition StartingBlock (sc : SubscriptionSettings) : Z := Start sc.
Definition EndingBlock (sc : SubscriptionSettings) : Z := End_ sc.
Definition HistoricalData (sc : SubscriptionSettings) : bool := BackFill sc.
Definition HistoricalDataOnly (sc : SubscriptionSettings) : bool := BackFillOnly sc.
Definition Settings_ChainType (sc : SubscriptionSettings) : ChainType := Bitcoin.

(** ** payload_fetcher.go *)

Definition msgTxsToUtilTxs (msgs : list MsgTx) : list Tx := imap (λ i msg, mkTx msg (Z.of_nat i)) msgs.

Section Fetcher.
(** The two RPC methods of the client: the block is its header and transactions. *)
Variable GetBlockHash : Z → result bytes.
Variable GetBlock : bytes → result (BlockHeader * list MsgTx).

Definition FetchAt (blockHeights : list Z) : result (list BlockPayload) :=
  range_collect (λ height,
    hash <-! wrapped "bitcoin PayloadFetcher GetBlockHash err at blockheight" (GetBlockHash (i64 height)) ;;
    block <-! wrapped "bitcoin PayloadFetcher GetBlock err at blockheight" (GetBlock hash) ;;
    Ok (mkBlockPayload (i64 height) block.1 (msgTxsToUtilTxs block.2))) blockHeights.

(** http_streamer.go: a tick of the ticker, on the hash of the last block
    sent; it sends an error or a payload, or nothing. *)
Variable GetBlockCount : result Z.

Definition or_send {A} (lastHash : bytes) (r : result A)
    (k : A → result (option (error + BlockPayload) * bytes)) : result (option (error + BlockPayload) * bytes) :=
  match r with
  | Ok a => k a
  | Err err => Ok (Some (inl err), lastHash)
  | Panic w => Panic w
  end.

Definition stream_tick (lastHash : bytes) : result (option (error + BlockPayload) * bytes) :=
  or_send lastHash GetBlockCount (λ height,
  or_send lastHash (GetBlockHash height) (λ blockHash,
  if bool_decide (blockHash = lastHash) then Ok (None, lastHash)
  else or_send lastHash (GetBlock blockHash) (λ block,
  Ok (Some (inr (mkBlockPayload height block.1 (msgTxsToUtilTxs block.2))), blockHash)))).

End Fetcher.

(** ** converter.go *)

Definition convertBytesToHexArray (bytea : list bytes) : list string := map EncodeToString bytea.

Section Converter.
Context `{BtcLib}.

Definition convert_in (i : nat) (in_ : TxIn) : TxInput := {|
  i_ID := 0; i_TxID := 0; i_Index := Z.of_nat i;
  i_TxWitness := convertBytesToHexArray (in_Witness in_);
  i_SignatureScript := in_SignatureScript in_;
  i_PreviousOutPointIndex := op_Index (in_PreviousOutPoint in_);
  i_PreviousOutPointHash := chainhash_String (op_Hash (in_PreviousOutPoint in_)) |}.

(** An error is ignored for a script of the non-standard class. *)
Definition convert_out (i : nat) (out : TxOut) : result TxOutput :=
  let '(scriptClass, addresses, numberOfSigs, err) := ExtractPkScriptAddrs (out_PkScript out) in
  _ <-! match err with
        | Some e => if negb (scriptClass =? NonStandardTy) then Err e else Ok tt
        | None => Ok tt
        end ;;
  Ok {| o_ID := 0; o_TxID := 0; o_Index := Z.of_nat i; o_Value := out_Value out;
        o_PkScript := out_PkScript out; o_ScriptClass := scriptClass mod 256;
        o_RequiredSigs := numberOfSigs; o_Addresses := addresses |}.

Definition convert_tx (i : nat) (tx : Tx) : result TxModelWithInsAndOuts :=
  let msg := tx_MsgTx tx in
  outputs <-! range_collect (λ p, convert_out p.1 p.2) (imap pair (msg_TxOut msg)) ;;
  Ok {| m_Tx := {| t_ID := 0; t_HeaderID := 0; t_Index := Z.of_nat i;
                   t_TxHash := chainhash_String (tx_Hash msg); t_CID := "";
                   t_SegWit := tx_HasWitness msg;
                   t_WitnessHash := if tx_HasWitness msg then chainhash_String (tx_WitnessHash msg) else "" |};
        m_TxInputs := imap convert_in (msg_TxIn msg);
        m_TxOutputs := outputs |}.

Definition Convert (btcBlockPayload : BlockPayload) : result ConvertedPayload :=
  txMeta <-! range_collect (λ p, convert_tx p.1 p.2) (imap pair (Txs btcBlockPayload)) ;;
  Ok (mkConverted btcBlockPayload txMeta).

End Converter.
