(* ===== verification/BtcSettings.v ===== *)
(** * Bitcoin subscription settings from the configuration
    (pkg/super_node/btc/subscription_config.go, NewBtcSubscriptionConfig)

    The two settings that are not strings, booleans or integers are read with
    [viper.Get] and a type assertion. *)

From S2P Require Import Prelude GoInt ChainTypes Geth.
From S2P Require NodeSetup.
From S2P Require Import BtcModel.

Section Settings.
Context `{NodeSetup.Environment}.

(** [v, ok := x.([]uint8)] and [v, ok := x.([]int64)] *)
Definition as_uint8s (s : option NodeSetup.setting) : option (list Z) :=
  match s with Some (NodeSetup.SBytes l) => Some l | _ => None end.
Definition as_int64s (s : option NodeSetup.setting) : option (list Z) :=
  match s with Some (NodeSetup.SInt64s l) => Some l | _ => None end.

Definition NewBtcSubscriptionConfig : result SubscriptionSettings :=
  let s k := "superNode.btcSubscription." +:+ k in
  match as_uint8s (NodeSetup.Get (s "txFilter.pkScriptClass")) with
  | None => Err (Errorf "superNode.btcSubscription.txFilter.pkScriptClass needs to be an array of uint8s")
  | Some pkScriptClasses =>
      match as_int64s (NodeSetup.Get (s "txFilter.indexes")) with
      | None => Err (Errorf "superNode.btcSubscription.txFilter.indexes needs to be an array of int64s")
      | Some indexes =>
          Ok {| BackFill := NodeSetup.GetBool (s "historicalData");
                BackFillOnly := NodeSetup.GetBool (s "historicalDataOnly");
                Start := NodeSetup.GetInt64 (s "startingBlock");
                End_ := NodeSetup.GetInt64 (s "endingBlock");
                HeaderFilter_ := mkHeaderFilter (NodeSetup.GetBool (s "headerFilter.off"));
                TxFilter_ := {|
                  tf_Off := NodeSetup.GetBool (s "txFilter.off");
                  tf_Segwit := NodeSetup.GetBool (s "txFilter.segwit");
                  tf_WitnessHashes := NodeSetup.GetStringSlice (s "txFilter.witnessHashes");
                  tf_Indexes := indexes;
                  tf_PkScriptClasses := pkScriptClasses;
                  tf_MultiSig := NodeSetup.GetBool (s "txFilter.multiSig");
                  tf_Addresses := NodeSetup.GetStringSlice (s "txFilter.addresses") |} |}
      end
  end.

(** What a configuration file or an environment variable can hold: its lists
    are [[]interface{}], so neither assertion ever succeeds. *)
Definition from_file (s : option NodeSetup.setting) : Prop :=
  match s with
  | None | Some NodeSetup.STable | Some NodeSetup.SList | Some NodeSetup.SScalar => True
  | _ => False
  end.

(** A configuration that comes from a file is always refused. *)
Lemma btc_config_refused :
  (∀ k, from_file (NodeSetup.Get k)) → ∃ e, NewBtcSubscriptionConfig = Err e.
Proof.
  intros Hf. unfold NewBtcSubscriptionConfig. set (k := "superNode.btcSubscription." +:+ "txFilter.pkScriptClass").
  specialize (Hf k). unfold as_uint8s. destruct (NodeSetup.Get k) as [[]|]; try done;
    exists (Errorf "superNode.btcSubscription.txFilter.pkScriptClass needs to be an array of uint8s"); reflexivity.
Qed.

End Settings.
