(* ===== verification/WatcherSetup.v ===== *)
(** * Setting up a watcher (pkg/watcher/config.go, constructors.go, NewWatcher of
    service.go, pkg/wasm/instantiator.go, libraries/shared/streamer/super_node_streamer.go)

    From the settings to the watcher's configuration, and from there to the
    service with its repository. *)

From S2P Require Import Prelude GoInt ChainTypes Geth EthModel Sql EthDB WatcherConverter Watcher WatcherDB.
From S2P Require BtcModel BtcSettings.
From S2P Require Import NodeSetup.
From S2P Require Service.

(** wasm.WasmFunction *)
Record WasmFunction : Type := mkWasm { BinaryPath : string; Namespace : string }.

(** shared.SubscriptionSettings of either chain *)
Inductive Subscription : Type :=
| EthSettings (c : EthModel.SubscriptionSettings)
| BtcSettings_ (c : BtcModel.SubscriptionSettings).

Definition Subscription_ChainType (c : Subscription) : ChainType :=
  match c with EthSettings _ => Ethereum | BtcSettings_ _ => Bitcoin end.

(** The starting and ending block, and whether only historical data is wanted. *)
Definition Subscription_range (c : Subscription) : Z * Z * bool :=
  match c with
  | EthSettings c => (Start c, End_ c, BackFillOnly c)
  | BtcSettings_ c => (BtcModel.StartingBlock c, BtcModel.EndingBlock c, BtcModel.HistoricalDataOnly c)
  end.

Record WatcherConfig : Type := mkWatcherConfig {
  wc_Subscription : Subscription;
  wc_DBConfig : Database;
  wc_DB : PgDB;
  wc_Client : Client;
  wc_WASMFunctions : list WasmFunction;
  wc_TriggerFunctions : list string;
  wc_Chain : ChainType;
  wc_Source : Source.SourceType;
  wc_NodeInfo : Node
}.

Section Setup.
Context `{Environment}.
(** [cli.CallContext(ctx, &nodeInfo, "vdb_node")] at the super node of a path. *)
Variable vdb_node : string → result Node.

(** [switch c.Chain] *)
Definition subscription_config (c : ChainType) : result Subscription :=
  match c with
  | Ethereum => Ok (EthSettings NewEthSubscriptionConfig)
  | Bitcoin => cfg <-! BtcSettings.NewBtcSubscriptionConfig ;; Ok (BtcSettings_ cfg)
  | Omni => Err (Errorf "omni chain type currently not supported")
  | _ => Err (Errorf "unexpected chain type")
  end.

(** [switch c.Source] *)
Definition source_client (source : Source.SourceType) (sourcePath : string) : result (Node * Client) :=
  match source with
  | Source.Ethereum => Err (Errorf "ethereum data source currently not supported")
  | Source.Bitcoin => Err (Errorf "bitcoin data source currently not supported")
  | Source.VulcanizeDB =>
      _ <-! rpc_Dial sourcePath ;;
      nodeInfo <-! vdb_node sourcePath ;;
      Ok (nodeInfo, EthClient sourcePath)
  | Source.Unknown => Err (Errorf "unexpected data source type")
  end.

Definition wasm_functions (binaries namespaces : list string) : result (list WasmFunction) :=
  if negb (length binaries =? length namespaces)%nat
  then Err (Errorf "watcher config needs a namespace for every wasm binary")
  else Ok (zip_with mkWasm binaries namespaces).

(** The fields that are set: the pool settings are zero. *)
Definition watcher_database : Database := {|
  Name := GetString "watcher.database.name"; Hostname := GetString "watcher.database.hostname";
  Port := GetInt "watcher.database.port"; User := GetString "watcher.database.user";
  Password := GetString "watcher.database.password"; MaxIdle := 0; MaxOpen := 0; MaxLifetime := 0 |}.

Definition NewWatcherConfig : DB (list node_row) WatcherConfig :=
  chain <-- db_lift (checked (NewChainType (GetString "watcher.chain"))) ;;
  subscription <-- db_lift (subscription_config chain) ;;
  let sourcePath := or_default (GetString "watcher.dataSource") "ws://127.0.0.1:8080" in
  source <-- db_lift (checked (Source.NewSourceType (GetString "watcher.dataPath"))) ;;
  nc <-- db_lift (source_client source sourcePath) ;;
  wasm <-- db_lift (wasm_functions (GetStringSlice "watcher.wasmBinaries") (GetStringSlice "watcher.wasmNamespaces")) ;;
  db <-- LoadPostgres watcher_database nc.1 ;;
  db_ret {| wc_Subscription := subscription; wc_DBConfig := watcher_database; wc_DB := db; wc_Client := nc.2;
            wc_WASMFunctions := wasm; wc_TriggerFunctions := GetStringSlice "watcher.triggerFunctions";
            wc_Chain := chain; wc_Source := source; wc_NodeInfo := nc.1 |}.

(** ** constructors.go *)

(** The streamer is its client. *)
Definition NewSuperNodeStreamer (source : Source.SourceType) (client : Client) : result string :=
  match source with
  | Source.VulcanizeDB =>
      match client with
      | EthClient url => Ok url
      | _ => Err (Errorf "vulcanizedb NewSuperNodeStreamer construct expects client type")
      end
  | _ => Err (Errorf "NewSuperNodeStreamer constructor unexpected souce type")
  end.

(** The repository over a session of the database. *)
Definition NewRepository (chain : ChainType) (s : session EthDB) : result EthRepository :=
  match chain with
  | Ethereum => Ok (WatcherDB.NewRepository s)
  | _ => Err (Errorf "NewRepository constructor unexpected chain type")
  end.

Definition NewWatcher (c : WatcherConfig) (s : session EthDB) : result (Watcher.Service EthRepository * string) :=
  repo <-! NewRepository (Subscription_ChainType (wc_Subscription c)) s ;;
  streamer <-! NewSuperNodeStreamer (wc_Source c) (wc_Client c) ;;
  Ok (Watcher.mkService None 0 repo, streamer).

End Setup.

(** ** wasm.Instantiate *)

(** [SELECT wasm_new_instance('$1', '$2')] for every function; what the server
    answers to it is a parameter.  An error leaves the transaction open. *)
Section Wasm.
Variable o : oracle.
Variable wasm_new_instance : WasmFunction → EthDB → result EthDB.

Definition new_instances (instances : list WasmFunction) : DB EthDB unit :=
  db_for (λ pn, exec_check (λ d q, (rbind (wasm_new_instance pn d) (λ d, Ok (tt, d)), q))) instances.

Definition Instantiate (instances : list WasmFunction) : EthRepository → result unit * EthRepository :=
  transact_unended o (new_instances instances).

End Wasm.

(** ** Properties *)

Section Configured.
Context `{Environment} `{GethCommon} `{WatcherRlp}.
Variable vdb_node : string → result Node.

(** The repository of a watcher, with everything it is a function of. *)
Variable map_range : list string → list string.
Variable o : oracle.
Variable ReadFile : string → result string.
Variable run_sql : string → EthDB → result EthDB.
Variable single_column : option error.
Variable nodeID : Z.

Lemma wasm_functions_names bs ns l : wasm_functions bs ns = Ok l → map BinaryPath l = bs ∧ map Namespace l = ns.
Proof.
  unfold wasm_functions. destruct (Nat.eqb_spec (length bs) (length ns)) as [Hl|]; [|done]. intros [= <-].
  split; [apply fmap_zip_with_l|apply fmap_zip_with_r]; done || lia.
Qed.

(** What holds of every configuration that is returned. *)
Record configured (c : WatcherConfig) : Prop := {
  cd_chain : Subscription_ChainType (wc_Subscription c) = wc_Chain c;
  cd_supported : wc_Chain c = Ethereum ∨ wc_Chain c = Bitcoin;
  cd_source : wc_Source c = Source.VulcanizeDB;
  cd_client : wc_Client c = EthClient (or_default (GetString "watcher.dataSource") "ws://127.0.0.1:8080");
  cd_node : vdb_node (or_default (GetString "watcher.dataSource") "ws://127.0.0.1:8080") = Ok (wc_NodeInfo c);
  cd_wasm : wasm_functions (GetStringSlice "watcher.wasmBinaries") (GetStringSlice "watcher.wasmNamespaces") =
              Ok (wc_WASMFunctions c)
}.

Lemma NewWatcherConfig_configured : returns (NewWatcherConfig vdb_node) configured.
Proof.
  unfold NewWatcherConfig. eapply returns_bind; [apply returns_lift|]. intros chain _.
  eapply returns_bind; [apply returns_lift|]. intros sub Hsub.
  eapply returns_bind; [apply returns_lift|]. intros source _.
  eapply returns_bind; [apply returns_lift|]. intros nc Hnc.
  eapply returns_bind; [apply returns_lift|]. intros wasm Hwasm.
  eapply returns_bind; [apply returns_any|]. intros db _. apply returns_ret.
  assert (Subscription_ChainType sub = chain ∧ (chain = Ethereum ∨ chain = Bitcoin)) as [Hc1 Hc2].
  { destruct chain; try done; simpl in Hsub; [by injection Hsub as <-; auto|].
    apply rbind_Ok_inv in Hsub as (cfg & _ & [= <-]). auto. }
  destruct source; try done. simpl in Hnc. apply rbind_Ok_inv in Hnc as ([] & _ & (n & Hn & [= <-])%rbind_Ok_inv).
  by split.
Qed.

(** A configuration that is accepted streams from a super node and has a
    namespace for every binary.  For Bitcoin there is no repository, so no
    watcher; for Ethereum the watcher is made, and every Watch on it that gets
    its subscription ends in a panic: no configured watcher ever watches. *)
Theorem configured_watcher_never_watches oc s c s' :
  NewWatcherConfig vdb_node oc s = (DOk c, s') →
  let path := or_default (GetString "watcher.dataSource") "ws://127.0.0.1:8080" in
  wc_Source c = Source.VulcanizeDB ∧ wc_Client c = EthClient path ∧ vdb_node path = Ok (wc_NodeInfo c) ∧
  map Namespace (wc_WASMFunctions c) = GetStringSlice "watcher.wasmNamespaces" ∧
  map BinaryPath (wc_WASMFunctions c) = GetStringSlice "watcher.wasmBinaries" ∧
  match wc_Chain c with
  | Ethereum => ∀ s2, ∃ sw, NewWatcher c s2 = Ok (sw, path) ∧
      let repo := eth_repository map_range o ReadFile run_sql single_column nodeID (wc_TriggerFunctions c) in
      ∀ params Stream, is_ok (Stream params) = true →
        let '(start, stop, only) := Subscription_range (wc_Subscription c) in
        ∃ why, Watch (H := repo) (Ok params) Stream start stop only sw = Panic why
  | Bitcoin => ∀ s2, ∃ e, NewWatcher c s2 = Err e
  | _ => False
  end.
Proof.
  intros Hr path. destruct (NewWatcherConfig_configured _ _ _ _ Hr) as [Hc Hs Hso Hcl Hn Hw].
  apply wasm_functions_names in Hw as [Hb Hns]. split_and!; try done.
  destruct Hs as [Hch|Hch]; rewrite Hch in *; intros s2; unfold NewWatcher; rewrite Hc; simpl.
  - rewrite Hso, Hcl. eexists. split; [reflexivity|]. intros params Stream Hst.
    destruct (Subscription_range _) as [[start stop] only]. unfold Watch. simpl.
    destruct (Stream params); [|done..]. by eexists.
  - by eexists.
Qed.

End Configured.

(** ** Witness *)

Section Witness.

Definition ex_env : Environment := {|
  GetString := λ k, if bool_decide (k = "watcher.chain") then "ethereum"
    else if bool_decide (k = "watcher.dataPath") then "vulcanizedb" else "";
  GetStringSlice := λ k, if bool_decide (k = "watcher.wasmBinaries") then ["a.wasm"]
    else if bool_decide (k = "watcher.wasmNamespaces") then ["a"] else [];
  GetBool := λ _, true; GetInt := λ _, 5432; GetInt64 := λ _, 3; Get := λ _, None;
  UserHomeDir := Ok "/home"; Join := λ a b, a +:+ "/" +:+ b; rpc_Dial := λ _, Ok tt; rpcclient_New := λ _, Ok tt;
  sqlx_Connect := λ _, Ok tt; InitIPFSNode := λ _, Ok tt; InitIPFSBlockService := λ _, Ok tt |}.

Definition ex_node : string → result Node := λ _, Ok (mkNode_ "1" "geth" "0x0" "1").

Lemma configured_watcher_never_watches_witness : ∃ c s',
  NewWatcherConfig (H := ex_env) ex_node no_faults (mkSession [] ∅ false 0) = (DOk c, s') ∧
  wc_WASMFunctions c = [mkWasm "a.wasm" "a"] ∧ wc_Chain c = Ethereum ∧ wc_Source c = Source.VulcanizeDB ∧
  wc_Client c = EthClient "ws://127.0.0.1:8080".
Proof.
  destruct (NewWatcherConfig (H := ex_env) ex_node no_faults (mkSession [] ∅ false 0)) as [[c|b e|w] s'] eqn:E;
    [|vm_compute in E; discriminate..].
  assert (wc_WASMFunctions c = [mkWasm "a.wasm" "a"] ∧ wc_Chain c = Ethereum) as [Hw Hch]
    by (vm_compute in E; injection E as <- <-; split; reflexivity).
  exists c, s'. split; [done|]. split; [exact Hw|]. split; [exact Hch|].
  destruct (configured_watcher_never_watches (H := ex_env) (H0 := OneBlock.ex_geth) (H1 := OneBlock.ex_rlp) ex_node (λ l, l)
    no_faults (λ _, Ok "") (λ _ d, Ok d) None 1 no_faults (mkSession [] ∅ false 0) c s' E) as (Hs & Hc & _).
  split; [exact Hs|exact Hc].
Defined.

End Witness.
