(* ===== verification/BtcIpld.v ===== *)
(** * Bitcoin IPLD nodes (pkg/ipfs/ipld: btc_header.go, btc_tx.go,
    btc_tx_trie.go, btc_parser.go, shared.go)

    Headers, transactions, and the Merkle tree built over the transactions of
    a block; the links between them and the paths through them. *)

From S2P Require Import Prelude GoInt Decimal Geth BtcModel.

(** go-multihash and the conversions between CIDs and their multihashes. *)
Class Multihash := {
  mh_Sum : bytes → Z → bytes;         (* mh.Sum(data, code, -1) *)
  mh_Encode : bytes → Z → bytes;      (* mh.Encode(digest, code) *)
  NewCidV1 : Z → bytes → string;      (* cid.NewCidV1(codec, multihash) *)
  Cid_Hash : string → bytes           (* cid.Cid.Hash *)
}.

(** Documented behaviour: a digest of 32 bytes is encoded as its code, its
    length and itself; a CID of version 1 is a codec and a multihash, and a
    [Prefix] computes it from data. *)
Class MultihashLaws `{CidLib} `{Multihash} := {
  Cid_Hash_NewCidV1 : ∀ t h, Cid_Hash (NewCidV1 t h) = h;
  mh_Encode_DBL : ∀ h, length h = 32%nat → mh_Encode h DBL_SHA2_256 = DBL_SHA2_256 :: 32 :: h;
  mh_Sum_DBL : ∀ b, ∃ h, length h = 32%nat ∧ mh_Sum b DBL_SHA2_256 = mh_Encode h DBL_SHA2_256;
  Prefix_Sum_V1 : ∀ codec mh b,
    Prefix_Sum {| Codec := codec; Version := 1; MhType := mh; MhLength := -1 |} b =
    Ok (NewCidV1 codec (mh_Sum b mh))
}.

Section Nodes.
Context `{BtcLib} `{CidLib} `{Multihash}.

(** ** Construction *)

Definition NewBtcHeader (header : BlockHeader) : result Node :=
  rawdata <-! header_Serialize header ;;
  c <-! RawdataToCid MBitcoinHeader rawdata DBL_SHA2_256 ;;
  Ok (mkNode c rawdata).

Definition NewBtcTx (tx : MsgTx) : result Node :=
  rawdata <-! tx_Serialize tx ;;
  c <-! RawdataToCid MBitcoinTx rawdata DBL_SHA2_256 ;;
  Ok (mkNode c rawdata).

Record BtcTxTrie : Type := mkTrie { Left : string; Right : string }.

(** [h[len(h)-32:]]; a shorter multihash is out of range. *)
Definition cidToHash (c : string) : result bytes :=
  let h := Cid_Hash c in
  if (length h <? 32)%nat then Panic "slice bounds out of range" else Ok (drop (length h - 32) h).

Definition trie_RawData (t : BtcTxTrie) : result bytes :=
  lbytes <-! cidToHash (Left t) ;;
  rbytes <-! cidToHash (Right t) ;;
  Ok (lbytes ++ rbytes).

Definition trie_Cid (t : BtcTxTrie) : result string :=
  raw <-! trie_RawData t ;;
  Ok (NewCidV1 MBitcoinTx (mh_Sum raw DBL_SHA2_256)).

Definition trie_BTCSha (t : BtcTxTrie) : result bytes :=
  c <-! trie_Cid t ;; cidToHash c.

(** A [node.Node] of a layer, of which the loop reads the CID. *)
Inductive layer_node : Type :=
| LTx (n : Node)
| LTrie (t : BtcTxTrie).

Definition layer_Cid (n : layer_node) : result string :=
  match n with
  | LTx n => Ok (Cid n)
  | LTrie t => trie_Cid t
  end.

(** [for i := 0; i < len(layer)/2; i++] *)
Fixpoint pair_up (layer : list layer_node) : result (list BtcTxTrie) :=
  match layer with
  | n1 :: n2 :: layer =>
      l <-! layer_Cid n1 ;;
      r <-! layer_Cid n2 ;;
      ts <-! pair_up layer ;;
      Ok (mkTrie l r :: ts)
  | _ => Ok []
  end.

(** An odd layer is padded with its last node. *)
Definition even_layer {A} (layer : list A) : list A :=
  if negb (Nat.even (length layer))
  then match last layer with Some x => layer ++ [x] | None => layer end
  else layer.

(** [for len(layer) > 1]; [None] when the fuel runs out. *)
Fixpoint merkle_loop (fuel : nat) (layer : list layer_node) (out : list BtcTxTrie)
    : option (result (list BtcTxTrie)) :=
  if (1 <? length layer)%nat then
    match fuel with
    | O => None
    | S fuel =>
        match pair_up (even_layer layer) with
        | Ok next => merkle_loop fuel (map LTrie next) (out ++ next)
        | Err e => Some (Err e)
        | Panic w => Some (Panic w)
        end
    end
  else Some (Ok out).

(** As many rounds as there are transactions are enough ([mkMerkleTree_total]). *)
Definition mkMerkleTree (txs : list Node) : result (list BtcTxTrie) :=
  default (Panic "out of fuel") (merkle_loop (length txs) (map LTx txs) []).

(** A trie node as it is published: its CID and raw data. *)
Definition trie_Node (t : BtcTxTrie) : result Node :=
  c <-! trie_Cid t ;; raw <-! trie_RawData t ;; Ok (mkNode c raw).

Definition FromHeaderAndTxs (header : BlockHeader) (txs : list Tx)
    : result (Node * list Node * list BtcTxTrie) :=
  txNodes <-! range_collect (λ tx, NewBtcTx (tx_MsgTx tx)) txs ;;
  txTrie <-! mkMerkleTree txNodes ;;
  headerNode <-! NewBtcHeader header ;;
  Ok (headerNode, txNodes, txTrie).

(** ** Links *)

Definition sha256ToCid (codec : Z) (h : bytes) : string := NewCidV1 codec (mh_Encode h DBL_SHA2_256).

Definition header_Links (b : BlockHeader) : list (string * string) :=
  [("tx", sha256ToCid MBitcoinTx (bh_MerkleRoot b));
   ("parent", sha256ToCid MBitcoinHeader (bh_PrevBlock b))].

Definition tx_Links (t : MsgTx) : list (string * string) :=
  imap (λ i in_, ("inputs/" +:+ pretty (Z.of_nat i) +:+ "/prevTx",
                  sha256ToCid MBitcoinTx (op_Hash (in_PreviousOutPoint in_)))) (msg_TxIn t).

Definition trie_Links (t : BtcTxTrie) : list string := [Left t; Right t].

(** ** Paths *)

(** The dynamic values [Resolve] answers with. *)
Inductive resolved : Type :=
| RInt (n : Z)
| RBytes (b : bytes)
| RLink (c : string)
| RIn (i : TxIn)
| ROut (o : TxOut)
| RIns (l : list TxIn)
| ROuts (l : list TxOut).

Definition no_such_link : error := Errorf "no such link".
Definition zero_length_path : error := Errorf "zero length path".

Definition header_Resolve (b : BlockHeader) (path : list string) : result (resolved * list string) :=
  match path with
  | [] => Err zero_length_path
  | p :: rest =>
      if bool_decide (p = "version") then Ok (RInt (bh_Version b), rest)
      else if bool_decide (p = "timestamp") then Ok (RInt (bh_Timestamp b), rest)
      else if bool_decide (p = "bits") then Ok (RInt (bh_Bits b), rest)
      else if bool_decide (p = "nonce") then Ok (RInt (bh_Nonce b), rest)
      else if bool_decide (p = "parent") then Ok (RLink (sha256ToCid MBitcoinHeader (bh_PrevBlock b)), rest)
      else if bool_decide (p = "tx") then Ok (RLink (sha256ToCid MBitcoinTx (bh_MerkleRoot b)), rest)
      else Err no_such_link
  end.

Definition trie_Resolve (t : BtcTxTrie) (path : list string) : result (resolved * list string) :=
  match path with
  | [] => Err zero_length_path
  | p :: rest =>
      if bool_decide (p = "0") then Ok (RLink (Left t), rest)
      else if bool_decide (p = "1") then Ok (RLink (Right t), rest)
      else Err no_such_link
  end.

(** The index in the second element of a path into a list. *)
Definition at_index {A} (l : list A) (p : string) : result A :=
  index <-! Atoi p ;;
  if (Z.of_nat (length l) <=? index) || (index <? 0) then Err (Errorf "index out of range")
  else match l !! Z.to_nat index with
       | Some x => Ok x
       | None => Panic "index out of range"
       end.

(** An empty path is indexed without a check. *)
Definition tx_Resolve (t : MsgTx) (path : list string) : result (resolved * list string) :=
  match path with
  | [] => Panic "index out of range"
  | p :: rest =>
      if bool_decide (p = "version") then Ok (RInt (msg_Version t), rest)
      else if bool_decide (p = "lockTime") then Ok (RInt (msg_LockTime t), rest)
      else if bool_decide (p = "inputs") then
        match rest with
        | [] => Ok (RIns (msg_TxIn t), [])
        | i :: rest =>
            inp <-! at_index (msg_TxIn t) i ;;
            match rest with
            | [] => Ok (RIn inp, [])
            | f :: rest =>
                if bool_decide (f = "prevTx")
                then Ok (RLink (sha256ToCid MBitcoinTx (op_Hash (in_PreviousOutPoint inp))), rest)
                else if bool_decide (f = "seqNo") then Ok (RInt (in_Sequence inp), rest)
                else if bool_decide (f = "script") then Ok (RBytes (in_SignatureScript inp), rest)
                else Err no_such_link
            end
        end
      else if bool_decide (p = "outputs") then
        match rest with
        | [] => Ok (ROuts (msg_TxOut t), [])
        | i :: rest =>
            outp <-! at_index (msg_TxOut t) i ;;
            match rest with
            | [] => Ok (ROut outp, [])
            | f :: rest =>
                if bool_decide (f = "value") then Ok (RInt (out_Value outp), rest)
                else if bool_decide (f = "script") then Ok (RBytes (out_PkScript outp), rest)
                else Err no_such_link
            end
        end
      else Err no_such_link
  end.

(** The [ResolveLink] methods: what resolves to a link. *)
Definition as_link (not_link : string) (r : result (resolved * list string)) : result (string * list string) :=
  out <-! r ;;
  match out.1 with
  | RLink c => Ok (c, out.2)
  | _ => Err (Errorf not_link)
  end.

Definition header_ResolveLink b path := as_link "object at path was not a link" (header_Resolve b path).
Definition trie_ResolveLink t path := as_link "path did not lead to link" (trie_Resolve t path).
Definition tx_ResolveLink t path := as_link "value was not a link" (tx_Resolve t path).

(** ** Trees of paths, with "/" between the elements *)

Definition treeInputs (t : MsgTx) (out : list string) (depth : Z) : list string :=
  if depth <? 2 then out
  else foldl (λ out i,
    let inp := "inputs/" +:+ pretty (Z.of_nat i) in
    out ++ [inp] ++ (if 2 <? depth then [inp +:+ "/prevTx"; inp +:+ "/seqNo"; inp +:+ "/script"] else []))
    out (seq 0 (length (msg_TxIn t))).

Definition treeOutputs (t : MsgTx) (out : list string) (depth : Z) : list string :=
  if depth <? 2 then out
  else foldl (λ out i,
    let o := "outputs/" +:+ pretty (Z.of_nat i) in
    out ++ [o] ++ (if 2 <? depth then [o +:+ "/script"; o +:+ "/value"] else []))
    out (seq 0 (length (msg_TxOut t))).

Definition tx_Tree (t : MsgTx) (p : string) (depth : Z) : list string :=
  if depth =? 0 then []
  else if bool_decide (p = "inputs") then treeInputs t [] (i64_add depth 1)
  else if bool_decide (p = "outputs") then treeOutputs t [] (i64_add depth 1)
  else if bool_decide (p = "") then
    treeOutputs t (treeInputs t ["version"; "timeLock"; "inputs"; "outputs"] depth) depth
  else [].

Definition header_Tree : list string := ["difficulty"; "nonce"; "version"; "timestamp"; "tx"; "parent"].

(** ** Hashes as hexadecimal text *)

Definition revString (s : bytes) : bytes := reverse s.

(** [mh[2:]]: the multihash without its code and length. *)
Definition tx_BTCSha (rawdata : bytes) : bytes := drop 2 (mh_Sum rawdata DBL_SHA2_256).
Definition HexHash (rawdata : bytes) : string := EncodeToString (revString (tx_BTCSha rawdata)).

End Nodes.

(** ** Lemmas: CIDs of double-SHA nodes *)

Section Merkle.
Context `{BtcLib} `{CidLib} `{Multihash} `{!MultihashLaws}.

(** The double hash of some data. *)
Definition dbl (b : bytes) : bytes := drop 2 (mh_Sum b DBL_SHA2_256).

Lemma dbl_spec b : length (dbl b) = 32%nat ∧ mh_Sum b DBL_SHA2_256 = mh_Encode (dbl b) DBL_SHA2_256.
Proof.
  destruct (mh_Sum_DBL b) as (h & Hh & E). unfold dbl. rewrite E, (mh_Encode_DBL h Hh). simpl.
  rewrite drop_0. split; [done|]. by rewrite (mh_Encode_DBL h Hh).
Qed.

(** The CID of a transaction or trie node whose hash is [h]. *)
Definition hash_cid (h : bytes) (c : string) : Prop := length h = 32%nat ∧ c = sha256ToCid MBitcoinTx h.

Lemma cidToHash_hash_cid h c : hash_cid h c → cidToHash c = Ok h.
Proof.
  intros [Hh ->]. unfold cidToHash, sha256ToCid. rewrite Cid_Hash_NewCidV1, mh_Encode_DBL by done.
  simpl. rewrite Hh. simpl. by rewrite drop_0.
Qed.

Lemma trie_Cid_spec l r c1 c2 : hash_cid l c1 → hash_cid r c2 →
  ∃ c, trie_Cid (mkTrie c1 c2) = Ok c ∧ hash_cid (dbl (l ++ r)) c.
Proof.
  intros Hl Hr. unfold trie_Cid, trie_RawData. simpl.
  rewrite (cidToHash_hash_cid _ _ Hl), (cidToHash_hash_cid _ _ Hr). simpl.
  destruct (dbl_spec (l ++ r)) as [Hd E]. rewrite E. eexists. split; [done|]. by split.
Qed.

Lemma NewBtcTx_hash_cid msg n : NewBtcTx msg = Ok n →
  ∃ raw, tx_Serialize msg = Ok raw ∧ RawData n = raw ∧ hash_cid (dbl raw) (Cid n).
Proof.
  unfold NewBtcTx, RawdataToCid. intros (raw & Hraw & (c & Hc & [= <-])%rbind_Ok_inv)%rbind_Ok_inv.
  rewrite Prefix_Sum_V1 in Hc. injection Hc as <-. simpl. exists raw. split_and!; [done..|].
  destruct (dbl_spec raw) as [Hd ->]. by split.
Qed.

(** ** Lemmas: the layers of the tree *)

Lemma half_up_even m : ((2 * m + 1) / 2 = m)%nat.
Proof. symmetry. apply (Nat.div_unique _ 2 _ 1); lia. Qed.

Lemma half_up_odd m : ((2 * m + 1 + 1) / 2 = S m)%nat.
Proof. symmetry. apply (Nat.div_unique _ 2 _ 0); lia. Qed.

Lemma even_layer_length {A} (l : list A) : length (even_layer l) = (2 * ((length l + 1) / 2))%nat.
Proof.
  unfold even_layer. destruct (Nat.Even_or_Odd (length l)) as [[m Hm]|[m Hm]].
  - rewrite (proj2 (Nat.even_spec (length l))) by (by exists m). cbn [negb].
    rewrite Hm. by rewrite half_up_even.
  - rewrite <- Nat.negb_odd, (proj2 (Nat.odd_spec (length l))) by (by exists m). cbn [negb].
    destruct (last l) eqn:El.
    + rewrite length_app, Hm. rewrite half_up_odd. simpl. lia.
    + apply last_None in El. subst. simpl in Hm. lia.
Qed.

Lemma even_layer_lookup {A} (l : list A) j : (j < length (even_layer l))%nat →
  even_layer l !! j = l !! Nat.min j (length l - 1).
Proof.
  unfold even_layer. destruct (Nat.even (length l)) eqn:E; simpl.
  { intros Hj. by rewrite Nat.min_l by lia. }
  destruct (last l) eqn:El; [|apply last_None in El; by subst].
  rewrite length_app. simpl. intros Hj. rewrite last_lookup in El.
  destruct (decide (j < length l)%nat) as [Hlt|Hge].
  - rewrite lookup_app_l by done. by rewrite Nat.min_l by lia.
  - replace j with (length l) by lia. rewrite lookup_app_r, Nat.sub_diag by done. simpl.
    rewrite Nat.min_r by lia. by rewrite <- El, Nat.sub_1_r.
Qed.

Lemma pair_up_spec m : ∀ layer, length layer = (2 * m)%nat →
  Forall (λ n, ∃ c, layer_Cid n = Ok c) layer →
  ∃ next, pair_up layer = Ok next ∧ length next = m ∧
    ∀ i t, next !! i = Some t → ∃ n1 n2, layer !! (2 * i)%nat = Some n1 ∧ layer !! (2 * i + 1)%nat = Some n2 ∧
      layer_Cid n1 = Ok (Left t) ∧ layer_Cid n2 = Ok (Right t).
Proof.
  induction m as [|m IH]; intros layer Hlen Hok.
  { destruct layer; [|done]. exists []. split_and!; [done..|]. intros i t. by rewrite lookup_nil. }
  destruct layer as [|n1 [|n2 layer]]; [simpl in Hlen; lia..|].
  apply Forall_cons in Hok as [[c1 Hc1] [[c2 Hc2] Hok]%Forall_cons].
  destruct (IH layer) as (next & Hn & Hl & Hi); [simpl in Hlen; lia|done|].
  exists (mkTrie c1 c2 :: next). simpl. rewrite Hc1, Hc2. simpl. rewrite Hn. split_and!; [done|simpl; lia|].
  intros [|i] t Ht; simpl in Ht.
  - injection Ht as <-. by exists n1, n2.
  - destruct (Hi i t Ht) as (m1 & m2 & E1 & E2 & E3). exists m1, m2.
    replace (S i + (S i + 0) + 1)%nat with (S (S (2 * i + 1))) by lia.
    replace (S i + (S i + 0))%nat with (S (S (2 * i))) by lia.
    exact (conj E1 (conj E2 E3)).
Qed.

(** ** The Merkle tree

    The double hash of a row is that of its two children, the last node of
    an odd row standing for a missing one. *)

(** The number of nodes [k] rows above [n] leaves. *)
Fixpoint width (n k : nat) : nat :=
  match k with
  | O => n
  | S k => (width n k + 1) / 2
  end.

Fixpoint node_hash (hs : list bytes) (k i : nat) : bytes :=
  match k with
  | O => default [] (hs !! i)
  | S k => dbl (node_hash hs k (2 * i) ++
                node_hash hs k (Nat.min (2 * i + 1) (width (length hs) k - 1)))
  end.

Definition merkle_root (hs : list bytes) : bytes := node_hash hs (Nat.log2_up (length hs)) 0.

(** The way down to leaf [j] of a tree with [m] rows above its leaves. *)
Fixpoint tx_path (m j : nat) : list string :=
  match m with
  | O => []
  | S m => tx_path m (j / 2) ++ [if Nat.even j then "0" else "1"]
  end.

(** Following links through published trie nodes. *)
Inductive resolves (ts : list BtcTxTrie) : string → list string → string → Prop :=
| resolves_here c : resolves ts c [] c
| resolves_step c t p c1 path c2 : t ∈ ts → trie_Cid t = Ok c → trie_ResolveLink t (p :: path) = Ok (c1, path) →
    resolves ts c1 path c2 → resolves ts c (p :: path) c2.

Lemma resolves_snoc ts c path c1 t p c2 : resolves ts c path c1 → t ∈ ts → trie_Cid t = Ok c1 →
  trie_ResolveLink t [p] = Ok (c2, []) → resolves ts c (path ++ [p]) c2.
Proof.
  intros Hr Ht Hc Hp. induction Hr as [c|c u q c3 path c4 Hu Hcu Hq Hr IH].
  - simpl. by eapply resolves_step; [..|constructor].
  - simpl. eapply (resolves_step _ _ u _ c3); [done|done| |by apply IH].
    revert Hq. unfold trie_ResolveLink, trie_Resolve.
    repeat case_bool_decide; cbn; try done; by intros [= <-].
Qed.

Lemma resolves_mono ts ts' c path c' : ts ⊆ ts' → resolves ts c path c' → resolves ts' c path c'.
Proof. intros Hs Hr. induction Hr; [constructor|]. eapply resolves_step; eauto. Qed.

(** A layer holds the nodes of row [k]. *)
Definition is_row (hs : list bytes) (k : nat) (layer : list layer_node) : Prop :=
  length layer = width (length hs) k ∧
  ∀ i n, layer !! i = Some n → ∃ c, layer_Cid n = Ok c ∧ hash_cid (node_hash hs k i) c.

Lemma width_S n k : width n (S k) = ((width n k + 1) / 2)%nat.
Proof. done. Qed.

Lemma width_pos n k : (0 < n → 0 < width n k)%nat.
Proof.
  intros Hn. induction k as [|k IH]; [done|].
  rewrite width_S. apply Nat.div_str_pos. lia.
Qed.

Lemma even_layer_row hs k layer : (0 < length hs)%nat → is_row hs k layer → ∀ j n,
  even_layer layer !! j = Some n →
  ∃ c, layer_Cid n = Ok c ∧ hash_cid (node_hash hs k (Nat.min j (width (length hs) k - 1))) c.
Proof.
  intros Hn [Hlen Hrow] j n Hj.
  rewrite even_layer_lookup in Hj by (by eapply lookup_lt_Some). rewrite Hlen in Hj. by apply Hrow.
Qed.

(** One round: the next row, whose nodes link to their two children. *)
Lemma pair_up_row hs k layer : (0 < length hs)%nat → is_row hs k layer →
  ∃ next, pair_up (even_layer layer) = Ok next ∧ is_row hs (S k) (map LTrie next) ∧
    ∀ j n, layer !! j = Some n → ∃ t, next !! (j / 2)%nat = Some t ∧
      layer_Cid n = Ok (if Nat.even j then Left t else Right t).
Proof.
  intros Hn Hrow. pose proof Hrow as [Hlen Hr].
  destruct (pair_up_spec (width (length hs) (S k)) (even_layer layer)) as (next & E & Hl & Hi).
  - rewrite even_layer_length, Hlen. done.
  - apply Forall_lookup. intros j n Hj. destruct (even_layer_row hs k layer Hn Hrow j n Hj) as (c & Hc & _). eauto.
  - exists next. split; [done|]. split.
    + split; [by rewrite length_map|]. intros i n Hni.
      apply list_lookup_fmap_Some in Hni as (t & -> & Ht). simpl.
      destruct (Hi i t Ht) as (n1 & n2 & E1 & E2 & C1 & C2).
      destruct (even_layer_row hs k layer Hn Hrow _ _ E1) as (c1 & C1' & Hc1).
      destruct (even_layer_row hs k layer Hn Hrow _ _ E2) as (c2 & C2' & Hc2).
      rewrite C1 in C1'. rewrite C2 in C2'. injection C1' as <-. injection C2' as <-.
      assert (Hw : (2 * i ≤ width (length hs) k - 1)%nat).
      { apply lookup_lt_Some in E2. rewrite even_layer_length, Hlen in E2.
        pose proof (width_pos (length hs) k Hn).
        assert ((width (length hs) k + 1) / 2 * 2 ≤ width (length hs) k + 1)%nat
          by (rewrite Nat.mul_comm; apply Nat.Div0.mul_div_le). lia. }
      rewrite (Nat.min_l (2 * i)) in Hc1 by done.
      destruct t as [tl tr]. by apply (trie_Cid_spec _ _ tl tr).
    + intros j n Hj. pose proof (lookup_lt_Some _ _ _ Hj) as Hlt.
      assert (Hev : even_layer layer !! j = Some n).
      { rewrite even_layer_lookup; [by rewrite Nat.min_l by lia|].
        unfold even_layer. repeat case_match; rewrite ?length_app; lia. }
      assert (Hnx : (j / 2 < length next)%nat).
      { rewrite Hl. apply lookup_lt_Some in Hev. rewrite even_layer_length, Hlen, <- width_S in Hev.
        apply Nat.Div0.div_lt_upper_bound. lia. }
      destruct (lookup_lt_is_Some_2 next _ Hnx) as [t Ht]. exists t. split; [done|].
      destruct (Hi _ _ Ht) as (n1 & n2 & E1 & E2 & C1 & C2).
      destruct (Nat.Even_or_Odd j) as [[m Hm]|[m Hm]].
      * rewrite (proj2 (Nat.even_spec j)) by (by exists m).
        replace (2 * (j / 2))%nat with j in E1; [congruence|].
        subst j. rewrite (Nat.mul_comm 2 m), Nat.div_mul by lia. lia.
      * rewrite <- Nat.negb_odd, (proj2 (Nat.odd_spec j)) by (by exists m). cbn [negb].
        replace (2 * (j / 2) + 1)%nat with j in E2; [congruence|].
        subst j. rewrite (Nat.add_comm (2 * m)), (Nat.mul_comm 2 m), Nat.div_add by lia. simpl. lia.
Qed.

Lemma half_up_less n : (1 < n → (n + 1) / 2 < n)%nat.
Proof. intros Hn. apply Nat.Div0.div_lt_upper_bound. lia. Qed.

Lemma log2_up_half n : (1 < n → Nat.log2_up n = S (Nat.log2_up ((n + 1) / 2)))%nat.
Proof.
  intros Hn. destruct (Nat.Even_or_Odd n) as [[m ->]|[m ->]].
  - rewrite half_up_even. apply Nat.log2_up_double. lia.
  - rewrite half_up_odd, Nat.log2_up_succ_double by lia.
    rewrite (Nat.log2_up_eqn (S m)) by lia. done.
Qed.

(** The rounds that remain from row [k], and what they publish. *)
Lemma merkle_loop_spec hs : (0 < length hs)%nat → ∀ fuel k layer out, is_row hs k layer →
  (length layer ≤ S fuel)%nat →
  ∃ ts c, merkle_loop fuel layer out = Some (Ok (out ++ ts)) ∧
    hash_cid (node_hash hs (Nat.log2_up (width (length hs) k) + k) 0) c ∧
    ∀ j n cj, layer !! j = Some n → layer_Cid n = Ok cj →
      resolves ts c (tx_path (Nat.log2_up (width (length hs) k)) j) cj.
Proof.
  intros Hn. induction fuel as [|fuel IH]; intros k layer out Hrow Hf;
    pose proof Hrow as [Hlen Hr]; pose proof (width_pos _ k Hn) as Hpos.
  all: destruct (decide (width (length hs) k = 1)%nat) as [H1'|H1'].
  1, 3: (rewrite H1'; rewrite H1' in Hlen; destruct layer as [|n []]; try done;
    destruct (Hr 0%nat n eq_refl) as (c & Hc & Hh); exists [], c; simpl; rewrite app_nil_r;
    split_and!; [done..|]; intros [|j] n' cj Hj Hcj; simplify_eq/=;
    rewrite Hc in Hcj; injection Hcj as <-; constructor).
  - lia.
  - destruct (pair_up_row hs k layer Hn Hrow) as (next & E & Hrow' & Hch).
    assert (Hw : (1 < width (length hs) k)%nat) by lia.
    pose proof (half_up_less _ Hw) as Hless. rewrite <- width_S in Hless.
    destruct (IH (S k) (map LTrie next) (out ++ next) Hrow') as (ts & c & El & Hc & Hres).
    { destruct Hrow' as [-> _]. lia. }
    exists (next ++ ts), c. simpl. rewrite (proj2 (Nat.ltb_lt 1 (length layer))) by lia.
    rewrite E, El, app_assoc. split; [done|].
    rewrite (log2_up_half _ Hw), <- width_S. split; [by rewrite Nat.add_succ_comm|].
    intros j n cj Hj Hcj. destruct (Hch j n Hj) as (t & Ht & Hcn). rewrite Hcj in Hcn. injection Hcn as ->.
    destruct (proj2 Hrow' (j / 2)%nat (LTrie t)) as (ct & Hct & _).
    { rewrite list_lookup_fmap, Ht. done. }
    eapply (resolves_snoc _ _ _ ct t).
    + eapply resolves_mono; [|apply (Hres _ (LTrie t)); [by rewrite list_lookup_fmap, Ht|done]]. set_solver.
    + apply elem_of_app. left. by eapply list_elem_of_lookup_2.
    + done.
    + by destruct (Nat.even j).
Qed.

Lemma mkMerkleTree_spec hs ns : (0 < length hs)%nat → is_row hs 0 (map LTx ns) →
  ∃ ts c, mkMerkleTree ns = Ok ts ∧ hash_cid (merkle_root hs) c ∧
    ∀ j n, ns !! j = Some n → resolves ts c (tx_path (Nat.log2_up (length hs)) j) (Cid n).
Proof.
  intros Hn Hrow.
  destruct (merkle_loop_spec hs Hn (length ns) 0 (map LTx ns) [] Hrow) as (ts & c & E & Hc & Hr).
  { rewrite length_map. lia. }
  simpl in *. rewrite Nat.add_0_r in Hc. exists ts, c. unfold mkMerkleTree. rewrite E.
  split_and!; [done..|]. intros j n Hj. apply (Hr j (LTx n)); [|done]. by rewrite list_lookup_fmap, Hj.
Qed.

Lemma NewBtcTx_row txs raws : Forall2 (λ tx raw, tx_Serialize (tx_MsgTx tx) = Ok raw) txs raws →
  ∃ ns, range_collect (λ tx, NewBtcTx (tx_MsgTx tx)) txs = Ok ns ∧ length ns = length raws ∧
    is_row (map dbl raws) 0 (map LTx ns).
Proof.
  intros Hs. assert (Hn : ∃ ns, range_collect (λ tx, NewBtcTx (tx_MsgTx tx)) txs = Ok ns ∧
    Forall2 (λ n raw, hash_cid (dbl raw) (Cid n)) ns raws).
  { induction Hs as [|tx raw txs raws Htx Hs (ns & E & Hns)]; [by exists []|].
    destruct (dbl_spec raw) as [Hd Em].
    exists (mkNode (sha256ToCid MBitcoinTx (dbl raw)) raw :: ns). simpl. rewrite E. split.
    - unfold NewBtcTx, RawdataToCid. rewrite Htx. simpl. rewrite Prefix_Sum_V1. simpl. by rewrite Em.
    - constructor; [|done]. by split. }
  destruct Hn as (ns & E & Hns). exists ns. pose proof (Forall2_length _ _ _ Hns) as Hl.
  split_and!; [done..|]. split; [by rewrite !length_map|].
  intros i n Hi. apply list_lookup_fmap_Some in Hi as (nd & -> & Hi). simpl.
  destruct (Forall2_lookup_l _ _ _ _ _ Hns Hi) as (raw & Hraw & Hh).
  rewrite list_lookup_fmap, Hraw. eauto.
Qed.

(** C21: for transactions and a header that serialize, [FromHeaderAndTxs]
    terminates with one node per transaction and, when there is a transaction,
    a tree whose root CID carries the Merkle root of the double hashes of the
    serialized transactions; every transaction is reached from the root by the
    bits of its index, and a header committing to that root links to it under
    "tx". *)
Theorem FromHeaderAndTxs_merkle header txs hraw raws :
  header_Serialize header = Ok hraw →
  Forall2 (λ tx raw, tx_Serialize (tx_MsgTx tx) = Ok raw) txs raws →
  ∃ h ns ts, FromHeaderAndTxs header txs = Ok (h, ns, ts) ∧ map RawData ns = raws ∧
    (txs = [] → ts = []) ∧
    (txs ≠ [] → ∃ root, cidToHash root = Ok (merkle_root (map dbl raws)) ∧
      (∀ j n, ns !! j = Some n → resolves ts root (tx_path (Nat.log2_up (length txs)) j) (Cid n)) ∧
      (bh_MerkleRoot header = merkle_root (map dbl raws) → header_ResolveLink header ["tx"] = Ok (root, []))).
Proof.
  intros Hh Hs. destruct (NewBtcTx_row txs raws Hs) as (ns & E & Hl & Hrow).
  pose proof (Forall2_length _ _ _ Hs) as Hlen.
  assert (Hraw : map RawData ns = raws).
  { apply range_collect_Ok in E. clear Hl Hrow Hlen Hh. revert raws Hs.
    induction E as [|tx n txs ns Hn E IH]; intros raws Hs; inv Hs; [done|]. simpl. f_equal; [|by apply IH].
    destruct (NewBtcTx_hash_cid _ _ Hn) as (raw & Hr & <- & _). congruence. }
  unfold FromHeaderAndTxs. rewrite E. simpl. unfold NewBtcHeader, RawdataToCid. rewrite Hh. simpl.
  rewrite Prefix_Sum_V1. simpl. destruct (decide (length txs = 0)%nat) as [H0'|Hpos].
  { apply length_zero_iff_nil in H0' as ->. destruct ns; [|simpl in *; lia]. by eexists _, _, _. }
  destruct (mkMerkleTree_spec (map dbl raws) ns) as (ts & c & Em & Hc & Hr); [rewrite length_map; lia|done|].
  rewrite Em. simpl. rewrite length_map, <- Hlen in Hr.
  eexists _, _, ts. split_and!; [done..|by intros ->|]. intros _. exists c.
  split_and!; [by apply cidToHash_hash_cid|done|]. intros Hm. destruct Hc as [_ ->].
  unfold header_ResolveLink, header_Resolve. simpl. by rewrite Hm.
Qed.

End Merkle.

(** ** Lemmas: paths of a transaction *)

Section Paths.
Context `{CidLib} `{Multihash}.

(** A path, "/" between its elements, that leads to a value. *)
Definition leads (t : MsgTx) (p : string) : Prop :=
  ∃ elems v, p = String.concat "/" elems ∧ tx_Resolve t elems = Ok (v, []).

Lemma elem_of_foldl_grow {A B} (f : B → list A) (p : A) l : ∀ out,
  p ∈ foldl (λ out i, out ++ f i) out l → p ∈ out ∨ ∃ i, i ∈ l ∧ p ∈ f i.
Proof.
  induction l as [|x l IH]; intros out Hp; simpl in Hp; [by left|].
  destruct (IH _ Hp) as [Hx|(i & Hi & Hf)]; [|right; exists i; set_solver].
  apply elem_of_app in Hx as [Hx|Hx]; [by left|right; exists x; set_solver].
Qed.

Lemma at_index_pretty {A} (l : list A) i : is_i64 (Z.of_nat (length l)) → i ∈ seq 0 (length l) →
  ∃ x, at_index l (pretty (Z.of_nat i)) = Ok x.
Proof.
  intros Hl Hi%elem_of_seq. destruct (lookup_lt_is_Some_2 l i) as [x Hx]; [lia|].
  exists x. unfold at_index. rewrite Atoi_pretty by (unfold is_i64 in *; lia). simpl.
  rewrite (proj2 (Z.leb_gt _ _)), (proj2 (Z.ltb_ge _ _)) by lia. simpl. by rewrite Nat2Z.id, Hx.
Qed.

(** A path below "inputs" or "outputs". *)
Local Ltac leads_by elems := exists elems; eexists; split; [done|]; simpl.

Lemma treeInputs_leads t out depth p : is_i64 (Z.of_nat (length (msg_TxIn t))) →
  p ∈ treeInputs t out depth → p ∈ out ∨ leads t p.
Proof.
  intros Hl. unfold treeInputs. case_match; [by left|].
  intros [Hp|(i & Hi & Hp)]%elem_of_foldl_grow; [by left|right].
  destruct (at_index_pretty _ i Hl Hi) as [x Hx].
  apply elem_of_app in Hp as [->%list_elem_of_singleton|Hp].
  { leads_by ["inputs"; pretty (Z.of_nat i)]. by rewrite Hx. }
  case_match; [|by apply elem_of_nil in Hp].
  repeat (apply elem_of_cons in Hp as [->|Hp]); [..|by apply elem_of_nil in Hp].
  - leads_by ["inputs"; pretty (Z.of_nat i); "prevTx"]. by rewrite Hx.
  - leads_by ["inputs"; pretty (Z.of_nat i); "seqNo"]. by rewrite Hx.
  - leads_by ["inputs"; pretty (Z.of_nat i); "script"]. by rewrite Hx.
Qed.

Lemma treeOutputs_leads t out depth p : is_i64 (Z.of_nat (length (msg_TxOut t))) →
  p ∈ treeOutputs t out depth → p ∈ out ∨ leads t p.
Proof.
  intros Hl. unfold treeOutputs. case_match; [by left|].
  intros [Hp|(i & Hi & Hp)]%elem_of_foldl_grow; [by left|right].
  destruct (at_index_pretty _ i Hl Hi) as [x Hx].
  apply elem_of_app in Hp as [->%list_elem_of_singleton|Hp].
  { leads_by ["outputs"; pretty (Z.of_nat i)]. by rewrite Hx. }
  case_match; [|by apply elem_of_nil in Hp].
  repeat (apply elem_of_cons in Hp as [->|Hp]); [..|by apply elem_of_nil in Hp].
  - leads_by ["outputs"; pretty (Z.of_nat i); "script"]. by rewrite Hx.
  - leads_by ["outputs"; pretty (Z.of_nat i); "value"]. by rewrite Hx.
Qed.

(** Every path that [Tree] lists for a transaction leads to a value,
    except "timeLock", which it lists at every depth but 0 and which [Resolve],
    expecting "lockTime", refuses. *)
Theorem tx_Tree_resolves t depth :
  is_i64 (Z.of_nat (length (msg_TxIn t))) → is_i64 (Z.of_nat (length (msg_TxOut t))) →
  (∀ p, p ∈ tx_Tree t "" depth → p = "timeLock" ∨ leads t p) ∧
  (depth ≠ 0 → "timeLock" ∈ tx_Tree t "" depth) ∧
  tx_Resolve t ["timeLock"] = Err no_such_link.
Proof.
  intros Hin Hout. split_and!; [| |done].
  - intros p. unfold tx_Tree. case_match; [by intros Hp%elem_of_nil|]. simpl.
    intros [[Hp|Hp]%(treeInputs_leads _ _ _ _ Hin)|Hp]%(treeOutputs_leads _ _ _ _ Hout); [|by right..].
    repeat (apply elem_of_cons in Hp as [->|Hp]); [..|by apply elem_of_nil in Hp]; [right|by left|right..].
    + by leads_by ["version"].
    + by leads_by ["inputs"].
    + by leads_by ["outputs"].
  - intros Hd. unfold tx_Tree. rewrite (proj2 (Z.eqb_neq _ _) Hd). simpl.
    assert (Hg : ∀ {A} (f : A → list string) l out, "timeLock" ∈ out →
      "timeLock" ∈ foldl (λ out i, out ++ f i) out l).
    { intros A f l. induction l as [|x l IH]; intros out Ho; simpl; [done|]. apply IH. set_solver. }
    unfold treeOutputs, treeInputs. case_match; [|apply Hg, Hg]; set_solver.
Qed.

End Paths.

(** ** A concrete instance: toy serialization, digests and CIDs *)

Module Concrete.

Definition btc : BtcLib := {|
  BlockHash := λ h, bh_MerkleRoot h;
  header_Serialize := λ h, Ok (bh_Nonce h :: bh_PrevBlock h ++ bh_MerkleRoot h);
  tx_Serialize := λ t, Ok (msg_Version t :: msg_LockTime t :: concat (map out_PkScript (msg_TxOut t)));
  tx_Hash := λ t, [msg_Version t];
  tx_WitnessHash := λ t, [msg_LockTime t];
  tx_HasWitness := λ t, existsb (λ i, negb (bool_decide (in_Witness i = []))) (msg_TxIn t);
  chainhash_String := Geth.Concrete.enc;
  ExtractPkScriptAddrs := λ s, (Z.of_nat (length s), map (λ b, Geth.Concrete.enc [b]) s, 1, None)
|}.

Definition digest (b : bytes) : bytes :=
  map (λ i, foldr (λ x acc, (acc * 31 + x + Z.of_nat i) mod 251) 7 b) (seq 0 32).

Definition multihash : Multihash := {|
  mh_Sum := λ b code, code :: 32 :: digest b;
  mh_Encode := λ d code, code :: Z.of_nat (length d) :: d;
  NewCidV1 := λ codec h, Geth.Concrete.enc (codec :: h);
  Cid_Hash := λ c, tail (Geth.Concrete.dec c)
|}.

Definition cidlib : CidLib := {|
  Prefix_Sum := λ p b, Ok (@NewCidV1 multihash (Codec p) (@mh_Sum multihash b (MhType p)));
  cid_Decode := λ c, Ok c;
  CidToDsKey := λ c, String "/" c
|}.

Lemma multihash_laws : @MultihashLaws cidlib multihash.
Proof.
  constructor.
  - intros t h. change (tail (Geth.Concrete.dec (Geth.Concrete.enc (t :: h))) = h). by rewrite Geth.Concrete.dec_enc.
  - intros h Hh. simpl. by rewrite Hh.
  - intros b. by exists (digest b).
  - done.
Qed.

(** Three transactions: an odd row of leaves. *)
Definition txs : list Tx :=
  map (λ i, mkTx (mkMsgTx i [] [mkTxOut 50 [i; 2]] 0) 0) [7; 8; 9].

Definition raws : list bytes := [[7; 0; 7; 2]; [8; 0; 8; 2]; [9; 0; 9; 2]].

Definition header : BlockHeader :=
  mkBlockHeader 1 [4] (@merkle_root multihash (map (@dbl multihash) raws)) 0 0 0.

End Concrete.

Lemma FromHeaderAndTxs_merkle_witness :
  @header_Serialize Concrete.btc Concrete.header = Ok (0 :: 4 :: bh_MerkleRoot Concrete.header) ∧
  ∃ h ns ts, @FromHeaderAndTxs Concrete.btc Concrete.cidlib Concrete.multihash Concrete.header Concrete.txs
      = Ok (h, ns, ts) ∧ map RawData ns = Concrete.raws.
Proof.
  split; [reflexivity|].
  destruct (@FromHeaderAndTxs_merkle Concrete.btc Concrete.cidlib Concrete.multihash Concrete.multihash_laws
    Concrete.header Concrete.txs (0 :: 4 :: bh_MerkleRoot Concrete.header) Concrete.raws)
    as (h & ns & ts & E & R & _); [reflexivity|repeat constructor|]. exists h, ns, ts. split; [exact E|exact R].
Defined.

Lemma tx_Tree_resolves_witness :
  is_i64 (Z.of_nat 1) ∧ ∀ p, p ∈ tx_Tree (mkMsgTx 1 [mkTxIn (mkOutPoint [] 0) [] [] 0] [mkTxOut 5 []] 0) "" 3 →
  p = "timeLock" ∨ @leads Concrete.multihash (mkMsgTx 1 [mkTxIn (mkOutPoint [] 0) [] [] 0] [mkTxOut 5 []] 0) p.
Proof.
  split; [split; reflexivity || discriminate|].
  apply (@tx_Tree_resolves Concrete.multihash (mkMsgTx 1 [mkTxIn (mkOutPoint [] 0) [] [] 0] [mkTxOut 5 []] 0) 3);
    split; reflexivity || discriminate.
Defined.
