(* ===== verification/BtcDB.v ===== *)
(** * The btc schema, the CID indexer and the publisher on Postgres
    (pkg/super_node/btc: indexer.go, publish_and_indexer.go)

    Tables btc.header_cids, btc.transaction_cids, btc.tx_inputs, btc.tx_outputs
    and public.blocks (db/migrations), the upserts of the indexer, and [Publish],
    which stores the IPLD blocks and the metadata in one transaction. *)

From S2P Require Import Prelude Geth Sql Blocks BtcModel BtcIpld.

(** ** Tables *)

Record BtcDB : Type := mkBtcDB {
  header_cids : list HeaderModel;
  transaction_cids : list TxModel;
  tx_inputs : list TxInput;
  tx_outputs : list TxOutput;
  blocks : gmap string bytes
}.

Definition set_headers (f : list HeaderModel) (d : BtcDB) : BtcDB :=
  mkBtcDB f (transaction_cids d) (tx_inputs d) (tx_outputs d) (blocks d).
Definition set_transactions (f : list TxModel) (d : BtcDB) : BtcDB :=
  mkBtcDB (header_cids d) f (tx_inputs d) (tx_outputs d) (blocks d).
Definition set_inputs (f : list TxInput) (d : BtcDB) : BtcDB :=
  mkBtcDB (header_cids d) (transaction_cids d) f (tx_outputs d) (blocks d).
Definition set_outputs (f : list TxOutput) (d : BtcDB) : BtcDB :=
  mkBtcDB (header_cids d) (transaction_cids d) (tx_inputs d) f (blocks d).
Definition set_blocks (f : gmap string bytes) (d : BtcDB) : BtcDB :=
  mkBtcDB (header_cids d) (transaction_cids d) (tx_inputs d) (tx_outputs d) f.

Definition BtcDB_empty : BtcDB := mkBtcDB [] [] [] [] ∅.

#[export] Instance btc_blocks : BlockTable BtcDB := {| blocks_of := blocks; put_blocks := set_blocks |}.
#[export] Instance btc_blocks_laws : BlockTableLaws (T := BtcDB).
Proof. by constructor. Qed.

(** ** Rows: the inserted row, the conflict key and the DO UPDATE SET *)

Definition header_row (m : HeaderModel) (nodeID id : Z) : HeaderModel := {|
  h_ID := id; h_BlockNumber := h_BlockNumber m; h_BlockHash := h_BlockHash m;
  h_ParentHash := h_ParentHash m; h_CID := h_CID m; h_Timestamp := h_Timestamp m;
  h_Bits := h_Bits m; h_NodeID := nodeID; h_TimesValidated := 1 |}.

Definition header_update (m : HeaderModel) (nodeID : Z) (r : HeaderModel) : HeaderModel := {|
  h_ID := h_ID r; h_BlockNumber := h_BlockNumber r; h_BlockHash := h_BlockHash r;
  h_ParentHash := h_ParentHash m; h_CID := h_CID m; h_Timestamp := h_Timestamp m;
  h_Bits := h_Bits m; h_NodeID := nodeID; h_TimesValidated := h_TimesValidated r + 1 |}.

Definition header_key (r : HeaderModel) : Z * string := (h_BlockNumber r, h_BlockHash r).

Definition tx_row (t : TxModel) (headerID id : Z) : TxModel := {|
  t_ID := id; t_HeaderID := headerID; t_Index := t_Index t; t_TxHash := t_TxHash t;
  t_CID := t_CID t; t_SegWit := t_SegWit t; t_WitnessHash := t_WitnessHash t |}.

(** The hash alone is the key: the row moves to the new header. *)
Definition tx_update (t : TxModel) (headerID : Z) (r : TxModel) : TxModel := {|
  t_ID := t_ID r; t_HeaderID := headerID; t_Index := t_Index t; t_TxHash := t_TxHash r;
  t_CID := t_CID t; t_SegWit := t_SegWit t; t_WitnessHash := t_WitnessHash t |}.

Definition input_row (i : TxInput) (txID id : Z) : TxInput := {|
  i_ID := id; i_TxID := txID; i_Index := i_Index i; i_TxWitness := i_TxWitness i;
  i_SignatureScript := i_SignatureScript i;
  i_PreviousOutPointIndex := i_PreviousOutPointIndex i;
  i_PreviousOutPointHash := i_PreviousOutPointHash i |}.
Definition input_update (i r : TxInput) : TxInput := {|
  i_ID := i_ID r; i_TxID := i_TxID r; i_Index := i_Index r; i_TxWitness := i_TxWitness i;
  i_SignatureScript := i_SignatureScript i;
  i_PreviousOutPointIndex := i_PreviousOutPointIndex i;
  i_PreviousOutPointHash := i_PreviousOutPointHash i |}.
Definition input_key (r : TxInput) : Z * Z := (i_TxID r, i_Index r).

Definition output_row (u : TxOutput) (txID id : Z) : TxOutput := {|
  o_ID := id; o_TxID := txID; o_Index := o_Index u; o_Value := o_Value u; o_PkScript := o_PkScript u;
  o_ScriptClass := o_ScriptClass u; o_RequiredSigs := o_RequiredSigs u; o_Addresses := o_Addresses u |}.
Definition output_update (u r : TxOutput) : TxOutput := {|
  o_ID := o_ID r; o_TxID := o_TxID r; o_Index := o_Index r; o_Value := o_Value u; o_PkScript := o_PkScript u;
  o_ScriptClass := o_ScriptClass u; o_RequiredSigs := o_RequiredSigs u; o_Addresses := o_Addresses u |}.
Definition output_key (r : TxOutput) : Z * Z := (o_TxID r, o_Index r).

(** ** The upserts *)

Definition indexHeaderCID (nodeID : Z) (header : HeaderModel) : DB BtcDB Z :=
  exec (λ d q,
    let '(id, rows, q) := upsert_rows "btc.header_cids"
      (λ r, bool_decide (header_key r = header_key header))
      (header_row header nodeID) (header_update header nodeID) h_ID (header_cids d) q in
    (id, set_headers rows d, q)).

Definition indexTransactionCID (transaction : TxModelWithInsAndOuts) (headerID : Z) : DB BtcDB Z :=
  exec (λ d q,
    let '(id, rows, q) := upsert_rows "btc.transaction_cids"
      (λ r, bool_decide (t_TxHash r = t_TxHash (m_Tx transaction)))
      (tx_row (m_Tx transaction) headerID) (tx_update (m_Tx transaction) headerID) t_ID
      (transaction_cids d) q in
    (id, set_transactions rows d, q)).

Definition indexTxInput (txInput : TxInput) (txID : Z) : DB BtcDB unit :=
  exec (λ d q,
    let '(_, rows, q) := upsert_rows "btc.tx_inputs"
      (λ r, bool_decide (input_key r = (txID, i_Index txInput)))
      (input_row txInput txID) (input_update txInput) i_ID (tx_inputs d) q in
    (tt, set_inputs rows d, q)).

Definition indexTxOutput (txOuput : TxOutput) (txID : Z) : DB BtcDB unit :=
  exec (λ d q,
    let '(_, rows, q) := upsert_rows "btc.tx_outputs"
      (λ r, bool_decide (output_key r = (txID, o_Index txOuput)))
      (output_row txOuput txID) (output_update txOuput) o_ID (tx_outputs d) q in
    (tt, set_outputs rows d, q)).

(** ** Index *)

(** The two loops below a transaction. *)
Definition index_ins_outs (transaction : TxModelWithInsAndOuts) (txID : Z) : DB BtcDB unit :=
  db_for (λ input, indexTxInput input txID) (m_TxInputs transaction) ;;;
  db_for (λ output, indexTxOutput output txID) (m_TxOutputs transaction).

Definition indexTransactionCIDs (transactions : list TxModelWithInsAndOuts) (headerID : Z) : DB BtcDB unit :=
  db_for (λ transaction,
    txID <-- indexTransactionCID transaction headerID ;;
    index_ins_outs transaction txID) transactions.

Definition Index_body (nodeID : Z) (cidWrapper : CIDPayload) : DB BtcDB unit :=
  headerID <-- indexHeaderCID nodeID (HeaderCID cidWrapper) ;;
  indexTransactionCIDs (TransactionCIDs cidWrapper) headerID.

Definition Index (nodeID : Z) (cidWrapper : CIDPayload) : DB BtcDB unit :=
  transact_deferred (Index_body nodeID cidWrapper).

(** ** Publish *)

Definition with_CID (t : TxModelWithInsAndOuts) (cid : string) : TxModelWithInsAndOuts := {|
  m_Tx := {| t_ID := t_ID (m_Tx t); t_HeaderID := t_HeaderID (m_Tx t); t_Index := t_Index (m_Tx t);
             t_TxHash := t_TxHash (m_Tx t); t_CID := cid; t_SegWit := t_SegWit (m_Tx t);
             t_WitnessHash := t_WitnessHash (m_Tx t) |};
  m_TxInputs := m_TxInputs t; m_TxOutputs := m_TxOutputs t |}.

Section Publisher.
Context `{BtcLib} `{CidLib} `{Multihash}.

Definition header_model (ipldPayload : ConvertedPayload) (cid : string) : HeaderModel :=
  let header := Header (p_BlockPayload ipldPayload) in {|
  h_ID := 0; h_NodeID := 0; h_TimesValidated := 0;
  h_CID := cid;
  h_ParentHash := chainhash_String (bh_PrevBlock header);
  h_BlockNumber := BlockHeight (p_BlockPayload ipldPayload);
  h_BlockHash := chainhash_String (BlockHash header);
  h_Timestamp := bh_Timestamp header;
  h_Bits := bh_Bits header |}.

(** [for i, txNode := range txNodes]: all errors are held in inner variables. *)
Fixpoint publish_txs (i : nat) (txMeta : list TxModelWithInsAndOuts) (headerID : Z) (txNodes : list Node)
    : DB BtcDB unit :=
  match txNodes with
  | [] => db_ret tt
  | txNode :: txNodes =>
      shadow (PublishIPLD txNode) ;;;
      txModel <-- index_ txMeta i ;;
      let txModel := with_CID txModel (Cid txNode) in
      txID <-- shadow (indexTransactionCID txModel headerID) ;;
      shadow (index_ins_outs txModel txID) ;;;
      publish_txs (S i) txMeta headerID txNodes
  end.

Definition Publish_body (nodeID : Z) (ipldPayload : ConvertedPayload)
    (headerNode : Node) (txNodes : list Node) (txTrieNodes : list BtcTxTrie) : DB BtcDB unit :=
  db_for (λ t, node <-- db_lift (trie_Node t) ;; shadow (PublishIPLD node)) txTrieNodes ;;;
  shadow (PublishIPLD headerNode) ;;;
  headerID <-- indexHeaderCID nodeID (header_model ipldPayload (Cid headerNode)) ;;
  publish_txs 0 (p_TxMetaData ipldPayload) headerID txNodes.

Definition Publish (nodeID : Z) (ipldPayload : ConvertedPayload) : DB BtcDB unit :=
  let b := p_BlockPayload ipldPayload in
  ns <-- db_lift (FromHeaderAndTxs (Header b) (Txs b)) ;;
  let '(headerNode, txNodes, txTrieNodes) := ns in
  transact_deferred (Publish_body nodeID ipldPayload headerNode txNodes txTrieNodes).

End Publisher.

(** [Index] of the publishing type does nothing. *)
Definition IPLDPublisherAndIndexer_Index (cids : CIDPayload) : DB BtcDB unit := db_ret tt.

(** ** Well-formed databases: the constraints of the migrations *)

Record btc_wf (d : BtcDB) (q : gmap string Z) : Prop := {
  wf_headers : table_ok "btc.header_cids" h_ID header_key (header_cids d) q;
  wf_txs : table_ok "btc.transaction_cids" t_ID t_TxHash (transaction_cids d) q;
  wf_inputs : table_ok "btc.tx_inputs" i_ID input_key (tx_inputs d) q;
  wf_outputs : table_ok "btc.tx_outputs" o_ID output_key (tx_outputs d) q;
  fk_txs : Forall (λ t, t_HeaderID t ∈ map h_ID (header_cids d)) (transaction_cids d);
  fk_inputs : Forall (λ i, i_TxID i ∈ map t_ID (transaction_cids d)) (tx_inputs d);
  fk_outputs : Forall (λ u, o_TxID u ∈ map t_ID (transaction_cids d)) (tx_outputs d)
}.

Definition has_header (hid : Z) (d : BtcDB) : Prop := hid ∈ map h_ID (header_cids d).
Definition has_tx (id : Z) (d : BtcDB) : Prop := id ∈ map t_ID (transaction_cids d).

Lemma btc_wf_empty : btc_wf BtcDB_empty ∅.
Proof. split; unfold table_ok; simpl; repeat split; constructor. Qed.

Lemma btc_wf_seq_closed : seq_closed btc_wf.
Proof. intros d q q' Hq []. split; eauto using table_ok_seq. Qed.

Lemma btc_set_blocks_wf f d q : btc_wf d q → btc_wf (set_blocks f d) q.
Proof. by intros []; split. Qed.

#[local] Ltac upsert key k P := upsert_ensures btc_wf key k P ltac:(unfold input_key, output_key in *).

Section Steps.
Variable hid : Z.

(** The invariant inside the transaction loop. *)
Definition at_header : state_pred BtcDB := λ d q, btc_wf d q ∧ has_header hid d.
Definition at_tx (txID : Z) : state_pred BtcDB := λ d q, at_header d q ∧ has_tx txID d.

Lemma btc_header_ensures nodeID h :
  ensures btc_wf (indexHeaderCID nodeID h) (λ id d q, btc_wf d q ∧ has_header id d).
Proof. upsert header_key (header_key h) (λ (_ : BtcDB) (_ : HeaderModel), True). Qed.

Lemma btc_tx_ensures t : ensures at_header (indexTransactionCID t hid) (λ id d q, at_tx id d q).
Proof.
  unfold at_tx, at_header. upsert t_TxHash (t_TxHash (m_Tx t)) (λ d r, has_header (t_HeaderID r) d).
Qed.

Lemma btc_input_ensures i txID : ensures (at_tx txID) (indexTxInput i txID) (λ _, at_tx txID).
Proof. unfold at_tx, at_header. upsert input_key (txID, i_Index i) (λ d r, has_tx (i_TxID r) d). Qed.

Lemma btc_output_ensures u txID : ensures (at_tx txID) (indexTxOutput u txID) (λ _, at_tx txID).
Proof. unfold at_tx, at_header. upsert output_key (txID, o_Index u) (λ d r, has_tx (o_TxID r) d). Qed.

Lemma btc_ins_outs_ensures t txID : ensures (at_tx txID) (index_ins_outs t txID) (λ _, at_tx txID).
Proof.
  eapply bind_ensures; [apply for_ensures; intros i; apply btc_input_ensures|].
  intros []. apply for_ensures. intros u. apply btc_output_ensures.
Qed.

Lemma btc_txs_ensures ts : ensures at_header (indexTransactionCIDs ts hid) (λ _, at_header).
Proof.
  apply for_ensures. intros t. eapply bind_ensures; [apply btc_tx_ensures|]. intros id.
  eapply ensures_weaken; [| |apply btc_ins_outs_ensures]; [done|]. by intros ? ? ? [].
Qed.

End Steps.

Lemma btc_header_grows nodeID h : grows (indexHeaderCID nodeID h).
Proof. upsert_grows. Qed.
Lemma btc_tx_grows t hid : grows (indexTransactionCID t hid).
Proof. upsert_grows. Qed.
Lemma btc_input_grows i id : grows (indexTxInput i id).
Proof. upsert_grows. Qed.
Lemma btc_output_grows u id : grows (indexTxOutput u id).
Proof. upsert_grows. Qed.

Lemma btc_ins_outs_grows t id : grows (index_ins_outs t id).
Proof.
  apply grows_bind; [apply grows_for; intros; apply btc_input_grows|].
  intros []. apply grows_for. intros. apply btc_output_grows.
Qed.

Lemma btc_Index_grows nodeID p : grows (Index_body nodeID p).
Proof.
  apply grows_bind; [apply btc_header_grows|]. intros hid. apply grows_for. intros t.
  apply grows_bind; [apply btc_tx_grows|]. intros id. apply btc_ins_outs_grows.
Qed.

Lemma btc_ins_outs_fail_aborts t id : fail_aborts (index_ins_outs t id).
Proof.
  apply bind_fail_aborts; [apply for_fail_aborts; intros; apply exec_fail_aborts|].
  intros []. apply for_fail_aborts. intros. apply exec_fail_aborts.
Qed.

Lemma btc_Index_fail_aborts nodeID p : fail_aborts (Index_body nodeID p).
Proof.
  apply bind_fail_aborts; [apply exec_fail_aborts|]. intros hid. apply for_fail_aborts. intros t.
  apply bind_fail_aborts; [apply exec_fail_aborts|]. intros id. apply btc_ins_outs_fail_aborts.
Qed.

Lemma btc_Index_ensures nodeID p : ensures btc_wf (Index_body nodeID p) (λ _, btc_wf).
Proof.
  eapply bind_ensures; [apply btc_header_ensures|]. intros hid.
  eapply ensures_weaken; [| |apply (btc_txs_ensures hid)]; [done|]. by intros ? ? ? [].
Qed.

(** ** Lemmas: [Publish] *)

Section PublishLemmas.
Context `{BtcLib} `{CidLib} `{Multihash}.

Lemma btc_publish_txs_ensures ms hid ns : ∀ i,
  ensures (at_header hid) (publish_txs i ms hid ns) (λ _, at_header hid).
Proof.
  induction ns as [|n ns IH]; intros i; simpl; [apply ret_ensures|].
  eapply bind_ensures; [apply shadow_ensures, (insert_block_keeps (at_header hid))|intros []].
  { intros b d q [Hwf Hh]. split; [by apply btc_set_blocks_wf|done]. }
  eapply bind_ensures; [apply lift_ensures|]. intros m.
  eapply bind_ensures; [apply shadow_ensures, btc_tx_ensures|]. intros id.
  eapply bind_ensures; [apply shadow_ensures, btc_ins_outs_ensures|intros []].
  eapply ensures_weaken; [| |apply IH]; [by intros ? ? []|done].
Qed.

Lemma btc_Publish_ensures nodeID p h ns ts : ensures btc_wf (Publish_body nodeID p h ns ts) (λ _, btc_wf).
Proof.
  assert (Hb : ∀ b d q, btc_wf d q → btc_wf (put_blocks b d) q) by (intros; by apply btc_set_blocks_wf).
  eapply bind_ensures; [apply for_ensures; intros t|intros []].
  { eapply bind_ensures; [apply lift_ensures|intros n]. by apply shadow_ensures, insert_block_keeps. }
  eapply bind_ensures; [by apply shadow_ensures, insert_block_keeps|intros []].
  eapply bind_ensures; [apply btc_header_ensures|]. intros hid.
  eapply ensures_weaken; [| |apply (btc_publish_txs_ensures _ hid)]; [done|]. by intros ? ? ? [].
Qed.

Lemma btc_publish_txs_grows ms hid ns : ∀ i, grows (publish_txs i ms hid ns).
Proof.
  induction ns as [|n ns IH]; intros i; simpl; [apply grows_ret|].
  apply grows_bind; [apply grows_shadow, insert_block_grows|intros []].
  apply grows_bind; [apply grows_lift|intros m].
  apply grows_bind; [apply grows_shadow, btc_tx_grows|intros id].
  apply grows_bind; [apply grows_shadow, btc_ins_outs_grows|intros []]. apply IH.
Qed.

Lemma btc_Publish_grows nodeID p h ns ts : grows (Publish_body nodeID p h ns ts).
Proof.
  apply grows_bind; [apply grows_for; intros t|intros []].
  { apply grows_bind; [apply grows_lift|intros n]. apply grows_shadow, insert_block_grows. }
  apply grows_bind; [apply grows_shadow, insert_block_grows|intros []].
  apply grows_bind; [apply btc_header_grows|intros hid]. apply btc_publish_txs_grows.
Qed.

Lemma btc_publish_txs_shadow_aborts ms hid ns : ∀ i, shadow_aborts (publish_txs i ms hid ns).
Proof.
  induction ns as [|n ns IH]; intros i; simpl; [apply ret_shadow_aborts|].
  apply bind_shadow_aborts; [apply shadow_shadow_aborts, PublishIPLD_fail_aborts|intros []].
  apply bind_shadow_aborts; [apply lift_shadow_aborts|intros m].
  apply bind_shadow_aborts; [apply shadow_shadow_aborts, exec_fail_aborts|intros id].
  apply bind_shadow_aborts; [apply shadow_shadow_aborts, btc_ins_outs_fail_aborts|intros []]. apply IH.
Qed.

Lemma btc_Publish_shadow_aborts nodeID p h ns ts : shadow_aborts (Publish_body nodeID p h ns ts).
Proof.
  apply bind_shadow_aborts; [apply for_shadow_aborts; intros t|intros []].
  { apply bind_shadow_aborts; [apply lift_shadow_aborts|intros n].
    apply shadow_shadow_aborts, PublishIPLD_fail_aborts. }
  apply bind_shadow_aborts; [apply shadow_shadow_aborts, PublishIPLD_fail_aborts|intros []].
  apply bind_shadow_aborts; [apply fail_shadow_aborts, exec_fail_aborts|intros hid].
  apply btc_publish_txs_shadow_aborts.
Qed.

(** The blocks under [Publish]. *)
#[local] Ltac keeps_blocks := upsert_keeps ltac:(unfold holds_blocks).

Lemma btc_header_holds b ks nodeID h :
  ensures (holds_blocks b ks) (indexHeaderCID nodeID h) (λ _, holds_blocks b ks).
Proof. keeps_blocks. Qed.
Lemma btc_tx_holds b ks t hid :
  ensures (holds_blocks b ks) (indexTransactionCID t hid) (λ _, holds_blocks b ks).
Proof. keeps_blocks. Qed.
Lemma btc_input_holds b ks i id :
  ensures (holds_blocks b ks) (indexTxInput i id) (λ _, holds_blocks b ks).
Proof. keeps_blocks. Qed.
Lemma btc_output_holds b ks u id :
  ensures (holds_blocks b ks) (indexTxOutput u id) (λ _, holds_blocks b ks).
Proof. keeps_blocks. Qed.

Lemma btc_ins_outs_holds b ks t id :
  ensures (holds_blocks b ks) (index_ins_outs t id) (λ _, holds_blocks b ks).
Proof.
  eapply bind_ensures; [apply for_ensures; intros i; apply btc_input_holds|].
  intros []. apply for_ensures. intros u. apply btc_output_holds.
Qed.

Lemma btc_publish_txs_holds b ms hid ns : ∀ i ks,
  ensures (holds_blocks b ks) (publish_txs i ms hid ns) (λ _, holds_blocks b (map node_key ns ++ ks)).
Proof.
  induction ns as [|n ns IH]; intros i ks; simpl; [apply ret_ensures|].
  eapply bind_ensures; [apply shadow_ensures, insert_block_holds|intros []].
  eapply bind_ensures; [apply lift_ensures|intros m].
  eapply bind_ensures; [apply shadow_ensures, btc_tx_holds|intros id].
  eapply bind_ensures; [apply shadow_ensures, btc_ins_outs_holds|intros []].
  eapply ensures_weaken; [done| |apply IH]. intros ? d q. apply holds_blocks_weaken. unfold node_key at 2.
  set_solver.
Qed.

(** The key a trie node is published under. *)
Definition trie_key (t : BtcTxTrie) : string :=
  match trie_Cid t with Ok c => blocks_key c | _ => "" end.

Lemma lift_ensures_eq {T A} (P : state_pred T) (r : result A) :
  ensures P (db_lift r) (λ a d q, P d q ∧ r = Ok a).
Proof. intros o s Hs. by destruct r. Qed.

Lemma btc_trie_holds b t ks :
  ensures (holds_blocks b ks) (node <-- db_lift (trie_Node t) ;; shadow (PublishIPLD node))
    (λ _, holds_blocks b (trie_key t :: ks)).
Proof.
  eapply bind_ensures; [apply lift_ensures_eq|]. intros n. apply ensures_pure.
  unfold trie_Node. intros (c & Hc & (raw & Hr & [= <-])%rbind_Ok_inv)%rbind_Ok_inv.
  unfold trie_key. rewrite Hc. apply shadow_ensures, insert_block_holds.
Qed.

Lemma btc_Publish_holds b nodeID p h ns ts :
  ensures (holds_blocks b []) (Publish_body nodeID p h ns ts)
    (λ _, holds_blocks b (map node_key (h :: ns) ++ map trie_key ts)).
Proof.
  eapply bind_ensures; [apply (publish_for_holds b trie_key); intros t ks; apply btc_trie_holds|intros []].
  eapply bind_ensures; [apply shadow_ensures, insert_block_holds|intros []].
  eapply bind_ensures; [apply btc_header_holds|intros hid].
  eapply ensures_weaken; [done| |apply btc_publish_txs_holds].
  intros ? d q. apply holds_blocks_weaken. simpl. unfold node_key at 1 3. set_solver.
Qed.

Lemma btc_Publish_open nodeID p h ns ts : keeps_open (Publish_body nodeID p h ns ts).
Proof.
  assert (Htxs : ∀ l i hid, keeps_open (publish_txs i (p_TxMetaData p) hid l)).
  { induction l as [|t l IH]; intros i hid; simpl; [apply ret_open|]. unfold index_ins_outs. stays_open. apply IH. }
  unfold Publish_body. stays_open. apply Htxs.
Qed.

(** ** Properties *)

(** Publishing a Bitcoin block keeps the btc schema well-formed whichever
    statements the server rejects, and when it returns an error or panics no
    table -- IPLD blocks included -- has changed. *)
Theorem btc_Publish_safe nodeID p o s :
  btc_wf (tables s) (seqs s) →
  let '(r, s') := Publish nodeID p o s in
  btc_wf (tables s') (seqs s') ∧ (is_DOk r = false → tables s' = tables s).
Proof.
  intros Hwf. destruct (Publish nodeID p o s) as [r s'] eqn:E.
  unfold Publish, db_bind, db_lift in E.
  destruct (FromHeaderAndTxs _ _) as [[[h ns] ts]|e|w]; [|by injection E as <- <-..].
  split.
  - assert (H' := transact_deferred_invariant btc_wf (Publish_body nodeID p h ns ts) o s btc_wf_seq_closed
      (btc_Publish_grows nodeID p h ns ts) (btc_Publish_shadow_aborts nodeID p h ns ts)
      (btc_Publish_ensures nodeID p h ns ts) Hwf).
    by rewrite E in H'.
  - intros Hr. by eapply transact_deferred_atomic; [apply btc_Publish_shadow_aborts|apply E|].
Qed.

(** After a successful [Publish] the header, the transactions and every node
    of the Merkle tree are in public.blocks under their CIDs, and no block
    stored before was altered; or the COMMIT was refused and nothing changed. *)
Theorem btc_Publish_available nodeID p o s :
  let '(r, s') := Publish nodeID p o s in
  is_DOk r = true →
  ∃ h ns ts, FromHeaderAndTxs (Header (p_BlockPayload p)) (Txs (p_BlockPayload p)) = Ok (h, ns, ts) ∧
    (tables s' = tables s ∧ commit_refused o s' ∨
     blocks (tables s) ⊆ blocks (tables s') ∧
     Forall (λ n, is_Some (blocks (tables s') !! blocks_key (Cid n))) (h :: ns) ∧
     Forall (λ t, is_Some (blocks (tables s') !! trie_key t)) ts).
Proof.
  destruct (Publish nodeID p o s) as [r s'] eqn:E. intros Hr. destruct r as [[]| |]; try done.
  unfold Publish, db_bind, db_lift in E.
  destruct (FromHeaderAndTxs _ _) as [[[h ns] ts]|e|w] eqn:Ens; [|done..].
  exists h, ns, ts. split; [done|].
  apply transact_deferred_commits in E as (s1 & s2 & Hb & Hbody & [Ht|Ht]); [|by left|apply btc_Publish_open]. right.
  assert (Hs1 : tables s1 = tables s) by (rewrite <- (begin_tables o s); by rewrite Hb).
  pose proof (btc_Publish_holds (blocks (tables s)) nodeID p h ns ts o s1) as Hh.
  rewrite Hbody, Hs1 in Hh. rewrite Ht. destruct Hh as [Hsub Hall]; [by split|].
  apply Forall_app in Hall as [Hn Hts]. split_and!; [done| |].
  - exact (proj1 (Forall_fmap node_key _ (h :: ns)) Hn).
  - exact (proj1 (Forall_fmap trie_key _ ts) Hts).
Qed.

End PublishLemmas.

(** Indexing the CIDs of a block keeps the schema well-formed whichever
    statements the server rejects; an error leaves every table as it was. *)
Theorem btc_Index_safe nodeID p o s :
  btc_wf (tables s) (seqs s) →
  let '(r, s') := Index nodeID p o s in
  btc_wf (tables s') (seqs s') ∧ (is_DOk r = false → tables s' = tables s).
Proof.
  intros Hwf. destruct (Index nodeID p o s) as [r s'] eqn:E.
  pose proof (fail_shadow_aborts _ (btc_Index_fail_aborts nodeID p)) as Hsh. split.
  - assert (H' := transact_deferred_invariant btc_wf (Index_body nodeID p) o s btc_wf_seq_closed
      (btc_Index_grows nodeID p) Hsh (btc_Index_ensures nodeID p) Hwf).
    change (transact_deferred (Index_body nodeID p) o s) with (Index nodeID p o s) in H'.
    by rewrite E in H'.
  - intros Hr. by eapply transact_deferred_atomic; [apply Hsh|apply E|].
Qed.

(** ** What [Index] stores *)

Section Stored.
Variables (hid : Z) (is_header : HeaderModel → Prop).

Definition input_in (n : Z) (i : TxInput) (d : BtcDB) : Prop := ∃ k, input_row i n k ∈ tx_inputs d.
Definition output_in (n : Z) (u : TxOutput) (d : BtcDB) : Prop := ∃ k, output_row u n k ∈ tx_outputs d.

(** The transaction under the header, with its inputs and outputs below it. *)
Definition stored (t : TxModelWithInsAndOuts) (d : BtcDB) : Prop := ∃ n,
  tx_row (m_Tx t) hid n ∈ transaction_cids d ∧
  Forall (λ i, input_in n i d) (m_TxInputs t) ∧ Forall (λ u, output_in n u d) (m_TxOutputs t).

Definition header_in (d : BtcDB) : Prop :=
  ∃ hr, hr ∈ header_cids d ∧ is_header hr ∧ h_ID hr = hid.

Definition tx_hash_of (t : TxModelWithInsAndOuts) : string := t_TxHash (m_Tx t).

(** Between two transactions, those of [done] being stored. *)
Definition between_txs (done : list TxModelWithInsAndOuts) : state_pred BtcDB := λ d q,
  at_header hid d q ∧ header_in d ∧ Forall (λ t, stored t d) done.

(** Inside the transaction [t], which got the id [n]. *)
Definition inside_tx (done : list TxModelWithInsAndOuts) t n (ins : list TxInput) (outs : list TxOutput)
    : state_pred BtcDB := λ d q,
  at_tx hid n d q ∧ header_in d ∧ Forall (λ t, stored t d) done ∧
  tx_row (m_Tx t) hid n ∈ transaction_cids d ∧
  Forall (λ i, input_in n i d) ins ∧ Forall (λ u, output_in n u d) outs.

(** Two transactions with different hashes have different ids. *)
Lemma rows_apart d q t t' n n' : btc_wf d q → tx_hash_of t ≠ tx_hash_of t' →
  tx_row (m_Tx t) hid n ∈ transaction_cids d → tx_row (m_Tx t') hid n' ∈ transaction_cids d → n ≠ n'.
Proof.
  intros Hwf Hne H1 H2 ->. destruct (wf_txs d q Hwf) as (Hid & _ & _).
  assert (E : tx_row (m_Tx t) hid n' = tx_row (m_Tx t') hid n').
  { eapply (NoDup_map_inj t_ID); eauto. }
  apply Hne. unfold tx_hash_of. change (t_TxHash (tx_row (m_Tx t) hid n') = t_TxHash (tx_row (m_Tx t') hid n')).
  by rewrite E.
Qed.

Definition new_hash (done : list TxModelWithInsAndOuts) (t : TxModelWithInsAndOuts) : Prop :=
  ∀ t', t' ∈ done → tx_hash_of t' ≠ tx_hash_of t.

Lemma tx_step done t : new_hash done t →
  ensures (between_txs done) (indexTransactionCID t hid) (λ n, inside_tx done t n [] []).
Proof.
  intros Hnew. eapply ensures_weaken; [done| |apply (ensures_post (between_txs done))].
  2: { eapply ensures_weaken; [| |apply (btc_tx_ensures hid t)]; [by intros d q [H _]|done]. }
  2: { apply exec_ensures. intros d q (_ & Hh & Hd).
    destruct (upsert_rows _ _ _ _ _ (transaction_cids d) q) as [[n rows] q'] eqn:E. simpl.
    instantiate (1 := λ n d q, header_in d ∧ Forall (λ t, stored t d) done ∧
      tx_row (m_Tx t) hid n ∈ transaction_cids d). simpl. split_and!; [done| |].
    - rewrite Forall_forall in Hd |- *. intros t' Ht'. destruct (Hd t' Ht') as (n' & Hr & Hio).
      exists n'. split; [|done]. eapply upsert_rows_kept; [exact E|done|].
      apply bool_decide_eq_false. apply (Hnew t' Ht').
    - eapply upsert_rows_put; [|exact E]. intros r Hr%bool_decide_eq_true.
      unfold tx_update, tx_row. by rewrite Hr. }
  intros n d q [Hat (Hh & Hd & Hr)]. split_and!; try done; constructor.
Qed.

Lemma input_kept i n n' i' d q : (n', i_Index i') ≠ (n, i_Index i) → input_in n' i' d →
  input_in n' i' (set_inputs (upsert_rows "btc.tx_inputs" (λ r, bool_decide (input_key r = (n, i_Index i)))
    (input_row i n) (input_update i) i_ID (tx_inputs d) q).1.2 d).
Proof.
  intros Hne [k Hk]. exists k. destruct (upsert_rows _ _ _ _ _ (tx_inputs d) q) as [[x rows] q'] eqn:E. simpl.
  eapply upsert_rows_kept; [exact E|done|]. by apply bool_decide_eq_false.
Qed.

Lemma output_kept u n n' u' d q : (n', o_Index u') ≠ (n, o_Index u) → output_in n' u' d →
  output_in n' u' (set_outputs (upsert_rows "btc.tx_outputs" (λ r, bool_decide (output_key r = (n, o_Index u)))
    (output_row u n) (output_update u) o_ID (tx_outputs d) q).1.2 d).
Proof.
  intros Hne [k Hk]. exists k. destruct (upsert_rows _ _ _ _ _ (tx_outputs d) q) as [[x rows] q'] eqn:E. simpl.
  eapply upsert_rows_kept; [exact E|done|]. by apply bool_decide_eq_false.
Qed.

Lemma input_step done t n ins outs i : new_hash done t → i_Index i ∉ map i_Index ins →
  ensures (inside_tx done t n ins outs) (indexTxInput i n) (λ _, inside_tx done t n (ins ++ [i]) outs).
Proof.
  intros Hnew Hi. eapply ensures_weaken; [done| |apply (ensures_post (inside_tx done t n ins outs))].
  2: { eapply ensures_weaken; [| |apply (btc_input_ensures hid i n)]; [by intros d q [H _]|done]. }
  2: { apply exec_ensures. intros d q (Hat & Hh & Hd & Hr & Hins & Houts).
    pose proof (λ n' i', input_kept i n n' i' d q) as Hk.
    destruct (upsert_rows _ _ _ _ _ (tx_inputs d) q) as [[x rows] q'] eqn:E. simpl in *.
    instantiate (1 := λ _ d q, header_in d ∧ Forall (λ t, stored t d) done ∧
      tx_row (m_Tx t) hid n ∈ transaction_cids d ∧
      Forall (λ i, input_in n i d) (ins ++ [i]) ∧ Forall (λ u, output_in n u d) outs).
    simpl. split_and!; try done.
    - rewrite Forall_forall in Hd |- *. intros t' Ht'. destruct (Hd t' Ht') as (n' & Hr' & Hi' & Ho').
      exists n'. split_and!; [done| |done]. eapply Forall_impl; [exact Hi'|]. intros i' Hin. apply Hk; [|done].
      intros [= -> _]. by apply (rows_apart d q t' t n n (proj1 (proj1 Hat)) (Hnew t' Ht')).
    - apply Forall_app. split; [|constructor; [|constructor]].
      + rewrite Forall_forall in Hins |- *. intros i' Hin. apply Hk; [|by apply Hins].
        intros [= He]. apply Hi. rewrite <- He. by apply list_elem_of_fmap_2.
      + exists x. eapply upsert_rows_put; [|exact E]. intros r Hr'%bool_decide_eq_true.
        unfold input_key in Hr'. injection Hr' as Hr1 Hr2. unfold input_update, input_row. by rewrite Hr1, Hr2. }
  intros [] d q [Hat H]. by split.
Qed.

Lemma output_step done t n ins outs u : new_hash done t → o_Index u ∉ map o_Index outs →
  ensures (inside_tx done t n ins outs) (indexTxOutput u n) (λ _, inside_tx done t n ins (outs ++ [u])).
Proof.
  intros Hnew Hi. eapply ensures_weaken; [done| |apply (ensures_post (inside_tx done t n ins outs))].
  2: { eapply ensures_weaken; [| |apply (btc_output_ensures hid u n)]; [by intros d q [H _]|done]. }
  2: { apply exec_ensures. intros d q (Hat & Hh & Hd & Hr & Hins & Houts).
    pose proof (λ n' u', output_kept u n n' u' d q) as Hk.
    destruct (upsert_rows _ _ _ _ _ (tx_outputs d) q) as [[x rows] q'] eqn:E. simpl in *.
    instantiate (1 := λ _ d q, header_in d ∧ Forall (λ t, stored t d) done ∧
      tx_row (m_Tx t) hid n ∈ transaction_cids d ∧
      Forall (λ i, input_in n i d) ins ∧ Forall (λ u, output_in n u d) (outs ++ [u])).
    simpl. split_and!; try done.
    - rewrite Forall_forall in Hd |- *. intros t' Ht'. destruct (Hd t' Ht') as (n' & Hr' & Hi' & Ho').
      exists n'. split_and!; [done|done|]. eapply Forall_impl; [exact Ho'|]. intros u' Hin. apply Hk; [|done].
      intros [= -> _]. by apply (rows_apart d q t' t n n (proj1 (proj1 Hat)) (Hnew t' Ht')).
    - apply Forall_app. split; [|constructor; [|constructor]].
      + rewrite Forall_forall in Houts |- *. intros u' Hin. apply Hk; [|by apply Houts].
        intros [= He]. apply Hi. rewrite <- He. by apply list_elem_of_fmap_2.
      + exists x. eapply upsert_rows_put; [|exact E]. intros r Hr'%bool_decide_eq_true.
        unfold output_key in Hr'. injection Hr' as Hr1 Hr2. unfold output_update, output_row. by rewrite Hr1, Hr2. }
  intros [] d q [Hat H]. by split.
Qed.

(** A payload in which hashes and positions are distinct, as in a block. *)
Definition distinct (t : TxModelWithInsAndOuts) : Prop :=
  NoDup (map i_Index (m_TxInputs t)) ∧ NoDup (map o_Index (m_TxOutputs t)).

Lemma tx_loop_step done t : new_hash done t → distinct t →
  ensures (between_txs done) (txID <-- indexTransactionCID t hid ;; index_ins_outs t txID)
    (λ _, between_txs (done ++ [t])).
Proof.
  intros Hnew [Hi Ho]. eapply bind_ensures; [by apply tx_step|]. intros n.
  eapply ensures_weaken; [done| |eapply bind_ensures; [|intros []]].
  2: { apply (for_done (λ ins, inside_tx done t n ins []) _ (λ ins i, i_Index i ∉ map i_Index ins));
       [intros ins i; by apply input_step|]. intros ins i rest E. simpl in E. by eapply fresh_in_NoDup. }
  2: { apply (for_done (λ outs, inside_tx done t n (m_TxInputs t) outs) _ (λ outs u, o_Index u ∉ map o_Index outs));
       [intros outs u; by apply output_step|]. intros outs u rest E. simpl in E. by eapply fresh_in_NoDup. }
  intros [] d q (Hat & Hh & Hd & Hr & Hins & Houts). split_and!; [apply Hat|done|].
  apply Forall_app. split; [done|]. constructor; [|constructor]. by exists n.
Qed.

Lemma txs_loop ts : NoDup (map tx_hash_of ts) → Forall distinct ts →
  ensures (between_txs []) (indexTransactionCIDs ts hid) (λ _, between_txs ts).
Proof.
  intros Hn Hd.
  apply (for_done between_txs _ (λ done t, new_hash done t ∧ distinct t)).
  - intros done t [H1 H2]. by apply tx_loop_step.
  - intros done t rest E. simpl in E. split.
    + intros t' Ht' He. eapply (fresh_in_NoDup tx_hash_of); [exact Hn|exact E|].
      rewrite <- He. by apply list_elem_of_fmap_2.
    + rewrite Forall_forall in Hd. apply Hd. rewrite E. set_solver.
Qed.

End Stored.

(** The row of a header over those there were: the columns of the model, and
    one validation more than the row with the same key had. *)
Record header_over (m : HeaderModel) (nodeID : Z) (before : list HeaderModel) (hr : HeaderModel) : Prop := {
  ho_BlockNumber : h_BlockNumber hr = h_BlockNumber m;
  ho_BlockHash : h_BlockHash hr = h_BlockHash m;
  ho_ParentHash : h_ParentHash hr = h_ParentHash m;
  ho_CID : h_CID hr = h_CID m;
  ho_Timestamp : h_Timestamp hr = h_Timestamp m;
  ho_Bits : h_Bits hr = h_Bits m;
  ho_NodeID : h_NodeID hr = nodeID;
  ho_TimesValidated : h_TimesValidated hr = 1 ∧ header_key m ∉ map header_key before ∨
    ∃ r, r ∈ before ∧ header_key r = header_key m ∧ h_ID r = h_ID hr ∧ h_TimesValidated hr = h_TimesValidated r + 1
}.

Lemma header_stored nodeID m d0 : 
  ensures (λ d q, btc_wf d q ∧ d = d0) (indexHeaderCID nodeID m)
    (λ id d q, header_in id (header_over m nodeID (header_cids d0)) d).
Proof.
  apply exec_ensures. intros d q [Hw ->].
  destruct (upsert_rows _ _ _ _ _ (header_cids d0) q) as [[n rows] q'] eqn:E. simpl.
  apply upsert_rows_cases in E as [(r & Hr & Hk%bool_decide_eq_true & <- & Hin)|[Hno Hin]].
  - exists (header_update m nodeID r). split_and!; [done| |done]. injection Hk as Hk1 Hk2. split; try done.
    right. exists r. split_and!; try done. unfold header_key. congruence.
  - exists (header_row m nodeID n). split_and!; [done| |done]. split; try done. left. split; [done|].
    intros (r & Hk & Hr)%list_elem_of_fmap. specialize (Hno r Hr). by apply bool_decide_eq_false in Hno.
Qed.

Lemma Index_body_open nodeID p : keeps_open (Index_body nodeID p).
Proof. unfold Index_body, indexTransactionCIDs, index_ins_outs. stays_open. Qed.

(** C20: when the hashes of a payload and the positions of each transaction's
    inputs and outputs are distinct, a successful [Index] leaves one row for
    the payload's header -- with all its columns, under this node, validated
    once more than before -- and every transaction under it with all its
    inputs and outputs, also those that another header had before.  The only
    other possibility is that the server refused the COMMIT, and then nothing
    changed. *)
Theorem btc_Index_stores nodeID p o s :
  btc_wf (tables s) (seqs s) → NoDup (map tx_hash_of (TransactionCIDs p)) → Forall distinct (TransactionCIDs p) →
  let '(r, s') := Index nodeID p o s in
  is_DOk r = true →
  tables s' = tables s ∧ commit_refused o s' ∨
  ∃ hr, hr ∈ header_cids (tables s') ∧ header_over (HeaderCID p) nodeID (header_cids (tables s)) hr ∧
    Forall (λ t, stored (h_ID hr) t (tables s')) (TransactionCIDs p) ∧
    ∀ t r, t ∈ TransactionCIDs p → r ∈ transaction_cids (tables s') →
      t_TxHash r = tx_hash_of t → t_HeaderID r = h_ID hr.
Proof.
  intros Hwf Hn Hd. destruct (Index nodeID p o s) as [r s'] eqn:E. intros Hr. destruct r as [[]| |]; try done.
  apply transact_deferred_commits in E as (s1 & s2 & Hb & Hbody & [Ht|Ht]); [|by left|apply Index_body_open]. right.
  assert (H1 : tables s1 = tables s) by (rewrite <- (begin_tables o s); by rewrite Hb).
  assert (Hq : seqs s1 = seqs s) by (rewrite <- (begin_seqs o s); by rewrite Hb).
  set (hdr := header_over (HeaderCID p) nodeID (header_cids (tables s))).
  assert (Hens : ensures (λ d q, btc_wf d q ∧ d = tables s) (Index_body nodeID p) (λ _ d q, ∃ hid,
    between_txs hid hdr (TransactionCIDs p) d q)).
  { eapply bind_ensures; [apply (ensures_post (λ d q, btc_wf d q ∧ d = tables s)); [|apply header_stored]|].
    - eapply ensures_weaken; [| |apply btc_header_ensures]; [by intros d q [Hw _]|done].
    - intros hid. eapply ensures_weaken; [| |apply (txs_loop hid hdr)]; try done.
      + intros d q [[Hw Hh] Hin]. split_and!; [by split|done|constructor].
      + intros [] d q Hf. by exists hid. }
  specialize (Hens o s1 ltac:(by rewrite H1, Hq)). rewrite Hbody in Hens. rewrite Ht.
  destruct Hens as (hid & [Hw Hh] & (hr & Hin & Hk & <-) & Hst). exists hr. split_and!; [done..|].
  intros t r Htin Hrin Hhash. rewrite Forall_forall in Hst. destruct (Hst t Htin) as (n & Hrow & _).
  assert (r = tx_row (m_Tx t) (h_ID hr) n) as ->; [|done].
  destruct (wf_txs _ _ Hw) as (_ & Hnd & _). eapply (NoDup_map_inj t_TxHash); eauto.
Qed.

(** ** Witnesses *)

Section Witnesses.
#[local] Existing Instance BtcIpld.Concrete.btc.
#[local] Existing Instance BtcIpld.Concrete.cidlib.
#[local] Existing Instance BtcIpld.Concrete.multihash.

Definition ex_session : session BtcDB := mkSession BtcDB_empty ∅ false 0%nat.
Definition refuse (n : nat) : oracle := λ k, if (k =? n)%nat then Some (Driver "connection lost") else None.

Definition ex_payload : BlockPayload := mkBlockPayload 9 BtcIpld.Concrete.header BtcIpld.Concrete.txs.
Definition ex_converted : ConvertedPayload := match Convert ex_payload with Ok p => p | _ => mkConverted ex_payload [] end.

(** The connection is lost at the ninth statement. *)
Lemma btc_Publish_safe_witness :
  is_DOk (Publish 1 ex_converted (refuse 8) ex_session).1 = false ∧
  let '(r, s') := Publish 1 ex_converted (refuse 8) ex_session in
  btc_wf (tables s') (seqs s') ∧ (is_DOk r = false → tables s' = tables ex_session).
Proof.
  split; [vm_compute; reflexivity|].
  apply (btc_Publish_safe 1 ex_converted (refuse 8) ex_session). apply btc_wf_empty.
Defined.

Lemma btc_Publish_available_witness :
  is_DOk (Publish 1 ex_converted no_faults ex_session).1 = true ∧
  let '(r, s') := Publish 1 ex_converted no_faults ex_session in
  is_DOk r = true →
  ∃ h ns ts, FromHeaderAndTxs (Header (p_BlockPayload ex_converted)) (Txs (p_BlockPayload ex_converted)) = Ok (h, ns, ts) ∧
    (tables s' = tables ex_session ∧ commit_refused no_faults s' ∨
     blocks (tables ex_session) ⊆ blocks (tables s') ∧
     Forall (λ n, is_Some (blocks (tables s') !! blocks_key (Cid n))) (h :: ns) ∧
     Forall (λ t, is_Some (blocks (tables s') !! trie_key t)) ts).
Proof.
  split; [vm_compute; reflexivity|]. apply (btc_Publish_available 1 ex_converted no_faults ex_session).
Defined.

(** A transaction indexed under a header at height 5, then in a payload at height 6. *)
Definition ex_tx (hash : string) : TxModelWithInsAndOuts :=
  mkTxMeta (mkTxModel 0 0 0 hash "cid" false "") [mkTxInput 0 0 0 [] [] 0 ""] [mkTxOutput 0 0 0 7 [] 0 1 []].
Definition ex_cids (height : Z) (hash : string) : CIDPayload :=
  mkCIDPayload (mkHeaderModel 0 height hash "" "cid" 0 0 0 0) [ex_tx "a"; ex_tx "b"].

Definition ex_indexed : session BtcDB := (Index 1 (ex_cids 5 "five") no_faults ex_session).2.

Lemma ex_indexed_wf : btc_wf (tables ex_indexed) (seqs ex_indexed).
Proof.
  split; unfold table_ok; split_and?; try (apply (bool_decide_unpack _); vm_compute; exact I).
Qed.

Lemma btc_Index_stores_witness :
  map t_HeaderID (transaction_cids (tables ex_indexed)) = [1; 1] ∧
  map t_HeaderID (transaction_cids (tables (Index 1 (ex_cids 6 "six") no_faults ex_indexed).2)) = [2; 2] ∧
  let '(r, s') := Index 1 (ex_cids 6 "six") no_faults ex_indexed in
  is_DOk r = true →
  tables s' = tables ex_indexed ∧ commit_refused no_faults s' ∨
  ∃ hr, hr ∈ header_cids (tables s') ∧
    header_over (HeaderCID (ex_cids 6 "six")) 1 (header_cids (tables ex_indexed)) hr ∧
    Forall (λ t, stored (h_ID hr) t (tables s')) [ex_tx "a"; ex_tx "b"] ∧
    ∀ t r, t ∈ [ex_tx "a"; ex_tx "b"] → r ∈ transaction_cids (tables s') →
      t_TxHash r = tx_hash_of t → t_HeaderID r = h_ID hr.
Proof.
  split; [vm_compute; reflexivity|]. split; [vm_compute; reflexivity|].
  apply (btc_Index_stores 1 (ex_cids 6 "six") no_faults ex_indexed ex_indexed_wf).
  - apply (bool_decide_unpack _). vm_compute. exact I.
  - repeat constructor; apply not_elem_of_nil.
Defined.

End Witnesses.
