(* ===== verification/BtcIpfs.v ===== *)
(** * Publishing Bitcoin blocks through an IPFS node (pkg/super_node/btc/publisher.go)

    [IPLDPublisher.Publish] puts the nodes of a block into a DAG service and
    returns their CIDs with the metadata, for the indexer; with the indexer it
    stores what the publisher of publish_and_indexer.go stores. *)

From S2P Require Import Prelude Geth Sql Blocks DagPut Agreement BtcModel BtcIpld BtcDB.
Open Scope pub_scope.

Section Ipfs.
Context `{BtcLib} `{CidLib} `{Multihash} `{DagService}.

Definition publishHeader (header : Node) : Pub string := DagPut header.

Definition publishTransactions (transactions : list Node) (txTrie : list BtcTxTrie)
    (trxMeta : list TxModelWithInsAndOuts) : Pub (list TxModelWithInsAndOuts) :=
  txCids <~ pub_collect (λ i tx,
    cid <~ DagPut tx ;;
    m <~ index_of trxMeta i ;;
    pub_ret {|
      m_Tx := {| t_ID := 0; t_HeaderID := 0; t_Index := t_Index (m_Tx m); t_TxHash := t_TxHash (m_Tx m);
                 t_CID := cid; t_SegWit := t_SegWit (m_Tx m); t_WitnessHash := t_WitnessHash (m_Tx m) |};
      m_TxInputs := m_TxInputs m; m_TxOutputs := m_TxOutputs m |}) 0 transactions ;;
  _ <~ pub_collect (λ _ txNode, node <~ pub_lift (trie_Node txNode) ;; DagPut node) 0 txTrie ;;
  pub_ret txCids.

Definition Publish (ipldPayload : ConvertedPayload) : Pub CIDPayload :=
  let b := p_BlockPayload ipldPayload in
  ns <~ pub_lift (FromHeaderAndTxs (Header b) (Txs b)) ;;
  let '(headerNode, txNodes, txTrieNodes) := ns in
  headerCid <~ publishHeader headerNode ;;
  transactionCids <~ publishTransactions txNodes txTrieNodes (p_TxMetaData ipldPayload) ;;
  pub_ret {| HeaderCID := header_model ipldPayload headerCid; TransactionCIDs := transactionCids |}.

(** ** Lemmas: what a successful publication returns *)

Definition same_tx (m t : TxModelWithInsAndOuts) (cid : string) : Prop :=
  m_Tx t = tx_row (m_Tx (with_CID m cid)) 0 0 ∧ m_TxInputs t = m_TxInputs m ∧ m_TxOutputs t = m_TxOutputs m.

Record btc_published (p : ConvertedPayload) (h : Node) (ns : list Node) (ts : list BtcTxTrie) (cids : CIDPayload)
    : Prop := {
  bp_header : HeaderCID cids = header_model p (Cid h);
  bp_length : length (TransactionCIDs cids) = length ns;
  bp_txs : ∀ i n, ns !! i = Some n → ∃ m t, p_TxMetaData p !! i = Some m ∧
    TransactionCIDs cids !! i = Some t ∧ same_tx m t (Cid n);
  bp_trie : Forall (λ t, ∃ n, trie_Node t = Ok n) ts
}.

Lemma btc_ipfs_Publish_Ok p d cids d' : Publish p d = (Ok cids, d') →
  ∃ h ns ts, FromHeaderAndTxs (Header (p_BlockPayload p)) (Txs (p_BlockPayload p)) = Ok (h, ns, ts) ∧
    btc_published p h ns ts cids.
Proof.
  intros ([[h ns] ts] & d1 & Hns & (hc & d2 & ->%DagPut_Ok & (cs & d3 & Hcs & [= <- _])%pub_bind_Ok)%pub_bind_Ok)%pub_bind_Ok.
  unfold pub_lift in Hns. injection Hns as Hns _. exists h, ns, ts. split; [done|].
  apply pub_bind_Ok in Hcs as (cs' & d4 & Hc & (us & d5 & Ht & [= <- _])%pub_bind_Ok).
  eapply (pub_collect_Ok _ (λ i n t, ∃ m, p_TxMetaData p !! i = Some m ∧ same_tx m t (Cid n))) in Hc as [Hl Hj].
  2: { intros i n d0 t d6 (c & d7 & ->%DagPut_Ok & (m & d8 & Hm%index_of_Ok & [= <- _])%pub_bind_Ok)%pub_bind_Ok.
       exists m. done. }
  split; [done|done| |].
  - intros i n Hn. destruct (Hj i n Hn) as (t & Htx & m & Hm & Hs). by exists m, t.
  - apply (pub_collect_Forall2 _ (λ t _, ∃ n, trie_Node t = Ok n)) in Ht.
    + clear -Ht. induction Ht; by constructor.
    + intros i t d0 c d6 (n & d7 & Hn & _)%pub_bind_Ok. unfold pub_lift in Hn. injection Hn as Hn _. by exists n.
Qed.

(** ** Lemmas: the two publishers, statement by statement *)

Ltac blind_upsert :=
  intros d1 d2 q Hd; destruct d1, d2; unfold no_blocks, put_blocks, set_blocks in Hd; simpl in Hd;
  injection Hd as -> -> -> ->; simpl;
  match goal with |- context [upsert_rows ?n ?c ?r ?u ?g ?rows ?q] =>
    destruct (upsert_rows n c r u g rows q) as [[??]?] end; done.

Lemma btc_agree_header nodeID h : agree (indexHeaderCID nodeID h) (indexHeaderCID nodeID h).
Proof. apply agree_exec. blind_upsert. Qed.
Lemma btc_agree_tx t hid : agree (indexTransactionCID t hid) (indexTransactionCID t hid).
Proof. apply agree_exec. blind_upsert. Qed.
Lemma btc_agree_input i id : agree (indexTxInput i id) (indexTxInput i id).
Proof. apply agree_exec. blind_upsert. Qed.
Lemma btc_agree_output u id : agree (indexTxOutput u id) (indexTxOutput u id).
Proof. apply agree_exec. blind_upsert. Qed.

Lemma btc_agree_ins_outs t id : agree (index_ins_outs t id) (index_ins_outs t id).
Proof.
  apply agree_bind; [|intros []]; apply agree_for, Forall_Forall2_diag, Forall_true; intros x;
    [apply btc_agree_input|apply btc_agree_output].
Qed.

Lemma btc_agree_txs p h ns0 ts cids hid ns : btc_published p h ns0 ts cids → ∀ i, ns = drop i ns0 →
  agree (publish_txs i (p_TxMetaData p) hid ns) (indexTransactionCIDs (drop i (TransactionCIDs cids)) hid).
Proof.
  intros Hp. induction ns as [|n ns IH]; intros i Hns.
  - rewrite drop_ge; [apply agree_ret|]. rewrite (bp_length _ _ _ _ _ Hp).
    symmetry in Hns. by apply drop_nil_inv in Hns.
  - assert (Hn : ns0 !! i = Some n) by (rewrite <- (Nat.add_0_r i), <- lookup_drop, <- Hns; done).
    destruct (bp_txs _ _ _ _ _ Hp i n Hn) as (m & t & Hm & Ht & Hrow & Hins & Houts).
    rewrite (drop_S _ _ _ Hn) in Hns. injection Hns as Hns. rewrite (drop_S _ _ _ Ht).
    unfold indexTransactionCIDs. cbn [db_for publish_txs].
    eapply agree_skip; [apply skips_shadow, skips_PublishIPLD|].
    eapply agree_skip; [by apply skips_index|]. cbn zeta.
    intros s1 s2 Hs. rewrite bind_assoc. revert s1 s2 Hs.
    apply (agree_bind (A := Z)).
    { apply agree_shadow. unfold indexTransactionCID. rewrite Hrow.
      apply (btc_agree_tx (with_CID m (Cid n)) hid). }
    intros txID. apply agree_bind.
    { apply agree_shadow. unfold index_ins_outs. rewrite Hins, Houts. apply (btc_agree_ins_outs (with_CID m (Cid n))). }
    intros _. by apply IH.
Qed.

(** Publishing a Bitcoin block through the IPFS node and indexing the
    returned CIDs stores exactly the rows, ids and sequences that the
    single-transaction publisher stores. *)
Theorem btc_publishers_agree nodeID p d cids d' s :
  Publish p d = (Ok cids, d') →
  let '(r1, s1) := BtcDB.Publish nodeID p no_faults s in
  let '(r2, s2) := BtcDB.Index nodeID cids no_faults s in
  r1 = DOk tt ∧ r2 = DOk tt ∧ seqs s1 = seqs s2 ∧ no_blocks (tables s1) = no_blocks (tables s2).
Proof.
  intros Hpub. destruct (btc_ipfs_Publish_Ok p d cids d' Hpub) as (h & ns & ts & Hns & Hp).
  unfold BtcDB.Publish, db_bind, db_lift. rewrite Hns. apply agree_transact.
  unfold Publish_body, Index_body.
  eapply agree_skip.
  { apply (skips_for_In _ ts). intros t Ht.
    destruct (proj1 (Forall_forall _ _) (bp_trie _ _ _ _ _ Hp) t Ht) as [n Hn].
    eapply skips_bind; [by apply skips_lift|apply skips_shadow, skips_PublishIPLD]. }
  eapply agree_skip; [apply skips_shadow, skips_PublishIPLD|].
  rewrite (bp_header _ _ _ _ _ Hp). apply agree_bind; [apply btc_agree_header|]. intros hid.
  apply (btc_agree_txs p h ns ts cids hid ns Hp 0). by rewrite drop_0.
Qed.

End Ipfs.

(** ** Witnesses *)

Section Witnesses.
#[local] Existing Instance BtcIpld.Concrete.btc.
#[local] Existing Instance BtcIpld.Concrete.cidlib.
#[local] Existing Instance BtcIpld.Concrete.multihash.

(** A service that counts its nodes and reports the second as a duplicate. *)
#[local] Instance ex_dag : DagService := {|
  Dag := nat;
  dag_Add := λ _ n, (if (n =? 1)%nat then Err (Driver duplicateKeyErrorString) else Ok tt, S n)
|}.

Definition ex_dag0 : @Dag ex_dag := 0%nat.

Definition ex_published : result CIDPayload := (Publish ex_converted ex_dag0).1.

Lemma btc_publishers_agree_witness :
  ∃ cids, ex_published = Ok cids ∧ length (TransactionCIDs cids) = 3%nat ∧
  let '(r1, s1) := BtcDB.Publish 1 ex_converted no_faults ex_session in
  let '(r2, s2) := BtcDB.Index 1 cids no_faults ex_session in
  r1 = DOk tt ∧ r2 = DOk tt ∧ seqs s1 = seqs s2 ∧ no_blocks (tables s1) = no_blocks (tables s2).
Proof.
  destruct ex_published as [cids|e|w] eqn:E; [|vm_compute in E; discriminate E..].
  exists cids. split; [reflexivity|]. split; [vm_compute in E; injection E as <-; reflexivity|].
  apply (btc_publishers_agree 1 ex_converted ex_dag0 cids (Publish ex_converted ex_dag0).2 ex_session).
  rewrite <- E. unfold ex_published. destruct (Publish ex_converted ex_dag0); reflexivity.
Defined.

End Witnesses.
