(* ===== verification/BtcCleaner.v ===== *)
(** * Cleaning the btc tables (pkg/super_node/btc/cleaner.go)

    Deleting a header deletes its transactions, and deleting a transaction its
    inputs and outputs (ON DELETE CASCADE in the migrations). *)

From S2P Require Import Prelude GoInt ChainTypes Geth Sql Blocks Cleaning BtcModel BtcDB.

Definition between (r : rng) (h : HeaderModel) : Prop := r.1 ≤ h_BlockNumber h ≤ r.2.
#[export] Instance between_dec r h : Decision (between r h).
Proof. unfold between. apply _. Defined.

Definition header_ids (r : rng) (d : BtcDB) : list Z := map h_ID (filter (between r) (header_cids d)).
Definition tx_ids (hids : list Z) (d : BtcDB) : list Z :=
  map t_ID (filter (λ t, t_HeaderID t ∈ hids) (transaction_cids d)).

(** ** Deletions with their cascades *)

Definition delete_txs (hids : list Z) (d : BtcDB) : BtcDB :=
  let gone := tx_ids hids d in
  set_outputs (filter (λ u, o_TxID u ∉ gone) (tx_outputs d))
    (set_inputs (filter (λ i, i_TxID i ∉ gone) (tx_inputs d))
      (set_transactions (filter (λ t, t_HeaderID t ∉ hids) (transaction_cids d)) d)).

Definition delete_headers (r : rng) (d : BtcDB) : BtcDB :=
  set_headers (filter (λ h, ¬ between r h) (header_cids d)) (delete_txs (header_ids r d) d).

Definition drop_tx_iplds (r : rng) (d : BtcDB) : BtcDB :=
  delete_blocks (map t_CID (filter (λ t, t_HeaderID t ∈ header_ids r d) (transaction_cids d))) d.
Definition drop_header_iplds (r : rng) (d : BtcDB) : BtcDB :=
  delete_blocks (map h_CID (filter (between r) (header_cids d))) d.

(** ** The statements *)

Definition cleanTransactionIPLDs (r : rng) : DB BtcDB unit := exec_rng r (drop_tx_iplds r).
Definition cleanTransactionMetaData (r : rng) : DB BtcDB unit :=
  exec_rng r (λ d, delete_txs (header_ids r d) d).
Definition cleanHeaderIPLDs (r : rng) : DB BtcDB unit := exec_rng r (drop_header_iplds r).
Definition cleanHeaderMetaData (r : rng) : DB BtcDB unit := exec_rng r (delete_headers r).

Definition cleanFull (r : rng) : DB BtcDB unit :=
  cleanTransactionIPLDs r ;;; cleanHeaderIPLDs r ;;; cleanHeaderMetaData r.

Definition err_type (t : DataType) : error :=
  Errorf ("btc cleaner unrecognized type: " +:+ DataType_String t).

Definition clean (r : rng) (t : DataType) : DB BtcDB unit :=
  match t with
  | Full | Headers => cleanFull r
  | Transactions => cleanTransactionIPLDs r ;;; cleanTransactionMetaData r
  | _ => db_fail (err_type t)
  end.

Definition vacuumHeaders : DB BtcDB unit := vacuum "btc.header_cids".
Definition vacuumTxs : DB BtcDB unit := vacuum "btc.transaction_cids".
Definition vacuumTxInputs : DB BtcDB unit := vacuum "btc.tx_inputs".
Definition vacuumTxOutputs : DB BtcDB unit := vacuum "btc.tx_outputs".
Definition vacuumIPLDs : DB BtcDB unit := vacuum "public.blocks".

Definition vacuumAnalyze (t : DataType) : DB BtcDB unit :=
  match t with
  | Full | Headers => vacuumHeaders ;;; vacuumTxs ;;; vacuumTxInputs ;;; vacuumTxOutputs ;;; vacuumIPLDs
  | Transactions => vacuumTxs ;;; vacuumTxInputs ;;; vacuumTxOutputs ;;; vacuumIPLDs
  | _ => db_fail (err_type t)
  end.

Definition Clean (rngs : list rng) (t : DataType) : DB BtcDB unit :=
  transact (db_for (λ r, clean r t) rngs) ;;;
  vacuumAnalyze t.

Definition reset_header (h : HeaderModel) : HeaderModel := {|
  h_ID := h_ID h; h_BlockNumber := h_BlockNumber h; h_BlockHash := h_BlockHash h;
  h_ParentHash := h_ParentHash h; h_CID := h_CID h; h_Timestamp := h_Timestamp h; h_Bits := h_Bits h;
  h_NodeID := h_NodeID h; h_TimesValidated := 0 |}.

Definition reset_in (r : rng) (d : BtcDB) : BtcDB :=
  set_headers (map (λ h, if decide (between r h) then reset_header h else h) (header_cids d)) d.

Definition ResetValidation (rngs : list rng) : DB BtcDB unit :=
  transact (db_for (λ r, exec_rng r (reset_in r)) rngs).

(** ** Lemmas: the effect of a cleaning transaction *)

Definition clean_tables (t : DataType) (r : rng) (d : BtcDB) : BtcDB :=
  match t with
  | Full | Headers => delete_headers r (drop_header_iplds r (drop_tx_iplds r d))
  | Transactions => (λ d, delete_txs (header_ids r d) d) (drop_tx_iplds r d)
  | _ => d
  end.

Definition supported (t : DataType) : bool :=
  match t with Full | Headers | Transactions => true | _ => false end.

#[local] Ltac acts_seq :=
  repeat first [ apply exec_rng_acts
               | refine (acts_bind _ _ _ _ (exec_rng_acts _ _) _); intros [] ].

Lemma btc_clean_acts t r : acts (clean r t) (clean_tables t r).
Proof. destruct t; unfold clean, cleanFull, clean_tables; try acts_seq; intros d0; apply fail_ensures. Qed.

Lemma btc_vacuum_quiet (t : DataType) : quiet (vacuumAnalyze t).
Proof. destruct t; solve_quiet. Qed.

Lemma btc_Clean_tables rngs t o s :
  let '(r, s') := Clean rngs t o s in
  let cleaned := foldl (λ d r, clean_tables t r d) (tables s) rngs in
  (is_DOk r = true → tables s' = cleaned) ∧
  (is_DOk r = false → tables s' = tables s ∨ tables s' = cleaned).
Proof.
  exact (transact_then_quiet _ _ _ o s (acts_for _ (clean_tables t) rngs (btc_clean_acts t)) (btc_vacuum_quiet t)).
Qed.

(** ** What [Clean] removes *)

Definition in_ranges (rngs : list rng) (h : HeaderModel) : Prop := Exists (λ r, between r h) rngs.

Definition header_ids_in (rngs : list rng) (d : BtcDB) : list Z :=
  map h_ID (filter (in_ranges rngs) (header_cids d)).

Definition covers_headers (t : DataType) : bool :=
  match t with Full | Headers => true | _ => false end.

(** [d'] is [d] without the rows of type [t] below a header in the ranges. *)
Record btc_cleaned (t : DataType) (rngs : list rng) (d d' : BtcDB) : Prop := {
  cl_headers : header_cids d' = only_if (covers_headers t) (λ h, ¬ in_ranges rngs h) (header_cids d);
  cl_txs : transaction_cids d' =
    only_if (supported t) (λ x, t_HeaderID x ∉ header_ids_in rngs d) (transaction_cids d);
  cl_inputs : tx_inputs d' =
    only_if (supported t) (λ i, i_TxID i ∉ tx_ids (header_ids_in rngs d) d) (tx_inputs d);
  cl_outputs : tx_outputs d' =
    only_if (supported t) (λ u, o_TxID u ∉ tx_ids (header_ids_in rngs d) d) (tx_outputs d)
}.

Lemma elem_of_btc_header_ids_in rngs d x :
  x ∈ header_ids_in rngs d ↔ ∃ h, h ∈ header_cids d ∧ in_ranges rngs h ∧ h_ID h = x.
Proof.
  unfold header_ids_in. rewrite list_elem_of_fmap. setoid_rewrite list_elem_of_filter. naive_solver.
Qed.

Lemma elem_of_btc_tx_ids hids d x :
  x ∈ tx_ids hids d ↔ ∃ t, t ∈ transaction_cids d ∧ t_HeaderID t ∈ hids ∧ t_ID t = x.
Proof.
  unfold tx_ids. rewrite list_elem_of_fmap. setoid_rewrite list_elem_of_filter. naive_solver.
Qed.

Lemma btc_in_ranges_cons r rngs h : in_ranges (r :: rngs) h ↔ between r h ∨ in_ranges rngs h.
Proof. apply Exists_cons. Qed.

Lemma btc_in_ranges_nil h : ¬ in_ranges [] h.
Proof. intros Hn. inversion Hn. Qed.

Section Compose.
Context (t : DataType) (r : rng) (rngs : list rng) (d d1 : BtcDB).
Hypothesis H1 : btc_cleaned t [r] d d1.

Lemma btc_header_ids_compose x :
  x ∈ header_ids_in (r :: rngs) d ↔ x ∈ header_ids_in [r] d ∨ x ∈ header_ids_in rngs d1.
Proof.
  rewrite !elem_of_btc_header_ids_in, (cl_headers _ _ _ _ H1).
  setoid_rewrite elem_of_only_if. setoid_rewrite btc_in_ranges_cons.
  pose proof btc_in_ranges_nil. split.
  - intros (h & Hh & Hr & Hx). destruct (decide (between r h)); [left|right]; exists h; naive_solver.
  - naive_solver.
Qed.

Lemma btc_tx_ids_compose x :
  x ∈ tx_ids (header_ids_in (r :: rngs) d) d ↔
  x ∈ tx_ids (header_ids_in [r] d) d ∨ x ∈ tx_ids (header_ids_in rngs d1) d1.
Proof.
  rewrite !elem_of_btc_tx_ids, (cl_txs _ _ _ _ H1).
  setoid_rewrite elem_of_only_if. setoid_rewrite btc_header_ids_compose. split.
  - intros (h & Hh & Hr & Hx). destruct (decide (t_HeaderID h ∈ header_ids_in [r] d)); naive_solver.
  - naive_solver.
Qed.

Lemma btc_cleaned_cons d2 : btc_cleaned t rngs d1 d2 → btc_cleaned t (r :: rngs) d d2.
Proof.
  intros H2. pose proof btc_header_ids_compose. pose proof btc_tx_ids_compose.
  destruct H1 as [A1 A2 A3 A4], H2 as [B1 B2 B3 B4]. split.
  - rewrite B1. eapply only_if_only_if; [apply A1|]. intros h. rewrite !btc_in_ranges_cons.
    pose proof (btc_in_ranges_nil h). tauto.
  - rewrite B2. eapply only_if_only_if; [apply A2|]. naive_solver.
  - rewrite B3. eapply only_if_only_if; [apply A3|]. naive_solver.
  - rewrite B4. eapply only_if_only_if; [apply A4|]. naive_solver.
Qed.

End Compose.

Lemma btc_cleaned_nil t d : btc_cleaned t [] d d.
Proof.
  pose proof btc_in_ranges_nil as Hno.
  assert (Hids : ∀ x, x ∉ header_ids_in [] d)
    by (intros x (h & _ & Hh & _)%elem_of_btc_header_ids_in; by apply (Hno h)).
  split; symmetry; apply only_if_true; auto;
    intros x Hx; apply elem_of_btc_tx_ids in Hx as (? & _ & Hx & _); by apply Hids in Hx.
Qed.

Lemma btc_header_ids_in_one r d : header_ids_in [r] d = header_ids r d.
Proof.
  unfold header_ids_in, header_ids. f_equal. apply list_filter_iff. intros h.
  unfold in_ranges. rewrite Exists_cons, Exists_nil. tauto.
Qed.

Lemma btc_clean_tables_cleaned t r d : btc_cleaned t [r] d (clean_tables t r d).
Proof.
  assert (Hf : filter (λ h, ¬ in_ranges [r] h) (header_cids d) =
               filter (λ h, ¬ between r h) (header_cids d)).
  { apply list_filter_iff. intros h. unfold in_ranges. rewrite Exists_cons, Exists_nil. tauto. }
  destruct t; split; rewrite ?btc_header_ids_in_one; simpl; rewrite ?Hf; reflexivity.
Qed.

Lemma btc_clean_all_cleaned t rngs : ∀ d, btc_cleaned t rngs d (foldl (λ d r, clean_tables t r d) d rngs).
Proof.
  induction rngs as [|r rngs IH]; intros d; simpl; [apply btc_cleaned_nil|].
  eapply btc_cleaned_cons; [apply btc_clean_tables_cleaned|apply IH].
Qed.

Lemma btc_cleaned_wf t rngs d d' q : btc_wf d q → btc_cleaned t rngs d d' → btc_wf d' q.
Proof.
  intros [???? F1 F2 F3] [C1 C2 C3 C4].
  assert (Hh : ∀ x h, x ∉ header_ids_in rngs d → h ∈ header_cids d → h_ID h = x → ¬ in_ranges rngs h).
  { intros x h Hx Hin Heq Hr. apply Hx, elem_of_btc_header_ids_in. eauto. }
  assert (Ht : ∀ x y, x ∉ tx_ids (header_ids_in rngs d) d → y ∈ transaction_cids d → t_ID y = x →
    t_HeaderID y ∉ header_ids_in rngs d).
  { intros x y Hx Hin Heq Hr. apply Hx, elem_of_btc_tx_ids. eauto. }
  split; rewrite ?C1, ?C2, ?C3, ?C4; eauto using table_ok_only_if;
    (apply fk_only_if; [by destruct t|eauto|done]).
Qed.

(** ** Properties *)

(** [Clean] on the btc tables removes exactly the rows of the data type
    below the headers in the ranges, keeps the schema well-formed, and on an
    error removed nothing or (when only the VACUUM failed) everything; a data
    type that Bitcoin does not have is refused. *)
Theorem btc_Clean_exact rngs t o s :
  btc_wf (tables s) (seqs s) →
  let '(r, s') := Clean rngs t o s in
  (btc_cleaned t rngs (tables s) (tables s') ∨ is_DOk r = false ∧ tables s' = tables s) ∧
  btc_wf (tables s') (seqs s) ∧
  (supported t = false → is_DOk r = false ∧ tables s' = tables s).
Proof.
  intros Hwf. pose proof (btc_Clean_tables rngs t o s) as Ht.
  pose proof (btc_clean_all_cleaned t rngs (tables s)) as Hc.
  assert (Hsup : supported t = false → is_DOk (Clean rngs t o s).1 = false).
  { unfold Clean, db_bind. destruct (transact _ o s) as [[a|b e|w] s1]; [|done..]. by destruct t. }
  assert (Hid : supported t = false → foldl (λ d r, clean_tables t r d) (tables s) rngs = tables s).
  { clear Ht Hc Hsup. intros Hs. generalize (tables s). induction rngs as [|x l IH]; intros d; simpl; [done|].
    assert (clean_tables t x d = d) as -> by by destruct t. apply IH. }
  destruct (Clean rngs t o s) as [r s']. simpl in Hsup. destruct Ht as [Ht1 Ht2].
  assert (Hcl : btc_cleaned t rngs (tables s) (tables s') ∨ is_DOk r = false ∧ tables s' = tables s).
  { destruct (is_DOk r); [left; by rewrite Ht1|]. destruct (Ht2 eq_refl) as [->| ->]; auto. }
  split_and!; [done| |].
  - destruct Hcl as [Hcl|[_ ->]]; [by eapply btc_cleaned_wf|done].
  - intros Hs. split; [auto|]. rewrite (Hsup Hs) in Ht2. destruct (Ht2 eq_refl) as [->|E]; [done|].
    by rewrite E, Hid.
Qed.

(** A database with two blocks of one transaction each. *)
Definition ex_two : session BtcDB := (Index 1 (ex_cids 6 "six") no_faults
  (Index 1 (mkCIDPayload (mkHeaderModel 0 5 "five" "" "cid" 0 0 0 0) [ex_tx "c"]) no_faults ex_session).2).2.

Lemma btc_Clean_exact_witness :
  map t_TxHash (transaction_cids (tables (Clean [(5, 5)] Transactions no_faults ex_two).2)) = ["a"; "b"] ∧
  let '(r, s') := Clean [(5, 5)] Transactions no_faults ex_two in
  (btc_cleaned Transactions [(5, 5)] (tables ex_two) (tables s') ∨ is_DOk r = false ∧ tables s' = tables ex_two) ∧
  btc_wf (tables s') (seqs ex_two) ∧
  (supported Transactions = false → is_DOk r = false ∧ tables s' = tables ex_two).
Proof.
  split; [vm_compute; reflexivity|].
  apply (btc_Clean_exact [(5, 5)] Transactions no_faults ex_two).
  split; unfold table_ok; split_and?; try (apply (bool_decide_unpack _); vm_compute; exact I).
Defined.

(** ** ResetValidation *)

Lemma btc_reset_all rngs : ∀ d,
  foldl (λ d r, reset_in r d) d rngs =
  set_headers (map (λ h, if decide (in_ranges rngs h) then reset_header h else h) (header_cids d)) d.
Proof.
  induction rngs as [|r rngs IH]; intros d; cbn [foldl].
  - destruct d as [hs ? ? ? ?]; unfold set_headers; cbn. f_equal. rewrite <- (map_id hs) at 1.
    apply map_ext. intros h. pose proof (btc_in_ranges_nil h). by destruct (decide (in_ranges [] h)).
  - rewrite IH. destruct d; unfold reset_in, set_headers; simpl. f_equal. rewrite map_map.
    apply map_ext. intros h. pose proof (btc_in_ranges_cons r rngs h) as Hin.
    assert (Hsame : in_ranges rngs (reset_header h) ↔ in_ranges rngs h) by done.
    destruct (decide (between r h)); repeat case_decide; naive_solver.
Qed.

(** [ResetValidation] sets the validation count of exactly the headers in the
    ranges to zero and changes nothing else; on an error it changes nothing. *)
Theorem btc_ResetValidation_exact rngs o s :
  let '(r, s') := ResetValidation rngs o s in
  tables s' = (if is_DOk r then
    set_headers (map (λ h, if decide (in_ranges rngs h) then reset_header h else h)
      (header_cids (tables s))) (tables s)
    else tables s).
Proof.
  unfold ResetValidation.
  pose proof (transact_acts _ _ o s (acts_for (λ r, exec_rng r (reset_in r)) (λ r, reset_in r) rngs
    (λ r, exec_rng_acts r (reset_in r)))) as Ht.
  destruct (transact _ o s) as [r s']. destruct Ht as [Ht1 Ht2].
  rewrite <- btc_reset_all. destruct (is_DOk r); auto.
Qed.
