(* ===== verification/BtcRetriever.v ===== *)
(** * The Bitcoin CID retriever (pkg/super_node/btc/cid_retriever.go)

    SELECT statements are functions of the tables, as in EthRetriever; rows come
    in any order ([RowOrder]). *)

From S2P Require Import Prelude GoInt Heights Geth Sql Queries BtcModel BtcDB.

Definition any_of (wanted : list string) (column : string) : bool := bool_decide (column ∈ wanted).
Definition overlaps (column wanted : list string) : bool :=
  existsb (λ x, bool_decide (x ∈ wanted)) column.

(** ** Conditions of the transaction query *)

(** On the columns of transaction_cids. *)
Definition tx_clause (txFilter : TxFilter) (t : TxModel) : bool :=
  (if tf_Segwit txFilter then t_SegWit t else true) &&
  (if (0 <? length (tf_WitnessHashes txFilter))%nat
   then any_of (tf_WitnessHashes txFilter) (t_WitnessHash t) else true) &&
  (if (0 <? length (tf_Indexes txFilter))%nat
   then bool_decide (t_Index t ∈ tf_Indexes txFilter) else true).

(** On the columns of tx_outputs: all on the same joined row. *)
Definition out_clause (txFilter : TxFilter) (u : TxOutput) : bool :=
  (if tf_MultiSig txFilter then 1 <? o_RequiredSigs u else true) &&
  (if (0 <? length (tf_Addresses txFilter))%nat
   then overlaps (o_Addresses u) (tf_Addresses txFilter) else true) &&
  (if (0 <? length (tf_PkScriptClasses txFilter))%nat
   then bool_decide (o_ScriptClass u ∈ tf_PkScriptClasses txFilter) else true).

(** The rows of the join transaction_cids, header_cids, tx_inputs, tx_outputs. *)
Definition join_ins_outs (d : BtcDB) : list (TxModel * HeaderModel * TxInput * TxOutput) :=
  t ← transaction_cids d; h ← header_cids d; i ← tx_inputs d; u ← tx_outputs d;
  if bool_decide (t_HeaderID t = h_ID h ∧ i_TxID i = t_ID t ∧ o_TxID u = t_ID t)
  then [(t, h, i, u)] else [].

Section Retriever.
Context `{GethCommon} `{RowOrder}.

(** ** Queries *)

Definition RetrieveHeaderCIDs (blockNumber : Z) : DB BtcDB (list HeaderModel) :=
  select_rows (λ d, filter (λ h, h_BlockNumber h = blockNumber) (header_cids d)).

Definition RetrieveHeaderCIDByHash (blockHash : bytes) : DB BtcDB HeaderModel :=
  scan_one (select (λ d, filter (λ h, h_BlockHash h = Hash_String blockHash) (header_cids d))).

Definition RetrieveTxCIDsByHeaderID (headerID : Z) : DB BtcDB (list TxModel) :=
  select_rows (λ d, filter (λ t, t_HeaderID t = headerID) (transaction_cids d)).

Definition block_numbers (d : BtcDB) : list Z := map h_BlockNumber (header_cids d).

Definition RetrieveFirstBlockNumber : DB BtcDB Z := first_height block_numbers.

Definition RetrieveLastBlockNumber : DB BtcDB Z :=
  scan_one (select_auto (λ d, take 1 (order_by Z.opp (map h_BlockNumber (header_cids d))))).

Definition select_txs (txFilter : TxFilter) (headerID : Z) (d : BtcDB) : list TxModel :=
  map (λ x, x.1.1.1) (filter (λ x, h_ID x.1.1.2 = headerID ∧ tx_clause txFilter x.1.1.1 = true ∧
    out_clause txFilter x.2 = true) (join_ins_outs d)).

Definition RetrieveTxCIDs (txFilter : TxFilter) (headerID : Z) : DB BtcDB (list TxModel) :=
  select_rows (select_txs txFilter headerID).

(** ** Retrieve *)

Definition retrieve_header (streamFilter : SubscriptionSettings) (blockNumber : Z) (header : HeaderModel)
    : DB BtcDB (CIDWrapper * bool) :=
  let hf := HeaderFilter_ streamFilter in
  txs <-- (if negb (tf_Off (TxFilter_ streamFilter))
           then RetrieveTxCIDs (TxFilter_ streamFilter) (h_ID header) else db_ret []) ;;
  let empty := hf_Off hf && negb (0 <? length txs)%nat in
  db_ret ({| w_BlockNumber := blockNumber;
             w_Header := if negb (hf_Off hf) then header else HeaderModel_zero;
             w_Transactions := txs |}, empty).

Definition Retrieve (streamFilter : SubscriptionSettings) (blockNumber : Z)
    : DB BtcDB (list CIDWrapper * bool) :=
  transact_deferred (
    headers <-- RetrieveHeaderCIDs blockNumber ;;
    cws <-- db_collect (retrieve_header streamFilter blockNumber) headers ;;
    db_ret (map fst cws, forallb snd cws)).

(** ** Whole blocks *)

Definition retrieve_block_of (headerCID : HeaderModel) : DB BtcDB (HeaderModel * list TxModel) :=
  txCIDs <-- RetrieveTxCIDsByHeaderID (h_ID headerCID) ;;
  db_ret (headerCID, txCIDs).

Definition RetrieveBlockByHash (blockHash : bytes) : DB BtcDB (HeaderModel * list TxModel) :=
  transact_deferred (
    headerCID <-- RetrieveHeaderCIDByHash blockHash ;;
    retrieve_block_of headerCID).

Definition RetrieveBlockByNumber (blockNumber : Z) : DB BtcDB (HeaderModel * list TxModel) :=
  transact_deferred (
    headerCID <-- RetrieveHeaderCIDs blockNumber ;;
    match headerCID with
    | [] => shadow (db_fail (Errorf "header cid retrieval error, no header CIDs found at block"))
    | h :: _ => retrieve_block_of h
    end).

(** ** Gaps *)

Definition below_level (validationLevel : Z) (d : BtcDB) : list Z :=
  map h_BlockNumber (filter (λ h, h_TimesValidated h < validationLevel) (header_cids d)).

Definition RetrieveGapsInData (validationLevel : Z) : DB BtcDB (list Gap) :=
  search_gaps "btc CIDRetriever RetrieveFirstBlockNumber error" RetrieveFirstBlockNumber
    block_numbers (below_level validationLevel).

End Retriever.

(** ** Lemmas: the join, counted *)

Lemma map_filter_bind {A B C} (g : B → C) (P : B → Prop) `{!∀ x, Decision (P x)} (F : A → list B) l :
  map g (filter P (l ≫= F)) = l ≫= (λ x, map g (filter P (F x))).
Proof. induction l as [|x l IH]; [done|]. by rewrite !bind_cons, filter_app, map_app, IH. Qed.

(** Rows of one table that satisfy a condition. *)
Definition count {A} (b : A → bool) (l : list A) : nat := length (filter (λ x, b x = true) l).

Lemma bind_replicate {A B} (b : A → bool) k (t : B) l :
  (l ≫= λ x, if b x then replicate k t else []) = replicate (count b l * k) t.
Proof.
  unfold count. induction l as [|x l IH]; [done|]. rewrite bind_cons, IH, filter_cons.
  destruct (b x); [rewrite decide_True by done|by rewrite decide_False by auto].
  by rewrite <- replicate_add.
Qed.

Lemma bind_if {A B} (c : bool) (F : A → list B) l :
  (l ≫= λ x, if c then F x else []) = if c then l ≫= F else [].
Proof. destruct c; [done|]. by induction l. Qed.

Lemma select_txs_leaf f hid t h i u :
  map (λ x : TxModel * HeaderModel * TxInput * TxOutput, x.1.1.1)
    (filter (λ x, h_ID x.1.1.2 = hid ∧ tx_clause f x.1.1.1 = true ∧ out_clause f x.2 = true)
      (if bool_decide (t_HeaderID t = h_ID h ∧ i_TxID i = t_ID t ∧ o_TxID u = t_ID t)
       then [(t, h, i, u)] else [])) =
  if bool_decide (t_HeaderID t = h_ID h) && (h_ID h =? hid) && tx_clause f t then
    if i_TxID i =? t_ID t then
      if (o_TxID u =? t_ID t) && out_clause f u then replicate 1 t else []
    else []
  else [].
Proof.
  case_bool_decide as Hj.
  - destruct Hj as (E1 & E2 & E3). rewrite bool_decide_eq_true_2, filter_cons, filter_nil by done. simpl.
    rewrite E2, E3, !Z.eqb_refl. simpl.
    destruct (Z.eqb_spec (h_ID h) hid), (tx_clause f t), (out_clause f u); simpl;
      first [by rewrite decide_True by done|by rewrite decide_False by naive_solver].
  - rewrite filter_nil. simpl. repeat case_match; zbool; try done. exfalso. apply Hj.
    split_and!; [by eapply bool_decide_eq_true|done|done].
Qed.

Lemma bind_ext_eq {A B} (F G : A → list B) l : (∀ x, F x = G x) → (l ≫= F) = (l ≫= G).
Proof. intros HF. induction l as [|x l IH]; [done|]. by rewrite !bind_cons, HF, IH. Qed.

(** Rows of the answer for one transaction: its inputs times its matching outputs. *)
Definition inputs_of (t : TxModel) (d : BtcDB) : nat := count (λ i, i_TxID i =? t_ID t) (tx_inputs d).
Definition outputs_of (f : TxFilter) (t : TxModel) (d : BtcDB) : nat :=
  count (λ u, (o_TxID u =? t_ID t) && out_clause f u) (tx_outputs d).

Lemma select_txs_counts f hid d :
  select_txs f hid d = (transaction_cids d ≫= λ t,
    replicate (count (λ h, bool_decide (t_HeaderID t = h_ID h) && (h_ID h =? hid) && tx_clause f t) (header_cids d)
      * (inputs_of t d * outputs_of f t d)) t).
Proof.
  unfold select_txs, join_ins_outs. rewrite map_filter_bind. apply bind_ext_eq. intros t.
  rewrite map_filter_bind, <- bind_replicate. apply bind_ext_eq. intros h.
  rewrite map_filter_bind.
  erewrite bind_ext_eq.
  2: { intros i. rewrite map_filter_bind. apply bind_ext_eq. intros u. apply select_txs_leaf. }
  simpl. erewrite (bind_ext_eq _ _ (tx_inputs d)).
  2: { intros i. rewrite bind_if. rewrite bind_if. rewrite (bind_replicate _ 1 t). reflexivity. }
  rewrite bind_if. rewrite bind_replicate. unfold inputs_of, outputs_of. by rewrite Nat.mul_1_r.
Qed.

Lemma count_unique_header hs hid (c : bool) t : NoDup (map h_ID hs) → hid ∈ map h_ID hs →
  count (λ h, bool_decide (t_HeaderID t = h_ID h) && (h_ID h =? hid) && c) hs =
  if bool_decide (t_HeaderID t = hid) && c then 1%nat else 0%nat.
Proof.
  intros Hnd Hin. unfold count.
  assert (Hz : ∀ l, hid ∉ map h_ID l →
    length (filter (λ h, bool_decide (t_HeaderID t = h_ID h) && (h_ID h =? hid) && c = true) l) = 0%nat).
  { intros l Hl. induction l as [|h l IH]; [done|]. simpl in Hl. apply not_elem_of_cons in Hl as [Hne Hl].
    rewrite filter_cons, decide_False; [by apply IH|]. destruct (Z.eqb_spec (h_ID h) hid); [done|].
    by rewrite andb_false_r. }
  induction hs as [|h hs IH]; [by apply elem_of_nil in Hin|]. simpl in Hnd, Hin.
  apply NoDup_cons in Hnd as [Hh Hnd]. rewrite filter_cons. apply elem_of_cons in Hin as [->|Hin].
  - rewrite Z.eqb_refl, andb_true_r. specialize (Hz hs Hh).
    destruct (bool_decide (t_HeaderID t = h_ID h) && c) eqn:E; [rewrite decide_True by done|rewrite decide_False by auto].
    + simpl. by rewrite Hz.
    + by rewrite Hz.
  - rewrite decide_False; [by apply IH|]. destruct (Z.eqb_spec (h_ID h) hid) as [He|]; [|by rewrite andb_false_r].
    exfalso. apply Hh. by rewrite He.
Qed.

(** The answer for a header of a well-formed database. *)
Lemma select_txs_exact f hid d q : btc_wf d q → hid ∈ map h_ID (header_cids d) →
  select_txs f hid d =
  (filter (λ t, t_HeaderID t = hid ∧ tx_clause f t = true) (transaction_cids d) ≫= λ t,
     replicate (inputs_of t d * outputs_of f t d) t).
Proof.
  intros Hwf Hin. rewrite select_txs_counts. destruct (wf_headers _ _ Hwf) as (Hnd & _ & _).
  generalize (transaction_cids d). intros l. induction l as [|t l IH]; [done|].
  rewrite bind_cons, IH, count_unique_header, filter_cons by done.
  destruct (bool_decide (t_HeaderID t = hid) && tx_clause f t) eqn:E.
  - apply andb_true_iff in E as [E1%bool_decide_eq_true E2]. rewrite decide_True by done.
    by rewrite bind_cons, Nat.mul_1_l.
  - rewrite decide_False; [done|]. intros [E1 E2]. rewrite bool_decide_eq_true_2, E2 in E by done. done.
Qed.

(** ** Properties *)

(** The transaction query answers, for a header of a well-formed database,
    with each transaction of the header that passes the segwit, witness-hash
    and index conditions once per pair of one of its inputs and one of its
    outputs that satisfies all output conditions together, in any order. *)
Theorem btc_RetrieveTxCIDs_exact `{RowOrder} f hid s q :
  aborted s = false → btc_wf (tables s) q → hid ∈ map h_ID (header_cids (tables s)) →
  ∃ ts, out_result (RetrieveTxCIDs f hid no_faults s).1 = Ok ts ∧
    ts ≡ₚ (filter (λ t, t_HeaderID t = hid ∧ tx_clause f t = true) (transaction_cids (tables s)) ≫= λ t,
      replicate (inputs_of t (tables s) * outputs_of f t (tables s)) t).
Proof.
  intros Ha Hwf Hin. unfold RetrieveTxCIDs. destruct (select_rows_evaluates (select_txs f hid) s Ha) as [-> _].
  eexists. split; [done|]. by rewrite any_order_perm, (select_txs_exact f hid _ _ Hwf Hin).
Qed.

(** On a database whose heights fit an int64 the gaps are those of the
    Ethereum retriever: exactly the heights below the last one without a
    header, and the heights below the validation level unless there is only one. *)
Theorem btc_RetrieveGapsInData_complete level s :
  aborted s = false → Forall (λ n, 0 ≤ n < 2 ^ 63) (block_numbers (tables s)) →
  let ns := block_numbers (tables s) in
  let low := below_level level (tables s) in
  match out_result (RetrieveGapsInData level no_faults s).1 with
  | Ok gaps => ns ≠ [] ∧ ∀ h, 0 ≤ h →
      in_gaps gaps h ↔
      (h ∉ ns ∧ ∃ m, m ∈ ns ∧ h < m) ∨ (h ∈ low ∧ length low ≠ 1%nat)
  | Err _ => ns = []
  | Panic _ => False
  end.
Proof.
  intros Ha Hns ns low. unfold RetrieveGapsInData, RetrieveFirstBlockNumber.
  destruct (search_gaps_evaluates "btc CIDRetriever RetrieveFirstBlockNumber error"
    block_numbers (below_level level) s Ha) as [-> _].
  apply gaps_answer_complete; [done|]. intros n (h & -> & Hh)%list_elem_of_fmap.
  apply list_elem_of_filter in Hh as [_ Hh]. by apply list_elem_of_fmap_2.
Qed.

(** ** Witnesses *)

Section Witnesses.
#[local] Existing Instance Concrete.geth.
#[local] Existing Instance newest_first.

(** A transaction with two inputs and three outputs, two of them of class 1. *)
Definition ex_tx_io : TxModelWithInsAndOuts :=
  mkTxMeta (mkTxModel 0 0 0 "a" "cid" false "")
    [mkTxInput 0 0 0 [] [] 0 ""; mkTxInput 0 0 1 [] [] 0 ""]
    [mkTxOutput 0 0 0 7 [] 1 1 []; mkTxOutput 0 0 1 7 [] 2 1 []; mkTxOutput 0 0 2 7 [] 1 1 []].

Definition ex_io : session BtcDB := (Index 1 (mkCIDPayload (mkHeaderModel 0 5 "five" "" "cid" 0 0 0 0) [ex_tx_io; ex_tx "b"])
  no_faults ex_session).2.

Definition class1 : TxFilter := {| tf_Off := false; tf_Segwit := false; tf_WitnessHashes := [];
  tf_Indexes := []; tf_PkScriptClasses := [1]; tf_MultiSig := false; tf_Addresses := [] |}.

(** The transaction is returned four times. *)
Lemma btc_RetrieveTxCIDs_exact_witness :
  ∃ ts, out_result (RetrieveTxCIDs class1 1 no_faults ex_io).1 = Ok ts ∧
    ts ≡ₚ replicate 4 (tx_row (m_Tx ex_tx_io) 1 1).
Proof.
  apply (btc_RetrieveTxCIDs_exact class1 1 ex_io (seqs ex_io)); [reflexivity| |].
  - split; unfold table_ok; split_and?; try (apply (bool_decide_unpack _); vm_compute; exact I).
  - apply (bool_decide_unpack _). vm_compute. exact I.
Defined.

Lemma btc_RetrieveGapsInData_complete_witness :
  out_result (RetrieveGapsInData 1 no_faults ex_io).1 = Ok [mkGap 0 4] ∧
  match out_result (RetrieveGapsInData 1 no_faults ex_io).1 with
  | Ok gaps => [5] ≠ [] ∧ ∀ h, 0 ≤ h →
      in_gaps gaps h ↔
      (h ∉ [5] ∧ ∃ m, m ∈ [5] ∧ h < m) ∨
      (h ∈ below_level 1 (tables ex_io) ∧ length (below_level 1 (tables ex_io)) ≠ 1%nat)
  | Err _ => [5] = []
  | Panic _ => False
  end.
Proof.
  split; [vm_compute; reflexivity|].
  apply (btc_RetrieveGapsInData_complete 1 ex_io); [reflexivity|]. repeat constructor; simpl; lia.
Defined.

End Witnesses.
