(* ===== verification/BtcFilterer.v ===== *)
(** * The Bitcoin response filterer (pkg/super_node/btc/filterer.go) and its
    agreement with the retriever *)

From S2P Require Import Prelude GoInt Geth Sql BtcModel BtcIpld BtcDB BtcRetriever.

(** ** Predicates *)

Definition checkRange (start end_ actual : Z) : bool :=
  if ((end_ <=? 0) || (end_ >=? actual)) && (start <=? actual) then true else false.

Definition checkTransaction (txMeta : TxModelWithInsAndOuts) (txFilter : TxFilter) : bool :=
  let tx := m_Tx txMeta in
  let passesSegwitFilter := negb (tf_Segwit txFilter) || (tf_Segwit txFilter && t_SegWit tx) in
  let passesMultiSigFilter :=
    if tf_MultiSig txFilter
    then existsb (λ out, o_RequiredSigs out >? 1) (m_TxOutputs txMeta)
    else true in
  let passesWitnessFilter :=
    (length (tf_WitnessHashes txFilter) =? 0)%nat
    || existsb (λ wanted, bool_decide (wanted = t_WitnessHash tx)) (tf_WitnessHashes txFilter) in
  let passesAddressFilter :=
    (length (tf_Addresses txFilter) =? 0)%nat
    || existsb (λ wanted, existsb (λ out,
         existsb (λ actual, bool_decide (wanted = actual)) (o_Addresses out)) (m_TxOutputs txMeta))
       (tf_Addresses txFilter) in
  let passesIndexFilter :=
    (length (tf_Indexes txFilter) =? 0)%nat
    || existsb (λ wanted, bool_decide (wanted = t_Index tx)) (tf_Indexes txFilter) in
  let passesPkScriptClassFilter :=
    (length (tf_PkScriptClasses txFilter) =? 0)%nat
    || existsb (λ wanted, existsb (λ out, bool_decide (o_ScriptClass out = wanted)) (m_TxOutputs txMeta))
       (tf_PkScriptClasses txFilter) in
  passesSegwitFilter && passesMultiSigFilter && passesWitnessFilter && passesAddressFilter
  && passesIndexFilter && passesPkScriptClassFilter.

Section Filterer.
Context `{BtcLib} `{CidLib}.

Definition package (codec : Z) (data : bytes) : result BlockModel :=
  cid <-! RawdataToCid codec data DBL_SHA2_256 ;; Ok (mkBlock cid data).

Definition filterHeaders (headerFilter : HeaderFilter) (payload : ConvertedPayload) : result BlockModel :=
  if negb (hf_Off headerFilter) then
    data <-! header_Serialize (Header (p_BlockPayload payload)) ;;
    package MBitcoinHeader data
  else Ok (mkBlock "" []).

(** [for i, txMeta := range payload.TxMetaData] *)
Fixpoint filterTransactions_loop (i : nat) (trxFilter : TxFilter) (txs : list Tx)
    (meta : list TxModelWithInsAndOuts) : result (list BlockModel) :=
  match meta with
  | [] => Ok []
  | txMeta :: meta =>
      if checkTransaction txMeta trxFilter then
        match txs !! i with
        | None => Panic "index out of range"
        | Some tx =>
            data <-! tx_Serialize (tx_MsgTx tx) ;;
            b <-! package MBitcoinTx data ;;
            rest <-! filterTransactions_loop (S i) trxFilter txs meta ;;
            Ok (b :: rest)
        end
      else filterTransactions_loop (S i) trxFilter txs meta
  end.

Definition filterTransactions (trxFilter : TxFilter) (payload : ConvertedPayload) : result (list BlockModel) :=
  if negb (tf_Off trxFilter)
  then filterTransactions_loop 0 trxFilter (Txs (p_BlockPayload payload)) (p_TxMetaData payload)
  else Ok [].

Definition Filter (btcFilters : SubscriptionSettings) (btcPayload : ConvertedPayload) : result IPLDs :=
  let height := BlockHeight (p_BlockPayload btcPayload) in
  if checkRange (i64 (Start btcFilters)) (i64 (End_ btcFilters)) height then
    header <-! filterHeaders (HeaderFilter_ btcFilters) btcPayload ;;
    txs <-! filterTransactions (TxFilter_ btcFilters) btcPayload ;;
    Ok {| ipld_BlockNumber := Some height; ipld_Header := header; ipld_Transactions := txs |}
  else Ok IPLDs_zero.

(** ** Lemmas *)

(** The transactions a subscription asks for, with their metadata. *)
Definition selected_txs (f : TxFilter) (p : ConvertedPayload) : list (Tx * TxModelWithInsAndOuts) :=
  if tf_Off f then [] else
  filter (λ tm, checkTransaction tm.2 f = true) (zip (Txs (p_BlockPayload p)) (p_TxMetaData p)).

Lemma filterTransactions_loop_selected f txs meta : ∀ i, (i + length meta = length txs)%nat →
  filterTransactions_loop i f txs meta =
  range_collect (λ tm, data <-! tx_Serialize (tx_MsgTx tm.1) ;; package MBitcoinTx data)
    (filter (λ tm, checkTransaction tm.2 f = true) (zip (drop i txs) meta)).
Proof.
  induction meta as [|m meta IH]; intros i Hl; simpl in *; [by destruct (drop i txs)|].
  destruct (lookup_lt_is_Some_2 txs i ltac:(lia)) as [t Ht]. rewrite Ht, (drop_S _ _ _ Ht). simpl.
  rewrite filter_cons, IH by lia. simpl.
  destruct (checkTransaction m f) eqn:E; [rewrite decide_True by done|by rewrite decide_False by auto].
  simpl. destruct (tx_Serialize (tx_MsgTx t)) as [raw| |]; simpl; [|done..].
  by destruct (package MBitcoinTx raw).
Qed.

(** Inside the range the filter answers with the height, the header
    unless it is off, and the wanted transactions in block order; outside it
    answers with the empty response, whose height is a nil pointer. *)
Theorem btc_Filter_selects sc p : length (p_TxMetaData p) = length (Txs (p_BlockPayload p)) →
  Filter sc p =
  if checkRange (i64 (Start sc)) (i64 (End_ sc)) (BlockHeight (p_BlockPayload p)) then
    header <-! filterHeaders (HeaderFilter_ sc) p ;;
    txs <-! range_collect (λ tm, data <-! tx_Serialize (tx_MsgTx tm.1) ;; package MBitcoinTx data)
      (selected_txs (TxFilter_ sc) p) ;;
    Ok (mkIPLDs (Some (BlockHeight (p_BlockPayload p))) header txs)
  else Ok IPLDs_zero.
Proof.
  intros Hl. unfold Filter, filterTransactions, selected_txs. case_match; [|done].
  destruct (tf_Off (TxFilter_ sc)); simpl; [done|].
  rewrite filterTransactions_loop_selected by lia. by rewrite drop_0.
Qed.

End Filterer.

(** ** Live and historical data

    The columns stored for a transaction of a payload, and the outputs the
    query joins. *)

(** How many of the conditions on outputs a filter has. *)
Definition output_conditions (f : TxFilter) : nat :=
  (if tf_MultiSig f then 1 else 0) + (if (0 <? length (tf_Addresses f))%nat then 1 else 0)
  + (if (0 <? length (tf_PkScriptClasses f))%nat then 1 else 0).

Lemma existsb_bool_decide_eq `{EqDecision A} (x : A) l :
  existsb (λ y, bool_decide (y = x)) l = bool_decide (x ∈ l).
Proof.
  apply eq_true_iff_eq. rewrite existsb_exists, bool_decide_eq_true. split.
  - intros (y & Hy & ->%bool_decide_eq_true). by apply list_elem_of_In.
  - intros Hx. exists x. split; [by apply list_elem_of_In|by apply bool_decide_eq_true].
Qed.

(** A list condition: absent, or some wanted value is there. *)
Lemma wanted_none_or {A} (l : list A) (b : bool) :
  ((length l =? 0)%nat || b) = (if (0 <? length l)%nat then b else true).
Proof. by destruct l. Qed.

Lemma wanted_some {A} (l : list A) (b : bool) (P : Prop) : (b = true ↔ P) →
  (if (0 <? length l)%nat then b else true) = true ↔ (l ≠ [] → P).
Proof. intros Hb. destruct l as [|x l]; simpl; [|rewrite Hb]; naive_solver. Qed.

Lemma address_some wanted outs :
  existsb (λ w, existsb (λ out, existsb (λ actual, bool_decide (w = actual)) (o_Addresses out)) outs) wanted = true ↔
  ∃ u, u ∈ outs ∧ overlaps (o_Addresses u) wanted = true.
Proof.
  unfold overlaps. setoid_rewrite existsb_exists. setoid_rewrite existsb_exists. setoid_rewrite existsb_exists.
  setoid_rewrite bool_decide_eq_true. setoid_rewrite <- list_elem_of_In. naive_solver.
Qed.

Lemma class_some wanted outs :
  existsb (λ w, existsb (λ out, bool_decide (o_ScriptClass out = w)) outs) wanted = true ↔
  ∃ u, u ∈ outs ∧ o_ScriptClass u ∈ wanted.
Proof.
  setoid_rewrite existsb_exists. setoid_rewrite existsb_exists. setoid_rewrite bool_decide_eq_true.
  setoid_rewrite <- list_elem_of_In. naive_solver.
Qed.

Lemma multisig_some outs :
  existsb (λ out, o_RequiredSigs out >? 1) outs = true ↔ ∃ u, u ∈ outs ∧ 1 < o_RequiredSigs u.
Proof.
  setoid_rewrite existsb_exists. setoid_rewrite Z.gtb_gt. setoid_rewrite <- list_elem_of_In.
  setoid_rewrite Z.gt_lt_iff. done.
Qed.

(** The live filter as conditions on the transaction and on some output each. *)
Lemma checkTransaction_clauses m f :
  checkTransaction m f = true ↔ tx_clause f (m_Tx m) = true ∧
    (tf_MultiSig f = true → ∃ u, u ∈ m_TxOutputs m ∧ 1 < o_RequiredSigs u) ∧
    (tf_Addresses f ≠ [] → ∃ u, u ∈ m_TxOutputs m ∧ overlaps (o_Addresses u) (tf_Addresses f) = true) ∧
    (tf_PkScriptClasses f ≠ [] → ∃ u, u ∈ m_TxOutputs m ∧ o_ScriptClass u ∈ tf_PkScriptClasses f).
Proof.
  unfold checkTransaction, tx_clause, any_of. rewrite !wanted_none_or, !existsb_bool_decide_eq.
  rewrite !andb_true_iff, (wanted_some _ _ _ (address_some _ _)), (wanted_some _ _ _ (class_some _ _)).
  pose proof (multisig_some (m_TxOutputs m)).
  destruct (tf_Segwit f), (tf_MultiSig f), (t_SegWit (m_Tx m)); simpl; intuition done.
Qed.

(** The query's conditions on one output. *)
Lemma out_clause_spec f u :
  out_clause f u = true ↔ (tf_MultiSig f = true → 1 < o_RequiredSigs u) ∧
    (tf_Addresses f ≠ [] → overlaps (o_Addresses u) (tf_Addresses f) = true) ∧
    (tf_PkScriptClasses f ≠ [] → o_ScriptClass u ∈ tf_PkScriptClasses f).
Proof.
  unfold out_clause. rewrite !andb_true_iff.
  rewrite (wanted_some (tf_Addresses f) _ (overlaps (o_Addresses u) (tf_Addresses f) = true)) by done.
  rewrite (wanted_some (tf_PkScriptClasses f) _ (o_ScriptClass u ∈ tf_PkScriptClasses f)) by apply bool_decide_eq_true.
  destruct (tf_MultiSig f); rewrite ?Z.ltb_lt; naive_solver.
Qed.

(** The rows of a transaction are those of its metadata. *)
Record stored_as (hid n : Z) (m : TxModelWithInsAndOuts) (d : BtcDB) : Prop := {
  sa_row : tx_row (m_Tx m) hid n ∈ transaction_cids d;
  sa_input : (∃ i, i ∈ tx_inputs d ∧ i_TxID i = n) ↔ m_TxInputs m ≠ [];
  sa_output : ∀ u, u ∈ tx_outputs d → o_TxID u = n → ∃ u0 k, u0 ∈ m_TxOutputs m ∧ u = output_row u0 n k;
  sa_outputs : ∀ u0, u0 ∈ m_TxOutputs m → ∃ k, output_row u0 n k ∈ tx_outputs d
}.

Lemma count_pos {A} (b : A → bool) l : (0 < count b l)%nat ↔ ∃ x, x ∈ l ∧ b x = true.
Proof.
  unfold count. rewrite <- (Nat.neq_0_lt_0 (length _)). split.
  - intros Hn. destruct (filter _ l) as [|x l'] eqn:E; [done|]. exists x.
    assert (Hx : x ∈ filter (λ x, b x = true) l) by (rewrite E; set_solver).
    apply list_elem_of_filter in Hx. naive_solver.
  - intros (x & Hx & Hb) Hn. apply length_zero_iff_nil in Hn.
    assert (Hf : x ∈ filter (λ x, b x = true) l) by (by apply list_elem_of_filter).
    rewrite Hn in Hf. by apply elem_of_nil in Hf.
Qed.

(** What the query returns of a transaction: it joins an input, and one output
    that meets all the conditions on outputs. *)
Lemma RetrieveTxCIDs_returns `{RowOrder} f hid n m s q :
  aborted s = false → btc_wf (tables s) q → hid ∈ map h_ID (header_cids (tables s)) →
  stored_as hid n m (tables s) →
  ∃ ts, out_result (RetrieveTxCIDs f hid no_faults s).1 = Ok ts ∧
    (tx_row (m_Tx m) hid n ∈ ts ↔ tx_clause f (m_Tx m) = true ∧ m_TxInputs m ≠ [] ∧
      ∃ u, u ∈ m_TxOutputs m ∧ out_clause f u = true).
Proof.
  intros Ha Hwf Hin [Hr Hi Ho Hos]. unfold RetrieveTxCIDs.
  destruct (select_rows_evaluates (select_txs f hid) s Ha) as [-> _]. eexists. split; [done|].
  rewrite any_order_perm, (select_txs_exact f hid _ _ Hwf Hin), list_elem_of_bind.
  assert (Hins : (0 < inputs_of (tx_row (m_Tx m) hid n) (tables s))%nat ↔ m_TxInputs m ≠ []).
  { unfold inputs_of. rewrite count_pos, <- Hi. simpl. setoid_rewrite Z.eqb_eq. done. }
  assert (Houts : (0 < outputs_of f (tx_row (m_Tx m) hid n) (tables s))%nat ↔
    ∃ u, u ∈ m_TxOutputs m ∧ out_clause f u = true).
  { unfold outputs_of. rewrite count_pos. simpl. split.
    - intros (u & Hu & [Hid%Z.eqb_eq Hc]%andb_true_iff). destruct (Ho u Hu Hid) as (u0 & k & Hu0 & ->). by exists u0.
    - intros (u0 & Hu0 & Hc). destruct (Hos u0 Hu0) as [k Hk]. exists (output_row u0 n k).
      split; [done|]. apply andb_true_iff. split; [by apply Z.eqb_eq|done]. }
  split.
  - intros (t & [<- Hne]%elem_of_replicate & [[_ Hc] _]%list_elem_of_filter).
    split; [exact Hc|]. rewrite <- Hins, <- Houts. lia.
  - intros (Hc & H1%Hins & H2%Houts). exists (tx_row (m_Tx m) hid n).
    rewrite elem_of_replicate, list_elem_of_filter. split_and!; [done|lia|done|done|done].
Qed.

(** C40: for a transaction whose rows are those of its metadata, the historical
    query of [RetrieveTxCIDs] never returns it when the live filter would drop
    it; when it has inputs and outputs the two agree as long as the filter has
    at most one condition on outputs -- with more, the live filter lets
    different outputs meet them and the query wants one output that meets all;
    and without inputs or without outputs the query never returns it. *)
Theorem btc_live_vs_historical `{RowOrder} f hid n m s q :
  aborted s = false → btc_wf (tables s) q → hid ∈ map h_ID (header_cids (tables s)) →
  stored_as hid n m (tables s) →
  ∃ ts, out_result (RetrieveTxCIDs f hid no_faults s).1 = Ok ts ∧
    let returned := tx_row (m_Tx m) hid n ∈ ts in
    (returned → checkTransaction m f = true) ∧
    (m_TxInputs m ≠ [] → m_TxOutputs m ≠ [] → (output_conditions f ≤ 1)%nat →
       (returned ↔ checkTransaction m f = true)) ∧
    (m_TxInputs m ≠ [] → checkTransaction m f = true →
       (returned ↔ ∃ u, u ∈ m_TxOutputs m ∧ out_clause f u = true)) ∧
    (m_TxInputs m = [] ∨ m_TxOutputs m = [] → ¬ returned).
Proof.
  intros Ha Hwf Hin Hst. destruct (RetrieveTxCIDs_returns f hid n m s q Ha Hwf Hin Hst) as (ts & E & Hret).
  exists ts. split; [done|]. intros returned. unfold returned. rewrite Hret, checkTransaction_clauses.
  setoid_rewrite out_clause_spec. split_and!.
  - naive_solver.
  - intros Hi Ho Hc. unfold output_conditions in Hc. destruct (m_TxOutputs m) as [|u0 us] eqn:Eo; [done|].
    destruct (tf_MultiSig f), (tf_Addresses f) as [|a l], (tf_PkScriptClasses f) as [|c k];
      simpl in Hc; try lia; (split; [naive_solver|intros (Ht & H1 & H2 & H3)]);
      split_and!; try done.
    + destruct H1 as (u & Hu & H1); [done|]. exists u. naive_solver.
    + exists u0. set_solver.
    + destruct H3 as (u & Hu & H3); [done|]. exists u. naive_solver.
    + destruct H2 as (u & Hu & H2); [done|]. exists u. naive_solver.
  - naive_solver.
  - intros [E'|E']; rewrite E'; [naive_solver|]. intros (_ & _ & u & Hu & _). by apply elem_of_nil in Hu.
Qed.

(** ** Witnesses *)

Section Witnesses.
#[local] Existing Instance BtcIpld.Concrete.btc.
#[local] Existing Instance BtcIpld.Concrete.cidlib.
#[local] Existing Instance newest_first.

Definition ex_sub (start : Z) (f : TxFilter) : SubscriptionSettings := {|
  BackFill := true; BackFillOnly := false; Start := start; End_ := 0;
  HeaderFilter_ := {| hf_Off := true |}; TxFilter_ := f |}.

Lemma btc_Filter_selects_witness :
  is_ok (Filter (ex_sub 3 class1) ex_converted) = true ∧
  ∃ bs, Filter (ex_sub 3 (mkTxFilter false false [] [1] [] false [])) ex_converted =
    Ok (mkIPLDs (Some 9) (mkBlock "" []) bs) ∧ map Data bs = [[8; 0; 8; 2]].
Proof.
  split; [vm_compute; reflexivity|].
  rewrite (btc_Filter_selects (ex_sub 3 (mkTxFilter false false [] [1] [] false [])) ex_converted eq_refl).
  eexists. split; [vm_compute; reflexivity|vm_compute; reflexivity].
Defined.

Lemma btc_live_vs_historical_witness :
  ∃ ts, out_result (RetrieveTxCIDs class1 1 no_faults ex_io).1 = Ok ts ∧
    let returned := tx_row (m_Tx ex_tx_io) 1 1 ∈ ts in
    (returned → checkTransaction ex_tx_io class1 = true) ∧
    (m_TxInputs ex_tx_io ≠ [] → m_TxOutputs ex_tx_io ≠ [] → (output_conditions class1 ≤ 1)%nat →
       (returned ↔ checkTransaction ex_tx_io class1 = true)) ∧
    (m_TxInputs ex_tx_io ≠ [] → checkTransaction ex_tx_io class1 = true →
       (returned ↔ ∃ u, u ∈ m_TxOutputs ex_tx_io ∧ out_clause class1 u = true)) ∧
    (m_TxInputs ex_tx_io = [] ∨ m_TxOutputs ex_tx_io = [] → ¬ returned).
Proof.
  apply (btc_live_vs_historical class1 1 1 ex_tx_io ex_io (seqs ex_io)); [reflexivity| | |].
  - split; unfold table_ok; split_and?; try (apply (bool_decide_unpack _); vm_compute; exact I).
  - apply (bool_decide_unpack _). vm_compute. exact I.
  - split.
    + apply (list_elem_of_lookup_2 _ 0%nat). vm_compute. reflexivity.
    + split; [discriminate|]. intros _.
      eexists. split; [apply (list_elem_of_lookup_2 _ 0%nat); vm_compute; reflexivity|reflexivity].
    + intros u Hu Hid. change (tx_outputs (tables ex_io)) with
        [mkTxOutput 1 1 0 7 [] 1 1 []; mkTxOutput 2 1 1 7 [] 2 1 []; mkTxOutput 3 1 2 7 [] 1 1 []; mkTxOutput 4 2 0 7 [] 0 1 []] in Hu.
      repeat (apply elem_of_cons in Hu as [->|Hu]; [|]); [..|by apply elem_of_nil in Hu]; try discriminate Hid.
      * exists (mkTxOutput 0 0 0 7 [] 1 1 []), 1. split; [set_solver|done].
      * exists (mkTxOutput 0 0 1 7 [] 2 1 []), 2. split; [set_solver|done].
      * exists (mkTxOutput 0 0 2 7 [] 1 1 []), 3. split; [set_solver|done].
    + intros u0 Hu0. simpl in Hu0.
      repeat (apply elem_of_cons in Hu0 as [->|Hu0]; [|]); [..|by apply elem_of_nil in Hu0].
      * exists 1. apply (list_elem_of_lookup_2 _ 0%nat). vm_compute. reflexivity.
      * exists 2. apply (list_elem_of_lookup_2 _ 1%nat). vm_compute. reflexivity.
      * exists 3. apply (list_elem_of_lookup_2 _ 2%nat). vm_compute. reflexivity.
Defined.

End Witnesses.
