(* ===== verification/BtcFetcher.v ===== *)
(** * Fetching Bitcoin IPLDs (pkg/super_node/btc: ipld_pg_fetcher.go,
    ipld_fetcher.go)

    Module [Pg] reads public.blocks in a transaction, module [Ipfs] asks a
    block service. *)

From S2P Require Import Prelude GoInt Geth Sql Queries Blocks BtcModel BtcDB BtcRetriever.

Module Pg.
Section Fetcher.
Context `{CidLib}.

Definition FetchHeader (c : HeaderModel) : DB BtcDB BlockModel := fetch_model (h_CID c).
Definition FetchTrxs (cids : list TxModel) : DB BtcDB (list BlockModel) :=
  db_collect (λ c, fetch_model (t_CID c)) cids.

(** The header is fetched also when the wrapper has none. *)
Definition Fetch (cidWrapper : CIDWrapper) : DB BtcDB IPLDs :=
  transact_deferred (
    header <-- wrap_err (FetchHeader (w_Header cidWrapper)) "btc pg fetcher: header fetching error" ;;
    txs <-- wrap_err (FetchTrxs (w_Transactions cidWrapper)) "btc pg fetcher: transaction fetching error" ;;
    db_ret (mkIPLDs (Some (w_BlockNumber cidWrapper)) header txs)).

End Fetcher.
End Pg.

Module Ipfs.
Section Fetcher.
Context `{CidLib}.
(** The block service: a single block, or a batch in some order. *)
Variable GetBlock : string → result BlockModel.
Variable GetBlocks : list string → list BlockModel.

Definition errUnexpectedNumberOfIPLDs : error :=
  Sentinel "ipfs batch fetch returned unexpected number of IPLDs".

Definition fetch (c : string) : result BlockModel := GetBlock c.
Definition fetchBatch (cids : list string) : list BlockModel := GetBlocks cids.

Definition FetchHeader (c : HeaderModel) : result BlockModel :=
  dc <-! cid_Decode (h_CID c) ;; fetch dc.

Definition FetchTrxs (cids : list TxModel) : result (list BlockModel) :=
  trxCids <-! range_collect (λ c, cid_Decode (t_CID c)) cids ;;
  let trxs := fetchBatch trxCids in
  if (length trxs =? length trxCids)%nat then Ok trxs else Err errUnexpectedNumberOfIPLDs.

Definition Fetch (cidWrapper : CIDWrapper) : result IPLDs :=
  header <-! FetchHeader (w_Header cidWrapper) ;;
  txs <-! FetchTrxs (w_Transactions cidWrapper) ;;
  Ok (mkIPLDs (Some (w_BlockNumber cidWrapper)) header txs).

End Fetcher.
End Ipfs.

(** ** What [Fetch] returns *)

Section Properties.
Context `{CidLib}.

Definition wrapper_cids (w : CIDWrapper) : list string := h_CID (w_Header w) :: map t_CID (w_Transactions w).
Definition iplds_blocks (i : IPLDs) : list BlockModel := ipld_Header i :: ipld_Transactions i.

Definition fetched (w : CIDWrapper) (d : BtcDB) : result IPLDs :=
  header <-! wrapped "btc pg fetcher: header fetching error" (block_of d (h_CID (w_Header w))) ;;
  txs <-! wrapped "btc pg fetcher: transaction fetching error"
    (range_collect (λ c, block_of d (t_CID c)) (w_Transactions w)) ;;
  Ok (mkIPLDs (Some (w_BlockNumber w)) header txs).

Lemma btc_Fetch_evaluates w : evaluates (Pg.Fetch w) (fetched w).
Proof.
  apply transact_deferred_evaluates. unfold fetched.
  refine (bind_evaluates _ _ _ _ (wrapped_evaluates _ _ _ (fetch_model_evaluates _)) _). intros h.
  refine (bind_evaluates _ _ _ _ (wrapped_evaluates _ _ _
    (collect_evaluates _ (λ c d, block_of d _) _ (λ c, fetch_model_evaluates _))) _). intros ts.
  refine (ret_evaluates _).
Qed.

Lemma btc_fetched_fails w d :
  is_ok (fetched w d) = false → ∃ c, c ∈ wrapper_cids w ∧ is_ok (block_of d c) = false.
Proof.
  unfold fetched, wrapper_cids. intros [Hf|(h & _ & Hf)]%wrapped_rbind_not_ok; [exists (h_CID (w_Header w)); set_solver|].
  apply wrapped_rbind_not_ok in Hf as [(x & Hx & Hf)%range_collect_fails|(ts & _ & Hf)]; [|done].
  exists (t_CID x). set_solver.
Qed.

Lemma fetched_without_header w d :
  h_CID (w_Header w) = "" → is_ok (cid_Decode "") = false → is_ok (fetched w d) = false.
Proof.
  intros Hc Hd. unfold fetched, block_of, MultihashKeyFromCIDString. rewrite Hc. by destruct (cid_Decode "").
Qed.

(** [Fetch] returns the block stored for every CID of the wrapper in
    order; it fails only when one of them is missing or does not decode. *)
Theorem btc_Fetch_exact w s :
  aborted s = false →
  match out_result (Pg.Fetch w no_faults s).1 with
  | Ok i => range_collect (block_of (tables s)) (wrapper_cids w) = Ok (iplds_blocks i) ∧
            ipld_BlockNumber i = Some (w_BlockNumber w)
  | _ => ∃ c, c ∈ wrapper_cids w ∧ is_ok (block_of (tables s) c) = false
  end.
Proof.
  intros Ha. destruct (btc_Fetch_evaluates w s Ha) as [-> _].
  pose proof (btc_fetched_fails w (tables s)) as Hf.
  destruct (fetched w (tables s)) as [i|e|w'] eqn:E; [|by apply Hf..].
  unfold fetched in E. apply rbind_wrapped_Ok in E as (h & Hh & (ts & Ht & [= <-])%rbind_wrapped_Ok).
  split; [|done]. unfold wrapper_cids, iplds_blocks. simpl. rewrite Hh. simpl.
  by rewrite range_collect_fmap, Ht.
Qed.

Context `{RowOrder}.

(** Every wrapper of a subscription without headers has the zero header. *)
Lemma Retrieve_header_off sc n : hf_Off (HeaderFilter_ sc) = true →
  returns (Retrieve sc n) (λ r, Forall (λ w, w_Header w = HeaderModel_zero) r.1).
Proof.
  intros Hoff. apply returns_transact_deferred.
  eapply returns_bind; [apply returns_any|]. intros hs _.
  eapply returns_bind; [apply (returns_collect _ (λ r, w_Header r.1 = HeaderModel_zero))|].
  - intros h. eapply returns_bind; [apply returns_any|]. intros ts _. apply returns_ret. simpl.
    by rewrite Hoff.
  - intros cws Hc. apply returns_ret. simpl. by apply Forall_fmap.
Qed.

(** When the empty CID does not decode, no wrapper retrieved for a
    subscription with the header filter off can be fetched from Postgres:
    such a subscription gets no historical data. *)
Theorem btc_header_off_no_history sc n o s cws empty s' :
  hf_Off (HeaderFilter_ sc) = true → is_ok (cid_Decode "") = false →
  Retrieve sc n o s = (DOk (cws, empty), s') →
  ∀ w s2, w ∈ cws → aborted s2 = false → is_ok (out_result (Pg.Fetch w no_faults s2).1) = false.
Proof.
  intros Hoff Hd Hr w s2 Hw Ha. apply (Retrieve_header_off sc n Hoff) in Hr. simpl in Hr.
  rewrite Forall_forall in Hr. specialize (Hr w Hw).
  destruct (btc_Fetch_evaluates w s2 Ha) as [-> _]. apply fetched_without_header; [by rewrite Hr|done].
Qed.

End Properties.

(** ** Witnesses *)

Section Witnesses.
#[local] Existing Instance Concrete.geth.
#[local] Existing Instance newest_first.

(** CIDs that do not decode when empty. *)
#[local] Instance ex_cidlib : CidLib := {|
  Prefix_Sum := λ p b, Ok (Concrete.enc b);
  cid_Decode := λ c, if bool_decide (c = "") then Err (Errorf "cid too short") else Ok c;
  CidToDsKey := λ c, String "/" c
|}.

Definition ex_blocks : session BtcDB :=
  mkSession (set_blocks {[ "/blocks/cid" := [1; 2] ]} (tables ex_io)) (seqs ex_io) false 0%nat.

Lemma btc_Fetch_exact_witness :
  let w := mkCIDWrapper 5 (mkHeaderModel 0 5 "five" "" "cid" 0 0 0 0) [mkTxModel 0 0 0 "a" "cid" false ""] in
  out_result (Pg.Fetch w no_faults ex_blocks).1 =
    Ok (mkIPLDs (Some 5) (mkBlock "cid" [1; 2]) [mkBlock "cid" [1; 2]]) ∧
  match out_result (Pg.Fetch w no_faults ex_blocks).1 with
  | Ok i => range_collect (block_of (tables ex_blocks)) (wrapper_cids w) = Ok (iplds_blocks i) ∧
            ipld_BlockNumber i = Some (w_BlockNumber w)
  | _ => ∃ c, c ∈ wrapper_cids w ∧ is_ok (block_of (tables ex_blocks) c) = false
  end.
Proof.
  intros w. split; [vm_compute; reflexivity|]. apply (btc_Fetch_exact w ex_blocks). reflexivity.
Defined.

Definition ex_no_header : SubscriptionSettings := {|
  BackFill := true; BackFillOnly := true; Start := 0; End_ := 0;
  HeaderFilter_ := {| hf_Off := true |}; TxFilter_ := class1 |}.

Lemma btc_header_off_no_history_witness :
  ∃ cws s', Retrieve ex_no_header 5 no_faults ex_blocks = (DOk (cws, false), s') ∧
    length cws = 1%nat ∧ ∀ w, w ∈ cws → is_ok (out_result (Pg.Fetch w no_faults ex_blocks).1) = false.
Proof.
  destruct (Retrieve ex_no_header 5 no_faults ex_blocks) as [r s'] eqn:E.
  assert (Hr : r = (Retrieve ex_no_header 5 no_faults ex_blocks).1) by (by rewrite E).
  vm_compute in Hr. subst r. eexists _, s'. split; [reflexivity|]. split; [reflexivity|].
  intros w Hw. apply (@btc_header_off_no_history ex_cidlib newest_first ex_no_header 5 no_faults ex_blocks _ _ s' eq_refl eq_refl E w ex_blocks Hw).
  reflexivity.
Defined.

End Witnesses.
