(* ===== verification/BtcService.v ===== *)
(** * The subscription service on the Bitcoin chain, and the converter

    The [Chain] instance built from the Bitcoin settings, payloads, IPLDs and
    filterer; what [Convert] guarantees of the payloads that the other parts
    assume. *)

From S2P Require Import Prelude GoInt ChainTypes Geth Sql BtcModel BtcIpld BtcDB BtcFilterer Service.

Section BtcService.
Context `{BtcLib} `{CidLib} `{GethCommon}.
Variable settings_rlp : SubscriptionSettings → result bytes.
Variable iplds_rlp : IPLDs → result bytes.

(** A nil payload fails the filterer's type assertion. *)
Definition Filter_interface (cfg : SubscriptionSettings) (payload : option ConvertedPayload) : result IPLDs :=
  match payload with
  | Some p => Filter cfg p
  | None => Err (Errorf "btc filterer expected payload type")
  end.

Definition btc_chain : Chain := {|
  Settings := SubscriptionSettings;
  StartingBlock := λ sc, i64 (Start sc);
  EndingBlock := λ sc, i64 (End_ sc);
  HistoricalData := BackFill;
  HistoricalDataOnly := BackFillOnly;
  Settings_ChainType := λ _, Bitcoin;
  Settings_rlp := settings_rlp;
  ConvertedData := ConvertedPayload;
  ConvertedData_Height := ConvertedPayload_Height;
  Response := IPLDs;
  Response_Height := IPLDs_Height;
  Response_rlp := iplds_rlp;
  FilterPayload := Filter_interface
|}.

#[local] Existing Instance btc_chain.

(** ** Lemmas *)

(** One metadata entry per transaction. *)
Definition btc_aligned (p : ConvertedPayload) : Prop :=
  length (p_TxMetaData p) = length (Txs (p_BlockPayload p)).

Definition btc_encodable (p : ConvertedPayload) : Prop :=
  (∀ codec raw, no_panic (RawdataToCid codec raw DBL_SHA2_256)) ∧
  no_panic (header_Serialize (Header (p_BlockPayload p))) ∧
  Forall (λ t, no_panic (tx_Serialize (tx_MsgTx t))) (Txs (p_BlockPayload p)).

Lemma btc_package_no_panic codec raw :
  (∀ codec raw, no_panic (RawdataToCid codec raw DBL_SHA2_256)) → no_panic (package codec raw).
Proof. intros Hc. apply rbind_no_panic; [apply Hc|done]. Qed.

Lemma btc_Filter_no_panic cfg p : btc_aligned p → btc_encodable p → no_panic (Filter cfg p).
Proof.
  intros Ha (Hc & Hh & Ht). unfold Filter. destruct (checkRange _ _ _); [|done].
  apply rbind_no_panic.
  - unfold filterHeaders. destruct (hf_Off _); [done|]. simpl.
    apply rbind_no_panic; [done|]. intros raw _. by apply btc_package_no_panic.
  - intros h _. apply rbind_no_panic; [|done]. unfold filterTransactions.
    destruct (tf_Off _); [done|]. simpl.
    rewrite filterTransactions_loop_selected by (unfold btc_aligned in Ha; lia). rewrite drop_0.
    apply range_collect_no_panic. intros x Hx. rewrite Forall_forall in Ht.
    apply rbind_no_panic; [by eapply Ht, zip_filter_l|]. intros raw _. by apply btc_package_no_panic.
Qed.

Lemma btc_Filter_number cfg p i : Filter cfg p = Ok i →
  ipld_BlockNumber i =
    if checkRange (i64 (Start cfg)) (i64 (End_ cfg)) (BlockHeight (p_BlockPayload p))
    then Some (BlockHeight (p_BlockPayload p)) else None.
Proof.
  unfold Filter. destruct (checkRange _ _ _); [|by intros [= <-]].
  by intros (h & _ & (ts & _ & [= <-])%rbind_Ok_inv)%rbind_Ok_inv.
Qed.

Lemma btc_checkRange_spec s e a : checkRange s e a = true ↔ (e ≤ 0 ∨ a ≤ e) ∧ s ≤ a.
Proof.
  unfold checkRange. rewrite Z.geb_leb.
  destruct (e <=? 0) eqn:?, (a <=? e) eqn:?, (s <=? a) eqn:?; simpl; zbool; intuition (try lia; done).
Qed.

Definition btc_past_end (cfg : SubscriptionSettings) (p : ConvertedPayload) : Prop :=
  0 < i64 (End_ cfg) < ConvertedPayload_Height p.

Lemma btc_verdict cfg p :
  btc_aligned p → btc_encodable p → (∀ i, no_panic (iplds_rlp i)) → is_ok (iplds_rlp IPLDs_zero) = true →
  (∃ w, verdict_of (Some p) (Some (cfg : Settings)) = Panic w) ↔
  ¬ btc_past_end cfg p ∧ ConvertedPayload_Height p < i64 (Start cfg).
Proof.
  intros Ha He Hr Hz. unfold verdict_of, btc_past_end. simpl.
  pose proof (btc_Filter_no_panic cfg p Ha He) as Hnp. pose proof (btc_Filter_number cfg p) as Hnum.
  pose proof (btc_checkRange_spec (i64 (Start cfg)) (i64 (End_ cfg)) (BlockHeight (p_BlockPayload p))) as Hc.
  unfold ConvertedPayload_Height in *. set (h := BlockHeight (p_BlockPayload p)) in *.
  assert (Hpast : (if 0 <? i64 (End_ cfg) then Ok (i64 (End_ cfg) <? h) else Ok false) =
    Ok (bool_decide (0 < i64 (End_ cfg) < h))).
  { destruct (Z.ltb_spec 0 (i64 (End_ cfg))), (Z.ltb_spec (i64 (End_ cfg)) h); case_bool_decide; try done; lia. }
  rewrite Hpast. simpl. case_bool_decide as Hp; [split; [by intros [w Hw]|tauto]|].
  destruct (checkRange (i64 (Start cfg)) (i64 (End_ cfg)) h) eqn:E.
  - split; [|intros [_ Hlt]; apply proj1 in Hc; destruct (Hc eq_refl); lia]. intros [w Hw]. exfalso.
    destruct (Filter cfg p) as [i|e|w']; [|done|done]. specialize (Hr i).
    destruct (iplds_rlp i); [|done|done]. unfold IPLDs_Height in Hw. by rewrite (Hnum i eq_refl) in Hw.
  - assert (Hstart : h < i64 (Start cfg)).
    { apply Z.lt_nge. intros Hle. apply proj2 in Hc. assert (false = true) as [=]. apply Hc. split; [lia|done]. }
    unfold Filter. fold h. rewrite E. simpl. destruct (iplds_rlp IPLDs_zero); [|done|done]. simpl.
    split; [done|]. intros _. by eexists.
Qed.

(** A Bitcoin payload takes the serving node down exactly when some
    subscription it is not past the end of starts above its height. *)
Theorem btc_future_start_crashes range_types range_subs sap p :
  (∀ m, range_types m ≡ₚ map_to_list m) → (∀ m, range_subs m ≡ₚ map_to_list m) →
  svc_ok sap → btc_aligned p → btc_encodable p → (∀ i, no_panic (iplds_rlp i)) →
  is_ok (iplds_rlp IPLDs_zero) = true →
  ((∃ w, filterAndServe range_types range_subs (Some p) sap = Panic w) ↔
   ∃ ty cfg, SubscriptionTypes sap !! ty = Some (cfg : Settings) ∧
     ¬ btc_past_end cfg p ∧ ConvertedPayload_Height p < i64 (Start cfg)).
Proof.
  intros Ht Hs Hok Ha He Hr Hz.
  rewrite (filterAndServe_panics (H:=btc_chain) range_types range_subs (Some p) sap Ht Hs Hok)
    by (intros r e; simpl; unfold IPLDs_Height; by destruct (ipld_BlockNumber r)).
  setoid_rewrite <- (btc_verdict _ p Ha He Hr Hz). naive_solver.
Qed.

(** ** The converter *)

Lemma imap_Forall2 {A B} (f : nat → A → B) l : Forall2 (λ x y, ∃ i, y = f i x) l (imap f l).
Proof.
  revert f. induction l as [|x l IH]; intros f; simpl; constructor; [by exists 0%nat|].
  eapply Forall2_impl; [apply (IH (f ∘ S))|]. intros y z [i ->]. by exists (S i).
Qed.

Lemma imap_index_NoDup {A B} (f : nat → A → B) (g : B → Z) l :
  (∀ i x, g (f i x) = Z.of_nat i) → NoDup (map g (imap f l)).
Proof.
  intros Hg. apply NoDup_alt. intros i j k Hi Hj. rewrite list_lookup_fmap, list_lookup_imap in Hi, Hj.
  destruct (l !! i), (l !! j); simpl in *; try done. rewrite Hg in Hi, Hj. injection Hi as <-. injection Hj as Hj. lia.
Qed.

Lemma convert_out_index p u : convert_out p.1 p.2 = Ok u → o_Index u = Z.of_nat p.1 ∧ o_Value u = out_Value p.2.
Proof.
  unfold convert_out. destruct (ExtractPkScriptAddrs _) as [[[sc ad] ns] err].
  by intros ([] & _ & [= <-])%rbind_Ok_inv.
Qed.

Lemma convert_outs_distinct outs us : range_collect (λ p, convert_out p.1 p.2) (imap pair outs) = Ok us →
  NoDup (map o_Index us) ∧ map o_Value us = map out_Value outs.
Proof.
  intros E%range_collect_Ok.
  assert (Hm : map o_Index us = map (λ p, Z.of_nat p.1) (imap pair outs) ∧ map o_Value us = map (λ p, out_Value p.2) (imap pair outs)).
  { clear -E. induction E as [|p u ps us [Hi Hv]%convert_out_index _ [IH1 IH2]]; [done|]. simpl.
    by rewrite Hi, Hv, IH1, IH2. }
  destruct Hm as [-> ->]. split; [by apply imap_index_NoDup|].
  apply list_eq. intros i. rewrite !list_lookup_fmap, list_lookup_imap. by destruct (outs !! i).
Qed.

(** A converted block keeps the block and has one metadata entry per
    transaction, in order, with the transaction's hash and position, the values
    of its outputs, and inputs and outputs numbered without repetition; an
    error of the script analysis of a standard class is the only failure. *)
Theorem btc_Convert_aligned b p : Convert b = Ok p →
  p_BlockPayload p = b ∧ btc_aligned p ∧ Forall distinct (p_TxMetaData p) ∧
  ∀ i t, Txs b !! i = Some t → ∃ m, p_TxMetaData p !! i = Some m ∧
    t_Index (m_Tx m) = Z.of_nat i ∧ t_TxHash (m_Tx m) = chainhash_String (tx_Hash (tx_MsgTx t)) ∧
    length (m_TxInputs m) = length (msg_TxIn (tx_MsgTx t)) ∧
    map o_Value (m_TxOutputs m) = map out_Value (msg_TxOut (tx_MsgTx t)).
Proof.
  intros (ms & E & [= <-])%rbind_Ok_inv. unfold btc_aligned. simpl.
  pose proof (range_collect_length _ _ _ E) as Hl. rewrite length_imap in Hl.
  apply range_collect_Ok in E.
  assert (Hd : ∀ i t m, Txs b !! i = Some t → ms !! i = Some m → convert_tx i t = Ok m).
  { intros i t m Ht Hm. assert (Hi : imap pair (Txs b) !! i = Some (i, t)) by (by rewrite list_lookup_imap, Ht).
    exact (Forall2_lookup_lr _ _ _ _ _ _ E Hi Hm). }
  assert (Hc : ∀ i t m, convert_tx i t = Ok m → distinct m ∧
    t_Index (m_Tx m) = Z.of_nat i ∧ t_TxHash (m_Tx m) = chainhash_String (tx_Hash (tx_MsgTx t)) ∧
    length (m_TxInputs m) = length (msg_TxIn (tx_MsgTx t)) ∧
    map o_Value (m_TxOutputs m) = map out_Value (msg_TxOut (tx_MsgTx t))).
  { intros i t m (us & [Hnd Hv]%convert_outs_distinct & [= <-])%rbind_Ok_inv.
    split_and!; [|done|done|by simpl; rewrite length_imap|done]. split; [by apply imap_index_NoDup|done]. }
  split_and!; [done|done| |].
  - apply Forall_lookup. intros i m Hm. destruct (lookup_lt_is_Some_2 (Txs b) i) as [t Ht].
    { apply lookup_lt_Some in Hm. lia. }
    by eapply Hc, Hd.
  - intros i t Ht. destruct (lookup_lt_is_Some_2 ms i) as [m Hm]; [apply lookup_lt_Some in Ht; lia|].
    exists m. split; [done|]. by eapply Hc, Hd.
Qed.

End BtcService.

(** ** Witnesses *)

Section Witnesses.
#[local] Existing Instance BtcIpld.Concrete.btc.
#[local] Existing Instance BtcIpld.Concrete.cidlib.
#[local] Existing Instance Geth.Concrete.geth.

Lemma btc_Convert_aligned_witness :
  Convert ex_payload = Ok ex_converted ∧ Forall distinct (p_TxMetaData ex_converted).
Proof.
  split; [vm_compute; reflexivity|].
  apply (btc_Convert_aligned ex_payload ex_converted). vm_compute. reflexivity.
Defined.

Definition ex_settings_rlp (sc : SubscriptionSettings) : result bytes := Ok [Start sc].
Definition ex_iplds_rlp (i : IPLDs) : result bytes := Ok [default 0 (ipld_BlockNumber i)].
#[local] Instance ex_chain : Chain := btc_chain ex_settings_rlp ex_iplds_rlp.

Definition ex_future : SubscriptionSettings := ex_sub 100 (mkTxFilter false false [] [] [] false []).

Definition ex_svc : Service :=
  add_subscriber (Keccak256Hash [100]) "s" (mkSub "s" 1 2) (ex_future : Settings)
    (mkService ∅ ∅ {[1%nat := mkChan 2 []]} {[2%nat := mkChan 1 []]} Bitcoin false).

Lemma btc_ex_svc_ok : svc_ok ex_svc.
Proof.
  apply add_subscriber_ok; [done..|]. by apply (svc_ok_maps (NewService Bitcoin)), NewService_ok.
Qed.

Lemma btc_future_start_crashes_witness :
  svc_ok ex_svc ∧ ∃ w, filterAndServe map_to_list map_to_list (Some (ex_converted : ConvertedData)) ex_svc = Panic w.
Proof.
  split; [exact btc_ex_svc_ok|].
  apply (btc_future_start_crashes ex_settings_rlp ex_iplds_rlp map_to_list map_to_list ex_svc ex_converted);
    [done|done|exact btc_ex_svc_ok|reflexivity| |done|done|].
  - split_and!; [intros; exact I|exact I|repeat constructor].
  - exists (Keccak256Hash [100]), ex_future.
    split_and!; [reflexivity|unfold btc_past_end; vm_compute; intros [H1 _]; discriminate|reflexivity].
Defined.

End Witnesses.
